(* ===== verification/_CoqProject ===== *)
-Q . S2P
Prelude.v
Bytes.v
Errors.v
Paths.v
Env.v
Queues.v
Keyboard.v
Terminal.v
Serial.v
LashParse.v
Allocator.v
ElfFile.v
Process.v
Sched.v
Paging.v
KernelSpace.v
Boot.v
Font.v
Console.v
Power.v
Pci.v
Ahci.v
Loader.v
UserProgram.v
Fat32.v
Gpt.v
RootFs.v
Storage.v
Services.v
Syscall.v
Arch.v
Lazer.v
Userland.v
LashPath.v
Lash.v
Selftest.v
Isolation.v
Startup.v
