(* ===== verification/Prelude.v ===== *)
(** * Lazers: a verification library for the Lazers kernel and its userland

    Lazers is a small x86-64 operating system in Rust: a UEFI loader, a kernel
    with paging, a cooperative scheduler, processes, a read-only FAT32 root
    filesystem and a terminal, and a few user programs with a shell.  This
    library translates its code into definitions that can be run, and proves
    what each part promises and how the parts fit together, from the loader's
    first call to the self-test program that runs as the first process.

    ** Conventions

    - Rust's [Result] and panics are the type [outcome] of this file: [Ok],
      [Err], [Panic] (an index out of range, a failed assertion, checked
      arithmetic that overflows, [expect] on [None]) and [Hang], a loop that
      still runs when its fuel is used up.  Theorems that exclude [Panic] and
      [Hang] are safety and termination theorems.
    - A loop is [while] with fuel that its theorem shows to be enough; the
      fuel is one more than a bound that the code's own guard gives (the
      length of a buffer, the capacity of a queue, the free ranges).  Cluster
      chains of the FAT and the ranges of a spinning device have no such
      bound: there the fuel is a parameter and the theorem gives an amount
      that suffices, or the loop is shown to diverge.
    - Bytes are [Z] in [0..255], slices and strings [list Z], indices [nat],
      machine words [Z] with their wrap-around written out ([Bytes]).
      Physical memory is a function from addresses to bytes.
    - State is passed explicitly: each module's static state is a record, and
      an operation returns the new one.  Where a failing operation leaves
      state behind that matters (pages taken, tables written), the error
      carries it; where it does not (the queue of a failed call), it is lost.
    - A Section's [Context] holds what lies outside the sources: the disk,
      the device registers, the firmware and its tables, the port
      instructions.  What the code relies on of them is a record of
      hypotheses named after the standard ([Ahci.ahci_port],
      [Pci.config_space], [Serial.uart], [Power.firmware]), and each has a
      concrete instance that a witness uses.

    ** The parts, from the bottom

    Each part reads its state and operations from the files named with it; a
    definition has the name of the function it translates.

    - [Prelude], [Bytes], [Errors]: outcomes, loops, list and byte lemmas;
      the helpers of libs/lzutil; the error enumerations and their messages.
    - [Allocator] (memory/allocator.rs, types.rs): the array of free ranges as
      an ordered list of disjoint ranges and as a set of addresses.
      [Paging] (memory/paging.rs): the page-table builder against the table
      walk of the processor ([translate]), on tables described by a finite
      map from index paths to pages ([tables_ok]).  [KernelSpace]
      (memory/kernel.rs, state.rs, libs/boot-info): the boot information, the
      allocator built from the memory map, the identity window and the ranges
      shared by every address space.
    - [ElfFile] (libs/elf), [Loader] and [UserProgram] (memory/loader.rs): the
      ELF reader, the startup block and its reader in liblazer's runtime, and
      the loading of a program with the release of its pages on failure.
    - [Fat32], [Gpt], [RootFs] (storage/): directories, cluster chains and
      files over a disk that reads sectors.  [Pci] and [Ahci] (pci.rs,
      storage/ahci.rs): the search for the controller and the reading of a
      sector through its registers and command structures.  [Storage] (the
      first half of mount_root_fs): both together, on an established kernel.
    - [Paths] (storage/path.rs), [Env] (env.rs), [Queues] (the byte and event
      queues behind the interface [Fifo]), [Keyboard], [Terminal], [Font],
      [Console]: text in and out, from scan codes to pixels.  [Serial]
      (serial.rs): the driver of the serial port under the terminal's log.
    - [Process], [Sched] (process.rs, thread.rs, scheduler/): the tables of
      processes and threads, spawning, switching, waiting and exiting.
      [Services], [Syscall] (scheduler/services.rs, syscall.rs, the traps of
      arch.rs): the whole kernel's state and the dispatch of a trap frame.
      [Power] (power.rs): the ACPI tables and the soft-off registers.
      [Arch] (arch.rs): the segment, task and interrupt descriptors as bytes
      and what the processor makes of them.
    - [Lazer] (libs/liblazer): the stubs and wrappers of user programs.
      [Userland] (user/echo, cat, ls, pwd), [LashParse], [LashPath], [Lash]
      (user/lash), [Selftest] (user/selftest): programs as interaction trees
      over liblazer's calls, and a system of kernel functions to run them on.
    - [Boot] (boot/uefi-loader): from the bytes of the kernel's file to the
      jump into the kernel, over the calls of the firmware.
    - [Isolation]: the memory invariant of the whole kernel, over a step
      relation of everything that runs after the start.
      [Startup] (main.rs, macros.rs): [kernel_main] with all the parts in the
      order of the code, the panic handler, and the stop of the system.

    Calls between parts are calls between the definitions: [Syscall.dispatch]
    runs [Services], which run [Sched], [RootFs] and [UserProgram]; these run
    [Paging] and [Allocator] on the same store.  Clients that only need a
    contract are proved against it: [Fifo] for queues, the [read_sector]
    parameter for the disk, the event type of [Userland] for the kernel,
    [KernelSpace.established] for what maps ranges after the set-up of memory
    (power control, the disk), the mapping function of [Power]'s search.

    ** What the theorems show

    - Memory: the allocator's operations are those of a set of free addresses
      and never hand out a page twice; mapping a page changes the translation
      of that page only; initialisation maps exactly the window, the
      framebuffer and the shared ranges, and keeps all other memory.
    - Programs: a loaded program sees its segments, a zeroed stack and its
      arguments; a failed load gives its pages back; the ELF reader is the
      inverse of a writer of images.
    - Processes: spawning is all or nothing; saved registers survive a switch;
      every thread that can run is scheduled in turn; every wait can be ended
      by the exits of the programs it waits for; a child's exit status reaches
      its parent; the scheduler never panics on states it
      can reach.
    - Isolation: through every step of the system (calls, traps, the terminal
      thread) the memory of each process but the running one is unchanged and
      disjoint from every other's.
    - The start: the loader enters the kernel with its image in memory and an
      honest memory map; the descriptor tables deliver every event of a
      program to its handler, in ring 0; [kernel_main] comes to the first
      switch with every part up and in a state that the isolation theorems
      start from; on any machine a start that fails halts in silence before
      the console is up and with the failed step's message after it.
    - The whole: the self-test program, run as the first process on any files
      that hold the system image, reports all its tests as passed.
    - Storage: files are read as their cluster chains say, names are found
      first match first, partitions by type or name; a sector read returns
      the disk's bytes or an error of the driver within its spin limits.
    - Text: the keyboard's state machine is a function of the scan codes; what
      is typed is read; what is written is the text whose glyphs the
      framebuffer shows; a session cannot erase what stood there before it;
      on a framebuffer of any size nothing is written outside it and nothing
      panics; the serial port transmits the log and nothing else.
    - Paths and environment: normalisation is the resolution of a stack of
      components, in the kernel and in the shell; the fixed arrays of the
      environment are an association list, through the system call layer up
      to liblazer.
    - The shell: the tokenizer is a grammar of quoted words; a line of
      commands runs as its chain of operators says, whatever the answers.
    - Power: well-formed firmware tables give their registers, any others an
      error.

    Theorems that state a defect ([Paging.map_4k_inside_large_page],
    [Fat32.cyclic_directory_never_returns], the examples that end [Console]
    and [Power]) describe the code as it is.

    ** Limits of the model

    - Interrupts are off in the kernel and there is one processor; threads
      switch only where they yield, so an operation is one step.
    - The processor's write protection in ring 0 (CR0.WP), caches and the
      translation buffer are not modelled; a new page table takes effect at
      once.  Assembly is modelled by its effect on registers and stack.
    - A user buffer is checked and accessed as a whole, as the code does it;
      the bytes of a partly filled buffer after an error are not stated.
    - The free memory of a failed operation is stated where the code accounts
      for it; kernel buffers leaked on an error path (see the findings of
      RootFs) stay taken.
    - The formatting of [core::fmt] is not modelled beyond the pieces that the
      printing functions get.
    - A child's reads of the keyboard while its parent waits are outside the
      theorem on typed lines.
    - Where a sum of addresses is not written as a wrapping or checking one,
      the model panics on overflow, as a build with overflow checks does; the
      release build wraps ([Paging.map_identity], [KernelSpace.add_usable]).
      The theorems that exclude [Panic] show that neither happens.
    - A user program is a tree of its calls, not its machine code: that the
      compiled program makes these calls is not stated.  In [Selftest] a
      child runs to its end before its parent goes on, which is what
      [Sched.child_status_reaches_parent] shows of the scheduler; the terminal
      thread does not run meanwhile, so what is read back is the serial line.
    - [Startup] follows one processor from the entry to the first switch.
      That a start which succeeds is sound is shown for machines with
      [Startup.sound_machine_info]: an acceptable header and framebuffer (as
      [Boot.kernel_handoff] ends with), fewer than 128 regions, well-formed
      firmware tables or none, and the disk as [Storage.attached_disk_reads]
      takes it: on the first port of the first AHCI controller, with registers
      outside of the window of physical memory, and with engines that may be
      switched together, which the standard does not promise.  What a failing
      start reports is shown for any machine.
    - A panic's text from the language's library is a parameter of [Startup].

    ** Not modelled

    - [port_io.rs], the assembly stubs and lgdt, lidt, hlt, mov cr3, iretq:
      single instructions, parameters of the definitions or their documented
      effect.
    - The static cells that hold a module's state ([UnsafeCell] behind a
      getter), attributes, re-exports and the [cfg(test)] modules.
    - The firmware itself, [core::fmt] and [core::str] beyond what is used.
    - The scripts and documents under tools/, docs/. *)

From stdpp Require Export prelude list numbers strings.
From Stdlib Require Export ZArith Lia.

(** ** Outcomes of Rust code

    [Ok] and [Err] are the constructors of Rust's [Result].  [Panic] is a
    Rust panic (an index out of range, a failed [assert!], [expect] on
    [None]).  [Hang] is a loop that is still running when its fuel is used
    up; a theorem that rules it out is a termination theorem. *)

Inductive outcome (E A : Type) : Type :=
| Ok (a : A)
| Err (e : E)
| Panic
| Hang.
Arguments Ok {E A} a.
Arguments Err {E A} e.
Arguments Panic {E A}.
Arguments Hang {E A}.

#[export] Instance outcome_ret E : MRet (outcome E) := λ A a, Ok a.
#[export] Instance outcome_bind E : MBind (outcome E) := λ A B f m,
  match m with
  | Ok a => f a
  | Err e => Err e
  | Panic => Panic
  | Hang => Hang
  end.
#[export] Instance outcome_fmap E : FMap (outcome E) := λ A B f m,
  match m with
  | Ok a => Ok (f a)
  | Err e => Err e
  | Panic => Panic
  | Hang => Hang
  end.

#[export] Instance outcome_eq_dec {E A} `{EqDecision E, EqDecision A} :
  EqDecision (outcome E A).
Proof. solve_decision. Defined.

(** [Result::map_err]. *)
Definition map_err {E F A} (f : E → F) (m : outcome E A) : outcome F A :=
  match m with
  | Ok a => Ok a
  | Err e => Err (f e)
  | Panic => Panic
  | Hang => Hang
  end.

(** [Option::ok_or]. *)
Definition ok_or {E A} (o : option A) (e : E) : outcome E A :=
  match o with Some a => Ok a | None => Err e end.

(** [Option::expect]: [None] panics. *)
Definition expect {E A} (o : option A) : outcome E A :=
  match o with Some a => Ok a | None => Panic end.

(** The computation ended with a value or an error, not with a panic and not
    by running out of fuel. *)
Definition returns {E A} (m : outcome E A) : Prop :=
  match m with Ok _ | Err _ => True | Panic | Hang => False end.

Definition is_Ok {E A} (m : outcome E A) : bool :=
  match m with Ok _ => true | _ => false end.

(** A [for] loop over a list whose body can stop the loop with [?]. *)
Fixpoint for_each {E S X} (body : S → X → outcome E S) (s : S) (xs : list X)
    : outcome E S :=
  match xs with
  | [] => Ok s
  | x :: xs => s' ← body s x; for_each body s' xs
  end.

(** A [while]/[loop]: the body answers [inl] to go round again and [inr] to
    leave the loop ([break], [return Ok], or the exit of the condition). *)
Fixpoint while {E S R} (fuel : nat) (body : S → outcome E (S + R)) (s : S)
    : outcome E R :=
  match fuel with
  | O => Hang
  | S fuel =>
      r ← body s;
      match r with
      | inl s' => while fuel body s'
      | inr x => Ok x
      end
  end.

(** ** Slices, indexing and in-place writes *)

(** [l[i]] *)
Definition get_at {E A} (l : list A) (i : nat) : outcome E A := expect (l !! i).

(** [l[i] = x] *)
Definition set_at {E A} (l : list A) (i : nat) (x : A) : outcome E (list A) :=
  if decide (i < length l) then Ok (<[i := x]> l) else Panic.

(** [&l[a..b]] *)
Definition sub {A} (l : list A) (a b : nat) : list A := take (b - a) (drop a l).
Definition slice {E A} (l : list A) (a b : nat) : outcome E (list A) :=
  if decide (a ≤ b ∧ b ≤ length l) then Ok (sub l a b) else Panic.

(** [l.get(a..b)] *)
Definition get_range {A} (l : list A) (a b : nat) : option (list A) :=
  if decide (a ≤ b ∧ b ≤ length l) then Some (sub l a b) else None.

(** [l[off..off + src.len()].copy_from_slice(src)] *)
Definition splice {A} (l : list A) (off : nat) (src : list A) : list A :=
  take off l ++ src ++ drop (off + length src) l.
Definition write_at {E A} (l : list A) (off : nat) (src : list A)
    : outcome E (list A) :=
  if decide (off + length src ≤ length l) then Ok (splice l off src) else Panic.

(** ** Shifting slots of a fixed array

    The loops with which the source closes a gap at [index] and opens one at
    [at_], in an array whose first [count] slots are in use. *)

Definition shift_down {E A} (l : list A) (index count : nat) : outcome E (list A) :=
  while (S count) (λ '(current, l),
    if decide (S current < count) then
      x ← get_at l (S current);
      l ← set_at l current x;
      Ok (inl (S current, l))
    else Ok (inr l)) (index, l).

Definition shift_up {E A} (l : list A) (at_ count : nat) : outcome E (list A) :=
  while (S count) (λ '(shift, l),
    if decide (at_ < shift) then
      x ← get_at l (shift - 1);
      l ← set_at l shift x;
      Ok (inl (shift - 1, l))
    else Ok (inr l)) (count, l).

(** * Lemmas shared by the components *)

(** ** Binds *)

Lemma bind_Ok {E A B} (m : outcome E A) (f : A → outcome E B) b :
  m ≫= f = Ok b ↔ ∃ a, m = Ok a ∧ f a = Ok b.
Proof. destruct m; cbn; naive_solver. Qed.

Lemma bind_Err {E A B} (m : outcome E A) (f : A → outcome E B) e :
  m ≫= f = Err e ↔ m = Err e ∨ ∃ a, m = Ok a ∧ f a = Err e.
Proof. destruct m; cbn; naive_solver. Qed.

Lemma bind_assoc {E A B C} (m : outcome E A) (f : A → outcome E B)
    (g : B → outcome E C) :
  (m ≫= f) ≫= g = m ≫= (λ a, f a ≫= g).
Proof. by destruct m. Qed.

Lemma bind_returns {E A B} (m : outcome E A) (f : A → outcome E B) :
  returns m → (∀ a, m = Ok a → returns (f a)) → returns (m ≫= f).
Proof. destruct m; cbn; naive_solver. Qed.

Lemma map_err_returns {E F A} (f : E → F) (m : outcome E A) :
  returns (map_err f m) ↔ returns m.
Proof. by destruct m. Qed.

Lemma ok_or_Ok {E A} (o : option A) (e : E) a : ok_or o e = Ok a ↔ o = Some a.
Proof. destruct o; cbn; naive_solver. Qed.

Lemma expect_Ok {E A} (o : option A) a : expect (E:=E) o = Ok a ↔ o = Some a.
Proof. destruct o; cbn; naive_solver. Qed.

(** ** Loops *)

(** The rule of a bounded loop: an invariant [I] and a measure [m] that every
    round decreases.  The postcondition is about the whole outcome, so it can
    say that the loop returns. *)
Lemma while_rule {E S R} (I : S → Prop) (m : S → nat) (Q : outcome E R → Prop)
    (body : S → outcome E (S + R)) :
  (∀ s, I s →
     match body s with
     | Ok (inl s') => I s' ∧ m s' < m s
     | Ok (inr r) => Q (Ok r)
     | Err e => Q (Err e)
     | Panic => Q Panic
     | Hang => Q Hang
     end) →
  ∀ fuel s, I s → m s < fuel → Q (while fuel body s).
Proof.
  intros Hbody fuel. induction fuel as [|fuel IH]; intros s Hs Hm; [lia|].
  specialize (Hbody s Hs). cbn.
  destruct (body s) as [[s'|r]| | |]; cbn; try done.
  destruct Hbody as [Hs' Hlt]. apply IH; [done|lia].
Qed.

(** More fuel never changes an outcome that is not [Hang]. *)
Lemma while_more {E S R} (body : S → outcome E (S + R)) fuel fuel' s :
  while fuel body s ≠ Hang → fuel ≤ fuel' →
  while fuel' body s = while fuel body s.
Proof.
  revert fuel' s. induction fuel as [|fuel IH]; intros fuel' s Hne Hle; [done|].
  destruct fuel' as [|fuel']; [lia|]. cbn in *.
  destruct (body s) as [[s'|r]| | |]; cbn in *; try done.
  apply IH; [done|lia].
Qed.

(** A loop whose every round goes round again uses up any fuel. *)
Lemma while_diverges {E S R} (I : S → Prop) (body : S → outcome E (S + R)) :
  (∀ s, I s → ∃ s', body s = Ok (inl s') ∧ I s') →
  ∀ fuel s, I s → while fuel body s = Hang.
Proof.
  intros Hbody fuel. induction fuel as [|fuel IH]; intros s Hs; [done|].
  destruct (Hbody s Hs) as (s' & Hb & Hs'). cbn. rewrite Hb. cbn. by apply IH.
Qed.

Lemma while_step {E S R} (body : S → outcome E (S + R)) fuel s s' :
  body s = Ok (inl s') → while (Datatypes.S fuel) body s = while fuel body s'.
Proof. intros Hb. cbn. by rewrite Hb. Qed.

Lemma while_exit {E S R} (body : S → outcome E (S + R)) fuel s r :
  body s = Ok (inr r) → while (Datatypes.S fuel) body s = Ok r.
Proof. intros Hb. cbn. by rewrite Hb. Qed.

Lemma for_each_app {E S X} (body : S → X → outcome E S) s xs ys :
  for_each body s (xs ++ ys) = (s' ← for_each body s xs; for_each body s' ys).
Proof.
  revert s. induction xs as [|x xs IH]; intros s; [done|]. cbn.
  rewrite bind_assoc. destruct (body s x); cbn; [apply IH|done..].
Qed.

(** ** What holds of a value, if there is one *)

Definition ensures {E A} (m : outcome E A) (P : A → Prop) : Prop := ∀ a, m = Ok a → P a.

Lemma ensures_any {E A} (m : outcome E A) : ensures m (λ _, True).
Proof. done. Qed.

Lemma ensures_Ok {E A} (a : A) (P : A → Prop) : P a → ensures (E:=E) (Ok a) P.
Proof. by intros Hp ? [= <-]. Qed.

Lemma ensures_Err {E A} e (P : A → Prop) : ensures (E:=E) (Err e) P.
Proof. done. Qed.

Lemma ensures_bind {E A B} (m : outcome E A) (f : A → outcome E B) P Q :
  ensures m P → (∀ a, P a → ensures (f a) Q) → ensures (m ≫= f) Q.
Proof. intros Hm Hf b (a & Ha & Hb)%bind_Ok. exact (Hf a (Hm a Ha) b Hb). Qed.

Lemma ensures_map_err {E F A} (f : E → F) (m : outcome E A) P :
  ensures m P → ensures (map_err f m) P.
Proof. destruct m as [x| | |]; cbn; intros Hm y Hy; try done. injection Hy as <-. by apply Hm. Qed.

Lemma ensures_while {E S R} (I : S → Prop) (Q : R → Prop) (body : S → outcome E (S + R)) fuel s :
  (∀ s, I s → ensures (body s) (λ x, match x with inl s => I s | inr r => Q r end)) →
  I s → ensures (while fuel body s) Q.
Proof.
  intros Hbody. revert s. induction fuel as [|fuel IH]; intros s Hs; [done|]. cbn.
  eapply ensures_bind; [by apply Hbody|]. intros [s'|r] H; [by apply IH|by apply ensures_Ok].
Qed.

Lemma ensures_write_at {E A} (l : list A) off src :
  ensures (write_at (E:=E) l off src) (λ l', length l' = length l ∧
    ∀ P : A → Prop, Forall P l → Forall P src → Forall P l').
Proof.
  intros l'. unfold write_at. case_decide as Hd; [|done]. intros [= <-]. split.
  - unfold splice. rewrite !length_app, length_take, length_drop. lia.
  - intros P Hl Hs. unfold splice. apply Forall_app; split; [by apply Forall_take|].
    apply Forall_app; split; [done|by apply Forall_drop].
Qed.

Lemma ensures_set_at {E A} (l : list A) i x :
  ensures (set_at (E:=E) l i x) (λ l', length l' = length l ∧
    ∀ P : A → Prop, Forall P l → P x → Forall P l').
Proof.
  intros l'. unfold set_at. case_decide; [|done]. intros [= <-]. split; [apply length_insert|].
  intros P Hl Hx. by apply Forall_insert.
Qed.

Lemma ensures_slice {E A} (l : list A) a b :
  ensures (slice (E:=E) l a b) (λ s, ∀ P : A → Prop, Forall P l → Forall P s).
Proof.
  intros s. unfold slice. case_decide; [|done]. intros [= <-] P Hl. unfold sub.
  by apply Forall_take, Forall_drop.
Qed.

(** ** Slices *)

Lemma length_sub {A} (l : list A) a b : b ≤ length l → length (sub l a b) = b - a.
Proof. intros. unfold sub. rewrite length_take, length_drop. lia. Qed.

Lemma sub_0 {A} (l : list A) b : sub l 0 b = take b l.
Proof. unfold sub. by rewrite Nat.sub_0_r, drop_0. Qed.

Lemma lookup_sub {A} (l : list A) a b i :
  i < b - a → sub l a b !! i = l !! (a + i).
Proof. intros. unfold sub. by rewrite lookup_take_lt, lookup_drop by lia. Qed.

Lemma slice_Ok {E A} (l : list A) a b :
  a ≤ b → b ≤ length l → slice (E:=E) l a b = Ok (sub l a b).
Proof. intros. unfold slice. by rewrite decide_True by lia. Qed.

Lemma slice_inv {E A} (l : list A) a b r :
  slice (E:=E) l a b = Ok r → r = sub l a b ∧ a ≤ b ≤ length l.
Proof. unfold slice. case_decide; naive_solver. Qed.

Lemma get_at_Ok {E A} (l : list A) i x :
  l !! i = Some x → get_at (E:=E) l i = Ok x.
Proof. unfold get_at. by intros ->. Qed.

Lemma set_at_Ok {E A} (l : list A) i x :
  i < length l → set_at (E:=E) l i x = Ok (<[i := x]> l).
Proof. intros. unfold set_at. by rewrite decide_True by lia. Qed.

Lemma write_at_Ok {E A} (l : list A) off src :
  off + length src ≤ length l → write_at (E:=E) l off src = Ok (splice l off src).
Proof. intros. unfold write_at. by rewrite decide_True by lia. Qed.

Lemma length_splice {A} (l : list A) off src :
  off + length src ≤ length l → length (splice l off src) = length l.
Proof.
  intros. unfold splice. rewrite !length_app, length_take, length_drop. lia.
Qed.

(** What stands before and inside the written range. *)
Lemma take_splice {A} (l : list A) off src :
  off + length src ≤ length l →
  take (off + length src) (splice l off src) = take off l ++ src.
Proof.
  intros. unfold splice. rewrite app_assoc.
  apply take_app_length'. rewrite length_app, length_take. lia.
Qed.

Lemma take_splice_0 {A} (l : list A) src :
  length src ≤ length l → take (length src) (splice l 0 src) = src.
Proof. intros. by apply (take_splice l 0). Qed.

Lemma take_splice_before {A} (l : list A) off src n :
  n ≤ off → off ≤ length l → take n (splice l off src) = take n l.
Proof.
  intros. unfold splice. rewrite take_app_le by (rewrite length_take; lia).
  rewrite take_take. f_equal. lia.
Qed.

Lemma drop_splice_after {A} (l : list A) off src n :
  off + length src ≤ n → off + length src ≤ length l →
  drop n (splice l off src) = drop n l.
Proof.
  intros. unfold splice. rewrite app_assoc.
  assert (length (take off l ++ src) = off + length src) as Hlen
    by (rewrite length_app, length_take; lia).
  rewrite drop_app_ge by lia. rewrite Hlen, drop_drop. f_equal. lia.
Qed.

Lemma sub_split {A} (l : list A) a b c :
  a ≤ b → b ≤ c → sub l a c = sub l a b ++ sub l b c.
Proof.
  intros. unfold sub. replace (drop b l) with (drop (b - a) (drop a l)).
  - rewrite <-(take_drop (b - a) (take (c - a) (drop a l))) at 1. rewrite take_take, Nat.min_l by lia.
    f_equal. rewrite (take_drop_commute (drop a l) (c - b)). do 2 f_equal. lia.
  - rewrite drop_drop. f_equal. lia.
Qed.

Lemma lookup_sub_inv {A} (l : list A) a b i x :
  sub l a b !! i = Some x → i < b - a ∧ l !! (a + i) = Some x.
Proof.
  intros Hi. unfold sub in Hi. apply lookup_take_Some in Hi as [Hi ?].
  by rewrite lookup_drop in Hi.
Qed.

Lemma sub_nil {A} (l : list A) a : sub l a a = [].
Proof. unfold sub. by rewrite Nat.sub_diag. Qed.

Lemma sub_snoc {A} (l : list A) a b x :
  a ≤ b → l !! b = Some x → sub l a (b + 1) = sub l a b ++ [x].
Proof.
  intros Hab Hx. rewrite (sub_split l a b (b + 1)) by lia. f_equal.
  unfold sub. replace (b + 1 - b) with 1 by lia. rewrite (drop_S _ _ _ Hx). done.
Qed.

Lemma sub_sub {A} (l : list A) a b c d : d ≤ b - a → sub (sub l a b) c d = sub l (a + c) (a + d).
Proof.
  intros Hd. apply list_eq. intros i. destruct (decide (i < d - c)).
  - rewrite !lookup_sub by lia. f_equal. lia.
  - unfold sub. rewrite !lookup_take_ge by lia. done.
Qed.

(** Within one of the pieces, all [n] long, of a list. *)
Lemma sub_concat {A} n (ls : list (list A)) i w k j :
  Forall (λ l, length l = n) ls → ls !! i = Some w → k + j ≤ n →
  sub (concat ls) (n * i + k) (n * i + k + j) = sub w k (k + j).
Proof.
  intros Hn Hi Hkj. rewrite <-(take_drop_middle ls i w Hi), concat_app. cbn [concat].
  assert (length (concat (take i ls)) = n * i) as Hl.
  { apply lookup_lt_Some in Hi. rewrite <-(length_take_le ls i) at 2 by lia.
    assert (Forall (λ l, length l = n) (take i ls)) as Ht by by apply Forall_take.
    induction Ht as [|x xs Hx _ IH]; cbn [concat length]; [lia|]. rewrite length_app, IH, Hx. lia. }
  assert (length w = n) as Hw by (by eapply (Forall_lookup_1 _ _ _ _ Hn)).
  unfold sub. replace (n * i + k + j - (n * i + k)) with j by lia. replace (k + j - k) with j by lia.
  rewrite <-Hl, <-drop_drop, drop_app_length, drop_app_le, take_app_le by (rewrite ?length_drop; lia). done.
Qed.

(** Writing the next piece right after what has been written. *)
Lemma splice_next {A} (l a b : list A) :
  length a + length b ≤ length l →
  splice (splice l 0 a) (length a) b = splice l 0 (a ++ b).
Proof.
  intros. unfold splice at 1. rewrite take_splice_0, drop_splice_after by (cbn; lia).
  unfold splice. cbn. rewrite length_app, <-app_assoc. done.
Qed.

(** The same for a piece written further right. *)
Lemma splice_adjacent {A} (l a b : list A) i :
  i + length a + length b ≤ length l →
  splice (splice l i a) (i + length a) b = splice l i (a ++ b).
Proof.
  intros. unfold splice at 1. rewrite take_splice, drop_splice_after by lia.
  unfold splice. by rewrite length_app, Nat.add_assoc, !app_assoc.
Qed.

Lemma splice_0_nil {A} (l : list A) : splice l 0 [] = l.
Proof. done. Qed.

Lemma splice_single {A} (l : list A) i x :
  i < length l → splice l i [x] = <[i := x]> l.
Proof.
  intros. unfold splice. cbn. rewrite insert_take_drop by done.
  by replace (i + 1) with (S i) by lia.
Qed.

Lemma write_at_next {E A} (l a b : list A) n :
  n = length a → length a + length b ≤ length l →
  write_at (E:=E) (splice l 0 a) n b = Ok (splice l 0 (a ++ b)).
Proof.
  intros -> ?. rewrite write_at_Ok by (rewrite length_splice; cbn; lia).
  by rewrite splice_next.
Qed.

Lemma set_at_next {E A} (l a : list A) n x :
  n = length a → length a < length l →
  set_at (E:=E) (splice l 0 a) n x = Ok (splice l 0 (a ++ [x])).
Proof.
  intros -> ?. rewrite set_at_Ok by (rewrite length_splice; cbn; lia).
  by rewrite <-splice_single, splice_next by (rewrite ?length_splice; cbn; lia).
Qed.

Lemma take_insert_S {A} (l : list A) i x :
  i < length l → take (S i) (<[i := x]> l) = take i l ++ [x].
Proof.
  intros. rewrite <-splice_single by done.
  replace (S i) with (i + length [x]) by (cbn; lia). by apply take_splice; cbn; lia.
Qed.

Lemma sublist_Forall {A} (P : A → Prop) (k l : list A) :
  sublist k l → Forall P l → Forall P k.
Proof. rewrite !Forall_forall. intros Hs Hl x Hx. eapply Hl, elem_of_sublist; eauto. Qed.

Lemma sublist_same_length {A} (k l : list A) :
  sublist k l → length l ≤ length k → k = l.
Proof.
  induction 1 as [|x k l Hs IH|x k l Hs IH]; cbn; intros Hl; [done|f_equal; apply IH; lia|].
  apply sublist_length in Hs. lia.
Qed.

Lemma take_take_app {A} n (l k : list A) : take n (take n l ++ k) = take n (l ++ k).
Proof.
  destruct (decide (length l ≤ n)); [by rewrite (take_ge l)|].
  rewrite !take_app_le, take_take, Nat.min_id; [done|lia|rewrite length_take; lia].
Qed.

(** ** Shifting *)

Lemma shift_down_spec {E A} (l : list A) index count :
  index < count ≤ length l →
  ∃ l', shift_down (E:=E) l index count = Ok l' ∧ length l' = length l ∧
    (∀ P : A → Prop, Forall P l → Forall P l') ∧
    take (count - 1) l' = take index l ++ sub l (S index) count.
Proof.
  intros Hc. unfold shift_down.
  apply (while_rule
    (λ '(c, l'), index ≤ c < count ∧ length l' = length l ∧
       (∀ j, j < index → l' !! j = l !! j) ∧
       (∀ j, index ≤ j < c → l' !! j = l !! S j) ∧
       (∀ j, c ≤ j → l' !! j = l !! j))
    (λ '(c, _), count - c)
    (λ o, ∃ l', o = Ok l' ∧ length l' = length l ∧
      (∀ P : A → Prop, Forall P l → Forall P l') ∧
      take (count - 1) l' = take index l ++ sub l (S index) count)); [|naive_solver lia|lia].
  intros [c l'] (Hi & Hl & H1 & H2 & H3). case_decide.
  - destruct (lookup_lt_is_Some_2 l' (S c)) as [x Hx]; [lia|].
    rewrite (get_at_Ok _ _ _ Hx). cbn. rewrite set_at_Ok by lia. cbn.
    rewrite length_insert. repeat split; try lia.
    + intros j Hj. rewrite list_lookup_insert_ne by lia. by apply H1.
    + intros j Hj. destruct (decide (j = c)) as [->|].
      * rewrite list_lookup_insert_eq by lia. rewrite <-Hx. by apply H3; lia.
      * rewrite list_lookup_insert_ne by lia. apply H2. lia.
    + intros j Hj. rewrite list_lookup_insert_ne by lia. apply H3. lia.
  - exists l'. split; [done|]. split; [done|]. split.
    { intros P HP. apply Forall_lookup. intros j x Hx.
      destruct (decide (j < index)); [rewrite H1 in Hx by lia; by eapply Forall_lookup_1|].
      destruct (decide (j < c)); [rewrite H2 in Hx by lia|rewrite H3 in Hx by lia];
        by eapply Forall_lookup_1. }
    apply list_eq. intros j.
    destruct (decide (j < index)).
    { rewrite lookup_take_lt, lookup_app_l, lookup_take_lt by (rewrite ?length_take; lia).
      by apply H1. }
    destruct (decide (j < count - 1)).
    { rewrite lookup_take_lt, lookup_app_r by (rewrite ?length_take; lia).
      rewrite length_take, lookup_sub by lia. rewrite H2 by lia. f_equal. lia. }
    rewrite !lookup_ge_None_2; [done| |rewrite length_take; lia].
    rewrite length_app, length_sub, length_take by lia. lia.
Qed.

Lemma shift_up_spec {E A} (l : list A) at_ count :
  at_ ≤ count < length l →
  ∃ l', shift_up (E:=E) l at_ count = Ok l' ∧ length l' = length l ∧
    ∀ x, take (S count) (<[at_ := x]> l') = take at_ l ++ x :: sub l at_ count.
Proof.
  intros Hc. unfold shift_up.
  apply (while_rule
    (λ '(s, l'), at_ ≤ s ≤ count ∧ length l' = length l ∧
       (∀ j, j ≤ s → l' !! j = l !! j) ∧
       (∀ j, s < j ≤ count → l' !! j = l !! (j - 1)))
    (λ '(s, _), s)
    (λ o, ∃ l', o = Ok l' ∧ length l' = length l ∧
      ∀ x, take (S count) (<[at_ := x]> l') = take at_ l ++ x :: sub l at_ count));
    [|naive_solver lia|lia].
  intros [s l'] (Hi & Hl & H1 & H2). case_decide.
  - destruct (lookup_lt_is_Some_2 l' (s - 1)) as [x Hx]; [lia|].
    rewrite (get_at_Ok _ _ _ Hx). cbn. rewrite set_at_Ok by lia. cbn.
    rewrite length_insert. repeat split; try lia.
    + intros j Hj. rewrite list_lookup_insert_ne by lia. apply H1. lia.
    + intros j Hj. destruct (decide (j = s)) as [->|].
      * rewrite list_lookup_insert_eq by lia. rewrite <-Hx. apply H1. lia.
      * rewrite list_lookup_insert_ne by lia. apply H2. lia.
  - exists l'. split; [done|]. split; [done|]. intros x. apply list_eq. intros j.
    destruct (decide (j < at_)).
    { rewrite lookup_take_lt, list_lookup_insert_ne by lia.
      rewrite lookup_app_l, lookup_take_lt by (rewrite ?length_take; lia). apply H1. lia. }
    destruct (decide (j ≤ count)).
    { rewrite lookup_take_lt by lia. rewrite lookup_app_r by (rewrite length_take; lia).
      rewrite length_take, Nat.min_l by lia. destruct (decide (j = at_)) as [->|].
      - by rewrite list_lookup_insert_eq, Nat.sub_diag by lia.
      - rewrite list_lookup_insert_ne, H2 by lia.
        rewrite lookup_cons_ne_0 by lia. rewrite lookup_sub by lia. f_equal. lia. }
    rewrite !lookup_ge_None_2; [done| |rewrite length_take; lia].
    rewrite length_app, length_cons, length_sub, length_take by lia. lia.
Qed.

(** ** Automation *)

Create Rewrite HintDb lz.
#[export] Hint Rewrite @length_sub @length_splice @length_insert
  @length_take @length_drop @length_app @length_replicate @length_fmap
  using (cbn; lia) : lz.
#[export] Hint Rewrite @slice_Ok @write_at_Ok @set_at_Ok using (cbn in *; lia) : lz.

(** Splits a goal [m ≫= f = Ok b] in a hypothesis into its steps. *)
Ltac inv_ok :=
  repeat match goal with
  | H : _ ≫= _ = Ok _ |- _ =>
      apply bind_Ok in H as (? & ? & H)
  | H : Ok _ = Ok _ |- _ => injection H as H
  | H : Ok _ = Err _ |- _ => discriminate H
  | H : Err _ = Ok _ |- _ => discriminate H
  | H : Panic = Ok _ |- _ => discriminate H
  | H : Hang = Ok _ |- _ => discriminate H
  | H : ok_or _ _ = Ok _ |- _ => apply ok_or_Ok in H
  | H : expect _ = Ok _ |- _ => apply expect_Ok in H
  end.
