(* ===== verification/Bytes.v ===== *)
(** * Bytes, machine words and strings

    The shared helpers of [libs/lzutil/src/lib.rs] (alignment and
    little-endian reads), and what the source uses of Rust's core library on
    bytes: 64-bit wrap-around, [from_le_bytes], [core::str::from_utf8],
    [str::split] and ASCII case.  A byte is a [Z] in [0..255], a [&[u8]] or a
    [&str] is a [list Z]; indices into arrays are [nat], 64-bit quantities
    whose overflow matters are [Z] with the wrap written out. *)

From S2P Require Import Prelude.

Local Open Scope Z_scope.

(** ** Machine words *)

Definition u64_modulus : Z := 2 ^ 64.
Definition u64_max : Z := 2 ^ 64 - 1.
Definition is_u64 (z : Z) : Prop := 0 ≤ z < 2 ^ 64.

(** The value a 64-bit register holds after an operation (release builds
    wrap). *)
Definition u64 (z : Z) : Z := z mod 2 ^ 64.

(** [!x] on a [u64]. *)
Definition u64_not (x : Z) : Z := Z.ldiff (Z.ones 64) x.

(** [u64::checked_add] and [u64::checked_mul]. *)
Definition checked_add (a b : Z) : option Z :=
  if decide (a + b < 2 ^ 64) then Some (a + b) else None.
Definition checked_mul (a b : Z) : option Z :=
  if decide (a * b < 2 ^ 64) then Some (a * b) else None.

Definition align_down (value align : Z) : Z :=
  Z.land value (u64_not (u64 (align - 1))).

Definition align_up (value align : Z) : Z :=
  if value =? 0 then 0
  else Z.land (u64 (u64 (value + align) - 1)) (u64_not (u64 (align - 1))).

(** ** Bytes *)

Definition is_byte (b : Z) : Prop := 0 ≤ b < 256.
Definition is_byteb (b : Z) : bool := (0 <=? b) && (b <? 256).
Definition bytes_ok (l : list Z) : Prop := Forall is_byte l.

(** [uN::from_le_bytes] and [uN::to_le_bytes]. *)
Fixpoint from_le_bytes (l : list Z) : Z :=
  match l with
  | [] => 0
  | b :: l => b + 256 * from_le_bytes l
  end.

Fixpoint to_le_bytes (n : nat) (v : Z) : list Z :=
  match n with
  | O => []
  | S n => v mod 256 :: to_le_bytes n (v / 256)
  end.

Definition read_le_u16 {E} (bytes : list Z) (offset : nat) : outcome E Z :=
  s ← slice bytes offset (offset + 2); Ok (from_le_bytes s).
Definition read_le_u32 {E} (bytes : list Z) (offset : nat) : outcome E Z :=
  s ← slice bytes offset (offset + 4); Ok (from_le_bytes s).
Definition read_le_u64 {E} (bytes : list Z) (offset : nat) : outcome E Z :=
  s ← slice bytes offset (offset + 8); Ok (from_le_bytes s).

(** [bytes.get(a..b)] where the bounds are 64-bit quantities. *)
Definition get_rangeZ (bytes : list Z) (a b : Z) : option (list Z) :=
  if decide (a ≤ b ≤ Z.of_nat (length bytes)) then Some (sub bytes (Z.to_nat a) (Z.to_nat b))
  else None.

(** ** Characters *)

Definition ascii (c : String.string) : list Z :=
  map (λ a, Z.of_N (Ascii.N_of_ascii a)) (String.list_ascii_of_string c).
Arguments ascii c%_string.

Definition is_ascii_digit (b : Z) : bool := (48 <=? b) && (b <=? 57).
Definition is_ascii_uppercase (b : Z) : bool := (65 <=? b) && (b <=? 90).
Definition is_ascii_lowercase (b : Z) : bool := (97 <=? b) && (b <=? 122).
Definition is_ascii_alphanumeric (b : Z) : bool :=
  is_ascii_digit b || is_ascii_uppercase b || is_ascii_lowercase b.
Definition to_ascii_uppercase (b : Z) : Z :=
  if is_ascii_lowercase b then b - 32 else b.

Definition SPACE : Z := 32.
Definition NEWLINE : Z := 10.
Definition SLASH : Z := 47.
Definition DOT : Z := 46.
Definition EQUALS : Z := 61.

(** ** [core::str::from_utf8]

    The well-formed byte sequences of the Unicode standard (table 3-7). *)

Definition in_range (lo hi b : Z) : bool := (lo <=? b) && (b <=? hi).
Definition is_cont (b : Z) : bool := in_range 128 191 b.

Fixpoint utf8_valid (l : list Z) : bool :=
  match l with
  | [] => true
  | b0 :: r0 =>
      if in_range 0 127 b0 then utf8_valid r0 else
      match r0 with
      | [] => false
      | b1 :: r1 =>
          if in_range 194 223 b0 && is_cont b1 then utf8_valid r1 else
          match r1 with
          | [] => false
          | b2 :: r2 =>
              if (((b0 =? 224) && in_range 160 191 b1)
                  || (in_range 225 236 b0 && is_cont b1)
                  || ((b0 =? 237) && in_range 128 159 b1)
                  || (in_range 238 239 b0 && is_cont b1))
                 && is_cont b2
              then utf8_valid r2 else
              match r2 with
              | [] => false
              | b3 :: r3 =>
                  if (((b0 =? 240) && in_range 144 191 b1)
                      || (in_range 241 243 b0 && is_cont b1)
                      || ((b0 =? 244) && in_range 128 143 b1))
                     && is_cont b2 && is_cont b3
                  then utf8_valid r3 else false
              end
          end
      end
  end.

Definition from_utf8 (l : list Z) : option (list Z) :=
  if utf8_valid l then Some l else None.

(** [str::split] on one ASCII character. *)
Fixpoint split_on (sep : Z) (l : list Z) : list (list Z) :=
  match l with
  | [] => [[]]
  | b :: l =>
      if b =? sep then [] :: split_on sep l
      else match split_on sep l with
           | [] => [[b]]
           | w :: ws => (b :: w) :: ws
           end
  end.

(** What [split_on] inverts: the pieces joined by the separator. *)
Fixpoint join_with (sep : Z) (ws : list (list Z)) : list Z :=
  match ws with
  | [] => []
  | [w] => w
  | w :: ws => w ++ sep :: join_with sep ws
  end.

Definition starts_with (b : Z) (l : list Z) : bool :=
  match l with
  | [] => false
  | c :: _ => b =? c
  end.

Definition contains (b : Z) (l : list Z) : bool := existsb (Z.eqb b) l.

(** * Lemmas *)

Lemma contains_In b l : contains b l = true ↔ In b l.
Proof.
  unfold contains. rewrite existsb_exists. split.
  - intros (x & Hx & He). apply Z.eqb_eq in He. by subst.
  - intros. exists b. split; [done|apply Z.eqb_refl].
Qed.

Lemma contains_false b l : contains b l = false ↔ ¬ In b l.
Proof. rewrite <-contains_In. by destruct (contains b l). Qed.

(** ** Words *)

Lemma u64_small z : is_u64 z → u64 z = z.
Proof. intros. by apply Z.mod_small. Qed.

Lemma is_u64_u64 z : is_u64 (u64 z).
Proof. by apply Z.mod_pos_bound. Qed.

Lemma checked_add_Some a b c :
  checked_add a b = Some c ↔ c = a + b ∧ a + b < 2 ^ 64.
Proof. unfold checked_add. case_decide; naive_solver lia. Qed.

Lemma checked_mul_Some a b c :
  checked_mul a b = Some c ↔ c = a * b ∧ a * b < 2 ^ 64.
Proof. unfold checked_mul. case_decide; naive_solver lia. Qed.

Lemma u64_not_mask k : 0 ≤ k < 64 → u64_not (u64 (2 ^ k - 1)) = Z.ldiff (Z.ones 64) (Z.ones k).
Proof.
  intros Hk. unfold u64_not. rewrite u64_small.
  - by rewrite (Z.ones_equiv k), Z.sub_1_r.
  - assert (2 ^ k < 2 ^ 64) by (apply Z.pow_lt_mono_r; lia).
    assert (0 < 2 ^ k) by (apply Z.pow_pos_nonneg; lia). unfold is_u64. lia.
Qed.

Lemma land_mask v k :
  0 ≤ k < 64 → is_u64 v →
  Z.land v (u64_not (u64 (2 ^ k - 1))) = v / 2 ^ k * 2 ^ k.
Proof.
  intros Hk Hv. rewrite u64_not_mask by done.
  transitivity (Z.ldiff v (Z.ones k)).
  - apply Z.bits_inj'. intros n Hn. rewrite !Z.land_spec, !Z.ldiff_spec.
    destruct (decide (n < 64)).
    + rewrite (Z.ones_spec_low 64) by lia. by rewrite andb_true_l.
    + rewrite (Z.ones_spec_high 64), andb_false_r by lia.
      destruct (decide (v = 0)) as [->|]; [by rewrite Z.bits_0|].
      rewrite Z.bits_above_log2; [done|apply Hv|].
      apply Z.log2_lt_pow2; [destruct Hv; lia|].
      eapply Z.lt_le_trans; [apply Hv|]. apply Z.pow_le_mono_r; lia.
  - rewrite Z.ldiff_ones_r by lia.
    by rewrite Z.shiftl_mul_pow2, Z.shiftr_div_pow2 by lia.
Qed.

Lemma align_down_pow2 v k :
  0 ≤ k < 64 → is_u64 v → align_down v (2 ^ k) = v / 2 ^ k * 2 ^ k.
Proof. apply land_mask. Qed.

Lemma align_up_pow2 v k :
  0 ≤ k < 64 → is_u64 v → v + 2 ^ k ≤ 2 ^ 64 →
  align_up v (2 ^ k) = (v + 2 ^ k - 1) / 2 ^ k * 2 ^ k.
Proof.
  intros Hk Hv Hle. assert (0 < 2 ^ k) by (apply Z.pow_pos_nonneg; lia).
  unfold align_up. destruct (Z.eqb_spec v 0) as [->|Hne].
  - rewrite Z.div_small by lia. lia.
  - assert (u64 (u64 (v + 2 ^ k) - 1) = v + 2 ^ k - 1) as ->.
    { unfold u64. rewrite Zminus_mod_idemp_l. apply Z.mod_small.
      destruct Hv. lia. }
    apply land_mask; [done|]. destruct Hv. unfold is_u64. lia.
Qed.

(** ** Bytes *)

#[export] Instance is_byte_dec b : Decision (is_byte b).
Proof. unfold is_byte. apply _. Defined.

(** A decidable fact about bytes, by enumeration. *)
Lemma byte_enum (P : Z → bool) b :
  forallb P (seqZ 0 256) = true → is_byte b → P b = true.
Proof.
  intros HP Hb. rewrite forallb_forall in HP. apply HP, list_elem_of_In, elem_of_seqZ.
  unfold is_byte in Hb. lia.
Qed.

Tactic Notation "byte_fact" constr(b) constr(Hb) constr(P) "as" ident(H) :=
  assert (P b = true) as H by (apply (byte_enum P b); [vm_compute; reflexivity|exact Hb]);
  cbv beta in H.

Lemma length_to_le_bytes n v : length (to_le_bytes n v) = n.
Proof. revert v. induction n; intros; cbn; [done|by rewrite IHn]. Qed.

Lemma to_le_bytes_ok n v : bytes_ok (to_le_bytes n v).
Proof.
  revert v. induction n; intros; cbn; constructor; [|apply IHn].
  by apply Z.mod_pos_bound.
Qed.

Lemma from_le_bytes_bound l :
  bytes_ok l → 0 ≤ from_le_bytes l < 256 ^ Z.of_nat (length l).
Proof.
  induction 1 as [|b l Hb _ IH]; cbn -[Z.pow]; [lia|].
  rewrite Nat2Z.inj_succ, Z.pow_succ_r by lia. unfold is_byte in Hb. lia.
Qed.

Lemma from_to_le_bytes n v :
  0 ≤ v < 256 ^ Z.of_nat n → from_le_bytes (to_le_bytes n v) = v.
Proof.
  revert v. induction n as [|n IH]; intros v Hv; cbn -[Z.pow] in *; [lia|].
  rewrite Nat2Z.inj_succ, Z.pow_succ_r in Hv by lia.
  rewrite IH; [pose proof (Z.div_mod v 256); lia|].
  split; [apply Z.div_pos; lia|]. apply Z.div_lt_upper_bound; lia.
Qed.

Lemma to_from_le_bytes l :
  bytes_ok l → to_le_bytes (length l) (from_le_bytes l) = l.
Proof.
  induction 1 as [|b l Hb _ IH]; cbn; [done|].
  unfold is_byte in Hb.
  assert ((b + 256 * from_le_bytes l) mod 256 = b) as -> by (Z.div_mod_to_equations; lia).
  assert ((b + 256 * from_le_bytes l) / 256 = from_le_bytes l) as ->
    by (Z.div_mod_to_equations; lia).
  by rewrite IH.
Qed.

(** Reading a field of a byte buffer: where it lies within the buffer, and
    the little-endian bytes standing at the offset. *)
Lemma sub_app_middle {A} (p m s : list A) :
  sub (p ++ m ++ s) (length p) (length p + length m) = m.
Proof.
  unfold sub. rewrite drop_app_length.
  replace (length p + length m - length p)%nat with (length m) by lia.
  apply take_app_length.
Qed.

Lemma bytes_ok_app a b : bytes_ok (a ++ b) ↔ bytes_ok a ∧ bytes_ok b.
Proof. apply Forall_app. Qed.

Lemma bytes_ok_sub l a b : bytes_ok l → bytes_ok (sub l a b).
Proof. intros. by apply Forall_take, Forall_drop. Qed.

Section read.
Context {E : Type}.

Lemma read_le_u16_returns (bytes : list Z) offset :
  (offset + 2 ≤ length bytes)%nat →
  read_le_u16 (E:=E) bytes offset = Ok (from_le_bytes (sub bytes offset (offset + 2))).
Proof. intros. unfold read_le_u16. by rewrite slice_Ok by lia. Qed.

Lemma read_le_u32_returns (bytes : list Z) offset :
  (offset + 4 ≤ length bytes)%nat →
  read_le_u32 (E:=E) bytes offset = Ok (from_le_bytes (sub bytes offset (offset + 4))).
Proof. intros. unfold read_le_u32. by rewrite slice_Ok by lia. Qed.

Lemma read_le_u32_bound (bytes : list Z) offset :
  bytes_ok bytes → ensures (read_le_u32 (E:=E) bytes offset) (λ n, 0 ≤ n < 2 ^ 32).
Proof.
  intros Hb n. unfold read_le_u32, slice. case_decide as Hd; [|done]. cbn. intros [= <-].
  pose proof (from_le_bytes_bound (sub bytes offset (offset + 4)) ltac:(by apply Forall_take, Forall_drop)) as H.
  rewrite length_sub in H by lia. by replace (offset + 4 - offset)%nat with 4%nat in H by lia.
Qed.

Lemma read_le_u64_returns (bytes : list Z) offset :
  (offset + 8 ≤ length bytes)%nat →
  read_le_u64 (E:=E) bytes offset = Ok (from_le_bytes (sub bytes offset (offset + 8))).
Proof. intros. unfold read_le_u64. by rewrite slice_Ok by lia. Qed.
End read.

(** ** UTF-8 *)

Ltac utf8_cases :=
  repeat match goal with
  | |- context [if ?b then _ else _] => destruct b eqn:?
  | H : context [if ?b then _ else _] |- _ => destruct b eqn:?
  end.

(** Concatenation, and cutting a string at an ASCII character. *)
Lemma utf8_app a b : utf8_valid a = true → utf8_valid b = true → utf8_valid (a ++ b) = true.
Proof.
  intros Ha Hb. remember (length a) as n eqn:Hn.
  revert a Hn Ha. induction (lt_wf n) as [n _ IH]; intros a -> Ha.
  destruct a as [|b0 a]; [done|]. cbn in Ha |- *.
  destruct (in_range 0 127 b0); [eapply IH; [|done..]; cbn; lia|].
  destruct a as [|b1 a]; [done|]. cbn in Ha |- *.
  destruct (in_range 194 223 b0 && is_cont b1); [eapply IH; [|done..]; cbn; lia|].
  destruct a as [|b2 a]; [done|]. cbn in Ha |- *.
  match goal with |- context [if ?c then _ else _] => destruct c end;
    [eapply IH; [|done..]; cbn; lia|].
  destruct a as [|b3 a]; [done|]. cbn in Ha |- *.
  match goal with |- context [if ?c then _ else _] => destruct c end; [|done].
  eapply IH; [|done..]; cbn; lia.
Qed.

Lemma utf8_ascii l : Forall (λ b, 0 ≤ b < 128) l → utf8_valid l = true.
Proof.
  induction 1 as [|b l Hb _ IH]; [done|]. cbn.
  assert (in_range 0 127 b = true) as ->; [|done].
  unfold in_range. apply andb_true_iff. split; apply Z.leb_le; lia.
Qed.

Lemma is_cont_ascii c : 0 ≤ c < 128 → is_cont c = false.
Proof. intros. unfold is_cont, in_range. apply andb_false_iff. left. apply Z.leb_gt. lia. Qed.

Lemma in_range_ascii lo hi c : 0 ≤ c < 128 → 128 ≤ lo → in_range lo hi c = false.
Proof. intros. unfold in_range. apply andb_false_iff. left. apply Z.leb_gt. lia. Qed.

Lemma utf8_cut a c b :
  0 ≤ c < 128 → utf8_valid (a ++ c :: b) = true →
  utf8_valid a = true ∧ utf8_valid b = true.
Proof.
  intros Hc Ha. remember (length a) as n eqn:Hn.
  revert a Hn Ha. induction (lt_wf n) as [n _ IH]; intros a -> Ha.
  assert (in_range 0 127 c = true) as Hasc.
  { unfold in_range. apply andb_true_iff. split; apply Z.leb_le; lia. }
  assert (is_cont c = false) as Hnc by (by apply is_cont_ascii).
  destruct a as [|b0 a]; cbn in Ha |- *; [by rewrite Hasc in Ha|].
  destruct (in_range 0 127 b0).
  { apply (IH (length a)) in Ha; [done|cbn; lia|done]. }
  destruct a as [|b1 a]; cbn in Ha |- *.
  { rewrite Hnc, ?andb_false_r, !in_range_ascii, ?andb_false_r in Ha by lia.
    cbn in Ha. destruct b as [|b2 b]; [done|]. by destruct b. }
  destruct (in_range 194 223 b0 && is_cont b1).
  { apply (IH (length a)) in Ha; [done|cbn; lia|done]. }
  destruct a as [|b2 a]; cbn in Ha |- *.
  { rewrite Hnc, ?andb_false_r in Ha. cbn in Ha. by destruct b. }
  match goal with |- context [if ?c then _ else _] => destruct c end.
  { apply (IH (length a)) in Ha; [done|cbn; lia|done]. }
  destruct a as [|b3 a]; cbn in Ha |- *.
  { by rewrite Hnc, ?andb_false_r in Ha. }
  match goal with |- context [if ?c then _ else _] => destruct c end; [|done].
  apply (IH (length a)) in Ha; [done|cbn; lia|done].
Qed.

(** ** Splitting *)

Lemma split_on_nonempty sep l : split_on sep l ≠ [].
Proof. destruct l as [|b l]; cbn; [done|]. destruct (b =? sep); [done|]. by destruct (split_on sep l). Qed.

Lemma split_on_no_sep sep l : Forall (λ w, ¬ In sep w) (split_on sep l).
Proof.
  induction l as [|b l IH]; cbn; [apply Forall_singleton; intros []|].
  destruct (Z.eqb_spec b sep) as [->|Hne].
  - constructor; [intros []|done].
  - destruct (split_on sep l) as [|w ws]; [apply Forall_singleton; cbn; naive_solver|].
    inversion IH; subst. constructor; [cbn; naive_solver|done].
Qed.

Lemma join_split sep l : join_with sep (split_on sep l) = l.
Proof.
  induction l as [|b l IH]; [done|]. cbn.
  pose proof (split_on_nonempty sep l) as Hne.
  destruct (Z.eqb_spec b sep) as [->|].
  - cbn. by destruct (split_on sep l); [|rewrite IH].
  - destruct (split_on sep l) as [|w ws]; [done|].
    cbn in IH |- *. destruct ws; cbn in *; by rewrite <-IH.
Qed.

Lemma split_on_word sep w : ¬ In sep w → split_on sep w = [w].
Proof.
  induction w as [|b w IH]; intros Hw; [done|]. cbn.
  destruct (Z.eqb_spec b sep) as [->|]; [exfalso; apply Hw; by left|].
  rewrite IH; [done|]. intros ?. apply Hw. by right.
Qed.

Lemma split_on_app sep w l :
  ¬ In sep w → split_on sep (w ++ sep :: l) = w :: split_on sep l.
Proof.
  induction w as [|b w IH]; intros Hw; cbn; [by rewrite Z.eqb_refl|].
  destruct (Z.eqb_spec b sep) as [->|]; [exfalso; apply Hw; by left|].
  rewrite IH; [done|]. intros ?. apply Hw. by right.
Qed.

Lemma utf8_split sep l :
  0 ≤ sep < 128 → utf8_valid l = true →
  Forall (λ w, utf8_valid w = true) (split_on sep l).
Proof.
  intros Hsep Hl. rewrite <-(join_split sep l) in Hl. revert Hl.
  generalize (split_on sep l) as ws. induction ws as [|w ws IH]; [by constructor|].
  intros Hl. destruct ws as [|w' ws]; [by repeat constructor|].
  change (utf8_valid (w ++ sep :: join_with sep (w' :: ws)) = true) in Hl.
  apply utf8_cut in Hl as [Hw Hws]; [|done]. constructor; [done|by apply IH].
Qed.

Lemma starts_with_app b l : starts_with b l = true ↔ ∃ l', l = b :: l'.
Proof.
  destruct l as [|c l]; cbn; [naive_solver|].
  rewrite Z.eqb_eq. naive_solver.
Qed.

(** ** Fields side by side *)

Lemma lor_add a b k : 0 ≤ k → 0 ≤ a < 2 ^ k → Z.lor a (Z.shiftl b k) = a + b * 2 ^ k.
Proof.
  intros Hk Ha. rewrite <-Z.shiftl_mul_pow2, <-Z.add_lor_land by done.
  assert (Z.land a (Z.shiftl b k) = 0) as ->; [|lia]. apply Z.bits_inj'. intros n Hn.
  rewrite Z.land_spec, Z.bits_0. destruct (Z.le_gt_cases k n).
  - by rewrite <-(Z.mod_small a (2 ^ k)), Z.mod_pow2_bits_high by done.
  - rewrite Z.shiftl_spec_low by done. apply andb_false_r.
Qed.

(** ** Testing bits *)

Lemma land_bit_eqb v k : 0 ≤ k → (Z.land v (2 ^ k) =? 0) = negb (Z.testbit v k).
Proof.
  intros Hk. destruct (Z.testbit v k) eqn:Hb; cbn.
  - apply Z.eqb_neq. intros H. apply (f_equal (λ x, Z.testbit x k)) in H.
    by rewrite Z.land_spec, Hb, Z.pow2_bits_true, Z.testbit_0_l in H by done.
  - apply Z.eqb_eq, Z.bits_inj'. intros n Hn. rewrite Z.land_spec, Z.testbit_0_l.
    destruct (decide (n = k)) as [->|]; [by rewrite Hb|]. by rewrite Z.pow2_bits_false, andb_false_r by done.
Qed.

Lemma land_bits_eqb v j k : 0 ≤ j → 0 ≤ k →
  (Z.land v (Z.lor (2 ^ j) (2 ^ k)) =? 0) = negb (Z.testbit v j || Z.testbit v k).
Proof.
  intros Hj Hk. rewrite Z.land_lor_distr_r, negb_orb, <-!land_bit_eqb by done.
  apply eq_true_iff_eq. by rewrite andb_true_iff, !Z.eqb_eq, Z.lor_eq_0_iff.
Qed.

(** * Properties *)

(** [align_down] and [align_up] of lzutil, for a power-of-two alignment
    and a value that does not come within one alignment of 2^64, return the
    nearest multiples of the alignment below and above the value. *)
Theorem align_bounds v k :
  0 ≤ k < 64 → is_u64 v → v + 2 ^ k ≤ 2 ^ 64 →
  (2 ^ k | align_down v (2 ^ k)) ∧ align_down v (2 ^ k) ≤ v < align_down v (2 ^ k) + 2 ^ k ∧
  (2 ^ k | align_up v (2 ^ k)) ∧ v ≤ align_up v (2 ^ k) < v + 2 ^ k.
Proof.
  intros Hk Hv Hle. assert (0 < 2 ^ k) by (apply Z.pow_pos_nonneg; lia).
  rewrite align_down_pow2, align_up_pow2 by done.
  repeat split; try (eexists; reflexivity);
    pose proof (Z.div_mod v (2 ^ k)); pose proof (Z.mod_pos_bound v (2 ^ k));
    pose proof (Z.div_mod (v + 2 ^ k - 1) (2 ^ k));
    pose proof (Z.mod_pos_bound (v + 2 ^ k - 1) (2 ^ k)); lia.
Qed.

Lemma align_bounds_witness :
  align_up 0x1234 (2 ^ 12) = 0x2000 ∧ (0x1234 ≤ align_up 0x1234 (2 ^ 12) < 0x1234 + 2 ^ 12).
Proof.
  split; [reflexivity|]. apply (align_bounds 0x1234 12); [lia| |]; [unfold is_u64|]; cbn; lia.
Defined.
