(* ===== verification/Errors.v ===== *)
(** * Error types of the kernel

    [ElfError] ([libs/elf/src/lib.rs]), [MemoryError]
    ([kernel/kernel/src/memory/types.rs], with the messages of
    [memory/util.rs]) and [StorageError] ([storage/mod.rs]), with the
    diagnostic text each maps to. *)

From S2P Require Import Prelude Bytes.

Local Open Scope string_scope.

Inductive ElfError :=
| HeaderTooSmall
| InvalidMagic
| UnsupportedClass
| UnsupportedEncoding
| UnsupportedType
| UnsupportedMachine
| UnsupportedVersion
| ProgramHeaderTruncated
| ProgramHeaderTableOutOfRange
| SegmentExtendsPastFile
| AddressOutOfRange
| ZeroLoadAddress.

Definition elf_error_as_str (error : ElfError) : String.string :=
  match error with
  | HeaderTooSmall => "elf header is too small"
  | InvalidMagic => "elf magic is invalid"
  | UnsupportedClass => "elf class is unsupported"
  | UnsupportedEncoding => "elf encoding is unsupported"
  | UnsupportedType => "elf type is unsupported"
  | UnsupportedMachine => "elf machine is unsupported"
  | UnsupportedVersion => "elf version is unsupported"
  | ProgramHeaderTruncated => "elf program header is truncated"
  | ProgramHeaderTableOutOfRange => "elf program header table is out of range"
  | SegmentExtendsPastFile => "elf segment extends past the image"
  | AddressOutOfRange => "elf address is out of range"
  | ZeroLoadAddress => "elf load address is zero"
  end.

Inductive MemoryError :=
| NoUsableMemory
| AddressSpaceUninitialized
| AllocatorExhausted
| InvalidKernelBufferSize
| SharedKernelMappingCapacityExceeded
| Elf (error : ElfError)
| UserImageOutOfRange
| InvalidStartupArguments
| StartupArgumentsTooLarge
| SegmentOverlapCapacityExceeded
| OwnedPageCapacityExceeded.

Definition memory_error_as_str (error : MemoryError) : String.string :=
  match error with
  | NoUsableMemory => "no usable physical memory is available"
  | AddressSpaceUninitialized => "kernel address space is not initialized"
  | AllocatorExhausted => "physical page allocator is exhausted"
  | InvalidKernelBufferSize => "kernel buffer size is invalid"
  | SharedKernelMappingCapacityExceeded => "shared kernel mapping capacity is exhausted"
  | Elf error => elf_error_as_str error
  | UserImageOutOfRange => "user image falls outside the fixed user layout"
  | InvalidStartupArguments => "user startup arguments are invalid"
  | StartupArgumentsTooLarge => "user startup arguments do not fit in the fixed stack"
  | SegmentOverlapCapacityExceeded => "user image mapping capacity is exhausted"
  | OwnedPageCapacityExceeded => "user image ownership tracking capacity is exhausted"
  end.

Inductive StorageError :=
| Memory (error : MemoryError)
| AhciControllerNotFound
| AhciPortNotFound
| AhciCommandTimeout
| AhciTaskFileError
| InvalidGptHeader
| InvalidPartitionTable
| MissingEspPartition
| MissingSystemPartition
| InvalidFat32BootSector
| InvalidPath
| PathNotAbsolute
| InvalidShortName
| FileNotFound
| NotAFile
| NotADirectory
| BufferTooSmall
| RootFsUnavailable.

Definition storage_error_as_str (error : StorageError) : String.string :=
  match error with
  | Memory error => memory_error_as_str error
  | AhciControllerNotFound => "no AHCI controller was found"
  | AhciPortNotFound => "no usable SATA disk was found on the AHCI controller"
  | AhciCommandTimeout => "an AHCI command timed out"
  | AhciTaskFileError => "the AHCI controller reported a task-file error"
  | InvalidGptHeader => "the GPT header is invalid"
  | InvalidPartitionTable => "the GPT partition table is invalid"
  | MissingEspPartition => "the EFI system partition is missing"
  | MissingSystemPartition => "the LAZERS-SYSTEM partition is missing"
  | InvalidFat32BootSector =>
      "the system partition does not contain a supported FAT32 filesystem"
  | InvalidPath => "the requested path is invalid"
  | PathNotAbsolute => "the requested path is not absolute"
  | InvalidShortName => "the requested path component is not a supported FAT short name"
  | FileNotFound => "the requested file was not found"
  | NotAFile => "the requested path does not name a regular file"
  | NotADirectory => "the requested path does not name a directory"
  | BufferTooSmall => "the destination buffer is too small"
  | RootFsUnavailable => "the runtime root filesystem is not mounted"
  end.

#[export] Instance ElfError_eq_dec : EqDecision ElfError.
Proof. solve_decision. Defined.
#[export] Instance MemoryError_eq_dec : EqDecision MemoryError.
Proof. solve_decision. Defined.
#[export] Instance StorageError_eq_dec : EqDecision StorageError.
Proof. solve_decision. Defined.
