(* ===== verification/Paths.v ===== *)
(** * Path normalization ([kernel/kernel/src/storage/path.rs])

    [normalize_path] canonicalizes a path against a working directory into a
    caller-owned byte buffer, keeping the start offset of every component so
    that [..] can cut the buffer back.  It is proved to implement the lexical
    resolution of a stack of components ([resolve_path]), error cases and
    buffer contents included. *)

From S2P Require Import Prelude Bytes Errors.

Definition MAX_PATH_COMPONENTS : nat := 64.

(** The locals of [normalize_path] that [normalize_path_parts] mutates. *)
Record norm_state := NormState {
  buffer : list Z;
  normalized_len : nat;
  component_starts : list nat;
  component_count : nat
}.

(** The body of the [for] loop of [normalize_path_parts]. *)
Definition normalize_component (st : norm_state) (component : list Z)
    : outcome StorageError norm_state :=
  if decide (component = [] ∨ component = [DOT]) then Ok st
  else if decide (component = [DOT; DOT]) then
    if decide (0 < component_count st) then
      let count := component_count st - 1 in
      len ← get_at (component_starts st) count;
      Ok (NormState (buffer st) len (component_starts st) count)
    else Ok st
  else if decide (length (component_starts st) ≤ component_count st) then Err InvalidPath
  else
    let previous_len := normalized_len st in
    let required :=
      if decide (previous_len = 1) then length component else length component + 1 in
    if decide (length (buffer st) < previous_len + required) then Err InvalidPath
    else
      '(buf, len) ←
        (if decide (1 < previous_len) then
           buf ← set_at (buffer st) (normalized_len st) SLASH;
           Ok (buf, normalized_len st + 1)
         else Ok (buffer st, normalized_len st));
      buf ← write_at buf len component;
      starts ← set_at (component_starts st) (component_count st) previous_len;
      Ok (NormState buf (len + length component) starts (component_count st + 1)).

Definition normalize_path_parts (source : list Z) (st : norm_state)
    : outcome StorageError norm_state :=
  for_each normalize_component st (split_on SLASH source).

Definition normalize_path (cwd path buf : list Z)
    : outcome StorageError (nat * list Z) :=
  if decide (path = []) then Err InvalidPath
  else
    buf ← set_at buf 0 SLASH;
    let st := NormState buf 1 (replicate MAX_PATH_COMPONENTS 0) 0 in
    st ←
      (if starts_with SLASH path then normalize_path_parts path st
       else
         st ← normalize_path_parts cwd st;
         normalize_path_parts path st);
    Ok (normalized_len st, buffer st).

(** ** Specification: a stack of components *)

(** Lexical resolution of one component: empty and [.] components do nothing,
    [..] pops (and stays at the root), anything else is pushed. *)
Definition resolve_component (stack : list (list Z)) (c : list Z) : list (list Z) :=
  if decide (c = [] ∨ c = [DOT]) then stack
  else if decide (c = [DOT; DOT]) then take (length stack - 1) stack
  else stack ++ [c].

(** The absolute path a stack of components stands for. *)
Definition render (stack : list (list Z)) : list Z :=
  match stack with
  | [] => [SLASH]
  | _ => concat (map (cons SLASH) stack)
  end.

Definition fits (cap : nat) (stack : list (list Z)) : Prop :=
  length stack ≤ MAX_PATH_COMPONENTS ∧ length (render stack) ≤ cap.

Definition resolve_step (cap : nat) (stack : option (list (list Z))) (c : list Z)
    : option (list (list Z)) :=
  stack ← stack;
  let stack' := resolve_component stack c in
  if decide (length stack' ≤ MAX_PATH_COMPONENTS ∧ length (render stack') ≤ cap)
  then Some stack' else None.

Definition resolve_parts (cap : nat) (source : list Z) (stack : option (list (list Z)))
    : option (list (list Z)) :=
  foldl (resolve_step cap) stack (split_on SLASH source).

Definition resolve_path (cap : nat) (cwd path : list Z) : option (list (list Z)) :=
  if decide (path = []) then None
  else if starts_with SLASH path then resolve_parts cap path (Some [])
  else resolve_parts cap path (resolve_parts cap cwd (Some [])).

(** A component that survives normalization. *)
Definition proper_component (c : list Z) : Prop :=
  c ≠ [] ∧ c ≠ [DOT] ∧ c ≠ [DOT; DOT] ∧ ¬ In SLASH c.

(** * Lemmas *)

Lemma length_render_cons c stack :
  length (render (c :: stack)) = S (length c) + length (concat (map (cons SLASH) stack)).
Proof. cbn. by rewrite length_app. Qed.

Lemma render_snoc stack c :
  render (stack ++ [c]) =
    (if decide (stack = []) then [] else render stack) ++ SLASH :: c.
Proof.
  destruct stack as [|w stack]; cbn; [by rewrite app_nil_r|].
  rewrite map_app, concat_app. cbn. by rewrite app_nil_r, ?app_assoc.
Qed.

Lemma length_render_snoc stack c :
  length (render (stack ++ [c])) =
    (if decide (stack = []) then 0 else length (render stack)) + S (length c).
Proof. rewrite render_snoc, length_app. by case_decide. Qed.

Lemma render_take_prefix stack i :
  i ≤ length stack → take (length (render (take i stack))) (render stack) = render (take i stack).
Proof.
  intros Hi. destruct stack as [|w stack]; [by rewrite take_nil|].
  destruct i as [|i]; [done|].
  assert (render (w :: stack) =
    render (take (S i) (w :: stack)) ++ concat (map (cons SLASH) (drop (S i) (w :: stack)))) as ->.
  { rewrite firstn_cons, skipn_cons. cbn.
    rewrite <-app_assoc, <-concat_app, <-map_app. by rewrite take_drop. }
  apply take_app_length.
Qed.

Lemma render_pos stack : 1 ≤ length (render stack).
Proof. destruct stack; cbn; lia. Qed.

Lemma length_render_take stack i : length (render (take i stack)) ≤ length (render stack).
Proof.
  destruct (decide (i ≤ length stack)) as [Hi|Hi]; [|by rewrite take_ge by lia].
  rewrite <-(render_take_prefix stack i) by done. rewrite length_take. lia.
Qed.

Lemma render_nonempty_len stack :
  Forall proper_component stack → length (render stack) = 1 ↔ stack = [].
Proof.
  intros Hs. split; [|by intros ->].
  destruct stack as [|c stack]; [done|]. rewrite length_render_cons.
  inversion Hs as [|?? [Hc _]]; subst. destruct c; [done|cbn; lia].
Qed.

Lemma fits_take cap stack i : fits cap stack → fits cap (take i stack).
Proof.
  intros [Hl Hr]. split; [rewrite length_take; lia|].
  pose proof (length_render_take stack i). lia.
Qed.

(** The refinement relation between the buffer state and the stack. *)
Record norm_refines (cap : nat) (st : norm_state) (stack : list (list Z)) : Prop := {
  nr_cap : length (buffer st) = cap;
  nr_len : normalized_len st = length (render stack);
  nr_text : take (normalized_len st) (buffer st) = render stack;
  nr_count : component_count st = length stack;
  nr_starts : length (component_starts st) = MAX_PATH_COMPONENTS;
  nr_offsets : ∀ i, i < length stack →
    component_starts st !! i = Some (length (render (take i stack)));
  nr_fits : fits cap stack;
  nr_proper : Forall proper_component stack
}.

Lemma norm_refines_pop cap st stack len :
  norm_refines cap st stack → 0 < length stack →
  component_starts st !! (component_count st - 1) = Some len →
  norm_refines cap (NormState (buffer st) len (component_starts st) (component_count st - 1))
    (take (length stack - 1) stack).
Proof.
  intros [Hcap Hlen Htext Hcount Hstarts Hoff Hfits Hproper] Hpos Hl.
  rewrite Hcount, Hoff in Hl by lia. injection Hl as <-.
  split; cbn; try done.
  - rewrite <-(render_take_prefix stack (length stack - 1)) at 2 by lia.
    rewrite <-Htext, take_take. f_equal.
    pose proof (length_render_take stack (length stack - 1)). lia.
  - rewrite length_take. lia.
  - intros i Hi. rewrite length_take in Hi. rewrite Hoff by lia.
    rewrite take_take. by rewrite Nat.min_l by lia.
  - by apply fits_take.
  - by apply Forall_take.
Qed.

Lemma norm_refines_push cap st stack c :
  norm_refines cap st stack → proper_component c →
  match resolve_step cap (Some stack) c with
  | None => normalize_component st c = Err InvalidPath
  | Some stack' => ∃ st', normalize_component st c = Ok st' ∧ norm_refines cap st' stack'
  end.
Proof.
  intros [Hcap Hlen Htext Hcount Hstarts Hoff [Hf1 Hf2] Hproper] Hc.
  pose proof Hc as (Hc1 & Hc2 & Hc3 & _).
  pose proof (render_nonempty_len stack Hproper) as Hroot.
  pose proof (render_pos stack) as Hpos.
  cbn [resolve_step mbind option_bind]. unfold normalize_component, resolve_component.
  rewrite (decide_False (P:=c = [] ∨ c = [DOT])) by naive_solver.
  rewrite (decide_False (P:=c = [DOT; DOT])) by done.
  rewrite (decide_False (P:=c = [] ∨ c = [DOT])) by naive_solver.
  rewrite (decide_False (P:=c = [DOT; DOT])) by done.
  rewrite length_app, length_render_snoc. cbn [length].
  rewrite Hstarts, Hcount, Hcap, Hlen.
  destruct (decide (MAX_PATH_COMPONENTS ≤ length stack)) as [Hfull|Hfull].
  { by rewrite decide_False by lia. }
  assert ((if decide (length (render stack) = 1) then length c else length c + 1) +
     length (render stack) = (if decide (stack = []) then 0 else length (render stack)) +
     S (length c)) as Hreq by (repeat case_decide; naive_solver lia).
  destruct (decide (cap < length (render stack) +
     (if decide (length (render stack) = 1) then length c else length c + 1))) as [Hover|Hover].
  { by rewrite decide_False by lia. }
  rewrite decide_True by lia.
  (* the separator, then the component *)
  set (pre := if decide (1 < length (render stack))
              then (splice (buffer st) (length (render stack)) [SLASH], length (render stack) + 1)
              else (buffer st, length (render stack))).
  assert (length (fst pre) = cap ∧ snd pre + length c ≤ cap ∧
     take (snd pre) (fst pre) ++ c = render (stack ++ [c]) ∧
     snd pre + length c = length (render (stack ++ [c]))) as (Hp1 & Hp2 & Hp3 & Hp4).
  { rewrite length_render_snoc, render_snoc. unfold pre.
    destruct (decide (1 < length (render stack))) as [Hsep|Hsep]; cbn [fst snd].
    - assert (stack ≠ []) by (intros ->; cbn in Hsep; lia).
      rewrite (decide_False (P:=length (render stack) = 1)) in Hover by lia.
      rewrite !(decide_False (P:=stack = [])) by done.
      rewrite length_splice by (cbn; lia). repeat split; [done|lia| |lia].
      change 1 with (length [SLASH]). rewrite take_splice by (cbn; lia).
      by rewrite <-Hlen, Htext, <-app_assoc.
    - assert (length (render stack) = 1) as H1 by lia.
      rewrite decide_True in Hover by done. apply Hroot in H1 as ->.
      rewrite !decide_True by done. cbn [render length app] in *.
      repeat split; try done; try lia. rewrite Hlen in Htext. by rewrite Htext. }
  assert ((if decide (1 < length (render stack)) then
       buf ← set_at (buffer st) (length (render stack)) SLASH;
       Ok (buf, length (render stack) + 1)
     else Ok (buffer st, length (render stack))) = Ok (E:=StorageError) pre) as Hpre.
  { unfold pre. destruct (decide (1 < length (render stack))); [|done].
    rewrite decide_False in Hover by lia.
    rewrite set_at_Ok by lia. cbn. by rewrite splice_single by lia. }
  rewrite Hpre. clear Hpre. clearbody pre. destruct pre as [buf len].
  cbn [fst snd mbind outcome_bind] in *.
  rewrite write_at_Ok by lia. cbn. rewrite set_at_Ok by lia. cbn.
  eexists; split; [done|]. split; cbn; try done.
  - by rewrite length_splice by lia.
  - rewrite take_splice by lia. done.
  - by rewrite length_app.
  - by rewrite length_insert.
  - intros i Hi. rewrite length_app in Hi; cbn in Hi.
    destruct (decide (i = length stack)) as [->|Hne].
    + rewrite list_lookup_insert_eq by lia. by rewrite take_app_length.
    + rewrite list_lookup_insert_ne by lia. rewrite Hoff by lia. by rewrite take_app_le by lia.
  - split; [rewrite length_app; cbn; lia|lia].
  - apply Forall_app. split; [done|]. by apply Forall_singleton.
Qed.

Lemma normalize_component_refines cap st stack c :
  norm_refines cap st stack → ¬ In SLASH c →
  match resolve_step cap (Some stack) c with
  | None => normalize_component st c = Err InvalidPath
  | Some stack' => ∃ st', normalize_component st c = Ok st' ∧ norm_refines cap st' stack'
  end.
Proof.
  intros HR Hc.
  destruct (decide (c = [] ∨ c = [DOT])) as [Hnop|Hnop].
  { cbn. unfold resolve_component, normalize_component.
    rewrite !(decide_True (P:=c = [] ∨ c = [DOT])) by done.
    destruct HR as [? ? ? ? ? ? [Hf1 Hf2] ?]. rewrite decide_True by done.
    eexists; split; [done|]. by split. }
  destruct (decide (c = [DOT; DOT])) as [Hup|Hup].
  - cbn. unfold resolve_component, normalize_component.
    rewrite !(decide_False (P:=c = [] ∨ c = [DOT])), !(decide_True (P:=c = [DOT; DOT])) by done.
    pose proof (fits_take cap stack (length stack - 1) (nr_fits _ _ _ HR)) as [Hf1 Hf2].
    rewrite decide_True by done.
    destruct (decide (0 < component_count st)) as [Hpos|Hpos]; rewrite (nr_count _ _ _ HR) in Hpos.
    + destruct (component_starts st !! (component_count st - 1)) as [len|] eqn:Hl.
      * rewrite (get_at_Ok _ _ _ Hl). cbn. eexists; split; [done|].
        by eapply norm_refines_pop.
      * rewrite (nr_count _ _ _ HR), (nr_offsets _ _ _ HR) in Hl by lia. done.
    + destruct stack as [|w stack]; [|cbn in Hpos; lia]. cbn. by exists st.
  - apply norm_refines_push; [done|]. repeat split; naive_solver.
Qed.

Lemma normalize_parts_refines cap st stack source :
  norm_refines cap st stack →
  match resolve_parts cap source (Some stack) with
  | None => normalize_path_parts source st = Err InvalidPath
  | Some stack' => ∃ st', normalize_path_parts source st = Ok st' ∧ norm_refines cap st' stack'
  end.
Proof.
  unfold resolve_parts, normalize_path_parts.
  pose proof (split_on_no_sep SLASH source) as Hns. revert Hns st stack.
  generalize (split_on SLASH source) as cs. induction 1 as [|c cs Hc _ IH]; intros st stack HR.
  { cbn. by exists st. }
  pose proof (normalize_component_refines cap st stack c HR Hc) as Hstep.
  cbn [foldl for_each]. destruct (resolve_step cap (Some stack) c) as [stack'|].
  - destruct Hstep as (st' & -> & HR'). cbn. by apply IH.
  - rewrite Hstep. cbn. clear. induction cs; [done|]. cbn. exact IHcs.
Qed.

Lemma norm_refines_init cap buf :
  1 ≤ cap → length buf = cap →
  norm_refines cap (NormState (<[0 := SLASH]> buf) 1 (replicate MAX_PATH_COMPONENTS 0) 0) [].
Proof.
  intros Hcap Hlen. split; cbn; try done; try lia.
  - by rewrite length_insert.
  - destruct buf; [cbn in *; lia|done].
  - split; cbn; lia.
Qed.

(** ** Normal forms *)

Lemma split_render stack :
  Forall proper_component stack →
  split_on SLASH (render stack) = [] :: (if decide (stack = []) then [[]] else stack).
Proof.
  intros Hs. destruct stack as [|c stack]; [done|]. rewrite decide_False by done.
  cbn [render map concat]. change (split_on SLASH ((SLASH :: c) ++ concat (map (cons SLASH) stack)))
    with ([] :: split_on SLASH (c ++ concat (map (cons SLASH) stack))). f_equal.
  revert c Hs. induction stack as [|c' stack IH]; intros c Hs; inversion Hs as [|?? Hc Hs']; subst.
  - cbn. rewrite app_nil_r. apply split_on_word. by apply Hc.
  - cbn. rewrite split_on_app by apply Hc. f_equal. by apply IH.
Qed.

Lemma resolve_component_proper stack c :
  proper_component c → resolve_component stack c = stack ++ [c].
Proof.
  intros (? & ? & ? & _). unfold resolve_component.
  rewrite (decide_False (P:=c = [] ∨ c = [DOT])) by naive_solver.
  by rewrite decide_False.
Qed.

Lemma resolve_step_nop cap stack c :
  c = [] ∨ c = [DOT] → fits cap stack → resolve_step cap (Some stack) c = Some stack.
Proof.
  intros Hc Hf. cbn. unfold resolve_component.
  rewrite !(decide_True (P:=c = [] ∨ c = [DOT])) by done. by rewrite decide_True.
Qed.

Lemma resolve_step_proper cap stack c :
  proper_component c → fits cap (stack ++ [c]) →
  resolve_step cap (Some stack) c = Some (stack ++ [c]).
Proof.
  intros Hc Hf. cbn. rewrite resolve_component_proper by done.
  by rewrite decide_True.
Qed.

Lemma fold_proper cap stack stack' :
  Forall proper_component stack' → fits cap (stack ++ stack') →
  foldl (resolve_step cap) (Some stack) stack' = Some (stack ++ stack').
Proof.
  revert stack. induction stack' as [|c stack' IH]; intros stack Hs Hf.
  { by rewrite app_nil_r. }
  inversion Hs; subst. cbn [foldl]. rewrite resolve_step_proper; [|done|].
  - rewrite IH; [by rewrite <-app_assoc|done|by rewrite <-app_assoc].
  - pose proof (fits_take cap _ (length stack + 1) Hf) as Hf'.
    rewrite take_app_ge in Hf' by lia. replace (length stack + 1 - length stack) with 1 in Hf' by lia.
    done.
Qed.

Lemma resolve_parts_render cap stack :
  Forall proper_component stack → fits cap stack →
  resolve_parts cap (render stack) (Some []) = Some stack.
Proof.
  intros Hs Hf. unfold resolve_parts. rewrite split_render by done.
  assert (1 ≤ cap) by (destruct Hf as [_ Hf]; pose proof (render_pos stack); lia).
  assert (resolve_step cap (Some []) [] = Some []) as Hnop.
  { apply resolve_step_nop; [by left|]. split; cbn; [unfold MAX_PATH_COMPONENTS|]; lia. }
  cbn [foldl]. rewrite Hnop.
  case_decide as Hnil; [subst stack; exact Hnop|by apply (fold_proper cap [] stack)].
Qed.

Lemma utf8_render stack :
  Forall (λ c, utf8_valid c = true) stack → utf8_valid (render stack) = true.
Proof.
  intros Hs. destruct stack as [|c stack]; [done|]. cbn [render].
  induction Hs as [|w ws Hw _ IH]; [done|]. cbn [map concat].
  apply (utf8_app (SLASH :: w)); done.
Qed.

Lemma resolve_parts_utf8 cap source stack stack' :
  utf8_valid source = true → Forall (λ c, utf8_valid c = true) stack →
  resolve_parts cap source (Some stack) = Some stack' →
  Forall (λ c, utf8_valid c = true) stack'.
Proof.
  intros Hu. pose proof (utf8_split SLASH source ltac:(unfold SLASH; lia) Hu) as Hcs.
  unfold resolve_parts. revert stack. induction Hcs as [|c cs Hc _ IH]; intros stack Hs Heq.
  { by injection Heq as <-. }
  cbn [foldl] in Heq. destruct (resolve_step cap (Some stack) c) as [s|] eqn:Hstep.
  - apply (IH s); [|done]. cbn in Hstep. case_decide; [|done]. injection Hstep as <-.
    unfold resolve_component. repeat case_decide; [done|by apply Forall_take|].
    apply Forall_app. split; [done|by apply Forall_singleton].
  - exfalso. clear -Heq. induction cs; [done|]. by apply IHcs.
Qed.

(** [normalize_path] computes [resolve_path], whatever the buffer held. *)
Lemma normalize_path_spec cwd path buf :
  1 ≤ length buf →
  match resolve_path (length buf) cwd path with
  | None => normalize_path cwd path buf = Err InvalidPath
  | Some stack => ∃ st,
      normalize_path cwd path buf = Ok (normalized_len st, buffer st) ∧
      norm_refines (length buf) st stack
  end.
Proof.
  intros Hbuf. unfold resolve_path, normalize_path.
  destruct (decide (path = [])) as [|Hpath]; [done|].
  rewrite set_at_Ok by lia. cbn [mbind outcome_bind].
  pose proof (norm_refines_init (length buf) buf Hbuf eq_refl) as Hinit.
  destruct (starts_with SLASH path).
  - pose proof (normalize_parts_refines _ _ _ path Hinit) as Hp.
    destruct (resolve_parts _ path _) as [stack|].
    + destruct Hp as (st & Hp & HR). exists st. split; [|done]. by rewrite Hp.
    + by rewrite Hp.
  - pose proof (normalize_parts_refines _ _ _ cwd Hinit) as Hc.
    destruct (resolve_parts _ cwd _) as [stack|].
    + destruct Hc as (st & -> & HR). cbn [mbind outcome_bind].
      pose proof (normalize_parts_refines _ _ _ path HR) as Hp.
      destruct (resolve_parts _ path _) as [stack'|].
      * destruct Hp as (st' & Hp & HR'). exists st'. split; [|done]. by rewrite Hp.
      * by rewrite Hp.
    + rewrite Hc. cbn. unfold resolve_parts. by induction (split_on SLASH path).
Qed.

(** What a successful call has computed. *)
Lemma normalize_path_Ok cwd path buf len buf' :
  normalize_path cwd path buf = Ok (len, buf') →
  ∃ stack, resolve_path (length buf) cwd path = Some stack ∧
    len = length (render stack) ∧ take len buf' = render stack ∧
    length buf' = length buf ∧ 1 ≤ length buf ∧
    fits (length buf) stack ∧ Forall proper_component stack.
Proof.
  intros Hok.
  assert (1 ≤ length buf) as Hbuf.
  { unfold normalize_path in Hok. case_decide; [done|].
    destruct buf; [done|cbn; lia]. }
  pose proof (normalize_path_spec cwd path buf Hbuf) as Hs.
  destruct (resolve_path (length buf) cwd path) as [stack|]; [|congruence].
  destruct Hs as (st & Hst & HR). rewrite Hst in Hok. injection Hok as <- <-.
  exists stack. destruct HR. repeat split; try done; by destruct nr_fits0.
Qed.

Lemma resolve_path_render cap cwd stack :
  Forall proper_component stack → fits cap stack →
  resolve_path cap cwd (render stack) = Some stack.
Proof.
  intros Hs Hf. unfold resolve_path.
  assert (∃ r, render stack = SLASH :: r) as [r Hr] by (destruct stack; cbn; eauto).
  rewrite decide_False by (rewrite Hr; done). rewrite Hr at 1. cbn [starts_with].
  rewrite Z.eqb_refl. by apply resolve_parts_render.
Qed.

(** * Properties *)

(** C29. [normalize_path] implements lexical path resolution: with a buffer of
    at least one byte it never panics, fails with [InvalidPath] exactly when
    the path is empty or resolving the components of the cwd and the path
    overruns the buffer or the 64-component limit, and otherwise leaves the
    rendering of the resolved component stack in the first [len] bytes. *)
Theorem normalize_path_refines cwd path buf :
  1 ≤ length buf →
  match resolve_path (length buf) cwd path with
  | None => normalize_path cwd path buf = Err InvalidPath
  | Some stack => ∃ buf',
      normalize_path cwd path buf = Ok (length (render stack), buf') ∧
      take (length (render stack)) buf' = render stack ∧ length buf' = length buf
  end.
Proof.
  intros Hbuf. pose proof (normalize_path_spec cwd path buf Hbuf) as Hs.
  destruct (resolve_path (length buf) cwd path) as [stack|]; [|done].
  destruct Hs as (st & Hst & HR). exists (buffer st).
  rewrite Hst, <-(nr_len _ _ _ HR). split; [done|].
  split; [apply HR|apply (nr_cap _ _ _ HR)].
Qed.

Lemma normalize_path_refines_witness :
  resolve_path 64 (ascii "/system/bin") (ascii "../cat") = Some [ascii "system"; ascii "cat"] ∧
  ∃ buf', normalize_path (ascii "/system/bin") (ascii "../cat") (replicate 64 0%Z)
    = Ok (11, buf') ∧ take 11 buf' = ascii "/system/cat" ∧ length buf' = 64.
Proof.
  split; [vm_compute; reflexivity|].
  exact (normalize_path_refines (ascii "/system/bin") (ascii "../cat") (replicate 64 0%Z)
    ltac:(vm_compute; lia)).
Defined.

(** A normalized path is a fixed point: normalizing it again, against any
    cwd and into any buffer of the same size, succeeds and yields the same
    text; and it is an absolute path of components that are neither empty nor
    [.] nor [..] and hold no slash. *)
Theorem normalize_path_idempotent cwd path buf len buf' cwd2 buf2 :
  normalize_path cwd path buf = Ok (len, buf') → length buf2 = length buf →
  (∃ buf2', normalize_path cwd2 (take len buf') buf2 = Ok (len, buf2') ∧
            take len buf2' = take len buf') ∧
  (∃ stack, take len buf' = render stack ∧ Forall proper_component stack).
Proof.
  intros Hok Hlen.
  apply normalize_path_Ok in Hok as (stack & _ & Hl & Ht & _ & Hb & Hf & Hs).
  split; [|by exists stack].
  pose proof (normalize_path_spec cwd2 (render stack) buf2 ltac:(lia)) as Hspec.
  rewrite Hlen, resolve_path_render in Hspec by done.
  destruct Hspec as (st & Hst & HR). exists (buffer st).
  rewrite Ht, Hst, Hl. destruct HR. split; congruence.
Qed.

Lemma normalize_path_idempotent_witness :
  ∃ buf',
  normalize_path (ascii "/a") (ascii "./b//../c/") (replicate 16 0%Z) = Ok (4, buf') ∧
  ∃ buf2', normalize_path (ascii "/zz") (take 4 buf') (replicate 16 7%Z) = Ok (4, buf2') ∧
            take 4 buf2' = ascii "/a/c".
Proof.
  eexists. split; [vm_compute; reflexivity|].
  destruct (normalize_path_idempotent (ascii "/a") (ascii "./b//../c/") (replicate 16 0%Z) 4
    (ascii "/a/c" ++ replicate 12 0%Z) (ascii "/zz") (replicate 16 7%Z)) as [H _];
    [vm_compute; reflexivity|reflexivity|exact H].
Defined.

(** C39. The text [normalize_path] leaves is valid UTF-8 when the cwd and the
    path are, so [NormalizedPath::as_str] never fails on it. *)
Theorem normalize_path_utf8 cwd path buf len buf' :
  utf8_valid cwd = true → utf8_valid path = true →
  normalize_path cwd path buf = Ok (len, buf') →
  from_utf8 (take len buf') = Some (take len buf').
Proof.
  intros Hc Hp Hok. apply normalize_path_Ok in Hok as (stack & Hr & _ & -> & _).
  unfold from_utf8. rewrite utf8_render; [done|].
  unfold resolve_path in Hr. case_decide; [done|]. destruct (starts_with SLASH path).
  - by eapply (resolve_parts_utf8 _ path []).
  - destruct (resolve_parts (length buf) cwd (Some [])) as [s|] eqn:Hs.
    + eapply (resolve_parts_utf8 _ path s); [done| |done].
      by eapply (resolve_parts_utf8 _ cwd []).
    + exfalso. clear -Hr. unfold resolve_parts in Hr.
      by induction (split_on SLASH path).
Qed.

Lemma normalize_path_utf8_witness :
  from_utf8 (take 3 ([47; 206; 188]%Z ++ replicate 5 0%Z)) = Some [47; 206; 188]%Z.
Proof.
  exact (normalize_path_utf8 (ascii "/") [206; 188]%Z (replicate 8 0%Z) 3
    ([47; 206; 188]%Z ++ replicate 5 0%Z)
    ltac:(vm_compute; reflexivity) ltac:(vm_compute; reflexivity) ltac:(vm_compute; reflexivity)).
Defined.
