(* ===== verification/Env.v ===== *)
(** * Process environment ([kernel/kernel/src/env.rs])

    A fixed array of 16 entries, each a 32-byte key buffer and a 128-byte value
    buffer with their lengths.  The concrete block is proved to implement an
    ordered association list ([alist]): its operations commute with [abs],
    preserve the invariant [env_ok] and return exactly the documented errors. *)

From stdpp Require Import gmap.
From S2P Require Import Prelude Bytes.

Definition MAX_ENV_VARS : nat := 16.
Definition MAX_ENV_KEY_LEN : nat := 32.
Definition MAX_ENV_VALUE_LEN : nat := 128.

Inductive EnvironmentError :=
| InvalidKey
| KeyTooLong
| ValueTooLong
| CapacityExceeded.

#[export] Instance EnvironmentError_eq_dec : EqDecision EnvironmentError.
Proof. solve_decision. Defined.

Abbreviation res := (outcome EnvironmentError).

Record EnvEntry := mkEntry {
  entry_key : list Z;
  entry_key_len : nat;
  entry_value : list Z;
  entry_value_len : nat
}.

Record Environment := mkEnvironment {
  entries : list EnvEntry;
  env_len : nat
}.

(** ** [EnvEntry] *)

Definition EnvEntry_empty : EnvEntry :=
  mkEntry (replicate MAX_ENV_KEY_LEN 0%Z) 0 (replicate MAX_ENV_VALUE_LEN 0%Z) 0.

Definition set_value (e : EnvEntry) (value : list Z) : res EnvEntry :=
  v ← write_at (entry_value e) 0 value;
  Ok (mkEntry (entry_key e) (entry_key_len e) v (length value)).

#[global] Arguments set_value : simpl never.

Definition set_pair (e : EnvEntry) (key value : list Z) : res EnvEntry :=
  k ← write_at (entry_key e) 0 key;
  set_value (mkEntry k (length key) (entry_value e) (entry_value_len e)) value.

(** [from_utf8(..).unwrap_or("")] *)
Definition key_of (e : EnvEntry) : res (list Z) :=
  s ← slice (entry_key e) 0 (entry_key_len e); Ok (default [] (from_utf8 s)).

Definition value_of (e : EnvEntry) : res (list Z) :=
  s ← slice (entry_value e) 0 (entry_value_len e); Ok (default [] (from_utf8 s)).

(** ** [Environment] *)

Definition Environment_new : Environment :=
  mkEnvironment (replicate MAX_ENV_VARS EnvEntry_empty) 0.

Definition validate_key (key : list Z) : res () :=
  if decide (key = []) then Err InvalidKey
  else if contains EQUALS key then Err InvalidKey
  else if decide (MAX_ENV_KEY_LEN < length key) then Err KeyTooLong
  else Ok tt.

Definition find_index (env : Environment) (key : list Z) : res (option nat) :=
  while (S (env_len env)) (λ index,
    if decide (index < env_len env) then
      e ← get_at (entries env) index;
      k ← key_of e;
      if decide (k = key) then Ok (inr (Some index)) else Ok (inl (S index))
    else Ok (inr None)) 0.

#[global] Arguments find_index : simpl never.

(** On [Err] the source has not touched [self]. *)
Definition set (env : Environment) (key value : list Z) : res Environment :=
  _ ← validate_key key;
  if decide (MAX_ENV_VALUE_LEN < length value) then Err ValueTooLong
  else
    index ← find_index env key;
    match index with
    | Some index =>
        e ← get_at (entries env) index;
        e ← set_value e value;
        es ← set_at (entries env) index e;
        Ok (mkEnvironment es (env_len env))
    | None =>
        if decide (env_len env = length (entries env)) then Err CapacityExceeded
        else
          e ← get_at (entries env) (env_len env);
          e ← set_pair e key value;
          es ← set_at (entries env) (env_len env) e;
          Ok (mkEnvironment es (env_len env + 1))
    end.

Definition remove (env : Environment) (key : list Z) : res (bool * Environment) :=
  _ ← validate_key key;
  index ← find_index env key;
  match index with
  | None => Ok (false, env)
  | Some index =>
      es ← shift_down (entries env) index (env_len env);
      es ← set_at es (env_len env - 1) EnvEntry_empty;
      Ok (true, mkEnvironment es (env_len env - 1))
  end.

Definition get (env : Environment) (key : list Z) : res (option (list Z)) :=
  _ ← validate_key key;
  index ← find_index env key;
  match index with
  | None => Ok None
  | Some index =>
      e ← get_at (entries env) index;
      v ← value_of e;
      Ok (Some v)
  end.

Definition clear (env : Environment) : res Environment :=
  es ← while (S (env_len env)) (λ '(index, es),
    if decide (index < env_len env) then
      es ← set_at es index EnvEntry_empty;
      Ok (inl (S index, es))
    else Ok (inr es)) (0, entries env);
  Ok (mkEnvironment es 0).

Definition inherit_into (env child : Environment) : res Environment :=
  child ← clear child;
  while (S (env_len env)) (λ '(index, child),
    if decide (index < env_len env) then
      e ← get_at (entries env) index;
      k ← key_of e;
      v ← value_of e;
      child ← set child k v;
      Ok (inl (S index, child))
    else Ok (inr child)) (0, child).

Definition write_listing_into (env : Environment) (buffer : list Z)
    : res (nat * list Z) :=
  while (S (env_len env)) (λ '(index, written, buffer),
    if decide (index < env_len env) then
      e ← get_at (entries env) index;
      let needed := entry_key_len e + 1 + entry_value_len e + 1 in
      if decide (length buffer < written + needed) then Err CapacityExceeded
      else
        key ← slice (entry_key e) 0 (entry_key_len e);
        value ← slice (entry_value e) 0 (entry_value_len e);
        buffer ← write_at buffer written key;
        let written := written + length key in
        buffer ← set_at buffer written EQUALS;
        let written := written + 1 in
        buffer ← write_at buffer written value;
        let written := written + length value in
        buffer ← set_at buffer written NEWLINE;
        Ok (inl (S index, written + 1, buffer))
    else Ok (inr (written, buffer))) (0, 0, buffer).

#[global] Arguments set : simpl never.
#[global] Arguments remove : simpl never.
#[global] Arguments get : simpl never.
#[global] Arguments clear : simpl never.

(** ** Specification: ordered association lists *)

Abbreviation alist := (list (list Z * list Z)).

Fixpoint alist_get (l : alist) (k : list Z) : option (list Z) :=
  match l with
  | [] => None
  | (k', v) :: l => if decide (k' = k) then Some v else alist_get l k
  end.

(** Replaces the value in place, or appends. *)
Fixpoint alist_set (l : alist) (k v : list Z) : alist :=
  match l with
  | [] => [(k, v)]
  | (k', v') :: l => if decide (k' = k) then (k, v) :: l else (k', v') :: alist_set l k v
  end.

Fixpoint alist_remove (l : alist) (k : list Z) : alist :=
  match l with
  | [] => []
  | (k', v') :: l => if decide (k' = k) then l else (k', v') :: alist_remove l k
  end.

Definition listing (l : alist) : list Z :=
  concat (map (λ '(k, v), k ++ EQUALS :: v ++ [NEWLINE]) l).

Definition valid_key (k : list Z) : Prop :=
  k ≠ [] ∧ ¬ In EQUALS k ∧ length k ≤ MAX_ENV_KEY_LEN.

Definition spec_set (l : alist) (k v : list Z) : res alist :=
  _ ← validate_key k;
  if decide (MAX_ENV_VALUE_LEN < length v) then Err ValueTooLong
  else if decide (alist_get l k = None ∧ length l = MAX_ENV_VARS) then Err CapacityExceeded
  else Ok (alist_set l k v).

(** A caller's requests, their answers, and the two machines that serve them:
    the concrete block and the association list. *)
Inductive request :=
| RSet (key value : list Z)
| RRemove (key : list Z)
| RGet (key : list Z)
| RClear.

Inductive answer :=
| ADone
| ARemoved (existed : bool)
| AValue (value : option (list Z))
| AFailed (error : EnvironmentError).

(** On an error the block is as it was. *)
Definition serve (env : Environment) (r : request) : option (answer * Environment) :=
  let reply {A} (m : res A) (k : A → answer * Environment) :=
    match m with
    | Ok a => Some (k a)
    | Err e => Some (AFailed e, env)
    | Panic | Hang => None
    end in
  match r with
  | RSet key value => reply (set env key value) (λ env', (ADone, env'))
  | RRemove key => reply (remove env key) (λ '(b, env'), (ARemoved b, env'))
  | RGet key => reply (get env key) (λ v, (AValue v, env))
  | RClear => reply (clear env) (λ env', (ADone, env'))
  end.

Fixpoint serve_all (env : Environment) (rs : list request)
    : option (list answer * Environment) :=
  match rs with
  | [] => Some ([], env)
  | r :: rs =>
      '(a, env) ← serve env r;
      '(answers, env) ← serve_all env rs;
      Some (a :: answers, env)
  end.

Definition spec_serve (l : alist) (r : request) : answer * alist :=
  match r with
  | RSet key value =>
      match spec_set l key value with
      | Ok l' => (ADone, l')
      | Err e => (AFailed e, l)
      | Panic | Hang => (AFailed InvalidKey, l)
      end
  | RRemove key =>
      match validate_key key with
      | Err e => (AFailed e, l)
      | _ => (ARemoved (bool_decide (key ∈ l.*1)), alist_remove l key)
      end
  | RGet key =>
      match validate_key key with
      | Err e => (AFailed e, l)
      | _ => (AValue (alist_get l key), l)
      end
  | RClear => (ADone, [])
  end.

Fixpoint spec_serve_all (l : alist) (rs : list request) : list answer * alist :=
  match rs with
  | [] => ([], l)
  | r :: rs =>
      let '(a, l) := spec_serve l r in
      let '(answers, l) := spec_serve_all l rs in
      (a :: answers, l)
  end.

(** The strings of a request are Rust [&str]s. *)
Definition request_utf8 (r : request) : bool :=
  match r with
  | RSet key value => utf8_valid key && utf8_valid value
  | RRemove key | RGet key => utf8_valid key
  | RClear => true
  end.

(** ** Abstraction and invariant *)

Definition entry_abs (e : EnvEntry) : list Z * list Z :=
  (take (entry_key_len e) (entry_key e), take (entry_value_len e) (entry_value e)).

Definition abs (env : Environment) : alist :=
  map entry_abs (take (env_len env) (entries env)).

Definition entry_shape (e : EnvEntry) : Prop :=
  length (entry_key e) = MAX_ENV_KEY_LEN ∧ length (entry_value e) = MAX_ENV_VALUE_LEN.

Definition pair_ok (p : list Z * list Z) : Prop :=
  valid_key p.1 ∧ utf8_valid p.1 = true ∧
  length p.2 ≤ MAX_ENV_VALUE_LEN ∧ utf8_valid p.2 = true.

Record env_ok (env : Environment) : Prop := {
  ok_slots : length (entries env) = MAX_ENV_VARS;
  ok_len : env_len env ≤ MAX_ENV_VARS;
  ok_shapes : Forall entry_shape (entries env);
  ok_lens : Forall (λ e, entry_key_len e ≤ MAX_ENV_KEY_LEN ∧
                         entry_value_len e ≤ MAX_ENV_VALUE_LEN) (entries env);
  ok_pairs : Forall pair_ok (abs env);
  ok_nodup : NoDup (abs env).*1
}.

(** * Lemmas *)

(** ** Association lists *)

Lemma alist_get_None l k : alist_get l k = None ↔ k ∉ l.*1.
Proof.
  induction l as [|[k' v] l IH]; cbn; [set_solver|].
  case_decide; [subst; set_solver|]. rewrite IH. set_solver.
Qed.

Lemma alist_get_lookup l i k v :
  NoDup l.*1 → l !! i = Some (k, v) → alist_get l k = Some v.
Proof.
  revert i. induction l as [|[k' v'] l IH]; intros i Hnd Hi; [done|].
  cbn in *. apply NoDup_cons in Hnd as [Hk Hnd]. destruct i as [|i]; cbn in Hi.
  - injection Hi as -> ->. by rewrite decide_True.
  - rewrite decide_False; [by eapply IH|]. intros ->.
    apply Hk, list_elem_of_fmap. exists (k, v). split; [done|]. by eapply list_elem_of_lookup_2.
Qed.

Lemma alist_set_fresh l k v : k ∉ l.*1 → alist_set l k v = l ++ [(k, v)].
Proof.
  induction l as [|[k' v'] l IH]; intros Hk; cbn in *; [done|].
  rewrite decide_False by set_solver. rewrite IH; set_solver.
Qed.

Lemma alist_set_lookup l i k v v' :
  NoDup l.*1 → l !! i = Some (k, v') → alist_set l k v = <[i := (k, v)]> l.
Proof.
  revert i. induction l as [|[k0 v0] l IH]; intros i Hnd Hi; [done|].
  cbn in *. apply NoDup_cons in Hnd as [Hk Hnd]. destruct i as [|i]; cbn in Hi.
  - injection Hi as -> ->. by rewrite decide_True.
  - rewrite decide_False; [cbn; f_equal; by eapply IH|]. intros ->.
    apply Hk, list_elem_of_fmap. exists (k, v'). split; [done|]. by eapply list_elem_of_lookup_2.
Qed.

Lemma alist_remove_lookup l i k v :
  NoDup l.*1 → l !! i = Some (k, v) → alist_remove l k = take i l ++ drop (S i) l.
Proof.
  revert i. induction l as [|[k0 v0] l IH]; intros i Hnd Hi; [done|].
  cbn in *. apply NoDup_cons in Hnd as [Hk Hnd]. destruct i as [|i]; cbn in Hi.
  - injection Hi as -> ->. by rewrite decide_True.
  - rewrite decide_False; [cbn; f_equal; by eapply IH|]. intros ->.
    apply Hk, list_elem_of_fmap. exists (k, v). split; [done|]. by eapply list_elem_of_lookup_2.
Qed.

Lemma alist_remove_fresh l k : k ∉ l.*1 → alist_remove l k = l.
Proof.
  induction l as [|[k' v'] l IH]; intros Hk; cbn in *; [done|].
  rewrite decide_False by set_solver. rewrite IH; set_solver.
Qed.

Lemma alist_set_keys l k v :
  (alist_set l k v).*1 = if decide (k ∈ l.*1) then l.*1 else l.*1 ++ [k].
Proof.
  induction l as [|[k' v'] l IH]; [done|]. cbn. destruct (decide (k' = k)) as [->|Hne].
  - cbn. rewrite decide_True; [done|]. by left.
  - cbn. rewrite IH. destruct (decide (k ∈ l.*1)).
    + rewrite decide_True; [done|]. by right.
    + rewrite decide_False; [done|]. set_solver.
Qed.

Lemma alist_set_nodup l k v : NoDup l.*1 → NoDup (alist_set l k v).*1.
Proof.
  intros Hnd. rewrite alist_set_keys. case_decide; [done|].
  apply NoDup_app. repeat split; [done|set_solver|apply NoDup_singleton].
Qed.

Lemma alist_set_Forall (P : list Z * list Z → Prop) l k v :
  Forall P l → P (k, v) → Forall P (alist_set l k v).
Proof.
  induction 1 as [|[k' v'] l Hp Hl IH]; intros Hkv; cbn; [by apply Forall_singleton|].
  case_decide; by constructor; auto.
Qed.

Lemma alist_remove_sublist l k : sublist (alist_remove l k) l.
Proof.
  induction l as [|[k' v'] l IH]; cbn; [done|].
  case_decide; [by apply sublist_cons|by apply sublist_skip].
Qed.

Lemma alist_get_set l k v k' :
  alist_get (alist_set l k v) k' = if decide (k = k') then Some v else alist_get l k'.
Proof.
  induction l as [|[k0 v0] l IH]; cbn; [done|].
  destruct (decide (k0 = k)) as [->|Hne]; cbn.
  - by repeat case_decide.
  - rewrite IH. repeat case_decide; congruence.
Qed.

Lemma alist_get_remove l k k' :
  NoDup l.*1 →
  alist_get (alist_remove l k) k' = if decide (k = k') then None else alist_get l k'.
Proof.
  induction l as [|[k0 v0] l IH]; cbn; intros Hnd; [by case_decide|].
  apply NoDup_cons in Hnd as [Hk Hnd].
  destruct (decide (k0 = k)) as [->|Hne]; cbn.
  - destruct (decide (k = k')) as [->|]; [by apply alist_get_None|done].
  - rewrite IH by done. repeat case_decide; congruence.
Qed.

(** ** The concrete block *)

Lemma validate_key_spec key :
  match validate_key key with
  | Ok _ => valid_key key
  | Err InvalidKey => key = [] ∨ In EQUALS key
  | Err KeyTooLong => MAX_ENV_KEY_LEN < length key
  | _ => False
  end.
Proof.
  unfold validate_key, valid_key. case_decide; [by left|].
  destruct (contains EQUALS key) eqn:Hc; [right; by apply contains_In|].
  apply contains_false in Hc. case_decide; [done|]. repeat split; [done..|lia].
Qed.

Lemma validate_key_Ok key : valid_key key → validate_key key = Ok tt.
Proof.
  intros (Hne & Hc & Hl). unfold validate_key. rewrite decide_False by done.
  apply contains_false in Hc as ->. by rewrite decide_False by lia.
Qed.

Section env.
Context (env : Environment) (Hok : env_ok env).

Lemma length_abs : length (abs env) = env_len env.
Proof.
  unfold abs. rewrite length_fmap, length_take, (ok_slots _ Hok).
  pose proof (ok_len _ Hok). lia.
Qed.

Lemma abs_lookup i :
  i < env_len env → ∃ e, entries env !! i = Some e ∧ abs env !! i = Some (entry_abs e) ∧
    entry_shape e ∧ pair_ok (entry_abs e) ∧
    entry_key_len e ≤ MAX_ENV_KEY_LEN ∧ entry_value_len e ≤ MAX_ENV_VALUE_LEN.
Proof.
  intros Hi. destruct (lookup_lt_is_Some_2 (entries env) i) as [e He].
  { rewrite (ok_slots _ Hok). pose proof (ok_len _ Hok). lia. }
  exists e. assert (abs env !! i = Some (entry_abs e)) as Ha.
  { unfold abs. rewrite list_lookup_fmap, lookup_take_lt, He by lia. done. }
  pose proof (Forall_lookup_1 _ _ _ _ (ok_shapes _ Hok) He).
  pose proof (Forall_lookup_1 _ _ _ _ (ok_lens _ Hok) He).
  pose proof (Forall_lookup_1 _ _ _ _ (ok_pairs _ Hok) Ha). naive_solver.
Qed.

Lemma key_of_abs e :
  entry_shape e → pair_ok (entry_abs e) → entry_key_len e ≤ MAX_ENV_KEY_LEN →
  key_of e = Ok (entry_abs e).1.
Proof.
  intros [Hk _] (_ & Hu & _) Hl. unfold key_of. rewrite slice_Ok by lia. cbn.
  rewrite sub_0. cbn in Hu. unfold from_utf8. by rewrite Hu.
Qed.

Lemma value_of_abs e :
  entry_shape e → pair_ok (entry_abs e) → entry_value_len e ≤ MAX_ENV_VALUE_LEN →
  value_of e = Ok (entry_abs e).2.
Proof.
  intros [_ Hv] (_ & _ & _ & Hu) Hl. unfold value_of. rewrite slice_Ok by lia. cbn.
  rewrite sub_0. cbn in Hu. unfold from_utf8. by rewrite Hu.
Qed.

Lemma find_index_spec key :
  match find_index env key with
  | Ok (Some i) => i < env_len env ∧ ∃ v, abs env !! i = Some (key, v)
  | Ok None => key ∉ (abs env).*1
  | _ => False
  end.
Proof.
  unfold find_index.
  apply (while_rule
    (λ i, i ≤ env_len env ∧ key ∉ (take i (abs env)).*1)
    (λ i, env_len env - i)
    (λ o, match o with
          | Ok (Some i) => i < env_len env ∧ ∃ v, abs env !! i = Some (key, v)
          | Ok None => key ∉ (abs env).*1
          | _ => False
          end)); [|cbn; split; [lia|set_solver]|lia].
  intros i [Hi Hk]. case_decide as Hlt.
  - destruct (abs_lookup i Hlt) as (e & He & Ha & Hs & Hp & Hkl & _).
    rewrite (get_at_Ok _ _ _ He). cbn. rewrite key_of_abs by done. cbn.
    case_decide as Heq.
    + split; [done|]. exists (entry_abs e).2. rewrite Ha. f_equal.
      unfold entry_abs in *. cbn in *. by rewrite Heq.
    + split; [|lia]. split; [lia|]. rewrite (take_S_r _ _ _ Ha), fmap_app. cbn in *. set_solver.
  - rewrite take_ge in Hk; [done|]. rewrite length_abs. lia.
Qed.
End env.

Lemma entry_abs_set_value e value e' :
  entry_shape e → length value ≤ MAX_ENV_VALUE_LEN → set_value e value = Ok e' →
  entry_shape e' ∧ entry_abs e' = ((entry_abs e).1, value) ∧
  entry_key_len e' = entry_key_len e ∧ entry_value_len e' = length value.
Proof.
  intros [Hk Hv] Hl. unfold set_value. rewrite write_at_Ok by lia. cbn. intros [= <-].
  unfold entry_abs, entry_shape. cbn. rewrite length_splice by lia.
  repeat split; [done..|]. f_equal.
  apply take_splice_0. lia.
Qed.

Lemma set_value_returns e value :
  entry_shape e → length value ≤ MAX_ENV_VALUE_LEN → ∃ e', set_value e value = Ok e'.
Proof. intros [Hk Hv] Hl. unfold set_value. rewrite write_at_Ok by lia. by eexists. Qed.

Lemma set_pair_spec e key value :
  entry_shape e → length key ≤ MAX_ENV_KEY_LEN → length value ≤ MAX_ENV_VALUE_LEN →
  ∃ e', set_pair e key value = Ok e' ∧ entry_shape e' ∧ entry_abs e' = (key, value) ∧
    entry_key_len e' = length key ∧ entry_value_len e' = length value.
Proof.
  intros [Hk Hv] Hlk Hlv. unfold set_pair. rewrite write_at_Ok by lia. cbn.
  set (e1 := mkEntry _ _ _ _).
  assert (entry_shape e1) as Hs1 by (split; cbn; [rewrite length_splice by lia|]; done).
  destruct (set_value_returns e1 value Hs1 Hlv) as [e' He'].
  destruct (entry_abs_set_value e1 value e' Hs1 Hlv He') as (Hs & Ha & Hkl & Hvl).
  exists e'. repeat split; try done; try apply Hs. rewrite Ha. f_equal. cbn.
  apply take_splice_0. lia.
Qed.

(** Replacing one live or one new slot keeps the invariant. *)
Lemma env_ok_insert env i e len :
  env_ok env → i < MAX_ENV_VARS → env_len env ≤ len ≤ MAX_ENV_VARS →
  entry_shape e → entry_key_len e ≤ MAX_ENV_KEY_LEN → entry_value_len e ≤ MAX_ENV_VALUE_LEN →
  let env' := mkEnvironment (<[i := e]> (entries env)) len in
  Forall pair_ok (abs env') → NoDup (abs env').*1 → env_ok env'.
Proof.
  intros Hok Hi Hlen Hs Hk Hv env' Hp Hnd. destruct Hok. split; cbn; try done.
  - by rewrite length_insert.
  - lia.
  - by apply Forall_insert.
  - by apply Forall_insert.
Qed.

Lemma set_spec env key value :
  env_ok env → utf8_valid key = true → utf8_valid value = true →
  match spec_set (abs env) key value with
  | Ok l => ∃ env', set env key value = Ok env' ∧ env_ok env' ∧ abs env' = l
  | o => set env key value = Err (match o with Err e => e | _ => InvalidKey end)
  end.
Proof.
  intros Hok Huk Huv. unfold spec_set, set.
  pose proof (validate_key_spec key) as Hvk.
  destruct (validate_key key) as [[]|err| |]; cbn; try done.
  case_decide as Hvl; [done|].
  pose proof (find_index_spec env Hok key) as Hfind.
  pose proof (length_abs env Hok) as Habs. pose proof (ok_len _ Hok) as Hlen.
  pose proof (ok_slots _ Hok) as Hslots. pose proof (ok_nodup _ Hok) as Hnd.
  destruct (find_index env key) as [[i|]| | |]; cbn; try done.
  - destruct Hfind as (Hi & v & Hv).
    rewrite decide_False by (erewrite alist_get_lookup by done; naive_solver).
    destruct (abs_lookup env Hok i Hi) as (e & He & Ha & Hs & Hp & Hkl & _).
    rewrite (get_at_Ok _ _ _ He). cbn.
    destruct (set_value_returns e value Hs ltac:(lia)) as [e' He']. rewrite He'. cbn.
    destruct (entry_abs_set_value e value e' Hs ltac:(lia) He') as (Hs' & Ha' & Hkl' & Hvl').
    rewrite set_at_Ok by lia. cbn. eexists. split; [done|].
    assert (abs (mkEnvironment (<[i := e']> (entries env)) (env_len env)) =
      alist_set (abs env) key value) as Heq.
    { rewrite (alist_set_lookup _ i _ _ v) by done. unfold abs. cbn.
      rewrite take_insert_lt by lia. rewrite list_fmap_insert. f_equal.
      rewrite Ha'. rewrite Ha in Hv. injection Hv as Hv. unfold entry_abs in *. cbn. congruence. }
    split; [|done]. apply env_ok_insert; try done; try lia.
    + rewrite Heq. apply alist_set_Forall; [apply (ok_pairs _ Hok)|].
      split; [done|]. cbn. repeat split; [done|lia|done].
    + rewrite Heq. by apply alist_set_nodup.
  - assert (alist_get (abs env) key = None) as Hnone by (by apply alist_get_None).
    destruct (decide (env_len env = length (entries env))) as [Hfull|Hfull].
    { by rewrite decide_True by (split; [done|congruence]). }
    rewrite decide_False by (intros [_ ?]; congruence).
    destruct (lookup_lt_is_Some_2 (entries env) (env_len env)) as [e He]; [lia|].
    pose proof (Forall_lookup_1 _ _ _ _ (ok_shapes _ Hok) He) as Hs.
    rewrite (get_at_Ok _ _ _ He). cbn.
    destruct (set_pair_spec e key value Hs ltac:(apply Hvk) ltac:(lia))
      as (e' & -> & Hs' & Ha' & Hkl' & Hvl'). cbn.
    rewrite set_at_Ok by lia. cbn. eexists. split; [done|].
    assert (abs (mkEnvironment (<[env_len env := e']> (entries env)) (env_len env + 1)) =
      alist_set (abs env) key value) as Heq.
    { rewrite alist_set_fresh by done. unfold abs. cbn. rewrite Nat.add_1_r.
      rewrite take_insert_S by lia. rewrite fmap_app. cbn. by rewrite Ha'. }
    split; [|done]. apply env_ok_insert; try done; try lia.
    + rewrite Hkl'. apply Hvk.
    + rewrite Heq. apply alist_set_Forall; [apply (ok_pairs _ Hok)|].
      split; [done|]. cbn. repeat split; [done|lia|done].
    + rewrite Heq. by apply alist_set_nodup.
Qed.

Lemma get_spec env key :
  env_ok env → get env key = (_ ← validate_key key; Ok (alist_get (abs env) key)).
Proof.
  intros Hok. unfold get. destruct (validate_key key) as [[]|err| |]; cbn; try done.
  pose proof (find_index_spec env Hok key) as Hfind.
  destruct (find_index env key) as [[i|]| | |]; cbn; try done.
  - destruct Hfind as (Hi & v & Hv).
    destruct (abs_lookup env Hok i Hi) as (e & He & Ha & Hs & Hp & _ & Hvl).
    rewrite (get_at_Ok _ _ _ He). cbn. rewrite value_of_abs by done. cbn.
    rewrite (alist_get_lookup _ _ _ _ (ok_nodup _ Hok) Hv).
    assert (entry_abs e = (key, v)) as Heq by congruence. unfold entry_abs in Heq. congruence.
  - by rewrite (proj2 (alist_get_None _ _)).
Qed.

Lemma env_ok_clear env es :
  length es = MAX_ENV_VARS → Forall entry_shape es →
  Forall (λ e, entry_key_len e ≤ MAX_ENV_KEY_LEN ∧ entry_value_len e ≤ MAX_ENV_VALUE_LEN) es →
  env = mkEnvironment es 0 → env_ok env ∧ abs env = [].
Proof.
  intros Hl Hs Hv ->. assert (abs (mkEnvironment es 0) = []) as Ha by done.
  split; [|done]. split; cbn; try done; [lia|constructor].
Qed.

Lemma EnvEntry_empty_ok :
  entry_shape EnvEntry_empty ∧ entry_key_len EnvEntry_empty ≤ MAX_ENV_KEY_LEN ∧
  entry_value_len EnvEntry_empty ≤ MAX_ENV_VALUE_LEN.
Proof. unfold entry_shape, MAX_ENV_KEY_LEN, MAX_ENV_VALUE_LEN. cbn. lia. Qed.

Lemma Environment_new_ok : env_ok Environment_new ∧ abs Environment_new = [].
Proof.
  apply (env_ok_clear _ (replicate MAX_ENV_VARS EnvEntry_empty)); [|apply Forall_replicate..|done];
    [done|apply EnvEntry_empty_ok..].
Qed.

Lemma clear_spec env :
  env_ok env → ∃ env', clear env = Ok env' ∧ env_ok env' ∧ abs env' = [].
Proof.
  intros Hok. unfold clear.
  pose proof (ok_len _ Hok) as Hlen.
  match goal with |- context [while ?n ?b ?s] =>
    assert (∃ es, while n b s = Ok es ∧ length es = MAX_ENV_VARS ∧ Forall entry_shape es ∧
      Forall (λ e, entry_key_len e ≤ MAX_ENV_KEY_LEN ∧ entry_value_len e ≤ MAX_ENV_VALUE_LEN) es)
      as (es & -> & Hl & Hs & Hv) end.
  { apply (while_rule
      (λ '(_, es), length es = MAX_ENV_VARS ∧ Forall entry_shape es ∧
        Forall (λ e, entry_key_len e ≤ MAX_ENV_KEY_LEN ∧
                     entry_value_len e ≤ MAX_ENV_VALUE_LEN) es)
      (λ '(i, _), env_len env - i)); [|split_and!; apply Hok|lia].
    intros [i es] (Hl & Hs & Hv). case_decide; [|by exists es].
    rewrite set_at_Ok by lia. cbn [mbind outcome_bind]. rewrite length_insert.
    split_and!; [done|apply Forall_insert; [done|apply EnvEntry_empty_ok]..|lia]. }
  cbn. eexists. split; [done|]. by apply (env_ok_clear _ es).
Qed.

Lemma remove_spec env key :
  env_ok env →
  match validate_key key with
  | Ok _ => ∃ env', remove env key = Ok (bool_decide (key ∈ (abs env).*1), env') ∧
      env_ok env' ∧ abs env' = alist_remove (abs env) key
  | o => remove env key = (_ ← o; Ok (false, env))
  end.
Proof.
  intros Hok. unfold remove. destruct (validate_key key) as [[]|err| |]; try done.
  cbn [mbind outcome_bind].
  pose proof (find_index_spec env Hok key) as Hfind.
  pose proof (length_abs env Hok) as Habs. pose proof (ok_len _ Hok) as Hlen.
  pose proof (ok_slots _ Hok) as Hslots.
  destruct (find_index env key) as [[i|]| | |]; try done; cbn [mbind outcome_bind].
  - destruct Hfind as (Hi & v & Hv).
    destruct (shift_down_spec (E:=EnvironmentError) (entries env) i (env_len env))
      as (es & -> & Hl & HP & Ht); [lia|]. cbn [mbind outcome_bind].
    rewrite set_at_Ok by lia. cbn [mbind outcome_bind].
    rewrite bool_decide_true
      by (apply list_elem_of_fmap; exists (key, v); split; [done|by eapply list_elem_of_lookup_2]).
    eexists. split; [done|].
    set (env' := mkEnvironment _ _).
    assert (abs env' = alist_remove (abs env) key) as Ha.
    { rewrite (alist_remove_lookup _ _ _ _ (ok_nodup _ Hok) Hv).
      unfold abs, env'. cbn. rewrite take_insert_ge, Ht by lia. rewrite fmap_app. f_equal.
      - rewrite <-fmap_take, take_take, Nat.min_l by lia. done.
      - unfold sub. rewrite <-fmap_drop. f_equal. rewrite take_drop_commute.
        do 2 f_equal. lia. }
    destruct EnvEntry_empty_ok as [He1 He2].
    split; [|done]. split; try rewrite Ha; cbn; try lia.
    + by rewrite length_insert, Hl.
    + apply Forall_insert; [apply HP, Hok|done].
    + apply Forall_insert; [apply HP, Hok|done].
    + eapply sublist_Forall; [apply alist_remove_sublist|apply Hok].
    + eapply sublist_NoDup; [apply (ok_nodup _ Hok)|].
      apply fmap_sublist, alist_remove_sublist.
  - rewrite bool_decide_false by done. eexists. split; [done|]. split; [done|].
    by rewrite alist_remove_fresh.
Qed.

Lemma validate_key_not_Panic key : validate_key key ≠ Panic ∧ validate_key key ≠ Hang.
Proof. pose proof (validate_key_spec key). by destruct (validate_key key). Qed.

Lemma spec_set_not_Panic l key value : spec_set l key value ≠ Panic ∧ spec_set l key value ≠ Hang.
Proof.
  unfold spec_set. pose proof (validate_key_spec key).
  destruct (validate_key key); cbn; try done. by repeat case_decide.
Qed.

Lemma serve_spec env r :
  env_ok env → request_utf8 r = true →
  ∃ env', serve env r = Some ((spec_serve (abs env) r).1, env') ∧
    env_ok env' ∧ abs env' = (spec_serve (abs env) r).2.
Proof.
  intros Hok Hu. destruct r as [k v|k|k|]; cbn in Hu |- *.
  - apply andb_true_iff in Hu as [Hk Hv]. pose proof (set_spec env k v Hok Hk Hv) as Hs.
    destruct (spec_set_not_Panic (abs env) k v).
    destruct (spec_set (abs env) k v); try done.
    + destruct Hs as (env' & -> & ? & ?). by eexists.
    + rewrite Hs. by eexists.
  - pose proof (remove_spec env k Hok) as Hs. destruct (validate_key_not_Panic k).
    destruct (validate_key k); try done.
    + destruct Hs as (env' & -> & ? & ?). by eexists.
    + rewrite Hs. by eexists.
  - rewrite get_spec by done. destruct (validate_key_not_Panic k).
    destruct (validate_key k); try done; by eexists.
  - destruct (clear_spec env Hok) as (env' & -> & ? & ?). by eexists.
Qed.

Lemma serve_all_spec env rs :
  env_ok env → forallb request_utf8 rs = true →
  ∃ env', serve_all env rs = Some ((spec_serve_all (abs env) rs).1, env') ∧
    env_ok env' ∧ abs env' = (spec_serve_all (abs env) rs).2.
Proof.
  revert env. induction rs as [|r rs IH]; intros env Hok Hu; [by exists env|].
  cbn [forallb] in Hu. apply andb_true_iff in Hu as [Hr Hu].
  destruct (serve_spec env r Hok Hr) as (env' & Hs & Hok' & Ha).
  destruct (IH env' Hok' Hu) as (env'' & Hss & Hok'' & Ha').
  cbn [serve_all spec_serve_all]. rewrite Hs. cbn [mbind option_bind]. rewrite Hss. cbn.
  rewrite Ha in *. destruct (spec_serve (abs env) r) as [a l]. cbn in *.
  destruct (spec_serve_all l rs) as [answers l']. cbn in *. by eexists.
Qed.

Lemma inherit_spec env child :
  env_ok env → env_ok child →
  ∃ child', inherit_into env child = Ok child' ∧ env_ok child' ∧ abs child' = abs env.
Proof.
  intros Hok Hc. unfold inherit_into.
  destruct (clear_spec child Hc) as (child0 & -> & Hok0 & Ha0). cbn [mbind outcome_bind].
  apply (while_rule
    (λ '(i, c), i ≤ env_len env ∧ env_ok c ∧ abs c = take i (abs env))
    (λ '(i, _), env_len env - i)
    (λ o, ∃ c, o = Ok c ∧ env_ok c ∧ abs c = abs env)); [|split_and!; [lia|done..]|lia].
  pose proof (length_abs env Hok) as Hlen.
  intros [i c] (Hi & Hokc & Hac). case_decide as Hlt.
  - destruct (abs_lookup env Hok i Hlt) as (e & He & Ha & Hs & Hp & Hkl & Hvl).
    rewrite (get_at_Ok _ _ _ He). cbn [mbind outcome_bind].
    rewrite key_of_abs, value_of_abs by done. cbn [mbind outcome_bind].
    pose proof Hp as (Hk & Hku & Hv & Hvu).
    pose proof (set_spec c _ _ Hokc Hku Hvu) as Hset. unfold spec_set in Hset.
    assert ((entry_abs e).1 ∉ (abs c).*1) as Hfresh.
    { pose proof (ok_nodup _ Hok) as Hnd. rewrite <-(take_drop i (abs env)), fmap_app in Hnd.
      apply NoDup_app in Hnd as (_ & Hnd & _). rewrite Hac. intros Hin.
      apply (Hnd _ Hin). rewrite (drop_S _ _ _ Ha). by left. }
    rewrite validate_key_Ok in Hset by done. cbn [mbind outcome_bind] in Hset.
    rewrite decide_False in Hset by lia. rewrite decide_False in Hset.
    2: { intros [_ Hfull]. rewrite Hac, length_take in Hfull.
         pose proof (ok_len _ Hok). lia. }
    destruct Hset as (c' & -> & Hokc' & Hac'). cbn [mbind outcome_bind].
    split_and!; [lia|done| |lia].
    rewrite Hac', alist_set_fresh, (take_S_r _ _ _ Ha), Hac by done.
    by rewrite <-surjective_pairing.
  - exists c. split_and!; [done..|]. rewrite Hac, take_ge; [done|lia].
Qed.

Lemma listing_app l1 l2 : listing (l1 ++ l2) = listing l1 ++ listing l2.
Proof. unfold listing. by rewrite map_app, concat_app. Qed.

Lemma length_listing_take l i : length (listing (take i l)) ≤ length (listing l).
Proof. rewrite <-(take_drop i l) at 2. rewrite listing_app, length_app. lia. Qed.

Lemma write_listing_spec env buffer :
  env_ok env →
  write_listing_into env buffer =
    if decide (length (listing (abs env)) ≤ length buffer)
    then Ok (length (listing (abs env)), splice buffer 0 (listing (abs env)))
    else Err CapacityExceeded.
Proof.
  intros Hok. unfold write_listing_into. pose proof (length_abs env Hok) as Hlen.
  apply (while_rule
    (λ '(i, w, b), i ≤ env_len env ∧ w = length (listing (take i (abs env))) ∧
       w ≤ length buffer ∧ b = splice buffer 0 (listing (take i (abs env))))
    (λ '(i, _, _), env_len env - i)
    (λ o, o = if decide (length (listing (abs env)) ≤ length buffer)
      then Ok (length (listing (abs env)), splice buffer 0 (listing (abs env)))
      else Err CapacityExceeded)); [|split_and!; cbn; try done; lia|lia].
  intros [[i w] b] (Hi & Hw & Hwl & Hb). subst b.
  assert (length (splice buffer 0 (listing (take i (abs env)))) = length buffer) as Hlb
    by (rewrite length_splice; cbn; lia).
  case_decide as Hlt.
  - destruct (abs_lookup env Hok i Hlt) as (e & He & Ha & [Hsk Hsv] & Hp & Hkl & Hvl).
    rewrite (get_at_Ok _ _ _ He). cbn [mbind outcome_bind].
    set (k := (entry_abs e).1). set (v := (entry_abs e).2).
    assert (length k = entry_key_len e) as Hk by (cbn; rewrite length_take; lia).
    assert (length v = entry_value_len e) as Hv by (cbn; rewrite length_take; lia).
    assert (listing (take (S i) (abs env)) =
      listing (take i (abs env)) ++ k ++ EQUALS :: v ++ [NEWLINE]) as Hnext.
    { rewrite (take_S_r _ _ _ Ha), listing_app. f_equal. unfold listing. cbn.
      by rewrite app_nil_r. }
    pose proof (length_listing_take (abs env) (S i)) as Hmono.
    assert (length (listing (take (S i) (abs env))) =
      w + (entry_key_len e + 1 + entry_value_len e + 1)) as Hlen'.
    { rewrite Hnext, length_app, length_app, length_cons, length_app. cbn [length]. lia. }
    case_decide; [by rewrite decide_False by lia|].
    rewrite !slice_Ok by (cbn in *; lia). cbn [mbind outcome_bind]. rewrite !sub_0.
    change (take (entry_key_len e) (entry_key e)) with k.
    change (take (entry_value_len e) (entry_value e)) with v.
    rewrite write_at_next by lia. cbn [mbind outcome_bind].
    rewrite set_at_next by (rewrite length_app; lia). cbn [mbind outcome_bind].
    rewrite write_at_next by (rewrite !length_app; cbn [length]; lia). cbn [mbind outcome_bind].
    rewrite set_at_next by (rewrite !length_app; cbn [length]; lia). cbn [mbind outcome_bind].
    rewrite <-!app_assoc. cbn [app]. rewrite Hnext.
    split_and!; [lia|rewrite <-Hnext; lia|lia|done|lia].
  - rewrite take_ge in Hw, Hlb |- * by lia. by rewrite decide_True by lia; subst.
Qed.

(** * Properties *)

(** C28. Whatever requests (set, remove, get, clear) a process makes on its
    environment block, starting from the empty one, the fixed-array block
    never panics and answers exactly as the ordered association list of
    specification does, errors included, and ends in a block that satisfies
    the invariant and represents the same list. *)
Theorem env_requests_refine rs :
  forallb request_utf8 rs = true →
  ∃ env', serve_all Environment_new rs = Some ((spec_serve_all [] rs).1, env') ∧
    env_ok env' ∧ abs env' = (spec_serve_all [] rs).2.
Proof.
  intros Hu. destruct Environment_new_ok as [Hok Ha]. rewrite <-Ha. by apply serve_all_spec.
Qed.

Lemma env_requests_refine_witness :
  ∃ env', serve_all Environment_new
      [RSet (ascii "PATH") (ascii "/bin"); RGet (ascii "PATH"); RRemove (ascii "PATH");
       RGet (ascii "PATH"); RSet (ascii "A=B") []]
    = Some ([ADone; AValue (Some (ascii "/bin")); ARemoved true; AValue None;
             AFailed InvalidKey], env') ∧ env_ok env' ∧ abs env' = [].
Proof.
  destruct (env_requests_refine
      [RSet (ascii "PATH") (ascii "/bin"); RGet (ascii "PATH"); RRemove (ascii "PATH");
       RGet (ascii "PATH"); RSet (ascii "A=B") []] ltac:(reflexivity))
    as (env' & Hs & Hok & Ha).
  exists env'. split_and!; [rewrite Hs; reflexivity|exact Hok|exact Ha].
Defined.

(** A successful [set] binds the key to the value and leaves the value of
    every other key as it was; [get] reports it. *)
Theorem env_set_then_get env key value env' key' :
  env_ok env → utf8_valid key = true → utf8_valid value = true →
  set env key value = Ok env' →
  get env' key' = if decide (key = key') then Ok (Some value) else get env key'.
Proof.
  intros Hok Hk Hv Hset. pose proof (set_spec env key value Hok Hk Hv) as Hs.
  unfold spec_set in Hs. pose proof (validate_key_spec key) as Hkey.
  destruct (validate_key key) as [[]| | |] eqn:Hvk; cbn [mbind outcome_bind] in Hs; try congruence.
  case_decide; [congruence|]. case_decide; [congruence|].
  destruct Hs as (env'' & Hset' & Hok' & Ha'). assert (env'' = env') as -> by congruence.
  rewrite !get_spec, Ha', alist_get_set by done. case_decide; [subst|done].
  by rewrite Hvk.
Qed.

Lemma env_set_then_get_witness :
  ∃ env', set Environment_new (ascii "HOME") (ascii "/") = Ok env' ∧
    get env' (ascii "HOME") = Ok (Some (ascii "/")).
Proof.
  destruct (set Environment_new (ascii "HOME") (ascii "/")) as [env'|e| |] eqn:Hs;
    [|exfalso; vm_compute in Hs; discriminate..].
  exists env'. split; [reflexivity|].
  rewrite (env_set_then_get Environment_new (ascii "HOME") (ascii "/") env' (ascii "HOME")
    (proj1 Environment_new_ok) eq_refl eq_refl Hs).
  reflexivity.
Defined.

(** [inherit_into] never fails and never panics: whatever the child's
    block held, it ends up with exactly the parent's variables, in the
    parent's order. *)
Theorem env_inherit_copies env child :
  env_ok env → env_ok child →
  ∃ child', inherit_into env child = Ok child' ∧ env_ok child' ∧ abs child' = abs env.
Proof. apply inherit_spec. Qed.

Lemma env_inherit_copies_witness :
  ∃ child', inherit_into Environment_new Environment_new = Ok child' ∧
    env_ok child' ∧ abs child' = abs Environment_new.
Proof.
  exact (env_inherit_copies Environment_new Environment_new
    (proj1 Environment_new_ok) (proj1 Environment_new_ok)).
Defined.

(** [write_listing_into] writes [KEY=VALUE] lines in insertion order at
    the start of the buffer and reports their length; it fails with
    [CapacityExceeded] exactly when the listing is longer than the buffer,
    and never writes past it. *)
Theorem env_listing_exact env buffer :
  env_ok env →
  write_listing_into env buffer =
    if decide (length (listing (abs env)) ≤ length buffer)
    then Ok (length (listing (abs env)), splice buffer 0 (listing (abs env)))
    else Err CapacityExceeded.
Proof. apply write_listing_spec. Qed.

Lemma env_listing_exact_witness :
  write_listing_into Environment_new [] = Ok (0, []).
Proof. exact (env_listing_exact Environment_new [] (proj1 Environment_new_ok)). Defined.
