(* ===== verification/Queues.v ===== *)
(** * Bounded queues: the interface and the ring buffers that implement it

    [Fifo] states what a byte or event queue promises to its clients: it holds
    a list, accepts at the back while there is room, drops the newest element
    otherwise, and hands out elements from the front.  The two ring buffers of
    the kernel ([ByteQueue] of [kernel/kernel/src/terminal.rs] and
    [EventQueue] of [keyboard.rs]) are its instances; the terminal and
    keyboard theorems are proved against the interface. *)

From S2P Require Import Prelude.

(** ** The interface *)

Class FifoOps (Q A : Type) := {
  capacity : nat;
  enqueue : Q → A → outcome () (bool * Q);
  dequeue : Q → outcome () (option A * Q);
  holds : Q → list A → Prop
}.

Class Fifo (Q A : Type) `{FifoOps Q A} := {
  holds_bound q xs : holds q xs → length xs ≤ capacity (Q:=Q) (A:=A);
  enqueue_room q xs x :
    holds q xs → length xs < capacity (Q:=Q) (A:=A) →
    ∃ q', enqueue q x = Ok (true, q') ∧ holds q' (xs ++ [x]);
  enqueue_full q xs x :
    holds q xs → length xs = capacity (Q:=Q) (A:=A) → enqueue q x = Ok (false, q);
  dequeue_empty q : holds q [] → dequeue q = Ok (None, q);
  dequeue_cons q x xs :
    holds q (x :: xs) → ∃ q', dequeue q = Ok (Some x, q') ∧ holds q' xs
}.

(** ** [ByteQueue] (terminal.rs) *)

Record ByteQueue := mkByteQueue {
  bytes : list Z;
  read_index : nat;
  write_index : nat;
  len : nat
}.

Definition ByteQueue_new (CAPACITY : nat) : ByteQueue :=
  mkByteQueue (replicate CAPACITY 0%Z) 0 0 0.

Definition ByteQueue_push (CAPACITY : nat) (q : ByteQueue) (byte : Z)
    : outcome () (bool * ByteQueue) :=
  if decide (CAPACITY ≤ len q) then Ok (false, q)
  else
    b ← set_at (bytes q) (write_index q) byte;
    Ok (true, mkByteQueue b (read_index q) ((write_index q + 1) mod CAPACITY) (len q + 1)).

Definition ByteQueue_pop (CAPACITY : nat) (q : ByteQueue)
    : outcome () (option Z * ByteQueue) :=
  if decide (len q = 0) then Ok (None, q)
  else
    byte ← get_at (bytes q) (read_index q);
    Ok (Some byte,
        mkByteQueue (bytes q) ((read_index q + 1) mod CAPACITY) (write_index q) (len q - 1)).

(** ** [EventQueue] (keyboard.rs), over any type of event *)

Section event_queue.
Context {Event : Type}.

Record EventQueue := mkEventQueue {
  eq_entries : list (option Event);
  eq_read_index : nat;
  eq_write_index : nat;
  eq_len : nat
}.

Definition EVENT_QUEUE_CAPACITY : nat := 64.

#[global] Arguments EVENT_QUEUE_CAPACITY : simpl never.

Definition EventQueue_new : EventQueue :=
  mkEventQueue (replicate EVENT_QUEUE_CAPACITY None) 0 0 0.

(** [Result<(), ()>]: [false] is [Err(())]. *)
Definition EventQueue_push (q : EventQueue) (event : Event)
    : outcome () (bool * EventQueue) :=
  if decide (length (eq_entries q) ≤ eq_len q) then Ok (false, q)
  else
    es ← set_at (eq_entries q) (eq_write_index q) (Some event);
    Ok (true, mkEventQueue es (eq_read_index q)
                ((eq_write_index q + 1) mod length (eq_entries q)) (eq_len q + 1)).

Definition EventQueue_pop (q : EventQueue) : outcome () (option Event * EventQueue) :=
  if decide (eq_len q = 0) then Ok (None, q)
  else
    event ← get_at (eq_entries q) (eq_read_index q);
    es ← set_at (eq_entries q) (eq_read_index q) None;
    Ok (event, mkEventQueue es ((eq_read_index q + 1) mod length (eq_entries q))
                 (eq_write_index q) (eq_len q - 1)).
End event_queue.
Arguments EventQueue Event : clear implicits.

(** ** Ring buffers

    [ring slots cap r w n xs]: the [n] slots from [r], wrapping at [cap],
    hold [xs], and [w] is the slot after them. *)

Record ring {A} (slots : list A) (cap r w n : nat) (xs : list A) : Prop := {
  ring_slots : length slots = cap;
  ring_read : r < cap;
  ring_write : w = (r + n) mod cap;
  ring_len : n = length xs;
  ring_bound : n ≤ cap;
  ring_items : ∀ i, i < n → slots !! ((r + i) mod cap) = xs !! i
}.

(** The byte queue's bound is a constant of its type. *)
Definition BoundedBytes (CAPACITY : nat) : Type := ByteQueue.

#[export] Instance byte_fifo_ops CAPACITY : FifoOps (BoundedBytes CAPACITY) Z := {
  capacity := CAPACITY;
  enqueue := ByteQueue_push CAPACITY;
  dequeue := ByteQueue_pop CAPACITY;
  holds q xs := ring (bytes q) CAPACITY (read_index q) (write_index q) (len q) xs
}.

#[export] Instance event_fifo_ops Event : FifoOps (EventQueue Event) Event := {
  capacity := EVENT_QUEUE_CAPACITY;
  enqueue := EventQueue_push;
  dequeue := EventQueue_pop;
  holds q xs := ring (eq_entries q) EVENT_QUEUE_CAPACITY (eq_read_index q)
    (eq_write_index q) (eq_len q) (Some <$> xs)
}.

(** ** Clients that only use the interface *)

Section client.
Context {Q A : Type} `{Fifo Q A}.

Fixpoint enqueue_all (q : Q) (xs : list A) : outcome () Q :=
  match xs with
  | [] => Ok q
  | x :: xs => '(_, q) ← enqueue q x; enqueue_all q xs
  end.

(** [while let Some(x) = pop() { .. }]: everything the queue holds. *)
Definition drain (fuel : nat) (q : Q) : outcome () (list A * Q) :=
  while fuel (λ '(out, q),
    '(item, q) ← dequeue q;
    match item with
    | Some x => Ok (inl (out ++ [x], q))
    | None => Ok (inr (out, q))
    end) ([], q).
End client.

(** * Lemmas *)

(** ** Index arithmetic of a ring *)

Lemma wrap_mod x cap : x < 2 * cap → x mod cap = if decide (x < cap) then x else x - cap.
Proof.
  intros Hx. case_decide; [by apply Nat.mod_small|].
  symmetry. apply Nat.mod_unique with 1; lia.
Qed.

Lemma ring_new {A} (x : A) cap : 0 < cap → ring (replicate cap x) cap 0 0 0 [].
Proof.
  intros Hc. split; cbn; try done; [by rewrite length_replicate| |lia|lia].
  by rewrite Nat.mod_small.
Qed.

Lemma ring_push {A} (slots : list A) cap r w n xs x :
  ring slots cap r w n xs → n < cap →
  w < length slots ∧ ring (<[w := x]> slots) cap r ((w + 1) mod cap) (n + 1) (xs ++ [x]).
Proof.
  intros [Hs Hr -> -> Hb Hi] Hlt. rewrite (wrap_mod (r + _)) by lia.
  split; [case_decide; lia|]. split; try done.
  - by rewrite length_insert.
  - rewrite !wrap_mod by (repeat case_decide; lia). repeat case_decide; lia.
  - by rewrite length_app.
  - lia.
  - intros i Hin. rewrite wrap_mod by lia. destruct (decide (i = length xs)) as [->|Hne].
    + rewrite list_lookup_insert_eq by (case_decide; lia).
      by rewrite lookup_app_r, Nat.sub_diag by lia.
    + rewrite list_lookup_insert_ne by (repeat case_decide; lia).
      rewrite lookup_app_l by lia. rewrite <-Hi, wrap_mod by lia. done.
Qed.

Lemma ring_pop {A} (slots : list A) cap r w n x xs :
  ring slots cap r w n (x :: xs) →
  slots !! r = Some x ∧ ring slots cap ((r + 1) mod cap) w (n - 1) xs.
Proof.
  intros [Hs Hr -> Hn Hb Hi]. cbn in Hn. split.
  { specialize (Hi 0 ltac:(lia)). by rewrite Nat.add_0_r, Nat.mod_small in Hi. }
  rewrite (wrap_mod (r + 1)), (wrap_mod (r + n)) by lia.
  split; try done; try lia.
  - case_decide; lia.
  - rewrite wrap_mod by (case_decide; lia). repeat case_decide; lia.
  - intros i Hin. change (xs !! i) with ((x :: xs) !! S i). rewrite <-Hi by lia. f_equal.
    rewrite !wrap_mod by (repeat case_decide; lia). repeat case_decide; lia.
Qed.

(** Overwriting the slot that has just been read. *)
Lemma ring_take {A} (slots : list A) cap r w n x xs y :
  ring slots cap r w n (x :: xs) →
  ring (<[r := y]> slots) cap ((r + 1) mod cap) w (n - 1) xs.
Proof.
  intros Hring. pose proof Hring as [Hs Hr _ Hn Hb _].
  apply ring_pop in Hring as [_ [Hs' Hr' Hw' Hn' Hb' Hi']].
  split; try done; [by rewrite length_insert|].
  intros i Hin. rewrite list_lookup_insert_ne; [by apply Hi'|].
  cbn in Hn. rewrite (wrap_mod (r + 1)) by lia.
  rewrite wrap_mod by (repeat case_decide; lia). repeat case_decide; lia.
Qed.

(** ** The implementations *)

#[export] Instance byte_fifo CAPACITY : Fifo (BoundedBytes CAPACITY) Z.
Proof.
  split; cbn.
  - intros q xs Hr. rewrite <-(ring_len _ _ _ _ _ _ Hr). apply Hr.
  - intros q xs x Hr Hlt. unfold ByteQueue_push.
    rewrite <-(ring_len _ _ _ _ _ _ Hr) in Hlt. rewrite decide_False by lia.
    destruct (ring_push _ _ _ _ _ _ x Hr Hlt) as [Hw Hr'].
    rewrite set_at_Ok by done. cbn. eexists. split; [done|]. exact Hr'.
  - intros q xs x Hr Heq. unfold ByteQueue_push.
    rewrite <-(ring_len _ _ _ _ _ _ Hr) in Heq. by rewrite decide_True by lia.
  - intros q Hr. unfold ByteQueue_pop. by rewrite decide_True by apply Hr.
  - intros q x xs Hr. unfold ByteQueue_pop.
    rewrite decide_False by (rewrite (ring_len _ _ _ _ _ _ Hr); done).
    apply ring_pop in Hr as [Hx Hr]. rewrite (get_at_Ok _ _ _ Hx). cbn.
    eexists. split; [done|]. exact Hr.
Qed.

#[export] Instance event_fifo Event : Fifo (EventQueue Event) Event.
Proof.
  split; cbn.
  - intros q xs Hr. rewrite <-(length_fmap Some xs), <-(ring_len _ _ _ _ _ _ Hr). apply Hr.
  - intros q xs x Hr Hlt. unfold EventQueue_push.
    rewrite (ring_slots _ _ _ _ _ _ Hr).
    rewrite <-(length_fmap Some xs), <-(ring_len _ _ _ _ _ _ Hr) in Hlt.
    rewrite decide_False by lia.
    destruct (ring_push _ _ _ _ _ _ (Some x) Hr Hlt) as [Hw Hr'].
    rewrite set_at_Ok by done. cbn. eexists. split; [done|].
    rewrite fmap_app. exact Hr'.
  - intros q xs x Hr Heq. unfold EventQueue_push. rewrite (ring_slots _ _ _ _ _ _ Hr).
    rewrite <-(length_fmap Some xs), <-(ring_len _ _ _ _ _ _ Hr) in Heq.
    by rewrite decide_True by lia.
  - intros q Hr. unfold EventQueue_pop. by rewrite decide_True by apply Hr.
  - intros q x xs Hr. unfold EventQueue_pop.
    rewrite decide_False by (rewrite (ring_len _ _ _ _ _ _ Hr); done).
    pose proof (ring_take _ _ _ _ _ _ _ None Hr) as Hr'.
    pose proof Hr as [Hs Hlt _ _ _ _].
    apply ring_pop in Hr as [Hx _]. rewrite (get_at_Ok _ _ _ Hx). cbn.
    rewrite set_at_Ok by lia. cbn. rewrite Hs. eexists. split; [done|]. exact Hr'.
Qed.

Lemma ByteQueue_new_holds CAPACITY :
  0 < CAPACITY → holds (Q:=BoundedBytes CAPACITY) (ByteQueue_new CAPACITY) [].
Proof. apply ring_new. Qed.

Lemma EventQueue_new_holds Event : holds (Q:=EventQueue Event) EventQueue_new [].
Proof. apply ring_new. unfold EVENT_QUEUE_CAPACITY. lia. Qed.

(** ** Clients of the interface *)

Section client_lemmas.
Context {Q A : Type} `{Fifo Q A}.
Implicit Types (q : Q) (xs : list A).

(** One enqueue, whether there is room or not: the queue keeps the oldest
    [capacity] elements. *)
Lemma enqueue_take q xs x :
  holds q xs →
  ∃ b q', enqueue q x = Ok (b, q') ∧
    holds q' (take (capacity (Q:=Q) (A:=A)) (xs ++ [x])).
Proof.
  intros Hq. pose proof (holds_bound _ _ Hq).
  destruct (decide (length xs < capacity (Q:=Q) (A:=A))) as [Hlt|].
  - destruct (enqueue_room _ _ x Hq Hlt) as (q' & -> & Hq'). exists true, q'.
    split; [done|]. rewrite take_ge; [done|]. rewrite length_app. cbn. lia.
  - exists false, q. rewrite (enqueue_full q xs) by (done || lia). split; [done|].
    rewrite take_app_le, take_ge by lia. done.
Qed.

Lemma enqueue_all_take q xs ys :
  holds q xs →
  ∃ q', enqueue_all q ys = Ok q' ∧ holds q' (take (capacity (Q:=Q) (A:=A)) (xs ++ ys)).
Proof.
  revert q xs. induction ys as [|y ys IH]; intros q xs Hq; cbn.
  - exists q. split; [done|]. rewrite app_nil_r, take_ge; [done|by eapply holds_bound].
  - destruct (enqueue_take q xs y Hq) as (b & q' & -> & Hq'). cbn.
    destruct (IH _ _ Hq') as (q'' & -> & Hq''). exists q''. split; [done|].
    by rewrite take_take_app, <-app_assoc in Hq''.
Qed.

Lemma drain_all q xs fuel :
  holds q xs → length xs < fuel →
  ∃ q', drain fuel q = Ok (xs, q') ∧ holds q' [].
Proof.
  intros Hq Hf. unfold drain.
  apply (while_rule
    (λ '(out, q), ∃ rest, holds q rest ∧ xs = out ++ rest)
    (λ '(out, q), length xs - length out)
    (λ o, ∃ q', o = Ok (xs, q') ∧ holds q' [])); [|by exists xs|cbn; lia].
  intros [out q0] (rest & Hrest & ->). destruct rest as [|x rest].
  - rewrite dequeue_empty by done. cbn. exists q0. by rewrite app_nil_r.
  - destruct (dequeue_cons _ _ _ Hrest) as (q' & -> & Hq'). cbn.
    split; [exists rest; by rewrite <-app_assoc|]. rewrite !length_app. cbn. lia.
Qed.
End client_lemmas.

(** * Properties *)

(** Whatever ring position the byte queue is in, pushing a string and then
    draining gives back, in order, what was queued followed by the part of
    the string that fitted: bytes are never lost, duplicated or reordered
    below the capacity, and the newest are dropped above it. *)
Theorem byte_queue_roundtrip CAPACITY (q : BoundedBytes CAPACITY) xs ys :
  holds q xs →
  ∃ q' q'', enqueue_all q ys = Ok q' ∧
    drain (S CAPACITY) q' = Ok (take CAPACITY (xs ++ ys), q'') ∧ holds q'' [].
Proof.
  intros Hq. destruct (enqueue_all_take q xs ys Hq) as (q' & He & Hq').
  destruct (drain_all q' _ (S CAPACITY) Hq') as (q'' & Hd & Hq'').
  { rewrite length_take. cbn. lia. }
  by exists q', q''.
Qed.

Lemma byte_queue_roundtrip_witness :
  ∃ q' q'', enqueue_all (Q:=BoundedBytes 2) (ByteQueue_new 2) [10; 20; 30]%Z = Ok q' ∧
    drain (Q:=BoundedBytes 2) 3 q' = Ok ([10; 20]%Z, q'') ∧
    holds (Q:=BoundedBytes 2) q'' [].
Proof.
  destruct (byte_queue_roundtrip 2 (ByteQueue_new 2) [] [10; 20; 30]%Z)
    as (q' & q'' & He & Hd & Hq); [apply ring_new; lia|].
  exists q', q''. split_and!; assumption.
Defined.
