(* ===== verification/Keyboard.v ===== *)
(** * PS/2 keyboard ([kernel/kernel/src/keyboard.rs])

    The scan-code state machine (set 1, with the 0xe0 prefix), the modifier
    state and the event queue, which is used only through the [Fifo]
    interface.  The controller's two ports are the device: a list of pending
    (status, data) reads. *)

From S2P Require Import Prelude Bytes Queues.

Local Open Scope Z_scope.

Definition OUTPUT_BUFFER_FULL : Z := 1.
Definition AUXILIARY_DATA : Z := 32.

Inductive KeyState := Pressed | Released.

Inductive KeyCode :=
| KeyA | KeyB | KeyC | KeyD | KeyE | KeyF | KeyG | KeyH | KeyI
| KeyJ | KeyK | KeyL | KeyM | KeyN | KeyO | KeyP | KeyQ | KeyR
| KeyS | KeyT | KeyU | KeyV | KeyW | KeyX | KeyY | KeyZ | KeyDigit0
| KeyDigit1 | KeyDigit2 | KeyDigit3 | KeyDigit4 | KeyDigit5 | KeyDigit6 | KeyDigit7 | KeyDigit8 | KeyDigit9
| KeySpace | KeyMinus | KeyEquals | KeyLeftBracket | KeyRightBracket | KeyBackslash | KeySemicolon | KeyApostrophe | KeyGrave
| KeyComma | KeyPeriod | KeySlash | KeyEnter | KeyBackspace | KeyLeftShift | KeyRightShift | KeyUnknown.

#[export] Instance KeyState_eq_dec : EqDecision KeyState.
Proof. solve_decision. Defined.
#[export] Instance KeyCode_eq_dec : EqDecision KeyCode.
Proof. solve_decision. Defined.

Record KeyEvent := mkKeyEvent {
  key : KeyCode;
  state : KeyState;
  shift_active : bool
}.

#[export] Instance KeyEvent_eq_dec : EqDecision KeyEvent.
Proof. solve_decision. Defined.

Record KeyboardState := mkKeyboard {
  left_shift_active : bool;
  right_shift_active : bool;
  extended_prefix : bool;
  queue : EventQueue KeyEvent
}.

Definition KeyboardState_new : KeyboardState :=
  mkKeyboard false false false EventQueue_new.

Definition decode_key (scan_code : Z) : KeyCode :=
  match scan_code with
  | 0x02 => KeyDigit1 | 0x03 => KeyDigit2 | 0x04 => KeyDigit3
  | 0x05 => KeyDigit4 | 0x06 => KeyDigit5 | 0x07 => KeyDigit6
  | 0x08 => KeyDigit7 | 0x09 => KeyDigit8 | 0x0a => KeyDigit9
  | 0x0b => KeyDigit0 | 0x0c => KeyMinus | 0x0d => KeyEquals
  | 0x0e => KeyBackspace | 0x10 => KeyQ | 0x11 => KeyW
  | 0x12 => KeyE | 0x13 => KeyR | 0x14 => KeyT
  | 0x15 => KeyY | 0x16 => KeyU | 0x17 => KeyI
  | 0x18 => KeyO | 0x19 => KeyP | 0x1a => KeyLeftBracket
  | 0x1b => KeyRightBracket | 0x1c => KeyEnter | 0x1e => KeyA
  | 0x1f => KeyS | 0x20 => KeyD | 0x21 => KeyF
  | 0x22 => KeyG | 0x23 => KeyH | 0x24 => KeyJ
  | 0x25 => KeyK | 0x26 => KeyL | 0x27 => KeySemicolon
  | 0x28 => KeyApostrophe | 0x29 => KeyGrave | 0x2a => KeyLeftShift
  | 0x2b => KeyBackslash | 0x2c => KeyZ | 0x2d => KeyX
  | 0x2e => KeyC | 0x2f => KeyV | 0x30 => KeyB
  | 0x31 => KeyN | 0x32 => KeyM | 0x33 => KeyComma
  | 0x34 => KeyPeriod | 0x35 => KeySlash | 0x36 => KeyRightShift
  | 0x39 => KeySpace
  | _ => KeyUnknown
  end.

Definition kb_shift_active (kb : KeyboardState) : bool :=
  left_shift_active kb || right_shift_active kb.

Definition decode_set1 (kb : KeyboardState) (byte : Z) : option KeyEvent :=
  let released := negb (Z.land byte 0x80 =? 0) in
  let scan_code := Z.land byte 0x7f in
  let key := decode_key scan_code in
  if decide (key = KeyUnknown) then None
  else Some (mkKeyEvent key (if released then Released else Pressed) (kb_shift_active kb)).

Definition decode_extended (kb : KeyboardState) (byte : Z) : option KeyEvent :=
  let released := negb (Z.land byte 0x80 =? 0) in
  let scan_code := Z.land byte 0x7f in
  let key := match scan_code with _ => KeyUnknown end in
  if decide (key = KeyUnknown) then None
  else Some (mkKeyEvent key (if released then Released else Pressed) (kb_shift_active kb)).

Definition process_byte (kb : KeyboardState) (byte : Z) : outcome () KeyboardState :=
  if byte =? 0xe0 then
    Ok (mkKeyboard (left_shift_active kb) (right_shift_active kb) true (queue kb))
  else
    let '(event, kb) :=
      if extended_prefix kb then
        let kb := mkKeyboard (left_shift_active kb) (right_shift_active kb) false (queue kb) in
        (decode_extended kb byte, kb)
      else (decode_set1 kb byte, kb) in
    match event with
    | None => Ok kb
    | Some event =>
        let kb :=
          match key event with
          | KeyLeftShift =>
              mkKeyboard (bool_decide (state event = Pressed)) (right_shift_active kb)
                (extended_prefix kb) (queue kb)
          | KeyRightShift =>
              mkKeyboard (left_shift_active kb) (bool_decide (state event = Pressed))
                (extended_prefix kb) (queue kb)
          | _ => kb
          end in
        let event := mkKeyEvent (key event) (state event) (kb_shift_active kb) in
        '(_, q) ← EventQueue_push (queue kb) event;
        Ok (mkKeyboard (left_shift_active kb) (right_shift_active kb) (extended_prefix kb) q)
    end.

(** The controller: what the status port and the data port answer next.  With
    nothing pending the status port reads as empty. *)
Definition read_controller_byte (device : list (Z * Z)) : option Z * list (Z * Z) :=
  match device with
  | [] => (None, [])
  | (status, byte) :: rest =>
      if Z.land status OUTPUT_BUFFER_FULL =? 0 then (None, rest)
      else if negb (Z.land status AUXILIARY_DATA =? 0) then (None, rest)
      else (Some byte, rest)
  end.

Definition poll (kb : KeyboardState) (device : list (Z * Z))
    : outcome () (KeyboardState * list (Z * Z)) :=
  while (S (length device)) (λ '(kb, device),
    match read_controller_byte device with
    | (Some byte, device) => kb ← process_byte kb byte; Ok (inl (kb, device))
    | (None, device) => Ok (inr (kb, device))
    end) (kb, device).

Definition pop_event (kb : KeyboardState) : outcome () (option KeyEvent * KeyboardState) :=
  '(event, q) ← EventQueue_pop (queue kb);
  Ok (event, mkKeyboard (left_shift_active kb) (right_shift_active kb) (extended_prefix kb) q).

(** ** Specification: what a scan-code history means *)

(** The codes that are not part of an 0xe0 sequence. *)
Fixpoint effective (ext : bool) (codes : list Z) : list Z :=
  match codes with
  | [] => []
  | b :: codes =>
      if b =? 0xe0 then effective true codes
      else if ext then effective false codes
      else b :: effective false codes
  end.

(** Whether an unfinished 0xe0 sequence ends the history. *)
Definition in_extended (codes : list Z) : bool :=
  match last codes with Some b => b =? 0xe0 | None => false end.

(** A key is down when the last of its make and break codes is the make. *)
Definition key_down (make : Z) (codes : list Z) : bool :=
  match last (filter (λ b, b = make ∨ b = make + 0x80) codes) with
  | Some b => b =? make
  | None => false
  end.

(** The event that the last code of a history gives. *)
Definition event_of (codes : list Z) : option KeyEvent :=
  match last codes with
  | None => None
  | Some b =>
      let k := decode_key (b mod 128) in
      if decide (k = KeyUnknown) then None
      else Some (mkKeyEvent k (if b <? 128 then Pressed else Released)
                   (key_down 0x2a codes || key_down 0x36 codes))
  end.

Definition prefixes {A} (l : list A) : list (list A) :=
  map (λ i, take (S i) l) (seq 0 (length l)).

Definition events_of (codes : list Z) : list KeyEvent := omap event_of (prefixes codes).

Definition process_all (kb : KeyboardState) (codes : list Z) : outcome () KeyboardState :=
  for_each process_byte kb codes.

(** * Lemmas *)

Lemma prefixes_snoc {A} (l : list A) x : prefixes (l ++ [x]) = prefixes l ++ [l ++ [x]].
Proof.
  unfold prefixes. rewrite length_app. cbn. rewrite seq_app, map_app. cbn. f_equal.
  - apply map_ext_in. intros i [_ Hi]%in_seq. rewrite take_app_le by lia. done.
  - rewrite take_ge by (rewrite length_app; cbn; lia). done.
Qed.

Lemma events_of_snoc l b :
  events_of (l ++ [b]) = events_of l ++ from_option (λ e, [e]) [] (event_of (l ++ [b])).
Proof.
  unfold events_of. by rewrite prefixes_snoc, omap_app.
Qed.

Lemma effective_snoc ext codes b :
  effective ext (codes ++ [b]) =
    effective ext codes ++
      (if (b =? 0xe0) || (if decide (codes = []) then ext else in_extended codes) then [] else [b]).
Proof.
  revert ext. induction codes as [|c codes IH]; intros ext; cbn.
  - destruct (b =? 0xe0); [done|]. by destruct ext.
  - rewrite !IH. assert (in_extended (c :: codes) =
      if decide (codes = []) then c =? 0xe0 else in_extended codes) as ->.
    { unfold in_extended. destruct codes; [done|]. by rewrite last_cons_cons. }
    destruct (c =? 0xe0) eqn:Hc; [by destruct (decide (codes = []))|].
    destruct ext; [by destruct (decide (codes = []))|].
    cbn. by destruct (decide (codes = [])).
Qed.

Lemma key_down_snoc make codes b :
  key_down make (codes ++ [b]) =
    if decide (b = make ∨ b = make + 0x80) then b =? make else key_down make codes.
Proof.
  unfold key_down. rewrite filter_app, filter_cons, filter_nil.
  case_decide; [by rewrite last_snoc|by rewrite app_nil_r].
Qed.

(** The bit tests of the decoder, on a byte. *)
Lemma scan_bits b :
  is_byte b → Z.land b 0x7f = b mod 128 ∧ (Z.land b 0x80 =? 0) = (b <? 128).
Proof.
  intros Hb.
  byte_fact b Hb (λ b, (Z.land b 0x7f =? b mod 128) &&
    Bool.eqb (Z.land b 0x80 =? 0) (b <? 128)) as He.
  apply andb_true_iff in He as [H1%Z.eqb_eq H2%eqb_prop]. done.
Qed.

Lemma decode_shift b :
  is_byte b →
  bool_decide (decode_key (b mod 128) = KeyLeftShift) = bool_decide (b = 0x2a ∨ b = 0x2a + 0x80) ∧
  bool_decide (decode_key (b mod 128) = KeyRightShift) = bool_decide (b = 0x36 ∨ b = 0x36 + 0x80).
Proof.
  intros Hb.
  byte_fact b Hb (λ b,
    Bool.eqb (bool_decide (decode_key (b mod 128) = KeyLeftShift))
             (bool_decide (b = 0x2a ∨ b = 0x2a + 0x80)) &&
    Bool.eqb (bool_decide (decode_key (b mod 128) = KeyRightShift))
             (bool_decide (b = 0x36 ∨ b = 0x36 + 0x80))) as He.
  apply andb_true_iff in He as [H1%eqb_prop H2%eqb_prop]. done.
Qed.

(** What the keyboard state means after a history of effective codes. *)
Record kb_means (kb : KeyboardState) (eff : list Z) (ext : bool) (evs : list KeyEvent) : Prop := {
  means_left : left_shift_active kb = key_down 0x2a eff;
  means_right : right_shift_active kb = key_down 0x36 eff;
  means_ext : extended_prefix kb = ext;
  means_queue : holds (queue kb) evs
}.

Lemma enqueue_event q evs e :
  holds (Q:=EventQueue KeyEvent) q evs →
  ∃ b q', EventQueue_push q e = Ok (b, q') ∧
    holds (Q:=EventQueue KeyEvent) q' (take EVENT_QUEUE_CAPACITY (evs ++ [e])).
Proof. intros Hq. exact (enqueue_take (Q:=EventQueue KeyEvent) q evs e Hq). Qed.

Lemma push_means kb eff evs e e' :
  left_shift_active kb = key_down 0x2a eff → right_shift_active kb = key_down 0x36 eff →
  extended_prefix kb = false → holds (queue kb) evs → e = e' →
  ∃ kb', ('(_, q) ← EventQueue_push (queue kb) e;
    Ok (mkKeyboard (left_shift_active kb) (right_shift_active kb) (extended_prefix kb) q)) = Ok kb' ∧
    kb_means kb' eff false (take EVENT_QUEUE_CAPACITY (evs ++ [e'])).
Proof.
  intros Hl Hr He Hq <-. destruct (enqueue_event _ _ e Hq) as (b & q' & Hp & Hq').
  rewrite Hp. cbn. eexists. split; [done|]. by split.
Qed.

Lemma process_byte_means kb eff ext evs b :
  is_byte b → kb_means kb eff ext evs →
  let eff' := if (b =? 0xe0) || ext then eff else eff ++ [b] in
  let new := if (b =? 0xe0) || ext then [] else from_option (λ e, [e]) [] (event_of eff') in
  ∃ kb', process_byte kb b = Ok kb' ∧
    kb_means kb' eff' (b =? 0xe0) (take EVENT_QUEUE_CAPACITY (evs ++ new)).
Proof.
  intros Hb [Hl Hr He Hq] eff' new. unfold process_byte.
  assert (take EVENT_QUEUE_CAPACITY evs = evs) as Hevs
    by (apply take_ge, (holds_bound (Q:=EventQueue KeyEvent) _ _ Hq)).
  destruct (b =? 0xe0) eqn:Hpre.
  { eexists. split; [done|]. subst new. cbn [orb]. rewrite app_nil_r, Hevs. by split. }
  cbn [orb] in *. rewrite He. destruct ext.
  { unfold decode_extended. rewrite decide_True by done. eexists. split; [done|].
    subst new. rewrite app_nil_r, Hevs. by split. }
  destruct (scan_bits b Hb) as [Hscan Hrel]. unfold decode_set1. rewrite Hscan, Hrel.
  destruct (decode_shift b Hb) as [Hls Hrs].
  subst new eff'. unfold event_of. rewrite last_snoc.
  rewrite !key_down_snoc.
  destruct (decide (decode_key (b mod 128) = KeyUnknown)) as [Hun|Hun].
  { rewrite Hun in Hls, Hrs. eexists. split; [done|]. cbn. rewrite app_nil_r, Hevs.
    symmetry in Hls, Hrs. apply bool_decide_eq_false_1 in Hls, Hrs.
    split; cbn; try done; by rewrite key_down_snoc, decide_False. }
  set (k := decode_key (b mod 128)) in *. cbn [key state from_option].
  assert (bool_decide ((if negb (b <? 128) then Released else Pressed) = Pressed) =
    (b <? 128)) as Hpr by (by destruct (b <? 128)).
  assert ((if negb (b <? 128) then Released else Pressed) =
    (if b <? 128 then Pressed else Released)) as Hst by (by destruct (b <? 128)).
  destruct (decide (k = KeyLeftShift)) as [Hk|Hkl]; [|destruct (decide (k = KeyRightShift)) as [Hk|Hkr]].
  - rewrite Hk in *. rewrite bool_decide_true in Hls by done. rewrite bool_decide_false in Hrs by done.
    symmetry in Hls, Hrs. apply bool_decide_eq_true_1 in Hls. apply bool_decide_eq_false_1 in Hrs.
    rewrite Hpr, Hst, (decide_True (P:=b = 0x2a ∨ _)), (decide_False (P:=b = 0x36 ∨ _)) by done.
    assert ((b <? 128) = (b =? 0x2a)) as -> by (by destruct Hls as [->| ->]).
    apply push_means; cbn; rewrite ?key_down_snoc; [|by rewrite decide_False|done..|].
    + by rewrite decide_True.
    + by rewrite Hr.
  - rewrite Hk in *. rewrite bool_decide_false in Hls by done. rewrite bool_decide_true in Hrs by done.
    symmetry in Hls, Hrs. apply bool_decide_eq_false_1 in Hls. apply bool_decide_eq_true_1 in Hrs.
    rewrite Hpr, Hst, (decide_False (P:=b = 0x2a ∨ _)), (decide_True (P:=b = 0x36 ∨ _)) by done.
    assert ((b <? 128) = (b =? 0x36)) as -> by (by destruct Hrs as [->| ->]).
    apply push_means; cbn; rewrite ?key_down_snoc; [by rewrite decide_False| |done..|].
    + by rewrite decide_True.
    + by rewrite Hl.
  - rewrite bool_decide_false in Hls by done. rewrite bool_decide_false in Hrs by done.
    symmetry in Hls, Hrs. apply bool_decide_eq_false_1 in Hls, Hrs.
    assert (∀ kb1 kb2 kb3 : KeyboardState, match k with
      | KeyLeftShift => kb1 | KeyRightShift => kb2 | _ => kb3 end = kb3) as Hm
      by (intros; by destruct k).
    rewrite Hm, Hst, !decide_False by done.
    apply push_means; cbn; rewrite ?key_down_snoc, ?decide_False by done; try done.
    unfold kb_shift_active. by rewrite Hl, Hr.
Qed.

Lemma KeyboardState_new_means : kb_means KeyboardState_new [] false [].
Proof. split; try done. apply (EventQueue_new_holds KeyEvent). Qed.

Lemma in_extended_snoc codes b : in_extended (codes ++ [b]) = (b =? 0xe0).
Proof. unfold in_extended. by rewrite last_snoc. Qed.

(** Any run of bytes, from a state with no history. *)
Lemma process_all_means kb0 codes :
  kb_means kb0 [] false [] → bytes_ok codes →
  ∃ kb, process_all kb0 codes = Ok kb ∧
    kb_means kb (effective false codes) (in_extended codes)
      (take EVENT_QUEUE_CAPACITY (events_of (effective false codes))).
Proof.
  intros Hkb0. induction codes as [|b codes IH] using rev_ind; intros Hc.
  { by exists kb0. }
  apply bytes_ok_app in Hc as [Hc Hb]. apply Forall_cons_1 in Hb as [Hb _].
  destruct (IH Hc) as (kb & Hp & Hm). unfold process_all in *.
  rewrite for_each_app, Hp. cbn [mbind outcome_bind for_each].
  destruct (process_byte_means _ _ _ _ b Hb Hm) as (kb' & Hp' & Hm').
  rewrite Hp'. exists kb'. split; [done|].
  rewrite effective_snoc, in_extended_snoc.
  assert ((if decide (codes = []) then false else in_extended codes) = in_extended codes) as ->
    by (case_decide; by subst).
  destruct ((b =? 0xe0) || in_extended codes) eqn:He.
  - rewrite !app_nil_r in *. by rewrite take_take, Nat.min_id in Hm'.
  - rewrite events_of_snoc.
    by rewrite take_take_app in Hm'.
Qed.

(** What one [poll] reads: the data bytes up to the first read that finds
    the buffer empty or a mouse byte. *)
Fixpoint pending (device : list (Z * Z)) : list Z :=
  match device with
  | [] => []
  | (status, byte) :: rest =>
      if Z.land status OUTPUT_BUFFER_FULL =? 0 then []
      else if negb (Z.land status AUXILIARY_DATA =? 0) then []
      else byte :: pending rest
  end.

Lemma poll_process kb device kb' :
  process_all kb (pending device) = Ok kb' → ∃ rest, poll kb device = Ok (kb', rest).
Proof.
  unfold poll. revert kb. induction device as [|[status byte] rest IH]; intros kb Hp.
  - injection Hp as <-. by exists [].
  - cbn [pending] in Hp. cbn [length]. destruct (Z.land status OUTPUT_BUFFER_FULL =? 0) eqn:Hf.
    { injection Hp as <-. exists rest. erewrite while_exit; [done|]. cbn. by rewrite Hf. }
    destruct (Z.land status AUXILIARY_DATA =? 0) eqn:Ha; cbn [negb] in Hp.
    + unfold process_all in Hp. cbn [for_each] in Hp. inv_ok. destruct (IH _ Hp) as [rest' Hr].
      exists rest'. erewrite while_step; [exact Hr|].
      cbn [read_controller_byte]. rewrite Hf, Ha. cbn [negb]. by rewrite H.
    + injection Hp as <-. exists rest. erewrite while_exit; [done|]. cbn [read_controller_byte].
      by rewrite Hf, Ha.
Qed.

(** * Properties *)

(** C38. Polling the controller from the initial state never panics, and
    refines the declarative reading of the scan codes: a shift key counts as
    held when its last code outside 0xe0 sequences is its make code, each
    event carries the shift state at its own code, and the queue holds the
    first 64 events in order.  In particular events dropped by a full queue
    never desynchronise the modifiers. *)
Theorem keyboard_refines device :
  bytes_ok (pending device) →
  let codes := effective false (pending device) in
  ∃ kb rest, poll KeyboardState_new device = Ok (kb, rest) ∧
    left_shift_active kb = key_down 0x2a codes ∧
    right_shift_active kb = key_down 0x36 codes ∧
    holds (queue kb) (take EVENT_QUEUE_CAPACITY (events_of codes)).
Proof.
  intros Hb codes. destruct (process_all_means _ _ KeyboardState_new_means Hb) as (kb & Hp & [Hl Hr _ Hq]).
  destruct (poll_process _ _ _ Hp) as [rest Hpoll]. by exists kb, rest.
Qed.

Lemma keyboard_refines_witness :
  let device := [(1, 0x2a); (1, 0x1e); (1, 0xe0); (1, 0x2a); (1, 0xaa); (1, 0x1f); (0, 0)] in
  ∃ kb rest, poll KeyboardState_new device = Ok (kb, rest) ∧ left_shift_active kb = false ∧
    holds (queue kb)
      [mkKeyEvent KeyLeftShift Pressed true; mkKeyEvent KeyA Pressed true;
       mkKeyEvent KeyLeftShift Released false; mkKeyEvent KeyS Pressed false].
Proof.
  intros device. destruct (keyboard_refines device) as (kb & rest & Hp & Hl & _ & Hq).
  { repeat constructor; cbn; lia. }
  exists kb, rest. split_and!; [exact Hp|rewrite Hl; vm_compute; reflexivity|exact Hq].
Defined.
