(* ===== verification/Terminal.v ===== *)
(** * Terminal ([terminal.rs], [io.rs], [serial.rs] and the terminal thread of [main.rs])

    The endpoint's two byte queues, the translation of key events to input
    bytes, the kernel objects behind process handles and one round of the
    terminal service loop.  The serial port is the log of the bytes sent to
    it; the framebuffer console is an argument ([C] and its writer), given a
    concrete value in [Console.v]. *)

From S2P Require Import Prelude Bytes Queues Keyboard.

Local Open Scope Z_scope.

Definition TERMINAL_INPUT_CAPACITY : nat := 256.
Definition TERMINAL_OUTPUT_CAPACITY : nat := 1024.
#[global] Arguments TERMINAL_INPUT_CAPACITY : simpl never.
#[global] Arguments TERMINAL_OUTPUT_CAPACITY : simpl never.

(** ** Serial log (serial.rs) *)

Record Serial := mkSerial {
  SERIAL_READY : bool;
  sent : list Z
}.

Definition write_raw_byte (s : Serial) (byte : Z) : Serial :=
  mkSerial (SERIAL_READY s) (sent s ++ [byte]).

Definition serial_write_byte (s : Serial) (byte : Z) : Serial :=
  if negb (SERIAL_READY s) then s
  else
    let s := if byte =? 10 then write_raw_byte s 13 else s in
    write_raw_byte s byte.

(** ** The endpoint *)

Record TerminalEndpoint := mkEndpoint {
  input : BoundedBytes TERMINAL_INPUT_CAPACITY;
  output : BoundedBytes TERMINAL_OUTPUT_CAPACITY;
  serial : Serial
}.

Definition TerminalEndpoint_new (serial : Serial) : TerminalEndpoint :=
  mkEndpoint (ByteQueue_new TERMINAL_INPUT_CAPACITY) (ByteQueue_new TERMINAL_OUTPUT_CAPACITY)
    serial.

Definition push_input_byte (t : TerminalEndpoint) (byte : Z) : outcome () (bool * TerminalEndpoint) :=
  '(ok, q) ← enqueue (input t) byte;
  Ok (ok, mkEndpoint q (output t) (serial t)).

Definition pop_input_byte (t : TerminalEndpoint) : outcome () (option Z * TerminalEndpoint) :=
  '(byte, q) ← dequeue (input t);
  Ok (byte, mkEndpoint q (output t) (serial t)).

Definition push_output_byte (t : TerminalEndpoint) (byte : Z) : outcome () (bool * TerminalEndpoint) :=
  let s := serial_write_byte (serial t) byte in
  '(ok, q) ← enqueue (output t) byte;
  Ok (ok, mkEndpoint (input t) q s).

Definition pop_output_byte (t : TerminalEndpoint) : outcome () (option Z * TerminalEndpoint) :=
  '(byte, q) ← dequeue (output t);
  Ok (byte, mkEndpoint (input t) q (serial t)).

(** ** Key events to bytes *)

Definition shifted_byte (normal shifted : Z) (shift_active : bool) : Z :=
  if shift_active then shifted else normal.

Definition key_event_to_input_byte (event : KeyEvent) : option Z :=
  if decide (state event ≠ Pressed) then None
  else
    let shifted := shift_active event in
    match key event with
    | KeyEnter => Some 10
    | KeyBackspace => Some 0x7f
    | KeyA => Some (shifted_byte 97 65 shifted)
    | KeyB => Some (shifted_byte 98 66 shifted)
    | KeyC => Some (shifted_byte 99 67 shifted)
    | KeyD => Some (shifted_byte 100 68 shifted)
    | KeyE => Some (shifted_byte 101 69 shifted)
    | KeyF => Some (shifted_byte 102 70 shifted)
    | KeyG => Some (shifted_byte 103 71 shifted)
    | KeyH => Some (shifted_byte 104 72 shifted)
    | KeyI => Some (shifted_byte 105 73 shifted)
    | KeyJ => Some (shifted_byte 106 74 shifted)
    | KeyK => Some (shifted_byte 107 75 shifted)
    | KeyL => Some (shifted_byte 108 76 shifted)
    | KeyM => Some (shifted_byte 109 77 shifted)
    | KeyN => Some (shifted_byte 110 78 shifted)
    | KeyO => Some (shifted_byte 111 79 shifted)
    | KeyP => Some (shifted_byte 112 80 shifted)
    | KeyQ => Some (shifted_byte 113 81 shifted)
    | KeyR => Some (shifted_byte 114 82 shifted)
    | KeyS => Some (shifted_byte 115 83 shifted)
    | KeyT => Some (shifted_byte 116 84 shifted)
    | KeyU => Some (shifted_byte 117 85 shifted)
    | KeyV => Some (shifted_byte 118 86 shifted)
    | KeyW => Some (shifted_byte 119 87 shifted)
    | KeyX => Some (shifted_byte 120 88 shifted)
    | KeyY => Some (shifted_byte 121 89 shifted)
    | KeyZ => Some (shifted_byte 122 90 shifted)
    | KeyDigit0 => Some (shifted_byte 48 41 shifted)
    | KeyDigit1 => Some (shifted_byte 49 33 shifted)
    | KeyDigit2 => Some (shifted_byte 50 64 shifted)
    | KeyDigit3 => Some (shifted_byte 51 35 shifted)
    | KeyDigit4 => Some (shifted_byte 52 36 shifted)
    | KeyDigit5 => Some (shifted_byte 53 37 shifted)
    | KeyDigit6 => Some (shifted_byte 54 94 shifted)
    | KeyDigit7 => Some (shifted_byte 55 38 shifted)
    | KeyDigit8 => Some (shifted_byte 56 42 shifted)
    | KeyDigit9 => Some (shifted_byte 57 40 shifted)
    | KeySpace => Some 32
    | KeyMinus => Some (shifted_byte 45 95 shifted)
    | KeyEquals => Some (shifted_byte 61 43 shifted)
    | KeyLeftBracket => Some (shifted_byte 91 123 shifted)
    | KeyRightBracket => Some (shifted_byte 93 125 shifted)
    | KeyBackslash => Some (shifted_byte 92 124 shifted)
    | KeySemicolon => Some (shifted_byte 59 58 shifted)
    | KeyApostrophe => Some (shifted_byte 39 34 shifted)
    | KeyGrave => Some (shifted_byte 96 126 shifted)
    | KeyComma => Some (shifted_byte 44 60 shifted)
    | KeyPeriod => Some (shifted_byte 46 62 shifted)
    | KeySlash => Some (shifted_byte 47 63 shifted)
    | KeyLeftShift | KeyRightShift | KeyUnknown => None
    end.

(** ** The surface *)

Definition handle_key_event (t : TerminalEndpoint) (event : KeyEvent) : outcome () TerminalEndpoint :=
  match key_event_to_input_byte event with
  | Some byte => '(_, t) ← push_input_byte t byte; Ok t
  | None => Ok t
  end.

Section console.
Context {C : Type} (write_terminal_byte : C → Z → outcome () C).

Definition flush_output (t : TerminalEndpoint) (console : C) : outcome () (TerminalEndpoint * C) :=
  while (S TERMINAL_OUTPUT_CAPACITY) (λ '(t, console),
    '(byte, t) ← pop_output_byte t;
    match byte with
    | Some byte => console ← write_terminal_byte console byte; Ok (inl (t, console))
    | None => Ok (inr (t, console))
    end) (t, console).

(** [while let Some(event) = keyboard::pop_event() { .. }] *)
Definition drain_events (kb : KeyboardState) (t : TerminalEndpoint)
    : outcome () (KeyboardState * TerminalEndpoint) :=
  while (S EVENT_QUEUE_CAPACITY) (λ '(kb, t),
    '(event, kb) ← pop_event kb;
    match event with
    | Some event => t ← handle_key_event t event; Ok (inl (kb, t))
    | None => Ok (inr (kb, t))
    end) (kb, t).

(** One round of [terminal_thread_entry]'s loop, up to its [yield_now]. *)
Definition terminal_round (kb : KeyboardState) (device : list (Z * Z)) (t : TerminalEndpoint)
    (console : C) : outcome () (KeyboardState * list (Z * Z) * TerminalEndpoint * C) :=
  '(kb, device) ← poll kb device;
  '(kb, t) ← drain_events kb t;
  '(t, console) ← flush_output t console;
  Ok (kb, device, t, console).
End console.

(** ** Kernel objects (io.rs) *)

Inductive KernelObject := TerminalEndpointObject | NullObject.

#[export] Instance KernelObject_eq_dec : EqDecision KernelObject.
Proof. solve_decision. Defined.

Definition read_byte (o : KernelObject) (t : TerminalEndpoint)
    : outcome () (option Z * TerminalEndpoint) :=
  match o with
  | TerminalEndpointObject => pop_input_byte t
  | NullObject => Ok (None, t)
  end.

Definition write_byte (o : KernelObject) (t : TerminalEndpoint) (byte : Z)
    : outcome () (bool * TerminalEndpoint) :=
  match o with
  | TerminalEndpointObject => push_output_byte t byte
  | NullObject => Ok (true, t)
  end.

(** ** Specification: typing a character

    The scan codes that a typist's key press sends for a character, found in
    the code's own tables; a shifted character is typed with left shift held. *)

Definition key_for (c : Z) : option (Z * bool) :=
  find (λ '(code, shift),
      bool_decide (key_event_to_input_byte (mkKeyEvent (decode_key code) Pressed shift) = Some c))
    (list_prod (seqZ 2 56) [false; true]).

Definition type_char (c : Z) : list Z :=
  match key_for c with
  | Some (code, true) => [0x2a; code; code + 0x80; 0x2a + 0x80]
  | Some (code, false) => [code; code + 0x80]
  | None => []
  end.

(** The characters of a US keyboard that the terminal accepts: printable
    ASCII, newline and delete. *)
Definition typable (c : Z) : bool := ((32 <=? c) && (c <=? 127)) || (c =? 10).

Definition keyboard_data (codes : list Z) : list (Z * Z) := map (λ b, (1, b)) codes.

(** Each character is typed and served by one round of the terminal thread. *)
Fixpoint type_text {C} (w : C → Z → outcome () C) (kb : KeyboardState) (t : TerminalEndpoint)
    (console : C) (text : list Z) : outcome () (KeyboardState * TerminalEndpoint * C) :=
  match text with
  | [] => Ok (kb, t, console)
  | c :: text =>
      '(kb, _, t, console) ← terminal_round w kb (keyboard_data (type_char c)) t console;
      type_text w kb t console text
  end.

(** * Lemmas *)

(** No modifier held, no prefix pending, no event queued. *)
Definition idle (kb : KeyboardState) : Prop := kb_means kb [] false [].

(** The input bytes that a run of scan codes gives. *)
Definition bytes_of (codes : list Z) : list Z :=
  omap key_event_to_input_byte (events_of codes).

Lemma typable_types c :
  typable c = true →
  bytes_ok (type_char c) ∧ effective false (type_char c) = type_char c ∧
  (length (events_of (type_char c)) ≤ EVENT_QUEUE_CAPACITY)%nat ∧
  bytes_of (type_char c) = [c] ∧
  key_down 0x2a (type_char c) = false ∧ key_down 0x36 (type_char c) = false ∧
  in_extended (type_char c) = false.
Proof.
  intros Hc.
  assert (is_byte c) as Hb.
  { unfold typable in Hc. apply orb_true_iff in Hc as [[H1%Z.leb_le H2%Z.leb_le]%andb_true_iff|H%Z.eqb_eq];
      unfold is_byte; lia. }
  byte_fact c Hb (λ c, negb (typable c) ||
    (forallb is_byteb (type_char c) &&
     bool_decide (effective false (type_char c) = type_char c) &&
     (length (events_of (type_char c)) <=? EVENT_QUEUE_CAPACITY)%nat &&
     bool_decide (bytes_of (type_char c) = [c]) &&
     negb (key_down 0x2a (type_char c)) && negb (key_down 0x36 (type_char c)) &&
     negb (in_extended (type_char c)))) as He.
  rewrite Hc in He. cbn [negb orb] in He. rewrite !andb_true_iff, !negb_true_iff in He.
  destruct He as [[[[[[H1 H2] H3] H4] H5] H6] H7].
  apply bool_decide_eq_true in H2, H4. apply Nat.leb_le in H3. split_and!; try done.
  apply Forall_forall. intros b Hin. rewrite forallb_forall in H1.
  specialize (H1 b (proj1 (list_elem_of_In _ _) Hin)). unfold is_byteb in H1.
  apply andb_true_iff in H1 as [?%Z.leb_le ?%Z.ltb_lt]. unfold is_byte. lia.
Qed.

Section console_lemmas.
Context {C : Type} (w : C → Z → outcome () C).

Lemma push_input_spec t xs b :
  holds (input t) xs →
  ∃ ok q, push_input_byte t b = Ok (ok, mkEndpoint q (output t) (serial t)) ∧
    holds q (take TERMINAL_INPUT_CAPACITY (xs ++ [b])).
Proof.
  intros Hq. destruct (enqueue_take (input t) xs b Hq) as (ok & q & He & Hq').
  exists ok, q. unfold push_input_byte. by rewrite He.
Qed.

Lemma drain_events_spec kb t evs xs :
  holds (queue kb) evs → holds (input t) xs →
  ∃ q qi, drain_events kb t =
      Ok (mkKeyboard (left_shift_active kb) (right_shift_active kb) (extended_prefix kb) q,
          mkEndpoint qi (output t) (serial t)) ∧
    holds q [] ∧ holds qi (take TERMINAL_INPUT_CAPACITY (xs ++ omap key_event_to_input_byte evs)).
Proof.
  intros Hq Hi. unfold drain_events. pose proof (holds_bound _ _ Hq) as Hb. cbn in Hb.
  apply (while_rule
    (λ '(kb', t'), ∃ q qi done rest,
      kb' = mkKeyboard (left_shift_active kb) (right_shift_active kb) (extended_prefix kb) q ∧
      t' = mkEndpoint qi (output t) (serial t) ∧ evs = done ++ rest ∧ holds q rest ∧
      holds qi (take TERMINAL_INPUT_CAPACITY (xs ++ omap key_event_to_input_byte done)))
    (λ '(kb', _), eq_len (queue kb'))
    (λ o, ∃ q qi, o =
      Ok (mkKeyboard (left_shift_active kb) (right_shift_active kb) (extended_prefix kb) q,
          mkEndpoint qi (output t) (serial t)) ∧
      holds q [] ∧
      holds qi (take TERMINAL_INPUT_CAPACITY (xs ++ omap key_event_to_input_byte evs)))).
  - intros [kb' t'] (q & qi & dn & rest & -> & -> & -> & Hq' & Hqi).
    unfold pop_event. destruct rest as [|e rest].
    + pose proof (dequeue_empty (A:=KeyEvent) q Hq') as Hd. cbn in Hd. cbn [queue]. rewrite Hd.
      cbn. exists q, qi. by rewrite app_nil_r.
    + destruct (dequeue_cons (A:=KeyEvent) q e rest Hq') as (q' & Hd & Hq'').
      cbn in Hd. cbn [queue]. rewrite Hd. cbn [mbind outcome_bind]. unfold handle_key_event.
      assert (eq_len q' < eq_len q)%nat as Hlt.
      { cbn in Hq', Hq''. rewrite (ring_len _ _ _ _ _ _ Hq'), (ring_len _ _ _ _ _ _ Hq'').
        cbn. lia. }
      destruct (key_event_to_input_byte e) as [b|] eqn:Hb'.
      * destruct (push_input_spec (mkEndpoint qi (output t) (serial t)) _ b Hqi)
          as (ok & qi' & -> & Hqi'). cbn. split; [|done].
        exists q', qi', (dn ++ [e]), rest. split_and!; try done; [by rewrite <-app_assoc|].
        rewrite omap_app. cbn. rewrite Hb'. rewrite take_take_app in Hqi'.
        by rewrite <-app_assoc in Hqi'.
      * cbn. split; [|done]. exists q', qi, (dn ++ [e]), rest.
        split_and!; try done; [by rewrite <-app_assoc|].
        rewrite omap_app. cbn. by rewrite Hb', app_nil_r.
  - exists (queue kb), (input t), [], evs. split_and!; [by destruct kb|by destruct t|done..|].
    cbn. rewrite app_nil_r, take_ge; [done|]. apply (holds_bound _ _ Hi).
  - cbn in Hq. rewrite (ring_len _ _ _ _ _ _ Hq), length_fmap. lia.
Qed.

Lemma flush_output_spec t console console' out :
  holds (output t) out → for_each w console out = Ok console' →
  ∃ q, flush_output w t console = Ok (mkEndpoint (input t) q (serial t), console') ∧ holds q [].
Proof.
  intros Ho Hw. unfold flush_output. pose proof (holds_bound _ _ Ho) as Hb. cbn in Hb.
  apply (while_rule
    (λ '(t', c'), ∃ q rest, t' = mkEndpoint (input t) q (serial t) ∧ holds q rest ∧
      for_each w c' rest = Ok console')
    (λ '(t', _), len (output t'))
    (λ o, ∃ q, o = Ok (mkEndpoint (input t) q (serial t), console') ∧ holds q [])).
  - intros [t' c'] (q & rest & -> & Hq & Hr). unfold pop_output_byte. cbn [output].
    destruct rest as [|b rest].
    + rewrite dequeue_empty by done. cbn. injection Hr as ->. by exists q.
    + destruct (dequeue_cons q b rest Hq) as (q' & -> & Hq'). cbn [mbind outcome_bind].
      cbn [for_each] in Hr. apply bind_Ok in Hr as (c'' & -> & Hr). cbn. split.
      * by exists q', rest.
      * cbn in Hq, Hq'. rewrite (ring_len _ _ _ _ _ _ Hq), (ring_len _ _ _ _ _ _ Hq'). cbn. lia.
  - exists (output t), out. by destruct t.
  - cbn in Ho. rewrite (ring_len _ _ _ _ _ _ Ho). lia.
Qed.

Lemma pending_keyboard_data codes : pending (keyboard_data codes) = codes.
Proof. induction codes; cbn; by f_equal. Qed.

Lemma idle_again kb eff evs q :
  kb_means kb eff false evs → key_down 0x2a eff = false → key_down 0x36 eff = false →
  holds q [] →
  idle (mkKeyboard (left_shift_active kb) (right_shift_active kb) (extended_prefix kb) q).
Proof. intros [Hl Hr He _] H1 H2 Hq. split; cbn; congruence || done. Qed.

Lemma typed_round c kb t console xs :
  typable c = true → idle kb → holds (input t) xs → holds (output t) [] →
  ∃ kb' rest q qi, terminal_round w kb (keyboard_data (type_char c)) t console =
      Ok (kb', rest, mkEndpoint qi q (serial t), console) ∧
    idle kb' ∧ holds q [] ∧ holds qi (take TERMINAL_INPUT_CAPACITY (xs ++ [c])).
Proof.
  intros Hc Hidle Hi Ho. destruct (typable_types c Hc) as (Hb & Heff & Hlen & Hby & Hl & Hr & Hx).
  destruct (process_all_means kb (type_char c) Hidle Hb) as (kb1 & Hp & Hm).
  rewrite <-(pending_keyboard_data (type_char c)) in Hp.
  destruct (poll_process _ _ _ Hp) as [rest Hpoll].
  rewrite Heff, Hx, take_ge in Hm by done.
  destruct (drain_events_spec kb1 t _ _ (means_queue _ _ _ _ Hm) Hi) as (q1 & qi & Hd & Hq1 & Hqi).
  fold (bytes_of (type_char c)) in Hqi. rewrite Hby in Hqi.
  destruct (flush_output_spec (mkEndpoint qi (output t) (serial t)) console console [] Ho eq_refl)
    as (q2 & Hf & Hq2).
  eexists _, rest, q2, qi. unfold terminal_round. rewrite Hpoll. cbn [mbind outcome_bind].
  rewrite Hd. cbn [mbind outcome_bind]. rewrite Hf. cbn [mbind outcome_bind input serial].
  split; [done|]. split_and!; [by eapply idle_again|done..].
Qed.

Lemma type_text_spec text kb t console xs :
  forallb typable text = true → idle kb → holds (input t) xs → holds (output t) [] →
  ∃ kb' t', type_text w kb t console text = Ok (kb', t', console) ∧ idle kb' ∧
    holds (input t') (take TERMINAL_INPUT_CAPACITY (xs ++ text)) ∧ holds (output t') [].
Proof.
  revert kb t xs. induction text as [|c text IH]; intros kb t xs Ht Hk Hi Ho.
  { exists kb, t. rewrite app_nil_r, take_ge by apply (holds_bound _ _ Hi). done. }
  cbn [forallb] in Ht. apply andb_true_iff in Ht as [Hc Ht].
  destruct (typed_round c kb t console xs Hc Hk Hi Ho)
    as (kb' & rest & q & qi & Hround & Hk' & Hq & Hqi).
  cbn [type_text]. rewrite Hround. cbn [mbind outcome_bind].
  destruct (IH kb' (mkEndpoint qi q (serial t)) _ Ht Hk' Hqi Hq) as (kb'' & t' & -> & ? & Hi' & ?).
  exists kb'', t'. split_and!; try done. by rewrite take_take_app, <-app_assoc in Hi'.
Qed.
End console_lemmas.

(** What the host sees on the serial line. *)
Definition crlf (data : list Z) : list Z := concat (map (λ b, if b =? 10 then [13; 10] else [b]) data).

Lemma serial_log s data :
  SERIAL_READY s = true → sent (foldl serial_write_byte s data) = sent s ++ crlf data.
Proof.
  revert s. induction data as [|b data IH]; intros s Hs; [cbn; by rewrite app_nil_r|].
  cbn [foldl].
  change (crlf (b :: data)) with ((if b =? 10 then [13; 10] else [b]) ++ crlf data).
  unfold serial_write_byte at 2. rewrite Hs. cbn [negb]. rewrite IH.
  - rewrite app_assoc. f_equal. destruct (Z.eqb_spec b 10) as [->|]; cbn; [by rewrite <-app_assoc|done].
  - by destruct (b =? 10).
Qed.

(** * Properties *)

(** End to end, from the keyboard controller to the process reading its
    standard input: any text of printable ASCII characters, newlines and
    deletes, typed key by key on a US keyboard and served by one round of the
    terminal thread per key, arrives in the input queue unchanged and in
    order up to the queue's 256 bytes; nothing panics, no loop runs out of
    fuel, and the modifiers are released at the end. *)
Theorem typed_text_is_read {C} (w : C → Z → outcome () C) text kb t console xs :
  forallb typable text = true → idle kb → holds (input t) xs → holds (output t) [] →
  ∃ kb' t', type_text w kb t console text = Ok (kb', t', console) ∧ idle kb' ∧
    holds (input t') (take TERMINAL_INPUT_CAPACITY (xs ++ text)).
Proof.
  intros Ht Hk Hi Ho.
  destruct (type_text_spec w text kb t console xs Ht Hk Hi Ho) as (kb' & t' & ? & ? & ? & _).
  by exists kb', t'.
Qed.

Lemma typed_text_is_read_witness :
  ∃ kb' t', type_text (C:=()) (λ _ _, Ok ()) KeyboardState_new
      (TerminalEndpoint_new (mkSerial true [])) () (ascii "Echo ~/{A}\") = Ok (kb', t', ()) ∧
    holds (input t') (ascii "Echo ~/{A}\").
Proof.
  destruct (typed_text_is_read (C:=()) (λ _ _, Ok ()) (ascii "Echo ~/{A}\") KeyboardState_new
    (TerminalEndpoint_new (mkSerial true [])) () []) as (kb' & t' & Ht & _ & Hi).
  - reflexivity.
  - apply KeyboardState_new_means.
  - apply (ByteQueue_new_holds TERMINAL_INPUT_CAPACITY). unfold TERMINAL_INPUT_CAPACITY. lia.
  - apply (ByteQueue_new_holds TERMINAL_OUTPUT_CAPACITY). unfold TERMINAL_OUTPUT_CAPACITY. lia.
  - exists kb', t'. split; [exact Ht|exact Hi].
Defined.
