(* ===== verification/Serial.v ===== *)
(** * The serial port ([kernel/kernel/src/serial.rs])

    The driver of the first serial port over the two instructions that access
    a port, and the contract of a 16550 behind it.  [Terminal.Serial], the log
    of bytes that the rest of the kernel writes to, is what the driver
    implements. *)

From S2P Require Import Prelude Bytes Queues Keyboard Terminal.

Local Open Scope Z_scope.

Definition COM1_BASE : Z := 0x3f8.
Definition DATA_REGISTER : Z := COM1_BASE.
Definition INTERRUPT_ENABLE_REGISTER : Z := COM1_BASE + 1.
Definition FIFO_CONTROL_REGISTER : Z := COM1_BASE + 2.
Definition LINE_CONTROL_REGISTER : Z := COM1_BASE + 3.
Definition MODEM_CONTROL_REGISTER : Z := COM1_BASE + 4.
Definition LINE_STATUS_REGISTER : Z := COM1_BASE + 5.
Definition SCRATCH_REGISTER : Z := COM1_BASE + 7.
Definition LINE_STATUS_TRANSMIT_HOLDING_EMPTY : Z := Z.shiftl 1 5.

Section Driver.
Context {Dev : Type} (outb : Z → Z → Dev → Dev) (inb : Z → Dev → Z * Dev).

Definition probe_port (d : Dev) : bool * Dev :=
  let d := outb SCRATCH_REGISTER 0x5a d in
  let '(v, d) := inb SCRATCH_REGISTER d in (v =? 0x5a, d).

(** The new value of the ready flag, and the device. *)
Definition init (d : Dev) : bool * Dev :=
  let '(present, d) := probe_port d in
  if negb present then (false, d)
  else
    let d := outb INTERRUPT_ENABLE_REGISTER 0x00 d in
    let d := outb LINE_CONTROL_REGISTER 0x80 d in
    let d := outb DATA_REGISTER 0x03 d in
    let d := outb INTERRUPT_ENABLE_REGISTER 0x00 d in
    let d := outb LINE_CONTROL_REGISTER 0x03 d in
    let d := outb FIFO_CONTROL_REGISTER 0xc7 d in
    let d := outb MODEM_CONTROL_REGISTER 0x0b d in
    (true, d).

Context (fuel : nat).

(** The code spins on the status without a limit. *)
Definition send_raw (d : Dev) (byte : Z) : outcome () Dev :=
  d ← while fuel (λ d,
    let '(status, d) := inb LINE_STATUS_REGISTER d in
    if Z.land status LINE_STATUS_TRANSMIT_HOLDING_EMPTY =? 0 then Ok (inl d) else Ok (inr d)) d;
  Ok (outb DATA_REGISTER byte d).

Definition send (ready : bool) (d : Dev) (byte : Z) : outcome () Dev :=
  if negb ready then Ok d
  else
    d ← (if byte =? 10 then send_raw d 13 else Ok d);
    send_raw d byte.

(** ** Specification

    What a 16550 holds.  Its first two registers are the divisor while the top
    bit of the line control is set; a byte written while the transmitter is
    not empty is lost. *)
Record Uart := mkUart {
  divisor : Z;
  interrupts : Z;
  fifo : Z;
  line : Z;
  modem : Z;
  scratch : Z;
  transmitted : list Z
}.

Definition latched (u : Uart) : bool := Z.testbit (line u) 7.

Definition uart_write (empty : bool) (port v : Z) (u : Uart) : Uart :=
  if port =? DATA_REGISTER then
    if latched u then mkUart (divisor u / 256 * 256 + v) (interrupts u) (fifo u) (line u) (modem u) (scratch u) (transmitted u)
    else mkUart (divisor u) (interrupts u) (fifo u) (line u) (modem u) (scratch u)
      (transmitted u ++ if empty then [v] else [])
  else if port =? INTERRUPT_ENABLE_REGISTER then
    if latched u then mkUart (v * 256 + divisor u mod 256) (interrupts u) (fifo u) (line u) (modem u) (scratch u) (transmitted u)
    else mkUart (divisor u) v (fifo u) (line u) (modem u) (scratch u) (transmitted u)
  else if port =? FIFO_CONTROL_REGISTER then
    mkUart (divisor u) (interrupts u) v (line u) (modem u) (scratch u) (transmitted u)
  else if port =? LINE_CONTROL_REGISTER then
    mkUart (divisor u) (interrupts u) (fifo u) v (modem u) (scratch u) (transmitted u)
  else if port =? MODEM_CONTROL_REGISTER then
    mkUart (divisor u) (interrupts u) (fifo u) (line u) v (scratch u) (transmitted u)
  else if port =? SCRATCH_REGISTER then
    mkUart (divisor u) (interrupts u) (fifo u) (line u) (modem u) v (transmitted u)
  else u.

(** A device that behaves as one: [busy] is how many more readings of the
    status show a transmitter that is not empty, at most [latency] after a
    write. *)
Record uart (view : Dev → Uart) (busy : Dev → nat) (latency : nat) : Prop := {
  ua_write : ∀ port v d, view (outb port v d) = uart_write (bool_decide (busy d = 0%nat)) port v (view d);
  ua_busy : ∀ port v d, (busy (outb port v d) ≤ latency)%nat;
  ua_scratch : ∀ d, fst (inb SCRATCH_REGISTER d) = scratch (view d);
  ua_read : ∀ port d, view (snd (inb port d)) = view d;
  ua_status : ∀ d, Z.testbit (fst (inb LINE_STATUS_REGISTER d)) 5 = bool_decide (busy d = 0%nat);
  ua_wait : ∀ d, busy (snd (inb LINE_STATUS_REGISTER d)) = pred (busy d)
}.

Definition append (u : Uart) (l : list Z) : Uart :=
  mkUart (divisor u) (interrupts u) (fifo u) (line u) (modem u) (scratch u) (transmitted u ++ l).

(** 38400 baud, eight bits, no parity, queues on.  Interrupts are off unless
    the divisor was latched before: then the first write does not reach their
    register. *)
Definition configured (u : Uart) : Uart :=
  mkUart 3 (if latched u then interrupts u else 0) 0xc7 0x03 0x0b 0x5a (transmitted u).

(** Writing a text. *)
Fixpoint send_all (ready : bool) (d : Dev) (text : list Z) : outcome () Dev :=
  match text with
  | [] => Ok d
  | byte :: text => d ← send ready d byte; send_all ready d text
  end.

(** The bytes that the log of the terminal has for a text. *)
Definition logged (ready : bool) (text : list Z) : list Z :=
  sent (foldl serial_write_byte (mkSerial ready []) text).

End Driver.

(** * Lemmas *)

Lemma serial_write_spec s byte :
  SERIAL_READY (serial_write_byte s byte) = SERIAL_READY s ∧
  sent (serial_write_byte s byte) = sent s ++ logged (SERIAL_READY s) [byte].
Proof.
  unfold logged. cbn [foldl]. unfold serial_write_byte. cbn [SERIAL_READY].
  destruct (SERIAL_READY s) eqn:Hr; cbn [negb]; [|by rewrite app_nil_r].
  destruct (byte =? 10); cbn; by rewrite <-?app_assoc.
Qed.

Lemma serial_write_all s text :
  SERIAL_READY (foldl serial_write_byte s text) = SERIAL_READY s ∧
  sent (foldl serial_write_byte s text) = sent s ++ logged (SERIAL_READY s) text.
Proof.
  revert s. induction text as [|byte text IH]; intros s; [split; [done|by rewrite app_nil_r]|].
  cbn [foldl]. destruct (serial_write_spec s byte) as [Hr Hs], (IH (serial_write_byte s byte)) as [Hr' Hs'].
  split; [congruence|]. rewrite Hs', Hs, Hr, <-app_assoc. f_equal. unfold logged at 3. cbn [foldl].
  destruct (serial_write_spec (mkSerial (SERIAL_READY s) []) byte) as [Hr2 Hs2].
  destruct (IH (serial_write_byte (mkSerial (SERIAL_READY s) []) byte)) as [_ ->]. by rewrite Hs2, Hr2.
Qed.

Lemma logged_cons ready byte text :
  logged ready (byte :: text) = logged ready [byte] ++ logged ready text.
Proof.
  unfold logged at 1. cbn [foldl]. destruct (serial_write_all (serial_write_byte (mkSerial ready []) byte) text) as [_ ->].
  by destruct (serial_write_spec (mkSerial ready []) byte) as [-> ->].
Qed.

(** Each register on its own. *)
Lemma write_divisor b v u : latched u = true → uart_write b DATA_REGISTER v u =
  mkUart (divisor u / 256 * 256 + v) (interrupts u) (fifo u) (line u) (modem u) (scratch u) (transmitted u).
Proof. intros H. unfold uart_write. by rewrite Z.eqb_refl, H. Qed.
Lemma write_divisor_high b v u : latched u = true → uart_write b INTERRUPT_ENABLE_REGISTER v u =
  mkUart (v * 256 + divisor u mod 256) (interrupts u) (fifo u) (line u) (modem u) (scratch u) (transmitted u).
Proof. intros H. unfold uart_write. by rewrite H. Qed.
Lemma write_interrupts b v u : latched u = false → uart_write b INTERRUPT_ENABLE_REGISTER v u =
  mkUart (divisor u) v (fifo u) (line u) (modem u) (scratch u) (transmitted u).
Proof. intros H. unfold uart_write. by rewrite H. Qed.
Lemma write_settings b v u :
  uart_write b FIFO_CONTROL_REGISTER v u = mkUart (divisor u) (interrupts u) v (line u) (modem u) (scratch u) (transmitted u) ∧
  uart_write b LINE_CONTROL_REGISTER v u = mkUart (divisor u) (interrupts u) (fifo u) v (modem u) (scratch u) (transmitted u) ∧
  uart_write b MODEM_CONTROL_REGISTER v u = mkUart (divisor u) (interrupts u) (fifo u) (line u) v (scratch u) (transmitted u) ∧
  uart_write b SCRATCH_REGISTER v u = mkUart (divisor u) (interrupts u) (fifo u) (line u) (modem u) v (transmitted u).
Proof. done. Qed.

Local Ltac fields := cbn [divisor interrupts fifo line modem scratch transmitted].

(** The writes of [init], whatever the transmitter does meanwhile. *)
Lemma configuring b0 b1 b2 b3 b4 b5 b6 b7 u :
  uart_write b7 MODEM_CONTROL_REGISTER 0x0b (uart_write b6 FIFO_CONTROL_REGISTER 0xc7
    (uart_write b5 LINE_CONTROL_REGISTER 0x03 (uart_write b4 INTERRUPT_ENABLE_REGISTER 0x00
      (uart_write b3 DATA_REGISTER 0x03 (uart_write b2 LINE_CONTROL_REGISTER 0x80
        (uart_write b1 INTERRUPT_ENABLE_REGISTER 0x00 (uart_write b0 SCRATCH_REGISTER 0x5a u))))))) = configured u.
Proof.
  rewrite (proj2 (proj2 (proj2 (write_settings b0 0x5a u)))). set (u0 := mkUart _ _ _ _ _ _ _).
  assert (∃ dv, uart_write b1 INTERRUPT_ENABLE_REGISTER 0 u0 =
    mkUart dv (if latched u then interrupts u else 0) (fifo u) (line u) (modem u) 0x5a (transmitted u)) as [dv ->].
  { destruct (latched u) eqn:Hl; [rewrite write_divisor_high by exact Hl|rewrite write_interrupts by exact Hl]; by eexists. }
  rewrite (proj1 (proj2 (write_settings b2 _ _))). fields.
  rewrite write_divisor by done. fields. rewrite write_divisor_high by done. fields.
  rewrite (proj1 (proj2 (write_settings b5 _ _))). fields. rewrite (proj1 (write_settings b6 _ _)). fields.
  rewrite (proj1 (proj2 (proj2 (write_settings b7 _ _)))). fields.
  unfold configured. f_equal. Z.div_mod_to_equations. lia.
Qed.

Section Device.
Context {Dev : Type} (outb : Z → Z → Dev → Dev) (inb : Z → Dev → Z * Dev).
Context (view : Dev → Uart) (busy : Dev → nat) (latency : nat) (Hu : uart outb inb view busy latency).

(** The driver is done when the divisor is no longer latched. *)
Definition idle (d : Dev) : Prop := latched (view d) = false ∧ (busy d ≤ latency)%nat.

Lemma append_app u l1 l2 : append (append u l1) l2 = append u (l1 ++ l2).
Proof. unfold append. cbn. by rewrite app_assoc. Qed.

Lemma send_raw_spec fuel d byte : idle d → (latency < fuel)%nat →
  ∃ d', send_raw outb inb fuel d byte = Ok d' ∧ idle d' ∧ view d' = append (view d) [byte].
Proof.
  intros [Hl Hb] Hf. unfold send_raw.
  match goal with |- context [while ?n ?f ?x] => assert (∃ d1, while n f x = Ok d1 ∧ view d1 = view d ∧ busy d1 = 0%nat) as (d1 & -> & Hv & H0) end.
  { apply (while_rule (λ d1, view d1 = view d ∧ (busy d1 ≤ latency)%nat) busy
      (λ o, ∃ d1, o = Ok d1 ∧ view d1 = view d ∧ busy d1 = 0%nat)); [|done|lia].
    intros d1 [Hv Hb1]. pose proof (ua_status _ _ _ _ _ Hu d1) as Hs. pose proof (ua_wait _ _ _ _ _ Hu d1) as Hw.
    pose proof (ua_read _ _ _ _ _ Hu LINE_STATUS_REGISTER d1) as Hr.
    destruct (inb LINE_STATUS_REGISTER d1) as [status d2]. cbn [fst snd] in Hs, Hw, Hr.
    assert ((Z.land status LINE_STATUS_TRANSMIT_HOLDING_EMPTY =? 0) = negb (Z.testbit status 5)) as ->.
    { unfold LINE_STATUS_TRANSMIT_HOLDING_EMPTY. change (Z.shiftl 1 5) with (2 ^ 5). clear.
      assert (Z.testbit (Z.land status (2 ^ 5)) 5 = Z.testbit status 5) as Ht
        by (rewrite Z.land_spec; by rewrite andb_true_r).
      destruct (Z.eqb_spec (Z.land status (2 ^ 5)) 0) as [He|He]; [by rewrite <-Ht, He|].
      rewrite <-Ht. symmetry. apply negb_false_iff. destruct (Z.testbit (Z.land status (2 ^ 5)) 5) eqn:Hb; [done|].
      exfalso. apply He. apply Z.bits_inj'. intros n Hn. rewrite Z.bits_0. destruct (decide (n = 5)) as [->|Hne]; [done|].
      rewrite Z.land_spec, Z.pow2_bits_false by done. by rewrite andb_false_r. }
    rewrite Hs. case_bool_decide as H0; cbn [negb].
    - exists d2. split_and!; [done|congruence|by rewrite Hw, H0].
    - split; [split; [congruence|lia]|lia]. }
  cbn [mbind outcome_bind]. eexists. split; [done|]. pose proof (ua_write _ _ _ _ _ Hu DATA_REGISTER byte d1) as Hw.
  rewrite Hv, H0 in Hw. unfold uart_write in Hw. rewrite Z.eqb_refl, Hl in Hw. cbn [bool_decide] in Hw.
  split; [|by rewrite Hw]. split; [by rewrite Hw|apply (ua_busy _ _ _ _ _ Hu)].
Qed.

Lemma send_all_spec fuel text d : idle d → (latency < fuel)%nat →
  ∃ d', send_all outb inb fuel true d text = Ok d' ∧ idle d' ∧ view d' = append (view d) (logged true text).
Proof.
  intros Hi Hf. revert d Hi. induction text as [|byte text IH]; intros d Hi.
  { exists d. split_and!; [done..|]. unfold append. cbn. rewrite app_nil_r. by destruct (view d). }
  assert (∃ d1, send outb inb fuel true d byte = Ok d1 ∧ idle d1 ∧ view d1 = append (view d) (logged true [byte])) as (d1 & H1 & Hi1 & Hv1).
  { unfold send, logged. cbn [negb foldl]. unfold serial_write_byte. cbn [SERIAL_READY negb].
    destruct (byte =? 10); cbn [mbind outcome_bind].
    - destruct (send_raw_spec fuel d 13 Hi Hf) as (d1 & -> & Hi1 & Hv1). cbn [mbind outcome_bind].
      destruct (send_raw_spec fuel d1 byte Hi1 Hf) as (d2 & -> & Hi2 & Hv2). exists d2. split_and!; [done..|].
      by rewrite Hv2, Hv1, append_app.
    - by apply send_raw_spec. }
  destruct (IH d1 Hi1) as (d2 & H2 & Hi2 & Hv2). exists d2. cbn [send_all]. rewrite H1. cbn [mbind outcome_bind].
  split_and!; [done..|]. by rewrite Hv2, Hv1, append_app, <-logged_cons.
Qed.

Lemma port_init_spec d : ∃ d', init outb inb d = (true, d') ∧ idle d' ∧
  view d' = configured (view d).
Proof.
  unfold init, probe_port. set (d1 := outb SCRATCH_REGISTER 0x5a d).
  pose proof (ua_scratch _ _ _ _ _ Hu d1) as Hs. pose proof (ua_read _ _ _ _ _ Hu SCRATCH_REGISTER d1) as Hr.
  destruct (inb SCRATCH_REGISTER d1) as [v d2]. cbn [fst snd] in Hs, Hr. unfold d1 in Hs, Hr.
  rewrite (ua_write _ _ _ _ _ Hu) in Hs, Hr. cbn in Hs. subst v. cbn [Z.eqb Pos.eqb negb].
  eexists. split; [done|]. cbn in Hr.
  match goal with |- idle ?x ∧ _ => assert (view x = configured (view d)) as Hv end.
  { rewrite !(ua_write _ _ _ _ _ Hu), Hr. apply configuring. }
  split; [|done]. split; [by rewrite Hv|apply (ua_busy _ _ _ _ _ Hu)].
Qed.

End Device.

(** * Properties *)

(** C27. The serial log is what the port transmits.  With a 16550 behind the
    ports whose transmitter is empty again after at most [latency] readings
    of its status, [init] finds it and sets the divisor to 3 (38400 baud),
    eight data bits without parity, the queues on and (unless the divisor was
    latched before) interrupts off, and transmits nothing; whatever is written then is transmitted byte for byte
    as the log of the terminal has it (a carriage return before every
    newline), nothing lost and nothing added.  When the scratch register does
    not keep its value, the port is left alone: every write returns at once
    and the device is not accessed. *)
Theorem serial_refines {Dev} outb inb (d : Dev) fuel text :
  (∀ view busy latency, uart outb inb view busy latency → (latency < fuel)%nat →
    ∃ d1 d2, init outb inb d = (true, d1) ∧ view d1 = configured (view d) ∧
      send_all outb inb fuel true d1 text = Ok d2 ∧
      view d2 = append (configured (view d)) (logged true text)) ∧
  (fst (inb SCRATCH_REGISTER (outb SCRATCH_REGISTER 0x5a d)) ≠ 0x5a →
    let d1 := snd (inb SCRATCH_REGISTER (outb SCRATCH_REGISTER 0x5a d)) in
    init outb inb d = (false, d1) ∧ send_all outb inb fuel false d1 text = Ok d1 ∧ logged false text = []).
Proof.
  split.
  - intros view busy latency Hu Hf. destruct (port_init_spec outb inb view busy latency Hu d) as (d1 & H1 & Hi1 & Hv1).
    destruct (send_all_spec outb inb view busy latency Hu fuel text d1 Hi1 Hf) as (d2 & H2 & _ & Hv2).
    exists d1, d2. split_and!; [done..|]. by rewrite Hv2, Hv1.
  - intros Hne d1. unfold init, probe_port. subst d1. destruct (inb _ _) as [v d1]. cbn [fst snd] in *.
    rewrite (proj2 (Z.eqb_neq v 0x5a) Hne). split; [done|]. split; [by induction text|].
    induction text as [|b text IH]; [done|]. by rewrite logged_cons, IH.
Qed.

(** A transmitter that is busy for three readings after each write. *)
Definition sample_outb (port v : Z) (d : Uart * nat) : Uart * nat :=
  (uart_write (bool_decide (snd d = 0%nat)) port v (fst d), 3%nat).
Definition sample_inb (port : Z) (d : Uart * nat) : Z * (Uart * nat) :=
  if port =? SCRATCH_REGISTER then (scratch (fst d), d)
  else if port =? LINE_STATUS_REGISTER then (if decide (snd d = 0%nat) then 0x60 else 0, (fst d, pred (snd d)))
  else (0, d).

Lemma sample_uart : uart sample_outb sample_inb fst snd 3.
Proof.
  split; [done|cbn; lia|done| | |done].
  - intros port d. unfold sample_inb. by repeat case_match.
  - intros [u n]. unfold sample_inb. cbn. case_decide as Hn; [by rewrite bool_decide_eq_true_2|].
    rewrite bool_decide_eq_false_2 by done. done.
Qed.

Lemma serial_refines_witness :
  ∃ d1 d2, init sample_outb sample_inb (mkUart 0 0 0 0 0 0 [], 0%nat) = (true, d1) ∧
    send_all sample_outb sample_inb 4 true d1 (ascii "ok" ++ [10]) = Ok d2 ∧ transmitted (fst d2) = ascii "ok" ++ [13; 10].
Proof.
  destruct (serial_refines sample_outb sample_inb (mkUart 0 0 0 0 0 0 [], 0%nat) 4 (ascii "ok" ++ [10])) as [H _].
  destruct (H fst snd 3%nat sample_uart ltac:(lia)) as (d1 & d2 & H1 & _ & H2 & Hv). exists d1, d2.
  split; [exact H1|]. split; [exact H2|]. rewrite Hv. reflexivity.
Defined.

(** Without an end to the waiting, a transmitter that stays busy stops the kernel. *)
Example busy_transmitter_hangs fuel :
  send (λ _ _ d, d) (λ _ d, (0, d)) fuel true () 65 = Hang.
Proof. unfold send, send_raw. cbn [negb Z.eqb Pos.eqb]. cbn [mbind outcome_bind]. induction fuel as [|fuel IH]; [done|]. exact IH. Qed.
