(* ===== verification/LashParse.v ===== *)
(** * The shell's command parser ([user/lash/src/lib.rs])

    [Token]: [TokenizedCommand::parse], proved equivalent to a list-based
    tokenizer and then to a declarative grammar of words and quoting.
    [Segment]: [scan_segments], the splitting of a line at [&&], [||] and [;]
    outside quotes.  Both loops are proved to terminate without a panic. *)

From S2P Require Import Prelude Bytes.

Definition LINE_CAPACITY : nat := 256.
Definition MAX_COMMAND_ARGS : nat := 16.
Definition MAX_CHAIN_SEGMENTS : nat := 32.
#[global] Arguments LINE_CAPACITY : simpl never.
#[global] Arguments MAX_COMMAND_ARGS : simpl never.
#[global] Arguments MAX_CHAIN_SEGMENTS : simpl never.

Inductive ParseError :=
| UnmatchedSingleQuote
| UnmatchedDoubleQuote
| TrailingBackslash
| InvalidSyntax
| ResourceUnavailable.

#[export] Instance ParseError_eq_dec : EqDecision ParseError.
Proof. solve_decision. Defined.

Inductive ParseState := Unquoted | SingleQuoted | DoubleQuoted.

Definition SQUOTE : Z := 39.
Definition DQUOTE : Z := 34.
Definition BACKSLASH : Z := 92.

Module Token.

Abbreviation res := (outcome ParseError).

Record TokenizedCommand := mkTokenized {
  storage : list Z;
  offsets : list nat;
  lengths : list nat;
  count : nat
}.

Definition start_token (p : TokenizedCommand) (storage_offset : nat) : res TokenizedCommand :=
  if decide (length (offsets p) ≤ count p) then Err ResourceUnavailable
  else
    o ← set_at (offsets p) (count p) storage_offset;
    l ← set_at (lengths p) (count p) 0;
    Ok (mkTokenized (storage p) o l (count p)).

Definition finish_token (p : TokenizedCommand) (token_len : nat) : res TokenizedCommand :=
  if decide (length (lengths p) ≤ count p) then Err ResourceUnavailable
  else
    l ← set_at (lengths p) (count p) token_len;
    Ok (mkTokenized (storage p) (offsets p) l (count p + 1)).

Definition push_token_byte (p : TokenizedCommand) (storage_index : nat) (byte : Z)
    : res TokenizedCommand :=
  if decide (length (storage p) ≤ storage_index) then Err ResourceUnavailable
  else
    s ← set_at (storage p) storage_index byte;
    Ok (mkTokenized s (offsets p) (lengths p) (count p)).

(** [if !token_active { start_token(storage_len)?; token_active = true }] *)
Definition ensure_started (p : TokenizedCommand) (token_active : bool) (storage_len : nat)
    : res TokenizedCommand :=
  if token_active then Ok p else start_token p storage_len.

(** The loop's variables: parsed, state, source_index, storage_len,
    current_len, token_active. *)
Abbreviation vars := (TokenizedCommand * ParseState * nat * nat * nat * bool)%type.

Definition parse_step (line : list Z) (v : vars) : res (vars + vars) :=
  let '(p, st, source_index, storage_len, current_len, token_active) := v in
  if decide (source_index < length line) then
    byte ← get_at line source_index;
    match st with
    | Unquoted =>
        if (byte =? SPACE)%Z then
          if token_active then
            p ← finish_token p current_len;
            Ok (inl (p, Unquoted, source_index + 1, storage_len, 0, false))
          else Ok (inl (p, Unquoted, source_index + 1, storage_len, current_len, token_active))
        else if (byte =? SQUOTE)%Z then
          p ← ensure_started p token_active storage_len;
          Ok (inl (p, SingleQuoted, source_index + 1, storage_len, current_len, true))
        else if (byte =? DQUOTE)%Z then
          p ← ensure_started p token_active storage_len;
          Ok (inl (p, DoubleQuoted, source_index + 1, storage_len, current_len, true))
        else if (byte =? BACKSLASH)%Z then
          if decide (length line ≤ source_index + 1) then Err TrailingBackslash
          else
            p ← ensure_started p token_active storage_len;
            b ← get_at line (source_index + 1);
            p ← push_token_byte p storage_len b;
            Ok (inl (p, Unquoted, source_index + 1 + 1, storage_len + 1, current_len + 1, true))
        else
          p ← ensure_started p token_active storage_len;
          p ← push_token_byte p storage_len byte;
          Ok (inl (p, Unquoted, source_index + 1, storage_len + 1, current_len + 1, true))
    | SingleQuoted =>
        if (byte =? SQUOTE)%Z then
          Ok (inl (p, Unquoted, source_index + 1, storage_len, current_len, token_active))
        else
          p ← push_token_byte p storage_len byte;
          Ok (inl (p, SingleQuoted, source_index + 1, storage_len + 1, current_len + 1, token_active))
    | DoubleQuoted =>
        if (byte =? DQUOTE)%Z then
          Ok (inl (p, Unquoted, source_index + 1, storage_len, current_len, token_active))
        else if (byte =? BACKSLASH)%Z then
          if decide (length line ≤ source_index + 1) then Err TrailingBackslash
          else
            b ← get_at line (source_index + 1);
            p ← push_token_byte p storage_len b;
            Ok (inl (p, DoubleQuoted, source_index + 1 + 1, storage_len + 1, current_len + 1,
                     token_active))
        else
          p ← push_token_byte p storage_len byte;
          Ok (inl (p, DoubleQuoted, source_index + 1, storage_len + 1, current_len + 1,
                   token_active))
    end
  else Ok (inr v).

Definition parse (line : list Z) : res TokenizedCommand :=
  let parsed := mkTokenized (replicate LINE_CAPACITY 0%Z) (replicate MAX_COMMAND_ARGS 0)
                  (replicate MAX_COMMAND_ARGS 0) 0 in
  '(p, st, _, _, current_len, token_active) ←
    while (S (length line)) (parse_step line) (parsed, Unquoted, 0, 0, 0, false);
  match st with
  | SingleQuoted => Err UnmatchedSingleQuote
  | DoubleQuoted => Err UnmatchedDoubleQuote
  | Unquoted => if (token_active : bool) then finish_token p current_len else Ok p
  end.

Definition token (p : TokenizedCommand) (index : nat) : res (option (list Z)) :=
  match offsets p !! index, lengths p !! index with
  | Some start, Some len =>
      s ← slice (storage p) start (start + len);
      Ok (from_utf8 s)
  | _, _ => Ok None
  end.

(** All the words, as the shell reads them. *)
Definition tokens (p : TokenizedCommand) : res (list (option (list Z))) :=
  for_each (λ ws i, w ← token p i; Ok (ws ++ [w])) [] (seq 0 (count p)).

(** ** A list-based tokenizer

    [dn] are the finished words, [cur] the one being read. *)

Definition total (dn : list (list Z)) (cur : option (list Z)) : nat :=
  length (concat dn) + length (default [] cur).

Definition tok_start (dn : list (list Z)) (cur : option (list Z)) : res (list Z) :=
  match cur with
  | Some w => Ok w
  | None => if decide (MAX_COMMAND_ARGS ≤ length dn) then Err ResourceUnavailable else Ok []
  end.

Definition tok_push (dn : list (list Z)) (w : list Z) (b : Z) : res (option (list Z)) :=
  if decide (LINE_CAPACITY ≤ total dn (Some w)) then Err ResourceUnavailable
  else Ok (Some (w ++ [b])).

Fixpoint tok (st : ParseState) (dn : list (list Z)) (cur : option (list Z)) (line : list Z)
    : res (list (list Z)) :=
  match line with
  | [] =>
      match st with
      | SingleQuoted => Err UnmatchedSingleQuote
      | DoubleQuoted => Err UnmatchedDoubleQuote
      | Unquoted => Ok (dn ++ from_option (λ w, [w]) [] cur)
      end
  | b :: rest =>
      match st with
      | Unquoted =>
          if (b =? SPACE)%Z then tok Unquoted (dn ++ from_option (λ w, [w]) [] cur) None rest
          else if (b =? SQUOTE)%Z then w ← tok_start dn cur; tok SingleQuoted dn (Some w) rest
          else if (b =? DQUOTE)%Z then w ← tok_start dn cur; tok DoubleQuoted dn (Some w) rest
          else if (b =? BACKSLASH)%Z then
            match rest with
            | [] => Err TrailingBackslash
            | b' :: rest => w ← tok_start dn cur; c ← tok_push dn w b'; tok Unquoted dn c rest
            end
          else w ← tok_start dn cur; c ← tok_push dn w b; tok Unquoted dn c rest
      | SingleQuoted =>
          if (b =? SQUOTE)%Z then tok Unquoted dn cur rest
          else c ← tok_push dn (default [] cur) b; tok SingleQuoted dn c rest
      | DoubleQuoted =>
          if (b =? DQUOTE)%Z then tok Unquoted dn cur rest
          else if (b =? BACKSLASH)%Z then
            match rest with
            | [] => Err TrailingBackslash
            | b' :: rest => c ← tok_push dn (default [] cur) b'; tok DoubleQuoted dn c rest
            end
          else c ← tok_push dn (default [] cur) b; tok DoubleQuoted dn c rest
      end
  end.

(** ** The grammar of commands *)

Definition plain (b : Z) : Prop :=
  b ≠ SPACE ∧ b ≠ SQUOTE ∧ b ≠ DQUOTE ∧ b ≠ BACKSLASH.

(** The inside of double quotes: its text and the bytes it stands for. *)
Inductive dquoted : list Z → list Z → Prop :=
| dq_nil : dquoted [] []
| dq_byte b t v : b ≠ DQUOTE → b ≠ BACKSLASH → dquoted t v → dquoted (b :: t) (b :: v)
| dq_escape b t v : dquoted t v → dquoted (BACKSLASH :: b :: t) (b :: v).

Inductive piece : list Z → list Z → Prop :=
| piece_plain b : plain b → piece [b] [b]
| piece_escape b : piece [BACKSLASH; b] [b]
| piece_single v : ¬ In SQUOTE v → piece (SQUOTE :: v ++ [SQUOTE]) v
| piece_double t v : dquoted t v → piece (DQUOTE :: t ++ [DQUOTE]) v.

(** A word is one piece or more. *)
Inductive word : list Z → list Z → Prop :=
| word_piece t v : piece t v → word t v
| word_more t v t' v' : piece t v → word t' v' → word (t ++ t') (v ++ v').

(** A command: words separated by spaces, with spaces around them. *)
Inductive command : list Z → list (list Z) → Prop :=
| command_nil : command [] []
| command_space t ws : command t ws → command (SPACE :: t) ws
| command_word t v : word t v → command t [v]
| command_words t v t' ws : word t v → command t' ws → command (t ++ SPACE :: t') (v :: ws).

(** The shell's own way to write any word: a backslash before every byte. *)
Definition escape (w : list Z) : list Z :=
  match w with
  | [] => [SQUOTE; SQUOTE]
  | _ => concat (map (λ b, [BACKSLASH; b]) w)
  end.

(** * Lemmas *)

(** ** The fixed arrays hold the list-based tokenizer's words *)

Record rep (p : TokenizedCommand) (dn : list (list Z)) (cur : option (list Z)) : Prop := {
  rep_storage : length (storage p) = LINE_CAPACITY;
  rep_offsets : length (offsets p) = MAX_COMMAND_ARGS;
  rep_lengths : length (lengths p) = MAX_COMMAND_ARGS;
  rep_count : count p = length dn;
  rep_fits : total dn cur ≤ LINE_CAPACITY;
  rep_bytes : take (total dn cur) (storage p) = concat dn ++ default [] cur;
  rep_words : ∀ i w, dn !! i = Some w →
    offsets p !! i = Some (length (concat (take i dn))) ∧ lengths p !! i = Some (length w);
  rep_cur : is_Some cur → length dn < MAX_COMMAND_ARGS ∧
    offsets p !! length dn = Some (length (concat dn))
}.

Lemma rep_start p dn cur :
  rep p dn cur →
  match tok_start dn cur with
  | Ok w => ∃ p', ensure_started p (bool_decide (is_Some cur)) (total dn cur) = Ok p' ∧
      rep p' dn (Some w) ∧ w = default [] cur
  | Err e => ensure_started p (bool_decide (is_Some cur)) (total dn cur) = Err e
  | _ => False
  end.
Proof.
  intros Hrep. destruct cur as [w|]; cbn [tok_start].
  { rewrite bool_decide_true by done. by exists p. }
  rewrite bool_decide_false by (intros [? ?]; done). cbn [ensure_started]. unfold start_token.
  destruct Hrep as [Hs Ho Hl Hc Hf Hb Hw _]. rewrite Ho, Hc.
  case_decide; [done|]. rewrite !set_at_Ok by lia. cbn [mbind outcome_bind].
  eexists. split; [done|]. split; [|done]. split; cbn [storage offsets lengths count];
    try done; rewrite ?length_insert; try done.
  - intros i w Hi. apply lookup_lt_Some in Hi as Hlt.
    rewrite !list_lookup_insert_ne by lia. by apply Hw.
  - intros _. rewrite list_lookup_insert_eq by lia. split; [lia|].
    unfold total. cbn. by rewrite Nat.add_0_r.
Qed.

Lemma rep_push p dn w b :
  rep p dn (Some w) →
  match tok_push dn w b with
  | Ok cur => ∃ p', push_token_byte p (total dn (Some w)) b = Ok p' ∧ rep p' dn cur ∧
      cur = Some (w ++ [b])
  | Err e => push_token_byte p (total dn (Some w)) b = Err e
  | _ => False
  end.
Proof.
  intros [Hs Ho Hl Hc Hf Hb Hw Hcur]. unfold tok_push, push_token_byte. rewrite Hs.
  case_decide; [done|]. rewrite set_at_Ok by lia. cbn [mbind outcome_bind].
  eexists. split; [done|]. split; [|done].
  assert (total dn (Some (w ++ [b])) = S (total dn (Some w))) as Ht
    by (unfold total; cbn; rewrite length_app; cbn; lia).
  split; cbn [storage offsets lengths count]; try done; rewrite ?length_insert, ?Ht; try done; [lia| |].
  - rewrite take_insert_S by lia. rewrite Hb. cbn. by rewrite <-app_assoc.
  - intros _. by apply Hcur.
Qed.

Lemma rep_finish p dn w :
  rep p dn (Some w) →
  ∃ p', finish_token p (length w) = Ok p' ∧ rep p' (dn ++ [w]) None.
Proof.
  intros [Hs Ho Hl Hc Hf Hb Hw Hcur]. unfold finish_token.
  destruct Hcur as [Hlt Hoff]; [done|].
  rewrite decide_False by lia. rewrite set_at_Ok by lia. cbn [mbind outcome_bind].
  eexists. split; [done|].
  assert (total (dn ++ [w]) None = total dn (Some w)) as Ht.
  { unfold total. rewrite concat_app, length_app. cbn. rewrite app_nil_r. lia. }
  split; cbn [storage offsets lengths count]; try done; rewrite ?length_insert, ?Ht; try done.
  - rewrite length_app. cbn. lia.
  - rewrite Hb, concat_app. cbn. by rewrite !app_nil_r.
  - intros i w' Hi. destruct (decide (i = length dn)) as [->|Hne].
    + rewrite lookup_app_r, Nat.sub_diag in Hi by lia. injection Hi as <-.
      rewrite Hc, list_lookup_insert_eq by lia. rewrite take_app_le, take_ge by lia. done.
    + apply lookup_lt_Some in Hi as Hlt'. rewrite length_app in Hlt'. cbn in Hlt'.
      rewrite lookup_app_l in Hi by lia. rewrite take_app_le by lia.
      rewrite list_lookup_insert_ne by lia. by apply Hw.
Qed.

Lemma parsed_rep :
  rep (mkTokenized (replicate LINE_CAPACITY 0%Z) (replicate MAX_COMMAND_ARGS 0)
        (replicate MAX_COMMAND_ARGS 0) 0) [] None.
Proof.
  split; cbn [storage offsets lengths count]; try done; rewrite ?length_replicate; try done.
  unfold total. cbn. lia.
Qed.

Section loop.
Context (line : list Z).

(** The loop variables stand for a state of the list-based tokenizer that is
    about to read the rest of the line. *)
Definition vars_rep (goal : res (list (list Z))) (v : vars) : Prop :=
  let '(p, st, si, sl, cl, ta) := v in
  ∃ dn cur, rep p dn cur ∧ sl = total dn cur ∧ cl = length (default [] cur) ∧
    ta = bool_decide (is_Some cur) ∧ (st = Unquoted ∨ is_Some cur) ∧
    si ≤ length line ∧ goal = tok st dn cur (drop si line).

Lemma drop_2 si b b' rest :
  drop si line = b :: b' :: rest →
  line !! (si + 1) = Some b' ∧ drop (si + 1 + 1) line = rest ∧ si + 1 + 1 ≤ length line.
Proof.
  intros Hd. assert (line !! (si + 1) = Some b') as Hb.
  { rewrite <-lookup_drop. by rewrite Hd. }
  split; [done|]. apply lookup_lt_Some in Hb. split; [|lia].
  rewrite <-Nat.add_assoc, <-drop_drop, Hd. done.
Qed.

Lemma drop_1 si b rest :
  drop si line = b :: rest →
  line !! si = Some b ∧ drop (si + 1) line = rest ∧ si + 1 ≤ length line.
Proof.
  intros Hd. assert (line !! si = Some b) as Hb.
  { rewrite <-(Nat.add_0_r si), <-lookup_drop. by rewrite Hd. }
  split; [done|]. apply lookup_lt_Some in Hb. split; [|lia].
  by rewrite <-drop_drop, Hd.
Qed.

(** The cases of a step: what the loop does with the buffers. *)
Lemma total_push dn w b : total dn (Some (w ++ [b])) = total dn (Some w) + 1.
Proof. unfold total. cbn. rewrite length_app. cbn. lia. Qed.

Definition step_ok (goal : res (list (list Z))) (si : nat) (o : res (vars + vars)) : Prop :=
  match o with
  | Ok (inl v) => vars_rep goal v ∧ (let '(_, _, si', _, _, _) := v in si < si' ≤ length line)
  | Ok (inr v) => False
  | Err e => goal = Err e
  | _ => False
  end.

Lemma step_push goal si p dn w b st si' rest :
  rep p dn (Some w) → si < si' ≤ length line → drop si' line = rest →
  goal = (c ← tok_push dn w b; tok st dn c rest) →
  step_ok goal si
    (p ← push_token_byte p (total dn (Some w)) b;
     Ok (inl (p, st, si', total dn (Some w) + 1, length w + 1, true))).
Proof.
  intros Hrep Hsi Hd Hgoal. pose proof (rep_push p dn w b Hrep) as Hp.
  destruct (tok_push dn w b) as [c|e| |]; try done.
  - destruct Hp as (p' & -> & Hrep' & ->). cbn in Hgoal |- *. split; [|done].
    exists dn, (Some (w ++ [b])). rewrite total_push, Hd.
    rewrite bool_decide_true by done.
    split_and!; try done; [cbn; by rewrite length_app|by right|lia].
  - by rewrite Hp.
Qed.

Lemma step_start goal si p dn cur (f : TokenizedCommand → res (vars + vars)) k :
  rep p dn cur →
  goal = (w ← tok_start dn cur; k w) →
  (∀ p' w, rep p' dn (Some w) → w = default [] cur → goal = k w → step_ok goal si (f p')) →
  step_ok goal si (p' ← ensure_started p (bool_decide (is_Some cur)) (total dn cur); f p').
Proof.
  intros Hrep Hgoal Hf. pose proof (rep_start p dn cur Hrep) as Hs.
  destruct (tok_start dn cur) as [w|e| |]; try done.
  - destruct Hs as (p' & -> & Hrep' & ->). cbn in Hgoal |- *. by eapply Hf.
  - by rewrite Hs.
Qed.

Lemma step_goto goal si p dn w st si' rest :
  rep p dn (Some w) → si < si' ≤ length line → drop si' line = rest →
  goal = tok st dn (Some w) rest →
  step_ok goal si (Ok (inl (p, st, si', total dn (Some w), length w, true))).
Proof.
  intros Hrep Hsi Hd Hgoal. cbn. split; [|done]. exists dn, (Some w).
  rewrite Hd, bool_decide_true by done. split_and!; try done; [by right|lia].
Qed.

Lemma drop_nil si : drop si line = [] → length line ≤ si.
Proof. intros Hd. apply (f_equal length) in Hd. rewrite length_drop in Hd. cbn in Hd. lia. Qed.

Lemma parse_step_ok goal v :
  vars_rep goal v →
  let '(p, st, si, sl, cl, ta) := v in
  if decide (si < length line) then step_ok goal si (parse_step line v)
  else parse_step line v = Ok (inr v).
Proof.
  destruct v as [[[[[p st] si] sl] cl] ta].
  intros (dn & cur & Hrep & -> & -> & -> & Hst & Hsi & Hgoal). case_decide as Hlt; cbn [parse_step].
  2: { by rewrite decide_False by done. }
  rewrite decide_True by done.
  destruct (drop si line) as [|b rest] eqn:Hd.
  { apply (f_equal length) in Hd. rewrite length_drop in Hd. cbn in Hd. lia. }
  destruct (drop_1 _ _ _ Hd) as (Hb & Hd1 & Hsi1).
  rewrite (get_at_Ok _ _ _ Hb). cbn [mbind outcome_bind].
  destruct st; cbn [tok] in Hgoal.
  - destruct (b =? SPACE)%Z.
    { destruct cur as [w|].
      - rewrite bool_decide_true by done. destruct (rep_finish _ _ _ Hrep) as (p' & Hf & Hrep').
        cbn [default from_option] in *. unfold id in *. rewrite Hf. cbn. split; [|lia].
        exists (dn ++ [w]), None. rewrite Hd1. split_and!; try done; [|by left].
        unfold total. cbn. rewrite concat_app, length_app. cbn. rewrite app_nil_r. lia.
      - rewrite bool_decide_false by (by intros [? ?]). cbn in Hgoal |- *. rewrite app_nil_r in Hgoal.
        split; [|lia]. exists dn, None. rewrite Hd1, bool_decide_false by (by intros [? ?]).
        split_and!; try done. }
    assert (∀ c, total dn c = total dn (Some (default [] c))) as Htot by done.
    destruct (b =? SQUOTE)%Z.
    { eapply (step_start goal si p dn cur); [exact Hrep|exact Hgoal|]. intros p' w Hrep' Hw Hg.
      rewrite Htot, <-Hw. by eapply step_goto; [|lia|..]. }
    destruct (b =? DQUOTE)%Z.
    { eapply (step_start goal si p dn cur); [exact Hrep|exact Hgoal|]. intros p' w Hrep' Hw Hg.
      rewrite Htot, <-Hw. by eapply step_goto; [|lia|..]. }
    destruct (b =? BACKSLASH)%Z.
    { destruct rest as [|b' rest].
      - rewrite decide_True by (apply drop_nil in Hd1; lia). done.
      - destruct (drop_2 _ _ _ _ Hd) as (Hb' & Hd2 & Hsi2). rewrite decide_False by lia.
        eapply (step_start goal si p dn cur); [exact Hrep|exact Hgoal|]. intros p' w Hrep' Hw Hg.
        rewrite (get_at_Ok _ _ _ Hb'). cbn [mbind outcome_bind].
        rewrite Htot, <-Hw. eapply step_push; [done|lia|done..]. }
    eapply (step_start goal si p dn cur); [exact Hrep|exact Hgoal|]. intros p' w Hrep' Hw Hg.
    rewrite Htot, <-Hw. by eapply step_push; [|lia|..].
  - destruct Hst as [?|[w ->]]; [done|]. rewrite bool_decide_true by done.
    cbn [default from_option] in *. unfold id in *.
    destruct (b =? SQUOTE)%Z; [by eapply step_goto; [|lia|..]|].
    by eapply step_push; [|lia|..].
  - destruct Hst as [?|[w ->]]; [done|]. rewrite bool_decide_true by done.
    cbn [default from_option] in *. unfold id in *.
    destruct (b =? DQUOTE)%Z; [by eapply step_goto; [|lia|..]|].
    destruct (b =? BACKSLASH)%Z; [|by eapply step_push; [|lia|..]].
    destruct rest as [|b' rest].
    + rewrite decide_True by (apply drop_nil in Hd1; lia). done.
    + destruct (drop_2 _ _ _ _ Hd) as (Hb' & Hd2 & Hsi2). rewrite decide_False by lia.
      rewrite (get_at_Ok _ _ _ Hb'). cbn [mbind outcome_bind].
      by eapply step_push; [|lia|..].
Qed.
End loop.

Lemma parse_spec line :
  match tok Unquoted [] None line with
  | Ok ws => ∃ p, parse line = Ok p ∧ rep p ws None
  | Err e => parse line = Err e
  | _ => False
  end.
Proof.
  unfold parse. set (goal := tok Unquoted [] None line).
  match goal with |- context [while ?f ?b ?s] =>
    assert (match while f b s with
      | Ok v => vars_rep line goal v ∧ (let '(_, _, si, _, _, _) := v in si = length line)
      | Err e => goal = Err e
      | _ => False end) as Hloop end.
  { apply (while_rule (vars_rep line goal)
      (λ '(_, _, si, _, _, _), length line - si)
      (λ o, match o with
        | Ok v => vars_rep line goal v ∧ (let '(_, _, si, _, _, _) := v in si = length line)
        | Err e => goal = Err e
        | _ => False end)).
    - intros v Hv. pose proof (parse_step_ok line goal v Hv) as Hs.
      destruct v as [[[[[p st] si] sl] cl] ta]. case_decide.
      + destruct (parse_step line _) as [[v'|v']|e| |]; try done. cbn in Hs.
        destruct v' as [[[[[p' st'] si'] sl'] cl'] ta']. destruct Hs as [? ?]. split; [done|lia].
      + rewrite Hs. split; [done|]. destruct Hv as (dn & cur & _ & _ & _ & _ & _ & ? & _). lia.
    - exists [], None. split_and!; try done; [apply parsed_rep|by left|lia].
    - lia. }
  destruct (while _ _ _) as [v|e| |]; try done; [|by rewrite Hloop].
  destruct v as [[[[[p st] si] sl] cl] ta]. destruct Hloop as [Hv ->].
  destruct Hv as (dn & cur & Hrep & -> & -> & -> & Hst & _ & Hgoal).
  rewrite drop_all in Hgoal. rewrite Hgoal. cbn [mbind outcome_bind tok].
  destruct st; try done. destruct cur as [w|]; cbn [from_option default].
  - rewrite bool_decide_true by done. destruct (rep_finish _ _ _ Hrep) as (p' & Hf & Hrep').
    unfold id. rewrite Hf. by exists p'.
  - rewrite bool_decide_false by (by intros [? ?]). exists p. by rewrite app_nil_r.
Qed.

Lemma rep_word p ws i w :
  rep p ws None → ws !! i = Some w → token p i = Ok (from_utf8 w).
Proof.
  intros [Hs _ _ _ Hf Hb Hw _] Hi. unfold token. destruct (Hw _ _ Hi) as [-> ->].
  assert (length (concat (take i ws)) + length w ≤ total ws None) as Hle.
  { unfold total. rewrite <-(take_drop_middle ws i w Hi) at 2.
    rewrite concat_app, length_app. cbn. rewrite length_app. lia. }
  rewrite slice_Ok by lia. cbn [mbind outcome_bind]. do 2 f_equal.
  unfold total in Hb. cbn in Hb. rewrite Nat.add_0_r, app_nil_r in Hb.
  unfold total in Hle. cbn in Hle.
  unfold sub. replace (_ + length w - _) with (length w) by lia.
  transitivity (take (length w) (drop (length (concat (take i ws)))
    (take (length (concat ws)) (storage p)))).
  { rewrite !take_drop_commute, take_take, Nat.min_l by lia. done. }
  rewrite Hb. rewrite <-(take_drop_middle ws i w Hi) at 2. rewrite concat_app. cbn.
  by rewrite drop_app_length, take_app_length.
Qed.

Lemma tokens_spec p ws : rep p ws None → tokens p = Ok (map from_utf8 ws).
Proof.
  intros Hrep. unfold tokens. rewrite (rep_count _ _ _ Hrep).
  assert (∀ n, n ≤ length ws →
    for_each (λ ws i, w ← token p i; Ok (ws ++ [w])) [] (seq 0 n) =
      Ok (map from_utf8 (take n ws))) as Hn.
  { induction n as [|n IH]; intros Hn; [done|].
    rewrite seq_S, for_each_app, IH by lia. cbn.
    destruct (lookup_lt_is_Some_2 ws n) as [w Hw]; [lia|].
    rewrite (rep_word _ _ _ _ Hrep Hw). cbn. by rewrite (take_S_r _ _ _ Hw), map_app. }
  rewrite Hn by lia. by rewrite take_ge.
Qed.

Lemma rep_limits p ws :
  rep p ws None → length ws ≤ MAX_COMMAND_ARGS ∧ length (concat ws) ≤ LINE_CAPACITY.
Proof.
  intros Hrep. split.
  - destruct (decide (length ws = 0)) as [->|Hne]; [lia|].
    destruct (lookup_lt_is_Some_2 ws (length ws - 1)) as [w Hw]; [lia|].
    destruct (rep_words _ _ _ Hrep _ _ Hw) as [Ho%lookup_lt_Some _].
    rewrite (rep_offsets _ _ _ Hrep) in Ho. lia.
  - pose proof (rep_fits _ _ _ Hrep). unfold total in *. cbn in *. lia.
Qed.

(** ** The tokenizer accepts the grammar *)

Lemma tok_start_ok dn cur :
  (cur = None → length dn < MAX_COMMAND_ARGS) → tok_start dn cur = Ok (default [] cur).
Proof. destruct cur; cbn; intros Hlt; [done|]. rewrite decide_False; [done|]. specialize (Hlt eq_refl). lia. Qed.

Lemma tok_push_ok dn w b :
  total dn (Some w) < LINE_CAPACITY → tok_push dn w b = Ok (Some (w ++ [b])).
Proof. intros. unfold tok_push. by rewrite decide_False by lia. Qed.

Lemma total_app dn w v : total dn (Some (w ++ v)) = total dn (Some w) + length v.
Proof. unfold total. cbn. rewrite length_app. lia. Qed.

Lemma tok_single dn w v rest :
  ¬ In SQUOTE v → total dn (Some (w ++ v)) ≤ LINE_CAPACITY →
  tok SingleQuoted dn (Some w) (v ++ SQUOTE :: rest) = tok Unquoted dn (Some (w ++ v)) rest.
Proof.
  revert w. induction v as [|b v IH]; intros w Hin Hle; cbn [app tok].
  { by rewrite Z.eqb_refl, app_nil_r. }
  cbn in Hin. destruct (Z.eqb_spec b SQUOTE) as [->|]; [naive_solver|].
  rewrite total_app in Hle. cbn in Hle.
  cbn [default from_option]. unfold id. rewrite tok_push_ok by lia. cbn [mbind outcome_bind].
  rewrite IH; [by rewrite <-app_assoc|naive_solver|]. rewrite !total_app. cbn. lia.
Qed.

Lemma tok_double dn w t v rest :
  dquoted t v → total dn (Some (w ++ v)) ≤ LINE_CAPACITY →
  tok DoubleQuoted dn (Some w) (t ++ DQUOTE :: rest) = tok Unquoted dn (Some (w ++ v)) rest.
Proof.
  intros Hq. revert w. induction Hq as [|b t v Hb1 Hb2 Hq IH|b t v Hq IH]; intros w Hle;
    cbn [app tok]; [by rewrite app_nil_r| |]; rewrite total_app in Hle; cbn in Hle;
    cbn [default from_option]; unfold id.
  - rewrite (proj2 (Z.eqb_neq b DQUOTE)), (proj2 (Z.eqb_neq b BACKSLASH)) by done.
    rewrite tok_push_ok by lia. cbn [mbind outcome_bind].
    rewrite IH; [by rewrite <-app_assoc|]. rewrite !total_app. cbn. lia.
  - cbn. rewrite tok_push_ok by lia. cbn [mbind outcome_bind].
    rewrite IH; [by rewrite <-app_assoc|]. rewrite !total_app. cbn. lia.
Qed.

Lemma tok_piece dn cur t v rest :
  piece t v → (cur = None → length dn < MAX_COMMAND_ARGS) →
  total dn (Some (default [] cur ++ v)) ≤ LINE_CAPACITY →
  tok Unquoted dn cur (t ++ rest) = tok Unquoted dn (Some (default [] cur ++ v)) rest.
Proof.
  intros Hp Hlt Hle. destruct Hp as [b (Hb1 & Hb2 & Hb3 & Hb4)|b|v Hv|t v Hq]; cbn [app].
  - cbn [tok]. rewrite !(proj2 (Z.eqb_neq b _)) by done.
    rewrite tok_start_ok by done. cbn [mbind outcome_bind].
    rewrite total_app in Hle. cbn in Hle. by rewrite tok_push_ok by lia.
  - cbn -[tok_start tok_push]. rewrite tok_start_ok by done. cbn [mbind outcome_bind].
    rewrite total_app in Hle. cbn in Hle. by rewrite tok_push_ok by lia.
  - rewrite <-app_assoc. cbn -[tok_start tok_push]. rewrite tok_start_ok by done.
    cbn [mbind outcome_bind]. by apply tok_single.
  - rewrite <-app_assoc. cbn -[tok_start tok_push]. rewrite tok_start_ok by done.
    cbn [mbind outcome_bind]. by apply tok_double.
Qed.

Lemma tok_word dn cur t v rest :
  word t v → (cur = None → length dn < MAX_COMMAND_ARGS) →
  total dn (Some (default [] cur ++ v)) ≤ LINE_CAPACITY →
  tok Unquoted dn cur (t ++ rest) = tok Unquoted dn (Some (default [] cur ++ v)) rest.
Proof.
  intros Hw. revert cur. induction Hw as [t v Hp|t v t' v' Hp Hw IH]; intros cur Hlt Hle.
  - by apply tok_piece.
  - rewrite app_assoc, total_app in Hle. rewrite <-app_assoc.
    rewrite (tok_piece _ _ t v) by (done || lia). rewrite IH; cbn; [|done|].
    + by rewrite <-app_assoc.
    + rewrite total_app. exact Hle.
Qed.

Lemma tok_command dn t ws :
  command t ws → length (dn ++ ws) ≤ MAX_COMMAND_ARGS →
  length (concat (dn ++ ws)) ≤ LINE_CAPACITY →
  tok Unquoted dn None t = Ok (dn ++ ws).
Proof.
  intros Hc. revert dn. induction Hc as [|t ws Hc IH|t v Hw|t v t' ws Hw Hc IH]; intros dn Hl Hb.
  - done.
  - cbn. rewrite app_nil_r. by apply IH.
  - rewrite concat_app, !length_app in *. cbn in Hl, Hb. rewrite app_nil_r in Hb.
    rewrite <-(app_nil_r t). rewrite (tok_word _ _ _ v) by
      (done || (intros; lia) || (unfold total; cbn; lia)). done.
  - rewrite concat_app, !length_app in *. cbn in Hl, Hb. rewrite length_app in Hb.
    rewrite (tok_word _ _ _ v) by (done || (intros; lia) || (unfold total; cbn; lia)).
    cbn. rewrite IH; rewrite <-app_assoc; [done| |]; rewrite ?concat_app, !length_app; cbn;
      rewrite ?app_nil_r; lia.
Qed.

(** ** The tokenizer accepts nothing else *)

(** What can follow inside a word: more pieces, then the end or a space. *)
Inductive tail : list Z → list Z → list (list Z) → Prop :=
| tail_end : tail [] [] []
| tail_space t ws : command t ws → tail (SPACE :: t) [] ws
| tail_piece t v t' v' ws : piece t v → tail t' v' ws → tail (t ++ t') (v ++ v') ws.

(** The same from inside a quotation, which is first finished. *)
Definition reading (st : ParseState) (line v : list Z) (ws : list (list Z)) : Prop :=
  match st with
  | Unquoted => tail line v ws
  | SingleQuoted => ∃ q line' v', line = q ++ SQUOTE :: line' ∧ v = q ++ v' ∧
      ¬ In SQUOTE q ∧ tail line' v' ws
  | DoubleQuoted => ∃ t q line' v', line = t ++ DQUOTE :: line' ∧ v = q ++ v' ∧
      dquoted t q ∧ tail line' v' ws
  end.

Lemma tail_word t0 v0 t v ws :
  piece t0 v0 → tail t v ws →
  ∃ a b, t0 ++ t = a ++ b ∧ word a (v0 ++ v) ∧
    (b = [] ∧ ws = [] ∨ ∃ b', b = SPACE :: b' ∧ command b' ws).
Proof.
  intros Hp Ht. revert t0 v0 Hp. induction Ht as [|t1 ws Hc|t1 v1 t' v' ws Hp1 Ht IH]; intros t0 v0 Hp.
  - exists t0, []. rewrite !app_nil_r. split_and!; [done|by apply word_piece|by left].
  - exists t0, (SPACE :: t1). rewrite app_nil_r.
    split_and!; [done|by apply word_piece|right; by exists t1].
  - destruct (IH _ _ Hp1) as (a & b & Hab & Hw & Hb).
    exists (t0 ++ a), b. rewrite Hab, <-app_assoc. split_and!; [done|by apply word_more|done].
Qed.

Lemma tail_command t v t' v' ws : piece t v → tail t' v' ws → command (t ++ t') ((v ++ v') :: ws).
Proof.
  intros Hp Ht. destruct (tail_word _ _ _ _ _ Hp Ht) as (a & b & -> & Hw & [[-> ->]|(b' & -> & Hb')]).
  - rewrite app_nil_r. by apply command_word.
  - by apply command_words.
Qed.

Lemma tok_start_inv dn cur w : tok_start dn cur = Ok w → w = default [] cur.
Proof. destruct cur; cbn; [congruence|]. case_decide; congruence. Qed.

Lemma tok_push_inv dn w b c : tok_push dn w b = Ok c → c = Some (w ++ [b]).
Proof. unfold tok_push. case_decide; congruence. Qed.

Lemma tail_nonspace b t v ws : tail (b :: t) v ws → b ≠ SPACE → command (b :: t) (v :: ws).
Proof.
  intros Ht Hb. remember (b :: t) as l eqn:Hl. destruct Ht as [|t' ws Hc|t0 v0 t' v' ws Hp Ht].
  - done.
  - naive_solver.
  - rewrite Hl. rewrite <-Hl. by apply tail_command.
Qed.

(** Entering a quotation or escaping a byte is a piece of the word. *)
Lemma reading_single rest v ws :
  reading SingleQuoted rest v ws → tail (SQUOTE :: rest) v ws.
Proof.
  intros (q & line' & v' & -> & -> & Hq & Ht).
  change (SQUOTE :: q ++ SQUOTE :: line') with ((SQUOTE :: q) ++ SQUOTE :: line').
  rewrite cons_middle, app_assoc. by apply tail_piece; [apply piece_single|].
Qed.

Lemma reading_double rest v ws :
  reading DoubleQuoted rest v ws → tail (DQUOTE :: rest) v ws.
Proof.
  intros (t & q & line' & v' & -> & -> & Hq & Ht).
  change (DQUOTE :: t ++ DQUOTE :: line') with ((DQUOTE :: t) ++ DQUOTE :: line').
  rewrite cons_middle, app_assoc. by apply tail_piece; [apply piece_double|].
Qed.

Lemma tok_reading n st dn w line ws :
  (∀ line dn ws, length line < length n → tok Unquoted dn None line = Ok ws →
     ∃ ws', ws = dn ++ ws' ∧ command line ws') →
  length line ≤ length (A:=Z) n →
  tok st dn (Some w) line = Ok ws →
  ∃ v ws', ws = dn ++ (w ++ v) :: ws' ∧ reading st line v ws'.
Proof.
  intros Hnone. revert st dn w ws.
  induction line as [line IH] using (induction_ltof1 _ length); unfold ltof in IH.
  intros st dn w ws Hlen Htok. destruct line as [|b rest]; cbn [tok] in Htok.
  { destruct st; try done. injection Htok as <-. exists [], []. rewrite app_nil_r.
    split; [done|constructor]. }
  cbn in Hlen.
  assert (∀ st' w' rest', length rest' ≤ length rest → tok st' dn (Some w') rest' = Ok ws →
    ∃ v ws', ws = dn ++ (w' ++ v) :: ws' ∧ reading st' rest' v ws') as IHr
    by (intros; eapply IH; cbn; try done; lia).
  clear IH. cbn [default from_option tok_start] in Htok. unfold id in Htok.
  destruct st.
  - destruct (Z.eqb_spec b SPACE) as [->|Hb1].
    { destruct (Hnone rest _ _ ltac:(lia) Htok) as (ws' & -> & Hc).
      exists [], ws'. rewrite app_nil_r, <-app_assoc. split; [done|]. by constructor. }
    destruct (Z.eqb_spec b SQUOTE) as [->|Hb2].
    { cbn in Htok. destruct (IHr _ _ rest ltac:(lia) Htok) as (v & ws' & -> & Hr).
      exists v, ws'. split; [done|]. by apply reading_single. }
    destruct (Z.eqb_spec b DQUOTE) as [->|Hb3].
    { cbn in Htok. destruct (IHr _ _ rest ltac:(lia) Htok) as (v & ws' & -> & Hr).
      exists v, ws'. split; [done|]. by apply reading_double. }
    destruct (Z.eqb_spec b BACKSLASH) as [->|Hb4].
    + destruct rest as [|b' rest]; [done|]. cbn [mbind outcome_bind] in Htok. inv_ok.
      apply tok_push_inv in H as ->. destruct (IHr _ _ rest ltac:(cbn; lia) Htok) as (v & ws' & -> & Hr).
      exists (b' :: v), ws'. rewrite <-app_assoc. split; [done|].
      apply (tail_piece [BACKSLASH; b'] [b']); [constructor|done].
    + cbn [mbind outcome_bind] in Htok. inv_ok. apply tok_push_inv in H as ->.
      destruct (IHr _ _ rest ltac:(lia) Htok) as (v & ws' & -> & Hr).
      exists (b :: v), ws'. rewrite <-app_assoc. split; [done|].
      apply (tail_piece [b] [b]); [by repeat constructor|done].
  - destruct (Z.eqb_spec b SQUOTE) as [->|Hb].
    + destruct (IHr _ _ rest ltac:(lia) Htok) as (v & ws' & -> & Hr).
      exists v, ws'. split; [done|]. exists [], rest, v. split_and!; try done. intros [].
    + inv_ok. apply tok_push_inv in H as ->.
      destruct (IHr _ _ rest ltac:(lia) Htok) as (v & ws' & -> & q & l' & v' & -> & -> & Hq & Ht).
      exists (b :: q ++ v'), ws'. rewrite <-app_assoc. split; [done|].
      exists (b :: q), l', v'. split_and!; try done. cbn. naive_solver.
  - destruct (Z.eqb_spec b DQUOTE) as [->|Hb].
    + destruct (IHr _ _ rest ltac:(lia) Htok) as (v & ws' & -> & Hr).
      exists v, ws'. split; [done|]. exists [], [], rest, v. split_and!; try done. constructor.
    + destruct (Z.eqb_spec b BACKSLASH) as [->|Hb'].
      * destruct rest as [|b' rest]; [done|]. inv_ok. apply tok_push_inv in H as ->.
        destruct (IHr _ _ rest ltac:(cbn; lia) Htok)
          as (v & ws' & -> & t & q & l' & v' & -> & -> & Hq & Ht).
        exists (b' :: q ++ v'), ws'. rewrite <-app_assoc. split; [done|].
        exists (BACKSLASH :: b' :: t), (b' :: q), l', v'. split_and!; try done. by constructor.
      * inv_ok. apply tok_push_inv in H as ->.
        destruct (IHr _ _ rest ltac:(lia) Htok)
          as (v & ws' & -> & t & q & l' & v' & -> & -> & Hq & Ht).
        exists (b :: q ++ v'), ws'. rewrite <-app_assoc. split; [done|].
        exists (b :: t), (b :: q), l', v'. split_and!; try done. by constructor.
Qed.

Lemma tok_sound line dn ws :
  tok Unquoted dn None line = Ok ws → ∃ ws', ws = dn ++ ws' ∧ command line ws'.
Proof.
  revert dn ws. induction line as [line IH] using (induction_ltof1 _ length); unfold ltof in IH.
  intros dn ws Htok. destruct line as [|b rest].
  { cbn in Htok. injection Htok as <-. exists []. split; [done|constructor]. }
  destruct (Z.eqb_spec b SPACE) as [->|Hb].
  { cbn in Htok. rewrite app_nil_r in Htok.
    destruct (IH rest ltac:(cbn; lia) _ _ Htok) as (ws' & -> & Hc).
    exists ws'. split; [done|]. by constructor. }
  assert (tok Unquoted dn (Some []) (b :: rest) = Ok ws) as Hsome.
  { cbn [tok] in Htok |- *. rewrite (proj2 (Z.eqb_neq b SPACE)) in * by done.
    cbn [tok_start] in *. case_decide; [|done].
    destruct (b =? SQUOTE)%Z; [done|]. destruct (b =? DQUOTE)%Z; [done|].
    destruct (b =? BACKSLASH)%Z; [by destruct rest|done]. }
  destruct (tok_reading (b :: rest) Unquoted dn [] (b :: rest) ws) as (v & ws' & -> & Hr); try done.
  { intros line' dn' ws'' Hlt Ht. by eapply IH. }
  exists (v :: ws'). split; [done|]. by apply tail_nonspace.
Qed.

Lemma tok_not_syntax line st dn cur : tok st dn cur line ≠ Err InvalidSyntax.
Proof.
  revert st dn cur. induction line as [line IH] using (induction_ltof1 _ length); unfold ltof in IH.
  intros st dn cur. destruct line as [|b rest]; cbn [tok]; [by destruct st|].
  assert (∀ w b' rest' st', length rest' < length (b :: rest) →
    (c ← tok_push dn w b'; tok st' dn c rest') ≠ Err InvalidSyntax) as Hpush.
  { intros w b' rest' st' Hl. unfold tok_push. case_decide; [done|]. by apply IH. }
  assert (∀ (k : list Z → res (list (list Z))), (∀ w, k w ≠ Err InvalidSyntax) →
    (w ← tok_start dn cur; k w) ≠ Err InvalidSyntax) as Hstart.
  { intros k Hk. destruct cur; cbn; [apply Hk|]. case_decide; [done|]. apply Hk. }
  destruct st; repeat match goal with |- context [if ?c then _ else _] => destruct c end;
    try (destruct rest; [done|]); try apply Hstart; intros; try apply Hpush; try apply IH; cbn; lia.
Qed.

(** ** Words of a UTF-8 line are UTF-8 *)

Lemma utf8_remove a c b :
  (0 ≤ c < 128)%Z → utf8_valid (a ++ c :: b) = true → utf8_valid (a ++ b) = true.
Proof. intros Hc Hu. destruct (utf8_cut a c b Hc Hu). by apply utf8_app. Qed.

Lemma tok_utf8 line st dn cur ws :
  utf8_valid (default [] cur ++ line) = true → Forall (λ w, utf8_valid w = true) dn →
  tok st dn cur line = Ok ws → Forall (λ w, utf8_valid w = true) ws.
Proof.
  revert st dn cur. induction line as [line IH] using (induction_ltof1 _ length); unfold ltof in IH.
  intros st dn cur Hu Hdn Htok. destruct line as [|b rest]; cbn [tok] in Htok.
  { rewrite app_nil_r in Hu. destruct st; try done. injection Htok as <-.
    apply Forall_app. split; [done|]. destruct cur; cbn; [by apply Forall_singleton|constructor]. }
  assert (∀ b' rest' st', utf8_valid (default [] cur ++ b' :: rest') = true →
    length rest' < length (b :: rest) →
    (c ← tok_push dn (default [] cur) b'; tok st' dn c rest') = Ok ws →
    Forall (λ w, utf8_valid w = true) ws) as Hpush.
  { intros b' rest' st' Hu' Hl Ht. inv_ok. apply tok_push_inv in H as ->.
    eapply IH; [done| |done|done]. cbn. by rewrite <-app_assoc. }
  assert (∀ b' rest' st', utf8_valid (default [] cur ++ b' :: rest') = true →
    length rest' < length (b :: rest) →
    (w ← tok_start dn cur; c ← tok_push dn w b'; tok st' dn c rest') = Ok ws →
    Forall (λ w, utf8_valid w = true) ws) as Hstart.
  { intros b' rest' st' Hu' Hl Ht. apply bind_Ok in Ht as (w & Hw & Ht).
    apply tok_start_inv in Hw as ->. by eapply Hpush. }
  assert (∀ c rest', (0 ≤ c < 128)%Z → utf8_valid (default [] cur ++ c :: rest') = true →
    utf8_valid (default [] cur ++ rest') = true) as Hrm by (intros; by eapply utf8_remove).
  destruct st.
  - destruct (Z.eqb_spec b SPACE) as [->|].
    { destruct (utf8_cut _ SPACE rest ltac:(done) Hu). eapply IH; [| |..|exact Htok].
      - cbn. lia.
      - done.
      - apply Forall_app. split; [done|]. destruct cur; cbn; [by apply Forall_singleton|constructor]. }
    destruct (Z.eqb_spec b SQUOTE) as [->|].
    { inv_ok. apply tok_start_inv in H as ->. eapply IH; [..|exact Htok]; [cbn; lia| |done].
      by apply (Hrm SQUOTE). }
    destruct (Z.eqb_spec b DQUOTE) as [->|].
    { inv_ok. apply tok_start_inv in H as ->. eapply IH; [..|exact Htok]; [cbn; lia| |done].
      by apply (Hrm DQUOTE). }
    destruct (Z.eqb_spec b BACKSLASH) as [->|].
    + destruct rest as [|b' rest]; [done|].
      eapply Hstart; [by apply (Hrm BACKSLASH)|cbn; lia|done].
    + eapply Hstart; [done|cbn; lia|done].
  - destruct (Z.eqb_spec b SQUOTE) as [->|].
    + eapply IH; [..|exact Htok]; [cbn; lia| |done]. by apply (Hrm SQUOTE).
    + eapply Hpush; [done|cbn; lia|done].
  - destruct (Z.eqb_spec b DQUOTE) as [->|].
    { eapply IH; [..|exact Htok]; [cbn; lia| |done]. by apply (Hrm DQUOTE). }
    destruct (Z.eqb_spec b BACKSLASH) as [->|].
    + destruct rest as [|b' rest]; [done|].
      eapply Hpush; [by apply (Hrm BACKSLASH)|cbn; lia|done].
    + eapply Hpush; [done|cbn; lia|done].
Qed.

Lemma map_from_utf8 ws :
  Forall (λ w, utf8_valid w = true) ws → map from_utf8 ws = map Some ws.
Proof. induction 1 as [|w ws Hw _ IH]; cbn; [done|]. unfold from_utf8 at 1. by rewrite Hw, IH. Qed.

Lemma map_from_utf8_inv ws ws' : map from_utf8 ws = map Some ws' → ws = ws'.
Proof.
  revert ws'. induction ws as [|w ws IH]; intros [|w' ws'] Heq; try done. cbn in Heq.
  injection Heq as Hw Heq. unfold from_utf8 in Hw. destruct (utf8_valid w); [|done].
  injection Hw as ->. f_equal. by apply IH.
Qed.

Lemma word_escape w : word (escape w) w.
Proof.
  destruct w as [|b w]; [apply word_piece, (piece_single []); intros []|].
  unfold escape. revert b. induction w as [|b' w IH]; intros b.
  - apply word_piece, (piece_escape b).
  - change (b :: b' :: w) with ([b] ++ b' :: w). rewrite map_app, concat_app.
    apply word_more; [apply (piece_escape b)|apply IH].
Qed.

Lemma command_escape ws : command (join_with SPACE (map escape ws)) ws.
Proof.
  induction ws as [|w ws IH]; [constructor|]. cbn [map join_with].
  destruct ws as [|w' ws]; [apply command_word, word_escape|].
  apply command_words; [apply word_escape|done].
Qed.

(** * Properties *)

(** C32. [TokenizedCommand::parse] accepts exactly the command grammar: on a
    UTF-8 line it yields the words [ws] if and only if the line is a sequence
    of space-separated words [ws], each a concatenation of plain bytes,
    escaped bytes, single-quoted and double-quoted runs, with at most 16
    words and 256 bytes in all.  Every word reads back as valid UTF-8. *)
Theorem parse_iff_grammar line ws :
  utf8_valid line = true →
  (∃ p, parse line = Ok p ∧ tokens p = Ok (map Some ws)) ↔
  command line ws ∧ length ws ≤ MAX_COMMAND_ARGS ∧ length (concat ws) ≤ LINE_CAPACITY.
Proof.
  intros Hu. pose proof (parse_spec line) as Hp. split.
  - intros (p & Hpar & Htok). destruct (tok Unquoted [] None line) as [ws0|e| |] eqn:Ht; try done.
    + destruct Hp as (p' & Hpar' & Hrep). assert (p' = p) as -> by congruence.
      rewrite (tokens_spec _ _ Hrep) in Htok. injection Htok as Htok.
      apply map_from_utf8_inv in Htok as <-.
      destruct (tok_sound _ _ _ Ht) as (ws' & -> & Hc). split; [done|by eapply rep_limits].
    + congruence.
  - intros (Hc & Hl & Hb). pose proof (tok_command [] line ws Hc Hl Hb) as Ht. cbn in Ht.
    rewrite Ht in Hp. destruct Hp as (p & Hpar & Hrep). exists p. split; [done|].
    rewrite (tokens_spec _ _ Hrep). f_equal. apply map_from_utf8. eapply (tok_utf8 _ _ [] None); [exact Hu|constructor|exact Ht].
Qed.

Lemma parse_iff_grammar_witness :
  command (ascii "echo  a\ 'b c'd") [ascii "echo"; ascii "a b cd"] ∧
  length [ascii "echo"; ascii "a b cd"] ≤ MAX_COMMAND_ARGS ∧
  length (concat [ascii "echo"; ascii "a b cd"]) ≤ LINE_CAPACITY.
Proof.
  apply (parse_iff_grammar (ascii "echo  a\ 'b c'd") [ascii "echo"; ascii "a b cd"]);
    [reflexivity|].
  destruct (parse (ascii "echo  a\ 'b c'd")) as [p|e| |] eqn:Hp;
    [|exfalso; vm_compute in Hp; discriminate..].
  exists p. split; [reflexivity|]. vm_compute in Hp. injection Hp as <-. vm_compute. reflexivity.
Defined.

(** Whatever the line, parsing terminates with a command or one of the
    errors about quotes, escapes and capacity; it never panics on the fixed
    arrays and never answers [InvalidSyntax]. *)
Theorem parse_total line :
  match parse line with
  | Ok p => count p ≤ MAX_COMMAND_ARGS
  | Err e => e ≠ InvalidSyntax
  | Panic | Hang => False
  end.
Proof.
  pose proof (parse_spec line) as Hp.
  destruct (tok Unquoted [] None line) as [ws|e| |] eqn:Ht; try done.
  - destruct Hp as (p & -> & Hrep). rewrite (rep_count _ _ _ Hrep). by eapply rep_limits.
  - rewrite Hp. intros ->. by eapply tok_not_syntax.
Qed.

(** Any list of at most 16 arguments of at most 256 bytes in all can be
    passed to a program: written with a backslash before every byte ([''] for
    an empty argument), the line parses back to exactly those arguments. *)
Theorem parse_escape_roundtrip ws :
  utf8_valid (join_with SPACE (map escape ws)) = true →
  length ws ≤ MAX_COMMAND_ARGS → length (concat ws) ≤ LINE_CAPACITY →
  ∃ p, parse (join_with SPACE (map escape ws)) = Ok p ∧ tokens p = Ok (map Some ws).
Proof.
  intros Hu Hl Hb. pose proof (tok_command [] _ ws (command_escape ws) Hl Hb) as Ht. cbn in Ht.
  pose proof (parse_spec (join_with SPACE (map escape ws))) as Hp. rewrite Ht in Hp.
  destruct Hp as (p & Hpar & Hrep). exists p. split; [done|].
  rewrite (tokens_spec _ _ Hrep). f_equal. apply map_from_utf8. eapply (tok_utf8 _ _ [] None); [exact Hu|constructor|exact Ht].
Qed.

Lemma parse_escape_roundtrip_witness :
  ∃ p, parse (join_with SPACE (map escape [ascii "a 'b"; []; ascii "&&"])) = Ok p ∧
    tokens p = Ok (map Some [ascii "a 'b"; []; ascii "&&"]).
Proof.
  apply (parse_escape_roundtrip [ascii "a 'b"; []; ascii "&&"]);
    [reflexivity|unfold MAX_COMMAND_ARGS; cbn; lia|unfold LINE_CAPACITY; cbn; lia].
Defined.

End Token.

Module Segment.

Abbreviation res := (outcome ParseError).

Inductive SegmentOperator := And | Or | Sequence.

#[export] Instance SegmentOperator_eq_dec : EqDecision SegmentOperator.
Proof. solve_decision. Defined.

Record SegmentScan := mkScan {
  starts : list nat;
  ends : list nat;
  operators : list SegmentOperator;
  count : nat
}.

Definition SegmentScan_new : SegmentScan :=
  mkScan (replicate MAX_CHAIN_SEGMENTS 0) (replicate MAX_CHAIN_SEGMENTS 0)
    (replicate (MAX_CHAIN_SEGMENTS - 1) Sequence) 0.

Definition segment (s : SegmentScan) (line : list Z) (index : nat) : res (option (list Z)) :=
  if decide (count s ≤ index) then Ok None
  else
    a ← get_at (starts s) index;
    b ← get_at (ends s) index;
    t ← slice line a b;
    Ok (Some t).

Definition operator_before (s : SegmentScan) (index : nat) : res (option SegmentOperator) :=
  if decide (index = 0 ∨ count s - 1 < index) then Ok None
  else op ← get_at (operators s) (index - 1); Ok (Some op).

Definition push (s : SegmentScan) (start end_ : nat) (operator : option SegmentOperator)
    : res SegmentScan :=
  if decide (length (starts s) ≤ count s) then Err ResourceUnavailable
  else
    ss ← set_at (starts s) (count s) start;
    es ← set_at (ends s) (count s) end_;
    match operator with
    | Some operator =>
        if decide (length (operators s) ≤ count s) then Err ResourceUnavailable
        else
          ops ← set_at (operators s) (count s) operator;
          Ok (mkScan ss es ops (count s + 1))
    | None => Ok (mkScan ss es (operators s) (count s + 1))
    end.

Definition trim_spaces_range (bytes : list Z) (start end_ : nat) : res (nat * nat) :=
  trimmed_start ← while (S (end_ - start)) (λ s,
    if decide (s < end_) then
      b ← get_at bytes s;
      if (b =? SPACE)%Z then Ok (inl (s + 1)) else Ok (inr s)
    else Ok (inr s)) start;
  trimmed_end ← while (S (end_ - start)) (λ e,
    if decide (trimmed_start < e) then
      b ← get_at bytes (e - 1);
      if (b =? SPACE)%Z then Ok (inl (e - 1)) else Ok (inr e)
    else Ok (inr e)) end_;
  Ok (trimmed_start, trimmed_end).
#[global] Arguments trim_spaces_range : simpl never.

Definition AMPERSAND : Z := 38.
Definition PIPE : Z := 124.
Definition SEMICOLON : Z := 59.

(** segments, segment_start, index, state *)
Abbreviation vars := (SegmentScan * nat * nat * ParseState)%type.

(** [byte == line[index] && index + 1 < line.len() && line[index + 1] == byte] *)
Definition doubled (line : list Z) (index : nat) (byte b : Z) : bool :=
  (b =? byte)%Z && bool_decide (line !! (index + 1) = Some byte).

(** The three operator arms: close the segment before the operator. *)
Definition close_segment (line : list Z) (s : SegmentScan) (segment_start index width : nat)
    (op : SegmentOperator) : res (vars + vars) :=
  '(a, b) ← trim_spaces_range line segment_start index;
  if decide (a = b) then Err InvalidSyntax
  else
    s ← push s a b (Some op);
    Ok (inl (s, index + width, index + width, Unquoted)).

Definition scan_step (line : list Z) (v : vars) : res (vars + vars) :=
  let '(s, segment_start, index, st) := v in
  if decide (index < length line) then
    byte ← get_at line index;
    match st with
    | Unquoted =>
        if (byte =? SQUOTE)%Z then Ok (inl (s, segment_start, index + 1, SingleQuoted))
        else if (byte =? DQUOTE)%Z then Ok (inl (s, segment_start, index + 1, DoubleQuoted))
        else if (byte =? BACKSLASH)%Z then
          if decide (length line ≤ index + 1) then Err TrailingBackslash
          else Ok (inl (s, segment_start, index + 2, Unquoted))
        else if doubled line index AMPERSAND byte then close_segment line s segment_start index 2 And
        else if doubled line index PIPE byte then close_segment line s segment_start index 2 Or
        else if (byte =? SEMICOLON)%Z then close_segment line s segment_start index 1 Sequence
        else Ok (inl (s, segment_start, index + 1, Unquoted))
    | SingleQuoted =>
        if (byte =? SQUOTE)%Z then Ok (inl (s, segment_start, index + 1, Unquoted))
        else Ok (inl (s, segment_start, index + 1, SingleQuoted))
    | DoubleQuoted =>
        if (byte =? DQUOTE)%Z then Ok (inl (s, segment_start, index + 1, Unquoted))
        else if (byte =? BACKSLASH)%Z then
          if decide (length line ≤ index + 1) then Err TrailingBackslash
          else Ok (inl (s, segment_start, index + 2, DoubleQuoted))
        else Ok (inl (s, segment_start, index + 1, DoubleQuoted))
    end
  else Ok (inr v).

Definition scan_segments (line : list Z) : res SegmentScan :=
  '(s, segment_start, _, st) ←
    while (S (length line)) (scan_step line) (SegmentScan_new, 0, 0, Unquoted);
  match st with
  | SingleQuoted => Err UnmatchedSingleQuote
  | DoubleQuoted => Err UnmatchedDoubleQuote
  | Unquoted =>
      '(a, b) ← trim_spaces_range line segment_start (length line);
      if decide (a = b) then
        if decide (count s = 0) then Ok s else Err InvalidSyntax
      else push s a b None
  end.

(** What the shell reads from a scan: each segment with the operator that
    follows it. *)
Definition chain (s : SegmentScan) (line : list Z)
    : res (list (option (list Z) * option SegmentOperator)) :=
  for_each (λ l i,
    t ← segment s line i;
    op ← operator_before s (i + 1);
    Ok (l ++ [(t, op)])) [] (seq 0 (count s)).

(** ** A list-based splitter

    [n] segments are closed, [raw] is the text of the current one. *)

Fixpoint drop_spaces (l : list Z) : list Z :=
  match l with
  | b :: l' => if (b =? SPACE)%Z then drop_spaces l' else l
  | [] => []
  end.

Definition trim (l : list Z) : list Z := rev (drop_spaces (rev (drop_spaces l))).

Abbreviation segs := (list (list Z * option SegmentOperator)).

Definition split_op (n : nat) (raw : list Z) (op : SegmentOperator) (rest : res segs) : res segs :=
  if decide (trim raw = []) then Err InvalidSyntax
  else if decide (MAX_CHAIN_SEGMENTS - 1 ≤ n) then Err ResourceUnavailable
  else r ← rest; Ok ((trim raw, Some op) :: r).

Fixpoint split (n : nat) (st : ParseState) (raw line : list Z) : res segs :=
  match line with
  | [] =>
      match st with
      | SingleQuoted => Err UnmatchedSingleQuote
      | DoubleQuoted => Err UnmatchedDoubleQuote
      | Unquoted =>
          if decide (trim raw = []) then
            if decide (n = 0) then Ok [] else Err InvalidSyntax
          else Ok [(trim raw, None)]
      end
  | b :: rest =>
      match st with
      | Unquoted =>
          if (b =? SQUOTE)%Z then split n SingleQuoted (raw ++ [b]) rest
          else if (b =? DQUOTE)%Z then split n DoubleQuoted (raw ++ [b]) rest
          else if (b =? BACKSLASH)%Z then
            match rest with
            | [] => Err TrailingBackslash
            | b' :: rest => split n Unquoted (raw ++ [b; b']) rest
            end
          else if (b =? SEMICOLON)%Z then split_op n raw Sequence (split (n + 1) Unquoted [] rest)
          else
            match rest with
            | b' :: rest' =>
                if (b =? AMPERSAND)%Z && (b' =? AMPERSAND)%Z then
                  split_op n raw And (split (n + 1) Unquoted [] rest')
                else if (b =? PIPE)%Z && (b' =? PIPE)%Z then
                  split_op n raw Or (split (n + 1) Unquoted [] rest')
                else split n Unquoted (raw ++ [b]) rest
            | [] => split n Unquoted (raw ++ [b]) rest
            end
      | SingleQuoted =>
          if (b =? SQUOTE)%Z then split n Unquoted (raw ++ [b]) rest
          else split n SingleQuoted (raw ++ [b]) rest
      | DoubleQuoted =>
          if (b =? DQUOTE)%Z then split n Unquoted (raw ++ [b]) rest
          else if (b =? BACKSLASH)%Z then
            match rest with
            | [] => Err TrailingBackslash
            | b' :: rest => split n DoubleQuoted (raw ++ [b; b']) rest
            end
          else split n DoubleQuoted (raw ++ [b]) rest
      end
  end.

(** The quoting state after a text; [None] after a dangling backslash. *)
Fixpoint quoting (st : ParseState) (l : list Z) : option ParseState :=
  match l with
  | [] => Some st
  | b :: rest =>
      match st with
      | Unquoted =>
          if (b =? SQUOTE)%Z then quoting SingleQuoted rest
          else if (b =? DQUOTE)%Z then quoting DoubleQuoted rest
          else if (b =? BACKSLASH)%Z then
            match rest with [] => None | _ :: rest => quoting Unquoted rest end
          else quoting Unquoted rest
      | SingleQuoted => quoting (if (b =? SQUOTE)%Z then Unquoted else SingleQuoted) rest
      | DoubleQuoted =>
          if (b =? DQUOTE)%Z then quoting Unquoted rest
          else if (b =? BACKSLASH)%Z then
            match rest with [] => None | _ :: rest => quoting DoubleQuoted rest end
          else quoting DoubleQuoted rest
      end
  end.

(** The text between operators: the line is the raw segments joined by the
    operators' texts. *)
Definition operator_text (op : option SegmentOperator) : list Z :=
  match op with
  | Some And => [AMPERSAND; AMPERSAND]
  | Some Or => [PIPE; PIPE]
  | Some Sequence => [SEMICOLON]
  | None => []
  end.

Definition joined (raws : segs) : list Z := concat (map (λ '(t, op), t ++ operator_text op) raws).

(** * Lemmas *)

(** ** Trimming *)

Definition spaces (l : list Z) : Prop := Forall (λ b, b = SPACE) l.

Lemma drop_spaces_app sp l : spaces sp → drop_spaces (sp ++ l) = drop_spaces l.
Proof. induction 1 as [|b sp -> _ IH]; cbn; [done|apply IH]. Qed.

Lemma drop_spaces_id l : (∀ b, head l = Some b → b ≠ SPACE) → drop_spaces l = l.
Proof.
  destruct l as [|b l]; cbn; [done|]. intros Hb. by rewrite (proj2 (Z.eqb_neq b SPACE)) by (by apply Hb).
Qed.

Lemma drop_spaces_split l : ∃ sp, l = sp ++ drop_spaces l ∧ spaces sp.
Proof.
  induction l as [|b l (sp & Hl & Hsp)]; cbn; [by exists []; split; [|constructor]|].
  destruct (Z.eqb_spec b SPACE) as [->|].
  - exists (SPACE :: sp). cbn. rewrite <-Hl. split; [done|by constructor].
  - exists []. split; [done|constructor].
Qed.

Lemma drop_spaces_head l b : head (drop_spaces l) = Some b → b ≠ SPACE.
Proof.
  induction l as [|c l IH]; cbn; [done|]. destruct (Z.eqb_spec c SPACE) as [->|Hc]; [done|].
  cbn. congruence.
Qed.

Lemma spaces_rev l : spaces l → spaces (rev l).
Proof. apply Forall_rev. Qed.

Lemma trim_unique sp t sp' :
  spaces sp → spaces sp' → (∀ b, head t = Some b → b ≠ SPACE) →
  (∀ b, last t = Some b → b ≠ SPACE) → trim (sp ++ t ++ sp') = t.
Proof.
  intros Hsp Hsp' Hh Hl. unfold trim. rewrite drop_spaces_app by done.
  destruct t as [|b t].
  - cbn [app]. rewrite <-(app_nil_r sp'), drop_spaces_app by done. done.
  - rewrite (drop_spaces_id ((b :: t) ++ sp')) by (cbn; intros ? [= <-]; by apply Hh).
    rewrite rev_app_distr, drop_spaces_app by (by apply spaces_rev).
    rewrite drop_spaces_id; [by rewrite rev_involutive|].
    intros c Hc. apply Hl. rewrite <-Hc.
    destruct (b :: t) as [|x l _] using rev_ind; [done|]. by rewrite last_snoc, rev_app_distr.
Qed.

Lemma trim_split l : ∃ sp sp', l = sp ++ trim l ++ sp' ∧ spaces sp ∧ spaces sp'.
Proof.
  destruct (drop_spaces_split l) as (sp & Hl & Hsp).
  destruct (drop_spaces_split (rev (drop_spaces l))) as (sp' & Hl' & Hsp').
  exists sp, (rev sp'). split_and!; [|done|by apply spaces_rev].
  rewrite Hl at 1. f_equal. unfold trim. rewrite <-rev_app_distr, <-Hl'. by rewrite rev_involutive.
Qed.

Lemma spaces_sub l a b :
  (∀ i, a ≤ i < b → l !! i = Some SPACE) → spaces (sub l a b).
Proof.
  intros Hl. apply Forall_lookup. intros i x Hi. apply lookup_sub_inv in Hi as [? Hi].
  rewrite Hl in Hi by lia. congruence.
Qed.

Lemma trim_spaces_range_spec bytes start end_ :
  start ≤ end_ ≤ length bytes →
  ∃ a b, trim_spaces_range bytes start end_ = Ok (a, b) ∧ start ≤ a ∧ a ≤ b ∧ b ≤ end_ ∧
    sub bytes a b = trim (sub bytes start end_).
Proof.
  intros Hle. unfold trim_spaces_range.
  match goal with |- context [while ?f ?b start] =>
    assert (∃ a, while f b start = Ok a ∧ start ≤ a ≤ end_ ∧
      (∀ i, start ≤ i < a → bytes !! i = Some SPACE) ∧
      (a < end_ → bytes !! a ≠ Some SPACE)) as (a & -> & Ha & Hsp & Hstop) end.
  { apply (while_rule (λ s, start ≤ s ≤ end_ ∧ ∀ i, start ≤ i < s → bytes !! i = Some SPACE)
      (λ s, end_ - s)); [|split; [lia|intros; lia]|lia].
    intros s [Hs Hsp]. case_decide; [|exists s; split_and!; done || lia].
    destruct (lookup_lt_is_Some_2 bytes s) as [b Hb]; [lia|].
    rewrite (get_at_Ok _ _ _ Hb). cbn. destruct (Z.eqb_spec b SPACE) as [->|].
    - split; [|lia]. split; [lia|]. intros i Hi. destruct (decide (i = s)) as [->|]; [done|].
      apply Hsp. lia.
    - exists s. split_and!; try done; try lia. congruence. }
  cbn [mbind outcome_bind].
  match goal with |- context [while ?f ?b end_] =>
    assert (∃ e, while f b end_ = Ok e ∧ a ≤ e ≤ end_ ∧
      (∀ i, e ≤ i < end_ → bytes !! i = Some SPACE) ∧
      (a < e → bytes !! (e - 1) ≠ Some SPACE)) as (e & -> & He & Hsp' & Hstop') end.
  { apply (while_rule (λ e, a ≤ e ≤ end_ ∧ ∀ i, e ≤ i < end_ → bytes !! i = Some SPACE)
      (λ e, e - start)); [|split; [lia|intros; lia]|lia].
    intros e [He Hsp']. case_decide; [|exists e; split_and!; done || lia].
    destruct (lookup_lt_is_Some_2 bytes (e - 1)) as [b Hb]; [lia|].
    rewrite (get_at_Ok _ _ _ Hb). cbn. destruct (Z.eqb_spec b SPACE) as [->|].
    - split; [|lia]. split; [lia|]. intros i Hi.
      destruct (decide (i = e - 1)) as [->|]; [done|]. apply Hsp'. lia.
    - exists e. split_and!; try done; try lia. congruence. }
  cbn [mbind outcome_bind]. exists a, e. split_and!; try lia; [done|].
  rewrite (sub_split bytes start a end_), (sub_split bytes a e end_) by lia. symmetry.
  apply trim_unique; [by apply spaces_sub|by apply spaces_sub| |].
  - intros b Hb. rewrite head_lookup in Hb. apply lookup_sub_inv in Hb as [Hlt Hb].
    rewrite Nat.add_0_r in Hb. intros ->. apply Hstop; [lia|done].
  - intros b Hb. rewrite last_lookup in Hb. apply lookup_sub_inv in Hb as [Hlt Hb].
    rewrite length_sub in Hlt, Hb by lia. intros ->. apply Hstop'; [lia|]. rewrite <-Hb. f_equal. lia.
Qed.

(** ** The arrays hold the splitter's segments *)

Record scan_rep (line : list Z) (s : SegmentScan) (dn : segs) : Prop := {
  scan_starts : length (starts s) = MAX_CHAIN_SEGMENTS;
  scan_ends : length (ends s) = MAX_CHAIN_SEGMENTS;
  scan_ops : length (operators s) = MAX_CHAIN_SEGMENTS - 1;
  scan_count : count s = length dn;
  scan_items : ∀ i t op, dn !! i = Some (t, op) → ∃ a b,
    starts s !! i = Some a ∧ ends s !! i = Some b ∧ a ≤ b ≤ length line ∧ t = sub line a b ∧
    (∀ o, op = Some o → operators s !! i = Some o)
}.

Lemma push_spec line s dn a b op :
  scan_rep line s dn → a ≤ b ≤ length line →
  (op = None → length dn < MAX_CHAIN_SEGMENTS) →
  if decide (is_Some op ∧ MAX_CHAIN_SEGMENTS - 1 ≤ length dn)
  then push s a b op = Err ResourceUnavailable
  else ∃ s', push s a b op = Ok s' ∧ scan_rep line s' (dn ++ [(sub line a b, op)]).
Proof.
  intros [Hs He Ho Hc Hi] Hab Hnone. unfold push. rewrite Hs, Hc.
  destruct (decide (MAX_CHAIN_SEGMENTS ≤ length dn)) as [Hfull|Hroom].
  { destruct op; [|specialize (Hnone eq_refl); lia]. rewrite decide_True by (split; [done|lia]). done. }
  rewrite !set_at_Ok by lia. cbn [mbind outcome_bind].
  assert (∀ ops', length ops' = MAX_CHAIN_SEGMENTS - 1 →
    (∀ i, i < length dn → ops' !! i = operators s !! i) →
    (∀ o, op = Some o → ops' !! length dn = Some o) →
    scan_rep line (mkScan (<[length dn := a]> (starts s)) (<[length dn := b]> (ends s)) ops'
      (length dn + 1)) (dn ++ [(sub line a b, op)])) as Hrep.
  { intros ops' Hl' Hsame Hnew. split; cbn; rewrite ?length_insert; try done.
    { rewrite length_app. cbn. lia. }
    intros i t o Hit. destruct (decide (i = length dn)) as [->|Hne].
    - rewrite lookup_app_r, Nat.sub_diag in Hit by lia. injection Hit as <- <-.
      exists a, b. rewrite !list_lookup_insert_eq by lia. done.
    - apply lookup_lt_Some in Hit as Hlt. rewrite length_app in Hlt. cbn in Hlt.
      rewrite lookup_app_l in Hit by lia. rewrite !list_lookup_insert_ne, Hsame by lia.
      by apply Hi. }
  destruct op as [o|].
  - rewrite Ho. case_decide as Hcap.
    + by rewrite decide_True by (destruct Hcap; lia).
    + assert (length dn < MAX_CHAIN_SEGMENTS - 1) by (destruct (decide (MAX_CHAIN_SEGMENTS - 1 ≤ length dn)); [destruct Hcap; done|lia]).
      rewrite decide_False by lia. rewrite set_at_Ok by lia. cbn [mbind outcome_bind].
      eexists. split; [done|]. apply Hrep; [by rewrite length_insert| |].
      * intros i Hlt. by rewrite list_lookup_insert_ne by lia.
      * intros o' [= <-]. by rewrite list_lookup_insert_eq by lia.
  - rewrite decide_False by (intros [[? ?] _]; done). eexists. split; [done|].
    by apply Hrep.
Qed.

Section loop.
Context (line : list Z).

Definition vars_rep (goal : res segs) (v : vars) : Prop :=
  let '(s, ss, idx, st) := v in
  ∃ dn, scan_rep line s dn ∧ ss ≤ idx ≤ length line ∧ length dn ≤ MAX_CHAIN_SEGMENTS - 1 ∧
    goal = (r ← split (length dn) st (sub line ss idx) (drop idx line); Ok (dn ++ r)).

Definition step_ok (goal : res segs) (idx : nat) (o : res (vars + vars)) : Prop :=
  match o with
  | Ok (inl v) => vars_rep goal v ∧ (let '(_, _, idx', _) := v in idx < idx' ≤ length line)
  | Ok (inr v) => False
  | Err e => goal = Err e
  | _ => False
  end.

Lemma trim_empty a b raw : a ≤ b ≤ length line → sub line a b = trim raw → (a = b ↔ trim raw = []).
Proof.
  intros Hab <-. split; [intros ->; apply sub_nil|]. intros Hs%(f_equal length).
  rewrite length_sub in Hs by lia. cbn in Hs. lia.
Qed.

Lemma close_ok goal s ss idx width op dn rest :
  scan_rep line s dn → ss ≤ idx → idx < idx + width ≤ length line →
  length dn ≤ MAX_CHAIN_SEGMENTS - 1 → drop (idx + width) line = rest →
  goal = (r ← split_op (length dn) (sub line ss idx) op (split (length dn + 1) Unquoted [] rest);
          Ok (dn ++ r)) →
  step_ok goal idx (close_segment line s ss idx width op).
Proof.
  intros Hrep Hss Hw Hl Hd Hgoal. unfold close_segment, split_op in *.
  destruct (trim_spaces_range_spec line ss idx ltac:(lia)) as (a & b & -> & Ha & Hab & Hb & Hsub).
  cbn [mbind outcome_bind].
  pose proof (trim_empty a b _ ltac:(lia) Hsub) as Hempty.
  destruct (decide (a = b)) as [Heq|Hne].
  { rewrite decide_True in Hgoal by (by apply Hempty). by subst. }
  rewrite decide_False in Hgoal by (by rewrite <-Hempty).
  pose proof (push_spec line s dn a b (Some op) Hrep ltac:(lia) ltac:(done)) as Hp.
  destruct (decide (MAX_CHAIN_SEGMENTS - 1 ≤ length dn)) as [Hfull|Hroom].
  { rewrite decide_True in Hp by (split; [done|lia]). rewrite Hp. by subst. }
  rewrite decide_False in Hp by (intros [_ ?]; lia).
  destruct Hp as (s' & -> & Hrep'). cbn. split; [|lia].
  exists (dn ++ [(sub line a b, Some op)]). rewrite length_app, sub_nil, Hd. cbn.
  split_and!; [done|lia..|]. rewrite Hgoal, <-Hsub, bind_assoc.
  destruct (split _ _ _ _); cbn; try done. by rewrite <-app_assoc.
Qed.

Lemma goto_ok goal s ss idx idx' st dn :
  scan_rep line s dn → ss ≤ idx → idx < idx' ≤ length line →
  length dn ≤ MAX_CHAIN_SEGMENTS - 1 →
  goal = (r ← split (length dn) st (sub line ss idx') (drop idx' line); Ok (dn ++ r)) →
  step_ok goal idx (Ok (inl (s, ss, idx', st))).
Proof. intros. split; [|done]. exists dn. split_and!; try done; lia. Qed.

Lemma doubled_eq idx byte b rest :
  drop idx line = b :: rest →
  doubled line idx byte b = (b =? byte)%Z && match rest with b' :: _ => (b' =? byte)%Z | [] => false end.
Proof.
  intros Hd. unfold doubled. f_equal. destruct rest as [|b' rest].
  - apply bool_decide_eq_false. rewrite <-lookup_drop, Hd. done.
  - rewrite <-lookup_drop, Hd. cbn. destruct (Z.eqb_spec b' byte) as [->|].
    + by apply bool_decide_eq_true.
    + apply bool_decide_eq_false. congruence.
Qed.

Lemma scan_step_ok goal v :
  vars_rep goal v →
  let '(s, ss, idx, st) := v in
  if decide (idx < length line) then step_ok goal idx (scan_step line v)
  else scan_step line v = Ok (inr v).
Proof.
  destruct v as [[[s ss] idx] st]. intros (dn & Hrep & Hss & Hl & Hgoal).
  case_decide as Hlt; cbn [scan_step]; [|by rewrite decide_False].
  rewrite decide_True by done. destruct (drop idx line) as [|b rest] eqn:Hd.
  { apply Token.drop_nil in Hd. lia. }
  destruct (Token.drop_1 _ _ _ _ Hd) as (Hb & Hd1 & Hi1).
  rewrite (get_at_Ok _ _ _ Hb). cbn [mbind outcome_bind].
  assert (∀ st', goal = (r ← split (length dn) st' (sub line ss idx ++ [b]) rest; Ok (dn ++ r)) →
    step_ok goal idx (Ok (inl (s, ss, idx + 1, st')))) as Hone.
  { intros st' Hg. eapply goto_ok; try done; try lia. rewrite (sub_snoc _ _ _ b), Hd1 by (done || lia). done. }
  assert (∀ st' b' rest', rest = b' :: rest' →
    goal = (r ← split (length dn) st' (sub line ss idx ++ [b; b']) rest'; Ok (dn ++ r)) →
    ¬ length line ≤ idx + 1 ∧ step_ok goal idx (Ok (inl (s, ss, idx + 2, st')))) as Htwo.
  { intros st' b' rest' -> Hg. destruct (Token.drop_2 _ _ _ _ _ Hd) as (Hb' & Hd2 & Hi2).
    split; [lia|]. eapply goto_ok; try done; try lia. replace (idx + 2) with (idx + 1 + 1) by lia.
    rewrite (sub_snoc _ _ _ b'), (sub_snoc _ _ _ b), Hd2, <-app_assoc by (done || lia). done. }
  assert (rest = [] → length line ≤ idx + 1) as Hend by (intros ->; by apply Token.drop_nil).
  destruct st; cbn [split] in Hgoal.
  - destruct (b =? SQUOTE)%Z; [by apply Hone|]. destruct (b =? DQUOTE)%Z; [by apply Hone|].
    destruct (b =? BACKSLASH)%Z.
    { destruct rest as [|b' rest]; [rewrite decide_True by auto; by subst|].
      destruct (Htwo Unquoted b' rest) as [? ?]; [done..|]. by rewrite decide_False. }
    rewrite !(doubled_eq idx _ b rest) by done.
    destruct (Z.eqb_spec b SEMICOLON) as [->|Hb'].
    { cbn. eapply close_ok; try done; lia. }
    destruct rest as [|b' rest]; [rewrite !andb_false_r; by apply Hone|].
    destruct (Token.drop_2 _ _ _ _ _ Hd) as (_ & Hd2 & Hi2).
    rewrite <-Nat.add_assoc in Hd2, Hi2. change (1 + 1) with 2 in *.
    destruct ((b =? AMPERSAND)%Z && (b' =? AMPERSAND)%Z); [eapply close_ok; try done; lia|].
    destruct ((b =? PIPE)%Z && (b' =? PIPE)%Z); [eapply close_ok; try done; lia|].
    by apply Hone.
  - destruct (b =? SQUOTE)%Z; by apply Hone.
  - destruct (b =? DQUOTE)%Z; [by apply Hone|]. destruct (b =? BACKSLASH)%Z; [|by apply Hone].
    destruct rest as [|b' rest]; [rewrite decide_True by auto; by subst|].
    destruct (Htwo DoubleQuoted b' rest) as [? ?]; [done..|]. by rewrite decide_False.
Qed.
End loop.

Lemma SegmentScan_new_rep line : scan_rep line SegmentScan_new [].
Proof. split; cbn [starts ends operators count SegmentScan_new]; by rewrite ?length_replicate. Qed.

Lemma scan_spec line :
  match split 0 Unquoted [] line with
  | Ok l => ∃ s, scan_segments line = Ok s ∧ scan_rep line s l ∧ length l ≤ MAX_CHAIN_SEGMENTS
  | Err e => scan_segments line = Err e
  | _ => False
  end.
Proof.
  unfold scan_segments. set (goal := split 0 Unquoted [] line).
  match goal with |- context [while ?f ?b ?s] =>
    assert (match while f b s with
      | Ok v => vars_rep line goal v ∧ (let '(_, _, idx, _) := v in idx = length line)
      | Err e => goal = Err e
      | _ => False end) as Hloop end.
  { apply (while_rule (vars_rep line goal)
      (λ '(_, _, idx, _), length line - idx)
      (λ o, match o with
        | Ok v => vars_rep line goal v ∧ (let '(_, _, idx, _) := v in idx = length line)
        | Err e => goal = Err e
        | _ => False end)).
    - intros v Hv. pose proof (scan_step_ok line goal v Hv) as Hs.
      destruct v as [[[s ss] idx] st]. case_decide.
      + destruct (scan_step line _) as [[v'|v']|e| |]; try done. cbn in Hs.
        destruct v' as [[[s' ss'] idx'] st']. destruct Hs as [? ?]. split; [done|lia].
      + rewrite Hs. split; [done|]. destruct Hv as (dn & _ & ? & _). lia.
    - exists []. rewrite sub_nil. split_and!; [apply SegmentScan_new_rep|lia|lia|cbn; lia|].
      rewrite drop_0. change (goal = (r ← goal; Ok r)). by destruct goal.
    - lia. }
  destruct (while _ _ _) as [v|e| |]; try done; [|by rewrite Hloop].
  destruct v as [[[s ss] idx] st]. destruct Hloop as [(dn & Hrep & Hss & Hl & Hgoal) ->].
  rewrite drop_all in Hgoal. rewrite Hgoal. cbn [mbind outcome_bind split].
  destruct st; try done.
  destruct (trim_spaces_range_spec line ss (length line) ltac:(lia)) as (a & b & -> & Ha & Hab & Hb & Hsub).
  cbn [mbind outcome_bind]. pose proof (trim_empty line a b _ ltac:(lia) Hsub) as Hempty.
  rewrite (scan_count _ _ _ Hrep).
  destruct (decide (a = b)) as [Heq|Hne].
  - rewrite (decide_True (P:=trim _ = [])) by (by apply Hempty). case_decide as Hz; [|done].
    exists s. rewrite app_nil_r. split_and!; [done|done|lia].
  - rewrite (decide_False (P:=trim _ = [])) by (by rewrite <-Hempty). cbn [mbind outcome_bind].
    pose proof (push_spec line s dn a b None Hrep ltac:(lia)) as Hp.
    rewrite decide_False in Hp by (intros [[? ?] _]; done).
    unfold MAX_CHAIN_SEGMENTS in *.
    destruct Hp as (s' & -> & Hrep'); [intros; lia|]. rewrite <-Hsub. exists s'.
    split_and!; [done|done|]. rewrite length_app. cbn. lia.
Qed.

(** ** What the splitter returns *)

Lemma quoting_app st a b st' : quoting st a = Some st' → quoting st (a ++ b) = quoting st' b.
Proof.
  revert st. induction a as [a IH] using (induction_ltof1 _ length); unfold ltof in IH.
  intros st Ha. destruct a as [|c a]; cbn [quoting app] in *; [congruence|].
  destruct st; repeat match goal with |- context [if ?c then _ else _] => destruct c end;
    try (destruct a as [|c' a]; [done|]; cbn [app]); apply IH; cbn; done || lia.
Qed.

Lemma quoting_spaces st l : spaces l → quoting st l = Some st.
Proof. induction 1 as [|b l -> _ IH]; [done|]. by destruct st; cbn. Qed.

Definition good_raw (raw : list Z) : Prop := quoting Unquoted raw = Some Unquoted ∧ trim raw ≠ [].

Definition trimmed (raws : segs) : segs := map (λ '(r, op), (trim r, op)) raws.

(** The raw segments: joined they are the line, each is closed and not
    blank, and each but the last has its operator. *)
Definition splits (line : list Z) (raws : segs) : Prop :=
  line = joined raws ∧ Forall (λ '(r, _), good_raw r) raws ∧
  ∃ init r, raws = init ++ [(r, None)] ∧ Forall (λ '(_, op), is_Some op) init.

Lemma splits_cons raw op line raws :
  good_raw raw → splits line raws → splits (raw ++ operator_text (Some op) ++ line) ((raw, Some op) :: raws).
Proof.
  intros Hr (-> & Hf & init & r & -> & Hi). split_and!.
  - cbn. by rewrite <-app_assoc.
  - by constructor.
  - exists ((raw, Some op) :: init), r. split; [done|]. by constructor; [eexists|].
Qed.

Lemma split_op_inv n raw op rest l :
  split_op n raw op rest = Ok l →
  trim raw ≠ [] ∧ ∃ l', rest = Ok l' ∧ l = (trim raw, Some op) :: l'.
Proof.
  unfold split_op. repeat case_decide; try done. intros Hs. split; [done|]. inv_ok. naive_solver.
Qed.

Lemma split_sound n st raw line l :
  quoting Unquoted raw = Some st → split n st raw line = Ok l →
  (n = 0 ∧ l = [] ∧ trim (raw ++ line) = []) ∨
  ∃ raws, splits (raw ++ line) raws ∧ l = trimmed raws.
Proof.
  revert n st raw l. induction line as [line IH] using (induction_ltof1 _ length); unfold ltof in IH.
  intros n st raw l Hq Hs. destruct line as [|b rest]; cbn [split] in Hs.
  { destruct st; try done. rewrite app_nil_r. case_decide.
    - case_decide; [|done]. injection Hs as <-. by left.
    - injection Hs as <-. right. exists [(raw, None)]. split; [|done]. split_and!.
      + cbn. by rewrite !app_nil_r.
      + by apply Forall_singleton.
      + by exists [], raw. }
  assert (∀ add rest' st', b :: rest = add ++ rest' → length rest' < length (b :: rest) →
    quoting st add = Some st' → split n st' (raw ++ add) rest' = Ok l →
    (n = 0 ∧ l = [] ∧ trim (raw ++ b :: rest) = []) ∨
    ∃ raws, splits (raw ++ b :: rest) raws ∧ l = trimmed raws) as Hgo.
  { intros add rest' st' Heq Hl Hqa Hs'. rewrite Heq, app_assoc. eapply IH; [done| |exact Hs'].
    by rewrite (quoting_app _ _ _ _ Hq). }
  assert (∀ op rest', b :: rest = operator_text (Some op) ++ rest' → st = Unquoted →
    length rest' < length (b :: rest) →
    split_op n raw op (split (n + 1) Unquoted [] rest') = Ok l →
    ∃ raws, splits (raw ++ b :: rest) raws ∧ l = trimmed raws) as Hop.
  { intros op rest' Heq -> Hl Hs'. rewrite Heq. apply split_op_inv in Hs' as (Ht & l' & Hl' & ->).
    destruct (IH rest' Hl (n + 1) Unquoted [] l' eq_refl Hl') as [[? _]|(raws & Hsp & ->)]; [lia|].
    exists ((raw, Some op) :: raws). split; [by apply splits_cons|done]. }
  destruct st.
  - destruct (b =? SQUOTE)%Z eqn:H1.
    { eapply (Hgo [b] rest SingleQuoted); [done|cbn; lia|cbn; by rewrite H1|done]. }
    destruct (b =? DQUOTE)%Z eqn:H2.
    { eapply (Hgo [b] rest DoubleQuoted); [done|cbn; lia|cbn; by rewrite H1, H2|done]. }
    destruct (b =? BACKSLASH)%Z eqn:H3.
    { destruct rest as [|b' rest]; [done|].
      eapply (Hgo [b; b'] rest Unquoted); [done|cbn; lia|cbn; by rewrite H1, H2, H3|done]. }
    destruct (Z.eqb_spec b SEMICOLON) as [->|H4].
    { right. by eapply (Hop Sequence rest); [|..|cbn; lia|]. }
    assert (split n Unquoted (raw ++ [b]) rest = Ok l →
      (n = 0 ∧ l = [] ∧ trim (raw ++ b :: rest) = []) ∨
      ∃ raws, splits (raw ++ b :: rest) raws ∧ l = trimmed raws) as Hplain.
    { intros Hs'. eapply (Hgo [b] rest Unquoted); [done|cbn; lia|cbn; by rewrite H1, H2, H3|done]. }
    destruct rest as [|b' rest]; [by apply Hplain|].
    destruct (_ && _) eqn:H5.
    { apply andb_true_iff in H5 as [->%Z.eqb_eq ->%Z.eqb_eq]. right.
      by eapply (Hop And rest); [|..|cbn; lia|]. }
    destruct ((b =? PIPE)%Z && _) eqn:H6; [|by apply Hplain].
    apply andb_true_iff in H6 as [->%Z.eqb_eq ->%Z.eqb_eq]. right.
    by eapply (Hop Or rest); [|..|cbn; lia|].
  - destruct (b =? SQUOTE)%Z eqn:H1.
    + eapply (Hgo [b] rest Unquoted); [done|cbn; lia|cbn; by rewrite H1|done].
    + eapply (Hgo [b] rest SingleQuoted); [done|cbn; lia|cbn; by rewrite H1|done].
  - destruct (b =? DQUOTE)%Z eqn:H1.
    { eapply (Hgo [b] rest Unquoted); [done|cbn; lia|cbn; by rewrite H1|done]. }
    destruct (b =? BACKSLASH)%Z eqn:H2.
    + destruct rest as [|b' rest]; [done|].
      eapply (Hgo [b; b'] rest DoubleQuoted); [done|cbn; lia|cbn; by rewrite H1, H2|done].
    + eapply (Hgo [b] rest DoubleQuoted); [done|cbn; lia|cbn; by rewrite H1, H2|done].
Qed.

Lemma chain_spec line s l raws :
  scan_rep line s l → (l = [] ∨ splits line raws ∧ l = trimmed raws) →
  chain s line = Ok (map (λ '(t, op), (Some t, op)) l).
Proof.
  intros Hrep Hl. unfold chain. rewrite (scan_count _ _ _ Hrep).
  assert (∀ n, n ≤ length l →
    for_each (λ l i, t ← segment s line i; op ← operator_before s (i + 1); Ok (l ++ [(t, op)]))
      [] (seq 0 n) = Ok (map (λ '(t, op), (Some t, op)) (take n l))) as Hn.
  { induction n as [|n IH]; intros Hn; [done|]. rewrite seq_S, for_each_app, IH by lia. cbn.
    destruct (lookup_lt_is_Some_2 l n) as [[t op] Ht]; [lia|].
    destruct (scan_items _ _ _ Hrep _ _ _ Ht) as (a & b & Ha & Hb & Hab & -> & Hop).
    unfold segment, operator_before. rewrite (scan_count _ _ _ Hrep).
    rewrite (decide_False (P:=length l ≤ n)) by lia.
    rewrite (get_at_Ok _ _ _ Ha), (get_at_Ok _ _ _ Hb). cbn.
    rewrite slice_Ok by lia. cbn. rewrite (take_S_r _ _ _ Ht), map_app. cbn.
    destruct Hl as [->|[(_ & _ & init & r & -> & Hi) ->]]; [done|].
    unfold trimmed in *. rewrite map_app, length_app, length_map in *. cbn in *.
    destruct (decide (n = length init)) as [->|Hne].
    - rewrite decide_True by lia. cbn. rewrite lookup_app_r in Ht by (rewrite length_map; lia).
      rewrite length_map, Nat.sub_diag in Ht. injection Ht as _ <-. done.
    - rewrite lookup_app_l in Ht by (rewrite length_map; lia). rewrite decide_False by lia.
      apply list_lookup_fmap_Some in Ht as ([r' op'] & Hr' & Ht'). injection Hr' as _ ->.
      destruct (Forall_lookup_1 _ _ _ _ Hi Ht') as [o ->]. rewrite Nat.add_sub.
      by rewrite (get_at_Ok _ _ _ (Hop o eq_refl)). }
  rewrite Hn by lia. by rewrite take_ge.
Qed.

(** An unmatched quote reported by the word parser is the text's own. *)
Lemma tok_unmatched st dn cur line e :
  Token.tok st dn cur line = Err e →
  (e = UnmatchedSingleQuote → quoting st line = Some SingleQuoted) ∧
  (e = UnmatchedDoubleQuote → quoting st line = Some DoubleQuoted).
Proof.
  revert st dn cur. induction line as [line IH] using (induction_ltof1 _ length); unfold ltof in IH.
  intros st dn cur Ht. destruct line as [|b rest]; cbn [Token.tok quoting] in *.
  { destruct st; try done; injection Ht as <-; done. }
  assert (∀ w b' st' rest', length rest' < length (b :: rest) →
    (c ← Token.tok_push dn w b'; Token.tok st' dn c rest') = Err e →
    (e = UnmatchedSingleQuote → quoting st' rest' = Some SingleQuoted) ∧
    (e = UnmatchedDoubleQuote → quoting st' rest' = Some DoubleQuoted)) as Hpush.
  { intros w b' st' rest' Hl Hp. unfold Token.tok_push in Hp. case_decide; cbn in Hp; [naive_solver|].
    by eapply IH. }
  assert (∀ (k : list Z → Token.res (list (list Z))) st' rest',
    (∀ w, k w = Err e →
      (e = UnmatchedSingleQuote → quoting st' rest' = Some SingleQuoted) ∧
      (e = UnmatchedDoubleQuote → quoting st' rest' = Some DoubleQuoted)) →
    (w ← Token.tok_start dn cur; k w) = Err e →
    (e = UnmatchedSingleQuote → quoting st' rest' = Some SingleQuoted) ∧
    (e = UnmatchedDoubleQuote → quoting st' rest' = Some DoubleQuoted)) as Hstart.
  { intros k st' rest' Hk Hs. destruct cur; cbn in Hs; [by eapply Hk|]. case_decide; cbn in Hs; [naive_solver|].
    by eapply Hk. }
  assert (∀ st' dn' cur' rest', length rest' < length (b :: rest) →
    Token.tok st' dn' cur' rest' = Err e →
    (e = UnmatchedSingleQuote → quoting st' rest' = Some SingleQuoted) ∧
    (e = UnmatchedDoubleQuote → quoting st' rest' = Some DoubleQuoted)) as Hgo
    by (intros st' dn' cur' rest' Hl Hr; exact (IH rest' Hl st' dn' cur' Hr)).
  clear IH. destruct st.
  - destruct (b =? SPACE)%Z eqn:Hsp.
    { apply Z.eqb_eq in Hsp as ->. cbn. eapply Hgo; [cbn; lia|exact Ht]. }
    destruct (b =? SQUOTE)%Z.
    { eapply Hstart; [|exact Ht]. intros w Hw. eapply Hgo; [cbn; lia|exact Hw]. }
    destruct (b =? DQUOTE)%Z.
    { eapply Hstart; [|exact Ht]. intros w Hw. eapply Hgo; [cbn; lia|exact Hw]. }
    destruct (b =? BACKSLASH)%Z.
    + destruct rest as [|b' rest]; [injection Ht as <-; done|].
      eapply Hstart; [|exact Ht]. intros w Hw. eapply Hpush; [cbn; lia|exact Hw].
    + eapply Hstart; [|exact Ht]. intros w Hw. eapply Hpush; [cbn; lia|exact Hw].
  - destruct (b =? SQUOTE)%Z; [eapply Hgo|eapply Hpush]; try exact Ht; cbn; lia.
  - destruct (b =? DQUOTE)%Z; [eapply Hgo; [|exact Ht]; cbn; lia|].
    destruct (b =? BACKSLASH)%Z; [|eapply Hpush; [|exact Ht]; cbn; lia].
    destruct rest as [|b' rest]; [injection Ht as <-; done|].
    eapply Hpush; [|exact Ht]; cbn; lia.
Qed.

Lemma quoting_trim raw :
  quoting Unquoted raw = Some Unquoted →
  quoting Unquoted (trim raw) = Some Unquoted ∨ quoting Unquoted (trim raw) = None.
Proof.
  intros Hq. destruct (trim_split raw) as (sp & sp' & Hraw & Hsp & Hsp').
  rewrite Hraw, (quoting_app _ _ _ _ (quoting_spaces _ _ Hsp)) in Hq.
  destruct (quoting Unquoted (trim raw)) as [st|] eqn:Ht; [|by right]. left.
  rewrite (quoting_app _ _ _ _ Ht), (quoting_spaces _ _ Hsp') in Hq. done.
Qed.

(** * Properties *)

(** [scan_segments] never panics, terminates, and finds at most 32
    segments.  When it succeeds, either the line is blank and there is none,
    or the line is exactly the raw segments joined by their operators, each
    raw segment is closed (no quote is open at its end) and not blank, and
    the shell reads the raw segments without their outer spaces, each with
    the operator that follows it. *)
Theorem segments_partition line :
  match scan_segments line with
  | Ok s => count s ≤ MAX_CHAIN_SEGMENTS ∧ ∃ raws,
      chain s line = Ok (map (λ '(r, op), (Some (trim r), op)) raws) ∧
      (raws = [] ∧ trim line = [] ∨ splits line raws)
  | Err _ => True
  | Panic | Hang => False
  end.
Proof.
  pose proof (scan_spec line) as Hs. destruct (split 0 Unquoted [] line) as [l|e| |] eqn:Hl; try done.
  - destruct Hs as (s & -> & Hrep & Hlen). rewrite (scan_count _ _ _ Hrep). split; [done|].
    destruct (split_sound 0 Unquoted [] line _ eq_refl Hl) as [(_ & -> & Ht)|(raws & Hsp & ->)].
    + exists []. split; [|by left]. exact (chain_spec line s [] [] Hrep (or_introl eq_refl)).
    + exists raws. split; [|by right].
      rewrite (chain_spec _ _ _ raws Hrep) by (by right). f_equal. unfold trimmed.
      rewrite map_map. by apply map_ext; intros [? ?].
  - by rewrite Hs.
Qed.

(** The two parsers agree on quotes: no segment that [scan_segments]
    hands to [TokenizedCommand::parse] can fail with an unmatched quote. *)
Theorem segments_have_matched_quotes line s l t op :
  scan_segments line = Ok s → chain s line = Ok l → In (Some t, op) l →
  Token.parse t ≠ Err UnmatchedSingleQuote ∧ Token.parse t ≠ Err UnmatchedDoubleQuote.
Proof.
  intros Hs Hc Hin. pose proof (scan_spec line) as Hspec.
  destruct (split 0 Unquoted [] line) as [l0|e| |] eqn:Hl0; try done; [|congruence].
  destruct Hspec as (s' & Hs' & Hrep & _). assert (s' = s) as -> by congruence.
  destruct (split_sound 0 Unquoted [] line _ eq_refl Hl0) as [(_ & -> & _)|(raws & Hsp & ->)].
  { rewrite (chain_spec _ _ _ [] Hrep) in Hc by (by left). by injection Hc as <-. }
  rewrite (chain_spec _ _ _ raws Hrep) in Hc by (by right). injection Hc as <-.
  apply in_map_iff in Hin as ([t' op'] & Heq & Hin). injection Heq as <- <-.
  apply in_map_iff in Hin as ([r op''] & Heq & Hin). injection Heq as <- <-.
  destruct Hsp as (_ & Hf & _). rewrite Forall_forall in Hf.
  specialize (Hf _ (proj2 (list_elem_of_In _ _) Hin)) as [Hq _].
  pose proof (Token.parse_spec (trim r)) as Hp.
  destruct (Token.tok Unquoted [] None (trim r)) as [ws|e| |] eqn:Ht; try done.
  - destruct Hp as (p & -> & _). done.
  - destruct (tok_unmatched _ _ _ _ _ Ht) as [H1 H2]. rewrite Hp.
    destruct (quoting_trim _ Hq) as [Hqt|Hqt]; rewrite Hqt in H1, H2;
      split; intros [= ->]; naive_solver.
Qed.

Lemma segments_have_matched_quotes_witness :
  Token.parse (ascii "echo 'a && b'") ≠ Err UnmatchedSingleQuote ∧
  Token.parse (ascii "echo 'a && b'") ≠ Err UnmatchedDoubleQuote.
Proof.
  destruct (scan_segments (ascii "echo 'a && b' || ls")) as [s|e| |] eqn:Hs;
    [|exfalso; vm_compute in Hs; discriminate..].
  apply (segments_have_matched_quotes (ascii "echo 'a && b' || ls") s
    [(Some (ascii "echo 'a && b'"), Some Or); (Some (ascii "ls"), None)] _ (Some Or));
    [exact Hs| |left; reflexivity].
  vm_compute in Hs. injection Hs as <-. vm_compute. reflexivity.
Defined.

(** A trailing escaped space is lost between the two parsers: on its own
    the word parser reads [echo a\ ] as an argument ending in a space, but
    the chain scanner trims that space away and leaves a dangling backslash,
    so the shell rejects the command. *)
Theorem escaped_trailing_space_rejected :
  (∃ p, Token.parse (ascii "echo a\ ") = Ok p ∧
        Token.tokens p = Ok [Some (ascii "echo"); Some (ascii "a ")]) ∧
  (∃ s, scan_segments (ascii "echo a\ ") = Ok s ∧
        segment s (ascii "echo a\ ") 0 = Ok (Some (ascii "echo a\"))) ∧
  Token.parse (ascii "echo a\") = Err TrailingBackslash.
Proof.
  split_and!.
  - destruct (Token.parse (ascii "echo a\ ")) as [p|e| |] eqn:Hp;
      [|exfalso; vm_compute in Hp; discriminate..].
    exists p. split; [done|]. vm_compute in Hp. injection Hp as <-. by vm_compute.
  - destruct (scan_segments (ascii "echo a\ ")) as [p|e| |] eqn:Hp;
      [|exfalso; vm_compute in Hp; discriminate..].
    exists p. split; [done|]. vm_compute in Hp. injection Hp as <-. by vm_compute.
  - by vm_compute.
Qed.

End Segment.
