(* ===== verification/Allocator.v ===== *)
(** * Physical page allocator ([kernel/kernel/src/memory/allocator.rs], [types.rs])

    A fixed array of 128 address ranges, its in-place shifting loops and the
    zeroing of allocated pages, proved to implement a canonical list of
    ranges and, through it, a set of free addresses. *)

From Stdlib Require Import Sorted.
From S2P Require Import Prelude Bytes Errors.

Local Open Scope Z_scope.

Definition PAGE_SIZE : Z := 4096.
Definition MAX_FREE_RANGES : nat := 128.
Definition MAX_SEGMENT_PAGES : nat := 128.
Definition USER_STACK_PAGES : nat := 16.
Definition MAX_OWNED_PAGES : nat := (MAX_SEGMENT_PAGES + USER_STACK_PAGES + 32)%nat.
Definition USER_IMAGE_BASE : Z := 0x400000.
Definition USER_STACK_TOP : Z := 0x800000.
#[global] Arguments MAX_FREE_RANGES : simpl never.
#[global] Arguments PAGE_SIZE : simpl never.

Abbreviation res := (outcome MemoryError).

(** ** [PhysicalRegion] *)

Record PhysicalRegion := mkRegion { start : Z; end_ : Z }.

#[export] Instance PhysicalRegion_eq_dec : EqDecision PhysicalRegion.
Proof. solve_decision. Defined.

Definition PhysicalRegion_empty : PhysicalRegion := mkRegion 0 0.

Definition is_empty (r : PhysicalRegion) : bool := (start r =? 0) || (end_ r <=? start r).

Definition region_allocate_page (r : PhysicalRegion) : option (Z * PhysicalRegion) :=
  if is_empty r then None
  else
    next ← checked_add (start r) PAGE_SIZE;
    if decide (end_ r < next) then None else Some (start r, mkRegion next (end_ r)).

Definition region_allocate_contiguous_pages (r : PhysicalRegion) (count : Z)
    : option (Z * PhysicalRegion) :=
  if (count =? 0) || is_empty r then None
  else
    bytes ← checked_mul count PAGE_SIZE;
    e ← checked_add (start r) bytes;
    if decide (end_ r < e) then None else Some (start r, mkRegion e (end_ r)).

(** ** [PhysicalAllocator]

    Physical memory is a function from addresses to bytes. *)

Record PhysicalAllocator := mkAllocator {
  regions : list PhysicalRegion;
  count : nat
}.

Definition Memory : Type := Z → Z.

(** [write_bytes(start, 0, len)] *)
Definition write_zeros (mem : Memory) (start len : Z) : Memory :=
  λ a, if decide (start ≤ a < start + len) then 0 else mem a.

(** [copy_nonoverlapping] to physical memory. *)
Definition write_phys (mem : Memory) (address : Z) (bytes : list Z) : Memory :=
  λ a, if decide (address ≤ a < address + Z.of_nat (length bytes))
       then default 0 (bytes !! Z.to_nat (a - address)) else mem a.

(** The page an address lies in. *)
Definition page_base (address : Z) : Z := address / PAGE_SIZE * PAGE_SIZE.

Definition PhysicalAllocator_new : PhysicalAllocator :=
  mkAllocator (replicate MAX_FREE_RANGES PhysicalRegion_empty) 0.

Definition remove_region (a : PhysicalAllocator) (index : nat) : res PhysicalAllocator :=
  rs ← shift_down (regions a) index (count a);
  if decide (0 < count a)%nat then
    rs ← set_at rs (count a - 1) PhysicalRegion_empty;
    Ok (mkAllocator rs (count a - 1))
  else Ok (mkAllocator rs (count a)).
#[global] Arguments remove_region : simpl never.

(** The loop shared by the two allocation functions: [try_region] is
    [PhysicalRegion::allocate_page] or [allocate_contiguous_pages(count)] and
    [len] the number of bytes then zeroed. *)
Definition allocate_with (try_region : PhysicalRegion → option (Z * PhysicalRegion)) (len : Z)
    (a : PhysicalAllocator) (mem : Memory) : res (Z * PhysicalAllocator * Memory) :=
  found ← while (S (count a)) (λ index,
    if decide (index < count a)%nat then
      region ← get_at (regions a) index;
      match try_region region with
      | Some (page, region) =>
          rs ← set_at (regions a) index region;
          let a := mkAllocator rs (count a) in
          a ← (if is_empty region then remove_region a index else Ok a);
          Ok (inr (Some (page, a)))
      | None => Ok (inl (S index))
      end
    else Ok (inr None)) 0%nat;
  match found with
  | Some (page, a) => Ok (page, a, write_zeros mem page len)
  | None => Err AllocatorExhausted
  end.

Definition allocate_page := allocate_with region_allocate_page PAGE_SIZE.

Definition allocate_contiguous_pages (a : PhysicalAllocator) (mem : Memory) (count : Z) :=
  allocate_with (λ r, region_allocate_contiguous_pages r count) (count * PAGE_SIZE) a mem.

Definition insert_range (a : PhysicalAllocator) (start' end' : Z) : res PhysicalAllocator :=
  if decide (end' ≤ start') then Ok a
  else
    '(merged_start, merged_end, a) ← while (S (count a)) (λ '(index, merged_start, merged_end, a),
      if decide (index < count a)%nat then
        region ← get_at (regions a) index;
        if decide (end_ region < merged_start ∨ merged_end < start region) then
          Ok (inl (S index, merged_start, merged_end, a))
        else
          a ← remove_region a index;
          Ok (inl (index, Z.min merged_start (start region), Z.max merged_end (end_ region), a))
      else Ok (inr (merged_start, merged_end, a))) (0%nat, start', end', a);
    if decide (length (regions a) ≤ count a)%nat then Panic
    else
      insert_at ← while (S (count a)) (λ insert_at,
        if decide (insert_at < count a)%nat then
          region ← get_at (regions a) insert_at;
          if decide (start region < merged_start) then Ok (inl (S insert_at))
          else Ok (inr insert_at)
        else Ok (inr insert_at)) 0%nat;
      rs ← shift_up (regions a) insert_at (count a);
      rs ← set_at rs insert_at (mkRegion merged_start merged_end);
      Ok (mkAllocator rs (count a + 1)).
#[global] Arguments insert_range : simpl never.

Definition add_region (a : PhysicalAllocator) (start' end' : Z) : res PhysicalAllocator :=
  insert_range a start' end'.

Definition free_contiguous_pages (a : PhysicalAllocator) (start' count : Z)
    : res PhysicalAllocator :=
  if count =? 0 then Ok a
  else
    let bytes := u64 (count * PAGE_SIZE) in
    insert_range a start' (u64 (start' + bytes)).

Definition reserve_step (start' end' : Z) (v : nat * PhysicalAllocator)
    : res ((nat * PhysicalAllocator) + PhysicalAllocator) :=
  let '(index, a) := v in
  if decide (index < count a)%nat then
    region ← get_at (regions a) index;
    if decide (end_ region ≤ start' ∨ end' ≤ start region) then Ok (inl (S index, a))
    else if decide (start' ≤ start region ∧ end_ region ≤ end') then
      a ← remove_region a index;
      Ok (inl (index, a))
    else if decide (start' ≤ start region) then
      rs ← set_at (regions a) index (mkRegion (Z.min end' (end_ region)) (end_ region));
      Ok (inl (S index, mkAllocator rs (count a)))
    else if decide (end_ region ≤ end') then
      rs ← set_at (regions a) index (mkRegion (start region) (Z.max start' (start region)));
      Ok (inl (S index, mkAllocator rs (count a)))
    else if decide (length (regions a) ≤ count a)%nat then Panic
    else
      let right := mkRegion end' (end_ region) in
      rs ← set_at (regions a) index (mkRegion (start region) start');
      rs ← shift_up rs (S index) (count a);
      rs ← set_at rs (S index) right;
      Ok (inl (index + 2, mkAllocator rs (count a + 1))%nat)
  else Ok (inr a).

(** Each round deals with one region of the original list. *)
Definition reserve_range (a : PhysicalAllocator) (start' end' : Z) : res PhysicalAllocator :=
  if decide (end' ≤ start') then Ok a
  else while (S (count a)) (reserve_step start' end') (0%nat, a).

(** ** [OwnedPages] and [KernelBuffer] (types.rs, kernel.rs) *)

Record OwnedPages := mkOwned { pages : list Z; owned_len : nat }.

Definition OwnedPages_empty : OwnedPages := mkOwned (replicate MAX_OWNED_PAGES 0) 0.

Definition owned_push (o : OwnedPages) (page : Z) : res OwnedPages :=
  if decide (length (pages o) ≤ owned_len o)%nat then Err OwnedPageCapacityExceeded
  else
    ps ← set_at (pages o) (owned_len o) page;
    Ok (mkOwned ps (owned_len o + 1)).

Definition owned_release (o : OwnedPages) (a : PhysicalAllocator) : res PhysicalAllocator :=
  while (S (owned_len o)) (λ '(index, a),
    if decide (index < owned_len o)%nat then
      page ← get_at (pages o) index;
      a ← free_contiguous_pages a page 1;
      Ok (inl (S index, a))
    else Ok (inr a)) (0%nat, a).

Record KernelBuffer := mkBuffer { start_paddr : Z; buf_len : Z; page_count : Z }.

Definition allocate_kernel_buffer (a : PhysicalAllocator) (mem : Memory) (size : Z)
    : res (KernelBuffer * PhysicalAllocator * Memory) :=
  if size =? 0 then Err InvalidKernelBufferSize
  else
    let page_count := align_up size PAGE_SIZE / PAGE_SIZE in
    '(start, a, mem) ← allocate_contiguous_pages a mem page_count;
    Ok (mkBuffer start size page_count, a, mem).

Definition buffer_release (b : KernelBuffer) (a : PhysicalAllocator) : res PhysicalAllocator :=
  free_contiguous_pages a (start_paddr b) (page_count b).

(** ** User buffers (user.rs) *)

Definition validate_user_buffer (address len : Z) : bool :=
  if len =? 0 then true
  else
    match checked_add address len with
    | None => false
    | Some e =>
        let user_stack_base := USER_STACK_TOP - Z.of_nat USER_STACK_PAGES * PAGE_SIZE in
        (USER_IMAGE_BASE <=? address) && (e <=? USER_STACK_TOP) &&
        negb ((user_stack_base <? e) && (address <? user_stack_base))
    end.

(** ** Specification: canonical lists of ranges *)

Definition region_ok (r : PhysicalRegion) : Prop := 0 < start r ∧ start r < end_ r ∧ end_ r < 2 ^ 64.

(** Ranges are listed in order, with a gap between neighbours. *)
Definition canonical (l : list PhysicalRegion) : Prop :=
  Forall region_ok l ∧ StronglySorted (λ r r', end_ r < start r') l.

Definition covers (l : list PhysicalRegion) (a : Z) : Prop :=
  ∃ r, r ∈ l ∧ start r ≤ a < end_ r.

Fixpoint merge_spec (l : list PhysicalRegion) (s e : Z) : list PhysicalRegion * Z * Z :=
  match l with
  | [] => ([], s, e)
  | r :: l =>
      if decide (end_ r < s ∨ e < start r) then
        let '(k, s', e') := merge_spec l s e in (r :: k, s', e')
      else merge_spec l (Z.min s (start r)) (Z.max e (end_ r))
  end.

Fixpoint insert_sorted (l : list PhysicalRegion) (r : PhysicalRegion) : list PhysicalRegion :=
  match l with
  | [] => [r]
  | r' :: l' => if decide (start r' < start r) then r' :: insert_sorted l' r else r :: l
  end.

Definition insert_spec (l : list PhysicalRegion) (s e : Z) : list PhysicalRegion :=
  let '(k, s', e') := merge_spec l s e in insert_sorted k (mkRegion s' e').

Definition reserve_one (s e : Z) (r : PhysicalRegion) : list PhysicalRegion :=
  if decide (end_ r ≤ s ∨ e ≤ start r) then [r]
  else if decide (s ≤ start r ∧ end_ r ≤ e) then []
  else if decide (s ≤ start r) then [mkRegion (Z.min e (end_ r)) (end_ r)]
  else if decide (end_ r ≤ e) then [mkRegion (start r) (Z.max s (start r))]
  else [mkRegion (start r) s; mkRegion e (end_ r)].

Definition reserve_spec (l : list PhysicalRegion) (s e : Z) : list PhysicalRegion :=
  concat (map (reserve_one s e) l).

(** First fit, taking the low end of the range. *)
Fixpoint take_first (bytes : Z) (l : list PhysicalRegion) : option (Z * list PhysicalRegion) :=
  match l with
  | [] => None
  | r :: l =>
      if decide (start r + bytes ≤ end_ r) then
        Some (start r,
          if decide (start r + bytes = end_ r) then l else mkRegion (start r + bytes) (end_ r) :: l)
      else '(page, l') ← take_first bytes l; Some (page, r :: l')
  end.

(** ** Abstraction *)

Definition live (a : PhysicalAllocator) : list PhysicalRegion := take (count a) (regions a).

Record alloc_ok (a : PhysicalAllocator) : Prop := {
  alloc_slots : length (regions a) = MAX_FREE_RANGES;
  alloc_count : (count a ≤ MAX_FREE_RANGES)%nat;
  alloc_canonical : canonical (live a)
}.

(** * Lemmas *)

(** ** Canonical lists *)

Lemma covers_nil a : ¬ covers [] a.
Proof. intros (r & Hr & _). by apply not_elem_of_nil in Hr. Qed.

Lemma covers_cons r l a : covers (r :: l) a ↔ start r ≤ a < end_ r ∨ covers l a.
Proof.
  unfold covers. split.
  - intros (r' & Hr & Ha). apply elem_of_cons in Hr as [->|Hr]; [by left|right; by exists r'].
  - intros [Ha|(r' & Hr & Ha)]; [exists r|exists r']; split; try done; by constructor.
Qed.

Lemma covers_app l l' a : covers (l ++ l') a ↔ covers l a ∨ covers l' a.
Proof.
  induction l as [|r l IH]; cbn; [pose proof (covers_nil a); naive_solver|].
  rewrite !covers_cons, IH. naive_solver.
Qed.

Lemma canonical_cons r l :
  canonical (r :: l) ↔ region_ok r ∧ Forall (λ r', end_ r < start r') l ∧ canonical l.
Proof.
  unfold canonical. rewrite Forall_cons. split.
  - intros [[? ?] Hs]. apply StronglySorted_inv in Hs as [? ?]. done.
  - intros (? & ? & ? & ?). split; [done|]. by constructor.
Qed.

Lemma canonical_nil : canonical [].
Proof. split; constructor. Qed.

(** The regions after one start beyond it. *)
Lemma covers_above l x a : Forall (λ r, x < start r) l → covers l a → x < a.
Proof. intros Hf (r & Hr & Ha). rewrite Forall_forall in Hf. specialize (Hf r Hr). lia. Qed.

Lemma Forall_start_weaken l x y : y ≤ x → Forall (λ r, x < start r) l → Forall (λ r, y < start r) l.
Proof. intros Hle Hf. eapply Forall_impl; [exact Hf|]. intros r ?; cbn in *; lia. Qed.

(** Two canonical lists that cover the same addresses are equal. *)
Lemma canonical_unique l l' :
  canonical l → canonical l' → (∀ a, covers l a ↔ covers l' a) → l = l'.
Proof.
  revert l'. induction l as [|r l IH]; intros [|r' l'] Hl Hl' Hc; [done| | |].
  - exfalso. apply canonical_cons in Hl' as [[? [? ?]] _]. apply (covers_nil (start r')), Hc.
    apply covers_cons. left. lia.
  - exfalso. apply canonical_cons in Hl as [[? [? ?]] _]. apply (covers_nil (start r)), Hc.
    apply covers_cons. left. lia.
  - apply canonical_cons in Hl as ((Hr1 & Hr2 & Hr3) & Hf & Hl).
    apply canonical_cons in Hl' as ((Hr1' & Hr2' & Hr3') & Hf' & Hl').
    assert (∀ a, covers l a → end_ r < a) as Ha by (intros; by eapply covers_above).
    assert (∀ a, covers l' a → end_ r' < a) as Ha' by (intros; by eapply covers_above).
    assert (start r = start r') as Hs.
    { pose proof (proj1 (Hc (start r))) as H1. pose proof (proj2 (Hc (start r'))) as H2.
      rewrite !covers_cons in H1, H2. specialize (Ha (start r')). specialize (Ha' (start r)).
      destruct H1 as [?|?]; [left; lia| |]; destruct H2 as [?|?]; try (left; lia); try lia;
        naive_solver lia. }
    assert (end_ r = end_ r') as He.
    { pose proof (proj1 (Hc (end_ r'))) as H1. pose proof (proj2 (Hc (end_ r))) as H2.
      pose proof (proj1 (Hc (end_ r' ))) as H3.
      destruct (Z.lt_trichotomy (end_ r) (end_ r')) as [Hlt|[?|Hlt]]; [|done|].
      - rewrite !covers_cons in H2. specialize (Ha (end_ r)).
        destruct H2 as [?|?]; [left; lia|lia|]. naive_solver lia.
      - rewrite !covers_cons in H1. specialize (Ha' (end_ r')).
        destruct H1 as [?|?]; [left; lia|lia|]. naive_solver lia. }
    assert (r = r') as <- by (destruct r, r'; cbn in *; congruence). f_equal.
    apply IH; [done..|]. intros a. specialize (Hc a). rewrite !covers_cons in Hc.
    specialize (Ha a). specialize (Ha' a). naive_solver lia.
Qed.

(** ** Merging *)

Lemma merge_spec_above l s e :
  s ≤ e → Forall (λ r, e < start r) l → Forall region_ok l → merge_spec l s e = (l, s, e).
Proof.
  intros Hse. induction l as [|r l IH]; intros Hf Hok; [done|]. cbn.
  inversion Hf; inversion Hok; subst. rewrite decide_True by lia. by rewrite IH.
Qed.

Lemma merge_spec_ok l s e :
  canonical l → 0 < s → s < e → e < 2 ^ 64 →
  let '(k, s', e') := merge_spec l s e in
  sublist k l ∧ 0 < s' ≤ s ∧ e ≤ e' ∧ e' < 2 ^ 64 ∧
  Forall (λ r, end_ r < s' ∨ e' < start r) k ∧
  (∀ x, x < s → Forall (λ r, x < start r) l → x < s') ∧
  (∀ a, (s' ≤ a < e' ∨ covers k a) ↔ (s ≤ a < e ∨ covers l a)).
Proof.
  revert s e. induction l as [|r l IH]; intros s e Hl Hs Hse He.
  { cbn. split_and!; try done; try lia; try constructor; naive_solver. }
  apply canonical_cons in Hl as ((Hr1 & Hr2 & Hr3) & Hf & Hl). cbn.
  destruct (decide (end_ r < s ∨ e < start r)) as [Hskip|Htouch].
  - destruct (decide (e < start r)) as [Hlt|Hge].
    + assert (Forall (λ r', e < start r') l) as Hf' by (eapply Forall_start_weaken; [|done]; lia).
      rewrite merge_spec_above by (try done; try lia; apply Hl).
      split_and!; try done; try lia.
      constructor; [by right|]. eapply Forall_impl; [exact Hf'|]. intros r' ?; cbn in *; lia.
    + specialize (IH s e Hl Hs Hse He). destruct (merge_spec l s e) as [[k s'] e'].
      destruct IH as (Hsub & Hs' & He' & Hmax & Hsep & Hx & Hcov).
      assert (end_ r < s') by (apply Hx; [lia|done]).
      split_and!; try done; try lia.
      * by constructor.
      * constructor; [by left|done].
      * intros x Hxs Hfx. inversion Hfx; subst. by apply Hx.
      * intros a. rewrite !covers_cons. specialize (Hcov a). naive_solver.
  - specialize (IH (Z.min s (start r)) (Z.max e (end_ r)) Hl ltac:(lia) ltac:(lia) ltac:(lia)).
    destruct (merge_spec l _ _) as [[k s'] e'].
    destruct IH as (Hsub & Hs' & He' & Hmax & Hsep & Hx & Hcov).
    split_and!; try done; try lia.
    + by constructor.
    + intros x Hxs Hfx. inversion Hfx; subst. apply Hx; [lia|done].
    + intros a. rewrite covers_cons. specialize (Hcov a). rewrite Hcov.
      assert (Z.min s (start r) ≤ a < Z.max e (end_ r) ↔ s ≤ a < e ∨ start r ≤ a < end_ r) by lia.
      naive_solver.
Qed.

Lemma sublist_canonical k l : sublist k l → canonical l → canonical k.
Proof.
  intros Hsub [Hok Hs]. split; [by eapply sublist_Forall|].
  induction Hsub as [|r k l Hsub IH|r k l Hsub IH]; [constructor| |].
  - apply StronglySorted_inv in Hs as [Hs Hf]. inversion Hok; subst.
    constructor; [by apply IH|]. by eapply sublist_Forall.
  - apply StronglySorted_inv in Hs as [Hs Hf]. inversion Hok; subst. by apply IH.
Qed.

Lemma insert_sorted_covers l r a : covers (insert_sorted l r) a ↔ start r ≤ a < end_ r ∨ covers l a.
Proof.
  induction l as [|r' l IH]; cbn; [by rewrite covers_cons|]. case_decide.
  - rewrite !covers_cons, IH. naive_solver.
  - by rewrite !covers_cons.
Qed.

Lemma insert_sorted_Forall (P : PhysicalRegion → Prop) l r :
  P r → Forall P l → Forall P (insert_sorted l r).
Proof.
  intros Hr. induction 1 as [|r' l Hr' Hl IH]; cbn; [by apply Forall_singleton|].
  case_decide; [by constructor|]. by repeat constructor.
Qed.

Lemma insert_sorted_canonical l r :
  canonical l → region_ok r → Forall (λ r', end_ r' < start r ∨ end_ r < start r') l →
  canonical (insert_sorted l r).
Proof.
  intros Hl Hr. induction l as [|r' l IH]; intros Hsep; cbn.
  { apply canonical_cons. split_and!; [done|constructor|apply canonical_nil]. }
  apply canonical_cons in Hl as (Hr' & Hf & Hl). inversion Hsep as [|? ? Hh Ht]; subst.
  destruct Hr as (Hr1 & Hr2 & Hr3). destruct Hr' as (Hr1' & Hr2' & Hr3').
  case_decide.
  - apply canonical_cons. split_and!; [done| |by apply IH].
    apply insert_sorted_Forall; [lia|done].
  - apply canonical_cons. split_and!; [done| |by apply canonical_cons].
    constructor; [lia|]. eapply Forall_start_weaken; [|done]. lia.
Qed.

Lemma insert_spec_ok l s e :
  canonical l → 0 < s → s < e → e < 2 ^ 64 →
  canonical (insert_spec l s e) ∧ (∀ a, covers (insert_spec l s e) a ↔ s ≤ a < e ∨ covers l a).
Proof.
  intros Hl Hs Hse He. unfold insert_spec. pose proof (merge_spec_ok l s e Hl Hs Hse He) as Hm.
  destruct (merge_spec l s e) as [[k s'] e'].
  destruct Hm as (Hsub & Hs' & He' & Hmax & Hsep & _ & Hcov). split.
  - apply insert_sorted_canonical; [by eapply sublist_canonical|unfold region_ok; cbn; lia|done].
  - intros a. rewrite insert_sorted_covers. apply Hcov.
Qed.

(** ** Reserving *)

Lemma reserve_one_ok s e r :
  s < e → region_ok r →
  Forall (λ r', region_ok r' ∧ start r ≤ start r' ∧ end_ r' ≤ end_ r) (reserve_one s e r) ∧
  canonical (reserve_one s e r) ∧
  (∀ a, covers (reserve_one s e r) a ↔ start r ≤ a < end_ r ∧ ¬ (s ≤ a < e)).
Proof.
  intros Hse (H1 & H2 & H3). unfold reserve_one, region_ok.
  repeat case_decide; (split; [repeat constructor; cbn; lia|split]);
    try (split; repeat constructor; cbn; lia);
    intros a; rewrite ?covers_cons; cbn;
    pose proof (covers_nil a); naive_solver lia.
Qed.

Lemma canonical_app l l' :
  canonical l → canonical l' → (∀ r r', r ∈ l → r' ∈ l' → end_ r < start r') → canonical (l ++ l').
Proof.
  intros Hl Hl' Hb. induction l as [|r l IH]; [done|]. cbn.
  apply canonical_cons in Hl as (Hr & Hf & Hl). apply canonical_cons. split_and!; [done| |].
  - apply Forall_app. split; [done|]. apply Forall_forall. intros r' Hr'. apply Hb; [by constructor|done].
  - apply IH; [done|]. intros r0 r' H1 H2. apply Hb; [by constructor|done].
Qed.

Lemma reserve_spec_ok l s e :
  canonical l → s < e →
  canonical (reserve_spec l s e) ∧
  (∀ a, covers (reserve_spec l s e) a ↔ covers l a ∧ ¬ (s ≤ a < e)) ∧
  (∀ x, Forall (λ r, x < start r) l → Forall (λ r, x < start r) (reserve_spec l s e)).
Proof.
  intros Hl Hse. induction l as [|r l IH]; unfold reserve_spec in *; cbn.
  { split_and!; [apply canonical_nil| |done]. intros a. pose proof (covers_nil a). naive_solver. }
  apply canonical_cons in Hl as (Hr & Hf & Hl). destruct (IH Hl) as (Hc & Hcov & Hx).
  destruct (reserve_one_ok s e r Hse Hr) as (Hone & Hcan & Hcov1).
  rewrite Forall_forall in Hone. split_and!.
  - apply canonical_app; [done..|]. intros r0 r' H1 H2.
    pose proof (Hone r0 H1) as (_ & _ & Hle). pose proof (Hx _ Hf) as Hfx.
    rewrite Forall_forall in Hfx. specialize (Hfx r' H2). lia.
  - intros a. rewrite covers_app, covers_cons, Hcov1, Hcov. naive_solver.
  - intros x Hfx. inversion Hfx; subst. apply Forall_app. split; [|by apply Hx].
    apply Forall_forall. intros r0 H0. pose proof (Hone r0 H0). cbn in *. lia.
Qed.

(** Only the region that strictly contains the range is split. *)
Lemma reserve_spec_above l s e :
  Forall (λ r, e ≤ start r) l → reserve_spec l s e = l.
Proof.
  induction 1 as [|r l Hr _ IH]; [done|]. unfold reserve_spec in *. cbn. rewrite IH.
  unfold reserve_one. by rewrite decide_True by lia.
Qed.

(** ** First fit *)

Lemma take_first_ok l bytes :
  canonical l → 0 < bytes →
  match take_first bytes l with
  | Some (page, l') => canonical l' ∧ (∀ a, page ≤ a < page + bytes → covers l a) ∧
      (∀ a, covers l' a ↔ covers l a ∧ ¬ (page ≤ a < page + bytes)) ∧
      (∀ x, Forall (λ r, x < start r) l → Forall (λ r, x < start r) l')
  | None => Forall (λ r, end_ r - start r < bytes) l
  end.
Proof.
  intros Hl Hb. induction l as [|r l IH]; cbn; [constructor|].
  pose proof Hl as Hl0. apply canonical_cons in Hl as ((Hr1 & Hr2 & Hr3) & Hf & Hl).
  assert (∀ a, covers l a → end_ r < a) as Ha by (intros; by eapply covers_above).
  case_decide as Hfit.
  - split_and!.
    + case_decide; [done|]. apply canonical_cons.
      split_and!; [unfold region_ok; cbn; lia|done|done].
    + intros a Hin. apply covers_cons. left. lia.
    + intros a. specialize (Ha a). case_decide; rewrite !covers_cons; cbn; naive_solver lia.
    + intros x Hfx. inversion Hfx; subst. case_decide; [done|]. constructor; [cbn; lia|done].
  - specialize (IH Hl). destruct (take_first bytes l) as [[page l']|]; cbn.
    + destruct IH as (Hc & Hin & Hcov & Hx). split_and!.
      * apply canonical_cons. split_and!; [done|by apply Hx|done].
      * intros a Hpa. apply covers_cons. right. by apply Hin.
      * intros a. rewrite !covers_cons, Hcov. specialize (Ha a). specialize (Hin a). naive_solver lia.
      * intros x Hfx. inversion Hfx; subst. constructor; [done|by apply Hx].
    + constructor; [lia|done].
Qed.

(** ** The array and its live prefix *)

Record slots_ok (a : PhysicalAllocator) (l : list PhysicalRegion) : Prop := {
  slots_length : length (regions a) = MAX_FREE_RANGES;
  slots_live : live a = l;
  slots_count : count a = length l
}.

Lemma alloc_slots_ok a : alloc_ok a → slots_ok a (live a).
Proof.
  intros [Hs Hc _]. split; try done. unfold live. rewrite length_take. lia.
Qed.

Lemma slots_alloc_ok a l : slots_ok a l → canonical l → alloc_ok a.
Proof.
  intros [Hs <- Hc] Hl. split; [done| |done]. rewrite Hc. unfold live. rewrite length_take. lia.
Qed.

Lemma slots_bound a l : slots_ok a l → (length l ≤ MAX_FREE_RANGES)%nat.
Proof. intros [Hs <- _]. unfold live. rewrite length_take. lia. Qed.

Lemma slots_lookup a l i r : slots_ok a l → l !! i = Some r → regions a !! i = Some r.
Proof.
  intros [_ <- _] Hr. unfold live in Hr. by apply lookup_take_Some in Hr as [? _].
Qed.

Lemma slots_insert a l i r :
  slots_ok a l → (i < length l)%nat →
  slots_ok (mkAllocator (<[i := r]> (regions a)) (count a)) (<[i := r]> l).
Proof.
  intros [Hs Hl Hc] Hi. split; cbn; rewrite ?length_insert; try done.
  unfold live in *. cbn. rewrite take_insert_lt by lia. by rewrite Hl.
Qed.

Lemma remove_region_ok a l l1 r l2 :
  slots_ok a l → l = l1 ++ r :: l2 →
  ∃ a', remove_region a (length l1) = Ok a' ∧ slots_ok a' (l1 ++ l2).
Proof.
  intros Hok ->. pose proof (slots_bound _ _ Hok) as Hb. destruct Hok as [Hs Hl Hc].
  rewrite length_app in Hc, Hb. cbn in Hc, Hb.
  unfold remove_region.
  destruct (shift_down_spec (E:=MemoryError) (regions a) (length l1) (count a))
    as (rs & -> & Hlen & _ & Ht); [lia|].
  cbn [mbind outcome_bind]. rewrite decide_True, set_at_Ok by lia. cbn [mbind outcome_bind].
  eexists. split; [done|].
  assert (take (count a - 1) rs = l1 ++ l2) as Htake.
  { rewrite Ht. unfold live in Hl. unfold sub. rewrite take_drop_commute.
    replace (S (length l1) + (count a - S (length l1)))%nat with (count a) by lia. rewrite Hl.
    assert (take (length l1) (regions a) = l1) as ->.
    { replace (length l1) with (length l1 `min` count a)%nat at 1 by lia.
      by rewrite <-take_take, Hl, take_app_length. }
    f_equal. rewrite cons_middle, app_assoc. apply drop_app_length'. rewrite length_app. cbn. lia. }
  split; cbn.
  - by rewrite length_insert, Hlen.
  - unfold live. cbn. by rewrite take_insert_ge, Htake by lia.
  - rewrite length_app. lia.
Qed.

(** ** Allocation *)

(** What both of the source's region operations compute on a live region. *)
Definition takes (bytes : Z) (f : PhysicalRegion → option (Z * PhysicalRegion)) : Prop :=
  ∀ r, region_ok r → f r =
    if decide (start r + bytes ≤ end_ r) then Some (start r, mkRegion (start r + bytes) (end_ r))
    else None.

Lemma region_ok_nonempty r : region_ok r → is_empty r = false.
Proof.
  intros (H1 & H2 & H3). unfold is_empty. apply orb_false_iff. split; [apply Z.eqb_neq|apply Z.leb_gt]; lia.
Qed.

Lemma region_allocate_page_takes : takes PAGE_SIZE region_allocate_page.
Proof.
  intros r Hr. unfold region_allocate_page. rewrite region_ok_nonempty by done.
  destruct Hr as (H1 & H2 & H3). unfold checked_add. destruct (decide (start r + PAGE_SIZE < 2 ^ 64)); cbn.
  - repeat case_decide; done || lia.
  - rewrite decide_False by lia. done.
Qed.

Lemma region_allocate_contiguous_takes count :
  0 < count → takes (count * PAGE_SIZE) (λ r, region_allocate_contiguous_pages r count).
Proof.
  intros Hc r Hr. unfold region_allocate_contiguous_pages. rewrite region_ok_nonempty by done.
  rewrite (proj2 (Z.eqb_neq count 0)) by lia. cbn [orb].
  destruct Hr as (H1 & H2 & H3). unfold checked_mul, checked_add, PAGE_SIZE.
  destruct (decide (count * 4096 < 2 ^ 64)); cbn [mbind option_bind].
  - destruct (decide (start r + count * 4096 < 2 ^ 64)); cbn [mbind option_bind].
    + repeat case_decide; done || lia.
    + rewrite decide_False by lia. done.
  - rewrite decide_False by lia. done.
Qed.

Lemma allocate_with_ok f bytes len a l mem :
  slots_ok a l → canonical l → 0 < bytes → takes bytes f →
  match take_first bytes l with
  | Some (page, l') => ∃ a', allocate_with f len a mem = Ok (page, a', write_zeros mem page len) ∧
      slots_ok a' l'
  | None => allocate_with f len a mem = Err AllocatorExhausted
  end.
Proof.
  intros Hok Hcan Hb Hf. unfold allocate_with.
  match goal with |- context [while ?n ?g ?s] =>
    assert (match take_first bytes l with
      | Some (page, l') => ∃ a', while n g s = Ok (Some (page, a')) ∧ slots_ok a' l'
      | None => while n g s = Ok None end) as Hloop end.
  { apply (while_rule
      (λ i, (i ≤ length l)%nat ∧ take_first bytes l =
        ('(page, l') ← take_first bytes (drop i l); Some (page, take i l ++ l')))
      (λ i, count a - i)%nat
      (λ o, match take_first bytes l with
        | Some (page, l') => ∃ a', o = Ok (Some (page, a')) ∧ slots_ok a' l'
        | None => o = Ok None end)); [| |lia].
    2: { split; [lia|]. rewrite drop_0. by destruct (take_first bytes l) as [[? ?]|]. }
    intros i [Hi Hgoal]. rewrite (slots_count _ _ Hok). case_decide as Hlt.
    2: { rewrite Hgoal, drop_ge by lia. done. }
    destruct (lookup_lt_is_Some_2 l i Hlt) as [r Hr].
    rewrite (get_at_Ok _ _ _ (slots_lookup _ _ _ _ Hok Hr)). cbn [mbind outcome_bind].
    rewrite (drop_S _ _ _ Hr) in Hgoal. cbn [take_first] in Hgoal.
    assert (region_ok r) as Hrok by (eapply Forall_lookup_1; [apply Hcan|done]).
    rewrite (Hf r Hrok). destruct (decide (start r + bytes ≤ end_ r)) as [Hfit|Hfit].
    - cbn [mbind option_bind] in Hgoal. rewrite Hgoal.
      rewrite set_at_Ok by (rewrite (slots_length _ _ Hok); pose proof (slots_bound _ _ Hok); lia).
      cbn [mbind outcome_bind].
      set (r' := mkRegion (start r + bytes) (end_ r)).
      pose proof (slots_insert a l i r' Hok Hlt) as Hok'. rewrite (slots_count _ _ Hok) in Hok'.
      assert (<[i := r']> l = take i l ++ r' :: drop (S i) l) as Hins
        by (by rewrite insert_take_drop).
      assert (is_empty r' = bool_decide (start r + bytes = end_ r)) as ->.
      { unfold is_empty, r'. cbn. destruct Hrok as (? & ? & ?).
        rewrite (proj2 (Z.eqb_neq _ 0)) by lia. cbn.
        case_bool_decide; [apply Z.leb_le|apply Z.leb_gt]; lia. }
      case_bool_decide as He.
      + rewrite decide_True by done.
        destruct (remove_region_ok _ _ (take i l) r' (drop (S i) l) Hok' Hins) as (a' & Hrm & Hok'').
        rewrite length_take, Nat.min_l in Hrm by lia. rewrite Hrm. cbn. by exists a'.
      + rewrite decide_False by done. cbn. eexists. split; [done|]. by rewrite <-Hins.
    - split; [|lia]. split; [lia|]. rewrite Hgoal, (take_S_r _ _ _ Hr).
      destruct (take_first bytes (drop (S i) l)) as [[p l']|]; cbn; [|done].
      by rewrite <-app_assoc. }
  destruct (take_first bytes l) as [[page l']|].
  - destruct Hloop as (a' & -> & Hok'). cbn. by exists a'.
  - rewrite Hloop. done.
Qed.

(** ** Insertion *)

Lemma length_merge_spec l s e : (length (merge_spec l s e).1.1 ≤ length l)%nat.
Proof.
  revert s e. induction l as [|r l IH]; intros s e; cbn; [lia|]. case_decide.
  - specialize (IH s e). destruct (merge_spec l s e) as [[k s'] e']. cbn in *. lia.
  - specialize (IH (Z.min s (start r)) (Z.max e (end_ r))). lia.
Qed.

Lemma insert_sorted_split k r :
  ∃ k1 k2, k = k1 ++ k2 ∧ insert_sorted k r = k1 ++ r :: k2 ∧
    Forall (λ r', start r' < start r) k1 ∧ (∀ r', head k2 = Some r' → ¬ start r' < start r).
Proof.
  induction k as [|r' k (k1 & k2 & -> & Hi & Hf & Hh)]; cbn; [by exists [], []|].
  case_decide as Hlt.
  - exists (r' :: k1), k2. cbn. rewrite Hi. split_and!; try done. by constructor.
  - exists [], (r' :: k1 ++ k2). split_and!; try done. by intros ? [= <-].
Qed.

Lemma insert_range_ok a l s e :
  slots_ok a l → s < e →
  if decide (length (merge_spec l s e).1.1 = MAX_FREE_RANGES) then insert_range a s e = Panic
  else ∃ a', insert_range a s e = Ok a' ∧ slots_ok a' (insert_spec l s e).
Proof.
  intros Hok Hse. unfold insert_range, insert_spec.
  rewrite (decide_False (P:=e ≤ s)) by lia.
  match goal with |- context [while ?n ?g (0%nat, s, e, a)] =>
    assert (∃ a', while n g (0%nat, s, e, a) =
      Ok ((merge_spec l s e).1.2, (merge_spec l s e).2, a') ∧
      slots_ok a' (merge_spec l s e).1.1) as (a1 & -> & Hok1) end.
  { apply (while_rule
      (λ '(i, s', e', a'), ∃ l1 l2, slots_ok a' (l1 ++ l2) ∧ i = length l1 ∧
        (length l1 + length l2 ≤ count a)%nat ∧
        merge_spec l s e = (let '(k, s'', e'') := merge_spec l2 s' e' in (l1 ++ k, s'', e'')))
      (λ '(i, _, _, a'), count a' - i)%nat
      (λ o, ∃ a', o = Ok ((merge_spec l s e).1.2, (merge_spec l s e).2, a') ∧
        slots_ok a' (merge_spec l s e).1.1)); [| |lia].
    2: { exists [], l. rewrite (slots_count _ _ Hok). split_and!; try done.
         by destruct (merge_spec l s e) as [[? ?] ?]. }
    intros [[[i s'] e'] a'] (l1 & l2 & Hok' & -> & Hlen & Hm).
    rewrite (slots_count _ _ Hok'), length_app. case_decide as Hlt.
    - destruct l2 as [|r l2]; [cbn in Hlt; lia|].
      assert ((l1 ++ r :: l2) !! length l1 = Some r) as Hr
        by (rewrite lookup_app_r, Nat.sub_diag by lia; done).
      rewrite (get_at_Ok _ _ _ (slots_lookup _ _ _ _ Hok' Hr)). cbn [mbind outcome_bind].
      cbn [merge_spec] in Hm. case_decide as Hskip.
      + rewrite (slots_count _ _ Hok'), length_app. cbn. split; [|lia]. exists (l1 ++ [r]), l2.
        rewrite <-!app_assoc, length_app. cbn in *.
        split_and!; try done; try lia. rewrite Hm.
        destruct (merge_spec l2 s' e') as [[k s''] e'']. by rewrite <-app_assoc.
      + destruct (remove_region_ok _ _ l1 r l2 Hok' eq_refl) as (a2 & -> & Hok2).
        cbn [mbind outcome_bind]. rewrite (slots_count _ _ Hok2), length_app. cbn in *.
        split; [|lia]. exists l1, l2. split_and!; try done. lia.
    - destruct l2 as [|r l2]; [|cbn in Hlt; lia]. rewrite app_nil_r in Hok'.
      exists a'. rewrite Hm. cbn. by rewrite app_nil_r. }
  cbn [mbind outcome_bind]. destruct (merge_spec l s e) as [[k s'] e']. cbn [fst snd] in *.
  rewrite (slots_length _ _ Hok1), (slots_count _ _ Hok1).
  pose proof (slots_bound _ _ Hok1) as Hbound. case_decide as Hfull.
  { by rewrite decide_True by lia. }
  rewrite (decide_False (P:=(MAX_FREE_RANGES ≤ length k)%nat)) by lia.
  destruct (insert_sorted_split k (mkRegion s' e')) as (k1 & k2 & -> & Hins & Hf & Hh).
  match goal with |- context [while ?n ?g 0%nat] =>
    assert (while n g 0%nat = Ok (length k1)) as -> end.
  { apply (while_rule (λ i, i ≤ length k1)%nat (λ i, length k1 - i)%nat
      (λ o, o = Ok (length k1))); [|lia|rewrite length_app; lia].
    intros i Hi. destruct (decide (i = length k1)) as [->|Hne].
    - case_decide as Hlt; [|done]. destruct k2 as [|r k2]; [rewrite app_nil_r in Hlt; lia|].
      assert ((k1 ++ r :: k2) !! length k1 = Some r) as Hr
        by (rewrite lookup_app_r, Nat.sub_diag by lia; done).
      rewrite (get_at_Ok _ _ _ (slots_lookup _ _ _ _ Hok1 Hr)). cbn [mbind outcome_bind].
      rewrite decide_False; [done|]. by apply Hh.
    - rewrite length_app, decide_True by lia.
      destruct (lookup_lt_is_Some_2 k1 i) as [r Hr]; [lia|].
      assert ((k1 ++ k2) !! i = Some r) as Hr' by (rewrite lookup_app_l by lia; done).
      rewrite (get_at_Ok _ _ _ (slots_lookup _ _ _ _ Hok1 Hr')). cbn [mbind outcome_bind].
      rewrite decide_True; [lia|]. by apply (Forall_lookup_1 _ _ _ _ Hf Hr). }
  cbn [mbind outcome_bind]. rewrite length_app in *.
  destruct (shift_up_spec (E:=MemoryError) (regions a1) (length k1) (length k1 + length k2))
    as (rs & Hup & Hlen & Ht); [rewrite (slots_length _ _ Hok1); lia|].
  rewrite Hup. cbn [mbind outcome_bind].
  rewrite set_at_Ok by (rewrite Hlen, (slots_length _ _ Hok1); lia). cbn [mbind outcome_bind].
  eexists. split; [done|]. rewrite Hins.
  assert (take (length k1 + length k2) (regions a1) = k1 ++ k2) as Hlive.
  { pose proof (slots_live _ _ Hok1) as Hl. unfold live in Hl.
    by rewrite (slots_count _ _ Hok1), length_app in Hl. }
  split; cbn.
  - rewrite length_insert, Hlen. apply Hok1.
  - unfold live. cbn. rewrite Nat.add_1_r, Ht. f_equal; [|f_equal].
    + replace (length k1) with (length k1 `min` (length k1 + length k2))%nat at 1 by lia.
      by rewrite <-take_take, Hlive, take_app_length.
    + unfold sub. rewrite take_drop_commute.
      replace (length k1 + (length k1 + length k2 - length k1))%nat
        with (length k1 + length k2)%nat by lia.
      by rewrite Hlive, drop_app_length.
  - rewrite length_app. cbn. lia.
Qed.

(** ** Reservation *)

Lemma reserve_step_ok s e a l1 r l2 :
  slots_ok a (l1 ++ r :: l2) →
  match reserve_step s e (length l1, a) with
  | Ok (inl (i, a')) => ∃ l1', l1' = l1 ++ reserve_one s e r ∧ i = length l1' ∧
      slots_ok a' (l1' ++ l2)
  | Panic => MAX_FREE_RANGES = (length l1 + S (length l2))%nat ∧ length (reserve_one s e r) = 2%nat ∧
      s < end_ r ∧ e < end_ r
  | _ => False
  end.
Proof.
  intros Hok. pose proof (slots_bound _ _ Hok) as Hb. rewrite length_app in Hb. cbn in Hb.
  assert ((l1 ++ r :: l2) !! length l1 = Some r) as Hr
    by (rewrite lookup_app_r, Nat.sub_diag by lia; done).
  unfold reserve_step, reserve_one. rewrite (slots_count _ _ Hok), length_app, decide_True by (cbn; lia).
  rewrite (get_at_Ok _ _ _ (slots_lookup _ _ _ _ Hok Hr)). cbn [mbind outcome_bind].
  assert (∀ r', <[length l1 := r']> (l1 ++ r :: l2) = l1 ++ r' :: l2) as Hins.
  { intros r'. replace (length l1) with (length l1 + 0)%nat by lia. by rewrite insert_app_r. }
  assert (∀ r', ∃ rs, set_at (E:=MemoryError) (regions a) (length l1) r' = Ok rs ∧
    slots_ok (mkAllocator rs (count a)) (l1 ++ r' :: l2)) as Hset.
  { intros r'. rewrite set_at_Ok by (rewrite (slots_length _ _ Hok); lia). eexists. split; [done|].
    rewrite <-Hins. apply slots_insert; [done|]. rewrite length_app. cbn. lia. }
  rewrite (slots_count _ _ Hok), length_app in Hset.
  destruct (decide (end_ r ≤ s ∨ e ≤ start r)).
  { exists (l1 ++ [r]). rewrite <-app_assoc, length_app. cbn. split_and!; [done|lia|done]. }
  destruct (decide (s ≤ start r ∧ end_ r ≤ e)).
  { destruct (remove_region_ok _ _ l1 r l2 Hok eq_refl) as (a' & -> & Hok'). cbn.
    exists l1. by rewrite app_nil_r. }
  destruct (decide (s ≤ start r)).
  { destruct (Hset (mkRegion (Z.min e (end_ r)) (end_ r))) as (rs & -> & Hok'). cbn.
    eexists. split; [done|]. rewrite length_app, <-app_assoc. cbn. split; [lia|done]. }
  destruct (decide (end_ r ≤ e)).
  { destruct (Hset (mkRegion (start r) (Z.max s (start r)))) as (rs & -> & Hok'). cbn.
    eexists. split; [done|]. rewrite length_app, <-app_assoc. cbn. split; [lia|done]. }
  rewrite (slots_length _ _ Hok). case_decide as Hfull.
  { cbn in *. split_and!; [lia|done|lia|lia]. }
  destruct (Hset (mkRegion (start r) s)) as (rs & -> & Hok'). cbn [mbind outcome_bind].
  pose proof (slots_length _ _ Hok') as Hrs. cbn [regions] in Hrs. cbn [length] in *.
  destruct (shift_up_spec (E:=MemoryError) rs (S (length l1)) (length l1 + S (length l2)))
    as (rs' & -> & Hlen & Ht); [lia|]. cbn [mbind outcome_bind].
  rewrite set_at_Ok by lia. cbn [mbind outcome_bind].
  eexists. split; [done|]. rewrite length_app, <-app_assoc. cbn. split; [lia|].
  pose proof (slots_live _ _ Hok') as Hlive. unfold live in Hlive. cbn in Hlive.
  split; cbn.
  - by rewrite length_insert, Hlen.
  - unfold live. cbn. rewrite Nat.add_1_r, Ht.
    assert (take (S (length l1)) rs = l1 ++ [mkRegion (start r) s]) as ->.
    { replace (S (length l1)) with (S (length l1) `min` (length l1 + S (length l2)))%nat by lia.
      rewrite <-take_take, Hlive, cons_middle, app_assoc.
      apply take_app_length'. rewrite length_app. cbn. lia. }
    rewrite <-app_assoc. cbn. do 3 f_equal. unfold sub. rewrite take_drop_commute.
    replace (S (length l1) + (length l1 + S (length l2) - S (length l1)))%nat
      with (length l1 + S (length l2))%nat by lia.
    rewrite Hlive, cons_middle, app_assoc. apply drop_app_length'. rewrite length_app. cbn. lia.
  - rewrite length_app. cbn. lia.
Qed.

Lemma reserve_range_ok a l s e :
  slots_ok a l → canonical l → s < e →
  if decide (length (reserve_spec l s e) ≤ MAX_FREE_RANGES)%nat
  then ∃ a', reserve_range a s e = Ok a' ∧ slots_ok a' (reserve_spec l s e)
  else reserve_range a s e = Panic.
Proof.
  intros Hok Hcan Hse. unfold reserve_range. rewrite (decide_False (P:=e ≤ s)) by lia.
  apply (while_rule
    (λ '(i, a'), ∃ l1 l2, slots_ok a' (l1 ++ l2) ∧ i = length l1 ∧ canonical l2 ∧
      reserve_spec l s e = l1 ++ reserve_spec l2 s e)
    (λ '(i, a'), count a' - i)%nat
    (λ o, if decide (length (reserve_spec l s e) ≤ MAX_FREE_RANGES)%nat
      then ∃ a', o = Ok a' ∧ slots_ok a' (reserve_spec l s e) else o = Panic)); [| |lia].
  2: { by exists [], l. }
  intros [i a'] (l1 & l2 & Hok' & -> & Hc2 & Hspec). destruct l2 as [|r l2].
  - unfold reserve_step. rewrite app_nil_r in Hok'. rewrite (slots_count _ _ Hok').
    rewrite (decide_False (P:=(length l1 < length l1)%nat)) by lia.
    unfold reserve_spec in Hspec at 2. cbn in Hspec. rewrite app_nil_r in Hspec. rewrite Hspec.
    rewrite decide_True by (by eapply slots_bound). by exists a'.
  - apply canonical_cons in Hc2 as (Hr & Hf & Hc2).
    assert (reserve_spec (r :: l2) s e = reserve_one s e r ++ reserve_spec l2 s e) as Hcons by done.
    pose proof (reserve_step_ok s e a' l1 r l2 Hok') as Hstep.
    destruct (reserve_step s e (length l1, a')) as [[[i' a'']|]|?| |]; try done.
    + destruct Hstep as (l1' & -> & -> & Hok''). split.
      * exists (l1 ++ reserve_one s e r), l2. split_and!; try done. by rewrite Hspec, Hcons, app_assoc.
      * rewrite (slots_count _ _ Hok''), (slots_count _ _ Hok'), !length_app. cbn. lia.
    + destruct Hstep as (Hfull & Htwo & Hs & He). rewrite decide_False; [done|].
      rewrite Hspec, Hcons, reserve_spec_above.
      * rewrite Hfull, !length_app. cbn. lia.
      * eapply Forall_impl; [exact Hf|]. intros r' ?; cbn in *; lia.
Qed.

(** ** Freeing what was taken *)

Lemma covers_free_taken l l' page bytes :
  (∀ a, page ≤ a < page + bytes → covers l a) →
  (∀ a, covers l' a ↔ covers l a ∧ ¬ (page ≤ a < page + bytes)) →
  ∀ a, (page ≤ a < page + bytes ∨ covers l' a) ↔ covers l a.
Proof.
  intros Hin Hcov a. rewrite Hcov. specialize (Hin a).
  destruct (decide (page ≤ a < page + bytes)); naive_solver.
Qed.

(** Taking the low end of a range and giving it back never overflows the
    array: the freed range touches what is left, or a slot is free. *)
Lemma merge_room l s e :
  canonical l → 0 < s → s < e → e < 2 ^ 64 →
  (length (insert_spec l s e) ≤ MAX_FREE_RANGES)%nat →
  length (merge_spec l s e).1.1 ≠ MAX_FREE_RANGES.
Proof.
  intros Hl Hs Hse He Hlen. unfold insert_spec in Hlen.
  destruct (merge_spec l s e) as [[k s'] e']. cbn.
  destruct (insert_sorted_split k (mkRegion s' e')) as (k1 & k2 & -> & Hi & _).
  rewrite Hi in Hlen. rewrite length_app in *. cbn in Hlen. lia.
Qed.

Definition free (a : PhysicalAllocator) (addr : Z) : Prop := covers (live a) addr.

Lemma take_first_range l bytes page l' :
  canonical l → 0 < bytes → take_first bytes l = Some (page, l') → 0 < page ∧ page + bytes < 2 ^ 64.
Proof.
  intros Hl Hb. revert l'. induction l as [|r l IH]; intros l' Ht; [done|]. cbn in Ht.
  apply canonical_cons in Hl as ((H1 & H2 & H3) & _ & Hl). case_decide.
  - injection Ht as <- _. lia.
  - destruct (take_first bytes l) as [[p k]|]; [|done]. injection Ht as <- _. by eapply IH.
Qed.

Lemma allocate_spec f bytes a mem :
  alloc_ok a → 0 < bytes → takes bytes f →
  match allocate_with f bytes a mem with
  | Ok (page, a', mem') =>
      alloc_ok a' ∧ 0 < page ∧ page + bytes < 2 ^ 64 ∧
      (∀ x, page ≤ x < page + bytes → free a x) ∧
      (∀ x, free a' x ↔ free a x ∧ ¬ (page ≤ x < page + bytes)) ∧
      mem' = write_zeros mem page bytes
  | Err e => e = AllocatorExhausted ∧ Forall (λ r, end_ r - start r < bytes) (live a)
  | Panic | Hang => False
  end.
Proof.
  intros Hok Hb Hf. pose proof (alloc_canonical _ Hok) as Hcan.
  pose proof (allocate_with_ok f bytes bytes a _ mem (alloc_slots_ok _ Hok) Hcan Hb Hf) as Ha.
  pose proof (take_first_ok _ _ Hcan Hb) as Ht. pose proof (take_first_range (live a) bytes) as Hrange.
  destruct (take_first bytes (live a)) as [[page l']|].
  - destruct Ha as (a' & -> & Hok'). destruct Ht as (Hc & Hin & Hcov & _).
    destruct (Hrange page l' Hcan Hb eq_refl).
    unfold free. rewrite (slots_live _ _ Hok').
    split_and!; try done. by eapply slots_alloc_ok.
  - by rewrite Ha.
Qed.

Lemma insert_range_spec a s e :
  alloc_ok a → 0 < s → e < 2 ^ 64 →
  match insert_range a s e with
  | Ok a' => alloc_ok a' ∧ ∀ x, free a' x ↔ s ≤ x < e ∨ free a x
  | Panic => s < e ∧ count a = MAX_FREE_RANGES ∧
      Forall (λ r, end_ r < s ∨ e < start r) (live a)
  | Err _ | Hang => False
  end.
Proof.
  intros Hok Hs He. pose proof (alloc_canonical _ Hok) as Hcan.
  destruct (decide (s < e)) as [Hse|Hse].
  2: { unfold insert_range. rewrite decide_True by lia. split; [done|]. intros x. naive_solver lia. }
  pose proof (insert_range_ok a _ s e (alloc_slots_ok _ Hok) Hse) as Hi. case_decide as Hfull.
  - rewrite Hi. pose proof (merge_spec_ok _ s e Hcan Hs Hse He) as Hm.
    assert (length (live a) = count a) as Hlen by (by rewrite <-(slots_count _ _ (alloc_slots_ok _ Hok))).
    pose proof (alloc_count _ Hok).
    destruct (merge_spec (live a) s e) as [[k s'] e']. cbn in Hfull.
    destruct Hm as (Hsub & Hs' & He' & _ & Hsep & _ & _).
    assert (k = live a) as ->.
    { apply sublist_same_length; [done|lia]. }
    split_and!; [done|lia|]. eapply Forall_impl; [exact Hsep|]. intros r ?; cbn in *; lia.
  - destruct Hi as (a' & -> & Hok'). destruct (insert_spec_ok _ s e Hcan Hs Hse He) as [Hc Hcov].
    split; [by eapply slots_alloc_ok|]. intros x. unfold free. by rewrite (slots_live _ _ Hok').
Qed.

Lemma reserve_range_spec a s e :
  alloc_ok a →
  match reserve_range a s e with
  | Ok a' => alloc_ok a' ∧ ∀ x, free a' x ↔ free a x ∧ ¬ (s ≤ x < e)
  | Panic => s < e ∧ (MAX_FREE_RANGES < length (reserve_spec (live a) s e))%nat
  | Err _ | Hang => False
  end.
Proof.
  intros Hok. pose proof (alloc_canonical _ Hok) as Hcan.
  destruct (decide (s < e)) as [Hse|Hse].
  2: { unfold reserve_range. rewrite decide_True by lia. split; [done|]. intros x. naive_solver lia. }
  pose proof (reserve_range_ok a _ s e (alloc_slots_ok _ Hok) Hcan Hse) as Hr. case_decide.
  - destruct Hr as (a' & -> & Hok'). destruct (reserve_spec_ok _ s e Hcan Hse) as (Hc & Hcov & _).
    split; [by eapply slots_alloc_ok|]. intros x. unfold free. by rewrite (slots_live _ _ Hok').
  - rewrite Hr. split; [done|lia].
Qed.

Lemma allocator_new_ok : alloc_ok PhysicalAllocator_new.
Proof. split; cbn; [done|lia|apply canonical_nil]. Qed.

(** ** Counting ranges *)

(** Inserting adds at most one range. *)
Lemma insert_range_room a s e :
  alloc_ok a → 0 < s → s < e → e < 2 ^ 64 → (count a < MAX_FREE_RANGES)%nat →
  ∃ a', insert_range a s e = Ok a' ∧ alloc_ok a' ∧ (count a' ≤ S (count a))%nat ∧
    ∀ x, free a' x ↔ s ≤ x < e ∨ free a x.
Proof.
  intros Hok Hs Hse He Hc. pose proof (insert_range_spec a s e Hok Hs He) as H.
  pose proof (insert_range_ok a _ s e (alloc_slots_ok _ Hok) Hse) as Hi.
  destruct (insert_range a s e) as [a'| | |]; [|done|lia|done].
  destruct H as [Hok' Hf]. exists a'. split_and!; try done.
  case_decide; [done|]. destruct Hi as (a1 & [= <-] & Hsl).
  rewrite (slots_count _ _ Hsl), (slots_count _ _ (alloc_slots_ok _ Hok)).
  pose proof (length_merge_spec (live a) s e) as Hl. unfold insert_spec.
  destruct (merge_spec (live a) s e) as [[k s'] e']. cbn in Hl.
  destruct (insert_sorted_split k (mkRegion s' e')) as (k1 & k2 & -> & -> & _).
  rewrite !length_app in *. cbn. lia.
Qed.

(** Reserving adds at most one range: only one can be split. *)
Lemma length_reserve_spec l s e :
  canonical l → s < e → (length (reserve_spec l s e) ≤ S (length l))%nat.
Proof.
  intros Hc Hse. induction l as [|r l IH]; [cbn; lia|].
  apply canonical_cons in Hc as ((H1 & H2 & H3) & Hf & Hc). specialize (IH Hc).
  unfold reserve_spec in *. cbn [map concat]. rewrite length_app.
  destruct (decide (start r < s ∧ e < end_ r)) as [Hin|Hout].
  - assert (map (reserve_one s e) l = map (λ r, [r]) l) as ->.
    { apply map_ext_in. intros r' Hr'. apply list_elem_of_In in Hr'.
      rewrite Forall_forall in Hf. specialize (Hf r' Hr'). unfold reserve_one.
      by rewrite decide_True by lia. }
    assert (length (concat (map (λ r, [r]) l)) = length l) as ->
      by (clear; induction l; cbn; congruence).
    unfold reserve_one. repeat case_decide; cbn; lia.
  - assert (length (reserve_one s e r) ≤ 1)%nat; [|cbn; lia].
    unfold reserve_one. repeat case_decide; cbn; lia.
Qed.

Lemma reserve_range_room a s e :
  alloc_ok a → (count a < MAX_FREE_RANGES)%nat →
  ∃ a', reserve_range a s e = Ok a' ∧ alloc_ok a' ∧ ∀ x, free a' x ↔ free a x ∧ ¬ (s ≤ x < e).
Proof.
  intros Hok Hc. pose proof (reserve_range_spec a s e Hok) as H.
  destruct (reserve_range a s e) as [a'| | |]; [by exists a'|done| |done].
  destruct H as [Hse Hl]. pose proof (length_reserve_spec _ s e (alloc_canonical _ Hok) Hse).
  rewrite (slots_count _ _ (alloc_slots_ok _ Hok)) in Hc. lia.
Qed.

(** ** Pages *)

Lemma page_base_bounds va : page_base va ≤ va < page_base va + PAGE_SIZE.
Proof. unfold page_base, PAGE_SIZE. Z.div_mod_to_equations. lia. Qed.

Lemma page_base_unique va b : b mod PAGE_SIZE = 0 → b ≤ va < b + PAGE_SIZE → page_base va = b.
Proof. unfold page_base, PAGE_SIZE. intros. Z.div_mod_to_equations. lia. Qed.

Lemma page_base_mod va : page_base va mod PAGE_SIZE = 0.
Proof. apply Z.mod_mul. done. Qed.

Lemma align_page va : is_u64 va → align_down va PAGE_SIZE = page_base va.
Proof. intros. unfold PAGE_SIZE. by apply (align_down_pow2 va 12). Qed.

(** The free set is made of whole pages, below [limit]. *)
Record paged (limit : Z) (a : PhysicalAllocator) : Prop := {
  paged_ok : alloc_ok a;
  paged_granular : ∀ x, free a x ↔ free a (page_base x);
  paged_below : ∀ x, free a x → x < limit
}.

Lemma canonical_before l r : canonical l → r ∈ l → ¬ covers l (start r - 1).
Proof.
  induction l as [|q l IH]; intros Hc Hr; [by apply not_elem_of_nil in Hr|].
  apply canonical_cons in Hc as ((Hq1 & Hq2 & Hq3) & Hf & Hc). rewrite covers_cons.
  assert (∀ x, x ∈ l → end_ q < start x) as Hlt by (intros x Hx; rewrite Forall_forall in Hf; by apply Hf).
  apply elem_of_cons in Hr as [->|Hr].
  - intros [?|(x & Hx & ?)]; [lia|]. specialize (Hlt x Hx). lia.
  - specialize (IH Hc Hr). specialize (Hlt r Hr). intros [?|?]; [lia|done].
Qed.

Lemma take_first_start l bytes page l' :
  take_first bytes l = Some (page, l') → ∃ r, r ∈ l ∧ start r = page.
Proof.
  revert l'. induction l as [|r l IH]; intros l' Ht; [done|]. cbn in Ht. case_decide.
  - injection Ht as <- _. exists r. split; [by constructor|done].
  - destruct (take_first bytes l) as [[p k]|]; [|done]. injection Ht as <- _.
    destruct (IH k eq_refl) as (q & Hq & <-). exists q. split; [by constructor|done].
Qed.

Lemma page_base_eq x y : page_base x = page_base y ↔ page_base y ≤ x < page_base y + PAGE_SIZE.
Proof.
  split; [|intros; apply page_base_unique; [apply page_base_mod|done]].
  intros Heq. pose proof (page_base_bounds x). rewrite Heq in *. lia.
Qed.

Lemma paged_start limit a r : paged limit a → r ∈ live a → page_base (start r) = start r.
Proof.
  intros [Hok Hg _] Hr.
  pose proof (page_base_bounds (start r)) as Hb.
  destruct (decide (page_base (start r) = start r)) as [|Hne]; [done|exfalso].
  apply (canonical_before _ _ (alloc_canonical _ Hok) Hr). apply (Hg (start r - 1)).
  replace (page_base (start r - 1)) with (page_base (start r)).
  - apply (proj1 (Hg (start r))). destruct (alloc_canonical _ Hok) as [Hf _].
    rewrite Forall_forall in Hf. destruct (Hf _ Hr) as (? & ? & ?). exists r. split; [done|lia].
  - symmetry. apply page_base_eq. lia.
Qed.

Lemma page_has x page len :
  page mod PAGE_SIZE = 0 → len mod PAGE_SIZE = 0 →
  page ≤ x < page + len ↔ page ≤ page_base x < page + len.
Proof.
  intros Hm Hlen. pose proof (page_base_bounds x) as Hb. pose proof (page_base_mod x) as Hx.
  revert Hb Hx Hm Hlen. generalize (page_base x). unfold PAGE_SIZE. intros b ? ? ? ?.
  Z.div_mod_to_equations. lia.
Qed.

(** Taking pages out of the free set keeps it made of whole pages. *)
Lemma paged_take limit a a' page len :
  paged limit a → alloc_ok a' → page mod PAGE_SIZE = 0 → len mod PAGE_SIZE = 0 →
  (∀ x, free a' x ↔ free a x ∧ ¬ (page ≤ x < page + len)) → paged limit a'.
Proof.
  intros [Hok Hg Hl] Hok' Hm Hlen Hf. split; [done| |].
  - intros x. rewrite !Hf, (Hg x). by rewrite (page_has x page len).
  - intros x [Hx _]%Hf. by apply Hl.
Qed.

Lemma paged_give limit a a' page len :
  paged limit a → alloc_ok a' → page mod PAGE_SIZE = 0 → len mod PAGE_SIZE = 0 → page + len ≤ limit →
  (∀ x, free a' x ↔ page ≤ x < page + len ∨ free a x) → paged limit a'.
Proof.
  intros [Hok Hg Hl] Hok' Hm Hlen Hlim Hf. split; [done| |].
  - intros x. rewrite !Hf, (Hg x). by rewrite (page_has x page len).
  - intros x [Hx|Hx]%Hf; [lia|]. by apply Hl.
Qed.

(** Whole pages from an allocator made of whole pages. *)
Lemma allocate_paged_spec f len limit a mem :
  paged limit a → 0 < len → len mod PAGE_SIZE = 0 → takes len f →
  match allocate_with f len a mem with
  | Ok (page, a', mem') =>
      paged limit a' ∧ page mod PAGE_SIZE = 0 ∧ 0 < page ∧ page + len ≤ limit ∧
      (∀ x, page ≤ x < page + len → free a x) ∧
      (∀ x, free a' x ↔ free a x ∧ ¬ (page ≤ x < page + len)) ∧
      mem' = write_zeros mem page len
  | Err e => e = AllocatorExhausted
  | Panic | Hang => False
  end.
Proof.
  intros Hp Hlen Hm Hf. pose proof Hp as [Hok Hg Hl].
  pose proof (allocate_spec f len a mem Hok Hlen Hf) as H.
  pose proof (allocate_with_ok f len len a _ mem (alloc_slots_ok _ Hok) (alloc_canonical _ Hok) Hlen Hf) as Ht.
  destruct (allocate_with f len a mem) as [[[page a'] mem']|e| |]; [|by destruct H..].
  destruct H as (Hok' & Hp0 & _ & Hin & Hfr & ->).
  destruct (take_first len (live a)) as [[p l']|] eqn:Htf; [|done].
  destruct Ht as (a1 & Heq & _). injection Heq as -> _.
  destruct (take_first_start _ _ _ _ Htf) as (r & Hr & <-).
  assert (start r mod PAGE_SIZE = 0) as Hs
    by (rewrite <-(paged_start _ _ _ Hp Hr); apply page_base_mod).
  split_and!; try done.
  - by apply (paged_take limit a a' (start r) len).
  - specialize (Hl _ (Hin (start r + len - 1) ltac:(lia))). lia.
Qed.

(** One page, and several: what the allocator promises its clients. *)
Lemma allocate_page_spec limit a mem :
  paged limit a →
  match allocate_page a mem with
  | Ok (page, a', mem') =>
      paged limit a' ∧ page mod PAGE_SIZE = 0 ∧ 0 < page ∧ page + PAGE_SIZE ≤ limit ∧
      (∀ x, page ≤ x < page + PAGE_SIZE → free a x) ∧
      (∀ x, free a' x ↔ free a x ∧ ¬ (page ≤ x < page + PAGE_SIZE)) ∧
      mem' = write_zeros mem page PAGE_SIZE
  | Err e => e = AllocatorExhausted
  | Panic | Hang => False
  end.
Proof. intros Hp. by apply allocate_paged_spec; [|..|apply region_allocate_page_takes]. Qed.

Lemma allocate_pages_spec limit a mem count :
  paged limit a → 0 < count →
  match allocate_contiguous_pages a mem count with
  | Ok (page, a', mem') =>
      paged limit a' ∧ page mod PAGE_SIZE = 0 ∧ 0 < page ∧ page + count * PAGE_SIZE ≤ limit ∧
      (∀ x, page ≤ x < page + count * PAGE_SIZE → free a x) ∧
      (∀ x, free a' x ↔ free a x ∧ ¬ (page ≤ x < page + count * PAGE_SIZE)) ∧
      mem' = write_zeros mem page (count * PAGE_SIZE)
  | Err e => e = AllocatorExhausted
  | Panic | Hang => False
  end.
Proof.
  intros Hp Hc. apply allocate_paged_spec; [done|unfold PAGE_SIZE; lia|by apply Z.mod_mul|].
  by apply region_allocate_contiguous_takes.
Qed.

(** Freeing whole pages. *)
Lemma free_pages_spec limit a page count :
  paged limit a → page mod PAGE_SIZE = 0 → 0 < page → 0 < count →
  page + count * PAGE_SIZE ≤ limit → limit < 2 ^ 64 →
  match free_contiguous_pages a page count with
  | Ok a' => paged limit a' ∧ ∀ x, free a' x ↔ page ≤ x < page + count * PAGE_SIZE ∨ free a x
  | Panic => Allocator.count a = MAX_FREE_RANGES
  | Err _ | Hang => False
  end.
Proof.
  intros Hp Hm H0 Hc Hl Hlim. unfold free_contiguous_pages. rewrite (proj2 (Z.eqb_neq count 0)) by lia.
  assert (0 < count * PAGE_SIZE) by (unfold PAGE_SIZE; lia).
  rewrite (u64_small (count * PAGE_SIZE)), (u64_small (page + count * PAGE_SIZE)) by (unfold is_u64; lia).
  pose proof (insert_range_spec a page (page + count * PAGE_SIZE) (paged_ok _ _ Hp) H0 ltac:(lia)) as Hi.
  destruct (insert_range a page (page + count * PAGE_SIZE)) as [a'| | |]; try done; [|by destruct Hi as (_ & ? & _)].
  destruct Hi as [Hok Hf]. split; [|done]. apply (paged_give limit a a' page (count * PAGE_SIZE)); try done. by apply Z.mod_mul.
Qed.

(** ** First fit *)

(** Free bytes in a row lie in one range. *)
Lemma covers_block l q bytes :
  canonical l → 0 < bytes → (∀ x, q ≤ x < q + bytes → covers l x) → ∃ r, r ∈ l ∧ start r ≤ q ∧ q + bytes ≤ end_ r.
Proof.
  intros Hl Hb. induction l as [|r l IH]; intros Hq; [by destruct (covers_nil q); apply Hq; lia|].
  apply canonical_cons in Hl as (_ & Hf & Hl).
  assert (∀ x, covers l x → end_ r < x) as Ha by (intros; by eapply covers_above).
  pose proof (Hq q ltac:(lia)) as [Hr|Hr]%covers_cons.
  - exists r. split; [by constructor|]. split; [lia|]. destruct (decide (q + bytes ≤ end_ r)) as [|Hn]; [done|].
    pose proof (Hq (end_ r) ltac:(lia)) as [?|?%Ha]%covers_cons; lia.
  - destruct IH as (r' & ? & ?); [done| |exists r'; split; [by constructor|done]].
    intros x Hx. apply Ha in Hr. pose proof (Hq x Hx) as [?|?]%covers_cons; [lia|done].
Qed.

(** The first range that is long enough is the lowest. *)
Lemma take_first_lowest l bytes page l' r :
  canonical l → take_first bytes l = Some (page, l') → r ∈ l → start r + bytes ≤ end_ r → page ≤ start r.
Proof.
  revert l'. induction l as [|r0 l IH]; intros l' Hl Ht Hr Hfit; [done|].
  apply canonical_cons in Hl as ((_ & ? & _) & Hf & Hl). cbn in Ht. apply elem_of_cons in Hr as [->|Hr]; case_decide; try lia.
  - injection Ht as <- _. lia.
  - injection Ht as <- _. rewrite Forall_forall in Hf. specialize (Hf _ Hr). lia.
  - destruct (take_first bytes l) as [[p k]|] eqn:Hk; [|done]. injection Ht as <- _. by eapply IH.
Qed.

(** What the allocation of [bytes] bytes promises; [block q] says that [q] is
    the start of as many free bytes. *)
Lemma allocate_first_fit f len a mem bytes :
  alloc_ok a → 0 < bytes → takes bytes f →
  let block q := ∀ x, q ≤ x < q + bytes → free a x in
  match allocate_with f len a mem with
  | Ok (page, _, _) => block page ∧ ∀ q, block q → page ≤ q
  | Err e => e = AllocatorExhausted ∧ ∀ q, ¬ block q
  | Panic | Hang => False
  end.
Proof.
  intros Hok Hb Hf block. pose proof (alloc_canonical _ Hok) as Hcan.
  pose proof (allocate_with_ok f bytes len a _ mem (alloc_slots_ok _ Hok) Hcan Hb Hf) as Ha.
  pose proof (take_first_ok _ _ Hcan Hb) as Ht.
  assert (∀ q, block q → ∃ r, r ∈ live a ∧ start r ≤ q ∧ q + bytes ≤ end_ r) as Hblock by (intros q; by apply covers_block).
  destruct (take_first bytes (live a)) as [[page l']|] eqn:Hfirst.
  - destruct Ha as (a' & -> & _). destruct Ht as (_ & Hpage & _). split; [exact Hpage|]. intros q (r & Hr & ? & ?)%Hblock.
    pose proof (take_first_lowest _ _ _ _ r Hcan Hfirst Hr ltac:(lia)). lia.
  - rewrite Ha. split; [done|]. intros q (r & Hr & ? & ?)%Hblock. rewrite Forall_forall in Ht. specialize (Ht _ Hr). lia.
Qed.

(** No range is as long as the address space. *)
Lemma region_allocate_none_takes : takes (2 ^ 64) (λ r, region_allocate_contiguous_pages r 0).
Proof. intros r (? & ? & ?). rewrite decide_False by lia. done. Qed.

(** * Properties *)

(** C36. [allocate_contiguous_pages] is first fit on the set of free bytes: it
    returns the start of the lowest block of [count] pages that is free from
    end to end, takes exactly this block out of the set and fills exactly it
    with zeros; it fails, with [AllocatorExhausted], exactly when there is no
    such block or no page is asked for.  It neither panics nor runs for ever,
    and the list of ranges stays canonical.  On an allocator of whole pages
    below some limit (as the memory map leaves it) the block is aligned to a
    page and below the limit, and the allocator remains one of whole pages. *)
Theorem allocate_contiguous_spec a mem count :
  alloc_ok a → 0 ≤ count →
  let bytes := count * PAGE_SIZE in
  let block q := 0 < count ∧ ∀ x, q ≤ x < q + bytes → free a x in
  match allocate_contiguous_pages a mem count with
  | Ok (page, a', mem') =>
      alloc_ok a' ∧ 0 < page ∧ page + bytes < 2 ^ 64 ∧ block page ∧ (∀ q, block q → page ≤ q) ∧
      (∀ x, free a' x ↔ free a x ∧ ¬ (page ≤ x < page + bytes)) ∧
      mem' = write_zeros mem page bytes ∧
      ∀ limit, paged limit a → paged limit a' ∧ page mod PAGE_SIZE = 0 ∧ page + bytes ≤ limit
  | Err e => e = AllocatorExhausted ∧ ∀ q, ¬ block q
  | Panic | Hang => False
  end.
Proof.
  intros Hok Hc bytes block. destruct (decide (count = 0)) as [->|Hne].
  { pose proof (allocate_with_ok _ (2 ^ 64) bytes a _ mem (alloc_slots_ok _ Hok) (alloc_canonical _ Hok) ltac:(lia) region_allocate_none_takes) as Ha.
    pose proof (take_first_range (live a) (2 ^ 64)) as Hr. unfold allocate_contiguous_pages.
    destruct (take_first (2 ^ 64) (live a)) as [[page l']|].
    - pose proof (Hr page l' (alloc_canonical _ Hok) ltac:(lia) eq_refl). lia.
    - change (0 * PAGE_SIZE) with bytes. rewrite Ha. split; [done|]. intros q [? _]. lia. }
  assert (0 < bytes) as Hb by (unfold bytes, PAGE_SIZE; lia).
  assert (takes bytes (λ r, region_allocate_contiguous_pages r count)) as Hf by (apply region_allocate_contiguous_takes; lia).
  pose proof (allocate_first_fit _ bytes a mem bytes Hok Hb Hf) as Hfit. cbv zeta in Hfit.
  pose proof (allocate_spec _ bytes a mem Hok Hb Hf) as Hs.
  assert (∀ limit, paged limit a → _) as Hp by (intros limit Hl; exact (allocate_pages_spec limit a mem count Hl ltac:(lia))).
  unfold allocate_contiguous_pages in *. fold bytes in Hp |- *.
  destruct (allocate_with _ bytes a mem) as [[[page a'] mem']|e| |]; try done.
  - destruct Hs as (? & ? & ? & ? & ? & ?), Hfit as [? Hlow]. split_and!; try done; [by split; [lia|]|intros q [_ ?]; by apply Hlow|].
    intros limit Hl. by destruct (Hp limit Hl) as (? & ? & _ & ? & _).
  - destruct Hfit as [-> Hn]. split; [done|]. intros q [_ ?]. by apply (Hn q).
Qed.

(** A hole of one page below four free pages. *)
Definition sample_holes : PhysicalAllocator :=
  mkAllocator (mkRegion 0x1000 0x2000 :: mkRegion 0x4000 0x8000 :: replicate 126 PhysicalRegion_empty) 2.

Lemma sample_holes_ok : alloc_ok sample_holes.
Proof.
  split; [reflexivity|unfold MAX_FREE_RANGES; cbn; lia|]. apply canonical_cons. split; [by split_and!|]. split; [by repeat constructor|].
  apply canonical_cons. split; [by split_and!|]. split; [constructor|apply canonical_nil].
Qed.

Lemma sample_holes_paged : paged 0x8000 sample_holes.
Proof.
  assert (∀ x, free sample_holes x ↔ 0x1000 ≤ x < 0x2000 ∨ 0x4000 ≤ x < 0x8000) as Hfree.
  { intros x. unfold free. change (live sample_holes) with [mkRegion 0x1000 0x2000; mkRegion 0x4000 0x8000].
    rewrite !covers_cons. cbn [start end_]. split; [intros [?|[?|[]%covers_nil]]; auto|naive_solver]. }
  split; [exact sample_holes_ok| |intros x [?|?]%Hfree; lia].
  intros x. rewrite !Hfree. unfold page_base, PAGE_SIZE. Z.div_mod_to_equations. lia.
Qed.

(** Two pages do not fit the hole; five fit nowhere. *)
Lemma allocate_contiguous_spec_witness :
  match allocate_contiguous_pages sample_holes (λ _, 1) 2 with
  | Ok (page, a', mem') => page = 0x4000 ∧ page mod PAGE_SIZE = 0 ∧ ¬ free a' 0x5fff ∧ free a' 0x1000 ∧ mem' 0x5fff = 0 ∧ mem' 0x6000 = 1
  | _ => False
  end ∧ allocate_contiguous_pages sample_holes (λ _, 1) 5 = Err AllocatorExhausted.
Proof.
  split.
  - pose proof (allocate_contiguous_spec sample_holes (λ _, 1) 2 sample_holes_ok ltac:(lia)) as H. cbv zeta in H.
    assert (match allocate_contiguous_pages sample_holes (λ _, 1) 2 with Ok (page, _, _) => page =? 0x4000 | _ => false end = true) as Hok
      by (vm_compute; reflexivity).
    destruct (allocate_contiguous_pages sample_holes (λ _, 1) 2) as [[[page a'] mem']|e| |]; try discriminate Hok.
    apply Z.eqb_eq in Hok as ->. destruct H as (_ & _ & _ & _ & _ & Hfree & -> & Hp). split; [reflexivity|].
    split; [exact (proj1 (proj2 (Hp 0x8000 sample_holes_paged)))|]. rewrite !Hfree. unfold PAGE_SIZE.
    split; [intros [_ Hn]; apply Hn; lia|]. split; [|split; [vm_compute; reflexivity|vm_compute; reflexivity]].
    split; [exists (mkRegion 0x1000 0x2000); split; [left|cbn; lia]|lia].
  - pose proof (allocate_contiguous_spec sample_holes (λ _, 1) 5 sample_holes_ok ltac:(lia)) as H. cbv zeta in H.
    assert (is_Ok (allocate_contiguous_pages sample_holes (λ _, 1) 5) = false) as Hok by (vm_compute; reflexivity).
    destruct (allocate_contiguous_pages sample_holes (λ _, 1) 5) as [[[page a'] mem']|e| |];
      [discriminate Hok|destruct H as [-> _]; reflexivity|destruct H|destruct H].
Defined.

(** [insert_range] (used by [add_region] and the freeing functions) adds
    exactly the range to the free set, merging overlapping and adjacent
    ranges so that the array stays canonical; it panics only on a full array
    none of whose ranges touches the new one. *)
Theorem insert_range_adds a s e :
  alloc_ok a → 0 < s → e < 2 ^ 64 →
  match insert_range a s e with
  | Ok a' => alloc_ok a' ∧ ∀ x, free a' x ↔ s ≤ x < e ∨ free a x
  | Panic => s < e ∧ count a = MAX_FREE_RANGES ∧
      Forall (λ r, end_ r < s ∨ e < start r) (live a)
  | Err _ | Hang => False
  end.
Proof. apply insert_range_spec. Qed.

Lemma insert_range_adds_witness :
  match insert_range PhysicalAllocator_new 0x1000 0x5000 with
  | Ok a' => free a' 0x4fff ∧ ¬ free a' 0x5000
  | _ => False
  end.
Proof.
  pose proof (insert_range_adds PhysicalAllocator_new 0x1000 0x5000 allocator_new_ok
    ltac:(reflexivity) ltac:(reflexivity)) as H.
  destruct (insert_range PhysicalAllocator_new 0x1000 0x5000) as [a'|e| |] eqn:He;
    [|exfalso; vm_compute in He; discriminate..].
  destruct H as [_ H]. rewrite !H. split; [left; lia|].
  intros [?|Hf]; [lia|]. exact (covers_nil _ Hf).
Defined.

(** [reserve_range] removes exactly the range from the free set, cutting
    and splitting free ranges as needed, and keeps the array canonical; it
    panics only if a split needs a slot that a full array does not have. *)
Theorem reserve_range_removes a s e :
  alloc_ok a →
  match reserve_range a s e with
  | Ok a' => alloc_ok a' ∧ ∀ x, free a' x ↔ free a x ∧ ¬ (s ≤ x < e)
  | Panic => s < e ∧ (MAX_FREE_RANGES < length (reserve_spec (live a) s e))%nat
  | Err _ | Hang => False
  end.
Proof. apply reserve_range_spec. Qed.

Lemma reserve_range_removes_witness :
  match reserve_range PhysicalAllocator_new 0x1000 0x5000 with
  | Ok a' => ¬ free a' 0x2000
  | _ => False
  end.
Proof.
  pose proof (reserve_range_removes PhysicalAllocator_new 0x1000 0x5000 allocator_new_ok) as H.
  destruct (reserve_range PhysicalAllocator_new 0x1000 0x5000) as [a'|e| |] eqn:He;
    [|exfalso; vm_compute in He; discriminate..].
  destruct H as [_ H]. rewrite H. intros [_ Hn]. apply Hn. lia.
Defined.

(** Allocating a block and freeing it again never panics, whatever the
    fragmentation, and restores the allocator's list of free ranges exactly:
    no page leaks, and the array does not fragment. *)
Theorem allocate_free_restores a mem count page a1 mem1 :
  alloc_ok a → 0 < count →
  allocate_contiguous_pages a mem count = Ok (page, a1, mem1) →
  ∃ a2, free_contiguous_pages a1 page count = Ok a2 ∧ alloc_ok a2 ∧ live a2 = live a.
Proof.
  intros Hok Hc Hal. set (bytes := count * PAGE_SIZE).
  assert (0 < bytes) as Hb by (unfold bytes, PAGE_SIZE; lia).
  pose proof (allocate_spec _ bytes a mem Hok Hb (region_allocate_contiguous_takes count Hc)) as Hspec.
  unfold allocate_contiguous_pages in Hal. fold bytes in Hal. rewrite Hal in Hspec.
  destruct Hspec as (Hok1 & Hp & Hpb & Hin & Hcov & _).
  unfold free_contiguous_pages. rewrite (proj2 (Z.eqb_neq count 0)) by lia. fold bytes.
  rewrite (u64_small bytes), (u64_small (page + bytes)) by (unfold is_u64; lia).
  pose proof (alloc_canonical _ Hok1) as Hcan1.
  destruct (insert_spec_ok (live a1) page (page + bytes) Hcan1 Hp ltac:(lia) Hpb) as [Hc2 Hcov2].
  assert (insert_spec (live a1) page (page + bytes) = live a) as Heq.
  { apply canonical_unique; [done|apply Hok|]. intros x. rewrite Hcov2.
    by apply covers_free_taken. }
  pose proof (insert_range_ok a1 _ page (page + bytes) (alloc_slots_ok _ Hok1) ltac:(lia)) as Hi.
  rewrite decide_False in Hi.
  - destruct Hi as (a2 & -> & Hok2). rewrite Heq in Hok2. exists a2.
    split_and!; [done|eapply slots_alloc_ok; [done|apply Hok]|apply Hok2].
  - apply merge_room; try done; [lia|]. rewrite Heq.
    rewrite <-(slots_count _ _ (alloc_slots_ok _ Hok)). apply Hok.
Qed.

(** An allocator with 16 KiB free at 16 MiB. *)
Definition sample_allocator : PhysicalAllocator :=
  mkAllocator (mkRegion 0x1000000 0x1004000 :: replicate 127 PhysicalRegion_empty) 1.

Lemma sample_allocator_ok :
  slots_ok sample_allocator [mkRegion 0x1000000 0x1004000] ∧
  canonical [mkRegion 0x1000000 0x1004000].
Proof.
  split; [by split|]. apply canonical_cons.
  split_and!; [unfold region_ok; cbn; lia|constructor|apply canonical_nil].
Qed.

Lemma allocate_free_restores_witness :
  ∃ a1 mem1, allocate_contiguous_pages sample_allocator (λ _, 1) 3 = Ok (0x1000000, a1, mem1) ∧
    ∃ a2, free_contiguous_pages a1 0x1000000 3 = Ok a2 ∧ live a2 = live sample_allocator.
Proof.
  destruct sample_allocator_ok as [Hs Hc].
  destruct (allocate_with_ok (λ r, region_allocate_contiguous_pages r 3) (3 * PAGE_SIZE)
    (3 * PAGE_SIZE) sample_allocator _ (λ _, 1) Hs Hc ltac:(reflexivity)
    (region_allocate_contiguous_takes 3 ltac:(reflexivity))) as (a1 & Hal & _).
  exists a1. eexists. split; [exact Hal|].
  destruct (allocate_free_restores sample_allocator (λ _, 1) 3 _ a1 _
    (slots_alloc_ok _ _ Hs Hc) ltac:(reflexivity) Hal) as (a2 & Hf & _ & Hl).
  exists a2. split; [exact Hf|exact Hl].
Defined.
