(* ===== verification/ElfFile.v ===== *)
(** * ELF images ([libs/elf/src/lib.rs])

    The header checks, the program-header iterator and the program-header
    accessors.  The iterator stops silently on arithmetic overflow or a short
    slice; after a successful header parse neither can happen. *)

From S2P Require Import Prelude Bytes Errors.

Local Open Scope Z_scope.

Definition PT_LOAD : Z := 1.
Definition PF_W : Z := 2.
Definition ELF_MAGIC : list Z := [0x7f; 0x45; 0x4c; 0x46].
Definition ELF_CLASS_64 : Z := 2.
Definition ELF_DATA_LE : Z := 1.
Definition ELF_MACHINE_X86_64 : Z := 0x3e.
Definition ELF_TYPE_EXECUTABLE : Z := 2.
Definition ELF_HEADER_SIZE : nat := 64.
Definition ELF_PROGRAM_HEADER_SIZE : nat := 56.

Abbreviation res := (outcome ElfError).

(** A [usize] field of the header is a [Z] below 2^64. *)
Record ElfHeader := mkElfHeader {
  entry : Z;
  program_header_offset : Z;
  program_header_entry_size : Z;
  program_header_count : Z
}.

Record ProgramHeader := mkProgramHeader {
  kind : Z;
  flags : Z;
  offset : Z;
  virtual_address : Z;
  physical_address : Z;
  file_size : Z;
  memory_size : Z
}.

#[export] Instance ProgramHeader_eq_dec : EqDecision ProgramHeader.
Proof. solve_decision. Defined.

(** ** Parsing *)

Definition ElfHeader_parse (bytes : list Z) : res ElfHeader :=
  if decide (length bytes < ELF_HEADER_SIZE)%nat then Err HeaderTooSmall else
  magic ← slice bytes 0 4;
  if decide (magic ≠ ELF_MAGIC) then Err InvalidMagic else
  b4 ← get_at bytes 4;
  if decide (b4 ≠ ELF_CLASS_64) then Err UnsupportedClass else
  b5 ← get_at bytes 5;
  if decide (b5 ≠ ELF_DATA_LE) then Err UnsupportedEncoding else
  b6 ← get_at bytes 6;
  if decide (b6 ≠ 1) then Err UnsupportedVersion else
  ty ← read_le_u16 bytes 16;
  if decide (ty ≠ ELF_TYPE_EXECUTABLE) then Err UnsupportedType else
  machine ← read_le_u16 bytes 18;
  if decide (machine ≠ ELF_MACHINE_X86_64) then Err UnsupportedMachine else
  version ← read_le_u32 bytes 20;
  if decide (version ≠ 1) then Err UnsupportedVersion else
  program_header_offset ← read_le_u64 bytes 32;
  program_header_entry_size ← read_le_u16 bytes 54;
  program_header_count ← read_le_u16 bytes 56;
  table_size ← ok_or (checked_mul program_header_entry_size program_header_count) AddressOutOfRange;
  table_end ← ok_or (checked_add program_header_offset table_size) AddressOutOfRange;
  if decide (Z.of_nat (length bytes) < table_end) then Err ProgramHeaderTableOutOfRange else
  entry ← read_le_u64 bytes 24;
  Ok (mkElfHeader entry program_header_offset program_header_entry_size program_header_count).

Definition ProgramHeader_parse (bytes : list Z) : res ProgramHeader :=
  if decide (length bytes < ELF_PROGRAM_HEADER_SIZE)%nat then Err ProgramHeaderTruncated else
  kind ← read_le_u32 bytes 0;
  flags ← read_le_u32 bytes 4;
  offset ← read_le_u64 bytes 8;
  virtual_address ← read_le_u64 bytes 16;
  physical_address ← read_le_u64 bytes 24;
  file_size ← read_le_u64 bytes 32;
  memory_size ← read_le_u64 bytes 40;
  Ok (mkProgramHeader kind flags offset virtual_address physical_address file_size memory_size).

Record ElfImage := mkElfImage { image_bytes : list Z; header : ElfHeader }.

Definition ElfImage_parse (bytes : list Z) : res ElfImage :=
  header ← ElfHeader_parse bytes; Ok (mkElfImage bytes header).

Definition entry_point (image : ElfImage) : Z := entry (header image).

(** ** The iterator *)

Record ProgramHeaderIter := mkIter {
  it_bytes : list Z;
  it_next : Z;
  it_count : Z;
  table_offset : Z;
  entry_size : Z
}.

Definition program_headers (image : ElfImage) : ProgramHeaderIter :=
  mkIter (image_bytes image) 0 (program_header_count (header image))
    (program_header_offset (header image)) (program_header_entry_size (header image)).

(** The answer and the iterator; the counter moves before the checks that can
    end the iteration. *)
Definition next (it : ProgramHeaderIter) : option (res ProgramHeader) * ProgramHeaderIter :=
  if decide (it_count it ≤ it_next it) then (None, it)
  else
    let index := it_next it in
    let it := mkIter (it_bytes it) ((index + 1) mod 2 ^ 16) (it_count it)
                (table_offset it) (entry_size it) in
    (rel ← checked_mul index (entry_size it);
     offset ← checked_add (table_offset it) rel;
     end_ ← checked_add offset (entry_size it);
     bytes ← get_rangeZ (it_bytes it) offset end_;
     Some (ProgramHeader_parse bytes), it).

(** Everything a [for] loop over the iterator sees. *)
Fixpoint collect (fuel : nat) (it : ProgramHeaderIter) : list (res ProgramHeader) :=
  match fuel with
  | O => []
  | S fuel =>
      match next it with
      | (Some h, it) => h :: collect fuel it
      | (None, _) => []
      end
  end.

Definition headers_of (image : ElfImage) : list (res ProgramHeader) :=
  collect (S (Z.to_nat (program_header_count (header image)))) (program_headers image).

(** ** Accessors *)

Definition file_range (h : ProgramHeader) (file_len : Z) : res (Z * Z) :=
  let start := offset h in
  let len := file_size h in
  end_ ← ok_or (checked_add start len) AddressOutOfRange;
  if decide (file_len < end_) then Err SegmentExtendsPastFile else Ok (start, end_).

Definition load_address (h : ProgramHeader) : res Z :=
  let address := if negb (physical_address h =? 0) then physical_address h else virtual_address h in
  if address =? 0 then Err ZeroLoadAddress else Ok address.

(** ** Specification: the layout of the file format *)

Definition encode_program_header (h : ProgramHeader) : list Z :=
  to_le_bytes 4 (kind h) ++ to_le_bytes 4 (flags h) ++ to_le_bytes 8 (offset h) ++
  to_le_bytes 8 (virtual_address h) ++ to_le_bytes 8 (physical_address h) ++
  to_le_bytes 8 (file_size h) ++ to_le_bytes 8 (memory_size h) ++ replicate 8 0.

Definition encode_header (entry : Z) (n : nat) : list Z :=
  ELF_MAGIC ++ [ELF_CLASS_64; ELF_DATA_LE; 1] ++ replicate 9 0 ++
  to_le_bytes 2 ELF_TYPE_EXECUTABLE ++ to_le_bytes 2 ELF_MACHINE_X86_64 ++ to_le_bytes 4 1 ++
  to_le_bytes 8 entry ++ to_le_bytes 8 64 ++ to_le_bytes 8 0 ++ to_le_bytes 4 0 ++
  to_le_bytes 2 64 ++ to_le_bytes 2 56 ++ to_le_bytes 2 (Z.of_nat n) ++ replicate 6 0.

Definition encode_elf (entry : Z) (hs : list ProgramHeader) (payload : list Z) : list Z :=
  encode_header entry (length hs) ++ concat (map encode_program_header hs) ++ payload.

Definition header_fits (h : ProgramHeader) : Prop :=
  0 ≤ kind h < 2 ^ 32 ∧ 0 ≤ flags h < 2 ^ 32 ∧ is_u64 (offset h) ∧ is_u64 (virtual_address h) ∧
  is_u64 (physical_address h) ∧ is_u64 (file_size h) ∧ is_u64 (memory_size h).

(** * Lemmas *)

Lemma get_rangeZ_Some bytes a b :
  0 ≤ a → a ≤ b ≤ Z.of_nat (length bytes) →
  get_rangeZ bytes a b = Some (sub bytes (Z.to_nat a) (Z.to_nat b)).
Proof. intros. unfold get_rangeZ. by rewrite decide_True by lia. Qed.

(** A little-endian field of a buffer that starts with [p] and the field. *)
Lemma read_field {E} n (f : list Z → nat → outcome E Z) p v s :
  (∀ bytes o, f bytes o = (t ← slice bytes o (o + n)%nat; Ok (from_le_bytes t))) →
  0 ≤ v < 256 ^ Z.of_nat n →
  f (p ++ to_le_bytes n v ++ s) (length p) = Ok v.
Proof.
  intros Hf Hv. rewrite Hf. rewrite slice_Ok by (rewrite ?length_app, ?length_to_le_bytes; lia).
  cbn [mbind outcome_bind]. rewrite <-(length_to_le_bytes n v) at 2. rewrite sub_app_middle.
  by rewrite from_to_le_bytes.
Qed.

Lemma u64_le8 v : is_u64 v → 0 ≤ v < 256 ^ Z.of_nat 8.
Proof. unfold is_u64. change (256 ^ Z.of_nat 8) with (2 ^ 64). lia. Qed.

(** ** The iterator visits every header *)

(** The bytes of the [i]th entry of the table. *)
Definition entry_bytes (bytes : list Z) (off es : Z) (i : nat) : list Z :=
  sub bytes (Z.to_nat (off + Z.of_nat i * es)) (Z.to_nat (off + Z.of_nat i * es + es)).

Lemma next_ok bytes off es count (i : nat) :
  0 ≤ off → 0 ≤ es → Z.of_nat i < count → count < 2 ^ 16 →
  off + es * count < 2 ^ 64 → off + es * count ≤ Z.of_nat (length bytes) →
  next (mkIter bytes (Z.of_nat i) count off es) =
    (Some (ProgramHeader_parse (entry_bytes bytes off es i)),
     mkIter bytes (Z.of_nat (S i)) count off es).
Proof.
  intros Ho He Hi Hc H64 Hlen. unfold next. cbn [it_count it_next it_bytes table_offset entry_size].
  rewrite decide_False by lia.
  assert (Z.of_nat i * es + es ≤ es * count) as Hle by nia.
  assert (0 ≤ Z.of_nat i * es) by nia.
  unfold checked_mul, checked_add.
  rewrite (decide_True (P:=Z.of_nat i * es < 2 ^ 64)) by lia. cbn [mbind option_bind].
  rewrite (decide_True (P:=off + Z.of_nat i * es < 2 ^ 64)) by lia. cbn [mbind option_bind].
  rewrite decide_True by lia. cbn [mbind option_bind].
  rewrite get_rangeZ_Some by lia. cbn [mbind option_bind].
  do 2 f_equal. rewrite Z.mod_small by lia. lia.
Qed.

Lemma collect_ok bytes off es count fuel (i : nat) :
  0 ≤ off → 0 ≤ es → 0 ≤ count < 2 ^ 16 →
  off + es * count < 2 ^ 64 → off + es * count ≤ Z.of_nat (length bytes) →
  (Z.to_nat count - i < fuel)%nat →
  collect fuel (mkIter bytes (Z.of_nat i) count off es) =
    map (λ j, ProgramHeader_parse (entry_bytes bytes off es j)) (seq i (Z.to_nat count - i)).
Proof.
  intros Ho He Hc H64 Hlen. revert i. induction fuel as [|fuel IH]; intros i Hf; [lia|].
  cbn [collect]. destruct (decide (Z.of_nat i < count)) as [Hlt|Hge].
  - rewrite next_ok by (done || lia). rewrite IH by lia.
    replace (Z.to_nat count - i)%nat with (S (Z.to_nat count - S i)) by lia. done.
  - unfold next. cbn [it_count it_next]. rewrite decide_True by lia.
    by replace (Z.to_nat count - i)%nat with 0%nat by lia.
Qed.

(** What a successful header parse guarantees about the table. *)
Lemma ElfHeader_parse_table bytes h :
  bytes_ok bytes → ElfHeader_parse bytes = Ok h →
  is_u64 (program_header_offset h) ∧ 0 ≤ program_header_entry_size h < 2 ^ 16 ∧
  0 ≤ program_header_count h < 2 ^ 16 ∧
  program_header_offset h + program_header_entry_size h * program_header_count h < 2 ^ 64 ∧
  program_header_offset h + program_header_entry_size h * program_header_count h
    ≤ Z.of_nat (length bytes).
Proof.
  intros Hb. unfold ElfHeader_parse. case_decide as Hlen; [done|].
  unfold ELF_HEADER_SIZE in Hlen. rewrite slice_Ok by lia. cbn [mbind outcome_bind].
  intros Hp.
  repeat match type of Hp with
    | (if decide _ then _ else _) = _ => case_decide; [done|]
    | (get_at _ _ ≫= _) = _ => apply bind_Ok in Hp as (? & _ & Hp)
    | (read_le_u16 _ _ ≫= _) = _ => rewrite read_le_u16_returns in Hp by lia; cbn [mbind outcome_bind] in Hp
    | (read_le_u32 _ _ ≫= _) = _ => rewrite read_le_u32_returns in Hp by lia; cbn [mbind outcome_bind] in Hp
    | (read_le_u64 _ _ ≫= _) = _ => rewrite read_le_u64_returns in Hp by lia; cbn [mbind outcome_bind] in Hp
  end.
  apply bind_Ok in Hp as (ts & [-> _]%ok_or_Ok%checked_mul_Some & Hp).
  apply bind_Ok in Hp as (te & [-> Hte]%ok_or_Ok%checked_add_Some & Hp).
  case_decide; [done|]. injection Hp as <-.
  cbn [program_header_offset program_header_entry_size program_header_count].
  pose proof (from_le_bytes_bound _ (bytes_ok_sub bytes 32 40 Hb)) as Hf1.
  pose proof (from_le_bytes_bound _ (bytes_ok_sub bytes 54 56 Hb)) as Hf2.
  pose proof (from_le_bytes_bound _ (bytes_ok_sub bytes 56 58 Hb)) as Hf3.
  rewrite length_sub in Hf1, Hf2, Hf3 by lia. cbn -[Z.pow] in *. unfold is_u64. lia.
Qed.

(** ** Any bytes: an answer or an error, and fields in range *)

Lemma ElfImage_parse_returns bytes : returns (ElfImage_parse bytes).
Proof.
  unfold ElfImage_parse, ElfHeader_parse. unfold ELF_HEADER_SIZE.
  repeat first
    [ exact I | progress cbn [mbind outcome_bind] | case_decide
    | rewrite slice_Ok by lia | rewrite read_le_u16_returns by lia
    | rewrite read_le_u32_returns by lia | rewrite read_le_u64_returns by lia
    | match goal with |- context [ get_at ?l ?i ] =>
        let H := fresh in destruct (lookup_lt_is_Some_2 l i) as [? H]; [lia|rewrite (get_at_Ok _ _ _ H)] end
    | match goal with |- context [ ok_or ?o _ ] => destruct o; cbn [ok_or] end ].
Qed.

Lemma ProgramHeader_parse_fits bytes :
  bytes_ok bytes →
  match ProgramHeader_parse bytes with Ok h => header_fits h | Err _ => True | _ => False end.
Proof.
  intros Hb. unfold ProgramHeader_parse, ELF_PROGRAM_HEADER_SIZE. case_decide; [done|].
  repeat first [rewrite read_le_u32_returns by lia | rewrite read_le_u64_returns by lia];
    cbn [mbind outcome_bind].
  assert (∀ a b, (a ≤ b ≤ length bytes)%nat →
    0 ≤ from_le_bytes (sub bytes a b) < 256 ^ Z.of_nat (b - a)) as Hs.
  { intros a b Hab. rewrite <-(length_sub bytes a b) by lia. by apply from_le_bytes_bound, bytes_ok_sub. }
  unfold header_fits, is_u64. cbn [kind flags offset virtual_address physical_address file_size memory_size].
  repeat match goal with |- _ ∧ _ => split end; match goal with |- context [ sub bytes ?a ?b ] =>
    specialize (Hs a b ltac:(lia)); cbn -[Z.pow] in *; lia end.
Qed.

(** Every item of the iterator was parsed from bytes of the file. *)
Lemma collect_parsed fuel it r :
  r ∈ collect fuel it → bytes_ok (it_bytes it) → ∃ b, r = ProgramHeader_parse b ∧ bytes_ok b.
Proof.
  revert it. induction fuel as [|fuel IH]; intros it Hr Hb; [by apply not_elem_of_nil in Hr|].
  cbn [collect] in Hr. unfold next in Hr. case_decide; [by apply not_elem_of_nil in Hr|].
  destruct (_ ← checked_mul _ _; _) as [x|] eqn:Hx; [|by apply not_elem_of_nil in Hr].
  apply elem_of_cons in Hr as [->|Hr]; [|by apply IH in Hr].
  apply bind_Some in Hx as (rel & _ & Hx). apply bind_Some in Hx as (o & _ & Hx).
  apply bind_Some in Hx as (e & _ & Hx). apply bind_Some in Hx as (b & Hg & [= <-]).
  exists b. split; [done|]. unfold get_rangeZ in Hg. case_decide; [|done]. injection Hg as <-.
  by apply bytes_ok_sub.
Qed.

Lemma headers_of_fit bytes image r :
  ElfImage_parse bytes = Ok image → bytes_ok bytes → r ∈ headers_of image →
  match r with Ok h => header_fits h | Err _ => True | _ => False end.
Proof.
  intros Hp Hb Hr. apply bind_Ok in Hp as (h & _ & [= <-]).
  apply collect_parsed in Hr as (b & -> & Hb'); [by apply ProgramHeader_parse_fits|done].
Qed.

(** ** Encoded images parse back *)

Lemma length_encode_header e n : length (encode_header e n) = 64%nat.
Proof. done. Qed.

Lemma length_encode_program_header h : length (encode_program_header h) = 56%nat.
Proof. done. Qed.

Lemma header_slice {E} e n rest a b :
  (a ≤ b)%nat → (b ≤ 64)%nat →
  slice (E:=E) (encode_header e n ++ rest) a b = Ok (sub (encode_header e n) a b).
Proof.
  intros Hab Hb. rewrite slice_Ok by (rewrite ?length_app, ?length_encode_header; lia). f_equal.
  unfold sub. rewrite drop_app_le by (rewrite length_encode_header; lia).
  rewrite take_app_le; [done|]. rewrite length_drop, length_encode_header. lia.
Qed.

Lemma header_byte {E} e n rest i x :
  encode_header e n !! i = Some x → get_at (E:=E) (encode_header e n ++ rest) i = Ok x.
Proof. intros Hi. apply get_at_Ok. by apply lookup_app_l_Some. Qed.

Lemma encode_header_parse e n rest :
  is_u64 e → Z.of_nat n < 2 ^ 16 → 64 + Z.of_nat n * 56 ≤ Z.of_nat (length (encode_header e n ++ rest)) →
  ElfHeader_parse (encode_header e n ++ rest) = Ok (mkElfHeader e 64 56 (Z.of_nat n)).
Proof.
  intros He Hn Hlen. unfold ElfHeader_parse, read_le_u16, read_le_u32, read_le_u64.
  rewrite decide_False by (rewrite length_app, length_encode_header; unfold ELF_HEADER_SIZE; lia).
  rewrite !(header_slice e n rest) by lia. cbn [mbind outcome_bind].
  change (sub (encode_header e n) 0 4) with ELF_MAGIC. rewrite decide_False by (intros Hx; by apply Hx).
  rewrite (header_byte e n rest 4 2), (header_byte e n rest 5 1), (header_byte e n rest 6 1) by done.
  cbn [mbind outcome_bind].
  change (sub (encode_header e n) 16 (16 + 2)) with (to_le_bytes 2 2).
  change (sub (encode_header e n) 18 (18 + 2)) with (to_le_bytes 2 0x3e).
  change (sub (encode_header e n) 20 (20 + 4)) with (to_le_bytes 4 1).
  rewrite !(decide_False (P:=_ ≠ _)) by (intros Hx; by apply Hx).
  change (sub (encode_header e n) 32 (32 + 8)) with (to_le_bytes 8 64).
  change (sub (encode_header e n) 54 (54 + 2)) with (to_le_bytes 2 56).
  change (sub (encode_header e n) 56 (56 + 2)) with (to_le_bytes 2 (Z.of_nat n)).
  change (sub (encode_header e n) 24 (24 + 8)) with (to_le_bytes 8 e).
  rewrite (from_to_le_bytes 8 64), (from_to_le_bytes 2 56), (from_to_le_bytes 2 (Z.of_nat n)),
    (from_to_le_bytes 8 e) by (by (apply u64_le8 || (cbn; lia))).
  unfold checked_mul, checked_add.
  rewrite (decide_True (P:=56 * Z.of_nat n < 2 ^ 64)) by lia. cbn [ok_or mbind outcome_bind].
  rewrite (decide_True (P:=64 + 56 * Z.of_nat n < 2 ^ 64)) by lia. cbn [ok_or mbind outcome_bind].
  by rewrite decide_False by lia.
Qed.

Lemma encode_program_header_parse h rest :
  header_fits h → ProgramHeader_parse (encode_program_header h ++ rest) = Ok h.
Proof.
  intros (H1 & H2 & H3 & H4 & H5 & H6 & H7).
  assert (∀ E a b, (a ≤ b)%nat → (b ≤ 56)%nat →
    slice (E:=E) (encode_program_header h ++ rest) a b = Ok (sub (encode_program_header h) a b)) as Hs.
  { intros E a b Hab Hb. rewrite slice_Ok by (rewrite ?length_app, ?length_encode_program_header; lia).
    f_equal. unfold sub. rewrite drop_app_le by (rewrite length_encode_program_header; lia).
    rewrite take_app_le; [done|]. rewrite length_drop, length_encode_program_header. lia. }
  unfold ProgramHeader_parse, read_le_u32, read_le_u64.
  rewrite decide_False by (rewrite length_app, length_encode_program_header; unfold ELF_PROGRAM_HEADER_SIZE; lia).
  rewrite !Hs by lia. cbn [mbind outcome_bind].
  change (sub (encode_program_header h) 0 (0 + 4)) with (to_le_bytes 4 (kind h)).
  change (sub (encode_program_header h) 4 (4 + 4)) with (to_le_bytes 4 (flags h)).
  change (sub (encode_program_header h) 8 (8 + 8)) with (to_le_bytes 8 (offset h)).
  change (sub (encode_program_header h) 16 (16 + 8)) with (to_le_bytes 8 (virtual_address h)).
  change (sub (encode_program_header h) 24 (24 + 8)) with (to_le_bytes 8 (physical_address h)).
  change (sub (encode_program_header h) 32 (32 + 8)) with (to_le_bytes 8 (file_size h)).
  change (sub (encode_program_header h) 40 (40 + 8)) with (to_le_bytes 8 (memory_size h)).
  rewrite !from_to_le_bytes by (by (apply u64_le8 || (cbn; lia))). by destruct h.
Qed.

(** The [i]th block of a concatenation of blocks of equal length. *)
Lemma drop_concat_blocks {A} n (ls : list (list A)) i :
  Forall (λ l, length l = n) ls → drop (i * n) (concat ls) = concat (drop i ls).
Proof.
  intros Hf. revert ls Hf. induction i as [|i IH]; intros ls Hf; [done|].
  destruct Hf as [|l ls Hl Hf]; [cbn [concat]; by rewrite !drop_nil|]. cbn [concat Nat.mul].
  rewrite drop_app_ge by lia. rewrite Hl. replace (n + i * n - n)%nat with (i * n)%nat by lia.
  by apply IH.
Qed.

Lemma encode_entry_bytes e hs payload i h :
  hs !! i = Some h →
  entry_bytes (encode_elf e hs payload) 64 56 i = encode_program_header h.
Proof.
  intros Hi. unfold entry_bytes, sub.
  replace (Z.to_nat (64 + Z.of_nat i * 56 + 56) - Z.to_nat (64 + Z.of_nat i * 56))%nat with 56%nat by lia.
  replace (Z.to_nat (64 + Z.of_nat i * 56)) with (64 + i * 56)%nat by lia.
  unfold encode_elf. rewrite <-drop_drop.
  rewrite (drop_app_length' (encode_header e (length hs))) by (by rewrite length_encode_header).
  rewrite drop_app_le.
  - rewrite drop_concat_blocks by (apply Forall_fmap, Forall_true; done).
    assert (map encode_program_header hs !! i = Some (encode_program_header h)) as Hm
      by (by rewrite list_lookup_fmap, Hi).
    rewrite (drop_S _ _ _ Hm). cbn [concat]. rewrite <-app_assoc.
    by apply take_app_length'.
  - apply lookup_lt_Some in Hi.
    assert (∀ l : list ProgramHeader, length (concat (map encode_program_header l)) = length l * 56)%nat
      as Hl by (induction l; cbn -[encode_program_header]; rewrite ?length_app, ?length_encode_program_header; lia).
    rewrite Hl. nia.
Qed.

(** * Properties *)

(** Once the header of an image has parsed, iterating over its program
    headers visits every one of the [program_header_count] table entries, in
    order, and decodes each from its own bytes: the iterator's silent stops
    (on overflow or a short slice) can never drop a segment. *)
Theorem program_headers_complete bytes image :
  bytes_ok bytes → ElfImage_parse bytes = Ok image →
  headers_of image =
    map (λ i, ProgramHeader_parse (entry_bytes bytes (program_header_offset (header image))
           (program_header_entry_size (header image)) i))
        (seq 0 (Z.to_nat (program_header_count (header image)))).
Proof.
  intros Hb Hp. unfold ElfImage_parse in Hp. apply bind_Ok in Hp as (h & Hh & Hp).
  injection Hp as <-. destruct (ElfHeader_parse_table _ _ Hb Hh) as (H1 & H2 & H3 & H4 & H5).
  unfold headers_of, program_headers. cbn [header image_bytes]. unfold is_u64 in H1.
  rewrite (collect_ok bytes _ _ _ _ 0) by lia. by rewrite Nat.sub_0_r.
Qed.

Definition sample_header : ProgramHeader := mkProgramHeader 1 5 120 0x400000 0 3 16.

Lemma program_headers_complete_witness :
  ∃ image, ElfImage_parse (encode_elf 0x400000 [sample_header] [1; 2; 3]) = Ok image ∧
    headers_of image = [Ok sample_header].
Proof.
  destruct (ElfImage_parse (encode_elf 0x400000 [sample_header] [1; 2; 3])) as [image|e| |] eqn:Hp;
    [|exfalso; vm_compute in Hp; discriminate..].
  exists image. split; [reflexivity|].
  rewrite (program_headers_complete (encode_elf 0x400000 [sample_header] [1; 2; 3]) image);
    [|unfold encode_elf; vm_compute; repeat constructor; discriminate|exact Hp].
  vm_compute in Hp. injection Hp as <-. vm_compute. reflexivity.
Defined.

(** C37. Any image laid out as the format prescribes parses back: the entry
    point and every program header, field by field, are the encoded ones,
    whatever their values (up to the format's field widths) and however many
    headers (up to the 16-bit count) and payload bytes there are. *)
Theorem elf_roundtrip e hs payload :
  is_u64 e → Forall header_fits hs → Z.of_nat (length hs) < 2 ^ 16 →
  ∃ image, ElfImage_parse (encode_elf e hs payload) = Ok image ∧
    entry_point image = e ∧ headers_of image = map Ok hs.
Proof.
  intros He Hf Hn. set (rest := concat (map encode_program_header hs) ++ payload).
  assert (∀ l : list ProgramHeader, length (concat (map encode_program_header l)) = length l * 56)%nat
    as Hl by (induction l; cbn -[encode_program_header]; rewrite ?length_app, ?length_encode_program_header; lia).
  assert (64 + Z.of_nat (length hs) * 56 ≤ Z.of_nat (length (encode_header e (length hs) ++ rest)))
    as Hlen by (unfold rest; rewrite !length_app, length_encode_header, Hl; lia).
  exists (mkElfImage (encode_elf e hs payload) (mkElfHeader e 64 56 (Z.of_nat (length hs)))).
  unfold ElfImage_parse, encode_elf. fold rest.
  rewrite encode_header_parse by done. split_and!; [done|done|].
  unfold headers_of, program_headers. cbn [header image_bytes program_header_count
    program_header_offset program_header_entry_size].
  rewrite (collect_ok _ 64 56 (Z.of_nat (length hs)) _ 0) by lia.
  rewrite Nat.sub_0_r, Nat2Z.id. apply list_eq. intros i.
  rewrite !list_lookup_fmap. destruct (hs !! i) as [h|] eqn:Hi.
  - rewrite lookup_seq_lt by (by eapply lookup_lt_Some). cbn [fmap option_fmap option_map].
    f_equal. cbn [Nat.add].
    change (encode_header e (length hs) ++ rest) with (encode_elf e hs payload).
    rewrite (encode_entry_bytes e hs payload i h Hi).
    rewrite <-(app_nil_r (encode_program_header h)). apply encode_program_header_parse.
    by eapply Forall_lookup_1.
  - apply lookup_ge_None in Hi. by rewrite lookup_seq_ge by lia.
Qed.

Lemma elf_roundtrip_witness :
  ∃ image, ElfImage_parse (encode_elf 0x401000 [sample_header] [9; 9; 9]) = Ok image ∧
    entry_point image = 0x401000 ∧ headers_of image = [Ok sample_header].
Proof.
  apply (elf_roundtrip 0x401000 [sample_header] [9; 9; 9]).
  - unfold is_u64; lia.
  - repeat constructor; cbn; unfold is_u64; lia.
  - cbn; lia.
Defined.
