(* ===== verification/Process.v ===== *)
(** * Processes and threads ([process.rs], [thread.rs], the handles of [io.rs])

    The resources a process owns (handle table, standard streams, working
    directory, environment, pages) and the scheduler's thread record. *)

From S2P Require Import Prelude Bytes Queues Terminal Env Allocator.

Definition MAX_CWD_LEN : nat := 256.
Definition MAX_PROCESS_HANDLES : nat := 8.
#[global] Arguments MAX_CWD_LEN : simpl never.

Abbreviation ProcessId := nat.
Abbreviation ThreadId := nat.

(** ** Handles (io.rs) *)

(** [usize::MAX] marks a stream that is not bound; handles are compared with
    the length of an array only, so they are integers. *)
Definition HandleId : Type := Z.

Record StdioHandles := mkStdio { stdin : HandleId; stdout : HandleId; stderr : HandleId }.

Definition DEFAULT_INVALID_HANDLE : Z := u64_max.
Definition StdioHandles_empty : StdioHandles :=
  mkStdio DEFAULT_INVALID_HANDLE DEFAULT_INVALID_HANDLE DEFAULT_INVALID_HANDLE.

(** ** Processes (process.rs) *)

Inductive ProcessState := ProcRunning | Exited (status : Z).
Inductive ProcessExitAction := Continue | ShutdownSystem.

#[export] Instance ProcessExitAction_eq_dec : EqDecision ProcessExitAction.
Proof. solve_decision. Defined.

Record AddressSpace := mkSpace { root_paddr : Z }.

(** The program a loader hands over ([memory/types.rs]). *)
Record LoadedUserProgram := mkProgram {
  lp_address_space : AddressSpace;
  lp_entry_point : Z;
  lp_user_stack_top : Z;
  lp_owned_pages : OwnedPages
}.

Record Process := mkProcess {
  p_id : ProcessId;
  p_name : String.string;
  p_address_space : AddressSpace;
  handles : list (option KernelObject);
  stdio : StdioHandles;
  p_state : ProcessState;
  waiting_thread : option ThreadId;
  cwd_bytes : list Z;
  cwd_len : nat;
  env : Environment;
  owned_pages : OwnedPages;
  exit_action : ProcessExitAction
}.

Definition new_root_cwd : list Z := SLASH :: replicate (MAX_CWD_LEN - 1) 0%Z.

Definition Process_new (id : ProcessId) (name : String.string) (space : AddressSpace)
    (pages : OwnedPages) (action : ProcessExitAction) : Process :=
  mkProcess id name space (replicate MAX_PROCESS_HANDLES None) StdioHandles_empty ProcRunning None
    new_root_cwd 1 Environment_new pages action.

(** Functional updates of the mutable fields. *)
Definition with_handles h p := mkProcess (p_id p) (p_name p) (p_address_space p) h (stdio p)
  (p_state p) (waiting_thread p) (cwd_bytes p) (cwd_len p) (env p) (owned_pages p) (exit_action p).
Definition set_stdio s p := mkProcess (p_id p) (p_name p) (p_address_space p) (handles p) s
  (p_state p) (waiting_thread p) (cwd_bytes p) (cwd_len p) (env p) (owned_pages p) (exit_action p).
Definition with_state s p := mkProcess (p_id p) (p_name p) (p_address_space p) (handles p) (stdio p)
  s (waiting_thread p) (cwd_bytes p) (cwd_len p) (env p) (owned_pages p) (exit_action p).
Definition with_waiting w p := mkProcess (p_id p) (p_name p) (p_address_space p) (handles p) (stdio p)
  (p_state p) w (cwd_bytes p) (cwd_len p) (env p) (owned_pages p) (exit_action p).
Definition with_cwd c n p := mkProcess (p_id p) (p_name p) (p_address_space p) (handles p) (stdio p)
  (p_state p) (waiting_thread p) c n (env p) (owned_pages p) (exit_action p).
Definition with_env e p := mkProcess (p_id p) (p_name p) (p_address_space p) (handles p) (stdio p)
  (p_state p) (waiting_thread p) (cwd_bytes p) (cwd_len p) e (owned_pages p) (exit_action p).
Definition with_pages o p := mkProcess (p_id p) (p_name p) (p_address_space p) (handles p) (stdio p)
  (p_state p) (waiting_thread p) (cwd_bytes p) (cwd_len p) (env p) o (exit_action p).

Definition mark_exited (status : Z) (p : Process) : Process := with_state (Exited status) p.
Definition set_waiting_thread (t : ThreadId) (p : Process) : Process := with_waiting (Some t) p.
Definition take_waiting_thread (p : Process) : option ThreadId * Process :=
  (waiting_thread p, with_waiting None p).
Definition take_owned_pages (p : Process) : OwnedPages * Process :=
  (owned_pages p, with_pages OwnedPages_empty p).

(** The first free slot of an array of options: [iter().position(is_none)]. *)
Fixpoint first_free {A} (l : list (option A)) : option nat :=
  match l with
  | [] => None
  | None :: _ => Some 0
  | Some _ :: l => S <$> first_free l
  end.

Definition install_handle (object : KernelObject) (p : Process) : option (HandleId * Process) :=
  index ← first_free (handles p);
  Some (Z.of_nat index, with_handles (<[index := Some object]> (handles p)) p).

Definition resolve_handle (p : Process) (handle : HandleId) : option KernelObject :=
  if decide (0 ≤ handle < Z.of_nat (length (handles p)))%Z
  then mjoin (handles p !! Z.to_nat handle) else None.

Definition resolve_fd (p : Process) (fd : Z) : option KernelObject :=
  match fd with
  | 0%Z => resolve_handle p (stdin (stdio p))
  | 1%Z => resolve_handle p (stdout (stdio p))
  | 2%Z => resolve_handle p (stderr (stdio p))
  | _ => None
  end.

(** [None] for the child means the whole operation failed; the source then
    discards the child. *)
Definition inherit_stdio_into (p child : Process) : option Process :=
  in_ ← resolve_fd p 0; '(hin, child) ← install_handle in_ child;
  out ← resolve_fd p 1; '(hout, child) ← install_handle out child;
  err ← resolve_fd p 2; '(herr, child) ← install_handle err child;
  Some (set_stdio (mkStdio hin hout herr) child).

Definition inherit_stdio_silent_into (p child : Process) : option Process :=
  in_ ← resolve_fd p 0; '(hin, child) ← install_handle in_ child;
  '(hout, child) ← install_handle NullObject child;
  '(herr, child) ← install_handle NullObject child;
  Some (set_stdio (mkStdio hin hout herr) child).

(** [from_utf8(&self.cwd[..self.cwd_len]).unwrap_or("/")] *)
Definition cwd {E} (p : Process) : outcome E (list Z) :=
  s ← slice (cwd_bytes p) 0 (cwd_len p); Ok (default [SLASH] (from_utf8 s)).

Definition set_cwd {E} (c : list Z) (p : Process) : outcome E (option Process) :=
  if decide (c = []) then Ok None
  else if negb (starts_with SLASH c) then Ok None
  else if decide (length (cwd_bytes p) < length c) then Ok None
  else b ← write_at (cwd_bytes p) 0 c; Ok (Some (with_cwd b (length c) p)).

Definition inherit_cwd_into {E} (p child : Process) : outcome E (option Process) :=
  c ← cwd p; set_cwd c child.

Definition copy_cwd_into {E} (p : Process) (buffer : list Z) : outcome E (option (nat * list Z)) :=
  if decide (length buffer < cwd_len p) then Ok None
  else
    s ← slice (cwd_bytes p) 0 (cwd_len p);
    b ← write_at buffer 0 s;
    Ok (Some (cwd_len p, b)).

Definition inherit_env_into (p child : Process) : outcome EnvironmentError Process :=
  e ← inherit_into (env p) (env child); Ok (with_env e child).

Definition set_env (key value : list Z) (p : Process) : outcome EnvironmentError Process :=
  e ← Env.set (env p) key value; Ok (with_env e p).
Definition remove_env (key : list Z) (p : Process) : outcome EnvironmentError (bool * Process) :=
  '(b, e) ← Env.remove (env p) key; Ok (b, with_env e p).
Definition get_env (p : Process) (key : list Z) : outcome EnvironmentError (option (list Z)) :=
  Env.get (env p) key.
Definition list_env_into (p : Process) (buffer : list Z)
    : outcome EnvironmentError (nat * list Z) :=
  write_listing_into (env p) buffer.

(** Reading and writing go through the object behind the descriptor. *)
Definition read (p : Process) (fd : Z) (buffer : list Z) (t : TerminalEndpoint)
    : outcome () (nat * list Z * TerminalEndpoint) :=
  match resolve_fd p fd with
  | None => Ok (0, buffer, t)
  | Some object =>
      while (S (length buffer)) (λ '(read, buffer, t),
        if decide (read < length buffer) then
          '(byte, t) ← read_byte object t;
          match byte with
          | None => Ok (inr (read, buffer, t))
          | Some byte =>
              buffer ← set_at buffer read byte;
              Ok (inl (S read, buffer, t))
          end
        else Ok (inr (read, buffer, t))) (0, buffer, t)
  end.

Definition write (p : Process) (fd : Z) (buffer : list Z) (t : TerminalEndpoint)
    : outcome () (nat * TerminalEndpoint) :=
  match resolve_fd p fd with
  | None => Ok (0, t)
  | Some object =>
      while (S (length buffer)) (λ '(written, t),
        if decide (written < length buffer) then
          byte ← get_at buffer written;
          '(ok, t) ← write_byte object t byte;
          if (ok : bool) then Ok (inl (S written, t)) else Ok (inr (written, t))
        else Ok (inr (written, t))) (0, t)
  end.

(** ** Threads (thread.rs) *)

Record ThreadContext := mkContext {
  rsp : Z; rbx : Z; rbp : Z; r12 : Z; r13 : Z; r14 : Z; r15 : Z
}.

Definition ThreadContext_zeroed : ThreadContext := mkContext 0 0 0 0 0 0 0.

Inductive ThreadState := Runnable | Running | Blocked.

#[export] Instance ThreadState_eq_dec : EqDecision ThreadState.
Proof. solve_decision. Defined.

Inductive ThreadBlockReason := NoReason | WaitingForChild (p : ProcessId).

(** A kernel entry point is named by its address. *)
Inductive ThreadStart := KernelStart (entry : Z) | UserStart (entry_point user_stack_top : Z).

Record Thread := mkThread {
  t_id : ThreadId;
  t_name : String.string;
  process_id : ProcessId;
  start : ThreadStart;
  t_state : ThreadState;
  block_reason : ThreadBlockReason;
  wait_result : option Z;
  context : ThreadContext;
  kernel_stack_top : Z
}.

Definition Thread_new (id : ThreadId) (name : String.string) (pid : ProcessId) (st : ThreadStart)
    (ctx : ThreadContext) (top : Z) : Thread :=
  mkThread id name pid st Runnable NoReason None ctx top.

Definition set_state (st : ThreadState) (t : Thread) : Thread :=
  mkThread (t_id t) (t_name t) (process_id t) (start t) st (block_reason t) (wait_result t)
    (context t) (kernel_stack_top t).
Definition block_for_child (p : ProcessId) (t : Thread) : Thread :=
  mkThread (t_id t) (t_name t) (process_id t) (start t) Blocked (WaitingForChild p) (wait_result t)
    (context t) (kernel_stack_top t).
Definition wake (t : Thread) : Thread :=
  mkThread (t_id t) (t_name t) (process_id t) (start t) Runnable NoReason (wait_result t)
    (context t) (kernel_stack_top t).
Definition set_wait_result (status : Z) (t : Thread) : Thread :=
  mkThread (t_id t) (t_name t) (process_id t) (start t) (t_state t) (block_reason t) (Some status)
    (context t) (kernel_stack_top t).
Definition take_wait_result (t : Thread) : option Z * Thread :=
  (wait_result t,
   mkThread (t_id t) (t_name t) (process_id t) (start t) (t_state t) (block_reason t) None
     (context t) (kernel_stack_top t)).

(** ** Invariant *)

Record proc_ok (p : Process) : Prop := {
  proc_handles : length (handles p) = MAX_PROCESS_HANDLES;
  proc_cwd_size : length (cwd_bytes p) = MAX_CWD_LEN;
  proc_cwd_len : cwd_len p ≤ MAX_CWD_LEN;
  proc_cwd_utf8 : utf8_valid (take (cwd_len p) (cwd_bytes p)) = true;
  proc_cwd_abs : starts_with SLASH (take (cwd_len p) (cwd_bytes p)) = true;
  proc_env : env_ok (env p)
}.

Definition cwd_of (p : Process) : list Z := take (cwd_len p) (cwd_bytes p).

(** * Lemmas *)

Lemma first_free_Some {A} (l : list (option A)) i :
  first_free l = Some i → l !! i = Some None ∧ i < length l.
Proof.
  revert i. induction l as [|[a|] l IH]; intros i Hi; cbn in Hi; [done| |].
  - destruct (first_free l) as [j|]; [|done]. injection Hi as <-.
    destruct (IH j eq_refl). cbn. split; [done|lia].
  - injection Hi as <-. cbn. split; [done|lia].
Qed.

Lemma first_free_None {A} (l : list (option A)) :
  first_free l = None → ∀ i x, l !! i = Some x → is_Some x.
Proof.
  induction l as [|[a|] l IH]; cbn; intros Hf i x Hi; [done| |done].
  destruct (first_free l); [done|]. destruct i as [|i]; cbn in Hi; [injection Hi as <-; done|].
  by eapply IH.
Qed.

Lemma Process_new_ok id name space pages action : proc_ok (Process_new id name space pages action).
Proof.
  split; cbn [handles cwd_bytes cwd_len env Process_new]; try done.
  - unfold MAX_CWD_LEN. lia.
  - apply Environment_new_ok.
Qed.

Lemma cwd_spec {E} p : proc_ok p → cwd (E:=E) p = Ok (cwd_of p).
Proof.
  intros [_ Hs Hl Hu _ _]. unfold cwd. rewrite slice_Ok by lia. cbn [mbind outcome_bind].
  rewrite sub_0. unfold from_utf8. by rewrite Hu.
Qed.

Lemma set_cwd_spec {E} c p :
  proc_ok p → utf8_valid c = true →
  if starts_with SLASH c && bool_decide (length c ≤ MAX_CWD_LEN)
  then ∃ p', set_cwd (E:=E) c p = Ok (Some p') ∧ proc_ok p' ∧ cwd_of p' = c ∧
    p' = with_cwd (cwd_bytes p') (cwd_len p') p
  else set_cwd (E:=E) c p = Ok None.
Proof.
  intros [Hh Hs Hl Hu Ha He] Huc. unfold set_cwd. destruct c as [|b c]; [by rewrite decide_True|].
  rewrite (decide_False (P:=_ = [])) by done.
  destruct (starts_with SLASH (b :: c)) eqn:Hb; cbn [negb andb]; [|done].
  rewrite Hs. case_bool_decide as Hlen.
  - rewrite decide_False by lia. rewrite write_at_Ok by (rewrite Hs; lia). cbn [mbind outcome_bind].
    assert (take (length (b :: c)) (splice (cwd_bytes p) 0 (b :: c)) = b :: c) as Ht
      by (apply take_splice_0; lia).
    eexists. split; [done|]. split_and!; [|exact Ht|done].
    split; cbn [handles cwd_bytes cwd_len env with_cwd]; try done; rewrite ?Ht; try done.
    rewrite length_splice by (cbn in *; lia). done.
  - rewrite decide_True by lia. done.
Qed.

(** ** What the inheriting operations change *)

(** The fields no inheriting or environment operation touches. *)
Definition same_core (p p' : Process) : Prop :=
  p_id p' = p_id p ∧ p_address_space p' = p_address_space p ∧
  waiting_thread p' = waiting_thread p ∧ owned_pages p' = owned_pages p ∧
  exit_action p' = exit_action p.

Lemma install_handle_shape o p h p' :
  install_handle o p = Some (h, p') →
  ∃ i, handles p !! i = Some None ∧ h = Z.of_nat i ∧
    p' = with_handles (<[i := Some o]> (handles p)) p.
Proof.
  unfold install_handle. destruct (first_free (handles p)) as [i|] eqn:Hf; cbn; [|done].
  intros [= <- <-]. apply first_free_Some in Hf as [Hi _]. eauto.
Qed.

(** One step of a chain of [?] that reached its end. *)
Ltac opt_step H :=
  lazymatch type of H with
  | (_ ≫= _) = Some _ =>
      lazymatch type of H with
      | (mbind _ ?o) = _ => destruct o eqn:?; cbn [mbind option_bind] in H; [|discriminate H]
      end
  | (let '(_, _) := ?x in _) = Some _ => destruct x
  end.

Definition inherit_stdio (silent : bool) (p child : Process) : option Process :=
  if silent then inherit_stdio_silent_into p child else inherit_stdio_into p child.

Lemma inherit_stdio_shape silent p child child' :
  inherit_stdio silent p child = Some child' →
  ∃ h io, length h = length (handles child) ∧ child' = set_stdio io (with_handles h child).
Proof.
  unfold inherit_stdio, inherit_stdio_into, inherit_stdio_silent_into. intros Hi.
  destruct silent; repeat opt_step Hi; injection Hi as <-;
    repeat match goal with H : install_handle _ _ = Some _ |- _ =>
      apply install_handle_shape in H as (? & _ & _ & ->) end;
    (eexists _, _; split; [|reflexivity]; cbn; by rewrite !length_insert).
Qed.

Lemma inherit_stdio_ok silent p child child' :
  inherit_stdio silent p child = Some child' → proc_ok child →
  proc_ok child' ∧ same_core child child' ∧ cwd_of child' = cwd_of child ∧ env child' = env child.
Proof.
  intros (h & io & Hl & ->)%inherit_stdio_shape [? ? ? ? ? ?]. split_and!; [|done..].
  split; cbn; congruence || done.
Qed.

Lemma inherit_cwd_ok {E} p child :
  proc_ok p → proc_ok child →
  ∃ child', inherit_cwd_into (E:=E) p child = Ok (Some child') ∧ proc_ok child' ∧
    same_core child child' ∧ cwd_of child' = cwd_of p ∧ env child' = env child ∧
    handles child' = handles child ∧ stdio child' = stdio child.
Proof.
  intros Hp Hc. unfold inherit_cwd_into. rewrite cwd_spec by done. cbn [mbind outcome_bind].
  pose proof (set_cwd_spec (E:=E) (cwd_of p) child Hc (proc_cwd_utf8 _ Hp)) as H.
  unfold cwd_of in H at 1. rewrite (proc_cwd_abs _ Hp) in H.
  rewrite bool_decide_true in H
    by (unfold cwd_of; rewrite length_take; pose proof (proc_cwd_len _ Hp); lia).
  destruct H as (child' & -> & Hok & Hcwd & Heq). exists child'.
  rewrite Heq in *. split_and!; try done.
Qed.

Lemma inherit_env_ok p child :
  proc_ok p → proc_ok child →
  ∃ child', inherit_env_into p child = Ok child' ∧ proc_ok child' ∧
    same_core child child' ∧ abs (env child') = abs (env p) ∧ cwd_of child' = cwd_of child ∧
    handles child' = handles child ∧ stdio child' = stdio child.
Proof.
  intros Hp [? ? ? ? ? He]. unfold inherit_env_into.
  destruct (inherit_spec (env p) (env child) (proc_env _ Hp) He) as (e & -> & He' & Ha).
  cbn [mbind outcome_bind]. eexists. split_and!; try done.
Qed.

Lemma with_env_ok e p : proc_ok p → env_ok e → proc_ok (with_env e p).
Proof. intros [? ? ? ? ? ?] ?. by split. Qed.

Lemma set_env_ok key value p :
  proc_ok p → utf8_valid key = true → utf8_valid value = true →
  (∃ e, set_env key value p = Ok (with_env e p) ∧ env_ok e) ∨ (∃ err, set_env key value p = Err err).
Proof.
  intros Hp Hk Hv. unfold set_env. pose proof (set_spec (env p) key value (proc_env _ Hp) Hk Hv) as H.
  destruct (spec_set _ _ _); [destruct H as (e & -> & He & _); eauto|rewrite H; eauto..].
Qed.

Lemma remove_env_ok key p :
  proc_ok p →
  (∃ b e, remove_env key p = Ok (b, with_env e p) ∧ env_ok e) ∨ (∃ err, remove_env key p = Err err).
Proof.
  intros Hp. unfold remove_env. pose proof (remove_spec (env p) key (proc_env _ Hp)) as H.
  pose proof (validate_key_not_Panic key) as Hv.
  destruct (validate_key key) as [[]|err| |]; [|rewrite H; cbn; eauto|naive_solver..].
  destruct H as (e & -> & He & _). cbn [mbind outcome_bind]. eauto.
Qed.

(** ** Output *)

(** What a process writes to the terminal goes to the queue of the screen as
    far as there is room; the write stops at the first byte without room,
    which the serial line has got by then. *)
Lemma write_terminal p fd data t out :
  resolve_fd p fd = Some TerminalEndpointObject → holds (output t) out →
  let room := TERMINAL_OUTPUT_CAPACITY - length out in
  ∃ q, write p fd data t = Ok (length data `min` room,
      mkEndpoint (input t) q (foldl serial_write_byte (serial t) (take (S room) data))) ∧
    holds q (out ++ take room data).
Proof.
  intros Hp Ho room. unfold write. rewrite Hp. pose proof (holds_bound _ _ Ho) as Hb.
  cbn in Hb.
  apply (while_rule
    (λ '(n, t'), ∃ q, t' = mkEndpoint (input t) q (foldl serial_write_byte (serial t) (take n data)) ∧
      holds q (out ++ take n data) ∧ n ≤ length data ∧ n ≤ room)
    (λ '(n, _), length data - n)
    (λ r, ∃ q, r = Ok (length data `min` room,
        mkEndpoint (input t) q (foldl serial_write_byte (serial t) (take (S room) data))) ∧ holds q (out ++ take room data))).
  - intros [n t'] (q & -> & Hq & Hn & Hr). case_decide as Hlt.
    2: { cbn beta iota. assert (n = length data) as -> by lia. exists q. rewrite Nat.min_l by lia.
         rewrite (firstn_all data) in Hq |- *. by rewrite !take_ge by lia. }
    destruct (lookup_lt_is_Some_2 data n Hlt) as [b Hdata]. rewrite (get_at_Ok _ _ b) by done. cbn [mbind outcome_bind write_byte].
    unfold push_output_byte. cbn [output serial input].
    assert (length (out ++ take n data) = length out + n) as Hlen by (rewrite length_app, length_take; lia).
    assert (∀ A (f : A → Z → A) x, f (foldl f x (take n data)) b = foldl f x (take (S n) data)) as Hsnoc
      by (intros; by rewrite (take_S_r _ _ _ Hdata), foldl_app).
    rewrite Hsnoc. destruct (decide (n < room)) as [Hroom|Hfull].
    + destruct (enqueue_room q _ b Hq) as (q' & -> & Hq'); [cbn; lia|]. cbn [mbind outcome_bind]. split; [|lia].
      exists q'. rewrite (take_S_r _ _ _ Hdata). by rewrite <-app_assoc in Hq'; split_and!; try lia.
    + rewrite (enqueue_full q _ b Hq) by (cbn; lia). cbn [mbind outcome_bind]. assert (n = room) as -> by lia.
      exists q. by replace (length data `min` room) with room by lia.
  - exists (output t). rewrite take_0, app_nil_r. cbn [foldl]. split_and!; [by destruct t|done|lia|lia].
  - lia.
Qed.
