(* ===== verification/Sched.v ===== *)
(** * The cooperative scheduler ([kernel/kernel/src/scheduler/])

    [state.rs] (process and thread tables, spawning, switching, exiting),
    [bootstrap.rs] (creation) and [core.rs] with [mod.asm] (the context
    switch).  A saved context is reached through a pointer in the source;
    here the pointer names the context it points to. *)

From S2P Require Import Prelude Bytes Queues Terminal Env Allocator Process.

Definition MAX_PROCESSES : nat := 8.
Definition MAX_THREADS : nat := 12.
Definition THREAD_STACK_SIZE : Z := 64 * 1024.
#[global] Arguments MAX_PROCESSES : simpl never.
#[global] Arguments MAX_THREADS : simpl never.

Abbreviation res := (outcome ()).

(** The words a kernel stack holds, by address. *)
Abbreviation ThreadStack := (list (Z * Z)).

Record SchedulerState := mkSched {
  processes : list (option Process);
  threads : list (option Thread);
  stacks : list ThreadStack;
  current_thread : option ThreadId;
  idle_thread : option ThreadId;
  bootstrap_context : ThreadContext
}.

Definition SchedulerState_new : SchedulerState :=
  mkSched (replicate MAX_PROCESSES None) (replicate MAX_THREADS None) (replicate MAX_THREADS [])
    None None ThreadContext_zeroed.

Definition with_processes ps s := mkSched ps (threads s) (stacks s) (current_thread s)
  (idle_thread s) (bootstrap_context s).
Definition with_threads ts s := mkSched (processes s) ts (stacks s) (current_thread s)
  (idle_thread s) (bootstrap_context s).
Definition with_stacks ss s := mkSched (processes s) (threads s) ss (current_thread s)
  (idle_thread s) (bootstrap_context s).
Definition with_current c s := mkSched (processes s) (threads s) (stacks s) c
  (idle_thread s) (bootstrap_context s).
Definition with_idle i s := mkSched (processes s) (threads s) (stacks s) (current_thread s)
  i (bootstrap_context s).
Definition with_bootstrap b s := mkSched (processes s) (threads s) (stacks s) (current_thread s)
  (idle_thread s) b.

(** What stands in a slot; a slot out of range holds nothing. *)
Definition process_at (s : SchedulerState) (i : nat) : option Process := mjoin (processes s !! i).
Definition thread_at (s : SchedulerState) (i : nat) : option Thread := mjoin (threads s !! i).

(** [process], [process_mut], [thread], [thread_mut]: an index out of range
    and an empty slot both panic. *)
Definition process {E} (s : SchedulerState) (i : nat) : outcome E Process :=
  expect (process_at s i).
Definition process_mut {E R} (s : SchedulerState) (i : nat) (f : Process → R * Process)
    : outcome E (R * SchedulerState) :=
  p ← process s i;
  Ok ((f p).1, with_processes (<[i := Some (f p).2]> (processes s)) s).
Definition thread {E} (s : SchedulerState) (i : nat) : outcome E Thread := expect (thread_at s i).
Definition thread_mut {E} (s : SchedulerState) (i : nat) (f : Thread → Thread)
    : outcome E SchedulerState :=
  t ← thread s i; Ok (with_threads (<[i := Some (f t)]> (threads s)) s).

Section Scheduler.
(** Where the linker placed the end of each kernel stack, and the address of
    [thread_entry_trampoline]. *)
Variable stack_end : nat → Z.
Variable trampoline : Z.

Definition initial_context_for {E} (s : SchedulerState) (slot : nat)
    : outcome E (ThreadContext * Z * SchedulerState) :=
  stack ← get_at (stacks s) slot;
  let stack_top := stack_end slot in
  let aligned_top := Z.land stack_top (u64_not 15) in
  if decide (aligned_top < 8)%Z then Panic
  else
    let initial_rsp := (aligned_top - 8)%Z in
    ss ← set_at (stacks s) slot ((initial_rsp, trampoline) :: stack);
    Ok (mkContext initial_rsp 0 0 0 0 0 0, aligned_top, with_stacks ss s).

(** ** Creation (state.rs, bootstrap.rs) *)

Record ProcessConfig := mkConfig {
  c_name : String.string;
  c_address_space : AddressSpace;
  c_terminal_endpoint : option KernelObject;
  c_owned_pages : OwnedPages;
  c_exit_action : ProcessExitAction
}.

Definition try_create_process {E} (s : SchedulerState) (config : ProcessConfig)
    : outcome E (option (ProcessId * SchedulerState)) :=
  match first_free (processes s) with
  | None => Ok None
  | Some slot =>
      let p := Process_new slot (c_name config) (c_address_space config) (c_owned_pages config)
        (c_exit_action config) in
      let p := match c_terminal_endpoint config with
        | Some endpoint =>
            '(hin, p) ← install_handle endpoint p;
            '(hout, p) ← install_handle endpoint p;
            '(herr, p) ← install_handle endpoint p;
            Some (set_stdio (mkStdio hin hout herr) p)
        | None => Some p
        end in
      match p with
      | None => Ok None
      | Some p =>
          ps ← set_at (processes s) slot (Some p);
          Ok (Some (slot, with_processes ps s))
      end
  end.

Definition try_create_thread {E} (s : SchedulerState) (name : String.string) (pid : ProcessId)
    (st : ThreadStart) : outcome E (option (ThreadId * SchedulerState)) :=
  match first_free (threads s) with
  | None => Ok None
  | Some slot =>
      '(ctx, top, s) ← initial_context_for s slot;
      ts ← set_at (threads s) slot (Some (Thread_new slot name pid st ctx top));
      Ok (Some (slot, with_threads ts s))
  end.

Definition create_process (s : SchedulerState) (config : ProcessConfig)
    : res (ProcessId * SchedulerState) :=
  o ← try_create_process s config; expect o.
Definition create_kernel_thread (s : SchedulerState) (name : String.string) (pid : ProcessId)
    (entry : Z) : res (ThreadId * SchedulerState) :=
  o ← try_create_thread s name pid (KernelStart entry); expect o.
Definition create_user_thread (s : SchedulerState) (name : String.string) (pid : ProcessId)
    (entry_point user_stack_top : Z) : res (ThreadId * SchedulerState) :=
  o ← try_create_thread s name pid (UserStart entry_point user_stack_top); expect o.
Definition mark_idle_thread (s : SchedulerState) (t : ThreadId) : SchedulerState :=
  with_idle (Some t) s.

(** ** Spawning a child (state.rs) *)

(** The program handed back when a child could not be created. *)
Definition returned_program (program : LoadedUserProgram) (child : Process) : LoadedUserProgram :=
  mkProgram (p_address_space child) (lp_entry_point program) (lp_user_stack_top program)
    (take_owned_pages child).1.

(** [inl] is [Ok(process_id)] and [inr] is [Err(program)] of the source; both
    come with the scheduler state they leave behind.  The steps that fail
    before the child is stored change its handles, cwd or environment only,
    so the program is handed back from the child as it was built. *)
Definition spawn_child_process {E} (s : SchedulerState) (parent_thread : ThreadId)
    (program : LoadedUserProgram) (silent_stdio : bool)
    : outcome E ((ProcessId + LoadedUserProgram) * SchedulerState) :=
  t ← thread s parent_thread;
  let parent_process_id := process_id t in
  match first_free (processes s) with
  | None => Ok (inr program, s)
  | Some slot =>
      let child := Process_new slot "user-child" (lp_address_space program)
        (lp_owned_pages program) Continue in
      parent ← process s parent_process_id;
      let failed := Ok (inr (returned_program program child), s) in
      match (if silent_stdio then inherit_stdio_silent_into parent child
             else inherit_stdio_into parent child) with
      | None => failed
      | Some child =>
          o ← inherit_cwd_into parent child;
          match o with
          | None => failed
          | Some child =>
              match inherit_env_into parent child with
              | Err _ => failed
              | Panic => Panic
              | Hang => Hang
              | Ok child =>
                  ps ← set_at (processes s) slot (Some (set_waiting_thread parent_thread child));
                  let s := with_processes ps s in
                  o ← try_create_thread s "user-child-main" slot
                        (UserStart (lp_entry_point program) (lp_user_stack_top program));
                  match o with
                  | Some (_, s) => Ok (inl slot, s)
                  | None =>
                      child ← process s slot;
                      '(pages, s) ← process_mut s slot take_owned_pages;
                      ps ← set_at (processes s) slot None;
                      Ok (inr (mkProgram (p_address_space child) (lp_entry_point program)
                             (lp_user_stack_top program) pages), with_processes ps s)
                  end
              end
          end
      end
  end.

(** ** Choosing the next thread (state.rs) *)

Definition may_run (st : ThreadState) : bool :=
  match st with Runnable | Running => true | Blocked => false end.

Definition next_non_idle_runnable_thread {E} (s : SchedulerState) (current : option ThreadId)
    : outcome E (option ThreadId) :=
  let n := length (threads s) in
  let first := match current with Some c => (c + 1) mod n | None => 0 end in
  while (S n) (λ offset,
    if decide (offset < n) then
      slot ← get_at (threads s) ((first + offset) mod n);
      match slot with
      | None => Ok (inl (S offset))
      | Some t =>
          if decide (Some (t_id t) = idle_thread s) then Ok (inl (S offset))
          else if may_run (t_state t) then Ok (inr (Some (t_id t)))
          else Ok (inl (S offset))
      end
    else Ok (inr None)) 0.
#[local] Arguments next_non_idle_runnable_thread : simpl never.

Definition next_runnable_thread {E} (s : SchedulerState) (current : option ThreadId)
    : outcome E (option ThreadId) :=
  non_idle ← next_non_idle_runnable_thread s current;
  match non_idle with
  | Some t => Ok (Some t)
  | None =>
      match idle_thread s with
      | None => Ok None
      | Some i => t ← thread s i; Ok (if may_run (t_state t) then Some i else None)
      end
  end.

Record ThreadActivation := mkActivation {
  a_thread_id : ThreadId;
  a_kernel_stack_top : Z;
  a_address_space : AddressSpace
}.

Definition activation {E} (s : SchedulerState) (i : nat) : outcome E ThreadActivation :=
  t ← thread s i; p ← process s (process_id t);
  Ok (mkActivation i (kernel_stack_top t) (p_address_space p)).

(** ** Preparing a switch (state.rs) *)

Inductive ContextPtr := BootstrapContext | ContextOf (t : ThreadId).

Record PreparedSwitch := mkSwitch {
  current_context : ContextPtr;
  next_context : ContextPtr;
  next_space : AddressSpace;
  next_stack_top : Z
}.

(** The tail shared by the two [prepare_] functions. *)
Definition switch_to {E} (s : SchedulerState) (current next : ThreadId)
    : outcome E (option PreparedSwitch * SchedulerState) :=
  s ← thread_mut s next (set_state Running);
  let s := with_current (Some next) s in
  _ ← thread s current;
  _ ← thread s next;
  a ← activation s next;
  Ok (Some (mkSwitch (ContextOf current) (ContextOf next) (a_address_space a)
              (a_kernel_stack_top a)), s).

Definition prepare_switch {E} (s : SchedulerState) (block_current : bool)
    : outcome E (option PreparedSwitch * SchedulerState) :=
  match current_thread s with
  | None => Ok (None, s)
  | Some current =>
      next ← next_runnable_thread s (Some current);
      match next with
      | None => Ok (None, s)
      | Some next =>
          if bool_decide (next = current) && negb block_current then Ok (None, s)
          else
            s ← thread_mut s current (set_state (if block_current then Blocked else Runnable));
            switch_to s current next
      end
  end.

Definition prepare_wait_for_child {E} (s : SchedulerState) (child_process : ProcessId)
    : outcome E (option PreparedSwitch * SchedulerState) :=
  match current_thread s with
  | None => Ok (None, s)
  | Some current =>
      s ← thread_mut s current (block_for_child child_process);
      next ← next_runnable_thread s (Some current);
      match next with
      | None => Ok (None, s)
      | Some next => switch_to s current next
      end
  end.

Record ExitedThreadSwitch := mkExitSwitch {
  e_next_context : ContextPtr;
  e_next_space : AddressSpace;
  e_next_stack_top : Z;
  e_released_pages : OwnedPages
}.

Inductive ProcessExit :=
| Switch (sw : ExitedThreadSwitch)
| Shutdown (released_pages : OwnedPages).

(** The tail of [prepare_exit_current_process]. *)
Definition resume_after_exit {E} (s : SchedulerState) (next : ThreadId) (released_pages : OwnedPages)
    : outcome E (option ProcessExit * SchedulerState) :=
  let s := with_current (Some next) s in
  s ← thread_mut s next (set_state Running);
  a ← activation s next;
  _ ← thread s next;
  Ok (Some (Switch (mkExitSwitch (ContextOf next) (a_address_space a)
         (a_kernel_stack_top a) released_pages)), s).

Definition prepare_exit_current_process {E} (s : SchedulerState) (status : Z)
    : outcome E (option ProcessExit * SchedulerState) :=
  match current_thread s with
  | None => Ok (None, s)
  | Some current =>
      t ← thread s current;
      let pid := process_id t in
      '(waiting_action, s) ← process_mut s pid (λ p,
        let p := mark_exited status p in
        let '(waiting, p) := take_waiting_thread p in
        ((waiting, exit_action p), p));
      let '(waiting, action) := (waiting_action : option ThreadId * ProcessExitAction) in
      ts ← set_at (threads s) current None;
      let s := with_threads ts s in
      '(released_pages, s) ← process_mut s pid take_owned_pages;
      ps ← set_at (processes s) pid None;
      let s := with_processes ps s in
      if decide (action = ShutdownSystem) then
        Ok (Some (Shutdown released_pages), with_current None s)
      else
        '(next, s) ← match waiting with
          | Some waiting =>
              s ← thread_mut s waiting (λ t, wake (set_wait_result status t));
              Ok (Some waiting, s)
          | None =>
              next ← next_runnable_thread s (Some current); Ok (next, s)
          end;
        match next with
        | None => Ok (None, s)
        | Some next => resume_after_exit s next released_pages
        end
  end.

(** ** The machine (core.rs, mod.asm)

    The processor's callee-saved registers, the loaded address space and the
    kernel stack of the TSS.  [cpu] is what the registers hold when
    [context_switch] is entered, and what it leaves in them. *)

Record Machine := mkMachine {
  sched : SchedulerState;
  cpu : ThreadContext;
  active_space : AddressSpace;
  kernel_stack : Z
}.

Definition set_context (c : ThreadContext) (t : Thread) : Thread :=
  mkThread (t_id t) (t_name t) (process_id t) (start t) (t_state t) (block_reason t)
    (wait_result t) c (kernel_stack_top t).

Definition write_context {E} (s : SchedulerState) (ptr : ContextPtr) (c : ThreadContext)
    : outcome E SchedulerState :=
  match ptr with
  | BootstrapContext => Ok (with_bootstrap c s)
  | ContextOf i => thread_mut s i (set_context c)
  end.
Definition read_context {E} (s : SchedulerState) (ptr : ContextPtr) : outcome E ThreadContext :=
  match ptr with
  | BootstrapContext => Ok (bootstrap_context s)
  | ContextOf i => t ← thread s i; Ok (context t)
  end.

Definition context_switch {E} (m : Machine) (current next : ContextPtr) : outcome E Machine :=
  s ← write_context (sched m) current (cpu m);
  c ← read_context s next;
  Ok (mkMachine s c (active_space m) (kernel_stack m)).

Definition activate_address_space (space : AddressSpace) (top : Z) (m : Machine) : Machine :=
  mkMachine (sched m) (cpu m) space top.

Definition with_sched (s : SchedulerState) (m : Machine) : Machine :=
  mkMachine s (cpu m) (active_space m) (kernel_stack m).

(** [None]: the machine halted. *)
Definition start_first {E} (m : Machine) : outcome E (option Machine) :=
  next ← next_runnable_thread (sched m) None;
  match next with
  | None => Ok None
  | Some i =>
      s ← thread_mut (with_current (Some i) (sched m)) i (set_state Running);
      a ← activation s i;
      let m := activate_address_space (a_address_space a) (a_kernel_stack_top a) (with_sched s m) in
      Some <$> context_switch m BootstrapContext (ContextOf (a_thread_id a))
  end.

(** The second component tells whether a switch happened. *)
Definition perform {E} (m : Machine) (r : option PreparedSwitch * SchedulerState)
    : outcome E (bool * Machine) :=
  match r with
  | (None, s) => Ok (false, with_sched s m)
  | (Some sw, s) =>
      let m := activate_address_space (next_space sw) (next_stack_top sw) (with_sched s m) in
      m ← context_switch m (current_context sw) (next_context sw);
      Ok (true, m)
  end.

Definition yield_now {E} (m : Machine) : outcome E Machine :=
  r ← prepare_switch (sched m) false; '(_, m) ← perform m r; Ok m.

(** [wait_for_child] up to its context switch, and after it: what the caller
    does when it is resumed. *)
Definition wait_for_child {E} (m : Machine) (child_process : ProcessId) : outcome E (bool * Machine) :=
  r ← prepare_wait_for_child (sched m) child_process; perform m r.

Definition wait_for_child_result {E} (m : Machine) : outcome E (option Z * Machine) :=
  match current_thread (sched m) with
  | None => Ok (None, m)
  | Some current =>
      t ← thread (sched m) current;
      s ← thread_mut (sched m) current (λ t, (take_wait_result t).2);
      Ok ((take_wait_result t).1, with_sched s m)
  end.

(** What an exit hands to the page allocator, and the machine after it:
    [None] when the system stops or halts.  No thread runs after that; what
    the stop still writes and prints is [Startup.shut_down]. *)
Definition exit_current_process {E} (m : Machine) (status : Z)
    : outcome E (OwnedPages * option Machine) :=
  '(exit, s) ← prepare_exit_current_process (sched m) status;
  let m := with_sched s m in
  match exit with
  | None => Ok (OwnedPages_empty, None)
  | Some (Switch sw) =>
      let m := activate_address_space (e_next_space sw) (e_next_stack_top sw) m in
      m ← context_switch m BootstrapContext (e_next_context sw);
      Ok (e_released_pages sw, Some m)
  | Some (Shutdown released_pages) => Ok (OwnedPages_empty, None)
  end.

Definition run_current_thread_start {E} (s : SchedulerState) : outcome E ThreadStart :=
  current ← expect (current_thread s); t ← thread s current; Ok (start t).

(** ** Calls

    What the running thread can ask of the scheduler.  Spawning and waiting
    for the child are one call in the source ([services.rs]); between its
    context switch and its return other threads run. *)

Inductive call :=
| CYield
| CCompute (registers : ThreadContext)
| CSpawn (program : LoadedUserProgram) (silent : bool)
| CResult
| CExit (status : Z)
| CSetEnv (key value : list Z)
| CUnsetEnv (key : list Z)
| CChdir (path : list Z).

(** A change of the current process that leaves it alone when it fails. *)
Definition update_current {E} (m : Machine) (f : Process → outcome EnvironmentError Process)
    : outcome E Machine :=
  match current_thread (sched m) with
  | None => Ok m
  | Some current =>
      t ← thread (sched m) current;
      p ← process (sched m) (process_id t);
      match f p with
      | Ok p =>
          '(_, s) ← process_mut (sched m) (process_id t) (λ _, ((), p)); Ok (with_sched s m)
      | Err _ => Ok m
      | Panic => Panic
      | Hang => Hang
      end
  end.

(** [None]: the machine has been shut down or halted. *)
Definition run_call (m : Machine) (c : call) : res (option Machine) :=
  match c with
  | CYield => m ← yield_now m; Ok (Some m)
  | CCompute r => Ok (Some (mkMachine (sched m) r (active_space m) (kernel_stack m)))
  | CSpawn program silent =>
      match current_thread (sched m) with
      | None => Ok (Some m)
      | Some current =>
          '(r, s) ← spawn_child_process (sched m) current program silent;
          match r with
          | inr _ => Ok (Some (with_sched s m))
          | inl child => '(_, m) ← wait_for_child (with_sched s m) child; Ok (Some m)
          end
      end
  | CResult => '(_, m) ← wait_for_child_result m; Ok (Some m)
  | CExit status => '(_, m) ← exit_current_process m status; Ok m
  | CSetEnv k v => m ← update_current m (set_env k v); Ok (Some m)
  | CUnsetEnv k =>
      m ← update_current m (λ p, '(_, p) ← remove_env k p; Ok p); Ok (Some m)
  | CChdir c => m ← update_current m (λ p, o ← set_cwd c p; Ok (default p o)); Ok (Some m)
  end.

(** ** Bring-up (bootstrap.rs, main.rs) *)

Definition set_process_env (s : SchedulerState) (pid : ProcessId) (key value : list Z)
    : outcome EnvironmentError SchedulerState :=
  p ← process s pid;
  p ← set_env key value p;
  '(_, s) ← process_mut s pid (λ _, ((), p)); Ok s.

(** The tail of the kernel's entry point: the two processes and three
    threads of a booted system, and the first switch.  The loaded program,
    the kernel's address space, the entry points and the registers at that
    moment are given. *)
Definition boot (kernel_space : AddressSpace) (program : LoadedUserProgram)
    (terminal_entry idle_entry : Z) (registers : ThreadContext) : res (option Machine) :=
  '(kernel_process, s) ← create_process SchedulerState_new
    (mkConfig "kernel-system" kernel_space None OwnedPages_empty Continue);
  '(user_process, s) ← create_process s
    (mkConfig "user-bootstrap" (lp_address_space program) (Some TerminalEndpointObject)
       (lp_owned_pages program) ShutdownSystem);
  match set_process_env s user_process (ascii "PATH") (ascii "/system/bin:/bin") with
  | Ok s =>
      '(_, s) ← create_kernel_thread s "terminal" kernel_process terminal_entry;
      '(_, s) ← create_user_thread s "user-bootstrap-main" user_process
        (lp_entry_point program) (lp_user_stack_top program);
      '(idle, s) ← create_kernel_thread s "idle" kernel_process idle_entry;
      start_first (mkMachine (mark_idle_thread s idle) registers kernel_space 0)
  | _ => Panic
  end.

End Scheduler.

(** ** What the scheduler maintains *)

Definition is_user (t : Thread) : bool :=
  match start t with UserStart _ _ => true | KernelStart _ => false end.

(** The thread waits for process [q], or process [q] is waited for by [i]. *)
Definition waits_for (t : Thread) (q : ProcessId) : Prop :=
  t_state t = Blocked ∧ block_reason t = WaitingForChild q.
Definition waited_by (P : ProcessId → option Process) (q : ProcessId) (i : ThreadId) : Prop :=
  ∃ p, P q = Some p ∧ waiting_thread p = Some i.

(** The invariant speaks of the two tables as partial functions. *)
Record tables_ok (T : ThreadId → option Thread) (P : ProcessId → option Process)
    (current idle : option ThreadId) : Prop := {
  ok_process : ∀ i p, P i = Some p → p_id p = i ∧ proc_ok p;
  ok_thread : ∀ i t, T i = Some t → t_id t = i ∧ is_Some (P (process_id t));
  ok_current : ∃ c t, current = Some c ∧ T c = Some t ∧ t_state t = Running;
  ok_running : ∀ i t, T i = Some t → t_state t = Running → current = Some i;
  ok_idle : ∃ i t, idle = Some i ∧ T i = Some t ∧ is_user t = false;
  ok_kernel : ∀ i t, T i = Some t → is_user t = false → t_state t ≠ Blocked;
  ok_blocked : ∀ i t, T i = Some t → t_state t = Blocked →
    ∃ q, waits_for t q ∧ waited_by P q i;
  ok_waiting : ∀ q i, waited_by P q i → ∃ t, T i = Some t ∧ waits_for t q;
  ok_alone : ∀ i j ti tj, T i = Some ti → T j = Some tj → is_user ti = true →
    process_id ti = process_id tj → i = j;
  (** A waiting thread comes before the thread of the child it waits for. *)
  ok_order : ∃ rank : ThreadId → nat, ∀ q i, waited_by P q i →
    ∃ j t, T j = Some t ∧ process_id t = q ∧ is_user t = true ∧ rank i < rank j;
  (** The exit of a process that is waited for does not stop the system. *)
  ok_child : ∀ q p, P q = Some p → is_Some (waiting_thread p) → exit_action p = Continue
}.

Record sizes_ok (s : SchedulerState) : Prop := {
  ok_processes : length (processes s) = MAX_PROCESSES;
  ok_threads : length (threads s) = MAX_THREADS;
  ok_stacks : length (stacks s) = MAX_THREADS
}.

Definition sched_ok (s : SchedulerState) : Prop :=
  sizes_ok s ∧ tables_ok (thread_at s) (process_at s) (current_thread s) (idle_thread s).

(** The running thread is a user thread: only those issue system calls. *)
Definition in_user_thread (s : SchedulerState) : bool :=
  match current_thread s ≫= thread_at s with Some t => is_user t | None => false end.

Definition admissible (s : SchedulerState) (c : call) : bool :=
  match c with
  | CYield | CCompute _ => true
  | CSpawn _ _ | CResult | CExit _ => in_user_thread s
  | CSetEnv k v => in_user_thread s && utf8_valid k && utf8_valid v
  | CUnsetEnv k => in_user_thread s && utf8_valid k
  | CChdir c => in_user_thread s && utf8_valid c
  end.

(** A thread the scheduler prefers to the idle thread. *)
Definition eligible (s : SchedulerState) (i : nat) : Prop :=
  ∃ t, thread_at s i = Some t ∧ Some i ≠ idle_thread s ∧ may_run (t_state t) = true.

(** One call of the running thread, and any number of them. *)
Definition step (stack_end : nat → Z) (trampoline : Z) (m m' : Machine) : Prop :=
  ∃ c, admissible (sched m) c = true ∧ run_call stack_end trampoline m c = Ok (Some m').
Definition runs_to (stack_end : nat → Z) (trampoline : Z) : Machine → Machine → Prop :=
  rtc (step stack_end trampoline).

(** Stacks are 16-aligned arrays of [THREAD_STACK_SIZE] bytes. *)
Definition stacks_placed (stack_end : nat → Z) : Prop :=
  ∀ i, i < MAX_THREADS → ∃ base, stack_end i = (base + THREAD_STACK_SIZE)%Z ∧
    (0 ≤ base)%Z ∧ (base mod 16 = 0)%Z ∧ (stack_end i < 2 ^ 64)%Z.

(** * Lemmas *)

(** ** Slots *)

Lemma mjoin_insert {A} (l : list (option A)) i x j :
  i < length l → mjoin (<[i := x]> l !! j) = if decide (i = j) then x else mjoin (l !! j).
Proof.
  intros Hi. case_decide as Hij; [subst|by rewrite list_lookup_insert_ne].
  rewrite list_lookup_insert_eq by done. by destruct x.
Qed.

Lemma mjoin_Some_lt {A} (l : list (option A)) i x : mjoin (l !! i) = Some x → i < length l.
Proof. intros H. apply lookup_lt_is_Some. destruct (l !! i); [by eexists|done]. Qed.

Lemma first_free_slot {A} (l : list (option A)) i :
  first_free l = Some i → mjoin (l !! i) = None ∧ i < length l.
Proof. intros [H Hi]%first_free_Some. by rewrite H. Qed.

Lemma thread_Ok {E} s i t : thread_at s i = Some t → thread (E:=E) s i = Ok t.
Proof. unfold thread. by intros ->. Qed.
Lemma process_Ok {E} s i p : process_at s i = Some p → process (E:=E) s i = Ok p.
Proof. unfold process. by intros ->. Qed.

Lemma thread_mut_Ok {E} s i t f :
  thread_at s i = Some t →
  thread_mut (E:=E) s i f = Ok (with_threads (<[i := Some (f t)]> (threads s)) s).
Proof. intros Ht. unfold thread_mut. by rewrite (thread_Ok _ _ _ Ht). Qed.
Lemma process_mut_Ok {E R} s i p (f : Process → R * Process) :
  process_at s i = Some p →
  process_mut (E:=E) s i f = Ok ((f p).1, with_processes (<[i := Some (f p).2]> (processes s)) s).
Proof. intros Hp. unfold process_mut. by rewrite (process_Ok _ _ _ Hp). Qed.

(** ** Choosing the next thread *)

Section Next.
Context (s : SchedulerState) (Hn : length (threads s) = MAX_THREADS).
Context (Hid : ∀ i t, thread_at s i = Some t → t_id t = i).

Lemma next_non_idle_spec {E} current :
  let first := match current with Some c => (c + 1) mod MAX_THREADS | None => 0 end in
  ∃ r, next_non_idle_runnable_thread (E:=E) s current = Ok r ∧
    match r with
    | Some i => eligible s i ∧ ∃ o, o < MAX_THREADS ∧ i = (first + o) mod MAX_THREADS ∧
        ∀ o', o' < o → ¬ eligible s ((first + o') mod MAX_THREADS)
    | None => ∀ o, o < MAX_THREADS → ¬ eligible s ((first + o) mod MAX_THREADS)
    end.
Proof.
  intros first. unfold next_non_idle_runnable_thread. rewrite Hn. fold first.
  apply (while_rule
    (λ o, o ≤ MAX_THREADS ∧ ∀ o', o' < o → ¬ eligible s ((first + o') mod MAX_THREADS))
    (λ o, MAX_THREADS - o)
    (λ m, ∃ r, m = Ok r ∧ match r with
      | Some i => eligible s i ∧ ∃ o, o < MAX_THREADS ∧ i = (first + o) mod MAX_THREADS ∧
          ∀ o', o' < o → ¬ eligible s ((first + o') mod MAX_THREADS)
      | None => ∀ o, o < MAX_THREADS → ¬ eligible s ((first + o) mod MAX_THREADS)
      end)); [|split; [lia|intros; lia]|lia].
  intros o [Ho Hbefore]. case_decide as Hlt.
  2: { exists None. split; [done|]. intros o' Ho'. apply Hbefore. lia. }
  set (i := (first + o) mod MAX_THREADS).
  assert (i < length (threads s)) as Hi by (rewrite Hn; apply Nat.mod_upper_bound; done).
  destruct (lookup_lt_is_Some_2 _ _ Hi) as [slot Hslot].
  rewrite (get_at_Ok _ _ _ Hslot). cbn [mbind outcome_bind].
  assert (thread_at s i = slot) as Hat by (unfold thread_at; rewrite Hslot; by destruct slot).
  assert (¬ eligible s i → S o ≤ MAX_THREADS ∧
    (∀ o', o' < S o → ¬ eligible s ((first + o') mod MAX_THREADS))) as Hgo.
  { intros He. split; [lia|]. intros o' Ho'. destruct (decide (o' = o)) as [->|]; [done|].
    apply Hbefore. lia. }
  destruct slot as [t|]; [|split; [|lia]; apply Hgo; intros (? & ? & _); congruence].
  pose proof (Hid _ _ Hat) as Hti.
  case_decide as Hidle; [split; [|lia]; apply Hgo; intros (? & ? & ? & _); congruence|].
  destruct (may_run (t_state t)) eqn:Hr; [|split; [|lia]; apply Hgo; intros (? & ? & ? & ?); congruence].
  exists (Some (t_id t)). split; [done|]. rewrite Hti in *. split; [by exists t|].
  exists o. split_and!; done.
Qed.

Lemma mod_offset c i :
  c < MAX_THREADS → i < MAX_THREADS →
  ∃ o, o < MAX_THREADS ∧ i = (c + o) mod MAX_THREADS.
Proof.
  unfold MAX_THREADS. intros Hc Hi. exists ((i + 12 - c) mod 12).
  split; [by apply Nat.mod_upper_bound|].
  rewrite Nat.Div0.add_mod_idemp_r. replace (c + (i + 12 - c)) with (i + 1 * 12) by lia.
  rewrite Nat.Div0.mod_add. symmetry. by apply Nat.mod_small.
Qed.

(** The idle thread is chosen only when no other thread can run. *)
Lemma next_runnable_spec {E} current i t :
  idle_thread s = Some i → thread_at s i = Some t → may_run (t_state t) = true →
  ∃ n tn, next_runnable_thread (E:=E) s current = Ok (Some n) ∧ thread_at s n = Some tn ∧
    may_run (t_state tn) = true ∧ (n = i → ∀ j, ¬ eligible s j).
Proof.
  intros Hidle Ht Hrun. unfold next_runnable_thread.
  destruct (next_non_idle_spec (E:=E) current) as (r & -> & Hr). cbn [mbind outcome_bind].
  destruct r as [n|].
  - destruct Hr as [(tn & Htn & Hne & Hmr) _]. exists n, tn. split_and!; try done. congruence.
  - rewrite Hidle, (thread_Ok _ _ _ Ht). cbn [mbind outcome_bind]. rewrite Hrun.
    exists i, t. split_and!; try done. intros _ j Hj.
    assert (j < MAX_THREADS) as Hlt
      by (destruct Hj as (tj & Htj & _); rewrite <-Hn; by eapply mjoin_Some_lt).
    set (first := match current with Some c => (c + 1) mod MAX_THREADS | None => 0 end) in Hr.
    destruct (mod_offset first j) as (o & Ho & ->); [|done|by eapply Hr].
    unfold first. destruct current; [by apply Nat.mod_upper_bound|unfold MAX_THREADS; lia].
Qed.

End Next.

(** ** The invariant under table changes *)

(** Two threads that differ in nothing the invariant looks at. *)
Definition alike (t t' : Thread) : Prop :=
  t_id t' = t_id t ∧ process_id t' = process_id t ∧ start t' = start t.

Definition same_view (t t' : Thread) : Prop :=
  alike t t' ∧ t_state t' = t_state t ∧ block_reason t' = block_reason t.

Lemma alike_refl t : alike t t.
Proof. done. Qed.
#[export] Hint Resolve alike_refl : core.

Lemma alike_user t t' : alike t t' → is_user t' = is_user t.
Proof. intros (_ & _ & H). unfold is_user. by rewrite H. Qed.

Section Tables.
Context (T : ThreadId → option Thread) (P : ProcessId → option Process).
Context (c : ThreadId) (idle : option ThreadId) (Hok : tables_ok T P (Some c) idle).

Lemma running_is_current i t : T i = Some t → t_state t = Running → i = c.
Proof. intros Hi Hr. pose proof (ok_running _ _ _ _ Hok _ _ Hi Hr). congruence. Qed.

Lemma current_runs : ∃ tc, T c = Some tc ∧ t_state tc = Running.
Proof. destruct (ok_current _ _ _ _ Hok) as (c' & t & [= <-] & ? & ?). eauto. Qed.

Lemma waited_blocked q i t : waited_by P q i → T i = Some t → waits_for t q.
Proof. intros Hw Ht. destruct (ok_waiting _ _ _ _ Hok _ _ Hw) as (t' & ? & ?). congruence. Qed.

(** A change of what the invariant does not look at. *)
Lemma tables_similar T' :
  (∀ j, match T j, T' j with
        | Some t, Some t' => same_view t t' | None, None => True | _, _ => False end) →
  tables_ok T' P (Some c) idle.
Proof.
  intros HT.
  assert (∀ j t', T' j = Some t' → ∃ t, T j = Some t ∧ same_view t t') as Hback.
  { intros j t' Hj. specialize (HT j). rewrite Hj in HT. destruct (T j); [eauto|done]. }
  assert (∀ j t, T j = Some t → ∃ t', T' j = Some t' ∧ same_view t t') as Hforth.
  { intros j t Hj. specialize (HT j). rewrite Hj in HT. destruct (T' j); [eauto|done]. }
  clear HT. split.
  - apply (ok_process _ _ _ _ Hok).
  - intros i t' (t & Ht & ((Hi & Hp & _) & _))%Hback. rewrite Hi, Hp.
    by apply (ok_thread _ _ _ _ Hok).
  - destruct current_runs as (t & (t' & Ht' & _ & Hs & _)%Hforth & Hr).
    eexists _, t'. split_and!; [done|done|congruence].
  - intros i t' (t & Ht & (_ & Hs & _))%Hback Hr. rewrite Hs in Hr.
    by apply (ok_running _ _ _ _ Hok _ _ Ht).
  - destruct (ok_idle _ _ _ _ Hok) as (i & t & Hi & Ht & Hu).
    destruct (Hforth _ _ Ht) as (t' & Ht' & Ha & _). exists i, t'.
    split_and!; [done|done|by rewrite (alike_user _ _ Ha)].
  - intros i t' (t & Ht & (Ha & Hs & _))%Hback. rewrite (alike_user _ _ Ha), Hs.
    by apply (ok_kernel _ _ _ _ Hok i).
  - intros i t' (t & Ht & (Ha & Hs & Hb))%Hback Hbl. rewrite Hs in Hbl.
    destruct (ok_blocked _ _ _ _ Hok _ _ Ht Hbl) as (q & [? ?] & ?). exists q.
    split; [split; congruence|done].
  - intros q i Hw. destruct (ok_waiting _ _ _ _ Hok _ _ Hw) as (t & Ht & [? ?]).
    destruct (Hforth _ _ Ht) as (t' & Ht' & _ & ? & ?). exists t'. split; [done|split; congruence].
  - intros i j ti tj (ti0 & Hi & (Hai & _))%Hback (tj0 & Hj & (Haj & _))%Hback Hu Hp.
    rewrite (alike_user _ _ Hai) in Hu. destruct Hai as (_ & Hpi & _), Haj as (_ & Hpj & _).
    apply (ok_alone _ _ _ _ Hok i j ti0 tj0); congruence.
  - destruct (ok_order _ _ _ _ Hok) as [rank Hrank]. exists rank. intros q i Hw.
    destruct (Hrank _ _ Hw) as (j & t & Ht & Hp & Hu & Hlt).
    destruct (Hforth _ _ Ht) as (t' & Ht' & Ha & _). exists j, t'.
    split_and!; [done| |by rewrite (alike_user _ _ Ha)|done].
    destruct Ha as (_ & ? & _). congruence.
  - apply (ok_child _ _ _ _ Hok).
Qed.

(** A change of a process's own resources. *)
Lemma tables_process P' q p p' :
  P q = Some p → same_core p p' → proc_ok p' →
  (∀ j, P' j = if decide (q = j) then Some p' else P j) →
  tables_ok T P' (Some c) idle.
Proof.
  intros Hq (Hpi & _ & Hwt & _ & Hact) Hp' HP.
  assert (∀ r i, waited_by P' r i ↔ waited_by P r i) as Hw.
  { intros r i. unfold waited_by. rewrite HP. case_decide; [subst|done].
    split; intros (p0 & ? & ?); simplify_eq; eexists; split; eauto; congruence. }
  destruct Hok as [H1 H2 H3 H4 H5 H6 H7 H8 H9 H10 H11]. split; try done.
  - intros i p0. rewrite HP. case_decide; [intros; simplify_eq|apply H1].
    split; [|done]. rewrite Hpi. by apply H1.
  - intros i t Ht. split; [by apply H2|]. rewrite HP. case_decide; [done|by eapply H2].
  - intros i t Ht Hb. destruct (H7 _ _ Ht Hb) as (r & ? & ?). exists r. by rewrite Hw.
  - intros r i. rewrite Hw. apply H8.
  - destruct H10 as [rank Hr]. exists rank. intros r i. rewrite Hw. apply Hr.
  - intros i p0. rewrite HP. case_decide; [intros; simplify_eq|apply H11]. rewrite Hact. apply (H11 i p); congruence.
Qed.

(** A switch from [c] to another runnable thread [n]. *)
Lemma tables_switch T' n tc tn tc' tn' :
  T c = Some tc → T n = Some tn → n ≠ c → may_run (t_state tn) = true →
  alike tc tc' → t_state tc' = Runnable → alike tn tn' → t_state tn' = Running →
  (∀ j, T' j = if decide (n = j) then Some tn' else if decide (c = j) then Some tc' else T j) →
  tables_ok T' P (Some n) idle.
Proof.
  intros Hc Hn Hne Hmr Hac Hsc Han Hsn HT.
  destruct current_runs as (tc0 & Hc0 & Hrc). assert (tc0 = tc) as -> by congruence.
  assert (∀ j t', T' j = Some t' → ∃ t, T j = Some t ∧ alike t t' ∧
    (t_state t' = Blocked → t' = t)) as Hback.
  { intros j t'. rewrite HT. repeat case_decide; intros; simplify_eq; eauto.
    - eexists. split_and!; [done|done|congruence].
    - eexists. split_and!; [done|done|congruence]. }
  assert (∀ j t, T j = Some t → ∃ t', T' j = Some t' ∧ alike t t') as Hforth.
  { intros j t. rewrite HT. repeat case_decide; intros; simplify_eq; eauto. }
  split.
  - apply (ok_process _ _ _ _ Hok).
  - intros i t' (t & Ht & ((Hi & Hp & _) & _))%Hback. rewrite Hi, Hp.
    by apply (ok_thread _ _ _ _ Hok).
  - exists n, tn'. rewrite HT, decide_True by done. done.
  - intros i t'. rewrite HT. repeat case_decide; intros Ht Hr; [congruence..|].
    pose proof (running_is_current _ _ Ht Hr). congruence.
  - destruct (ok_idle _ _ _ _ Hok) as (i & t & Hi & Ht & Hu).
    destruct (Hforth _ _ Ht) as (t' & Ht' & Ha). exists i, t'.
    split_and!; [done|done|by rewrite (alike_user _ _ Ha)].
  - intros i t' (t & Ht & Ha & Hb)%Hback Hu Hbl. specialize (Hb Hbl); subst t'.
    by apply (ok_kernel _ _ _ _ Hok i t).
  - intros i t' (t & Ht & Ha & Hb)%Hback Hbl. specialize (Hb Hbl); subst t'.
    by apply (ok_blocked _ _ _ _ Hok i t).
  - intros q i Hw. destruct (ok_waiting _ _ _ _ Hok _ _ Hw) as (t & Ht & Hwt).
    exists t. split; [|done]. rewrite HT. destruct Hwt as [Hbl _].
    repeat case_decide; subst; simplify_eq; try done.
    + rewrite Hbl in Hmr. done.
    + congruence.
  - intros i j ti tj (ti0 & Hi & Hai & _)%Hback (tj0 & Hj & Haj & _)%Hback Hu Hp.
    rewrite (alike_user _ _ Hai) in Hu. destruct Hai as (_ & Hpi & _), Haj as (_ & Hpj & _).
    apply (ok_alone _ _ _ _ Hok i j ti0 tj0); congruence.
  - destruct (ok_order _ _ _ _ Hok) as [rank Hrank]. exists rank. intros q i Hw.
    destruct (Hrank _ _ Hw) as (j & t & Ht & Hp & Hu & Hlt).
    destruct (Hforth _ _ Ht) as (t' & Ht' & Ha). exists j, t'.
    split_and!; [done| |by rewrite (alike_user _ _ Ha)|done].
    destruct Ha as (_ & ? & _). congruence.
  - apply (ok_child _ _ _ _ Hok).
Qed.

(** A new process, and a new user thread in a process without threads. *)
Lemma tables_add_process P' q p :
  P q = None → p_id p = q → proc_ok p → waiting_thread p = None →
  (∀ j, P' j = if decide (q = j) then Some p else P j) →
  tables_ok T P' (Some c) idle.
Proof.
  intros Hq Hp Hpo Hwt HP.
  assert (∀ r i, waited_by P' r i ↔ waited_by P r i) as Hw.
  { intros r i. unfold waited_by. rewrite HP. case_decide; [subst|done].
    split; intros (p0 & ? & ?); simplify_eq; congruence. }
  destruct Hok as [H1 H2 H3 H4 H5 H6 H7 H8 H9 H10 H11]. split; try done.
  - intros i p0. rewrite HP. case_decide; [intros; simplify_eq; done|apply H1].
  - intros i t Ht. split; [by apply H2|]. rewrite HP. case_decide; [done|by eapply H2].
  - intros i t Ht Hb. destruct (H7 _ _ Ht Hb) as (r & ? & ?). exists r. by rewrite Hw.
  - intros r i. rewrite Hw. apply H8.
  - destruct H10 as [rank Hr]. exists rank. intros r i. rewrite Hw. apply Hr.
  - intros i p0. rewrite HP. case_decide; [intros [= <-]; rewrite Hwt; by intros [? ?]|apply H11].
Qed.

Lemma tables_add_thread T' k t :
  T k = None → t_id t = k → is_Some (P (process_id t)) → t_state t = Runnable →
  (∀ j tj, T j = Some tj → process_id tj ≠ process_id t) →
  (∀ j, T' j = if decide (k = j) then Some t else T j) →
  tables_ok T' P (Some c) idle.
Proof.
  intros Hk Hid Hp Hs Hfresh HT.
  assert (∀ j tj, T j = Some tj → T' j = Some tj) as Hforth.
  { intros j tj Hj. rewrite HT. case_decide; congruence. }
  destruct Hok as [H1 H2 H3 H4 H5 H6 H7 H8 H9 H10 H11]. split; try done.
  - intros i ti. rewrite HT. case_decide; [intros; simplify_eq; done|apply H2].
  - destruct H3 as (c' & tc & ? & ? & ?). exists c', tc. auto.
  - intros i ti. rewrite HT. case_decide; [intros; congruence|apply H4].
  - destruct H5 as (i & ti & ? & ? & ?). exists i, ti. auto.
  - intros i ti. rewrite HT. case_decide; [intros; congruence|apply H6].
  - intros i ti. rewrite HT. case_decide; [intros; congruence|apply H7].
  - intros r i Hw. destruct (H8 _ _ Hw) as (ti & ? & ?). exists ti. auto.
  - intros i j ti tj. rewrite !HT. repeat case_decide; intros Hi Hj Hu Hpp; [congruence|..|by eauto].
    + simplify_eq. by destruct (Hfresh j tj).
    + simplify_eq. by destruct (Hfresh i ti).
  - destruct H10 as [rank Hr]. exists rank. intros r i Hw.
    destruct (Hr _ _ Hw) as (j & tj & ? & ? & ? & ?). exists j, tj. auto.
Qed.

(** [c] starts to wait for the process [q], whose thread is [k]; [n] runs. *)
Lemma tables_block T' P' q p p' k tk n tn tc tc' tn' :
  P q = Some p → waiting_thread p = None → p_id p' = q → proc_ok p' → waiting_thread p' = Some c →
  exit_action p' = Continue →
  T k = Some tk → process_id tk = q → is_user tk = true → t_state tk ≠ Blocked →
  T c = Some tc → is_user tc = true → process_id tc ≠ q →
  T n = Some tn → n ≠ c → may_run (t_state tn) = true →
  alike tc tc' → waits_for tc' q → alike tn tn' → t_state tn' = Running →
  (∀ j, T' j = if decide (n = j) then Some tn' else if decide (c = j) then Some tc' else T j) →
  (∀ j, P' j = if decide (q = j) then Some p' else P j) →
  tables_ok T' P' (Some n) idle.
Proof.
  intros Hq Hwt Hpi Hpo Hwt' Hact Hk Hkq Hku Hkb Hc Hcu Hcq Hn Hne Hmr Hac Hwc Han Hsn HT HP.
  assert (∀ r i, waited_by P' r i ↔ (r = q ∧ i = c) ∨ (r ≠ q ∧ waited_by P r i)) as Hw.
  { intros r i. unfold waited_by. rewrite HP. case_decide; subst.
    - split; [intros (p0 & ? & ?); simplify_eq; left; split; congruence|].
      intros [[_ ->]|[? _]]; [eauto|done].
    - split; [naive_solver|]. intros [[-> _]|[_ ?]]; [done|naive_solver]. }
  assert (∀ j t', T' j = Some t' → ∃ t, T j = Some t ∧ alike t t' ∧
    (t_state t' = Blocked → t' = t ∨ j = c)) as Hback.
  { intros j t'. rewrite HT. repeat case_decide; intros; simplify_eq; eauto 6.
    eexists. split_and!; [done|done|congruence]. }
  assert (∀ j t, T j = Some t → ∃ t', T' j = Some t' ∧ alike t t') as Hforth.
  { intros j t. rewrite HT. repeat case_decide; intros; simplify_eq; eauto. }
  assert (T' c = Some tc') as HTc by (rewrite HT, decide_False, decide_True; done).
  split.
  - intros i p0. rewrite HP. case_decide; [intros; simplify_eq; done|apply (ok_process _ _ _ _ Hok)].
  - intros i t' (t & Ht & (Hi & Hp & _) & _)%Hback. rewrite Hi, Hp.
    destruct (ok_thread _ _ _ _ Hok _ _ Ht) as [? ?]. split; [done|].
    rewrite HP. by case_decide.
  - exists n, tn'. rewrite HT, decide_True by done. done.
  - intros i t'. rewrite HT. repeat case_decide; intros Ht Hr; [congruence|destruct Hwc; congruence|].
    pose proof (running_is_current _ _ Ht Hr). congruence.
  - destruct (ok_idle _ _ _ _ Hok) as (i & t & Hi & Ht & Hu).
    destruct (Hforth _ _ Ht) as (t' & Ht' & Ha). exists i, t'.
    split_and!; [done|done|by rewrite (alike_user _ _ Ha)].
  - intros i t' (t & Ht & Ha & Hb)%Hback Hu Hbl. destruct (Hb Hbl) as [->| ->].
    + by apply (ok_kernel _ _ _ _ Hok i t).
    + rewrite (alike_user _ _ Ha) in Hu. congruence.
  - intros i t' Ht' Hbl. destruct (Hback _ _ Ht') as (t & Ht & Ha & Hb). destruct (Hb Hbl) as [->| ->].
    + destruct (ok_blocked _ _ _ _ Hok i t Ht Hbl) as (r & Hwf & Hwb).
      exists r. split; [done|]. apply Hw. right. split; [|done].
      intros ->. destruct Hwb as (p0 & ? & ?). congruence.
    + exists q. replace t' with tc' by congruence. split; [done|]. apply Hw. by left.
  - intros r i [[-> ->]|[Hr Hwb]]%Hw; [eauto|].
    destruct (ok_waiting _ _ _ _ Hok _ _ Hwb) as (t & Ht & Hwf).
    exists t. split; [|done]. rewrite HT. destruct Hwf as [Hbl _].
    destruct current_runs as (tc0 & ? & ?).
    repeat case_decide; subst; simplify_eq; [by rewrite Hbl in Hmr|congruence|done].
  - intros i j ti tj (ti0 & Hi & Hai & _)%Hback (tj0 & Hj & Haj & _)%Hback Hu Hp.
    rewrite (alike_user _ _ Hai) in Hu. destruct Hai as (_ & Hpi' & _), Haj as (_ & Hpj & _).
    apply (ok_alone _ _ _ _ Hok i j ti0 tj0); congruence.
  - destruct (ok_order _ _ _ _ Hok) as [rank Hrank].
    exists (λ x, if decide (x = k) then S (rank c + rank k) else rank x).
    destruct (Hforth _ _ Hk) as (tk' & Htk' & Hak).
    intros r i [[-> ->]|[Hr Hwb]]%Hw.
    + exists k, tk'. split_and!; [done|destruct Hak as (_ & ? & _); congruence|
        by rewrite (alike_user _ _ Hak)|].
      rewrite (decide_False (P:=c = k)), decide_True; [lia|done|congruence].
    + destruct (Hrank _ _ Hwb) as (j & t & Ht & Hp & Hu & Hlt).
      destruct (Hforth _ _ Ht) as (t' & Ht' & Ha). exists j, t'.
      split_and!; [done|destruct Ha as (_ & ? & _); congruence|by rewrite (alike_user _ _ Ha)|].
      rewrite (decide_False (P:=j = k)) by congruence.
      rewrite decide_False; [done|]. intros ->.
      destruct (ok_waiting _ _ _ _ Hok _ _ Hwb) as (tw & ? & ? & _). congruence.
  - intros i p0. rewrite HP. case_decide; [congruence|apply (ok_child _ _ _ _ Hok)].
Qed.

(** [c], a user thread of a process [q], is gone with its process; [n] runs:
    either the thread that waited for [q], or, when nobody did, any other. *)
Lemma tables_exit T' P' q p tc n tn tn' :
  T c = Some tc → is_user tc = true → process_id tc = q → P q = Some p →
  T n = Some tn → n ≠ c →
  (waiting_thread p = Some n ∨ waiting_thread p = None ∧ may_run (t_state tn) = true) →
  alike tn tn' → t_state tn' = Running →
  (∀ j, T' j = if decide (n = j) then Some tn' else if decide (c = j) then None else T j) →
  (∀ j, P' j = if decide (q = j) then None else P j) →
  tables_ok T' P' (Some n) idle.
Proof.
  intros Hc Hcu Hcq Hq Hn Hne Hnext Han Hsn HT HP.
  destruct current_runs as (tc0 & Hc0 & Hrc). assert (tc0 = tc) as -> by congruence.
  assert (∀ r i, waited_by P' r i ↔ r ≠ q ∧ waited_by P r i) as Hw.
  { intros r i. unfold waited_by. rewrite HP. case_decide; naive_solver. }
  assert (∀ j t', T' j = Some t' → ∃ t, T j = Some t ∧ alike t t' ∧ j ≠ c ∧
    (t_state t' = Blocked → t' = t ∧ j ≠ n)) as Hback.
  { intros j t'. rewrite HT. repeat case_decide; intros; simplify_eq; eauto 8.
    eexists. split_and!; [done|done|done|congruence]. }
  assert (∀ j t, T j = Some t → j ≠ c → ∃ t', T' j = Some t' ∧ alike t t') as Hforth.
  { intros j t. rewrite HT. repeat case_decide; intros; simplify_eq; eauto. }
  assert (∀ r, r ≠ q → ¬ waited_by P r n) as Hnw.
  { intros r Hr Hwb. pose proof (waited_blocked _ _ _ Hwb Hn) as [Hb1 Hb2].
    destruct Hnext as [Hwq|[_ Hm]]; [|by rewrite Hb1 in Hm].
    assert (waited_by P q n) as Hwb' by (by exists p).
    destruct (waited_blocked _ _ _ Hwb' Hn). congruence. }
  split.
  - intros i p0. rewrite HP. case_decide; [done|apply (ok_process _ _ _ _ Hok)].
  - intros i t' (t & Ht & (Hi & Hp & _) & Hic & _)%Hback. rewrite Hi, Hp.
    destruct (ok_thread _ _ _ _ Hok _ _ Ht) as [? ?]. split; [done|].
    rewrite HP. case_decide; [|done]. destruct Hic.
    symmetry. apply (ok_alone _ _ _ _ Hok c i tc t); congruence.
  - exists n, tn'. rewrite HT, decide_True by done. done.
  - intros i t'. rewrite HT. repeat case_decide; intros Ht Hr; [congruence|congruence|].
    pose proof (running_is_current _ _ Ht Hr). congruence.
  - destruct (ok_idle _ _ _ _ Hok) as (i & t & Hi & Ht & Hu).
    destruct (Hforth _ _ Ht) as (t' & Ht' & Ha); [congruence|]. exists i, t'.
    split_and!; [done|done|by rewrite (alike_user _ _ Ha)].
  - intros i t' (t & Ht & Ha & _ & Hb)%Hback Hu Hbl. destruct (Hb Hbl); subst.
    by apply (ok_kernel _ _ _ _ Hok i t).
  - intros i t' (t & Ht & Ha & Hic & Hb)%Hback Hbl. destruct (Hb Hbl) as [-> Hin].
    destruct (ok_blocked _ _ _ _ Hok i t Ht Hbl) as (r & Hwf & Hwb).
    exists r. split; [done|]. apply Hw. split; [|done].
    intros ->. destruct Hwb as (p0 & ? & ?). destruct Hnext as [?|[? _]]; congruence.
  - intros r i [Hr Hwb]%Hw.
    destruct (ok_waiting _ _ _ _ Hok _ _ Hwb) as (t & Ht & Hwf).
    exists t. split; [|done]. rewrite HT.
    repeat case_decide; subst; [by destruct (Hnw r)|destruct Hwf; congruence|done].
  - intros i j ti tj (ti0 & Hi & Hai & _)%Hback (tj0 & Hj & Haj & _)%Hback Hu Hp.
    rewrite (alike_user _ _ Hai) in Hu. destruct Hai as (_ & Hpi' & _), Haj as (_ & Hpj & _).
    apply (ok_alone _ _ _ _ Hok i j ti0 tj0); congruence.
  - destruct (ok_order _ _ _ _ Hok) as [rank Hrank]. exists rank.
    intros r i [Hr Hwb]%Hw. destruct (Hrank _ _ Hwb) as (j & t & Ht & Hp & Hu & Hlt).
    destruct (Hforth _ _ Ht) as (t' & Ht' & Ha); [congruence|]. exists j, t'.
    split_and!; [done|destruct Ha as (_ & ? & _); congruence|by rewrite (alike_user _ _ Ha)|done].
  - intros i p0. rewrite HP. case_decide; [done|apply (ok_child _ _ _ _ Hok)].
Qed.

End Tables.

(** ** Changing one slot *)

Definition put_thread (i : nat) (x : option Thread) (s : SchedulerState) : SchedulerState :=
  with_threads (<[i := x]> (threads s)) s.
Definition put_process (i : nat) (x : option Process) (s : SchedulerState) : SchedulerState :=
  with_processes (<[i := x]> (processes s)) s.

Lemma thread_at_put i x s j :
  i < length (threads s) → thread_at (put_thread i x s) j = if decide (i = j) then x else thread_at s j.
Proof. apply mjoin_insert. Qed.
Lemma process_at_put i x s j :
  i < length (processes s) →
  process_at (put_process i x s) j = if decide (i = j) then x else process_at s j.
Proof. apply mjoin_insert. Qed.

Lemma thread_at_lt s i t : thread_at s i = Some t → i < length (threads s).
Proof. apply mjoin_Some_lt. Qed.
Lemma process_at_lt s i p : process_at s i = Some p → i < length (processes s).
Proof. apply mjoin_Some_lt. Qed.

Lemma thread_mut_put {E} s i t f :
  thread_at s i = Some t → thread_mut (E:=E) s i f = Ok (put_thread i (Some (f t)) s).
Proof. apply thread_mut_Ok. Qed.
Lemma process_mut_put {E R} s i p (f : Process → R * Process) :
  process_at s i = Some p →
  process_mut (E:=E) s i f = Ok ((f p).1, put_process i (Some (f p).2) s).
Proof. apply process_mut_Ok. Qed.

Lemma sizes_put_thread i x s : sizes_ok s → sizes_ok (put_thread i x s).
Proof. intros [? ? ?]. split; cbn; rewrite ?length_insert; done. Qed.
Lemma sizes_put_process i x s : sizes_ok s → sizes_ok (put_process i x s).
Proof. intros [? ? ?]. split; cbn; rewrite ?length_insert; done. Qed.
#[local] Hint Resolve sizes_put_thread sizes_put_process : core.

(** ** The machine *)

(** The running thread has its own address space and kernel stack. *)
Definition machine_ok (m : Machine) : Prop :=
  sched_ok (sched m) ∧ ∃ c t p, current_thread (sched m) = Some c ∧
    thread_at (sched m) c = Some t ∧ process_at (sched m) (process_id t) = Some p ∧
    active_space m = p_address_space p ∧ kernel_stack m = kernel_stack_top t.

(** What one call does to the saved contexts: those of other threads stay,
    the thread that loses the processor finds its registers in its own, and
    the one that gains it has them loaded. *)
Record step_spec (exits : bool) (m m' : Machine) : Prop := {
  st_ok : machine_ok m';
  st_idle : idle_thread (sched m') = idle_thread (sched m);
  st_frame : ∀ j t, current_thread (sched m) ≠ Some j → thread_at (sched m) j = Some t →
    ∃ t', thread_at (sched m') j = Some t' ∧ context t' = context t;
  st_load : ∀ b, current_thread (sched m') = Some b → current_thread (sched m) ≠ Some b →
    ∃ t, thread_at (sched m') b = Some t ∧ cpu m' = context t;
  st_save : ∀ a t, current_thread (sched m) = Some a → current_thread (sched m') ≠ Some a →
    thread_at (sched m') a = Some t → context t = cpu m;
  (** Only an exit touches a waiting thread. *)
  st_blocked : ∀ j t, exits = false → thread_at (sched m) j = Some t → t_state t = Blocked →
    thread_at (sched m') j = Some t;
  st_alive : exits = false → ∀ j, is_Some (thread_at (sched m) j) → is_Some (thread_at (sched m') j)
}.

(** The machine after a switch from [c] to [n] in the state [s]. *)
Definition switched (m : Machine) (s : SchedulerState) (c n : nat) (tc tn : Thread) (pn : Process)
    : Machine :=
  mkMachine
    (put_thread c (Some (set_context (cpu m) tc))
       (with_current (Some n) (put_thread n (Some (set_state Running tn)) s)))
    (context tn) (p_address_space pn) (kernel_stack_top tn).

Lemma switch_perform {E} m s c n tc tn pn :
  thread_at s c = Some tc → thread_at s n = Some tn → n ≠ c →
  process_at s (process_id tn) = Some pn →
  (r ← switch_to (E:=E) s c n; perform m r) = Ok (true, switched m s c n tc tn pn).
Proof.
  intros Hc Hn Hne Hp. pose proof (thread_at_lt _ _ _ Hc). pose proof (thread_at_lt _ _ _ Hn).
  unfold switch_to. rewrite (thread_mut_put _ _ _ _ Hn). cbn [mbind outcome_bind].
  set (s1 := with_current (Some n) (put_thread n (Some (set_state Running tn)) s)).
  assert (thread_at s1 c = Some tc) as Hc1
    by (change (thread_at (put_thread n (Some (set_state Running tn)) s) c = Some tc);
        rewrite thread_at_put, decide_False; done).
  assert (thread_at s1 n = Some (set_state Running tn)) as Hn1
    by (change (thread_at (put_thread n (Some (set_state Running tn)) s) n
          = Some (set_state Running tn)); rewrite thread_at_put, decide_True; done).
  rewrite (thread_Ok _ _ _ Hc1). cbn [mbind outcome_bind].
  rewrite (thread_Ok _ _ _ Hn1). cbn [mbind outcome_bind].
  unfold activation. rewrite (thread_Ok _ _ _ Hn1). cbn [mbind outcome_bind].
  rewrite (process_Ok s1 (process_id tn) pn Hp). cbn [mbind outcome_bind].
  unfold perform, context_switch, write_context. cbn [current_context next_context
    next_space next_stack_top sched activate_address_space with_sched cpu].
  rewrite (thread_mut_put _ _ _ _ Hc1). cbn [mbind outcome_bind read_context].
  assert (thread_at (put_thread c (Some (set_context (cpu m) tc)) s1) n
    = Some (set_state Running tn)) as Hn2
    by (rewrite thread_at_put by (cbn; by rewrite length_insert); by rewrite decide_False).
  rewrite (thread_Ok _ _ _ Hn2). done.
Qed.

Lemma switched_tables m s c n tc tn pn j :
  thread_at s c = Some tc → thread_at s n = Some tn → n ≠ c →
  thread_at (sched (switched m s c n tc tn pn)) j =
    if decide (n = j) then Some (set_state Running tn)
    else if decide (c = j) then Some (set_context (cpu m) tc) else thread_at s j.
Proof.
  intros Hc Hn Hne. pose proof (thread_at_lt _ _ _ Hc). pose proof (thread_at_lt _ _ _ Hn).
  unfold switched. cbn [sched]. rewrite thread_at_put by (cbn; by rewrite length_insert).
  change (thread_at (with_current ?a ?b) j) with (thread_at b j). rewrite thread_at_put by done.
  repeat case_decide; subst; congruence.
Qed.

Lemma machine_ok_current m :
  machine_ok m → ∃ c t, current_thread (sched m) = Some c ∧ thread_at (sched m) c = Some t ∧
    t_state t = Running ∧ t_id t = c ∧
    tables_ok (thread_at (sched m)) (process_at (sched m)) (Some c) (idle_thread (sched m)).
Proof.
  intros [[_ Ht] (c & t & p & Hc & Htc & _)]. exists c, t.
  pose proof Ht as Ht'. rewrite Hc in Ht'. split_and!; [done|done| | |done].
  - destruct (current_runs _ _ _ _ Ht') as (t' & ? & ?). congruence.
  - by apply (ok_thread _ _ _ _ Ht).
Qed.

Lemma step_spec_refl m x : machine_ok m → step_spec x m m.
Proof.
  intros Hm. split; [done|done|eauto|congruence|congruence|done|done].
Qed.

Lemma idle_may_run s c :
  tables_ok (thread_at s) (process_at s) c (idle_thread s) →
  ∃ i t, idle_thread s = Some i ∧ thread_at s i = Some t ∧ is_user t = false ∧
    may_run (t_state t) = true.
Proof.
  intros Hok. destruct (ok_idle _ _ _ _ Hok) as (i & t & ? & Ht & Hu). exists i, t.
  split_and!; try done. pose proof (ok_kernel _ _ _ _ Hok _ _ Ht Hu). by destruct (t_state t).
Qed.

Lemma switched_sizes m s c n tc tn pn : sizes_ok s → sizes_ok (sched (switched m s c n tc tn pn)).
Proof. intros [? ? ?]. split; cbn; rewrite ?length_insert; done. Qed.

Lemma switched_step m s c n tc tn pn :
  machine_ok m → current_thread (sched m) = Some c →
  sizes_ok s → idle_thread s = idle_thread (sched m) →
  (∀ j t, j ≠ c → thread_at (sched m) j = Some t → thread_at s j = Some t) →
  thread_at s c = Some tc → thread_at s n = Some tn → n ≠ c → may_run (t_state tn) = true →
  process_at s (process_id tn) = Some pn →
  (let m' := switched m s c n tc tn pn in
   tables_ok (thread_at (sched m')) (process_at (sched m')) (Some n) (idle_thread s)) →
  step_spec false m (switched m s c n tc tn pn).
Proof.
  intros Hm Hcur Hsz Hidle Hframe Hc Hn Hne Hmr Hp Htab.
  pose proof (λ j, switched_tables m s c n tc tn pn j Hc Hn Hne) as HT.
  split.
  - split; [split; [by apply switched_sizes|done]|].
    exists n, (set_state Running tn), pn. split_and!; try done.
    rewrite HT, decide_True by done. done.
  - done.
  - intros j t Hj Ht. rewrite HT. assert (j ≠ c) as Hjc by congruence.
    pose proof (Hframe _ _ Hjc Ht) as Hs.
    repeat case_decide; subst; simplify_eq; eauto.
  - intros b [= <-] _. exists (set_state Running tn). rewrite HT, decide_True by done. done.
  - intros a t Ha _. rewrite HT. simplify_eq. rewrite decide_False, decide_True by done.
    intros [= <-]. done.
  - intros j t _ Hj Hb. destruct (machine_ok_current _ Hm) as (c' & tc' & ? & Htc' & Hr' & _).
    assert (c' = c) as -> by congruence. assert (j ≠ c) as Hjc by (intros ->; congruence).
    pose proof (Hframe _ _ Hjc Hj) as Hs. rewrite HT. repeat case_decide; subst; [|done|done].
    assert (tn = t) as -> by congruence. by rewrite Hb in Hmr.
  - intros _ j [t Hj]. rewrite HT. repeat case_decide; [done|done|]. eexists. apply Hframe; [congruence|done].
Qed.

(** A yield hands over to the thread that [next_runnable_thread] names. *)
Lemma yield_spec {E} m c t :
  machine_ok m → current_thread (sched m) = Some c → thread_at (sched m) c = Some t →
  ∃ n tn pn, next_runnable_thread (E:=E) (sched m) (Some c) = Ok (Some n) ∧
    thread_at (sched m) n = Some tn ∧ may_run (t_state tn) = true ∧
    process_at (sched m) (process_id tn) = Some pn ∧
    (n = c ∧ yield_now (E:=E) m = Ok m ∨
     n ≠ c ∧ yield_now (E:=E) m
       = Ok (switched m (put_thread c (Some (set_state Runnable t)) (sched m)) c n
               (set_state Runnable t) tn pn)).
Proof.
  intros Hm Hcur Ht. pose proof Hm as [[Hsz Htab] _]. rewrite Hcur in Htab.
  destruct (idle_may_run _ _ Htab) as (i & ti & Hi & Hti & _ & Hri).
  destruct (next_runnable_spec (E:=E) (sched m) (ok_threads _ Hsz)
    (λ j tj Hj, proj1 (ok_thread _ _ _ _ Htab j tj Hj)) (Some c) i ti Hi Hti Hri)
    as (n & tn & Hnext & Hn & Hr & _).
  destruct (ok_thread _ _ _ _ Htab _ _ Hn) as [_ [pn Hpn]].
  exists n, tn, pn. split_and!; try done.
  unfold yield_now, prepare_switch. rewrite Hcur, Hnext. cbn [mbind outcome_bind negb andb].
  destruct (decide (n = c)) as [->|Hne].
  - left. split; [done|]. rewrite bool_decide_true by done. cbn. by destruct m.
  - right. split; [done|]. rewrite bool_decide_false by done. cbn [andb negb].
    rewrite (thread_mut_put _ _ _ _ Ht). cbn [mbind outcome_bind].
    pose proof (thread_at_lt _ _ _ Ht).
    assert ((r ← switch_to (E:=E) (put_thread c (Some (set_state Runnable t)) (sched m)) c n;
      perform m r) = Ok (true, switched m (put_thread c (Some (set_state Runnable t)) (sched m)) c n
      (set_state Runnable t) tn pn)) as Hsw
      by (apply switch_perform; try done; rewrite thread_at_put by done; case_decide; congruence).
    destruct (switch_to _ c n) as [r| | |]; cbn [mbind outcome_bind] in Hsw |- *;
      [by rewrite Hsw|discriminate..].
Qed.

Lemma yield_step {E} m :
  machine_ok m → ∃ m', yield_now (E:=E) m = Ok m' ∧ step_spec false m m'.
Proof.
  intros Hm. destruct (machine_ok_current _ Hm) as (c & t & Hcur & Ht & _ & _ & Htab).
  destruct (yield_spec (E:=E) m c t Hm Hcur Ht) as (n & tn & pn & _ & Hn & Hr & Hp & [[-> Hy]|[Hne Hy]]);
    rewrite Hy; [eauto using step_spec_refl|].
  eexists. split; [done|]. pose proof (thread_at_lt _ _ _ Ht).
  assert (∀ j, j ≠ c → thread_at (put_thread c (Some (set_state Runnable t)) (sched m)) j
    = thread_at (sched m) j) as Hother
    by (intros j Hj; rewrite thread_at_put, decide_False; done).
  assert (thread_at (put_thread c (Some (set_state Runnable t)) (sched m)) c
    = Some (set_state Runnable t)) as Hself by (rewrite thread_at_put, decide_True; done).
  apply switched_step; try done.
  - apply sizes_put_thread. apply Hm.
  - intros j tj Hj Htj. by rewrite Hother.
  - by rewrite Hother.
  - apply (tables_switch (thread_at (sched m)) _ c _ Htab _ n t tn
      (set_context (cpu m) (set_state Runnable t)) (set_state Running tn)); try done.
    intros j. rewrite switched_tables by (done || by rewrite Hother).
    repeat case_decide; [done..|]. apply Hother. congruence.
Qed.

(** ** Fresh stacks *)

(** A new thread starts with its stack pointer at the top word of its own
    stack, which holds the address of the trampoline. *)
Record fresh_context (stack_end : nat → Z) (trampoline : Z) (k : nat) (ctx : ThreadContext)
    (top : Z) (s' : SchedulerState) : Prop := {
  fresh_top : top = stack_end k;
  fresh_rsp : rsp ctx = (stack_end k - 8)%Z;
  fresh_word : ∃ ws, stacks s' !! k = Some ((rsp ctx, trampoline) :: ws)
}.

Section Spawn.
Context (stack_end : nat → Z) (trampoline : Z) (Hstacks : stacks_placed stack_end).

Lemma stack_top_aligned k :
  k < MAX_THREADS → Z.land (stack_end k) (u64_not 15) = stack_end k ∧ (8 ≤ stack_end k)%Z.
Proof.
  intros Hk. destruct (Hstacks k Hk) as (base & He & H0 & Hm & Hlt).
  unfold THREAD_STACK_SIZE in He. split; [|lia].
  change 15%Z with (u64 (2 ^ 4 - 1)). rewrite land_mask by (unfold is_u64; lia).
  change (2 ^ 4)%Z with 16%Z. rewrite Z.mul_comm. symmetry.
  apply Z.div_exact; [lia|]. rewrite He, Z.add_mod, Hm by lia. done.
Qed.

Lemma initial_context_spec {E} s k :
  sizes_ok s → k < MAX_THREADS →
  ∃ ctx top ss, initial_context_for stack_end trampoline (E:=E) s k = Ok (ctx, top, with_stacks ss s) ∧
    length ss = MAX_THREADS ∧
    ∀ s', stacks s' = ss → fresh_context stack_end trampoline k ctx top s'.
Proof.
  intros Hsz Hk. destruct (stack_top_aligned k Hk) as [Ha Hge].
  pose proof (ok_stacks _ Hsz) as Hl.
  destruct (lookup_lt_is_Some_2 (stacks s) k) as [ws Hws]; [by rewrite Hl|].
  unfold initial_context_for. rewrite (get_at_Ok _ _ _ Hws). cbn [mbind outcome_bind].
  rewrite Ha, decide_False by lia. rewrite set_at_Ok by (by rewrite Hl). cbn [mbind outcome_bind].
  eexists _, _, _. split; [reflexivity|]. split; [by rewrite length_insert|].
  intros s' Hs'. split; [done|done|]. exists ws. rewrite Hs'.
  by rewrite list_lookup_insert_eq by (by rewrite Hl).
Qed.

Lemma try_create_thread_spec {E} s name pid st :
  sizes_ok s →
  match first_free (threads s) with
  | None => try_create_thread stack_end trampoline (E:=E) s name pid st = Ok None
  | Some k => ∃ ctx top ss,
      try_create_thread stack_end trampoline (E:=E) s name pid st
        = Ok (Some (k, with_stacks ss (put_thread k (Some (Thread_new k name pid st ctx top)) s))) ∧
      length ss = MAX_THREADS ∧
      ∀ s', stacks s' = ss → fresh_context stack_end trampoline k ctx top s'
  end.
Proof.
  intros Hsz. unfold try_create_thread. destruct (first_free (threads s)) as [k|] eqn:Hf; [|done].
  destruct (first_free_slot _ _ Hf) as [_ Hk].
  destruct (initial_context_spec (E:=E) s k Hsz) as (ctx & top & ss & -> & Hl & Hfr);
    [by rewrite <-(ok_threads _ Hsz)|].
  cbn [mbind outcome_bind]. rewrite set_at_Ok by done. cbn [mbind outcome_bind].
  eauto 10.
Qed.

(** What a spawned child is made of. *)
Record child_of (parent : Process) (parent_thread : nat) (program : LoadedUserProgram)
    (silent : bool) (q : nat) (child : Process) : Prop := {
  ch_id : p_id child = q;
  ch_space : p_address_space child = lp_address_space program;
  ch_pages : owned_pages child = lp_owned_pages program;
  ch_action : exit_action child = Continue;
  ch_waiting : waiting_thread child = Some parent_thread;
  ch_ok : proc_ok child;
  ch_cwd : cwd_of child = cwd_of parent;
  ch_env : abs (env child) = abs (env parent);
  ch_stdio : ∃ c0, inherit_stdio silent parent (Process_new q "user-child" (lp_address_space program)
      (lp_owned_pages program) Continue) = Some c0 ∧ handles child = handles c0 ∧ stdio child = stdio c0
}.

Lemma insert_twice_free s q x y :
  first_free (processes s) = Some q →
  put_process q None (put_process q x (put_process q y s)) = s.
Proof.
  intros [Hq _]%first_free_Some. unfold put_process. cbn.
  rewrite !list_insert_insert_eq, (list_insert_id _ _ _ Hq). by destruct s.
Qed.

Lemma spawn_spec {E} s c t parent program silent :
  sizes_ok s → thread_at s c = Some t → process_at s (process_id t) = Some parent → proc_ok parent →
  spawn_child_process stack_end trampoline (E:=E) s c program silent = Ok (inr program, s) ∧
    (first_free (processes s) = None ∨ first_free (threads s) = None ∨
     ∃ q, inherit_stdio silent parent (Process_new q "user-child" (lp_address_space program)
       (lp_owned_pages program) Continue) = None) ∨
  ∃ q k child ctx top ss s', first_free (processes s) = Some q ∧ first_free (threads s) = Some k ∧
    child_of parent c program silent q child ∧ length ss = MAX_THREADS ∧
    s' = with_stacks ss (put_thread k (Some (Thread_new k "user-child-main" q
      (UserStart (lp_entry_point program) (lp_user_stack_top program)) ctx top))
      (put_process q (Some child) s)) ∧ fresh_context stack_end trampoline k ctx top s' ∧
    spawn_child_process stack_end trampoline (E:=E) s c program silent = Ok (inl q, s').
Proof.
  intros Hsz Ht Hp Hpok. unfold spawn_child_process. rewrite (thread_Ok _ _ _ Ht).
  cbn [mbind outcome_bind]. destruct (first_free (processes s)) as [q|] eqn:Hq; [|by auto].
  rewrite (process_Ok _ _ _ Hp). cbn [mbind outcome_bind].
  set (new := Process_new q "user-child" (lp_address_space program) (lp_owned_pages program) Continue).
  assert (returned_program program new = program) as -> by (by destruct program).
  change (if silent then inherit_stdio_silent_into parent new else inherit_stdio_into parent new)
    with (inherit_stdio silent parent new).
  destruct (inherit_stdio silent parent new) as [c0|] eqn:Hio; [|by eauto 6].
  destruct (inherit_stdio_ok _ _ _ _ Hio (Process_new_ok _ _ _ _ _)) as (Hok0 & Hc0 & _).
  destruct (inherit_cwd_ok (E:=E) parent c0 Hpok Hok0) as (c1 & -> & Hok1 & Hc1 & Hcwd1 & He1 & Hh1 & Hs1).
  cbn [mbind outcome_bind].
  destruct (inherit_env_ok parent c1 Hpok Hok1) as (c2 & -> & Hok2 & Hc2 & He2 & Hcwd2 & Hh2 & Hs2).
  destruct (first_free_slot _ _ Hq) as [_ Hql]. rewrite set_at_Ok by done. cbn [mbind outcome_bind].
  set (child := set_waiting_thread c c2).
  change (with_processes (<[q:=Some child]> (processes s)) s) with (put_process q (Some child) s).
  pose proof (try_create_thread_spec (E:=E) (put_process q (Some child) s) "user-child-main" q
    (UserStart (lp_entry_point program) (lp_user_stack_top program))
    (sizes_put_process _ _ _ Hsz)) as Hth.
  change (threads (put_process q (Some child) s)) with (threads s) in Hth.
  assert (p_address_space child = lp_address_space program ∧ owned_pages child = lp_owned_pages program
    ∧ p_id child = q ∧ exit_action child = Continue) as (Hsp & Hpg & Hid & Hact).
  { destruct Hc0 as (? & ? & ? & ? & ?), Hc1 as (? & ? & ? & ? & ?), Hc2 as (? & ? & ? & ? & ?).
    subst child new. cbn in *. split_and!; congruence. }
  destruct (first_free (threads s)) as [k|] eqn:Hk.
  - destruct Hth as (ctx & top & ss & -> & Hss & Hfr). cbn [mbind outcome_bind]. right.
    exists q, k, child, ctx, top, ss. eexists. split_and!; [done|done| |done|reflexivity|by apply Hfr|done].
    split; try done.
    + destruct Hok2. by split.
    + by transitivity (cwd_of c1).
    + exists c0. split_and!; [done|cbn; congruence|cbn; congruence].
  - rewrite Hth. cbn [mbind outcome_bind]. left. split; [|by auto].
    assert (process_at (put_process q (Some child) s) q = Some child) as Hat
      by (by rewrite process_at_put, decide_True).
    rewrite (process_Ok _ _ _ Hat). cbn [mbind outcome_bind].
    rewrite (process_mut_put _ _ _ _ Hat). cbn [mbind outcome_bind].
    rewrite set_at_Ok by (cbn; by rewrite !length_insert). cbn [mbind outcome_bind].
    change (with_processes (<[q:=None]> (processes ?x)) ?x) with (put_process q None x).
    rewrite insert_twice_free by done. do 3 f_equal. cbn [fst take_owned_pages].
    rewrite Hsp, Hpg. by destruct program.
Qed.

End Spawn.

(** ** One call *)

Lemma in_user_thread_current s c t :
  current_thread s = Some c → thread_at s c = Some t → in_user_thread s = true → is_user t = true.
Proof. unfold in_user_thread. intros -> Ht. cbn. by rewrite Ht. Qed.

(** The state in which a spawn leaves the scheduler before the parent waits. *)
Definition spawned (ss : list ThreadStack) (q k : nat) (child : Process) (tk : Thread)
    (s : SchedulerState) : SchedulerState :=
  with_stacks ss (put_thread k (Some tk) (put_process q (Some child) s)).

Section SpawnWait.
Context (m : Machine) (c : nat) (t : Thread) (Hm : machine_ok m).
Context (Hcur : current_thread (sched m) = Some c) (Ht : thread_at (sched m) c = Some t).
Context (Hu : is_user t = true).
Context (ss : list ThreadStack) (q k : nat) (child : Process) (tk : Thread).
Context (Hss : length ss = MAX_THREADS).
Context (Hq : first_free (processes (sched m)) = Some q) (Hk : first_free (threads (sched m)) = Some k).
Context (Hcid : p_id child = q) (Hcok : proc_ok child) (Hcw : waiting_thread child = Some c)
  (Hca : exit_action child = Continue).
Context (Hkid : t_id tk = k) (Hkq : process_id tk = q) (Hku : is_user tk = true)
  (Hkr : t_state tk = Runnable).

Let s1 := spawned ss q k child tk (sched m).
Let s2 := put_thread c (Some (block_for_child q t)) s1.

Local Lemma sw_facts :
  sizes_ok (sched m) ∧
  tables_ok (thread_at (sched m)) (process_at (sched m)) (Some c) (idle_thread (sched m)) ∧
  process_at (sched m) q = None ∧ q < length (processes (sched m)) ∧
  thread_at (sched m) k = None ∧ k < length (threads (sched m)) ∧
  c < length (threads (sched m)) ∧ c ≠ k.
Proof.
  pose proof Hm as [[? Htab] _]. rewrite Hcur in Htab.
  destruct (first_free_slot _ _ Hq) as [? ?], (first_free_slot _ _ Hk) as [Hkn ?].
  pose proof (thread_at_lt _ _ _ Ht). split_and!; try done.
  intros ->. unfold thread_at in Ht. congruence.
Qed.

Local Lemma sw_thread j :
  thread_at s2 j = if decide (c = j) then Some (block_for_child q t)
                   else if decide (k = j) then Some tk else thread_at (sched m) j.
Proof.
  destruct sw_facts as (_ & _ & _ & _ & _ & ? & ? & _).
  unfold s2. rewrite thread_at_put by (cbn; by rewrite length_insert). case_decide; [done|].
  unfold s1, spawned. change (thread_at (with_stacks ?a ?b) j) with (thread_at b j).
  by rewrite thread_at_put.
Qed.

Local Lemma sw_process j :
  process_at s2 j = if decide (q = j) then Some child else process_at (sched m) j.
Proof.
  destruct sw_facts as (_ & _ & _ & ? & _).
  change (process_at s2 j) with (process_at (put_process q (Some child) (sched m)) j).
  by apply process_at_put.
Qed.

Local Lemma sw_fresh j tj : thread_at (sched m) j = Some tj → process_id tj ≠ q.
Proof.
  destruct sw_facts as (_ & Htab & Hpq & _). intros Hj <-.
  destruct (ok_thread _ _ _ _ Htab _ _ Hj) as [_ [p Hp]]. congruence.
Qed.

Lemma spawn_wait_spec {E} :
  ∃ n tn pn, next_runnable_thread (E:=E) s2 (Some c) = Ok (Some n) ∧ n ≠ c ∧
    thread_at s2 n = Some tn ∧ process_at s2 (process_id tn) = Some pn ∧
    wait_for_child (E:=E) (with_sched s1 m) q
      = Ok (true, switched m s2 c n (block_for_child q t) tn pn) ∧
    step_spec false m (switched m s2 c n (block_for_child q t) tn pn).
Proof.
  destruct sw_facts as (Hsz & Htab & Hpq & Hql & Htk & Hkl & Hcl & Hck).
  assert (sizes_ok s2) as Hsz2
    by (destruct Hsz; split; cbn; rewrite ?length_insert; done).
  destruct (idle_may_run _ _ Htab) as (i & ti & Hi & Hti & Hui & Hri).
  assert (thread_at s2 c = Some (block_for_child q t)) as Hc2 by (by rewrite sw_thread, decide_True).
  assert (∀ j tj, thread_at s2 j = Some tj → t_id tj = j) as Hids.
  { intros j tj. rewrite sw_thread. destruct (ok_thread _ _ _ _ Htab _ _ Ht) as [Htid _].
    repeat case_decide; [intros [= <-]; cbn; congruence|congruence|apply (ok_thread _ _ _ _ Htab)]. }
  assert (thread_at s2 i = Some ti) as Hti2
    by (rewrite sw_thread, !decide_False by congruence; done).
  destruct (next_runnable_spec (E:=E) s2 (ok_threads _ Hsz2) Hids (Some c) i ti Hi Hti2 Hri)
    as (n & tn & Hnext & Hn & Hr & _).
  assert (n ≠ c) as Hne by (intros ->; rewrite Hc2 in Hn; by simplify_eq).
  assert (is_Some (process_at s2 (process_id tn))) as [pn Hpn].
  { rewrite sw_process. case_decide; [done|]. rewrite sw_thread in Hn.
    rewrite decide_False in Hn by done. case_decide; [congruence|].
    by apply (ok_thread _ _ _ _ Htab n). }
  exists n, tn, pn. split_and!; try done.
  - unfold wait_for_child, prepare_wait_for_child. cbn [with_sched sched].
    change (current_thread s1) with (current_thread (sched m)). rewrite Hcur.
    assert (thread_at s1 c = Some t) as Hc1.
    { unfold s1, spawned. change (thread_at (with_stacks ?a ?b) c) with (thread_at b c).
      by rewrite thread_at_put, decide_False by done. }
    rewrite (thread_mut_put _ _ _ _ Hc1). cbn [mbind outcome_bind].
    change (put_thread c (Some (block_for_child q t)) s1) with s2. rewrite Hnext.
    cbn [mbind outcome_bind].
    apply (switch_perform (E:=E) (with_sched s1 m) s2 c n (block_for_child q t) tn pn); done.
  - apply switched_step; try done.
    + intros j tj Hj Htj. rewrite sw_thread, !decide_False by congruence. done.
    + set (P1 := λ j, if decide (q = j) then Some (with_waiting None child) else process_at (sched m) j).
      set (T1 := λ j, if decide (k = j) then Some tk else thread_at (sched m) j).
      assert (proc_ok (with_waiting None child)) as Hcok' by (destruct Hcok; by split).
      assert (tables_ok T1 P1 (Some c) (idle_thread (sched m))) as Htab1.
      { apply (tables_add_thread (thread_at (sched m)) P1 c _) with k tk; try done.
        - by apply (tables_add_process _ _ _ _ Htab _ q (with_waiting None child)).
        - unfold P1. rewrite Hkq, decide_True by done. done.
        - intros j tj Hj. rewrite Hkq. by eapply sw_fresh. }
      apply (tables_block T1 P1 c _ Htab1 _ _ q (with_waiting None child) child k tk n tn t
        (set_context (cpu m) (block_for_child q t)) (set_state Running tn)); try done.
      * unfold P1. by rewrite decide_True.
      * unfold T1. by rewrite decide_True.
      * by rewrite Hkr.
      * unfold T1. by rewrite decide_False.
      * by eapply sw_fresh.
      * rewrite sw_thread, decide_False in Hn by done. done.
      * intros j. rewrite switched_tables by done. rewrite sw_thread. unfold T1.
        repeat case_decide; done.
      * intros j. change (process_at (sched (switched m s2 c n (block_for_child q t) tn pn)) j)
          with (process_at s2 j). rewrite sw_process. unfold P1. repeat case_decide; done.
Qed.

End SpawnWait.

(** ** Exits *)

(** The tables without the exiting thread and its process. *)
Definition removed (s : SchedulerState) (pid c : nat) : SchedulerState :=
  put_process pid None (put_thread c None s).

(** The machine after the exit of [c] in favour of [n]. *)
Definition exited (m : Machine) (pid c n : nat) (tn : Thread) (pn : Process) : Machine :=
  mkMachine
    (with_bootstrap (cpu m)
       (put_thread n (Some tn) (with_current (Some n) (removed (sched m) pid c))))
    (context tn) (p_address_space pn) (kernel_stack_top tn).

Section Exit.
Context (m : Machine) (c : nat) (t : Thread) (p : Process) (Hm : machine_ok m).
Context (Hcur : current_thread (sched m) = Some c) (Ht : thread_at (sched m) c = Some t).
Context (Hu : is_user t = true) (Hp : process_at (sched m) (process_id t) = Some p).

Let s3 := removed (sched m) (process_id t) c.

Local Lemma ex_tables :
  sizes_ok (sched m) ∧
  tables_ok (thread_at (sched m)) (process_at (sched m)) (Some c) (idle_thread (sched m)) ∧
  c < length (threads (sched m)) ∧ process_id t < length (processes (sched m)).
Proof.
  pose proof Hm as [[? Htab] _]. rewrite Hcur in Htab.
  pose proof (thread_at_lt _ _ _ Ht). pose proof (process_at_lt _ _ _ Hp). done.
Qed.

Local Lemma ex_thread j : thread_at s3 j = if decide (c = j) then None else thread_at (sched m) j.
Proof.
  destruct ex_tables as (_ & _ & ? & _).
  change (thread_at s3 j) with (thread_at (put_thread c None (sched m)) j).
  by apply thread_at_put.
Qed.
Local Lemma ex_process j :
  process_at s3 j = if decide (process_id t = j) then None else process_at (sched m) j.
Proof. destruct ex_tables as (_ & _ & _ & ?). by apply (process_at_put _ None (put_thread c None _)). Qed.

(** The process of another thread survives. *)
Local Lemma ex_survivor n tn :
  thread_at (sched m) n = Some tn → n ≠ c → ∃ pn, process_at s3 (process_id tn) = Some pn.
Proof.
  destruct ex_tables as (_ & Htab & _). intros Hn Hne. rewrite ex_process. case_decide as Hd.
  - destruct Hne. symmetry. by apply (ok_alone _ _ _ _ Htab c n t tn).
  - by apply (ok_thread _ _ _ _ Htab n).
Qed.

(** The thread that runs next, and what it finds in its record. *)
Definition exit_target (status : Z) (n : nat) (tn tn' : Thread) : Prop :=
  match waiting_thread p with
  | Some w => n = w ∧ tn' = set_state Running (wake (set_wait_result status tn))
  | None => tn' = set_state Running tn ∧ may_run (t_state tn) = true
  end.

Lemma exited_step status n tn tn' pn :
  thread_at (sched m) n = Some tn → n ≠ c → exit_target status n tn tn' →
  process_at s3 (process_id tn) = Some pn →
  step_spec true m (exited m (process_id t) c n tn' pn).
Proof.
  destruct ex_tables as (Hsz & Htab & Hcl & Hpl). intros Hn Hne Htgt Hpn.
  assert (n < length (threads s3)) as Hnl
    by (cbn; rewrite length_insert; by apply thread_at_lt in Hn).
  assert (∀ j, thread_at (sched (exited m (process_id t) c n tn' pn)) j =
    if decide (n = j) then Some tn' else if decide (c = j) then None else thread_at (sched m) j) as HT.
  { intros j. change (thread_at (sched (exited m (process_id t) c n tn' pn)) j)
      with (thread_at (put_thread n (Some tn') (with_current (Some n) s3)) j).
    rewrite thread_at_put by done.
    change (thread_at (with_current (Some n) s3) j) with (thread_at s3 j). by rewrite ex_thread. }
  assert (alike tn tn' ∧ t_state tn' = Running ∧ context tn' = context tn ∧
    kernel_stack_top tn' = kernel_stack_top tn) as (Hal & Hrun & Hctx & Htop).
  { unfold exit_target in Htgt. destruct (waiting_thread p); destruct Htgt; subst; done. }
  split.
  - split; [split|].
    + destruct Hsz. split; cbn; rewrite ?length_insert; done.
    + apply (tables_exit (thread_at (sched m)) (process_at (sched m)) c _ Htab _ _
        (process_id t) p t n tn tn'); try done.
      * unfold exit_target in Htgt. destruct (waiting_thread p); destruct Htgt; subst; auto.
      * intros j. by apply ex_process.
    + exists n, tn', pn. split_and!; try done; [by rewrite HT, decide_True|].
      destruct Hal as (_ & Hpid & _). rewrite Hpid. done.
  - done.
  - intros j tj Hj Htj. rewrite HT. repeat case_decide; subst; [|congruence|eauto].
    exists tn'. split; [done|]. congruence.
  - intros b [= <-] _. exists tn'. by rewrite HT, decide_True.
  - intros a ta Ha _. rewrite HT. simplify_eq. by rewrite decide_False, decide_True.
  - done.
  - done.
Qed.

Lemma resume_spec {E} s n tn pn pages :
  thread_at s n = Some tn → process_at s (process_id tn) = Some pn →
  resume_after_exit (E:=E) s n pages =
    Ok (Some (Switch (mkExitSwitch (ContextOf n) (p_address_space pn) (kernel_stack_top tn) pages)),
        put_thread n (Some (set_state Running tn)) (with_current (Some n) s)).
Proof.
  intros Hn Hpn. unfold resume_after_exit.
  rewrite (thread_mut_put (with_current (Some n) s) _ tn _ Hn). cbn [mbind outcome_bind].
  set (s5 := put_thread n (Some (set_state Running tn)) (with_current (Some n) s)).
  assert (thread_at s5 n = Some (set_state Running tn)) as Hn5
    by (unfold s5; rewrite thread_at_put, decide_True; try done; by apply thread_at_lt in Hn).
  unfold activation. rewrite !(thread_Ok _ _ _ Hn5). cbn [mbind outcome_bind].
  by rewrite (process_Ok s5 (process_id tn) pn Hpn).
Qed.

(** The switch of [exit_current_process]. *)
Lemma exit_switch {E} n tn' pn :
  n < length (threads s3) →
  context_switch (E:=E)
    (activate_address_space (p_address_space pn) (kernel_stack_top tn')
      (with_sched (put_thread n (Some tn') (with_current (Some n) s3)) m))
    BootstrapContext (ContextOf n) = Ok (exited m (process_id t) c n tn' pn).
Proof.
  intros Hn. unfold context_switch. cbn [write_context read_context mbind outcome_bind].
  assert (thread_at (put_thread n (Some tn') (with_current (Some n) s3)) n = Some tn') as Hn5
    by (by rewrite thread_at_put, decide_True).
  by rewrite (thread_Ok (with_bootstrap (cpu m) (put_thread n (Some tn') (with_current (Some n) s3)))
    _ _ Hn5).
Qed.

(** The first half: the thread, its process and its pages are gone. *)
Lemma prepare_exit_removes {E} status :
  prepare_exit_current_process (E:=E) (sched m) status =
    if decide (exit_action p = ShutdownSystem)
    then Ok (Some (Shutdown (owned_pages p)), with_current None s3)
    else '(next, s) ← match waiting_thread p with
           | Some w =>
               s ← thread_mut s3 w (λ t, wake (set_wait_result status t)); Ok (Some w, s)
           | None => next ← next_runnable_thread s3 (Some c); Ok (next, s3)
           end;
         match next with
         | None => Ok (None, s)
         | Some next => resume_after_exit s next (owned_pages p)
         end.
Proof.
  destruct ex_tables as (_ & _ & Hcl & Hpl).
  unfold prepare_exit_current_process. rewrite Hcur, (thread_Ok _ _ _ Ht). cbn [mbind outcome_bind].
  rewrite (process_mut_put _ _ _ _ Hp). cbn [mbind outcome_bind fst snd take_waiting_thread].
  rewrite set_at_Ok by done. cbn [mbind outcome_bind].
  set (p1 := with_waiting None (mark_exited status p)).
  set (s1 := with_threads (<[c:=None]> (threads (put_process (process_id t) (Some p1) (sched m))))
    (put_process (process_id t) (Some p1) (sched m))).
  assert (process_at s1 (process_id t) = Some p1) as Hp1
    by (change (process_at s1 (process_id t))
          with (process_at (put_process (process_id t) (Some p1) (sched m)) (process_id t));
        by rewrite process_at_put, decide_True).
  rewrite (process_mut_put _ _ _ _ Hp1). cbn [mbind outcome_bind fst snd take_owned_pages].
  rewrite set_at_Ok by (cbn; by rewrite !length_insert). cbn [mbind outcome_bind].
  match goal with |- context [with_current None ?s] => assert (s = s3) as -> end; [|done].
  unfold s3, removed, put_process, put_thread, s1. cbn. by rewrite !list_insert_insert_eq.
Qed.

Lemma exit_spec {E} status :
  (exit_action p = ShutdownSystem ∧
     exit_current_process (E:=E) m status = Ok (OwnedPages_empty, None)) ∨
  (exit_action p ≠ ShutdownSystem ∧ ∃ n tn tn' pn,
     thread_at (sched m) n = Some tn ∧ n ≠ c ∧ exit_target status n tn tn' ∧
     process_at s3 (process_id tn) = Some pn ∧
     exit_current_process (E:=E) m status
       = Ok (owned_pages p, Some (exited m (process_id t) c n tn' pn))).
Proof.
  destruct ex_tables as (Hsz & Htab & Hcl & Hpl).
  unfold exit_current_process. rewrite prepare_exit_removes.
  case_decide as Hact; [by left|]. right. split; [done|].
  unfold exit_target. destruct (waiting_thread p) as [w|] eqn:Hw; cbn [fst].
  - destruct (ok_waiting _ _ _ _ Htab (process_id t) w) as (tw & Htw & Hwf); [by exists p|].
    assert (w ≠ c) as Hwc.
    { intros ->. destruct (current_runs _ _ _ _ Htab) as (tc & ? & ?), Hwf. congruence. }
    destruct (ex_survivor w tw Htw Hwc) as [pn Hpn].
    set (tw1 := wake (set_wait_result status tw)).
    exists w, tw, (set_state Running tw1), pn. split_and!; try done.
    assert (thread_at s3 w = Some tw) as Htw3 by (rewrite ex_thread, decide_False; done).
    pose proof (thread_at_lt _ _ _ Htw3) as Hwl.
    rewrite (thread_mut_put _ _ _ _ Htw3). cbn [mbind outcome_bind].
    assert (thread_at (put_thread w (Some tw1) s3) w = Some tw1) as Htw4
      by (by rewrite thread_at_put, decide_True).
    rewrite (resume_spec (put_thread w (Some tw1) s3) w tw1 pn _ Htw4 Hpn). cbn [mbind outcome_bind
      e_next_space e_next_stack_top e_next_context e_released_pages].
    assert (put_thread w (Some (set_state Running tw1)) (with_current (Some w) (put_thread w (Some tw1) s3))
      = put_thread w (Some (set_state Running tw1)) (with_current (Some w) s3)) as ->
      by (unfold put_thread; cbn; by rewrite list_insert_insert_eq).
    pose proof (exit_switch (E:=E) w (set_state Running tw1) pn Hwl) as Hx.
    change (kernel_stack_top (set_state Running tw1)) with (kernel_stack_top tw1) in Hx.
    by rewrite Hx.
  - destruct (idle_may_run _ _ Htab) as (i & ti & Hi & Hti & Hui & Hri).
    assert (∀ j tj, thread_at s3 j = Some tj → t_id tj = j) as Hids.
    { intros j tj. rewrite ex_thread. case_decide; [done|apply (ok_thread _ _ _ _ Htab)]. }
    assert (thread_at s3 i = Some ti) as Hti3 by (rewrite ex_thread, decide_False; congruence).
    assert (sizes_ok s3) as Hsz3 by (destruct Hsz; split; cbn; rewrite ?length_insert; done).
    destruct (next_runnable_spec (E:=E) s3 (ok_threads _ Hsz3) Hids (Some c) i ti Hi Hti3 Hri)
      as (n & tn & Hnext & Hn3 & Hr & _).
    rewrite Hnext. cbn [mbind outcome_bind].
    assert (n ≠ c ∧ thread_at (sched m) n = Some tn) as [Hne Hn]
      by (rewrite ex_thread in Hn3; by case_decide).
    destruct (ex_survivor n tn Hn Hne) as [pn Hpn].
    exists n, tn, (set_state Running tn), pn. split_and!; try done.
    rewrite (resume_spec s3 n tn pn _ Hn3 Hpn). cbn [mbind outcome_bind
      e_next_space e_next_stack_top e_next_context e_released_pages].
    pose proof (exit_switch (E:=E) n (set_state Running tn) pn (thread_at_lt _ _ _ Hn3)) as Hx.
    change (kernel_stack_top (set_state Running tn)) with (kernel_stack_top tn) in Hx.
    by rewrite Hx.
Qed.

End Exit.

(** ** Every call *)

Section Calls.
Context (stack_end : nat → Z) (trampoline : Z) (Hstacks : stacks_placed stack_end).

Lemma touch_step m c t t' :
  machine_ok m → current_thread (sched m) = Some c → thread_at (sched m) c = Some t →
  same_view t t' → kernel_stack_top t' = kernel_stack_top t →
  t_state t = Running → step_spec false m (with_sched (put_thread c (Some t') (sched m)) m).
Proof.
  intros Hm Hcur Ht Hview Htop Hrun. pose proof Hm as [[Hsz Htab] (c0 & t0 & p & Hc0 & Ht0 & Hp & Hsp & Hks)].
  assert (c0 = c ∧ t0 = t) as [-> ->] by (split; congruence).
  pose proof (thread_at_lt _ _ _ Ht) as Hl. rewrite Hcur in Htab.
  split; cbn [sched with_sched cpu].
  - split; [split; [by apply sizes_put_thread|]|].
    + change (tables_ok (thread_at (put_thread c (Some t') (sched m))) (process_at (sched m))
        (current_thread (sched m)) (idle_thread (sched m))). rewrite Hcur.
      apply (tables_similar _ _ _ _ Htab). intros j. rewrite thread_at_put by done.
      case_decide; [subst; by rewrite Ht|by destruct (thread_at (sched m) j)].
    + exists c, t', p. cbn. rewrite thread_at_put, decide_True by done.
      destruct Hview as [(_ & Hpid & _) _]. split_and!; try done; [|congruence].
      rewrite Hpid. done.
  - done.
  - intros j tj Hj Htj. rewrite thread_at_put, decide_False by congruence. eauto.
  - intros b ? ?. done.
  - intros a ta ? ?. done.
  - intros j tj _ Hj Hb. rewrite thread_at_put by done. rewrite decide_False; [done|]. intros ->. congruence.
  - intros _ j Hj. rewrite thread_at_put by done. by case_decide.
Qed.

(** Changing the current process keeps the machine in order. *)
Lemma machine_put m c t p p' :
  machine_ok m → current_thread (sched m) = Some c → thread_at (sched m) c = Some t →
  process_at (sched m) (process_id t) = Some p → same_core p p' → proc_ok p' →
  machine_ok (with_sched (put_process (process_id t) (Some p') (sched m)) m).
Proof.
  intros [[Hsz Htab] (c0 & t0 & p0 & Hc0 & Ht0 & Hp0 & Hsp & Hks)] Hcur Ht Hp Hcore Hok.
  assert (c0 = c) as -> by congruence. assert (t0 = t) as -> by congruence. assert (p0 = p) as -> by congruence.
  pose proof (process_at_lt _ _ _ Hp) as Hl.
  pose proof (λ j, process_at_put (process_id t) (Some p') (sched m) j Hl) as HP.
  split; [split; [by apply sizes_put_process|]|].
  - change (tables_ok (thread_at (sched m)) (process_at (put_process (process_id t) (Some p') (sched m)))
      (current_thread (sched m)) (idle_thread (sched m))).
    rewrite Hcur in Htab |- *. by apply (tables_process _ _ _ _ Htab _ (process_id t) p p').
  - exists c, t, p'. cbn [sched with_sched active_space kernel_stack]. rewrite HP, decide_True by done.
    split_and!; try done. destruct Hcore as (_ & -> & _). done.
Qed.

Lemma update_step {E} m f :
  machine_ok m →
  (∀ p, proc_ok p → (∃ p', f p = Ok p' ∧ same_core p p' ∧ proc_ok p') ∨ ∃ e, f p = Err e) →
  ∃ m', update_current (E:=E) m f = Ok m' ∧ step_spec false m m'.
Proof.
  intros Hm Hf. pose proof Hm as [[Hsz Htab] (c & t & p & Hcur & Ht & Hp & Hsp & Hks)].
  unfold update_current. rewrite Hcur, (thread_Ok _ _ _ Ht). cbn [mbind outcome_bind].
  rewrite (process_Ok _ _ _ Hp). cbn [mbind outcome_bind].
  destruct (Hf p) as [(p' & -> & Hcore & Hok)|[e ->]];
    [by apply (ok_process _ _ _ _ Htab) in Hp as []| |eauto using step_spec_refl].
  rewrite (process_mut_put _ _ _ _ Hp). cbn [mbind outcome_bind fst snd].
  eexists. split; [done|].
  split; cbn [sched with_sched cpu]; try done; [|eauto].
  by apply (machine_put m c t p p').
Qed.

(** A call that the running thread may make always comes back with a sound
    machine, unless it is the exit of the process that stops the system. *)
Definition stops_system (s : SchedulerState) (k : call) : Prop :=
  ∃ status c t p, k = CExit status ∧ current_thread s = Some c ∧ thread_at s c = Some t ∧
    process_at s (process_id t) = Some p ∧ exit_action p = ShutdownSystem.

Definition is_exit (k : call) : bool := match k with CExit _ => true | _ => false end.

Lemma call_step m k :
  machine_ok m → admissible (sched m) k = true →
  (∃ m', run_call stack_end trampoline m k = Ok (Some m') ∧ step_spec (is_exit k) m m') ∨
  (run_call stack_end trampoline m k = Ok None ∧ stops_system (sched m) k).
Proof.
  intros Hm Hadm. pose proof Hm as [[Hsz Htab] (c & t & p & Hcur & Ht & Hp & Hsp & Hks)].
  assert (proc_ok p) as Hpok by (by apply (ok_process _ _ _ _ Htab) in Hp as []).
  destruct k as [|r|program silent| |status|key value|key|path]; cbn [run_call admissible] in *.
  - left. destruct (yield_step (E:=()) m Hm) as (m' & -> & Hs). eauto.
  - left. eexists. split; [done|]. destruct Hm as [? (c' & t' & p' & ? & ? & ? & ? & ?)].
    split; cbn; try done; [|eauto]. split; [done|]. exists c', t', p'. done.
  - left. rewrite Hcur. pose proof (in_user_thread_current _ _ _ Hcur Ht Hadm) as Hu.
    destruct (spawn_spec stack_end trampoline Hstacks (E:=()) (sched m) c t p program silent Hsz Ht Hp Hpok)
      as [[-> _]|(q & k & child & ctx & top & ss & s' & Hq & Hk & Hch & Hss & -> & _ & ->)];
      cbn [mbind outcome_bind].
    + exists m. split; [by destruct m|]. by apply step_spec_refl.
    + destruct (spawn_wait_spec m c t Hm Hcur Ht Hu ss q k child
        (Thread_new k "user-child-main" q (UserStart (lp_entry_point program)
           (lp_user_stack_top program)) ctx top) Hss Hq Hk
        (ch_id _ _ _ _ _ _ Hch) (ch_ok _ _ _ _ _ _ Hch) (ch_waiting _ _ _ _ _ _ Hch) (ch_action _ _ _ _ _ _ Hch)
        eq_refl eq_refl eq_refl eq_refl (E:=()))
        as (n & tn & pn & _ & _ & _ & _ & Hw & Hs).
      unfold spawned in Hw. rewrite Hw. cbn [mbind outcome_bind]. eauto.
  - left. unfold wait_for_child_result. rewrite Hcur, (thread_Ok _ _ _ Ht). cbn [mbind outcome_bind].
    rewrite (thread_mut_put _ _ _ _ Ht). cbn [mbind outcome_bind].
    eexists. split; [done|]. destruct (machine_ok_current _ Hm) as (c' & t' & ? & ? & ? & _).
    apply (touch_step m c t); try done. congruence.
  - pose proof (in_user_thread_current _ _ _ Hcur Ht Hadm) as Hu.
    destruct (exit_spec m c t p Hm Hcur Ht Hu Hp (E:=()) status)
      as [[Hact Hx]|(Hact & n & tn & tn' & pn & Hn & Hne & Htgt & Hpn & Hx)];
      rewrite Hx; cbn [mbind outcome_bind].
    + right. split; [done|]. by exists status, c, t, p.
    + left. eexists. split; [done|]. by eapply exited_step.
  - apply andb_true_iff in Hadm as [[_ Hk]%andb_true_iff Hv]. left.
    destruct (update_step (E:=()) m (set_env key value) Hm) as (m' & -> & Hs); [|eauto].
    intros p0 Hp0. destruct (set_env_ok key value p0 Hp0 Hk Hv) as [(e & -> & He)|[err ->]]; [left|eauto].
    eexists. split_and!; [done|done|by apply with_env_ok].
  - left. destruct (update_step (E:=()) m (λ p, '(_, p) ← remove_env key p; Ok p) Hm)
      as (m' & -> & Hs); [|eauto].
    intros p0 Hp0. destruct (remove_env_ok key p0 Hp0) as [(b & e & -> & He)|[err ->]]; [left|eauto].
    eexists. split_and!; [done|done|by apply with_env_ok].
  - apply andb_true_iff in Hadm as [_ Hv]. left.
    destruct (update_step (E:=()) m (λ p, o ← set_cwd path p; Ok (default p o)) Hm)
      as (m' & -> & Hs); [|eauto].
    intros p0 Hp0. left. pose proof (set_cwd_spec (E:=EnvironmentError) path p0 Hp0 Hv) as H.
    destruct (starts_with SLASH path && bool_decide (length path ≤ MAX_CWD_LEN)).
    + destruct H as (p' & -> & Hok' & _ & Heq). eexists. split; [done|]. split; [|done].
      cbn. rewrite Heq. done.
    + rewrite H. eexists. split; [done|]. done.
Qed.

Lemma runs_to_ok m m' : runs_to stack_end trampoline m m' → machine_ok m → machine_ok m'.
Proof.
  induction 1 as [|m m1 m2 (k & Hadm & Hrun) _ IH]; [done|]. intros Hm. apply IH.
  destruct (call_step m k Hm Hadm) as [(m' & Hm' & Hs)|[Hn _]]; [|congruence].
  assert (m' = m1) as -> by congruence. apply Hs.
Qed.

End Calls.

(** ** The booted system *)

Section Boot.
Context (stack_end : nat → Z) (trampoline : Z) (Hstacks : stacks_placed stack_end).
Context (kernel_space : AddressSpace) (program : LoadedUserProgram).
Context (terminal_entry idle_entry : Z) (registers : ThreadContext).

Definition boot_env : Environment :=
  match Env.set Environment_new (ascii "PATH") (ascii "/system/bin:/bin") with
  | Ok e => e | _ => Environment_new end.

Local Lemma boot_env_ok :
  Env.set Environment_new (ascii "PATH") (ascii "/system/bin:/bin") = Ok boot_env ∧ env_ok boot_env.
Proof.
  pose proof (set_spec Environment_new (ascii "PATH") (ascii "/system/bin:/bin")
    (proj1 Environment_new_ok) eq_refl eq_refl) as H.
  rewrite (proj2 Environment_new_ok) in H.
  destruct (spec_set [] _ _) as [l| | |] eqn:Hs; [|vm_compute in Hs; discriminate..].
  unfold boot_env. destruct H as (e & He & Hok & _). rewrite He. done.
Qed.

Definition boot_kernel_process : Process :=
  Process_new 0 "kernel-system" kernel_space OwnedPages_empty Continue.
Definition boot_user_process : Process :=
  with_env boot_env
    (set_stdio (mkStdio 0%Z 1%Z 2%Z)
      (with_handles ([Some TerminalEndpointObject; Some TerminalEndpointObject;
          Some TerminalEndpointObject] ++ replicate 5 None)
        (Process_new 1 "user-bootstrap" (lp_address_space program) (lp_owned_pages program)
           ShutdownSystem))).

Definition boot_context (k : nat) : ThreadContext := mkContext (stack_end k - 8) 0 0 0 0 0 0.
Definition boot_threads : list (option Thread) :=
  [Some (set_state Running (Thread_new 0 "terminal" 0 (KernelStart terminal_entry)
           (boot_context 0) (stack_end 0)));
   Some (Thread_new 1 "user-bootstrap-main" 1
           (UserStart (lp_entry_point program) (lp_user_stack_top program))
           (boot_context 1) (stack_end 1));
   Some (Thread_new 2 "idle" 0 (KernelStart idle_entry) (boot_context 2) (stack_end 2))]
  ++ replicate 9 None.
Definition boot_stacks : list ThreadStack :=
  [[(stack_end 0 - 8, trampoline)%Z]; [(stack_end 1 - 8, trampoline)%Z];
   [(stack_end 2 - 8, trampoline)%Z]] ++ replicate 9 [].

(** The machine [boot] hands to the terminal thread. *)
Definition booted : Machine :=
  mkMachine
    (mkSched ([Some boot_kernel_process; Some boot_user_process] ++ replicate 6 None)
       boot_threads boot_stacks (Some 0) (Some 2) registers)
    (boot_context 0) kernel_space (stack_end 0).

Local Lemma boot_initial_context {E} s k ws :
  stacks s !! k = Some ws → k < MAX_THREADS → length (stacks s) = MAX_THREADS →
  initial_context_for stack_end trampoline (E:=E) s k =
    Ok (boot_context k, stack_end k, with_stacks (<[k := (stack_end k - 8, trampoline)%Z :: ws]> (stacks s)) s).
Proof.
  intros Hws Hk Hl. destruct (stack_top_aligned stack_end Hstacks k Hk) as [Ha Hge].
  unfold initial_context_for. rewrite (get_at_Ok _ _ _ Hws). cbn [mbind outcome_bind].
  rewrite Ha, decide_False by lia. by rewrite set_at_Ok by (by rewrite Hl).
Qed.

Local Lemma boot_create_thread s name pid st k ws :
  first_free (threads s) = Some k → stacks s !! k = Some ws → length (threads s) = MAX_THREADS →
  length (stacks s) = MAX_THREADS →
  try_create_thread stack_end trampoline (E:=()) s name pid st =
    Ok (Some (k, put_thread k (Some (Thread_new k name pid st (boot_context k) (stack_end k)))
      (with_stacks (<[k := (stack_end k - 8, trampoline)%Z :: ws]> (stacks s)) s))).
Proof.
  intros Hf Hws Ht Hl. unfold try_create_thread. rewrite Hf.
  destruct (first_free_slot _ _ Hf) as [_ Hk].
  rewrite (boot_initial_context s k ws) by (done || by rewrite <-Ht). cbn [mbind outcome_bind].
  by rewrite set_at_Ok by done.
Qed.

Local Lemma boot_processes :
  ('(kernel_process, s) ← create_process SchedulerState_new
      (mkConfig "kernel-system" kernel_space None OwnedPages_empty Continue);
   '(user_process, s) ← create_process s
      (mkConfig "user-bootstrap" (lp_address_space program) (Some TerminalEndpointObject)
         (lp_owned_pages program) ShutdownSystem);
   Ok (kernel_process, user_process, s)) =
  Ok (0, 1, with_processes ([Some boot_kernel_process;
    Some (with_env Environment_new boot_user_process)] ++ replicate 6 None) SchedulerState_new).
Proof. reflexivity. Qed.

Local Lemma boot_set_env :
  set_process_env (with_processes ([Some boot_kernel_process;
      Some (with_env Environment_new boot_user_process)] ++ replicate 6 None) SchedulerState_new)
    1 (ascii "PATH") (ascii "/system/bin:/bin")
  = Ok (with_processes ([Some boot_kernel_process; Some boot_user_process] ++ replicate 6 None)
      SchedulerState_new).
Proof.
  unfold set_process_env. cbn [process process_at expect]. unfold process.
  change (process_at _ 1) with (Some (with_env Environment_new boot_user_process)).
  cbn [expect mbind outcome_bind]. unfold set_env.
  change (env (with_env Environment_new boot_user_process)) with Environment_new.
  rewrite (proj1 boot_env_ok). cbn [mbind outcome_bind]. reflexivity.
Qed.

Lemma boot_spec :
  boot stack_end trampoline kernel_space program terminal_entry idle_entry registers = Ok (Some booted).
Proof.
  unfold boot. pose proof boot_processes as Hp.
  destruct (create_process SchedulerState_new _) as [[kp s1]| | |]; cbn [mbind outcome_bind] in Hp |- *;
    [|done..].
  destruct (create_process s1 _) as [[up s2]| | |]; cbn [mbind outcome_bind] in Hp |- *; [|done..].
  apply (f_equal (λ o, match o with Ok x => Some x | _ => None end)) in Hp.
  apply (inj Some) in Hp. apply (inj2 pair) in Hp as [[= -> ->] ->]. rewrite boot_set_env. unfold create_kernel_thread, create_user_thread.
  erewrite boot_create_thread by reflexivity. cbn [mbind outcome_bind expect].
  erewrite boot_create_thread by reflexivity. cbn [mbind outcome_bind expect].
  erewrite boot_create_thread by reflexivity. cbn [mbind outcome_bind expect].
  reflexivity.
Qed.

Local Lemma mjoin_replicate_None {A} n i : mjoin (replicate n (@None A) !! i) = None.
Proof. destruct (replicate n None !! i) as [x|] eqn:Hx; [|done]. by apply lookup_replicate in Hx as [-> _]. Qed.

Lemma boot_thread j t :
  thread_at (sched booted) j = Some t →
  (j = 0 ∧ t_state t = Running ∧ process_id t = 0 ∧ is_user t = false ∨
   j = 1 ∧ t_state t = Runnable ∧ process_id t = 1 ∧ is_user t = true ∨
   j = 2 ∧ t_state t = Runnable ∧ process_id t = 0 ∧ is_user t = false) ∧ t_id t = j.
Proof.
  destruct j as [|[|[|j]]]; intros Hj; [injection Hj as <-; cbn; auto 10..|].
  change (mjoin (replicate 9 (@None Thread) !! j) = Some t) in Hj.
  by rewrite mjoin_replicate_None in Hj.
Qed.

Lemma boot_process j p :
  process_at (sched booted) j = Some p →
  (j = 0 ∨ j = 1) ∧ p_id p = j ∧ waiting_thread p = None ∧ proc_ok p.
Proof.
  destruct j as [|[|j]]; intros Hj.
  - injection Hj as <-. split_and!; auto. apply Process_new_ok.
  - injection Hj as <-. split_and!; auto. apply with_env_ok; [|apply boot_env_ok].
    destruct (Process_new_ok 1 "user-bootstrap" (lp_address_space program) (lp_owned_pages program)
      ShutdownSystem). by split.
  - change (mjoin (replicate 6 (@None Process) !! j) = Some p) in Hj.
    by rewrite mjoin_replicate_None in Hj.
Qed.

Lemma booted_ok : machine_ok booted.
Proof.
  split; [split|].
  - by split.
  - assert (∀ q i, ¬ waited_by (process_at (sched booted)) q i) as Hnw.
    { intros q i (p & (_ & _ & Hw & _)%boot_process & ?). congruence. }
    split.
    + intros i p (? & ? & ? & ?)%boot_process. done.
    + intros i t [Hc ?]%boot_thread. split; [done|].
      destruct Hc as [(_ & _ & -> & _)|[(_ & _ & -> & _)|(_ & _ & -> & _)]]; by eexists.
    + by eexists 0, _.
    + intros i t [[(-> & _)|[(_ & Hs & _)|(_ & Hs & _)]] _]%boot_thread; [done|congruence..].
    + by eexists 2, _.
    + intros i t [[(_ & Hs & _)|[(_ & Hs & _)|(_ & Hs & _)]] _]%boot_thread _; congruence.
    + intros i t [[(_ & Hs & _)|[(_ & Hs & _)|(_ & Hs & _)]] _]%boot_thread ?; congruence.
    + intros q i Hw. by destruct (Hnw q i).
    + intros i j ti tj [Hi _]%boot_thread [Hj _]%boot_thread ? ?. naive_solver congruence.
    + exists (λ _, 0). intros q i Hw. by destruct (Hnw q i).
    + intros q p (_ & _ & -> & _)%boot_process. by intros [? ?].
  - by eexists 0, _, boot_kernel_process.
Qed.

End Boot.

(** ** Waiting *)

(** Thread [i] waits for the process whose thread is [j]. *)
Definition waits_on (s : SchedulerState) (i j : ThreadId) : Prop :=
  ∃ ti tj, thread_at s i = Some ti ∧ thread_at s j = Some tj ∧ is_user tj = true ∧
    waits_for ti (process_id tj).

Lemma blocked_chain s c i :
  tables_ok (thread_at s) (process_at s) c (idle_thread s) → sizes_ok s →
  is_Some (thread_at s i) → (∃ t, thread_at s i = Some t ∧ is_user t = true) →
  ∃ j, rtc (waits_on s) i j ∧ eligible s j.
Proof.
  intros Htab Hsz _. destruct (ok_order _ _ _ _ Htab) as [rank Hrank].
  set (bound := S (max_list (map rank (seq 0 MAX_THREADS)))).
  assert (∀ j t, thread_at s j = Some t → rank j < bound) as Hbound.
  { intros j t Hj%thread_at_lt. rewrite (ok_threads _ Hsz) in Hj.
    unfold bound. apply le_n_S, max_list_elem_of_le, list_elem_of_fmap.
    exists j. split; [done|]. apply elem_of_seq. lia. }
  remember (bound - rank i) as n eqn:Hn. revert i Hn.
  induction n as [n IH] using lt_wf_ind. intros i -> (t & Ht & Hu).
  destruct (may_run (t_state t)) eqn:Hr.
  - exists i. split; [done|]. exists t. split_and!; try done. intros Hid.
    destruct (ok_idle _ _ _ _ Htab) as (i' & t' & ? & ? & ?). congruence.
  - assert (t_state t = Blocked) as Hb by (by destruct (t_state t)).
    destruct (ok_blocked _ _ _ _ Htab _ _ Ht Hb) as (q & Hwf & Hwb).
    destruct (Hrank _ _ Hwb) as (j & tj & Hj & <- & Hju & Hlt).
    pose proof (Hbound _ _ Hj). destruct (IH (bound - rank j)) with j as (k & Hjk & Hk);
      [lia|done|eauto|].
    exists k. split; [|done]. eapply rtc_l; [|done]. by exists t, tj.
Qed.

(** ** Fairness *)

(** Positions that [next_non_idle_runnable_thread] looks at after [c] before
    it reaches [j]. *)
Definition distance (c j : nat) : nat := (j + MAX_THREADS - (c + 1) mod MAX_THREADS) mod MAX_THREADS.

Lemma distance_offset c j :
  j < MAX_THREADS → ((c + 1) mod MAX_THREADS + distance c j) mod MAX_THREADS = j.
Proof.
  unfold distance, MAX_THREADS. intros Hj. pose proof (Nat.mod_upper_bound (c + 1) 12).
  rewrite Nat.Div0.add_mod_idemp_r.
  replace ((c + 1) mod 12 + (j + 12 - (c + 1) mod 12)) with (j + 1 * 12) by lia.
  rewrite Nat.Div0.mod_add. by apply Nat.mod_small.
Qed.

(** Going on from a thread met on the way brings [j] nearer. *)
Lemma distance_closer c j o :
  j < MAX_THREADS → o < distance c j →
  distance (((c + 1) mod MAX_THREADS + o) mod MAX_THREADS) j = distance c j - o - 1.
Proof.
  unfold distance, MAX_THREADS. set (f := (c + 1) mod 12). intros Hj Ho.
  assert (f < 12) as Hf by (by apply Nat.mod_upper_bound).
  rewrite Nat.Div0.add_mod_idemp_l.
  assert (j = f + (j + 12 - f) mod 12 ∨ j + 12 = f + (j + 12 - f) mod 12) as Hd.
  { destruct (decide (j < f)).
    - right. rewrite Nat.mod_small by lia. lia.
    - left. replace (j + 12 - f) with (j - f + 1 * 12) by lia.
      rewrite Nat.Div0.mod_add, Nat.mod_small by lia. lia. }
  set (d := (j + 12 - f) mod 12) in *. assert (d < 12) by (by apply Nat.mod_upper_bound).
  clearbody d f. destruct Hd as [Hd|Hd].
  - rewrite (Nat.mod_small (f + o + 1)) by lia.
    replace (j + 12 - (f + o + 1)) with (d - o - 1 + 1 * 12) by lia.
    rewrite Nat.Div0.mod_add. apply Nat.mod_small. lia.
  - destruct (decide (f + o + 1 < 12)).
    + rewrite (Nat.mod_small (f + o + 1)) by lia.
      replace (j + 12 - (f + o + 1)) with (d - o - 1) by lia. apply Nat.mod_small. lia.
    + replace (f + o + 1) with (f + o + 1 - 12 + 1 * 12) by lia.
      rewrite Nat.Div0.mod_add, (Nat.mod_small (f + o + 1 - 12)) by lia.
      replace (j + 12 - (f + o + 1 - 12)) with (d - o - 1 + 1 * 12) by lia.
      rewrite Nat.Div0.mod_add. apply Nat.mod_small. lia.
Qed.

(** The running thread and its successors yield [n] times. *)
Fixpoint yields (n : nat) (m : Machine) : res Machine :=
  match n with 0 => Ok m | S n => m ← yield_now m; yields n m end.

(** When [j] can run, a yield goes to a thread at most as far as [j]. *)
Lemma next_before s c j n :
  sizes_ok s → (∀ i t, thread_at s i = Some t → t_id t = i) → eligible s j →
  next_runnable_thread (E:=()) s (Some c) = Ok (Some n) →
  ∃ o, o ≤ distance c j ∧ n = ((c + 1) mod MAX_THREADS + o) mod MAX_THREADS.
Proof.
  intros Hsz Hids Hj Hnext.
  assert (j < MAX_THREADS) as Hjl
    by (destruct Hj as (t & Ht & _); rewrite <-(ok_threads _ Hsz); by eapply thread_at_lt).
  assert (distance c j < MAX_THREADS) as Hd by (by apply Nat.mod_upper_bound).
  unfold next_runnable_thread in Hnext.
  destruct (next_non_idle_spec s (ok_threads _ Hsz) Hids (E:=()) (Some c)) as (r & Hr & Hspec).
  rewrite Hr in Hnext. cbn [mbind outcome_bind] in Hnext. destruct r as [n0|].
  - injection Hnext as ->. destruct Hspec as (_ & o & Ho & -> & Hbefore). exists o. split; [|done].
    destruct (decide (o ≤ distance c j)); [done|]. destruct (Hbefore (distance c j)); [lia|].
    by rewrite distance_offset.
  - destruct (Hspec (distance c j)); [done|]. by rewrite distance_offset.
Qed.

Lemma fair_yields d m c j :
  machine_ok m → current_thread (sched m) = Some c → eligible (sched m) j → distance c j < d →
  ∃ k m', k ≤ d ∧ yields k m = Ok m' ∧ current_thread (sched m') = Some j ∧ machine_ok m'.
Proof.
  revert m c. induction d as [|d IH]; intros m c Hm Hcur Hj Hd; [lia|].
  destruct (decide (j = c)) as [->|Hjc]; [exists 0, m; split_and!; [lia|done..]|].
  destruct (machine_ok_current _ Hm) as (c' & t & Hc' & Ht & _ & _ & Htab).
  assert (c' = c) as -> by congruence.
  destruct (yield_spec (E:=()) m c t Hm Hcur Ht) as (n & tn & pn & Hnext & Hn & _ & Hp & Hy).
  destruct (next_before (sched m) c j n (proj1 (proj1 Hm))
    (λ i ti Hi, proj1 (ok_thread _ _ _ _ Htab i ti Hi)) Hj Hnext) as (o & Ho & Hno).
  assert (j < MAX_THREADS) as Hjl.
  { destruct Hj as (tj & Htj & _). rewrite <-(ok_threads _ (proj1 (proj1 Hm))). by eapply thread_at_lt. }
  assert (n ≠ c) as Hnc.
  { intros ->. destruct (decide (o = distance c j)) as [->|].
    - rewrite distance_offset in Hno by done. congruence.
    - pose proof (distance_closer c j o Hjl ltac:(lia)) as Hcl. rewrite <-Hno in Hcl. lia. }
  destruct Hy as [[? _]|[_ Hy]]; [done|].
  destruct (yield_step (E:=()) m Hm) as (m1 & Hy' & Hs). rewrite Hy in Hy'. injection Hy' as <-.
  pose proof (st_ok _ _ _ Hs) as Hm1.
  destruct (decide (n = j)) as [->|Hnj].
  { exists 1. eexists. split_and!; [lia|cbn; rewrite Hy; reflexivity|done|done]. }
  assert (o < distance c j) as Hlt.
  { destruct (decide (o = distance c j)) as [->|]; [|lia]. rewrite distance_offset in Hno by done. done. }
  destruct (IH _ n Hm1 eq_refl) as (k & m' & Hk & Hyk & Hres).
  - destruct Hj as (tj & Htj & Hne & Hr). exists tj. split_and!; [|done|done].
    pose proof (thread_at_lt _ _ _ Ht) as Hl.
    rewrite switched_tables; [|by rewrite thread_at_put, decide_True by done|
      by rewrite thread_at_put, decide_False by done|done].
    by rewrite !decide_False, thread_at_put, decide_False by done.
  - rewrite Hno. rewrite distance_closer by done. lia.
  - exists (S k), m'. split_and!; [lia| |apply Hres..]. cbn. rewrite Hy. exact Hyk.
Qed.

(** ** The end of a wait *)

(** What another thread's call leaves of a thread, and all of a waiting one. *)
Definition keeps (m m' : Machine) : Prop :=
  ∀ j t, thread_at (sched m) j = Some t →
    ∃ t', thread_at (sched m') j = Some t' ∧ alike t t' ∧ (t_state t = Blocked → t' = t).

#[export] Instance keeps_preorder : PreOrder keeps.
Proof.
  split; [intros m j t Ht; eauto|].
  intros m1 m2 m3 H12 H23 j t Ht. destruct (H12 _ _ Ht) as (t2 & Ht2 & (? & ? & ?) & Hb2).
  destruct (H23 _ _ Ht2) as (t3 & Ht3 & (? & ? & ?) & Hb3).
  exists t3. split; [done|]. split; [split_and!; congruence|].
  intros Hb. rewrite Hb2 in Hb3 by done. auto.
Qed.

Lemma yield_keeps m m' : machine_ok m → yield_now (E:=()) m = Ok m' → keeps m m'.
Proof.
  intros Hm Hy j t Ht. destruct (machine_ok_current _ Hm) as (c & tc & Hcur & Htc & Hrc & _).
  destruct (yield_step (E:=()) m Hm) as (m1 & Hy1 & Hs). assert (m1 = m') as -> by congruence.
  destruct (decide (t_state t = Blocked)) as [Hb|Hb]; [exists t; by pose proof (st_blocked _ _ _ Hs j t eq_refl Ht Hb)|].
  destruct (yield_spec (E:=()) m c tc Hm Hcur Htc) as (n & tn & pn & _ & Hn & _ & _ & [[_ Hy2]|[Hne Hy2]]);
    rewrite Hy2 in Hy; injection Hy as <-; [eauto|]. pose proof (thread_at_lt _ _ _ Htc) as Hl.
  rewrite switched_tables; [|by rewrite thread_at_put, decide_True by done|by rewrite thread_at_put, decide_False by done|done].
  rewrite thread_at_put by done. repeat case_decide; simplify_eq; eexists; (split; [done|]); by split.
Qed.

Lemma yields_keep n m m' : machine_ok m → yields n m = Ok m' → keeps m m'.
Proof.
  revert m. induction n as [|n IH]; intros m Hm; [by intros [= <-]|]. cbn [yields].
  destruct (yield_step (E:=()) m Hm) as (m1 & Hy & Hs). rewrite Hy. cbn [mbind outcome_bind]. intros Hys.
  transitivity m1; [by apply yield_keeps|]. by apply IH; [apply Hs|].
Qed.

(** The exit of a process that is waited for: the waiting thread runs. *)
Lemma exit_waited stack_end trampoline m e te i t status :
  stacks_placed stack_end → machine_ok m → current_thread (sched m) = Some e → thread_at (sched m) e = Some te →
  is_user te = true → thread_at (sched m) i = Some t → waits_for t (process_id te) →
  ∃ m' result, run_call stack_end trampoline m (CExit status) = Ok (Some m') ∧ machine_ok m' ∧
    current_thread (sched m') = Some i ∧ cpu m' = context t ∧ process_at (sched m') (process_id te) = None ∧
    wait_for_child_result (E:=()) m' = Ok (Some status, result) ∧
    ∀ j, thread_at (sched m') j = if decide (i = j) then Some (set_state Running (wake (set_wait_result status t)))
      else if decide (e = j) then None else thread_at (sched m) j.
Proof.
  intros Hst Hm Hcur Hte Hu Ht Hwf. pose proof Hm as [[Hsz Htab] (e' & te' & p & Hcur' & Hte' & Hp & _)].
  simplify_eq. rewrite Hcur in Htab.
  destruct (ok_blocked _ _ _ _ Htab _ _ Ht (proj1 Hwf)) as (q & [_ Hq] & (p' & Hp' & Hw)).
  assert (q = process_id te) as -> by (destruct Hwf; congruence). simplify_eq.
  pose proof (ok_child _ _ _ _ Htab _ _ Hp (ex_intro _ _ Hw)) as Hact.
  destruct (exit_spec m e te p Hm Hcur Hte Hu Hp (E:=()) status)
    as [[? _]|(_ & n & tn & tn' & pn & Hn & Hne & Htgt & Hpn & Hx)]; [congruence|].
  pose proof (exited_step m e te p Hm Hcur Hte Hu Hp status n tn tn' pn Hn Hne Htgt Hpn) as Hs.
  unfold exit_target in Htgt. rewrite Hw in Htgt. destruct Htgt as [-> ->]. simplify_eq.
  cbn [run_call]. rewrite Hx. cbn [mbind outcome_bind]. set (m' := exited m _ _ _ _ _) in *.
  pose proof (thread_at_lt _ _ _ Hte) as Hel. pose proof (thread_at_lt _ _ _ Ht) as Hnl.
  assert (∀ j, thread_at (sched m') j = if decide (i = j) then Some (set_state Running (wake (set_wait_result status t)))
    else if decide (e = j) then None else thread_at (sched m) j) as HT.
  { intros j. change (thread_at (sched m') j)
      with (thread_at (put_thread i (Some (set_state Running (wake (set_wait_result status t)))) (put_thread e None (sched m))) j).
    rewrite thread_at_put by (cbn; by rewrite length_insert). by rewrite thread_at_put. }
  eexists m', _. split_and!; [done|apply Hs|done|done| | |exact HT].
  - change (process_at (sched m') (process_id te))
      with (process_at (put_process (process_id te) None (put_thread e None (sched m))) (process_id te)).
    rewrite process_at_put by (by apply process_at_lt in Hp). by rewrite decide_True.
  - unfold wait_for_child_result. assert (current_thread (sched m') = Some i) as -> by done.
    assert (thread_at (sched m') i = Some (set_state Running (wake (set_wait_result status t)))) as Hi
      by (by rewrite HT, decide_True).
    rewrite (thread_Ok _ _ _ Hi). cbn [mbind outcome_bind]. by rewrite (thread_mut_put _ _ _ _ Hi).
Qed.

(** A round: some yields, after which a program runs, and the exit of that
    program. *)
Fixpoint unwind (stack_end : nat → Z) (trampoline : Z) (rounds : list nat) (status : Z) (m : Machine) : res (option Machine) :=
  match rounds with
  | [] => Ok (Some m)
  | k :: rounds =>
      m ← yields k m;
      if in_user_thread (sched m) then
        o ← run_call stack_end trampoline m (CExit status);
        match o with Some m => unwind stack_end trampoline rounds status m | None => Ok None end
      else Ok None
  end.

(** The waits along a chain survive what keeps threads and all but the last
    one the exit at its end. *)
Lemma waits_on_keeps m m' i j : keeps m m' → waits_on (sched m) i j → waits_on (sched m') i j.
Proof.
  intros Hk (ti & tj & (ti' & Hti & _ & Hb)%Hk & (tj' & Htj & Ha & _)%Hk & Hu & Hw).
  rewrite Hb in Hti by apply Hw. exists ti, tj'. rewrite (alike_user _ _ Ha). destruct Ha as (_ & -> & _). by split_and!.
Qed.

Lemma nsteps_mono {A} (R R' : A → A → Prop) n i j : (∀ x y, R x y → R' x y) → nsteps R n i j → nsteps R' n i j.
Proof. intros HR. induction 1; econstructor; eauto. Qed.

(** A thread comes before what it waits for, so a chain of waits is short. *)
Lemma chain_short s c n i j :
  tables_ok (thread_at s) (process_at s) c (idle_thread s) → sizes_ok s → nsteps (waits_on s) n i j →
  is_Some (thread_at s i) → n < MAX_THREADS.
Proof.
  intros Htab Hsz Hn Hi. destruct (ok_order _ _ _ _ Htab) as [rank Hrank].
  assert (∀ x y, waits_on s x y → rank x < rank y) as Hlt.
  { intros x y (tx & ty & Hx & Hy & Hu & [Hb Hr]). destruct (ok_blocked _ _ _ _ Htab _ _ Hx Hb) as (q & [_ Hq] & Hwb).
    destruct (Hrank _ _ Hwb) as (z & tz & Hz & Hzq & Hzu & Hl).
    assert (z = y) as -> by (apply (ok_alone _ _ _ _ Htab z y tz ty); congruence). done. }
  assert (∃ l, NoDup l ∧ length l = n ∧ ∀ x, x ∈ l → x < MAX_THREADS ∧ rank i < rank x) as (l & Hnd & <- & Hl).
  { clear Hi. induction Hn as [|n x y z Hxy _ IH]; [exists []; split_and!; [constructor|done|by intros ? ?%elem_of_nil]|].
    destruct IH as (l & Hnd & <- & Hl). pose proof (Hlt _ _ Hxy). destruct Hxy as (_ & ty & _ & Hy & _).
    apply thread_at_lt in Hy. rewrite (ok_threads _ Hsz) in Hy. exists (y :: l). split_and!; [|done|].
    - constructor; [|done]. intros [_ ?]%Hl. lia.
    - intros w [->|[? ?]%Hl]%elem_of_cons; lia. }
  destruct Hi as [t Hi%thread_at_lt]. rewrite (ok_threads _ Hsz) in Hi.
  assert (NoDup (i :: l)) as Hnd' by (constructor; [intros [_ ?]%Hl; lia|done]).
  assert (i :: l ⊆+ seq 0 MAX_THREADS) as Hsub%submseteq_length.
  { apply NoDup_submseteq; [done|]. intros x [->|[? _]%Hl]%elem_of_cons; apply elem_of_seq; lia. }
  rewrite length_seq in Hsub. cbn in Hsub. lia.
Qed.

Lemma chain_blocked s n i j t : nsteps (waits_on s) (S n) i j → thread_at s i = Some t → t_state t = Blocked.
Proof. inversion 1 as [|? ? ? ? (ti & _ & ? & _ & _ & [? _]) _]; subst. congruence. Qed.

(** The exit at the end of a chain leaves the rest of it. *)
Lemma chain_exit s s' c n i x j tx tj tx' :
  tables_ok (thread_at s) (process_at s) c (idle_thread s) → thread_at s x = Some tx → thread_at s j = Some tj →
  is_user tj = true → t_state tj ≠ Blocked → waits_for tx (process_id tj) → alike tx tx' →
  (∀ y, thread_at s' y = if decide (x = y) then Some tx' else if decide (j = y) then None else thread_at s y) →
  nsteps (waits_on s) n i x → nsteps (waits_on s') n i x.
Proof.
  intros Htab Hx Hj Hu Hjb Hw Ha HT. assert (x ≠ j) as Hxj by (intros ->; destruct Hw; congruence).
  induction 1 as [|n a b x (ta & tb & Hta & Htb & Hub & Hab) Hn IH]; [constructor|].
  specialize (IH Hx HT Hxj). assert (b ≠ j) as Hbj.
  { intros ->. destruct Hn as [|? ? ? ? (tj' & _ & Hj' & _ & _ & [? _]) _]; congruence. }
  apply nsteps_l with b; [|done].
  assert (a ≠ j) by (intros ->; destruct Hab; congruence).
  assert (a ≠ x).
  { intros ->. simplify_eq. destruct Hbj, Hab, Hw. apply (ok_alone _ _ _ _ Htab b j tb tj); congruence. }
  assert (∃ tb', thread_at s' b = Some tb' ∧ alike tb tb') as (tb' & Htb' & Hab').
  { rewrite HT. case_decide; [simplify_eq; eauto|]. rewrite decide_False by done. eauto. }
  exists ta, tb'. rewrite (alike_user _ _ Hab'), HT, !decide_False by done. destruct Hab' as (_ & -> & _). by split_and!.
Qed.

(** The programs at the end of the chain exit, one after the other. *)
Lemma chain_unwinds stack_end trampoline status n m i j t :
  stacks_placed stack_end → machine_ok m → nsteps (waits_on (sched m)) (S n) i j → eligible (sched m) j →
  thread_at (sched m) i = Some t →
  ∃ rounds m' result, length rounds = S n ∧ Forall (λ k, k ≤ MAX_THREADS) rounds ∧
    unwind stack_end trampoline rounds status m = Ok (Some m') ∧
    current_thread (sched m') = Some i ∧ cpu m' = context t ∧
    wait_for_child_result (E:=()) m' = Ok (Some status, result).
Proof.
  intros Hst. revert m j. induction n as [|n IH]; intros m j Hm Hch Hj Ht.
  all: destruct (machine_ok_current _ Hm) as (c & _ & Hcur & _).
  all: destruct (fair_yields MAX_THREADS m c j Hm Hcur Hj) as (k & m1 & Hk & Hy & Hc1 & Hm1); [by apply Nat.mod_upper_bound|].
  all: pose proof (yields_keep _ _ _ Hm Hy) as Hkeep.
  all: destruct (Hkeep _ _ Ht) as (t1 & Ht1 & _ & Heq); rewrite Heq in Ht1 by (by eapply chain_blocked); clear Heq.
  all: apply (nsteps_mono _ (waits_on (sched m1)) _ _ _ (λ x y, waits_on_keeps m m1 x y Hkeep)) in Hch.
  all: apply nsteps_inv_r in Hch as (x & Hch & (tx & tj & Hx & Htj & Hu & Hw)).
  all: destruct (exit_waited stack_end trampoline m1 j tj x tx status Hst Hm1 Hc1 Htj Hu Hx Hw)
    as (m2 & result & Hrun & Hm2 & Hc2 & Hcpu & Hgone & Hres & HT).
  all: assert (in_user_thread (sched m1) = true) as Hin by (unfold in_user_thread; rewrite Hc1; cbn; by rewrite Htj).
  - inversion Hch; subst. simplify_eq.
    exists [k], m2, result. cbn [unwind]. rewrite Hy. cbn [mbind outcome_bind]. rewrite Hin, Hrun. split_and!; auto.
  - pose proof Hm1 as [[_ Htab1] _]. pose proof Hm2 as [[_ Htab2] _].
    assert (t_state tj ≠ Blocked) as Hjb.
    { destruct (machine_ok_current _ Hm1) as (c' & t' & ? & ? & Hr & _). simplify_eq. by rewrite Hr. }
    pose proof (chain_exit _ _ _ _ _ _ _ _ _ (set_state Running (wake (set_wait_result status tx))) Htab1 Hx Htj Hu Hjb Hw
      ltac:(done) HT Hch) as Hch2.
    assert (thread_at (sched m2) x = Some (set_state Running (wake (set_wait_result status tx)))) as Hx2 by (by rewrite HT, decide_True).
    assert (is_user tx = true) as Hxu.
    { destruct (is_user tx) eqn:Hxu; [done|]. destruct (ok_kernel _ _ _ _ Htab1 _ _ Hx Hxu). apply Hw. }
    assert (eligible (sched m2) x) as Hel.
    { eexists. split; [done|]. split; [|done]. intros Hid. destruct (ok_idle _ _ _ _ Htab2) as (y & ty & ? & ? & Hyu).
      assert (y = x) as -> by congruence.
      assert (ty = set_state Running (wake (set_wait_result status tx))) as -> by congruence. change (is_user tx = false) in Hyu. congruence. }
    assert (thread_at (sched m2) i = Some t) as Ht2.
    { rewrite HT, !decide_False; [done| |]; intros ->.
      - pose proof (chain_blocked _ _ _ _ _ Hch Ht1). congruence.
      - by pose proof (chain_blocked _ _ _ _ _ Hch2 Hx2). }
    destruct (IH m2 x Hm2 Hch2 Hel Ht2) as (rounds & m3 & result3 & Hl & Hall & Hun & Hrest).
    exists (k :: rounds), m3, result3. cbn [unwind]. rewrite Hy. cbn [mbind outcome_bind]. rewrite Hin, Hrun.
    cbn [mbind outcome_bind length]. split_and!; [by f_equal|by constructor|done|apply Hrest..].
Qed.

(** ** Registers *)

(** Steps taken while [c] is not the running thread. *)
Definition away (stack_end : nat → Z) (trampoline : Z) (c : ThreadId) (m m' : Machine) : Prop :=
  current_thread (sched m) ≠ Some c ∧ step stack_end trampoline m m'.

Lemma away_keeps stack_end trampoline c regs m1 m2 :
  stacks_placed stack_end → rtc (away stack_end trampoline c) m1 m2 → machine_ok m1 →
  current_thread (sched m1) ≠ Some c →
  (∃ t, thread_at (sched m1) c = Some t ∧ context t = regs) →
  machine_ok m2 ∧ (current_thread (sched m2) = Some c → cpu m2 = regs).
Proof.
  intros Hst Hruns Hm1 Hc1 Hctx.
  assert (if decide (current_thread (sched m1) = Some c) then cpu m1 = regs
          else ∃ t, thread_at (sched m1) c = Some t ∧ context t = regs) as Hinv by (by case_decide).
  clear Hc1 Hctx. revert Hm1 Hinv.
  induction Hruns as [m|m1 m2 m3 [Haway (k & Hadm & Hrun)] _ IH]; intros Hm Hinv.
  { split; [done|]. intros ?. by rewrite decide_True in Hinv. }
  rewrite decide_False in Hinv by done. destruct Hinv as (t & Ht & Hctx).
  destruct (call_step stack_end trampoline Hst m1 k Hm Hadm) as [(m' & Hm' & Hs)|[? _]]; [|congruence].
  assert (m' = m2) as -> by congruence. apply IH; [apply Hs|].
  destruct (st_frame _ _ _ Hs c t Haway Ht) as (t' & Ht' & Hctx').
  case_decide as Hc2; [|exists t'; split; congruence].
  destruct (st_load _ _ _ Hs c Hc2 Haway) as (t2 & Ht2 & ->). congruence.
Qed.

(** ** A concrete machine *)

Definition sample_stacks (i : nat) : Z := (65536 * Z.of_nat (i + 1))%Z.
Definition sample_program : LoadedUserProgram :=
  mkProgram (mkSpace 0x5000) 0x400000 0x800000 OwnedPages_empty.

Lemma sample_stacks_placed : stacks_placed sample_stacks.
Proof.
  intros i Hi. exists (65536 * Z.of_nat i)%Z. unfold sample_stacks, THREAD_STACK_SIZE, MAX_THREADS in *.
  split_and!; [lia|lia| |lia]. replace (65536 * Z.of_nat i)%Z with (4096 * Z.of_nat i * 16)%Z by lia.
  by apply Z.mod_mul.
Qed.

(** Just booted, and after one yield, when the user thread runs. *)
Definition sample_booted : Machine :=
  booted sample_stacks 4096 (mkSpace 0x1000) sample_program 1 2 ThreadContext_zeroed.
Definition sample_user : Machine :=
  match yields 1 sample_booted with Ok m => m | _ => sample_booted end.

Lemma sample_booted_ok : machine_ok sample_booted.
Proof. apply booted_ok. Qed.

Lemma sample_user_ok : machine_ok sample_user.
Proof.
  destruct (yield_step (E:=()) sample_booted sample_booted_ok) as (m' & Hy & Hs).
  unfold sample_user. cbn [yields]. rewrite Hy. cbn [mbind outcome_bind]. apply Hs.
Qed.

Definition sample_call (m : Machine) (k : call) : Machine :=
  match run_call sample_stacks 4096 m k with Ok (Some m') => m' | _ => m end.

Lemma sample_call_ok m k :
  machine_ok m → admissible (sched m) k = true → machine_ok (sample_call m k).
Proof.
  intros Hm Hk. unfold sample_call.
  destruct (call_step sample_stacks 4096 sample_stacks_placed m k Hm Hk) as [(m' & -> & Hs)|[-> _]];
    [apply Hs|done].
Qed.

(** * Properties *)

(** C4. Bring-up always succeeds, and from the booted system on no sequence of
    calls the threads may make ever panics, hangs or finds no thread to run:
    every admissible call returns, only the exit of the initial process stops
    the machine, the scheduler's invariant holds throughout, and the running
    thread always has its own process's address space and its own kernel
    stack loaded. *)
Theorem scheduler_safe stack_end trampoline kernel_space program terminal_entry idle_entry registers :
  stacks_placed stack_end →
  ∃ m0, boot stack_end trampoline kernel_space program terminal_entry idle_entry registers
      = Ok (Some m0) ∧
    ∀ m k, runs_to stack_end trampoline m0 m → admissible (sched m) k = true →
      machine_ok m ∧ ∃ o, run_call stack_end trampoline m k = Ok o ∧
        (o = None → stops_system (sched m) k).
Proof.
  intros Hst. eexists. split; [by apply boot_spec|]. intros m k Hruns Hadm.
  assert (machine_ok m) as Hm by (eapply runs_to_ok; [done|done|apply booted_ok]).
  split; [done|].
  destruct (call_step stack_end trampoline Hst m k Hm Hadm) as [(m' & -> & _)|[-> ?]]; eauto.
  eexists. split; [done|]. done.
Qed.

Lemma scheduler_safe_witness :
  stacks_placed sample_stacks ∧
  ∃ m0, boot sample_stacks 4096 (mkSpace 0x1000) sample_program 1 2 ThreadContext_zeroed = Ok (Some m0) ∧
    ∃ o, run_call sample_stacks 4096 m0 CYield = Ok o.
Proof.
  split; [exact sample_stacks_placed|].
  destruct (scheduler_safe sample_stacks 4096 (mkSpace 0x1000) sample_program 1 2 ThreadContext_zeroed
    sample_stacks_placed) as (m0 & Hb & H).
  exists m0. split; [exact Hb|].
  destruct (H m0 CYield (rtc_refl _ m0) eq_refl) as (_ & o & Ho & _). exists o. exact Ho.
Defined.

(** C20. Spawning is all or nothing.  It fails only when no process slot or no
    thread slot is free or the parent's streams cannot be inherited; then the
    scheduler is exactly as before and the caller gets the whole program back,
    its pages included.  Otherwise the child is in the first free slot, owns
    the program's address space and pages, has the parent's streams (or null
    output), cwd and environment, is waited for by the parent, and its new
    thread starts in the trampoline on its own fresh stack with the program's
    entry point; every other process and thread is untouched. *)
Theorem spawn_all_or_nothing stack_end trampoline s c t parent program silent :
  stacks_placed stack_end → sched_ok s →
  thread_at s c = Some t → process_at s (process_id t) = Some parent →
  spawn_child_process stack_end trampoline (E:=()) s c program silent = Ok (inr program, s) ∧
    (first_free (processes s) = None ∨ first_free (threads s) = None ∨
     ∃ q, inherit_stdio silent parent (Process_new q "user-child" (lp_address_space program)
       (lp_owned_pages program) Continue) = None) ∨
  ∃ q k child tk s',
    spawn_child_process stack_end trampoline (E:=()) s c program silent = Ok (inl q, s') ∧
    first_free (processes s) = Some q ∧ first_free (threads s) = Some k ∧
    child_of parent c program silent q child ∧
    process_id tk = q ∧ start tk = UserStart (lp_entry_point program) (lp_user_stack_top program) ∧
    t_state tk = Runnable ∧ fresh_context stack_end trampoline k (context tk) (kernel_stack_top tk) s' ∧
    (∀ j, process_at s' j = if decide (q = j) then Some child else process_at s j) ∧
    (∀ j, thread_at s' j = if decide (k = j) then Some tk else thread_at s j).
Proof.
  intros Hst [Hsz Htab] Ht Hp. pose proof (ok_process _ _ _ _ Htab _ _ Hp) as [_ Hpok].
  destruct (spawn_spec stack_end trampoline Hst (E:=()) s c t parent program silent Hsz Ht Hp Hpok)
    as [H|(q & k & child & ctx & top & ss & s' & Hq & Hk & Hch & Hss & -> & Hfr & Hsp)]; [by left|].
  right. exists q, k, child, (Thread_new k "user-child-main" q
    (UserStart (lp_entry_point program) (lp_user_stack_top program)) ctx top).
  eexists. split; [exact Hsp|].
  split_and!; [done|done|done|reflexivity|reflexivity|reflexivity|exact Hfr| |].
  - intros j. apply (process_at_put _ (Some child) s). by apply first_free_slot in Hq as [].
  - intros j. apply (thread_at_put _ _ (put_process q (Some child) s)).
    by apply first_free_slot in Hk as [].
Qed.

Lemma spawn_all_or_nothing_witness :
  ∃ t parent, thread_at (sched sample_user) 1 = Some t ∧
    process_at (sched sample_user) (process_id t) = Some parent ∧
    ∃ q s', spawn_child_process sample_stacks 4096 (E:=()) (sched sample_user) 1 sample_program false
      = Ok (inl q, s') ∧ q = 2.
Proof.
  eexists _, _. split; [vm_compute; reflexivity|]. split; [vm_compute; reflexivity|].
  destruct (spawn_all_or_nothing sample_stacks 4096 (sched sample_user) 1
    (default (Thread_new 0 "" 0 (KernelStart 0) ThreadContext_zeroed 0) (thread_at (sched sample_user) 1))
    (default (Process_new 0 "" (mkSpace 0) OwnedPages_empty Continue) (process_at (sched sample_user) 1))
    sample_program false sample_stacks_placed (proj1 sample_user_ok)
    ltac:(vm_compute; reflexivity) ltac:(vm_compute; reflexivity))
    as [[_ [H|[H|[q H]]]]|(q & k & child & tk & s' & Hs & Hq & _)];
    [vm_compute in H; discriminate..|].
  exists q, s'. split; [exact Hs|]. vm_compute in Hq. injection Hq as <-. reflexivity.
Defined.

(** C11. A thread that waits for a child process keeps waiting, with its
    registers, through every call of any other thread but one: the exit of
    the thread of that very process.  That exit makes it the running thread,
    with its own registers loaded and the child's status in its wait result,
    which [wait_for_child] then returns; the child process is gone. *)
Theorem child_status_reaches_parent stack_end trampoline m k m' c t q :
  stacks_placed stack_end → machine_ok m → admissible (sched m) k = true →
  thread_at (sched m) c = Some t → waits_for t q →
  run_call stack_end trampoline m k = Ok (Some m') →
  thread_at (sched m') c = Some t ∨
  ∃ status e te m'', k = CExit status ∧
    current_thread (sched m) = Some e ∧ thread_at (sched m) e = Some te ∧ process_id te = q ∧
    current_thread (sched m') = Some c ∧ cpu m' = context t ∧
    process_at (sched m') q = None ∧
    wait_for_child_result (E:=()) m' = Ok (Some status, m'').
Proof.
  intros Hst Hm Hadm Ht [Hbl Hbr] Hrun.
  destruct (is_exit k) eqn:Hk.
  2: { left. destruct (call_step stack_end trampoline Hst m k Hm Hadm) as [(m1 & Hm1 & Hs)|[? _]];
         [|congruence]. rewrite Hk in Hs. assert (m1 = m') as -> by congruence.
       by apply (st_blocked _ _ _ Hs). }
  destruct k as [| | | |status| | |]; try done. cbn [run_call admissible] in *.
  pose proof Hm as [[Hsz Htab] (e & te & p & Hcur & Hte & Hp & _)].
  rewrite Hcur in Htab. pose proof (in_user_thread_current _ _ _ Hcur Hte Hadm) as Hu.
  destruct (decide (process_id te = q)) as [<-|Hq].
  { destruct (exit_waited stack_end trampoline m e te c t status Hst Hm Hcur Hte Hu Ht (conj Hbl Hbr))
      as (m1 & result & Hrun' & _ & ? & ? & ? & ? & _). cbn [run_call] in Hrun'.
    assert (m1 = m') as -> by congruence. right. by exists status, e, te, result. }
  left. destruct (exit_spec m e te p Hm Hcur Hte Hu Hp (E:=()) status)
    as [[_ Hx]|(_ & n & tn & tn' & pn & Hn & Hne & Htgt & Hpn & Hx)];
    rewrite Hx in Hrun; cbn [mbind outcome_bind] in Hrun; [done|]. injection Hrun as <-.
  change (thread_at (put_thread n (Some tn') (put_thread e None (sched m))) c = Some t).
  rewrite thread_at_put by (cbn; rewrite length_insert; by apply thread_at_lt in Hn).
  rewrite thread_at_put by (by apply thread_at_lt in Hte).
  rewrite !decide_False; [done| |]; intros ->; simplify_eq.
  - destruct (current_runs _ _ _ _ Htab) as (t0 & ? & ?). congruence.
  - unfold exit_target in Htgt. destruct (waiting_thread p) as [w|] eqn:Hw; [|destruct Htgt as [_ Hr]; by rewrite Hbl in Hr].
    destruct Htgt as [-> _]. destruct (waited_blocked _ _ _ _ Htab (process_id te) w t) as [_ ?]; [by exists p|done|congruence].
Qed.

(** The initial process spawns a child, which the next yields reach. *)
Definition sample_child : Machine :=
  match yields 2 (sample_call sample_user (CSpawn sample_program false)) with
  | Ok m => m | _ => sample_booted end.

(** The child spawns a child of its own. *)
Definition sample_grandchild : Machine := sample_call sample_child (CSpawn sample_program false).

Lemma yields_runs_to stack_end trampoline n m m' : yields n m = Ok m' → runs_to stack_end trampoline m m'.
Proof.
  revert m. induction n as [|n IH]; intros m; [intros [= <-]; apply rtc_refl|]. cbn [yields]. intros (m1 & Hy & H)%bind_Ok.
  eapply rtc_l; [|by apply IH]. exists CYield. split; [done|]. cbn [run_call]. by rewrite Hy.
Qed.

Lemma yielded_runs n m d : is_Ok (yields n m) = true →
  runs_to sample_stacks 4096 m (match yields n m with Ok m' => m' | _ => d end).
Proof. destruct (yields n m) as [m'| | |] eqn:Hy; try done. intros _. by apply (yields_runs_to _ _ n). Qed.

Lemma sample_call_runs m k : admissible (sched m) k = true → runs_to sample_stacks 4096 m (sample_call m k).
Proof.
  intros Hk. unfold sample_call. destruct (run_call sample_stacks 4096 m k) as [[m'|]| | |] eqn:Hrun; try apply rtc_refl.
  apply rtc_once. by exists k.
Qed.

Lemma sample_child_reached : runs_to sample_stacks 4096 sample_booted sample_child.
Proof.
  transitivity sample_user; [apply yielded_runs; by vm_compute|].
  transitivity (sample_call sample_user (CSpawn sample_program false)); [apply sample_call_runs; by vm_compute|].
  apply yielded_runs. by vm_compute.
Qed.

Lemma sample_grandchild_reached : runs_to sample_stacks 4096 sample_booted sample_grandchild.
Proof. transitivity sample_child; [exact sample_child_reached|apply sample_call_runs; by vm_compute]. Qed.

Lemma child_status_reaches_parent_witness :
  ∃ t result, thread_at (sched sample_child) 1 = Some t ∧ waits_for t 2 ∧
    wait_for_child_result (E:=()) (sample_call sample_child (CExit 7)) = Ok (Some 7%Z, result).
Proof.
  assert (machine_ok sample_child) as Hm.
  { eapply (runs_to_ok sample_stacks 4096 sample_stacks_placed); [exact sample_child_reached|exact sample_booted_ok]. }
  destruct (child_status_reaches_parent sample_stacks 4096 sample_child (CExit 7) (sample_call sample_child (CExit 7)) 1
    (default (Thread_new 0 "" 0 (KernelStart 0) ThreadContext_zeroed 0) (thread_at (sched sample_child) 1)) 2
    sample_stacks_placed Hm ltac:(vm_compute; reflexivity) ltac:(vm_compute; reflexivity)
    ltac:(split; vm_compute; reflexivity) ltac:(vm_compute; reflexivity))
    as [H|(status & e & te & m'' & Hk & _ & _ & _ & _ & _ & _ & Hres)].
  - assert (option_map t_state (thread_at (sched (sample_call sample_child (CExit 7))) 1) = Some Running) as Hr
      by (vm_compute; reflexivity).
    rewrite H in Hr. vm_compute in Hr. discriminate Hr.
  - injection Hk as <-. eexists _, m''. split; [vm_compute; reflexivity|]. split; [split; reflexivity|exact Hres].
Defined.

(** C21. A thread that gives up the processor, by yielding or by waiting for a
    child, gets its registers back: whatever the other threads do meanwhile,
    when it runs again the registers are those it had. *)
Theorem registers_survive stack_end trampoline m k c m1 m2 :
  stacks_placed stack_end → machine_ok m → admissible (sched m) k = true → is_exit k = false →
  current_thread (sched m) = Some c → run_call stack_end trampoline m k = Ok (Some m1) →
  current_thread (sched m1) ≠ Some c →
  rtc (away stack_end trampoline c) m1 m2 → current_thread (sched m2) = Some c →
  cpu m2 = cpu m.
Proof.
  intros Hst Hm Hadm Hk Hcur Hrun Hc1 Haway Hc2.
  destruct (call_step stack_end trampoline Hst m k Hm Hadm) as [(m' & Hm' & Hs)|[? _]]; [|congruence].
  assert (m' = m1) as -> by congruence.
  destruct (machine_ok_current _ Hm) as (c' & t0 & ? & Ht0 & _). assert (c' = c) as -> by congruence.
  destruct (st_alive _ _ _ Hs Hk c) as [t Ht]; [by eexists|].
  eapply away_keeps; [done|done|apply Hs|done| |done].
  exists t. split; [done|]. by apply (st_save _ _ _ Hs c t).
Qed.

Lemma registers_survive_witness :
  ∃ m1 m2, run_call sample_stacks 4096 (sample_call sample_user (CCompute (mkContext 1 2 3 4 5 6 7))) CYield
      = Ok (Some m1) ∧ current_thread (sched m1) ≠ Some 1 ∧
    rtc (away sample_stacks 4096 1) m1 m2 ∧ current_thread (sched m2) = Some 1 ∧
    cpu m2 = mkContext 1 2 3 4 5 6 7.
Proof.
  set (m := sample_call sample_user (CCompute (mkContext 1 2 3 4 5 6 7))).
  assert (machine_ok m) as Hm by (apply sample_call_ok; [exact sample_user_ok|reflexivity]).
  exists (sample_call m CYield), (sample_call (sample_call m CYield) CYield).
  assert (rtc (away sample_stacks 4096 1) (sample_call m CYield) (sample_call (sample_call m CYield) CYield))
    as Hrtc.
  { apply rtc_once. split; [vm_compute; discriminate|]. exists CYield. split; [reflexivity|].
    vm_compute. reflexivity. }
  split_and!; [vm_compute; reflexivity|vm_compute; discriminate|exact Hrtc|vm_compute; reflexivity|].
  rewrite (registers_survive sample_stacks 4096 m CYield 1 (sample_call m CYield)
    (sample_call (sample_call m CYield) CYield) sample_stacks_placed Hm eq_refl eq_refl
    ltac:(vm_compute; reflexivity) ltac:(vm_compute; reflexivity) ltac:(vm_compute; discriminate)
    Hrtc ltac:(vm_compute; reflexivity)).
  reflexivity.
Defined.

(** C22. Every wait can end.  Whatever the programs have done since bring-up,
    when the program of thread [i] waits for a child, then the programs that it
    waits for, directly or through one another, are within reach of the
    scheduler: in each of fewer than [MAX_THREADS] rounds at most [MAX_THREADS]
    yields bring up a program, whose exit brings up the next, and after the
    last of them thread [i] is the running thread, with the registers it had
    when it began to wait, and finds the status of its child. *)
Theorem waiting_ends stack_end trampoline kernel_space program terminal_entry idle_entry registers m0 m i t q status :
  stacks_placed stack_end →
  boot stack_end trampoline kernel_space program terminal_entry idle_entry registers = Ok (Some m0) →
  runs_to stack_end trampoline m0 m → thread_at (sched m) i = Some t → waits_for t q →
  ∃ rounds m' result, 0 < length rounds < MAX_THREADS ∧ Forall (λ k, k ≤ MAX_THREADS) rounds ∧
    unwind stack_end trampoline rounds status m = Ok (Some m') ∧
    current_thread (sched m') = Some i ∧ cpu m' = context t ∧
    wait_for_child_result (E:=()) m' = Ok (Some status, result).
Proof.
  intros Hst Hboot Hruns Ht [Hb _]. rewrite (boot_spec stack_end trampoline Hst) in Hboot. injection Hboot as <-.
  assert (machine_ok m) as Hm by (eapply runs_to_ok; [done|done|by apply booted_ok]). pose proof Hm as [[Hsz Htab] _].
  assert (is_user t = true) as Hu.
  { destruct (is_user t) eqn:Hu; [done|]. by destruct (ok_kernel _ _ _ _ Htab _ _ Ht Hu). }
  destruct (blocked_chain _ _ i Htab Hsz (ex_intro _ _ Ht)) as (j & [n Hn]%rtc_nsteps & Hj); [eauto|].
  pose proof (chain_short _ _ _ _ _ Htab Hsz Hn (ex_intro _ _ Ht)) as Hlt.
  destruct n as [|n].
  { inversion Hn; subst. destruct Hj as (t' & Ht' & _ & Hr). simplify_eq. by rewrite Hb in Hr. }
  destruct (chain_unwinds stack_end trampoline status n m i j t Hst Hm Hn Hj Ht) as (rounds & m' & result & Hl & H).
  exists rounds, m', result. rewrite Hl. split; [lia|exact H].
Qed.

(** A grandchild runs: its exit and that of its parent end the wait of the
    initial process. *)
Lemma waiting_ends_witness :
  ∃ t rounds m', thread_at (sched sample_grandchild) 1 = Some t ∧ waits_for t 2 ∧
    unwind sample_stacks 4096 rounds 7 sample_grandchild = Ok (Some m') ∧ current_thread (sched m') = Some 1.
Proof.
  destruct (waiting_ends sample_stacks 4096 (mkSpace 0x1000) sample_program 1 2 ThreadContext_zeroed sample_booted sample_grandchild 1
    (default (Thread_new 0 "" 0 (KernelStart 0) ThreadContext_zeroed 0) (thread_at (sched sample_grandchild) 1)) 2 7 sample_stacks_placed)
    as (rounds & m' & result & _ & _ & Hun & Hc & _).
  - apply boot_spec, sample_stacks_placed.
  - exact sample_grandchild_reached.
  - vm_compute. reflexivity.
  - split; vm_compute; reflexivity.
  - eexists _, rounds, m'. split; [vm_compute; reflexivity|]. split; [split; reflexivity|]. split; [exact Hun|exact Hc].
Defined.

(** C23. Round robin is fair: a thread that can run, other than the idle
    thread, becomes the running thread after at most [MAX_THREADS] yields,
    each of which succeeds. *)
Theorem round_robin_fair m j :
  machine_ok m → eligible (sched m) j →
  ∃ k m', k ≤ MAX_THREADS ∧ yields k m = Ok m' ∧ current_thread (sched m') = Some j.
Proof.
  intros Hm Hj. destruct (machine_ok_current _ Hm) as (c & _ & Hcur & _).
  destruct (fair_yields MAX_THREADS m c j Hm Hcur Hj) as (k & m' & ? & ? & ? & _); [|eauto 10].
  by apply Nat.mod_upper_bound.
Qed.

Lemma round_robin_fair_witness :
  eligible (sched sample_booted) 1 ∧
  ∃ k m', k ≤ MAX_THREADS ∧ yields k sample_booted = Ok m' ∧ current_thread (sched m') = Some 1.
Proof.
  assert (eligible (sched sample_booted) 1) as Hj by (eexists; split; [reflexivity|split; [discriminate|reflexivity]]).
  split; [exact Hj|]. exact (round_robin_fair sample_booted 1 sample_booted_ok Hj).
Defined.
