(* ===== verification/Paging.v ===== *)
(** * Page tables ([kernel/kernel/src/memory/paging.rs], the indices of [util.rs])

    [AddressSpaceBuilder] over physical memory, the table walk of the
    processor as its specification, and the proof that mapping a page changes
    the translation of that page and of nothing else. *)

From stdpp Require Import gmap.
From S2P Require Import Prelude Bytes Errors Allocator.

Local Open Scope Z_scope.

Definition PAGE_PRESENT : Z := Z.shiftl 1 0.
Definition PAGE_WRITABLE : Z := Z.shiftl 1 1.
Definition PAGE_USER : Z := Z.shiftl 1 2.
Definition PAGE_HUGE : Z := Z.shiftl 1 7.
Definition PAGE_TABLE_FLAGS : Z := Z.lor PAGE_PRESENT PAGE_WRITABLE.
Definition ADDRESS_MASK : Z := 0x000ffffffffff000.
Definition TWO_MIB : Z := 2 * 1024 * 1024.
#[global] Arguments ADDRESS_MASK : simpl never.
#[global] Arguments TWO_MIB : simpl never.

Definition pml4_index (address : Z) : Z := Z.land (Z.shiftr address 39) 0x1ff.
Definition pdpt_index (address : Z) : Z := Z.land (Z.shiftr address 30) 0x1ff.
Definition pd_index (address : Z) : Z := Z.land (Z.shiftr address 21) 0x1ff.
Definition pt_index (address : Z) : Z := Z.land (Z.shiftr address 12) 0x1ff.

(** ** Table entries in memory ([PageTable]) *)

Definition read_entry (m : Memory) (table index : Z) : Z :=
  from_le_bytes (map (λ k, m (table + 8 * index + Z.of_nat k)) (seq 0 8)).
Definition write_entry (m : Memory) (table index entry : Z) : Memory :=
  write_phys m (table + 8 * index) (to_le_bytes 8 entry).
#[global] Arguments read_entry : simpl never.
#[global] Arguments write_entry : simpl never.

(** [(entry & flag) != 0] *)
Definition has (entry flag : Z) : bool := negb (Z.land entry flag =? 0).

(** ** The builder

    What the operations work on: the allocator, physical memory and the list
    of owned pages the builder points to, if it was given one.  Its caller
    pushes to the same list.  An error carries the state it leaves behind. *)

Record Store := mkStore {
  allocator : PhysicalAllocator;
  memory : Memory;
  owned : option OwnedPages
}.

Abbreviation sres := (outcome (MemoryError * Store)).

Definition with_memory (m : Memory) (s : Store) : Store := mkStore (allocator s) m (owned s).

(** [state.allocator.allocate_page()?] *)
Definition take_page (s : Store) : sres (Z * Store) :=
  match allocate_page (allocator s) (memory s) with
  | Ok (page, a, m) => Ok (page, mkStore a m (owned s))
  | Err e => Err (e, s)
  | Panic => Panic
  | Hang => Hang
  end.

(** [owned_pages.push(page)?] *)
Definition own_page (s : Store) (page : Z) : sres Store :=
  match owned s with
  | None => Ok s
  | Some o =>
      o ← map_err (λ e, (e, s)) (owned_push o page);
      Ok (mkStore (allocator s) (memory s) (Some o))
  end.

Definition ensure_table (s : Store) (table index extra_flags : Z) : sres (Z * Store) :=
  let entry := read_entry (memory s) table index in
  if has entry PAGE_PRESENT then
    let s :=
      if negb (Z.land entry extra_flags =? extra_flags)
      then with_memory (write_entry (memory s) table index (Z.lor entry extra_flags)) s
      else s in
    Ok (Z.land entry ADDRESS_MASK, s)
  else
    '(child, s) ← take_page s;
    s ← own_page s child;
    let entry := Z.lor (Z.lor child PAGE_TABLE_FLAGS) extra_flags in
    Ok (child, with_memory (write_entry (memory s) table index entry) s).

Definition ensure_page_directory (root : Z) (s : Store) (virt extra_flags : Z) : sres (Z * Store) :=
  '(pdpt, s) ← ensure_table s root (pml4_index virt) extra_flags;
  ensure_table s pdpt (pdpt_index virt) extra_flags.

Definition ensure_page_table (root : Z) (s : Store) (virt extra_flags : Z) : sres (Z * Store) :=
  '(pd, s) ← ensure_page_directory root s virt extra_flags;
  ensure_table s pd (pd_index virt) extra_flags.

(** [debug_assert!] stops the checked build. *)
Definition map_2m (root : Z) (s : Store) (virt phys flags : Z) : sres Store :=
  if decide (virt mod TWO_MIB ≠ 0 ∨ phys mod TWO_MIB ≠ 0) then Panic
  else
    '(pd, s) ← ensure_page_directory root s virt (Z.land flags PAGE_USER);
    Ok (with_memory
          (write_entry (memory s) pd (pd_index virt) (Z.lor (Z.lor phys flags) PAGE_HUGE)) s).

Definition map_4k (root : Z) (s : Store) (virt phys flags : Z) : sres Store :=
  if decide (virt mod PAGE_SIZE ≠ 0 ∨ phys mod PAGE_SIZE ≠ 0) then Panic
  else
    '(pt, s) ← ensure_page_table root s virt (Z.land flags PAGE_USER);
    Ok (with_memory (write_entry (memory s) pt (pt_index virt) (Z.lor phys flags)) s).

(** The loop of both identity ranges: [step] pages of [step] bytes. *)
Definition map_identity (map_page : Store → Z → sres Store) (step : Z) (s : Store) (start end_ : Z)
    : sres Store :=
  let limit := align_up end_ step in
  while (S (Z.to_nat ((limit - align_down start step) / step))) (λ '(address, s),
    if decide (address < limit) then
      s ← map_page s address;
      address ← expect (checked_add address step);
      Ok (inl (address, s))
    else Ok (inr s)) (align_down start step, s).
#[global] Arguments map_identity : simpl never.

Definition map_identity_2m_range (root : Z) (s : Store) (start end_ flags : Z) : sres Store :=
  map_identity (λ s address, map_2m root s address address flags) TWO_MIB s start end_.
Definition map_identity_4k_range (root : Z) (s : Store) (start end_ flags : Z) : sres Store :=
  map_identity (λ s address, map_4k root s address address flags) PAGE_SIZE s start end_.

(** ** The processor

    Four levels of tables, a present bit in each entry, large pages at the
    second and third level from the bottom (the top level reserves the bit),
    and permissions that every entry on the way must grant. *)

Record translation := mkTranslation { t_phys : Z; t_user : bool; t_writable : bool }.

Definition index_at (level : nat) (va : Z) : Z :=
  match level with
  | 0%nat => pt_index va
  | 1%nat => pd_index va
  | 2%nat => pdpt_index va
  | _ => pml4_index va
  end.

(** How many bytes an entry of a level covers. *)
Definition span (level : nat) : Z := 2 ^ (12 + 9 * Z.of_nat level).
#[global] Arguments span : simpl never.

Definition decode (level : nat) (entry va : Z) : translation :=
  mkTranslation (Z.land entry ADDRESS_MASK / span level * span level + va mod span level)
    (has entry PAGE_USER) (has entry PAGE_WRITABLE).

Fixpoint translate_from (m : Memory) (level : nat) (table va : Z) : option translation :=
  let entry := read_entry m table (index_at level va) in
  if has entry PAGE_PRESENT then
    match level with
    | O => Some (decode 0 entry va)
    | S below =>
        if has entry PAGE_HUGE then
          if decide (level = 3%nat) then None else Some (decode level entry va)
        else
          t ← translate_from m below (Z.land entry ADDRESS_MASK) va;
          Some (mkTranslation (t_phys t) (has entry PAGE_USER && t_user t)
                  (has entry PAGE_WRITABLE && t_writable t))
    end
  else None.

Definition translate (m : Memory) (root va : Z) : option translation := translate_from m 3 root va.

(** Addresses whose upper half is clear. *)
Definition is_low (va : Z) : Prop := 0 ≤ va < 2 ^ 48.

(** * Lemmas *)

(** ** Entries: a page address and flags below it *)

Definition is_frame (b : Z) : Prop := 0 ≤ b < 2 ^ 52 ∧ b mod 4096 = 0.
Definition is_flags (f : Z) : Prop := 0 ≤ f < 4096.

Lemma frame_low b n : is_frame b → n < 12 → Z.testbit b n = false.
Proof.
  intros [_ Hm] Hn. destruct (decide (n < 0)); [by apply Z.testbit_neg_r|].
  apply Z.mod_divide in Hm as [k ->]; [|done].
  change 4096 with (2 ^ 12). apply Z.mul_pow2_bits_low. lia.
Qed.

Lemma frame_high b n : is_frame b → 52 ≤ n → Z.testbit b n = false.
Proof.
  intros [Hb _] Hn. destruct (decide (b = 0)) as [->|]; [apply Z.testbit_0_l|].
  apply Z.bits_above_log2; [lia|]. apply Z.log2_lt_pow2; [lia|].
  assert (2 ^ 52 ≤ 2 ^ n) by (apply Z.pow_le_mono_r; lia). lia.
Qed.

Lemma flags_high f n : is_flags f → 12 ≤ n → Z.testbit f n = false.
Proof.
  intros Hf Hn. unfold is_flags in Hf. destruct (decide (f = 0)) as [->|]; [apply Z.testbit_0_l|].
  apply Z.bits_above_log2; [lia|]. apply Z.log2_lt_pow2; [lia|].
  assert (2 ^ 12 ≤ 2 ^ n) by (apply Z.pow_le_mono_r; lia). change (2 ^ 12) with 4096 in *. lia.
Qed.

Lemma mask_bit n : 0 ≤ n → Z.testbit ADDRESS_MASK n = bool_decide (12 ≤ n < 52).
Proof.
  intros Hn. change ADDRESS_MASK with (Z.shiftl (Z.ones 40) 12). rewrite Z.shiftl_spec by done.
  destruct (decide (n < 12)).
  - rewrite Z.testbit_neg_r by lia. rewrite bool_decide_false; [done|lia].
  - rewrite Z.testbit_ones by lia. case_bool_decide.
    + apply andb_true_iff. split; [apply Z.leb_le|apply Z.ltb_lt]; lia.
    + apply andb_false_iff. right. apply Z.ltb_ge. lia.
Qed.

Lemma entry_address b f : is_frame b → is_flags f → Z.land (Z.lor b f) ADDRESS_MASK = b.
Proof.
  intros Hb Hf. apply Z.bits_inj'. intros n Hn.
  rewrite Z.land_spec, Z.lor_spec, mask_bit by done. case_bool_decide as Hr.
  - rewrite (flags_high f) by (done || lia). by rewrite orb_false_r, andb_true_r.
  - rewrite andb_false_r. symmetry.
    destruct (decide (n < 12)); [by apply frame_low|apply frame_high; [done|lia]].
Qed.

Lemma entry_flags b f m : is_frame b → is_flags m → Z.land (Z.lor b f) m = Z.land f m.
Proof.
  intros Hb Hm. apply Z.bits_inj'. intros n Hn. rewrite !Z.land_spec, Z.lor_spec.
  destruct (decide (n < 12)).
  - by rewrite (frame_low b) by done.
  - rewrite (flags_high m) by (done || lia). by rewrite !andb_false_r.
Qed.

Lemma entry_has b f m : is_frame b → is_flags m → has (Z.lor b f) m = has f m.
Proof. intros. unfold has. by rewrite entry_flags. Qed.

Lemma lor_flags f m : is_flags f → is_flags m → is_flags (Z.lor f m).
Proof.
  unfold is_flags. intros Hf Hm. split; [apply Z.lor_nonneg; lia|].
  destruct (decide (Z.lor f m = 0)) as [->|Hne]; [lia|].
  assert (0 ≤ Z.lor f m) by (apply Z.lor_nonneg; lia).
  change 4096 with (2 ^ 12). apply Z.log2_lt_pow2; [lia|].
  rewrite Z.log2_lor by lia.
  assert (∀ x, 0 ≤ x < 4096 → Z.log2 x < 12) as Hlog.
  { intros x Hx. destruct (decide (x = 0)) as [->|]; [done|]. apply Z.log2_lt_pow2; lia. }
  pose proof (Hlog f Hf). pose proof (Hlog m Hm). lia.
Qed.

Lemma entry_u64 b f : is_frame b → is_flags f → is_u64 (Z.lor b f).
Proof.
  intros Hb Hf. pose proof Hb as [[? ?] _]. unfold is_flags in Hf.
  assert (0 ≤ Z.lor b f) by (apply Z.lor_nonneg; lia).
  split; [done|]. destruct (decide (Z.lor b f = 0)) as [->|]; [done|].
  apply Z.log2_lt_pow2; [lia|]. rewrite Z.log2_lor by lia.
  assert (∀ x, 0 ≤ x < 2 ^ 52 → Z.log2 x < 64) as Hlog.
  { intros x Hx. destruct (decide (x = 0)) as [->|]; [done|]. apply Z.log2_lt_pow2; [lia|].
    assert (2 ^ 52 < 2 ^ 64) by done. lia. }
  assert (4096 < 2 ^ 52) by done.
  pose proof (Hlog b ltac:(lia)). pose proof (Hlog f ltac:(lia)). lia.
Qed.

Lemma page_flag_values :
  PAGE_PRESENT = 1 ∧ PAGE_WRITABLE = 2 ∧ PAGE_USER = 4 ∧ PAGE_HUGE = 128 ∧ PAGE_TABLE_FLAGS = 3.
Proof. done. Qed.

Lemma is_flags_small f : 0 ≤ f < 4096 → is_flags f.
Proof. done. Qed.
#[export] Hint Extern 1 (is_flags _) => (apply is_flags_small; split; by vm_compute) : core.

(** ** Reading and writing entries *)

Lemma index_bound va shift : 0 ≤ Z.land (Z.shiftr va shift) 0x1ff < 512.
Proof. change 0x1ff with (Z.ones 9). rewrite Z.land_ones by lia. apply Z.mod_pos_bound. lia. Qed.

Lemma index_at_bound level va : 0 ≤ index_at level va < 512.
Proof. destruct level as [|[|[|]]]; apply index_bound. Qed.

Lemma read_entry_ext m m' table i :
  0 ≤ i < 512 → (∀ x, table ≤ x < table + PAGE_SIZE → m' x = m x) →
  read_entry m' table i = read_entry m table i.
Proof.
  intros Hi Hm. unfold read_entry. f_equal. apply map_ext_in. intros k Hk. apply in_seq in Hk.
  apply Hm. unfold PAGE_SIZE. lia.
Qed.

Lemma read_write_same m table i e : is_u64 e → read_entry (write_entry m table i e) table i = e.
Proof.
  intros He. unfold read_entry, write_entry, write_phys.
  transitivity (from_le_bytes (to_le_bytes 8 e)); [f_equal|by apply from_to_le_bytes].
  apply list_eq. intros k. rewrite list_lookup_fmap.
  destruct (decide (k < 8)%nat) as [Hk|Hk].
  - rewrite lookup_seq_lt by done. cbn [fmap option_fmap option_map].
    rewrite length_to_le_bytes. rewrite decide_True by lia.
    replace (Z.to_nat _) with k by lia.
    destruct (lookup_lt_is_Some_2 (to_le_bytes 8 e) k) as [b ->];
      [by rewrite length_to_le_bytes|done].
  - rewrite lookup_seq_ge by lia. symmetry. apply lookup_ge_None. rewrite length_to_le_bytes. lia.
Qed.

Lemma write_entry_outside m table i e x :
  0 ≤ i < 512 → ¬ (table ≤ x < table + PAGE_SIZE) → write_entry m table i e x = m x.
Proof.
  intros Hi Hx. unfold write_entry, write_phys. rewrite length_to_le_bytes, decide_False; [done|].
  unfold PAGE_SIZE in Hx. lia.
Qed.

Lemma read_write_other m table i e table' i' :
  0 ≤ i < 512 → 0 ≤ i' < 512 → table mod 4096 = 0 → table' mod 4096 = 0 →
  (table', i') ≠ (table, i) →
  read_entry (write_entry m table i e) table' i' = read_entry m table' i'.
Proof.
  intros Hi Hi' Ht Ht' Hne. unfold read_entry. f_equal. apply map_ext_in. intros k Hk.
  apply in_seq in Hk. unfold write_entry, write_phys. rewrite length_to_le_bytes, decide_False; [done|].
  destruct (decide (table' = table)) as [->|Hd]; [assert (i' ≠ i) by congruence; lia|].
  Z.div_mod_to_equations. lia.
Qed.

Lemma read_entry_zero m page i :
  0 ≤ i < 512 → read_entry (write_zeros m page PAGE_SIZE) page i = 0.
Proof.
  intros Hi. unfold read_entry.
  rewrite (map_ext_in _ (λ _, 0)); [done|]. intros k Hk. apply in_seq in Hk.
  unfold write_zeros. rewrite decide_True; [done|]. unfold PAGE_SIZE. lia.
Qed.

(** ** Acquiring a page *)

Definition in_page (page x : Z) : Prop := page ≤ x < page + PAGE_SIZE.
Definition in_pages (l : list Z) (x : Z) : Prop := ∃ page, page ∈ l ∧ in_page page x.

(** The pages recorded as owned. *)
Definition owned_list (s : Store) : list Z :=
  match owned s with None => [] | Some o => take (owned_len o) (pages o) end.
Definition tracks (s : Store) : bool := match owned s with None => false | Some _ => true end.

Definition free_in (s : Store) (x : Z) : Prop := free (allocator s) x.

(** [s'] is [s] less the page [c], which is now zeroed. *)
Record without (c : Z) (s s' : Store) : Prop := {
  wo_frame : is_frame c;
  wo_pos : 0 < c;
  wo_paged : paged (2 ^ 52) (allocator s');
  wo_was : ∀ x, in_page c x → free_in s x;
  wo_free : ∀ x, free_in s' x ↔ free_in s x ∧ ¬ in_page c x;
  wo_memory : memory s' = write_zeros (memory s) c PAGE_SIZE;
  wo_tracks : tracks s' = tracks s
}.

(** The recorded pages fit their array. *)
Definition owned_fits (s : Store) : Prop :=
  match owned s with None => True | Some o => (owned_len o ≤ length (pages o))%nat end.
(** [l] has been recorded. *)
Definition owns (l : list Z) (s s' : Store) : Prop :=
  owned_list s' = owned_list s ++ l ∧ (owned_fits s → owned_fits s').

Lemma owns_same s s' : owned s' = owned s → owns [] s s'.
Proof. intros Ho. unfold owns, owned_list, owned_fits. rewrite Ho, app_nil_r. done. Qed.

(** A page from the allocator, recorded as owned. *)
Definition acquire (s : Store) : sres (Z * Store) :=
  '(c, s) ← take_page s; s ← own_page s c; Ok (c, s).

Lemma take_page_spec s :
  paged (2 ^ 52) (allocator s) →
  match take_page s with
  | Ok (c, s') => without c s s' ∧ owned s' = owned s
  | Err (e, s') => e = AllocatorExhausted ∧ s' = s
  | Panic | Hang => False
  end.
Proof.
  intros Hp. unfold take_page. pose proof (allocate_page_spec _ _ (memory s) Hp) as H.
  destruct (allocate_page (allocator s) (memory s)) as [[[c a'] m']|e| |]; try done.
  destruct H as (Hp' & Hm & Hc & Hl & Hin & Hf & ->).
  split; [|done]. split; try done. split; [unfold PAGE_SIZE in *; lia|done].
Qed.

Lemma acquire_spec s :
  paged (2 ^ 52) (allocator s) →
  match acquire s with
  | Ok (c, s') => without c s s' ∧ owns (if tracks s then [c] else []) s s'
  | Err (e, s') =>
      e = AllocatorExhausted ∧ s' = s ∨
      e = OwnedPageCapacityExceeded ∧ tracks s = true ∧ ∃ c, without c s s' ∧ owns [] s s'
  | Panic | Hang => False
  end.
Proof.
  intros Hp. unfold acquire. pose proof (take_page_spec s Hp) as H.
  destruct (take_page s) as [[c s1]|[e s1]| |]; cbn [mbind outcome_bind]; [|by left|done..].
  destruct H as [Hw Ho]. unfold own_page. destruct s1 as [a m o]. cbn [owned] in *. subst o.
  unfold owns, owned_list, owned_fits, tracks. destruct (owned s) as [o|] eqn:Hso.
  - unfold owned_push. case_decide as Hfull; cbn [map_err mbind outcome_bind owned].
    + right. split; [done|]. split; [done|]. exists c. by rewrite ?Hso, app_nil_r.
    + rewrite set_at_Ok by lia. cbn [map_err mbind outcome_bind owned]. split.
      * destruct Hw as [? ? ? ? Hf ? Ht]. by split.
      * cbn. rewrite Nat.add_1_r, length_insert. split; [apply take_insert_S; lia|lia].
  - split; [done|]. cbn. by rewrite ?Hso.
Qed.

Lemma acquire_bind {B} s (k : Z → Store → sres B) :
  ('(c, s1) ← take_page s; s2 ← own_page s1 c; k c s2) = ('(c, s') ← acquire s; k c s').
Proof.
  unfold acquire. destruct (take_page s) as [[c s1]| | |]; cbn [mbind outcome_bind]; try done.
  by destruct (own_page s1 c).
Qed.

(** ** The tables of an address space

    [T] maps the indices that lead to a table to its address; the root has
    the empty path, a page table one of length three. *)

Abbreviation Tables := (gmap (list Z) Z).

Definition is_leaf (depth : nat) (e : Z) : Prop :=
  ∃ b f, e = Z.lor b f ∧ is_frame b ∧ is_flags f ∧ has f PAGE_PRESENT = true ∧
    (depth = 3%nat ∨ depth = 2%nat ∧ has f PAGE_HUGE = true).

Definition entry_ok (T : Tables) (p : list Z) (i e : Z) : Prop :=
  match T !! (p ++ [i]) with
  | Some c => e = Z.lor c 3 ∨ e = Z.lor c 7
  | None => e = 0 ∨ is_leaf (length p) e
  end.

Record tables_ok (T : Tables) (root : Z) (s : Store) : Prop := {
  tb_root : T !! [] = Some root;
  tb_frame : ∀ p t, T !! p = Some t → is_frame t ∧ (length p ≤ 3)%nat;
  tb_inj : ∀ p q t, T !! p = Some t → T !! q = Some t → p = q;
  tb_parent : ∀ p i c, T !! (p ++ [i]) = Some c → is_Some (T !! p) ∧ 0 ≤ i < 512;
  tb_entry : ∀ p t i, T !! p = Some t → 0 ≤ i < 512 → entry_ok T p i (read_entry (memory s) t i);
  tb_user : ∀ p i c t j, T !! (p ++ [i]) = Some c → T !! p = Some t → 0 ≤ j < 512 →
    has (read_entry (memory s) c j) PAGE_USER = true →
    has (read_entry (memory s) t i) PAGE_USER = true;
  tb_alloc : paged (2 ^ 52) (allocator s);
  tb_taken : ∀ p t x, T !! p = Some t → in_page t x → ¬ free_in s x
}.

Definition in_tables (T : Tables) (x : Z) : Prop := ∃ p t, T !! p = Some t ∧ in_page t x.

(** ** Walking the tables *)

Definition path (va : Z) : list Z := [pml4_index va; pdpt_index va; pd_index va; pt_index va].
Definition on_path (p : list Z) (va : Z) : Prop := p = take (length p) (path va).

#[export] Instance on_path_decision p va : Decision (on_path p va).
Proof. unfold on_path. apply _. Defined.

(** The walk without permissions: the level it ends at and the entry there. *)
Fixpoint leaf_from (m : Memory) (level : nat) (table va : Z) : option (nat * Z) :=
  let entry := read_entry m table (index_at level va) in
  if has entry PAGE_PRESENT then
    match level with
    | O => Some (0%nat, entry)
    | S below =>
        if has entry PAGE_HUGE then Some (level, entry)
        else leaf_from m below (Z.land entry ADDRESS_MASK) va
    end
  else None.

Definition leaf (m : Memory) (root va : Z) : option (nat * Z) := leaf_from m 3 root va.

Lemma on_path_nil va : on_path [] va.
Proof. done. Qed.

Lemma on_path_next p va level :
  on_path p va → (length p + level = 3)%nat → on_path (p ++ [index_at level va]) va.
Proof.
  unfold on_path. intros Hp Hl. rewrite length_app. cbn [length].
  rewrite Nat.add_1_r. rewrite Hp at 1.
  destruct (length p) as [|[|[|[|]]]], level as [|[|[|[|]]]]; cbn in *; (done || lia).
Qed.

Lemma on_path_snoc p i va :
  on_path (p ++ [i]) va → on_path p va ∧ (length p ≤ 3)%nat ∧ i = index_at (3 - length p) va.
Proof.
  unfold on_path. rewrite length_app. cbn [length]. intros Hp.
  assert (length p ≤ 3)%nat as Hle.
  { apply (f_equal length) in Hp. rewrite length_app, length_take in Hp. cbn in Hp. lia. }
  assert (p = take (length p) (path va)) as Hq.
  { apply (f_equal (take (length p))) in Hp. rewrite take_app_length, take_take in Hp.
    by rewrite Nat.min_l in Hp by lia. }
  split_and!; [done|done|].
  apply (f_equal (λ l, l !! length p)) in Hp.
  rewrite lookup_app_r, Nat.sub_diag in Hp by lia.
  rewrite lookup_take_lt in Hp by lia.
  destruct (length p) as [|[|[|[|]]]]; cbn in *; (congruence || lia).
Qed.

Lemma is_leaf_flags depth e :
  is_leaf depth e →
  has e PAGE_PRESENT = true ∧ (depth = 3%nat ∨ depth = 2%nat ∧ has e PAGE_HUGE = true).
Proof. intros (b & f & -> & Hb & Hf & Hp & Hd). rewrite !entry_has by auto. done. Qed.

Section Walk.
Context {T : Tables} {root : Z} {s : Store} (Hok : tables_ok T root s).

Lemma table_entry p i c t :
  T !! (p ++ [i]) = Some c → T !! p = Some t →
  let e := read_entry (memory s) t i in
  (e = Z.lor c 3 ∨ e = Z.lor c 7) ∧ has e PAGE_PRESENT = true ∧ has e PAGE_HUGE = false ∧
  has e PAGE_WRITABLE = true ∧ Z.land e ADDRESS_MASK = c.
Proof.
  intros Hc Ht e. destruct (tb_parent _ _ _ Hok _ _ _ Hc) as [_ Hi].
  pose proof (tb_entry _ _ _ Hok _ _ _ Ht Hi) as He. unfold entry_ok in He. rewrite Hc in He.
  destruct (tb_frame _ _ _ Hok _ _ Hc) as [Hf _]. fold e in He. split; [done|].
  destruct He as [-> | ->]; rewrite !entry_has by auto; rewrite entry_address by auto; done.
Qed.

Lemma leaf_child p t va level c :
  T !! p = Some t → T !! (p ++ [index_at (S level) va]) = Some c →
  leaf_from (memory s) (S level) t va = leaf_from (memory s) level c va.
Proof.
  intros Ht Hc. destruct (table_entry _ _ _ _ Hc Ht) as (_ & H1 & H2 & _ & H3).
  cbn [leaf_from]. by rewrite H1, H2, H3.
Qed.

Lemma leaf_end p t va level :
  T !! p = Some t → (length p + level = 3)%nat → T !! (p ++ [index_at level va]) = None →
  let e := read_entry (memory s) t (index_at level va) in
  e = 0 ∧ leaf_from (memory s) level t va = None ∨
  is_leaf (length p) e ∧ leaf_from (memory s) level t va = Some (level, e).
Proof.
  intros Ht Hl Hc e. pose proof (tb_entry _ _ _ Hok _ _ _ Ht (index_at_bound level va)) as He.
  unfold entry_ok in He. rewrite Hc in He. fold e in He.
  destruct He as [He|He]; [left|right]; (split; [done|]).
  - destruct level; cbn [leaf_from]; fold e; by rewrite He.
  - destruct (is_leaf_flags _ _ He) as [H1 Hd].
    destruct level as [|level]; cbn [leaf_from]; fold e; rewrite H1; [done|].
    destruct Hd as [?|[_ ->]]; [lia|done].
Qed.

(** The walk depends only on the entries it reads. *)
Lemma leaf_agree m' va level p t :
  (∀ q tq i, (length p ≤ length q)%nat → T !! q = Some tq → on_path (q ++ [i]) va → 0 ≤ i < 512 →
     read_entry m' tq i = read_entry (memory s) tq i) →
  T !! p = Some t → on_path p va → (length p + level = 3)%nat →
  leaf_from m' level t va = leaf_from (memory s) level t va.
Proof.
  revert p t. induction level as [|level IH]; intros p t Hm Ht Hp Hl;
    pose proof (on_path_next p va _ Hp Hl) as Hp';
    pose proof (Hm _ _ _ (le_n _) Ht Hp' (index_at_bound _ va)) as He.
  - cbn [leaf_from]. by rewrite He.
  - destruct (T !! (p ++ [index_at (S level) va])) as [c|] eqn:Hc.
    + rewrite (leaf_child _ _ _ _ _ Ht Hc).
      destruct (table_entry _ _ _ _ Hc Ht) as (_ & H1 & H2 & _ & H3).
      cbn [leaf_from]. rewrite He, H1, H2, H3. apply (IH (p ++ [index_at (S level) va]));
        [|done|done|rewrite length_app; cbn; lia].
      intros q tq i Hq. apply Hm. rewrite length_app in Hq. lia.
    + destruct (leaf_end _ _ _ _ Ht Hl Hc) as [[H0 ->]|[Hle ->]]; cbn [leaf_from]; rewrite He.
      * by rewrite H0.
      * destruct (is_leaf_flags _ _ Hle) as [-> [?|[_ ->]]]; [lia|done].
Qed.

Lemma leaf_descend p t va :
  T !! p = Some t → on_path p va →
  leaf (memory s) root va = leaf_from (memory s) (3 - length p) t va.
Proof.
  revert t. induction p as [|i p IH] using rev_ind; intros t Ht Hp.
  - rewrite (tb_root _ _ _ Hok) in Ht. by injection Ht as <-.
  - apply on_path_snoc in Hp as (Hp & _ & ->).
    destruct (tb_parent _ _ _ Hok _ _ _ Ht) as [[tp Htp] _].
    destruct (tb_frame _ _ _ Hok _ _ Ht) as [_ Hlen]. rewrite length_app in *. cbn in *.
    rewrite (IH _ Htp Hp). replace (3 - length p)%nat with (S (3 - (length p + 1)))%nat in * by lia.
    by apply leaf_child with (p := p).
Qed.

Lemma translate_leaf_from p t va level :
  T !! p = Some t → on_path p va → (length p + level = 3)%nat →
  translate_from (memory s) level t va =
    (λ '(l, e), decode l e va) <$> leaf_from (memory s) level t va ∧
  ∀ l e, leaf_from (memory s) level t va = Some (l, e) → has e PAGE_USER = true →
    has (read_entry (memory s) t (index_at level va)) PAGE_USER = true.
Proof.
  revert p t. induction level as [|level IH]; intros p t Ht Hp Hl.
  - cbn [translate_from leaf_from].
    destruct (has (read_entry (memory s) t (index_at 0 va)) PAGE_PRESENT); [|done].
    split; [done|]. by intros l e [= <- <-].
  - destruct (T !! (p ++ [index_at (S level) va])) as [c|] eqn:Hc.
    + destruct (table_entry _ _ _ _ Hc Ht) as (_ & H1 & H2 & H3 & H4).
      pose proof (on_path_next p va _ Hp Hl) as Hp'.
      destruct (IH _ _ Hc Hp') as [Htr Hu]; [rewrite length_app; cbn; lia|].
      rewrite (leaf_child _ _ _ _ _ Ht Hc).
      assert (∀ l e, leaf_from (memory s) level c va = Some (l, e) → has e PAGE_USER = true →
        has (read_entry (memory s) t (index_at (S level) va)) PAGE_USER = true) as Hu'.
      { intros l e Hle He. eapply (tb_user _ _ _ Hok); [done..|apply index_at_bound|by eapply Hu]. }
      split; [|done]. cbn [translate_from]. rewrite H1, H2, H3, H4, Htr.
      destruct (leaf_from (memory s) level c va) as [[l e]|] eqn:Hle; [|done].
      cbn [fmap option_fmap option_map mbind option_bind]. f_equal.
      unfold decode. cbn [t_phys t_user t_writable andb]. f_equal.
      destruct (has e PAGE_USER) eqn:He; [|by rewrite andb_false_r].
      by rewrite (Hu' l e eq_refl He).
    + destruct (leaf_end _ _ _ _ Ht Hl Hc) as [[H0 Hlf]|[Hle Hlf]]; rewrite Hlf.
      * split; [|done]. cbn [translate_from]. by rewrite H0.
      * split; [|by intros l e [= <- <-]].
        destruct (is_leaf_flags _ _ Hle) as [Hpr [?|[Hd Hh]]]; [lia|].
        assert (level = 0)%nat as -> by lia.
        cbn [translate_from fmap option_fmap option_map]. rewrite Hpr, Hh.
        by rewrite decide_False by done.
Qed.

Lemma translate_leaf va :
  translate (memory s) root va = (λ '(l, e), decode l e va) <$> leaf (memory s) root va.
Proof.
  eapply (translate_leaf_from [] root); [apply (tb_root _ _ _ Hok)|done|done].
Qed.
End Walk.

(** ** Accounting

    What the allocator and the owner hold together; [lost] pages belong to
    neither any more. *)

Definition total (s : Store) (x : Z) : Prop := free_in s x ∨ in_pages (owned_list s) x.
Record owned_ok (s : Store) : Prop := {
  own_fits : owned_fits s;
  own_frames : Forall (λ p, is_frame p ∧ 0 < p) (owned_list s);
  own_taken : ∀ x, in_pages (owned_list s) x → ¬ free_in s x
}.

Definition accounts (lost : list Z) (s s' : Store) : Prop :=
  tracks s' = tracks s ∧
  (tracks s = true → owned_ok s →
   owned_ok s' ∧ ∀ x, total s' x ↔ total s x ∧ ¬ in_pages lost x).

Lemma in_pages_nil x : ¬ in_pages [] x.
Proof. intros (p & Hp & _). by apply not_elem_of_nil in Hp. Qed.

Lemma in_pages_app l k x : in_pages (l ++ k) x ↔ in_pages l x ∨ in_pages k x.
Proof. unfold in_pages. setoid_rewrite elem_of_app. naive_solver. Qed.

Lemma in_pages_one p x : in_pages [p] x ↔ in_page p x.
Proof. unfold in_pages. setoid_rewrite list_elem_of_singleton. naive_solver. Qed.

Lemma accounts_refl s : accounts [] s s.
Proof. split; [done|]. intros _ H. split; [done|]. intros x. pose proof (in_pages_nil x). tauto. Qed.

Lemma accounts_trans l1 l2 s1 s2 s3 :
  accounts l1 s1 s2 → accounts l2 s2 s3 → accounts (l1 ++ l2) s1 s3.
Proof.
  intros [Ht1 H1] [Ht2 H2]. split; [congruence|]. intros Ht Ho.
  destruct (H1 Ht Ho) as [Ho2 Hx2]. destruct (H2 ltac:(congruence) Ho2) as [Ho3 Hx3].
  split; [done|]. intros x. rewrite Hx3, Hx2, in_pages_app. tauto.
Qed.

Lemma accounts_memory m s : accounts [] s (with_memory m s).
Proof.
  destruct (accounts_refl s) as [_ H]. split; [done|]. intros Ht Hok. destruct (H Ht Hok) as [[? ? ?] ?].
  by split.
Qed.

(** Taking a page and recording it loses nothing; not recording it loses it. *)
Lemma accounts_acquired c s s' :
  without c s s' → owns (if tracks s then [c] else []) s s' → accounts [] s s'.
Proof.
  intros Hw [Ho Hfit]. split; [apply Hw|]. intros Ht [Hfs Hf Hn]. rewrite Ht in Ho. unfold total. split.
  - split; [by apply Hfit| |]; rewrite Ho.
    + apply Forall_app. split; [done|]. constructor; [|done]. split; apply Hw.
    + intros x. rewrite in_pages_app, in_pages_one, (wo_free _ _ _ Hw). specialize (Hn x). tauto.
  - intros x. rewrite Ho, (wo_free _ _ _ Hw), in_pages_app, in_pages_one.
    pose proof (wo_was _ _ _ Hw x). pose proof (in_pages_nil x).
    destruct (decide (c ≤ x < c + PAGE_SIZE)); unfold in_page in *; tauto.
Qed.

Lemma accounts_leaked c s s' :
  without c s s' → owns [] s s' → accounts [c] s s'.
Proof.
  intros Hw [Ho Hfit]. rewrite app_nil_r in Ho. split; [apply Hw|]. intros _ [Hfs Hf Hn]. unfold total. split.
  - split; [by apply Hfit| |]; rewrite Ho; [done|]. intros x. rewrite (wo_free _ _ _ Hw). specialize (Hn x). tauto.
  - intros x. rewrite Ho, (wo_free _ _ _ Hw), in_pages_one. pose proof (wo_was _ _ _ Hw x).
    specialize (Hn x). tauto.
Qed.

Lemma frames_disjoint t c x : is_frame t → is_frame c → t ≠ c → in_page t x → ¬ in_page c x.
Proof.
  intros [_ Ht] [_ Hc] Hne. unfold in_page, PAGE_SIZE. Z.div_mod_to_equations. lia.
Qed.

(** ** Writing an entry of a table *)

(** The table at [p], if it is not the root, is reached through an entry with
    the user bit. *)
Definition user_path (T : Tables) (s : Store) (p : list Z) : Prop :=
  ∀ q j t, p = q ++ [j] → T !! q = Some t → has (read_entry (memory s) t j) PAGE_USER = true.

Section Update.
Context {T : Tables} {root : Z} {s : Store} (Hok : tables_ok T root s).

Lemma table_mod p t : T !! p = Some t → t mod 4096 = 0.
Proof. intros Ht. by destruct (tb_frame _ _ _ Hok _ _ Ht) as [[_ ?] _]. Qed.

Lemma read_set p t i e q tq j :
  T !! p = Some t → 0 ≤ i < 512 → is_u64 e → T !! q = Some tq → 0 ≤ j < 512 →
  read_entry (write_entry (memory s) t i e) tq j =
    if decide (q = p ∧ j = i) then e else read_entry (memory s) tq j.
Proof.
  intros Ht Hi He Hq Hj. case_decide as Hd.
  - destruct Hd as [-> ->]. assert (tq = t) as -> by congruence. by apply read_write_same.
  - apply read_write_other; try done; [by eapply table_mod..|].
    intros [= -> ->]. apply Hd. split; [|done]. by eapply (tb_inj _ _ _ Hok).
Qed.

Lemma leaf_set_off p t i e va :
  T !! p = Some t → 0 ≤ i < 512 → is_u64 e → ¬ on_path (p ++ [i]) va →
  leaf (write_entry (memory s) t i e) root va = leaf (memory s) root va.
Proof.
  intros Ht Hi He Hoff. eapply (leaf_agree Hok) with (p := []); [|apply Hok|done|done].
  intros q tq j _ Hq Hon Hj. rewrite (read_set p t i e q tq j) by done.
  rewrite decide_False; [done|]. by intros [-> ->].
Qed.

(** An entry of the right shape for its place keeps the tables. *)
Lemma set_entry_ok p t i e :
  T !! p = Some t → 0 ≤ i < 512 → is_u64 e → entry_ok T p i e →
  (has e PAGE_USER = true → user_path T s p) →
  (∀ c j, T !! (p ++ [i]) = Some c → 0 ≤ j < 512 →
     has (read_entry (memory s) c j) PAGE_USER = true → has e PAGE_USER = true) →
  tables_ok T root (with_memory (write_entry (memory s) t i e) s).
Proof.
  intros Ht Hi He Heo Hup Hdown. pose proof Hok as [].
  split; try done.
  - intros q tq j Hq Hj. cbn. rewrite (read_set p t i e q tq j) by done.
    case_decide as Hd; [by destruct Hd as [-> ->]|eauto].
  - intros q j c tq k Hc Hq Hk. cbn.
    rewrite (read_set p t i e _ c k), (read_set p t i e q tq j)
      by (try done; by eapply (tb_parent _ _ _ Hok)).
    repeat case_decide; naive_solver.
Qed.

End Update.

Lemma child_ne (q : list Z) j : q ++ [j] ≠ q.
Proof. intros Hx. apply (f_equal length) in Hx. rewrite length_app in Hx. cbn in Hx. lia. Qed.

(** ** A new table

    A zeroed page [c] becomes the table below the absent entry [i] of the
    table at [p]. *)

Section AddTable.
Context {T : Tables} {root : Z} {s : Store} (Hok : tables_ok T root s).
Context {p : list Z} {t i c : Z} {s1 : Store} {f : Z}.
Context (Ht : T !! p = Some t) (Hlen : (length p ≤ 2)%nat) (Hi : 0 ≤ i < 512)
  (Hnone : T !! (p ++ [i]) = None) (H0 : read_entry (memory s) t i = 0)
  (Hw : without c s s1) (Hf : f = 3 ∨ f = 7) (Hup : f = 7 → user_path T s p).

#[local] Abbreviation T' := (<[p ++ [i] := c]> T).
#[local] Abbreviation s2 := (with_memory (write_entry (memory s1) t i (Z.lor c f)) s1).

Lemma new_distinct q tq : T !! q = Some tq → is_frame tq ∧ tq ≠ c.
Proof.
  intros Hq. split; [by eapply (tb_frame _ _ _ Hok)|]. intros ->.
  apply (tb_taken _ _ _ Hok _ _ c Hq); [|apply Hw]; unfold in_page, PAGE_SIZE; lia.
Qed.

Lemma read_old q tq j :
  T !! q = Some tq → 0 ≤ j < 512 →
  read_entry (memory s2) tq j =
    if decide (q = p ∧ j = i) then Z.lor c f else read_entry (memory s) tq j.
Proof.
  intros Hq Hj. destruct (new_distinct _ _ Hq) as [Hqf Hqc]. cbn. case_decide as Hd.
  - destruct Hd as [-> ->]. assert (tq = t) as -> by congruence.
    apply read_write_same, entry_u64; [apply Hw|]. destruct Hf as [-> | ->]; auto.
  - rewrite read_write_other; try done; [|by eapply (table_mod Hok)..|].
    + rewrite (wo_memory _ _ _ Hw). apply read_entry_ext; [done|]. intros x Hx. unfold write_zeros.
      rewrite decide_False; [done|]. apply (frames_disjoint tq c x); [done|apply Hw|done|done].
    + intros [= -> ->]. apply Hd. split; [|done]. by eapply (tb_inj _ _ _ Hok).
Qed.

Lemma read_new j : 0 ≤ j < 512 → read_entry (memory s2) c j = 0.
Proof.
  intros Hj. cbn. destruct (new_distinct _ _ Ht) as [_ Htc].
  rewrite read_write_other; try done; [|by eapply (table_mod Hok)|apply Hw|congruence].
  rewrite (wo_memory _ _ _ Hw). by apply read_entry_zero.
Qed.

Lemma below_new j : T !! ((p ++ [i]) ++ [j]) = None.
Proof.
  destruct (T !! ((p ++ [i]) ++ [j])) eqn:Hj; [|done].
  destruct (tb_parent _ _ _ Hok _ _ _ Hj) as [[? ?] _]. congruence.
Qed.

Lemma new_case q tq :
  T' !! q = Some tq → q = p ++ [i] ∧ tq = c ∨ q ≠ p ++ [i] ∧ T !! q = Some tq.
Proof. intros [[<- <-]|[? ?]]%lookup_insert_Some; [by left|right; by split]. Qed.

Lemma new_entry q tq j :
  T' !! q = Some tq → 0 ≤ j < 512 → entry_ok T' q j (read_entry (memory s2) tq j).
Proof.
  intros [[-> ->]|[Hq' Hq]]%new_case Hj; unfold entry_ok.
  - rewrite lookup_insert_ne by (intros Hx; by apply (child_ne (p ++ [i]) j)).
    rewrite below_new, read_new by done. by left.
  - rewrite (read_old q tq j) by done. case_decide as Hd.
    + destruct Hd as [-> ->]. rewrite lookup_insert_eq. by destruct Hf as [-> | ->]; [left|right].
    + rewrite lookup_insert_ne by (intros [-> ->]%app_inj_tail; by apply Hd).
      by apply (tb_entry _ _ _ Hok).
Qed.

Lemma new_user q j cq tq k :
  T' !! (q ++ [j]) = Some cq → T' !! q = Some tq → 0 ≤ k < 512 →
  has (read_entry (memory s2) cq k) PAGE_USER = true →
  has (read_entry (memory s2) tq j) PAGE_USER = true.
Proof.
  intros [[Hq ->]|[Hq' Hq]]%new_case Htq Hk; [by rewrite read_new|].
  destruct (tb_parent _ _ _ Hok _ _ _ Hq) as [_ Hj].
  apply new_case in Htq as [[-> ->]|[_ Htq]]; [by rewrite below_new in Hq|].
  rewrite (read_old _ cq k), (read_old q tq j) by done.
  rewrite (decide_False (P:=q = p ∧ j = i)) by naive_solver.
  case_decide as Hd; [|by eapply (tb_user _ _ _ Hok)].
  destruct Hd as [Hd ->]. intros Hu. rewrite entry_has in Hu;
    [|apply Hw|auto].
  destruct Hf as [-> | ->]; [done|]. by eapply (Hup eq_refl).
Qed.

Lemma add_table_ok : tables_ok T' root s2.
Proof.
  split.
  - rewrite lookup_insert_ne; [apply Hok|]. by destruct p.
  - intros q tq [[-> ->]|[_ Hq]]%new_case; [|by eapply (tb_frame _ _ _ Hok)].
    split; [apply Hw|]. rewrite length_app. cbn. lia.
  - intros q1 q2 tq [[-> ->]|[_ H1]]%new_case [[-> H2]|[_ H2]]%new_case; try done.
    + by destruct (new_distinct _ _ H2).
    + subst. by destruct (new_distinct _ _ H1).
    + by eapply (tb_inj _ _ _ Hok).
  - intros q j cq [[Hq ->]|[_ Hq]]%new_case.
    + apply app_inj_tail in Hq as [-> ->]. rewrite lookup_insert_ne by apply child_ne.
      split; [by eexists|done].
    + destruct (tb_parent _ _ _ Hok _ _ _ Hq) as [[tq Htq] Hj]. split; [|done].
      exists tq. rewrite lookup_insert_ne; [done|]. intros <-. congruence.
  - apply new_entry.
  - apply new_user.
  - apply Hw.
  - intros q tq x [[-> ->]|[_ Hq]]%new_case Hx Hx';
      change (free_in s1 x) in Hx'; apply (wo_free _ _ _ Hw) in Hx' as [? ?]; [done|].
    by eapply (tb_taken _ _ _ Hok).
Qed.

Lemma add_table_leaf va : leaf (memory s2) root va = leaf (memory s) root va.
Proof.
  destruct (decide (on_path (p ++ [i]) va)) as [Hon|Hoff].
  - rewrite (leaf_descend add_table_ok _ c _ ltac:(apply lookup_insert_eq) Hon).
    apply on_path_snoc in Hon as (Hp & Hl & Hia).
    rewrite (leaf_descend Hok _ _ _ Ht Hp). rewrite length_app. cbn [length].
    set (level := (3 - length p)%nat) in *.
    destruct (leaf_end Hok p t va level Ht) as [[_ ->]|[Hle _]]; [lia|by rewrite <-Hia| |].
    + destruct (leaf_end add_table_ok (p ++ [i]) c va (3 - (length p + 1))) as [[_ ->]|[Hle _]];
        [apply lookup_insert_eq|rewrite length_app; cbn; lia| |done|].
      * rewrite lookup_insert_ne by (intros Hx; by apply (child_ne (p ++ [i]) (index_at (3 - (length p + 1)) va))).
        apply below_new.
      * rewrite read_new in Hle by apply index_at_bound. by destruct (is_leaf_flags _ _ Hle).
    + rewrite <-Hia, H0 in Hle. by destruct (is_leaf_flags _ _ Hle).
  - eapply (leaf_agree Hok) with (p := []); [|apply Hok|done|done].
    intros q tq j _ Hq Hon Hj. rewrite (read_old q tq j) by done.
    rewrite decide_False; [done|]. by intros [-> ->].
Qed.
End AddTable.

(** ** Steps of the builder

    Between its calls the builder only adds tables, made of pages that were
    free, and only writes to tables and to those pages. *)

Record step (T T' : Tables) (root : Z) (s s' : Store) : Prop := {
  st_ok : tables_ok T' root s';
  st_grow : ∀ p t, T !! p = Some t → T' !! p = Some t;
  st_new : ∀ x, in_tables T' x → in_tables T x ∨ free_in s x;
  st_free : ∀ x, free_in s' x → free_in s x;
  st_memory : ∀ x, ¬ in_tables T x → ¬ free_in s x → memory s' x = memory s x
}.

Lemma step_refl T root s : tables_ok T root s → step T T root s s.
Proof. intros. split; try done. by left. Qed.

Lemma step_trans T1 T2 T3 root s1 s2 s3 :
  step T1 T2 root s1 s2 → step T2 T3 root s2 s3 → step T1 T3 root s1 s3.
Proof.
  intros [? Hg1 Hn1 Hf1 Hm1] [? Hg2 Hn2 Hf2 Hm2]. split; try done; [by eauto| |by eauto|].
  - intros x [?|?]%Hn2; [by apply Hn1|right; by apply Hf1].
  - intros x Hx Hfx. rewrite Hm2; [by apply Hm1|by intros [?|?]%Hn1|by intros ?%Hf1].
Qed.

Definition same_leaves (root : Z) (s s' : Store) : Prop :=
  ∀ va, leaf (memory s') root va = leaf (memory s) root va.

(** Writing an entry of a table is a step. *)
Lemma step_set T root s p t i e :
  tables_ok T root s → T !! p = Some t → 0 ≤ i < 512 →
  tables_ok T root (with_memory (write_entry (memory s) t i e) s) →
  step T T root s (with_memory (write_entry (memory s) t i e) s).
Proof.
  intros Hok Ht Hi Hok'. split; try done; [by left|]. intros x Hx _. cbn.
  apply write_entry_outside; [done|]. intros ?. apply Hx. by exists p, t.
Qed.

Definition is_extra (f : Z) : Prop := f = 0 ∨ f = 4.

(** No large page covers the address. *)
Definition not_large (s : Store) (root va : Z) : Prop :=
  ∀ e, leaf (memory s) root va ≠ Some (1%nat, e).

Lemma absent_entry T root s p t va level :
  tables_ok T root s → T !! p = Some t → on_path p va → (length p + level = 3)%nat →
  level = 2%nat ∨ level = 3%nat ∨ level = 1%nat ∧ not_large s root va →
  T !! (p ++ [index_at level va]) = None → read_entry (memory s) t (index_at level va) = 0.
Proof.
  intros Hok Ht Hp Hl Hlevel Hnone.
  destruct (leaf_end Hok _ _ _ _ Ht Hl Hnone) as [[H0 _]|[Hle Hlf]]; [done|exfalso].
  destruct (is_leaf_flags _ _ Hle) as [_ [?|[? _]]]; [lia|].
  destruct Hlevel as [?|[?|[-> Hn]]]; [lia..|].
  eapply Hn. rewrite (leaf_descend Hok _ _ _ Ht Hp).
  replace (3 - length p)%nat with 1%nat by lia. exact Hlf.
Qed.

Lemma table_leaf_flag T root s p i c t f :
  tables_ok T root s → T !! (p ++ [i]) = Some c → T !! p = Some t → is_extra f →
  let e := read_entry (memory s) t i in
  Z.land e f = f ∧ (f = 4 → has e PAGE_USER = true) ∨
  Z.land e f ≠ f ∧ f = 4 ∧ Z.lor e f = Z.lor c 7.
Proof.
  intros Hok Hc Ht Hf e. destruct (table_entry Hok _ _ _ _ Hc Ht) as (He & _). fold e in He.
  destruct (tb_frame _ _ _ Hok _ _ Hc) as [Hfr _].
  destruct Hf as [-> | ->]; [left; split; [apply Z.land_0_r|done]|].
  destruct He as [-> | ->]; [right|left].
  - rewrite entry_flags, <-Z.lor_assoc by auto. done.
  - rewrite entry_flags, entry_has by auto. done.
Qed.

(** The entry of a table takes the user bit. *)
Lemma flag_table T root s p i c t :
  tables_ok T root s → T !! (p ++ [i]) = Some c → T !! p = Some t → user_path T s p →
  let s' := with_memory (write_entry (memory s) t i (Z.lor c 7)) s in
  step T T root s s' ∧ same_leaves root s s' ∧ user_path T s' (p ++ [i]).
Proof.
  intros Hok Hc Ht Hup s'. destruct (tb_parent _ _ _ Hok _ _ _ Hc) as [_ Hi].
  destruct (tb_frame _ _ _ Hok _ _ Hc) as [Hcf _].
  assert (is_u64 (Z.lor c 7)) as H64 by (apply entry_u64; auto).
  assert (has (Z.lor c 7) PAGE_USER = true) as Hu by (rewrite entry_has by auto; done).
  assert (tables_ok T root s') as Hok'.
  { apply (set_entry_ok Hok p); try done. unfold entry_ok. rewrite Hc. by right. }
  split_and!; [by apply step_set with (p := p)| |].
  - intros va. destruct (decide (on_path (p ++ [i]) va)) as [Hon|Hoff].
    + rewrite (leaf_descend Hok' _ _ _ Hc Hon), (leaf_descend Hok _ _ _ Hc Hon).
      destruct (tb_frame _ _ _ Hok _ _ Hc) as [_ Hlen].
      apply (leaf_agree Hok (memory s') va _ (p ++ [i])); [|done|done|lia].
      intros q tq j Hlq Hq _ Hj. cbn. rewrite (read_set Hok p t i _ q tq j) by done.
      rewrite decide_False; [done|]. intros [-> _]. rewrite length_app in Hlq. cbn in Hlq. lia.
    + by apply (leaf_set_off Hok p).
  - intros q j tq [-> ->]%app_inj_tail Hq. assert (tq = t) as -> by congruence.
    unfold s'. cbn. by rewrite read_write_same.
Qed.

(** What does not touch the tables keeps them. *)
Lemma frame_tables_taken T root s s' :
  tables_ok T root s → (∀ x, in_tables T x → memory s' x = memory s x) →
  paged (2 ^ 52) (allocator s') → (∀ x, in_tables T x → ¬ free_in s' x) →
  tables_ok T root s' ∧ same_leaves root s s'.
Proof.
  intros Hok Hm Hp Hf. pose proof Hok as [].
  assert (∀ p t j, T !! p = Some t → 0 ≤ j < 512 →
    read_entry (memory s') t j = read_entry (memory s) t j) as Hr.
  { intros p t j Ht Hj. apply read_entry_ext; [done|]. intros x Hx. apply Hm. by exists p, t. }
  split.
  - split; try done.
    + intros p t j Ht Hj. rewrite (Hr p) by done. eauto.
    + intros p i c t j Hc Ht Hj. destruct (tb_parent0 _ _ _ Hc) as [_ Hi].
      rewrite (Hr (p ++ [i]) c), (Hr p t) by done. eauto.
    + intros p t x Ht Hx. apply Hf. by exists p, t.
  - intros va. eapply (leaf_agree Hok) with (p := []); [|apply Hok|done|done].
    intros q tq j _ Hq _ Hj. by eapply Hr.
Qed.

Lemma frame_tables T root s s' :
  tables_ok T root s → (∀ x, in_tables T x → memory s' x = memory s x) →
  paged (2 ^ 52) (allocator s') → (∀ x, free_in s' x → free_in s x) →
  tables_ok T root s' ∧ same_leaves root s s'.
Proof.
  intros Hok Hm Hp Hf. apply frame_tables_taken; [done..|].
  intros x (p & t & Ht & Hx) ?%Hf. by eapply (tb_taken _ _ _ Hok).
Qed.

Lemma taken_tables T root s x : tables_ok T root s → in_tables T x → ¬ free_in s x.
Proof. intros Hok (p & t & Ht & Hx). by eapply (tb_taken _ _ _ Hok). Qed.

Lemma without_memory c s s' x : without c s s' → ¬ free_in s x → memory s' x = memory s x.
Proof.
  intros Hw Hx. rewrite (wo_memory _ _ _ Hw). unfold write_zeros. rewrite decide_False; [done|].
  intros ?. by apply Hx, (wo_was _ _ _ Hw).
Qed.

(** Taking a page for something else. *)
Lemma step_without T root s c s' :
  tables_ok T root s → without c s s' → step T T root s s' ∧ same_leaves root s s'.
Proof.
  intros Hok Hw. assert (∀ x, free_in s' x → free_in s x) as Hf
    by (intros x Hx; by apply (wo_free _ _ _ Hw) in Hx as [? _]).
  destruct (frame_tables T root s s' Hok) as [Hok' Hl]; [|apply Hw|done|].
  { intros x Hx. eapply without_memory; [done|]. by eapply taken_tables. }
  split; [|done]. split; try done; [by left|]. intros x _ Hx. by eapply without_memory.
Qed.

(** What a call of the builder leaves behind when it fails. *)
Definition failed (T : Tables) (root : Z) (s : Store) (e : MemoryError) (s' : Store) : Prop :=
  ∃ T' lost, step T T' root s s' ∧ same_leaves root s s' ∧ accounts lost s s' ∧
    (e = AllocatorExhausted ∧ lost = [] ∨
     e = OwnedPageCapacityExceeded ∧ tracks s = true ∧ length lost = 1%nat).

(** No new table lies deeper than [n]. *)
Definition deep_same (n : nat) (T T' : Tables) : Prop :=
  ∀ q t, T' !! q = Some t → T !! q = Some t ∨ (length q ≤ n)%nat.

Lemma deep_same_trans n m T1 T2 T3 :
  deep_same n T1 T2 → deep_same m T2 T3 → (n ≤ m)%nat → deep_same m T1 T3.
Proof. intros H1 H2 Hle q t [[?|?]%H1|?]%H2; [by left|right; lia|by right]. Qed.

(** What it leaves behind when it has found or made the table at [p]. *)
Definition reached (T : Tables) (root : Z) (s : Store) (p : list Z) (extra c : Z) (s' : Store)
    : Prop :=
  ∃ T', step T T' root s s' ∧ same_leaves root s s' ∧ accounts [] s s' ∧
    T' !! p = Some c ∧ (extra = 4 → user_path T' s' p) ∧ deep_same (length p) T T'.

(** The entry of a fresh table. *)
Lemma reached_new T root s p t i extra c s1 :
  tables_ok T root s → T !! p = Some t → (length p ≤ 2)%nat → 0 ≤ i < 512 → is_extra extra →
  (extra = 4 → user_path T s p) → T !! (p ++ [i]) = None → read_entry (memory s) t i = 0 →
  without c s s1 → owns (if tracks s then [c] else []) s s1 →
  reached T root s (p ++ [i]) extra c
    (with_memory (write_entry (memory s1) t i (Z.lor (Z.lor c PAGE_TABLE_FLAGS) extra)) s1).
Proof.
  intros Hok Ht Hlen Hi Hex Hup Hc Habs Hw Ho. rewrite <-Z.lor_assoc.
  set (f := Z.lor PAGE_TABLE_FLAGS extra).
  assert ((f = 3 ∨ f = 7) ∧ (f = 7 ↔ extra = 4)) as [Hf Hf7]
    by (unfold f; destruct Hex as [-> | ->]; cbn; naive_solver).
  assert (f = 7 → user_path T s p) as Hup' by (intros ?; apply Hup; by apply Hf7).
  exists (<[p ++ [i] := c]> T). split_and!.
  - split; [by apply (add_table_ok Hok (p := p) (s1 := s1))| | | |].
    + intros q tq Hq. rewrite lookup_insert_ne; [done|]. intros <-. congruence.
    + intros x (q & tq & Hq & Hx). apply new_case in Hq as [[-> ->]|[_ Hq]].
      * right. by apply Hw.
      * left. by exists q, tq.
    + intros x Hx. change (free_in s1 x) in Hx. by apply (wo_free _ _ _ Hw) in Hx as [? _].
    + intros x Hx Hfx. cbn. rewrite write_entry_outside; [by eapply without_memory|done|].
      intros ?. apply Hx. by exists p, t.
  - intros va. by apply (add_table_leaf Hok (p := p) (s1 := s1)).
  - apply (accounts_trans [] [] s s1); [by eapply accounts_acquired|apply accounts_memory].
  - apply lookup_insert_eq.
  - intros H4 q j tq [-> ->]%app_inj_tail Hq. apply new_case in Hq as [[Hq _]|[_ Hq]].
    { symmetry in Hq. by apply child_ne in Hq. }
    assert (tq = t) as -> by congruence. cbn. assert (f = 7) as -> by by apply Hf7.
    rewrite read_write_same by (apply entry_u64; [apply Hw|auto]).
    rewrite entry_has; [done|apply Hw|auto].
  - intros q tq Hq. apply new_case in Hq as [[-> _]|[_ Hq]]; [by right|by left].
Qed.

Lemma ensure_table_spec T root s p t i extra :
  tables_ok T root s → T !! p = Some t → (length p ≤ 2)%nat → 0 ≤ i < 512 → is_extra extra →
  (extra = 4 → user_path T s p) →
  (T !! (p ++ [i]) = None → read_entry (memory s) t i = 0) →
  match ensure_table s t i extra with
  | Ok (c, s') => reached T root s (p ++ [i]) extra c s'
  | Err (e, s') => failed T root s e s'
  | Panic | Hang => False
  end.
Proof.
  intros Hok Ht Hlen Hi Hex Hup Habs. unfold ensure_table.
  destruct (T !! (p ++ [i])) as [c|] eqn:Hc.
  - destruct (table_entry Hok _ _ _ _ Hc Ht) as (_ & -> & _ & _ & ->). exists T.
    destruct (table_leaf_flag _ _ _ _ _ _ _ _ Hok Hc Ht Hex) as [[-> Hu]|(Hne & -> & ->)].
    + rewrite Z.eqb_refl. cbn [negb]. split_and!; [by apply step_refl|done|apply accounts_refl|done| |].
      * intros H4 q j tq [-> ->]%app_inj_tail Hq. assert (tq = t) as -> by congruence. by apply Hu.
      * intros q tq Hq. by left.
    + rewrite (proj2 (Z.eqb_neq _ _) Hne). cbn [negb].
      destruct (flag_table _ _ _ _ _ _ _ Hok Hc Ht (Hup eq_refl)) as (? & ? & ?).
      split_and!; try done; [apply accounts_memory|]. intros q tq Hq. by left.
  - specialize (Habs eq_refl). rewrite Habs. change (has 0 PAGE_PRESENT) with false. cbv iota.
    rewrite acquire_bind. pose proof (acquire_spec s (tb_alloc _ _ _ Hok)) as Ha.
    destruct (acquire s) as [[c s1]|[e s1]| |]; cbn [mbind outcome_bind]; try done.
    + destruct Ha. by apply reached_new.
    + destruct Ha as [[-> ->]|(-> & Htr & c & Hw & Ho)].
      * exists T, []. split_and!; [by apply step_refl|done|apply accounts_refl|by left].
      * destruct (step_without T root s c s1 Hok Hw). exists T, [c].
        split_and!; try done; [by apply accounts_leaked|by right].
Qed.

(** ** Pages and paths *)

Lemma index_mod va k : 0 ≤ k → Z.land (Z.shiftr va k) 0x1ff = (va / 2 ^ k) mod 512.
Proof.
  intros. change 0x1ff with (Z.ones 9). rewrite Z.land_ones, Z.shiftr_div_pow2 by lia. done.
Qed.

(** The indices of an address are the digits of its page number. *)
Lemma path_digits va :
  let q := va / 4096 in
  path va = [q / 512 / 512 / 512 mod 512; q / 512 / 512 mod 512; q / 512 mod 512; q mod 512].
Proof.
  unfold path, pml4_index, pdpt_index, pd_index, pt_index. rewrite !index_mod by lia.
  cbv zeta. rewrite !Z.div_div by lia. done.
Qed.

Lemma path_page va virt :
  is_low va → is_low virt → virt mod PAGE_SIZE = 0 → path va = path virt ↔ page_base va = virt.
Proof.
  intros Hva Hvirt Hm. rewrite !path_digits. unfold page_base, PAGE_SIZE, is_low in *.
  set (q := va / 4096). set (r := virt / 4096).
  assert (virt = r * 4096) as Hr by (unfold r; Z.div_mod_to_equations; lia).
  assert (0 ≤ q < 2 ^ 36 ∧ 0 ≤ r < 2 ^ 36) as [Hq Hr']
    by (unfold q, r; change (2 ^ 36) with 68719476736; change (2 ^ 48) with 281474976710656 in *;
        Z.div_mod_to_equations; lia).
  split.
  - intros [= H3 H2 H1 H0]. rewrite Hr. f_equal.
    assert (∀ a b, a mod 512 = b mod 512 → a / 512 = b / 512 → a = b) as Hdig
      by (intros a b ? ?; Z.div_mod_to_equations; lia).
    assert (∀ a, 0 ≤ a < 2 ^ 36 → a / 512 / 512 / 512 / 512 = 0) as Htop.
    { intros a Ha. rewrite !Z.div_div by lia. apply Z.div_small. exact Ha. }
    do 3 (apply Hdig; [done|]). apply Hdig; [done|]. by rewrite !Htop.
  - intros Heq. assert (q = r) as -> by lia. done.
Qed.

Lemma path_large va virt :
  is_low va → is_low virt → virt mod TWO_MIB = 0 →
  take 3 (path va) = take 3 (path virt) ↔ virt ≤ va < virt + TWO_MIB.
Proof.
  intros Hva Hvirt Hm. rewrite !path_digits. cbn [take]. unfold TWO_MIB, is_low in *.
  change (2 * 1024 * 1024) with 2097152 in *.
  rewrite !(Z.div_div _ 4096 512) by lia. change (4096 * 512) with 2097152.
  set (q := va / 2097152). set (r := virt / 2097152).
  assert (virt = r * 2097152) as Hr by (unfold r; Z.div_mod_to_equations; lia).
  assert (0 ≤ q < 2 ^ 27 ∧ 0 ≤ r < 2 ^ 27) as [Hq Hr']
    by (unfold q, r; change (2 ^ 27) with 134217728; change (2 ^ 48) with 281474976710656 in *;
        Z.div_mod_to_equations; lia).
  assert (virt ≤ va < virt + 2097152 ↔ q = r) as ->
    by (rewrite Hr; unfold q; clearbody r; clear; split; intros; Z.div_mod_to_equations; lia).
  split; [|by intros ->]. intros [= H3 H2 H1].
  assert (∀ a b, a mod 512 = b mod 512 → a / 512 = b / 512 → a = b) as Hdig
    by (intros a b ? ?; Z.div_mod_to_equations; lia).
  assert (∀ a, 0 ≤ a < 2 ^ 27 → a / 512 / 512 / 512 = 0) as Htop.
  { intros a Ha. rewrite !Z.div_div by lia. apply Z.div_small. exact Ha. }
  do 3 (apply Hdig; [done|]). by rewrite !Htop.
Qed.

(** ** Reaching a table *)

Lemma same_leaves_trans root s1 s2 s3 :
  same_leaves root s1 s2 → same_leaves root s2 s3 → same_leaves root s1 s3.
Proof. intros H1 H2 va. by rewrite H2. Qed.

Lemma accounts_tracks l s s' : accounts l s s' → tracks s' = tracks s.
Proof. by intros []. Qed.

Lemma failed_after T T1 root s s1 e s2 :
  step T T1 root s s1 → same_leaves root s s1 → accounts [] s s1 →
  failed T1 root s1 e s2 → failed T root s e s2.
Proof.
  intros Hst Hl Ha (T' & lost & Hst' & Hl' & Ha' & He). exists T', lost.
  split_and!; [by eapply step_trans|by eapply same_leaves_trans|by eapply (accounts_trans [])|].
  by rewrite <-(accounts_tracks _ _ _ Ha).
Qed.

Lemma reached_after n T T1 root s s1 p extra c s2 :
  step T T1 root s s1 → same_leaves root s s1 → accounts [] s s1 → deep_same n T T1 →
  (n ≤ length p)%nat → reached T1 root s1 p extra c s2 → reached T root s p extra c s2.
Proof.
  intros Hst Hl Ha Hd Hn (T' & Hst' & Hl' & Ha' & Hc & Hu & Hd'). exists T'.
  split_and!; [by eapply step_trans|by eapply same_leaves_trans|by eapply (accounts_trans [])|done..|].
  by eapply deep_same_trans.
Qed.

Lemma not_large_same root s s' va : same_leaves root s s' → not_large s root va → not_large s' root va.
Proof. intros Hl Hn e. by rewrite Hl. Qed.

(** One level down the path of an address. *)
Lemma ensure_next T root s p t va level extra :
  tables_ok T root s → T !! p = Some t → on_path p va → (length p + level = 3)%nat →
  level = 2%nat ∨ level = 3%nat ∨ level = 1%nat ∧ not_large s root va →
  is_extra extra → (extra = 4 → user_path T s p) →
  match ensure_table s t (index_at level va) extra with
  | Ok (c, s') => reached T root s (p ++ [index_at level va]) extra c s'
  | Err (e, s') => failed T root s e s'
  | Panic | Hang => False
  end.
Proof.
  intros. apply ensure_table_spec; try done; [lia|apply index_at_bound|].
  by apply (absent_entry T root).
Qed.

Lemma ensure_page_directory_spec T root s va extra :
  tables_ok T root s → is_extra extra →
  match ensure_page_directory root s va extra with
  | Ok (c, s') => reached T root s (take 2 (path va)) extra c s'
  | Err (e, s') => failed T root s e s'
  | Panic | Hang => False
  end.
Proof.
  intros Hok Hex. unfold ensure_page_directory.
  pose proof (ensure_next T root s [] root va 3 extra Hok (tb_root _ _ _ Hok) (on_path_nil va) eq_refl
    ltac:(auto) Hex) as H1. change (index_at 3 va) with (pml4_index va) in H1.
  destruct (ensure_table s root (pml4_index va) extra) as [[c1 s1]|[e s1]| |];
    cbn [mbind outcome_bind]; try (apply H1; intros _ q j t Hq; by destruct q).
  destruct H1 as (T1 & Hst & Hl & Ha & Hc & Hu & Hd); [intros _ q j t Hq; by destruct q|].
  pose proof (ensure_next T1 root s1 [pml4_index va] c1 va 2 extra (st_ok _ _ _ _ _ Hst) Hc
    (on_path_next [] va 3 (on_path_nil va) eq_refl) eq_refl ltac:(auto) Hex Hu) as H2.
  change (index_at 2 va) with (pdpt_index va) in H2.
  destruct (ensure_table s1 c1 (pdpt_index va) extra) as [[c2 s2]|[e s2]| |]; try done.
  - by eapply reached_after; [..|done|cbn; lia|].
  - by eapply failed_after.
Qed.

Lemma ensure_page_table_spec T root s va extra :
  tables_ok T root s → is_extra extra → not_large s root va →
  match ensure_page_table root s va extra with
  | Ok (c, s') => reached T root s (take 3 (path va)) extra c s'
  | Err (e, s') => failed T root s e s'
  | Panic | Hang => False
  end.
Proof.
  intros Hok Hex Hnl. unfold ensure_page_table.
  pose proof (ensure_page_directory_spec T root s va extra Hok Hex) as H1.
  destruct (ensure_page_directory root s va extra) as [[c1 s1]|[e s1]| |];
    cbn [mbind outcome_bind]; try done.
  destruct H1 as (T1 & Hst & Hl & Ha & Hc & Hu & Hd).
  pose proof (ensure_next T1 root s1 (take 2 (path va)) c1 va 1 extra (st_ok _ _ _ _ _ Hst) Hc
    eq_refl eq_refl ltac:(right; right; split; [done|by eapply not_large_same]) Hex Hu) as H2.
  change (index_at 1 va) with (pd_index va) in H2.
  destruct (ensure_table s1 c1 (pd_index va) extra) as [[c2 s2]|[e s2]| |]; try done.
  - by eapply reached_after; [..|done|cbn; lia|].
  - by eapply failed_after.
Qed.

(** ** Mapping *)

Lemma land_user flags :
  let extra := Z.land flags PAGE_USER in
  is_extra extra ∧ (has flags PAGE_USER = true → extra = 4).
Proof.
  assert (Z.land flags PAGE_USER = 0 ∨ Z.land flags PAGE_USER = 4) as H.
  { assert (∀ n, 0 ≤ n → Z.testbit PAGE_USER n = bool_decide (n = 2)) as Hb.
    { intros n Hn. change PAGE_USER with (2 ^ 2). rewrite Z.pow2_bits_eqb by done.
      case_bool_decide; [by apply Z.eqb_eq|apply Z.eqb_neq; lia]. }
    destruct (Z.testbit flags 2) eqn:H2; [right|left]; apply Z.bits_inj'; intros n Hn;
      rewrite Z.land_spec, Hb by done; [change 4 with PAGE_USER; rewrite Hb by done|rewrite Z.testbit_0_l];
      case_bool_decide; subst; rewrite ?H2, ?andb_false_r; done. }
  cbv zeta. split; [exact H|]. unfold has. destruct H as [-> | ->]; done.
Qed.

(** The tables after the last entry is written. *)
Lemma set_leaf T root s va level t e extra :
  tables_ok T root s → T !! take (3 - level) (path va) = Some t → (level ≤ 1)%nat →
  T !! (take (3 - level) (path va) ++ [index_at level va]) = None →
  is_u64 e → is_leaf (3 - level) e → (has e PAGE_USER = true → extra = 4) →
  (extra = 4 → user_path T s (take (3 - level) (path va))) →
  let s' := with_memory (write_entry (memory s) t (index_at level va) e) s in
  step T T root s s' ∧ accounts [] s s' ∧
  ∀ va', leaf (memory s') root va' =
    if decide (take (4 - level) (path va') = take (4 - level) (path va)) then Some (level, e)
    else leaf (memory s) root va'.
Proof.
  intros Hok Ht Hlev Hnone H64 Hle Hu Hup s'. set (p := take (3 - level) (path va)) in *.
  assert (length p = 3 - level)%nat as Hlp by (unfold p; rewrite length_take; cbn; lia).
  assert (tables_ok T root s') as Hok'.
  { apply (set_entry_ok Hok p); try done; [apply index_at_bound| |by intros ?%Hu%Hup|].
    - unfold entry_ok. rewrite Hnone, Hlp. by right.
    - intros c j Hc. congruence. }
  split_and!; [by apply step_set with (p := p); [..|apply index_at_bound|]|apply accounts_memory|].
  intros va'. assert (p ++ [index_at level va] = take (4 - level) (path va)) as Hpe.
  { unfold p. destruct level as [|[|]]; [done|done|lia]. }
  rewrite <-Hpe. case_decide as Hd.
  - assert (on_path (p ++ [index_at level va]) va') as Hon.
    { unfold on_path. rewrite length_app, Hlp. cbn [length]. rewrite <-Hd. f_equal. lia. }
    apply on_path_snoc in Hon as (Hp & _ & Hi). rewrite Hlp in Hi.
    replace (3 - (3 - level))%nat with level in Hi by lia.
    rewrite (leaf_descend Hok' _ _ _ Ht Hp), Hlp. replace (3 - (3 - level))%nat with level by lia.
    assert (read_entry (memory s') t (index_at level va) = e) as Hr by by apply read_write_same.
    destruct (leaf_end Hok' p t va' level Ht) as [[H0 _]|[_ ->]]; [lia|by rewrite <-Hi| |].
    + rewrite <-Hi, Hr in H0. rewrite H0 in Hle. by destruct (is_leaf_flags _ _ Hle).
    + by rewrite <-Hi, Hr.
  - apply (leaf_set_off Hok p); try done; [apply index_at_bound|].
    intros Hon. apply Hd. unfold on_path in Hon. rewrite Hon.
    rewrite length_app, Hlp. cbn [length]. f_equal. lia.
Qed.

Lemma map_4k_spec T root s virt phys flags :
  tables_ok T root s → virt mod PAGE_SIZE = 0 → is_frame phys → is_flags flags →
  has flags PAGE_PRESENT = true → not_large s root virt →
  match map_4k root s virt phys flags with
  | Ok s' => ∃ T', step T T' root s s' ∧ accounts [] s s' ∧
      ∀ va, leaf (memory s') root va =
        if decide (path va = path virt) then Some (0%nat, Z.lor phys flags)
        else leaf (memory s) root va
  | Err (e, s') => failed T root s e s'
  | Panic | Hang => False
  end.
Proof.
  intros Hok Hv Hp Hf Hpr Hnl. unfold map_4k. rewrite decide_False by (destruct Hp; unfold PAGE_SIZE in *; lia).
  destruct (land_user flags) as [Hex Hu].
  pose proof (ensure_page_table_spec T root s virt _ Hok Hex Hnl) as H.
  destruct (ensure_page_table root s virt (Z.land flags PAGE_USER)) as [[t s1]|[e s1]| |];
    cbn [mbind outcome_bind]; try done.
  destruct H as (T1 & Hst & Hl & Ha & Ht & Hup & _). pose proof (st_ok _ _ _ _ _ Hst) as Hok1.
  destruct (set_leaf T1 root s1 virt 0 t (Z.lor phys flags) (Z.land flags PAGE_USER) Hok1 Ht) as (Hst' & Ha' & Hleaf); try done.
  - by apply le_0_n.
  - apply eq_None_not_Some. intros [c Hc]. apply (tb_frame _ _ _ Hok1) in Hc as [_ Hc].
    cbn in Hc. lia.
  - by apply entry_u64.
  - exists phys, flags. split_and!; try done. by left.
  - by rewrite entry_has.
  - exists T1. split_and!; [by eapply step_trans|by apply (accounts_trans [] [] s s1)|].
    intros va. change (pt_index virt) with (index_at 0 virt). rewrite Hleaf.
    change (take (4 - 0) (path va)) with (path va). change (take (4 - 0) (path virt)) with (path virt).
    by rewrite Hl.
Qed.

Lemma map_2m_spec T root s virt phys flags :
  tables_ok T root s → virt mod TWO_MIB = 0 → phys mod TWO_MIB = 0 → is_frame phys → is_flags flags →
  has flags PAGE_PRESENT = true → T !! take 3 (path virt) = None →
  match map_2m root s virt phys flags with
  | Ok s' => ∃ T', step T T' root s s' ∧ accounts [] s s' ∧ deep_same 2 T T' ∧
      ∀ va, leaf (memory s') root va =
        if decide (take 3 (path va) = take 3 (path virt))
        then Some (1%nat, Z.lor phys (Z.lor flags PAGE_HUGE)) else leaf (memory s) root va
  | Err (e, s') => failed T root s e s'
  | Panic | Hang => False
  end.
Proof.
  intros Hok Hv Hp2 Hp Hf Hpr Hnone. unfold map_2m. rewrite decide_False by lia.
  destruct (land_user flags) as [Hex Hu].
  pose proof (ensure_page_directory_spec T root s virt _ Hok Hex) as H.
  destruct (ensure_page_directory root s virt (Z.land flags PAGE_USER)) as [[t s1]|[e s1]| |];
    cbn [mbind outcome_bind]; try done.
  destruct H as (T1 & Hst & Hl & Ha & Ht & Hup & Hd). pose proof (st_ok _ _ _ _ _ Hst) as Hok1.
  rewrite <-Z.lor_assoc. assert (is_flags (Z.lor flags PAGE_HUGE)) as Hf' by (apply lor_flags; auto).
  assert (∀ m, is_flags m → Z.land PAGE_HUGE m = 0 → has (Z.lor flags PAGE_HUGE) m = has flags m) as Hhas.
  { intros m Hm H0. unfold has. by rewrite Z.land_lor_distr_l, H0, Z.lor_0_r. }
  destruct (set_leaf T1 root s1 virt 1 t (Z.lor phys (Z.lor flags PAGE_HUGE)) (Z.land flags PAGE_USER) Hok1 Ht) as (Hst' & Ha' & Hleaf); try done.
  - change (T1 !! take 3 (path virt) = None). apply eq_None_not_Some. intros [c Hc].
    apply Hd in Hc as [?|Hc]; [congruence|]. cbn in Hc. lia.
  - by apply entry_u64.
  - exists phys, (Z.lor flags PAGE_HUGE). split_and!; try done; [by rewrite Hhas|]. right.
    split; [done|]. unfold has. rewrite Z.land_lor_distr_l. change (Z.land PAGE_HUGE PAGE_HUGE) with 128.
    destruct (Z.eqb_spec (Z.lor (Z.land flags PAGE_HUGE) 128) 0) as [H0|]; [|done].
    apply Z.lor_eq_0_iff in H0 as [_ ?]. done.
  - rewrite entry_has, Hhas by auto. done.
  - exists T1. split_and!; [by eapply step_trans|by apply (accounts_trans [] [] s s1)|done|].
    intros va. change (pd_index virt) with (index_at 1 virt). rewrite Hleaf.
    change (take (4 - 1) (path va)) with (take 3 (path va)).
    change (take (4 - 1) (path virt)) with (take 3 (path virt)). by rewrite Hl.
Qed.

(** ** Translations *)

Lemma decode_page phys flags va :
  is_frame phys → is_flags flags →
  decode 0 (Z.lor phys flags) va =
    mkTranslation (phys + va mod PAGE_SIZE) (has flags PAGE_USER) (has flags PAGE_WRITABLE).
Proof.
  intros Hp Hf. unfold decode. rewrite entry_address, !entry_has by auto.
  change (span 0) with PAGE_SIZE. f_equal. f_equal. destruct Hp. unfold PAGE_SIZE in *.
  Z.div_mod_to_equations. lia.
Qed.

Lemma same_leaves_translate T T' root s s' va :
  tables_ok T root s → tables_ok T' root s' → leaf (memory s') root va = leaf (memory s) root va →
  translate (memory s') root va = translate (memory s) root va.
Proof. intros Hok Hok' Hl. by rewrite (translate_leaf Hok), (translate_leaf Hok'), Hl. Qed.

(** The page tables below [root] are well formed, for some set of tables. *)
Definition address_space (root : Z) (s : Store) : Prop := ∃ T, tables_ok T root s.

(** A page of an address space with only its root. *)
Lemma fresh_root s c s' :
  without c s s' → tables_ok {[ [] := c ]} c s' ∧ ∀ va, leaf (memory s') c va = None.
Proof.
  intros Hw. assert (∀ j, 0 ≤ j < 512 → read_entry (memory s') c j = 0) as Hr
    by (intros; rewrite (wo_memory _ _ _ Hw); by apply read_entry_zero).
  assert (∀ p t, ({[ [] := c ]} : Tables) !! p = Some t → p = [] ∧ t = c) as Hone
    by (intros p t [<- <-]%lookup_singleton_Some; done).
  split.
  - split.
    + apply lookup_singleton_eq.
    + intros p t [-> ->]%Hone. split; [apply Hw|cbn; lia].
    + intros p q t [-> ->]%Hone [-> _]%Hone. done.
    + intros p i t [Hp _]%Hone. by destruct p.
    + intros p t i [-> ->]%Hone Hi. unfold entry_ok. rewrite lookup_singleton_ne by done. by left; apply Hr.
    + intros p i t ? ? [Hp _]%Hone. by destruct p.
    + apply Hw.
    + intros p t x [-> ->]%Hone Hx Hf. change (free_in s' x) in Hf. by apply (wo_free _ _ _ Hw) in Hf as [_ ?].
  - intros va. unfold leaf. cbn [leaf_from]. by rewrite Hr by apply index_at_bound.
Qed.

(** ** Identity ranges *)

(** The invariant rule of the loop: [I a s] when everything below [a] has
    been mapped. *)
Lemma map_identity_rule (I : Z → Store → Prop) (Q : MemoryError → Store → Prop)
    map_page k s start end_ :
  0 ≤ k < 63 → is_u64 start → is_u64 end_ → end_ + 2 * 2 ^ k ≤ 2 ^ 64 →
  let step := 2 ^ k in
  let first := align_down start step in
  let limit := align_up end_ step in
  (∀ a s, I a s → a mod step = 0 → first ≤ a < limit →
     match map_page s a with
     | Ok s' => I (a + step) s'
     | Err (e, s') => Q e s'
     | Panic | Hang => False
     end) →
  I first s →
  match map_identity map_page step s start end_ with
  | Ok s' => I (Z.max first limit) s'
  | Err (e, s') => Q e s'
  | Panic | Hang => False
  end.
Proof.
  intros Hk Hs He Hmax step first limit Hstep Hfirst.
  assert (0 < step) as Hpos by (apply Z.pow_pos_nonneg; lia).
  assert (first = start / step * step) as Hfe by (apply align_down_pow2; [lia|done]).
  assert (limit = (end_ + step - 1) / step * step) as Hle by (apply align_up_pow2; [lia|done|lia]).
  assert (limit < end_ + step) as Hlim by (rewrite Hle; Z.div_mod_to_equations; nia).
  assert (first mod step = 0) as Hfm by (rewrite Hfe; apply Z.mod_mul; lia).
  clear Hfe. unfold map_identity. fold first limit.
  assert (limit mod step = 0) as Hlm by (rewrite Hle; apply Z.mod_mul; lia).
  apply (while_rule
    (λ '(a, s'), I a s' ∧ a mod step = 0 ∧ first ≤ a ∧ (a ≤ Z.max first limit))
    (λ '(a, _), Z.to_nat ((limit - a) / step))
    (λ o, match o with
          | Ok s' => I (Z.max first limit) s' | Err (e, s') => Q e s' | Panic | Hang => False end));
    [|by split_and!; [..|lia]|lia].
  intros [a s'] (Ha & Ham & Hfa & Hal). case_decide as Hlt.
  - specialize (Hstep a s' Ha Ham ltac:(lia)).
    destruct (map_page s' a) as [s1|[e s1]| |]; cbn [mbind outcome_bind]; try done.
    unfold checked_add. rewrite decide_True by lia. cbn [expect mbind outcome_bind].
    assert (a + step ≤ limit).
    { clear Hle Hfm Hal. apply Z.mod_divide in Ham as [y Hy]; [|lia].
      apply Z.mod_divide in Hlm as [x Hx]; [|lia]. clearbody step limit. subst a limit.
      assert (y < x) by nia. nia. }
    assert ((limit - a) / step = (limit - (a + step)) / step + 1) as ->
      by (rewrite <-Z.div_add by lia; f_equal; lia).
    split_and!; try done; [|lia|lia|].
    + rewrite Z.add_mod, Ham, Z.mod_same by lia. done.
    + assert (0 ≤ (limit - (a + step)) / step) by (apply Z.div_pos; lia). lia.
  - by replace (Z.max first limit) with a by lia.
Qed.

(** A call that fails after some of its work is done. *)
Definition stopped (T : Tables) (root : Z) (s : Store) (e : MemoryError) (s' : Store) : Prop :=
  ∃ T' lost, step T T' root s s' ∧ accounts lost s s' ∧
    (e = AllocatorExhausted ∧ lost = [] ∨
     e = OwnedPageCapacityExceeded ∧ tracks s = true ∧ length lost = 1%nat).

Lemma failed_stopped T root s e s' : failed T root s e s' → stopped T root s e s'.
Proof. intros (T' & lost & ? & _ & ? & ?). by exists T', lost. Qed.

Lemma stopped_after T T1 root s s1 e s2 :
  step T T1 root s s1 → accounts [] s s1 → stopped T1 root s1 e s2 → stopped T root s e s2.
Proof.
  intros Hst Ha (T' & lost & Hst' & Ha' & He). exists T', lost.
  split_and!; [by eapply step_trans|by eapply (accounts_trans [])|].
  by rewrite <-(accounts_tracks _ _ _ Ha).
Qed.

(** Each low address ends where it did, or it is in the range and ends at the
    entry meant for it. *)
Definition partly (root : Z) (s : Store) (lo hi : Z) (level : nat) (entry : Z → Z) (s' : Store) : Prop :=
  ∀ va, is_low va → leaf (memory s') root va = leaf (memory s) root va ∨
    lo ≤ va < hi ∧ leaf (memory s') root va = Some (level, entry va).

(** [s'] extends [s]: low addresses of [range] end at [entry], others where
    they did. *)
Definition mapped_from (T : Tables) (root : Z) (s : Store) (lo hi : Z) (level : nat)
    (entry : Z → Z) (T' : Tables) (s' : Store) : Prop :=
  step T T' root s s' ∧ accounts [] s s' ∧
  ∀ va, is_low va → leaf (memory s') root va =
    if decide (lo ≤ va < hi) then Some (level, entry va) else leaf (memory s) root va.

Lemma mapped_from_start T root s lo level entry :
  tables_ok T root s → mapped_from T root s lo lo level entry T s.
Proof.
  intros Hok. split_and!; [by apply step_refl|apply accounts_refl|].
  intros va _. rewrite decide_False by lia. done.
Qed.

Lemma mapped_from_next T root s lo a size level entry T1 s1 T2 s2 :
  mapped_from T root s lo a level entry T1 s1 → step T1 T2 root s1 s2 → accounts [] s1 s2 →
  lo ≤ a → 0 < size →
  (∀ va, is_low va → leaf (memory s2) root va =
     if decide (a ≤ va < a + size) then Some (level, entry va) else leaf (memory s1) root va) →
  mapped_from T root s lo (a + size) level entry T2 s2.
Proof.
  intros (Hst & Ha & Hleaf) Hst2 Ha2 Hlo Hsz Hleaf2.
  split_and!; [by eapply step_trans|by eapply (accounts_trans [])|].
  intros va Hva. rewrite Hleaf2, Hleaf by done. repeat case_decide; (done || lia).
Qed.

Lemma mapped_from_max T root s lo hi level entry T' s' :
  mapped_from T root s lo (Z.max lo hi) level entry T' s' →
  mapped_from T root s lo hi level entry T' s'.
Proof.
  intros (Hst & Ha & Hleaf). split_and!; try done.
  intros va Hva. rewrite Hleaf by done. repeat case_decide; (done || lia).
Qed.

Lemma path_page_range va virt :
  is_low va → is_low virt → virt mod PAGE_SIZE = 0 →
  path va = path virt ↔ virt ≤ va < virt + PAGE_SIZE.
Proof.
  intros Hva Hv Hm. rewrite path_page by done. split.
  - intros <-. apply page_base_bounds.
  - by apply page_base_unique.
Qed.

(** Both identity loops, over the specification of one page: [pre] is what a
    page to come still satisfies. *)
Lemma map_identity_spec (keep : Tables → Tables → Prop) map_page k level entry T root s start end_ :
  (∀ T, keep T T) → (∀ T1 T2 T3, keep T1 T2 → keep T2 T3 → keep T1 T3) →
  0 ≤ k < 47 → tables_ok T root s → 0 ≤ start < 2 ^ 47 → 0 ≤ end_ < 2 ^ 47 →
  let size := 2 ^ k in
  let first := align_down start size in
  let limit := align_up end_ size in
  (∀ a T1 s1, first ≤ a < limit → a mod size = 0 → is_low a → keep T T1 → tables_ok T1 root s1 →
     leaf (memory s1) root a = leaf (memory s) root a →
     match map_page s1 a with
     | Ok s2 => ∃ T2, step T1 T2 root s1 s2 ∧ accounts [] s1 s2 ∧ keep T1 T2 ∧
         ∀ va, is_low va → leaf (memory s2) root va =
           if decide (a ≤ va < a + size) then Some (level, entry va) else leaf (memory s1) root va
     | Err (e, s2) => failed T1 root s1 e s2
     | Panic | Hang => False
     end) →
  match map_identity map_page size s start end_ with
  | Ok s' => ∃ T', mapped_from T root s first limit level entry T' s' ∧ keep T T'
  | Err (e, s') => stopped T root s e s' ∧ partly root s first limit level entry s'
  | Panic | Hang => False
  end.
Proof.
  intros Hkr Hkt Hk Hok Hs He size first limit Hpage.
  assert (0 < size ≤ 2 ^ 46) as Hsz
    by (unfold size; split; [apply Z.pow_pos_nonneg; lia|apply Z.pow_le_mono_r; lia]).
  assert (0 ≤ first ∧ limit < 2 ^ 47 + size) as [Hf0 Hl].
  { unfold first, limit, size in *. rewrite align_down_pow2, align_up_pow2 by (unfold is_u64; lia).
    split; [apply Z.mul_nonneg_nonneg; [apply Z.div_pos; lia|lia]|].
    pose proof (Z.mul_div_le (end_ + 2 ^ k - 1) (2 ^ k)). lia. }
  pose proof (map_identity_rule
    (λ a s', ∃ T', mapped_from T root s first a level entry T' s' ∧ keep T T')
    (λ e s', stopped T root s e s' ∧ partly root s first limit level entry s') map_page k s start end_ ltac:(lia) ltac:(unfold is_u64; lia)
    ltac:(unfold is_u64; lia) ltac:(fold size; lia)) as H.
  cbv zeta beta in H. fold size first limit in H.
  match type of H with ?A → ?B → _ => assert A as HA; [|assert B as HB; [|specialize (H HA HB)]] end.
  - intros a s1 (T1 & Hm & Hkeep) Hmod Hr. pose proof Hm as (Hst & Ha & Hleaf).
    assert (is_low a) as Hlow by (unfold is_low; lia).
    specialize (Hpage a T1 s1 Hr Hmod Hlow Hkeep (st_ok _ _ _ _ _ Hst)).
    rewrite Hleaf, decide_False in Hpage by (done || lia). specialize (Hpage eq_refl).
    destruct (map_page s1 a) as [s2|[e s2]| |]; try done.
    + destruct Hpage as (T2 & Hst2 & Ha2 & Hk2 & Hleaf2). exists T2.
      split; [|by eapply Hkt]. eapply mapped_from_next; (done || lia).
    + split; [eapply stopped_after; [done..|by apply failed_stopped]|]. intros va Hva.
      destruct Hpage as (T2 & lost & _ & Hsame & _). rewrite Hsame, Hleaf by done.
      case_decide; [right; split; [lia|done]|by left].
  - exists T. split; [by apply mapped_from_start|done].
  - destruct (map_identity _ _ _ _ _) as [s'|[e s']| |]; try done.
    destruct H as (T' & Hm & Hk'). exists T'. split; [by apply mapped_from_max|done].
Qed.

Lemma low_frame a k : is_low a → 12 ≤ k → a mod 2 ^ k = 0 → is_frame a.
Proof.
  intros Ha Hk Hm. split; [unfold is_low in Ha; lia|].
  apply Z.mod_divide in Hm as [q ->]; [|apply Z.pow_nonzero; lia].
  replace k with (12 + (k - 12)) by lia. rewrite Z.pow_add_r by lia.
  rewrite (Z.mul_comm (2 ^ 12)), Z.mul_assoc. apply Z.mod_mul. done.
Qed.

Lemma map_identity_4k_spec T root s start end_ flags :
  tables_ok T root s → 0 ≤ start < 2 ^ 47 → 0 ≤ end_ < 2 ^ 47 → is_flags flags →
  has flags PAGE_PRESENT = true →
  let first := align_down start PAGE_SIZE in
  let limit := align_up end_ PAGE_SIZE in
  (∀ va, first ≤ va < limit → not_large s root va) →
  match map_identity_4k_range root s start end_ flags with
  | Ok s' => ∃ T', mapped_from T root s first limit 0 (λ va, Z.lor (page_base va) flags) T' s'
  | Err (e, s') => stopped T root s e s' ∧ partly root s first limit 0 (λ va, Z.lor (page_base va) flags) s'
  | Panic | Hang => False
  end.
Proof.
  intros Hok Hs He Hf Hpr first limit Hnl.
  pose proof (map_identity_spec (λ _ _, True) (λ s a, map_4k root s a a flags) 12 0
    (λ va, Z.lor (page_base va) flags) T root s start end_ ltac:(done) ltac:(done) ltac:(lia)
    Hok Hs He) as H. cbv zeta in H. change (2 ^ 12) with PAGE_SIZE in H. fold first limit in H.
  unfold map_identity_4k_range.
  match type of H with ?A → _ => assert A as HA; [|specialize (H HA)] end.
  - intros a T1 s1 Hr Hm Hlow _ Hok1 Hl.
    pose proof (map_4k_spec T1 root s1 a a flags Hok1 Hm (low_frame a 12 Hlow ltac:(lia) Hm) Hf Hpr) as H4.
    lapply H4; [clear H4; intros H4|intros e; rewrite Hl; by apply Hnl].
    destruct (map_4k root s1 a a flags) as [s2|[e s2]| |]; try done.
    destruct H4 as (T2 & Hst2 & Ha2 & Hleaf2). exists T2. split_and!; try done.
    intros va Hva. rewrite Hleaf2. pose proof (path_page_range va a Hva Hlow Hm) as Hpr'.
    repeat case_decide; try tauto. by rewrite (page_base_unique va a).
  - destruct (map_identity _ _ _ _ _) as [s'|[e s']| |]; try done. destruct H as (T' & H & _). by exists T'.
Qed.

Lemma map_identity_2m_spec T root s start end_ flags :
  tables_ok T root s → 0 ≤ start < 2 ^ 47 → 0 ≤ end_ < 2 ^ 47 → is_flags flags →
  has flags PAGE_PRESENT = true → (∀ p t, T !! p = Some t → (length p ≤ 2)%nat) →
  let first := align_down start TWO_MIB in
  let limit := align_up end_ TWO_MIB in
  match map_identity_2m_range root s start end_ flags with
  | Ok s' => ∃ T', mapped_from T root s first limit 1
      (λ va, Z.lor (va / TWO_MIB * TWO_MIB) (Z.lor flags PAGE_HUGE)) T' s' ∧ deep_same 2 T T'
  | Err (e, s') => stopped T root s e s' ∧ partly root s first limit 1 (λ va, Z.lor (va / TWO_MIB * TWO_MIB) (Z.lor flags PAGE_HUGE)) s'
  | Panic | Hang => False
  end.
Proof.
  intros Hok Hs He Hf Hpr Hshallow first limit.
  pose proof (map_identity_spec (deep_same 2) (λ s a, map_2m root s a a flags) 21 1
    (λ va, Z.lor (va / TWO_MIB * TWO_MIB) (Z.lor flags PAGE_HUGE)) T root s start end_
    (λ _ q t H, or_introl H) (λ _ _ _ H1 H2, deep_same_trans _ _ _ _ _ H1 H2 (le_n _)) ltac:(lia)
    Hok Hs He) as H. cbv zeta in H. change (2 ^ 21) with TWO_MIB in H. fold first limit in H.
  unfold map_identity_2m_range.
  match type of H with ?A → _ => assert A as HA; [|exact (H HA)] end.
  intros a T1 s1 Hr Hm Hlow Hk Hok1 _.
  assert (T1 !! take 3 (path a) = None) as Hnone.
  { apply eq_None_not_Some. intros [t Ht]. apply Hk in Ht as [Ht%Hshallow|Ht]; cbn in Ht; lia. }
  pose proof (map_2m_spec T1 root s1 a a flags Hok1 Hm Hm (low_frame a 21 Hlow ltac:(lia) Hm) Hf Hpr
    Hnone) as H2.
  destruct (map_2m root s1 a a flags) as [s2|[e s2]| |]; try done.
  destruct H2 as (T2 & Hst2 & Ha2 & Hk2 & Hleaf2). exists T2. split_and!; try done.
  intros va Hva. rewrite Hleaf2. pose proof (path_large va a Hva Hlow Hm) as Hpr'.
  repeat case_decide; try tauto. do 3 f_equal. unfold TWO_MIB in *.
  change (2 * 1024 * 1024) with 2097152 in *. Z.div_mod_to_equations. lia.
Qed.

(** ** Inside a large page

    The builder takes any present entry for a table.  Below a large page it
    therefore writes the new entry into the memory the large page maps. *)

Lemma ensure_present s table i :
  has (read_entry (memory s) table i) PAGE_PRESENT = true →
  ensure_table s table i 0 = Ok (Z.land (read_entry (memory s) table i) ADDRESS_MASK, s).
Proof. intros H. unfold ensure_table. by rewrite H, Z.land_0_r. Qed.

Theorem map_4k_inside_large_page root s virt phys flags e :
  leaf (memory s) root virt = Some (1%nat, e) → virt mod PAGE_SIZE = 0 → phys mod PAGE_SIZE = 0 →
  Z.land flags PAGE_USER = 0 →
  map_4k root s virt phys flags =
    Ok (with_memory (write_entry (memory s) (Z.land e ADDRESS_MASK) (pt_index virt)
          (Z.lor phys flags)) s).
Proof.
  intros Hleaf Hv Hp Hu. unfold map_4k. rewrite decide_False by lia. rewrite Hu.
  unfold ensure_page_table, ensure_page_directory.
  unfold leaf in Hleaf. cbn [leaf_from] in Hleaf.
  change (index_at 3 virt) with (pml4_index virt) in Hleaf.
  change (index_at 2 virt) with (pdpt_index virt) in Hleaf.
  change (index_at 1 virt) with (pd_index virt) in Hleaf.
  set (e4 := read_entry (memory s) root (pml4_index virt)) in *.
  destruct (has e4 PAGE_PRESENT) eqn:H4; [|done]. destruct (has e4 PAGE_HUGE); [done|].
  rewrite ensure_present by done. cbn [mbind outcome_bind]. fold e4.
  set (e3 := read_entry (memory s) (Z.land e4 ADDRESS_MASK) (pdpt_index virt)) in *.
  destruct (has e3 PAGE_PRESENT) eqn:H3; [|done]. destruct (has e3 PAGE_HUGE); [done|].
  rewrite ensure_present by done. cbn [mbind outcome_bind]. fold e3.
  set (e2 := read_entry (memory s) (Z.land e3 ADDRESS_MASK) (pd_index virt)) in *.
  destruct (has e2 PAGE_PRESENT) eqn:H2; [|done].
  rewrite ensure_present by done. cbn [mbind outcome_bind]. fold e2.
  destruct (has e2 PAGE_HUGE); [by injection Hleaf as <-|].
  by repeat case_match.
Qed.

(** A store with four free pages at 16 MiB. *)
Definition sample_store : Store := mkStore sample_allocator (λ _, 1) (Some OwnedPages_empty).

Lemma sample_paged : paged (2 ^ 52) (allocator sample_store).
Proof.
  destruct sample_allocator_ok as [Hs Hc].
  assert (∀ x, free (allocator sample_store) x ↔ 0x1000000 ≤ x < 0x1004000) as Hf.
  { intros x. unfold free, live. cbn. rewrite covers_cons. cbn.
    pose proof (covers_nil x). tauto. }
  split; [by eapply slots_alloc_ok| |].
  - intros x. rewrite !Hf. pose proof (page_base_bounds x) as Hb. pose proof (page_base_mod x) as Hm.
    revert Hb Hm. generalize (page_base x). unfold PAGE_SIZE. intros b ? ?. Z.div_mod_to_equations. lia.
  - intros x Hx%Hf. lia.
Qed.

Definition sample_rooted : Store :=
  match acquire sample_store with Ok (_, s) => s | _ => sample_store end.

Lemma sample_rooted_ok :
  tables_ok {[ [] := 0x1000000 ]} 0x1000000 sample_rooted ∧
  ∀ va, leaf (memory sample_rooted) 0x1000000 va = None.
Proof.
  pose proof (acquire_spec sample_store sample_paged) as H.
  assert ((λ r, match r with Ok (c, _) => c | _ => 0 end) (acquire sample_store) = 0x1000000) as Hc
    by reflexivity.
  unfold sample_rooted. destruct (acquire sample_store) as [[c s]|[e s]| |]; cbn in Hc; try done.
  subst c. destruct H as [Hw _]. by apply fresh_root with (s := sample_store).
Qed.

(** * Properties *)

(** C12. Mapping a page.  On a well-formed address space, for a page that no
    large page covers, [map_4k] either makes exactly that page translate to
    the given frame with the given permissions, on every level, and leaves
    the translation of all other addresses alone; or it fails for want of a
    page or of room in the list of owned pages and no translation changes.
    The tables stay well formed.  It never panics on page-aligned arguments. *)
Theorem map_4k_refines root s virt phys flags :
  address_space root s → is_low virt → virt mod PAGE_SIZE = 0 →
  0 ≤ phys < 2 ^ 52 → phys mod PAGE_SIZE = 0 → 0 ≤ flags < 4096 → has flags PAGE_PRESENT = true →
  not_large s root virt →
  match map_4k root s virt phys flags with
  | Ok s' => address_space root s' ∧ ∀ va, is_low va →
      translate (memory s') root va =
        if decide (page_base va = virt)
        then Some (mkTranslation (phys + va mod PAGE_SIZE) (has flags PAGE_USER) (has flags PAGE_WRITABLE))
        else translate (memory s) root va
  | Err (e, s') => (e = AllocatorExhausted ∨ e = OwnedPageCapacityExceeded) ∧
      address_space root s' ∧ ∀ va, translate (memory s') root va = translate (memory s) root va
  | Panic | Hang => False
  end.
Proof.
  intros [T Hok] Hv Hvm Hp Hpm Hf Hpr Hnl.
  assert (is_frame phys) as Hfr by done.
  pose proof (map_4k_spec T root s virt phys flags Hok Hvm Hfr Hf Hpr Hnl) as H.
  destruct (map_4k root s virt phys flags) as [s'|[e s']| |]; try done.
  - destruct H as (T' & Hst & _ & Hleaf). pose proof (st_ok _ _ _ _ _ Hst) as Hok'.
    split; [by exists T'|]. intros va Hva. specialize (Hleaf va).
    destruct (decide (path va = path virt)) as [He|He], (decide (page_base va = virt)) as [Hb|Hb];
      try (exfalso; pose proof (path_page va virt Hva Hv Hvm); tauto).
    + rewrite (translate_leaf Hok'), Hleaf. cbn [fmap option_fmap option_map]. f_equal.
      by apply decode_page.
    + by apply (same_leaves_translate T T').
  - destruct H as (T' & lost & Hst & Hl & _ & He). pose proof (st_ok _ _ _ _ _ Hst) as Hok'.
    split_and!; [destruct He as [[-> _]|[-> _]]; auto|by exists T'|].
    intros va. by apply (same_leaves_translate T T').
Qed.

Lemma map_4k_refines_witness :
  ∃ s', map_4k 0x1000000 sample_rooted 0x400000 0x2000000 7 = Ok s' ∧
    translate (memory s') 0x1000000 0x400123 = Some (mkTranslation 0x2000123 true true).
Proof.
  destruct sample_rooted_ok as [Hok Hl].
  assert (not_large sample_rooted 0x1000000 0x400000) as Hnl by (intros e; rewrite Hl; discriminate).
  pose proof (map_4k_refines 0x1000000 sample_rooted 0x400000 0x2000000 7 (ex_intro _ _ Hok)
    ltac:(unfold is_low; lia) eq_refl ltac:(lia) eq_refl ltac:(lia) eq_refl Hnl) as H.
  assert (is_Ok (map_4k 0x1000000 sample_rooted 0x400000 0x2000000 7) = true) as Hr
    by (vm_compute; reflexivity).
  destruct (map_4k 0x1000000 sample_rooted 0x400000 0x2000000 7) as [s'|x| |]; try discriminate Hr.
  exists s'. split; [reflexivity|]. destruct H as [_ H].
  rewrite (H 0x400123) by (unfold is_low; lia). reflexivity.
Defined.
