(* ===== verification/KernelSpace.v ===== *)
(** * The kernel's address space ([kernel/kernel/src/memory/kernel.rs], [state.rs], [libs/boot-info])

    What the loader reports, the allocator built from it, the identity
    mapping of physical memory, and the mappings every address space shares. *)

From stdpp Require Import gmap.
From S2P Require Import Prelude Bytes Errors Allocator Process Paging.

Local Open Scope Z_scope.

(** ** What the boot loader reports (libs/boot-info) *)

Inductive PixelFormat := UnknownFormat | Rgb | Bgr.
Inductive MemoryRegionKind :=
| Usable | Reserved | Loader | BootServices | RuntimeServices | AcpiReclaimable | AcpiNvs
| Mmio | Persistent | Unusable.

#[export] Instance MemoryRegionKind_eq_dec : EqDecision MemoryRegionKind.
Proof. solve_decision. Defined.

Record FramebufferInfo := mkFramebuffer {
  fb_base : Z;
  fb_size : Z;
  fb_width : Z;
  fb_height : Z;
  fb_stride : Z;
  fb_format : PixelFormat
}.

Record MemoryRegion := mkMemoryRegion {
  mr_start : Z;
  mr_page_count : Z;
  mr_kind : MemoryRegionKind
}.

#[export] Instance MemoryRegion_eq_dec : EqDecision MemoryRegion.
Proof. solve_decision. Defined.

Record BootInfo := mkBootInfo {
  bi_magic : Z;
  bi_version : Z;
  framebuffer : FramebufferInfo;
  memory_regions : list MemoryRegion;
  acpi_rsdp_addr : Z
}.

Definition BOOT_INFO_MAGIC : Z := from_le_bytes (ascii "LAZRBOOT").
Definition BOOT_INFO_VERSION : Z := 1.

Definition BootInfo_new (fb : FramebufferInfo) (regions : list MemoryRegion) (rsdp : Z) : BootInfo :=
  mkBootInfo BOOT_INFO_MAGIC BOOT_INFO_VERSION fb regions rsdp.

Definition has_valid_header (b : BootInfo) : bool :=
  (bi_magic b =? BOOT_INFO_MAGIC) && (bi_version b =? BOOT_INFO_VERSION).

Definition is_direct (f : PixelFormat) : bool :=
  match f with Rgb | Bgr => true | UnknownFormat => false end.

Definition is_usable (fb : FramebufferInfo) : bool :=
  negb (fb_base fb =? 0) && negb (fb_size fb =? 0) && negb (fb_width fb =? 0) &&
  negb (fb_height fb =? 0) && (fb_width fb <=? fb_stride fb) && is_direct (fb_format fb).

(** ** State (state.rs) *)

Definition PHYS_WINDOW_START : Z := 0x1000000.
Definition MAX_SHARED_KERNEL_MAPPINGS : nat := 16.
#[global] Arguments PHYS_WINDOW_START : simpl never.
#[global] Arguments MAX_SHARED_KERNEL_MAPPINGS : simpl never.

Record SharedKernelMapping := mkShared { sh_start : Z; sh_end : Z; sh_writable : bool }.

(** The allocator of [MemoryState] is the one of the [Store]. *)
Record MemoryState := mkMemoryState {
  store : Store;
  kernel_space : option AddressSpace;
  phys_window_end : Z;
  framebuffer_start : Z;
  framebuffer_end : Z;
  shared_kernel_mappings : list SharedKernelMapping;
  shared_kernel_mapping_count : nat
}.

Definition MemoryState_new (m : Memory) : MemoryState :=
  mkMemoryState (mkStore PhysicalAllocator_new m None) None PHYS_WINDOW_START 0 0
    (replicate MAX_SHARED_KERNEL_MAPPINGS (mkShared 0 0 false)) 0.

Definition with_store (s : Store) (st : MemoryState) : MemoryState :=
  mkMemoryState s (kernel_space st) (phys_window_end st) (framebuffer_start st) (framebuffer_end st)
    (shared_kernel_mappings st) (shared_kernel_mapping_count st).
Definition with_shared (l : list SharedKernelMapping) (n : nat) (st : MemoryState) : MemoryState :=
  mkMemoryState (store st) (kernel_space st) (phys_window_end st) (framebuffer_start st)
    (framebuffer_end st) l n.

(** ** The allocator from the memory map *)

(** [checked_mul] with [u64::MAX] on overflow. *)
Definition saturating_mul (a b : Z) : Z := default u64_max (checked_mul a b).

Abbreviation mres := (outcome MemoryError).

(** The loop over the regions: the allocator and [highest_end]. *)
Definition add_usable (v : PhysicalAllocator * Z) (region : MemoryRegion)
    : mres (PhysicalAllocator * Z) :=
  let '(a, highest_end) := v in
  if decide (mr_kind region ≠ Usable) then Ok (a, highest_end)
  else
    let start := Z.max (mr_start region) PHYS_WINDOW_START in
    end_ ← expect (checked_add (mr_start region) (saturating_mul (mr_page_count region) PAGE_SIZE));
    let end_ := align_down end_ PAGE_SIZE in
    if decide (end_ ≤ start) then Ok (a, highest_end)
    else
      a ← add_region a start end_;
      Ok (a, if decide (highest_end < end_) then end_ else highest_end).

(** [kernel_image] is the range between two symbols of the linker script. *)
Definition initialize_allocator (kernel_image : option (Z * Z)) (regions : list MemoryRegion)
    : mres (PhysicalAllocator * Z) :=
  '(a, highest_end) ← for_each add_usable (PhysicalAllocator_new, 0) regions;
  if decide (highest_end ≤ PHYS_WINDOW_START) then Err NoUsableMemory
  else
    a ← match kernel_image with
        | Some (kernel_start, kernel_end) => reserve_range a kernel_start kernel_end
        | None => Ok a
        end;
    Ok (a, align_up highest_end TWO_MIB).

(** ** Shared mappings *)

Definition sh_flags (m : SharedKernelMapping) : Z :=
  Z.lor PAGE_PRESENT (if sh_writable m then PAGE_WRITABLE else 0).

Definition record_shared_kernel_mapping (st : MemoryState) (start end_ : Z) (writable : bool)
    : mres MemoryState :=
  let start := align_down start PAGE_SIZE in
  let end_ := align_up end_ PAGE_SIZE in
  if decide (end_ ≤ start) then Ok st
  else
    known ← while (S (shared_kernel_mapping_count st)) (λ index,
      if decide (index < shared_kernel_mapping_count st)%nat then
        mapping ← get_at (shared_kernel_mappings st) index;
        if decide (sh_start mapping ≤ start ∧ end_ ≤ sh_end mapping ∧ sh_writable mapping = writable)
        then Ok (inr true) else Ok (inl (S index))
      else Ok (inr false)) 0%nat;
    if (known : bool) then Ok st
    else if decide (length (shared_kernel_mappings st) ≤ shared_kernel_mapping_count st)%nat
    then Err SharedKernelMappingCapacityExceeded
    else
      l ← set_at (shared_kernel_mappings st) (shared_kernel_mapping_count st)
            (mkShared start end_ writable);
      Ok (with_shared l (shared_kernel_mapping_count st + 1)%nat st).

Definition replay_shared_kernel_mappings (st : MemoryState) (root : Z) (s : Store) : sres Store :=
  while (S (shared_kernel_mapping_count st)) (λ '(index, s),
    if decide (index < shared_kernel_mapping_count st)%nat then
      mapping ← get_at (shared_kernel_mappings st) index;
      s ← map_identity_4k_range root s (sh_start mapping) (sh_end mapping) (sh_flags mapping);
      Ok (inl (S index, s))
    else Ok (inr s)) (0%nat, s).
#[global] Arguments replay_shared_kernel_mappings : simpl never.

(** [s] is the store seen by the builder, which may track owned pages. *)
Definition map_shared_kernel_context (st : MemoryState) (root : Z) (s : Store) : sres Store :=
  s ← map_identity_2m_range root s PHYS_WINDOW_START (phys_window_end st)
        (Z.lor PAGE_PRESENT PAGE_WRITABLE);
  s ← (if decide (framebuffer_start st ≠ 0 ∧
            (framebuffer_start st < PHYS_WINDOW_START ∨ phys_window_end st < framebuffer_end st))
       then map_identity_4k_range root s (framebuffer_start st) (framebuffer_end st)
              (Z.lor PAGE_PRESENT PAGE_WRITABLE)
       else Ok s);
  replay_shared_kernel_mappings st root s.

(** ** Initialisation and extension of the kernel's own space

    The processor's page-table register is the second component. *)

Definition drop_state {A} (m : sres A) : mres A := map_err fst m.

Definition init (kernel_image : option (Z * Z)) (st : MemoryState) (boot_info : BootInfo)
    : mres (MemoryState * Z) :=
  '(a, window_end) ← initialize_allocator kernel_image (memory_regions boot_info);
  '(root, s) ← drop_state (take_page (mkStore a (memory (store st)) None));
  s ← drop_state (map_identity_2m_range root s PHYS_WINDOW_START window_end
                    (Z.lor PAGE_PRESENT PAGE_WRITABLE));
  let fb := framebuffer boot_info in
  let fb_start := align_down (fb_base fb) PAGE_SIZE in
  fb_last ← expect (checked_add (fb_base fb) (fb_size fb));
  let fb_end := align_up fb_last PAGE_SIZE in
  s ← (if decide (fb_start < PHYS_WINDOW_START ∨ window_end < fb_end)
       then drop_state (map_identity_4k_range root s fb_start fb_end
                          (Z.lor PAGE_PRESENT PAGE_WRITABLE))
       else Ok s);
  let st := mkMemoryState s (Some (mkSpace root)) window_end fb_start fb_end
              (shared_kernel_mappings st) 0 in
  Ok (st, root).

Definition kernel_address_space (st : MemoryState) : mres AddressSpace := expect (kernel_space st).

Definition allocate_kernel_page (st : MemoryState) : mres (Z * MemoryState) :=
  '(page, s) ← drop_state (take_page (store st)); Ok (page, with_store s st).

(** An error leaves the tables and pages that it had made. *)
Definition map_kernel_identity_range (st : MemoryState) (start end_ : Z) (writable : bool)
    : outcome (MemoryError * MemoryState) (MemoryState * Z) :=
  let flags := Z.lor PAGE_PRESENT (if writable then PAGE_WRITABLE else 0) in
  space ← ok_or (kernel_space st) (AddressSpaceUninitialized, st);
  s ← map_err (λ '(e, s), (e, with_store s st))
    (map_identity_4k_range (root_paddr space) (store st) start end_ flags);
  let st := with_store s st in
  st ← map_err (λ e, (e, st)) (record_shared_kernel_mapping st start end_ writable);
  space ← map_err (λ e, (e, st)) (kernel_address_space st);
  Ok (st, root_paddr space).

(** ** What the shared mappings mean *)

Definition sh_has (m : SharedKernelMapping) (va : Z) : Prop := sh_start m ≤ va < sh_end m.
#[export] Instance sh_has_dec m va : Decision (sh_has m va).
Proof. unfold sh_has. apply _. Defined.

Definition in_window (window_end va : Z) : Prop := PHYS_WINDOW_START ≤ va < window_end.

(** Later ranges win. *)
Definition range_leaf (va : Z) (o : option (nat * Z)) (m : SharedKernelMapping) : option (nat * Z) :=
  if decide (sh_has m va) then Some (0%nat, Z.lor (page_base va) (sh_flags m)) else o.

Definition window_leaf (window_end va : Z) : option (nat * Z) :=
  if decide (PHYS_WINDOW_START ≤ va < window_end)
  then Some (1%nat, Z.lor (va / TWO_MIB * TWO_MIB) (Z.lor (Z.lor PAGE_PRESENT PAGE_WRITABLE) PAGE_HUGE))
  else None.

Definition kernel_leaf (window_end : Z) (extras : list SharedKernelMapping) (va : Z)
    : option (nat * Z) :=
  foldl (range_leaf va) (window_leaf window_end va) extras.

Definition range_translation (va : Z) (o : option translation) (m : SharedKernelMapping)
    : option translation :=
  if decide (sh_has m va) then Some (mkTranslation va false (sh_writable m)) else o.

(** The identity on the physical window and on the extra ranges, for the
    kernel only. *)
Definition kernel_translation (window_end : Z) (extras : list SharedKernelMapping) (va : Z)
    : option translation :=
  foldl (range_translation va)
    (if decide (PHYS_WINDOW_START ≤ va < window_end) then Some (mkTranslation va false true) else None)
    extras.

(** The ranges mapped besides the window. *)
Definition framebuffer_range (st : MemoryState) : list SharedKernelMapping :=
  if decide (framebuffer_start st ≠ 0 ∧
       (framebuffer_start st < PHYS_WINDOW_START ∨ phys_window_end st < framebuffer_end st))
  then [mkShared (framebuffer_start st) (framebuffer_end st) true] else [].
Definition extra_ranges (st : MemoryState) : list SharedKernelMapping :=
  framebuffer_range st ++ take (shared_kernel_mapping_count st) (shared_kernel_mappings st).

(** A range of whole pages that the window does not touch. *)
Record range_ok (window_end : Z) (m : SharedKernelMapping) : Prop := {
  rg_start : 0 ≤ sh_start m < 2 ^ 47 ∧ sh_start m mod PAGE_SIZE = 0;
  rg_end : 0 ≤ sh_end m < 2 ^ 47 ∧ sh_end m mod PAGE_SIZE = 0;
  rg_apart : ∀ va, sh_has m va → ¬ in_window window_end va
}.

Record config_ok (st : MemoryState) : Prop := {
  cf_window : PHYS_WINDOW_START ≤ phys_window_end st < 2 ^ 47 ∧ phys_window_end st mod TWO_MIB = 0;
  cf_slots : length (shared_kernel_mappings st) = MAX_SHARED_KERNEL_MAPPINGS;
  cf_count : (shared_kernel_mapping_count st ≤ MAX_SHARED_KERNEL_MAPPINGS)%nat;
  cf_extras : Forall (range_ok (phys_window_end st)) (extra_ranges st)
}.

(** * Lemmas *)

Lemma range_beside window_end m :
  sh_end m ≤ PHYS_WINDOW_START ∨ window_end ≤ sh_start m → ∀ va, sh_has m va → ¬ in_window window_end va.
Proof. unfold sh_has, in_window. lia. Qed.

Lemma sh_flags_ok m :
  is_flags (sh_flags m) ∧ has (sh_flags m) PAGE_PRESENT = true ∧
  has (sh_flags m) PAGE_USER = false ∧ has (sh_flags m) PAGE_WRITABLE = sh_writable m.
Proof. unfold sh_flags. destruct (sh_writable m); (split; [apply is_flags_small; split; by vm_compute|done]). Qed.

Lemma kernel_leaf_snoc window_end l m va :
  kernel_leaf window_end (l ++ [m]) va = range_leaf va (kernel_leaf window_end l va) m.
Proof. unfold kernel_leaf. by rewrite foldl_app. Qed.

(** Ranges apart from the window are never below a large page. *)
Lemma kernel_leaf_outside window_end l va e :
  ¬ in_window window_end va → kernel_leaf window_end l va ≠ Some (1%nat, e).
Proof.
  intros Hw. induction l as [|m l IH] using rev_ind.
  - unfold kernel_leaf, window_leaf. cbn. rewrite decide_False by done. done.
  - rewrite kernel_leaf_snoc. unfold range_leaf. by case_decide.
Qed.

Lemma large_frame va :
  is_low va → is_frame (va / TWO_MIB * TWO_MIB).
Proof.
  intros Hva. apply (low_frame _ 21); [|lia|by apply Z.mod_mul].
  unfold is_low, TWO_MIB in *. change (2 * 1024 * 1024) with 2097152. Z.div_mod_to_equations. lia.
Qed.

Lemma page_frame va : is_low va → is_frame (page_base va).
Proof.
  intros Hva. pose proof (page_base_bounds va). split; [|apply page_base_mod].
  unfold is_low, page_base, PAGE_SIZE in *. Z.div_mod_to_equations. lia.
Qed.

Lemma kernel_leaf_translation window_end l va :
  is_low va →
  (λ '(level, e), decode level e va) <$> kernel_leaf window_end l va = kernel_translation window_end l va.
Proof.
  intros Hva. unfold kernel_leaf, kernel_translation.
  assert ((λ '(level, e), decode level e va) <$> window_leaf window_end va =
    if decide (PHYS_WINDOW_START ≤ va < window_end) then Some (mkTranslation va false true) else None) as Hw.
  { unfold window_leaf. case_decide; [|done]. cbn [fmap option_fmap option_map]. f_equal.
    unfold decode. pose proof (large_frame va Hva) as Hf.
    rewrite entry_address, (entry_has _ _ PAGE_USER), (entry_has _ _ PAGE_WRITABLE) by auto.
    change (span 1) with TWO_MIB. f_equal. unfold TWO_MIB. change (2 * 1024 * 1024) with 2097152. Z.div_mod_to_equations. lia. }
  revert Hw. generalize (window_leaf window_end va).
  generalize (if decide (PHYS_WINDOW_START ≤ va < window_end) then Some (mkTranslation va false true) else None).
  induction l as [|m l IH]; intros o1 o2 Ho; [done|]. cbn [foldl]. apply IH.
  unfold range_leaf, range_translation. case_decide; [|done]. cbn [fmap option_fmap option_map]. f_equal.
  destruct (sh_flags_ok m) as (Hf & _ & Hu & Hw). pose proof (page_frame va Hva).
  rewrite decode_page, Hu, Hw by done. f_equal. unfold page_base, PAGE_SIZE. Z.div_mod_to_equations. lia.
Qed.

Lemma align_page_id x : 0 ≤ x < 2 ^ 47 → x mod PAGE_SIZE = 0 → align_down x PAGE_SIZE = x ∧ align_up x PAGE_SIZE = x.
Proof.
  intros Hx Hm. unfold PAGE_SIZE in *. change 4096 with (2 ^ 12) in *.
  rewrite align_down_pow2, align_up_pow2 by (unfold is_u64; lia). change (2 ^ 12) with 4096 in *.
  Z.div_mod_to_equations. lia.
Qed.

Lemma untracked_after lost s s' : accounts lost s s' → owned s = None → owned s' = None.
Proof. intros [Ht _] Ho. unfold tracks in Ht. rewrite Ho in Ht. by destruct (owned s'). Qed.

(** The kernel part of an address space, up to some of its ranges. *)
Definition kernel_part (window_end : Z) (l : list SharedKernelMapping) (T : Tables) (root : Z)
    (s : Store) (T' : Tables) (s' : Store) : Prop :=
  step T T' root s s' ∧ accounts [] s s' ∧
  ∀ va, is_low va → leaf (memory s') root va = kernel_leaf window_end l va.

Lemma kernel_part_next window_end l m T root s T1 s1 :
  kernel_part window_end l T root s T1 s1 → range_ok window_end m →
  match map_identity_4k_range root s1 (sh_start m) (sh_end m) (sh_flags m) with
  | Ok s2 => ∃ T2, kernel_part window_end (l ++ [m]) T root s T2 s2
  | Err (e, s2) => stopped T root s e s2
  | Panic | Hang => False
  end.
Proof.
  intros (Hst & Ha & Hleaf) [[Hs Hsm] [He Hem] Hap]. destruct (sh_flags_ok m) as (Hf & Hp & _ & _).
  pose proof (map_identity_4k_spec T1 root s1 (sh_start m) (sh_end m) (sh_flags m)
    (st_ok _ _ _ _ _ Hst) Hs He Hf Hp) as H. cbv zeta in H.
  rewrite (proj1 (align_page_id _ Hs Hsm)), (proj2 (align_page_id _ He Hem)) in H.
  lapply H; [clear H; intros H|].
  2: { intros va Hva e. rewrite Hleaf by (unfold is_low; lia). apply kernel_leaf_outside.
       by apply Hap. }
  destruct (map_identity_4k_range _ _ _ _ _) as [s2|[e s2]| |]; try done.
  - destruct H as (T2 & Hst2 & Ha2 & Hleaf2). exists T2.
    split_and!; [by eapply step_trans|by apply (accounts_trans [] [] s s1)|].
    intros va Hva. rewrite Hleaf2, Hleaf, kernel_leaf_snoc by done. done.
  - by eapply stopped_after, proj1.
Qed.

Lemma window_aligned window_end :
  PHYS_WINDOW_START ≤ window_end < 2 ^ 47 → window_end mod TWO_MIB = 0 →
  align_down PHYS_WINDOW_START TWO_MIB = PHYS_WINDOW_START ∧ align_up window_end TWO_MIB = window_end.
Proof.
  intros Hw Hm. split; [done|]. unfold TWO_MIB in *. change (2 * 1024 * 1024) with (2 ^ 21) in *.
  rewrite align_up_pow2 by (unfold is_u64, PHYS_WINDOW_START in *; lia).
  change (2 ^ 21) with 2097152 in *. Z.div_mod_to_equations. lia.
Qed.

(** The window, on the tables of an empty address space. *)
Lemma kernel_part_window window_end root s :
  tables_ok {[ [] := root ]} root s → (∀ va, leaf (memory s) root va = None) →
  PHYS_WINDOW_START ≤ window_end < 2 ^ 47 → window_end mod TWO_MIB = 0 →
  match map_identity_2m_range root s PHYS_WINDOW_START window_end (Z.lor PAGE_PRESENT PAGE_WRITABLE) with
  | Ok s1 => ∃ T1, kernel_part window_end [] {[ [] := root ]} root s T1 s1
  | Err (e, s1) => stopped {[ [] := root ]} root s e s1
  | Panic | Hang => False
  end.
Proof.
  intros Hok Hl Hw Hm. destruct (window_aligned _ Hw Hm) as [E1 E2].
  pose proof (map_identity_2m_spec {[ [] := root ]} root s PHYS_WINDOW_START window_end
    (Z.lor PAGE_PRESENT PAGE_WRITABLE) Hok ltac:(unfold PHYS_WINDOW_START; lia)
    ltac:(unfold PHYS_WINDOW_START in *; lia) ltac:(auto) eq_refl) as H.
  cbv zeta in H. rewrite E1, E2 in H. lapply H; [clear H; intros H|].
  2: { intros p t [<- _]%lookup_singleton_Some. cbn. lia. }
  destruct (map_identity_2m_range _ _ _ _ _) as [s1|[e s1]| |]; try done; [|exact (proj1 H)].
  destruct H as (T1 & (Hst & Ha & Hleaf) & _). exists T1. split_and!; try done.
  intros va Hva. rewrite Hleaf, Hl by done. done.
Qed.

Lemma replay_spec window_end l0 st T root s T0 s0 :
  kernel_part window_end l0 T root s T0 s0 →
  length (shared_kernel_mappings st) = MAX_SHARED_KERNEL_MAPPINGS →
  (shared_kernel_mapping_count st ≤ MAX_SHARED_KERNEL_MAPPINGS)%nat →
  Forall (range_ok window_end) (take (shared_kernel_mapping_count st) (shared_kernel_mappings st)) →
  match replay_shared_kernel_mappings st root s0 with
  | Ok s2 => ∃ T2, kernel_part window_end
      (l0 ++ take (shared_kernel_mapping_count st) (shared_kernel_mappings st)) T root s T2 s2
  | Err (e, s2) => stopped T root s e s2
  | Panic | Hang => False
  end.
Proof.
  intros H0 Hlen Hcnt Hf. unfold replay_shared_kernel_mappings.
  set (n := shared_kernel_mapping_count st) in *. set (ms := shared_kernel_mappings st) in *.
  apply (while_rule
    (λ '(i, s1), (i ≤ n)%nat ∧ ∃ T1, kernel_part window_end (l0 ++ take i ms) T root s T1 s1)
    (λ '(i, _), n - i)%nat
    (λ o, match o with
          | Ok s2 => ∃ T2, kernel_part window_end (l0 ++ take n ms) T root s T2 s2
          | Err (e, s2) => stopped T root s e s2
          | Panic | Hang => False end)); [| |lia].
  2: { split; [lia|]. exists T0. by rewrite take_0, app_nil_r. }
  intros [i s1] (Hi & T1 & H1). case_decide as Hlt.
  - destruct (lookup_lt_is_Some_2 ms i) as [m Hm]; [lia|].
    rewrite (get_at_Ok _ _ _ Hm). cbn [mbind outcome_bind].
    assert (range_ok window_end m) as Hr.
    { rewrite Forall_lookup in Hf. apply (Hf i). by rewrite lookup_take_lt by lia. }
    pose proof (kernel_part_next _ _ m _ _ _ _ _ H1 Hr) as H2.
    destruct (map_identity_4k_range _ _ _ _ _) as [s2|[e s2]| |]; cbn [mbind outcome_bind]; try done.
    destruct H2 as (T2 & H2). split; [|lia]. split; [lia|]. exists T2.
    by rewrite (take_S_r _ _ _ Hm), app_assoc.
  - assert (i = n) as -> by lia. by exists T1.
Qed.

(** [map_shared_kernel_context] on a fresh root. *)
Lemma shared_context_spec st root s :
  config_ok st → tables_ok {[ [] := root ]} root s → (∀ va, leaf (memory s) root va = None) →
  match map_shared_kernel_context st root s with
  | Ok s' => ∃ T', kernel_part (phys_window_end st) (extra_ranges st) {[ [] := root ]} root s T' s'
  | Err (e, s') => stopped {[ [] := root ]} root s e s'
  | Panic | Hang => False
  end.
Proof.
  intros [[Hw Hwm] Hlen Hcnt Hf] Hok Hl. unfold map_shared_kernel_context.
  apply Forall_app in Hf as [Hfb Hsh].
  pose proof (kernel_part_window _ root s Hok Hl Hw Hwm) as H1.
  destruct (map_identity_2m_range _ _ _ _ _) as [s1|[e s1]| |]; cbn [mbind outcome_bind]; try done.
  destruct H1 as (T1 & H1). unfold extra_ranges. unfold framebuffer_range in *. case_decide as Hd.
  - apply Forall_cons in Hfb as [Hfb _]. pose proof (kernel_part_next _ _ _ _ _ _ _ _ H1 Hfb) as H2.
    cbn [sh_start sh_end sh_writable] in H2.
    change (sh_flags (mkShared (framebuffer_start st) (framebuffer_end st) true))
      with (Z.lor PAGE_PRESENT PAGE_WRITABLE) in H2.
    destruct (map_identity_4k_range _ _ _ _ _) as [s2|[e s2]| |]; cbn [mbind outcome_bind]; try done.
    destruct H2 as (T2 & H2). by apply (replay_spec _ _ st _ _ _ T2).
  - cbn [mbind outcome_bind]. by apply (replay_spec _ [] st _ _ _ T1).
Qed.

Lemma kernel_part_translate window_end l T root s T' s' va :
  kernel_part window_end l T root s T' s' → is_low va →
  translate (memory s') root va = kernel_translation window_end l va.
Proof.
  intros (Hst & _ & Hleaf) Hva. rewrite (translate_leaf (st_ok _ _ _ _ _ Hst)), Hleaf by done.
  by apply kernel_leaf_translation.
Qed.

(** ** The memory map *)

(** A firmware region: whole pages, far from the end of the address space. *)
Record region_fits (r : MemoryRegion) : Prop := {
  rf_start : 0 ≤ mr_start r ∧ mr_start r mod PAGE_SIZE = 0;
  rf_count : 0 ≤ mr_page_count r;
  rf_end : mr_start r + mr_page_count r * PAGE_SIZE ≤ 2 ^ 46
}.

(** The memory the kernel may use. *)
Definition usable_in (regions : list MemoryRegion) (x : Z) : Prop :=
  ∃ r, r ∈ regions ∧ mr_kind r = Usable ∧ PHYS_WINDOW_START ≤ x ∧
    mr_start r ≤ x < mr_start r + mr_page_count r * PAGE_SIZE.

Lemma usable_snoc l r x :
  usable_in (l ++ [r]) x ↔ usable_in l x ∨ usable_in [r] x.
Proof.
  unfold usable_in. setoid_rewrite elem_of_app. naive_solver.
Qed.

Lemma usable_one r x :
  usable_in [r] x ↔ mr_kind r = Usable ∧ PHYS_WINDOW_START ≤ x ∧
    mr_start r ≤ x < mr_start r + mr_page_count r * PAGE_SIZE.
Proof. unfold usable_in. setoid_rewrite list_elem_of_singleton. naive_solver. Qed.

(** The allocator after some of the regions. *)
Record collected (l : list MemoryRegion) (a : PhysicalAllocator) (highest : Z) : Prop := {
  co_ok : alloc_ok a;
  co_count : (count a ≤ length l)%nat;
  co_free : ∀ x, free a x ↔ usable_in l x;
  co_below : ∀ x, usable_in l x → x < highest;
  co_reached : highest = 0 ∨ PHYS_WINDOW_START < highest ∧ usable_in l (highest - 1);
  co_highest : 0 ≤ highest ≤ 2 ^ 46 ∧ highest mod PAGE_SIZE = 0
}.

Lemma add_usable_spec l a highest r :
  collected l a highest → region_fits r → (length l < MAX_FREE_RANGES)%nat →
  ∃ a' highest', add_usable (a, highest) r = Ok (a', highest') ∧ collected (l ++ [r]) a' highest'.
Proof.
  intros Hco [[Hs Hsm] Hc He] Hl. pose proof Hco as [Hok Hcnt Hf Hb Hre [Hh Hhm]]. unfold add_usable.
  set (e := mr_start r + mr_page_count r * PAGE_SIZE) in *.
  assert (e mod PAGE_SIZE = 0) as Hem
    by (unfold e; rewrite Z.add_mod, Hsm, Z.mod_mul by done; done).
  assert (∀ P : Prop, (∀ x, ¬ usable_in [r] x) → (∃ a' h', Ok (E:=MemoryError) (a, highest) = Ok (a', h') ∧
    collected (l ++ [r]) a' h')) as Hskip.
  { intros _ Hn. exists a, highest. split; [done|]. split; try done.
    - rewrite length_app. lia.
    - intros x. rewrite usable_snoc, Hf. specialize (Hn x). tauto.
    - intros x [?|?]%usable_snoc; [by apply Hb|]. by destruct (Hn x).
    - destruct Hre as [?|[? ?]]; [by left|right]. split; [done|]. apply usable_snoc. by left. }
  case_decide as Hk; [apply (Hskip True); intros x (? & _)%usable_one; done|].
  unfold saturating_mul, checked_mul.
  assert (mr_page_count r * PAGE_SIZE < 2 ^ 64) by (unfold e in He; lia).
  rewrite decide_True by done. cbn [from_option id].
  unfold checked_add. rewrite decide_True by (fold e; lia). fold e. cbn [expect mbind outcome_bind].
  assert (align_down e PAGE_SIZE = e) as ->
    by (apply align_page_id; [unfold e, PAGE_SIZE in *; lia|done]).
  case_decide as Hlow.
  { apply (Hskip True). intros x (_ & ? & ?)%usable_one. unfold e in Hlow. lia. }
  assert (mr_kind r = Usable) as Hkind by (by destruct (decide (mr_kind r = Usable))).
  destruct (insert_range_room a (Z.max (mr_start r) PHYS_WINDOW_START) e Hok) as
    (a' & Hins & Hok' & Hc' & Hf'); [unfold PHYS_WINDOW_START; lia|lia|lia|lia|].
  unfold add_region. rewrite Hins. cbn [mbind outcome_bind]. eexists a', _. split; [done|].
  assert (∀ x, usable_in (l ++ [r]) x ↔ usable_in l x ∨ Z.max (mr_start r) PHYS_WINDOW_START ≤ x < e) as Hu.
  { intros x. rewrite usable_snoc, usable_one. fold e. split; [|]; intros [?|?]; try (by left); right;
      [lia|]. split; [done|lia]. }
  split; try done.
  - rewrite length_app. cbn. lia.
  - intros x. rewrite Hf', Hu, Hf. tauto.
  - intros x [Hx|Hx]%Hu; [specialize (Hb x Hx)|]; case_decide; lia.
  - right. case_decide; [split; [lia|apply Hu; right; lia]|].
    destruct Hre as [->|[? ?]]; [unfold PHYS_WINDOW_START in *; lia|]. split; [done|]. apply Hu. by left.
  - case_decide; (split; [unfold PHYS_WINDOW_START in *; lia|done]).
Qed.

Lemma for_each_usable regions l a highest :
  collected l a highest → Forall region_fits regions →
  (length l + length regions ≤ MAX_FREE_RANGES)%nat →
  ∃ a' highest', for_each add_usable (a, highest) regions = Ok (a', highest') ∧
    collected (l ++ regions) a' highest'.
Proof.
  revert l a highest. induction regions as [|r regions IH]; intros l a highest Hco Hf Hl.
  - exists a, highest. by rewrite app_nil_r.
  - apply Forall_cons in Hf as [Hr Hf]. cbn [length] in Hl.
    destruct (add_usable_spec l a highest r Hco Hr) as (a1 & h1 & He & Hco1); [lia|].
    cbn [for_each]. rewrite He. cbn [mbind outcome_bind].
    destruct (IH (l ++ [r]) a1 h1 Hco1 Hf) as (a2 & h2 & He2 & Hco2).
    { rewrite length_app. cbn. lia. }
    exists a2, h2. rewrite He2. split; [done|]. by rewrite <-app_assoc in Hco2.
Qed.

Definition in_image (kernel_image : option (Z * Z)) (x : Z) : Prop :=
  match kernel_image with Some (s, e) => s ≤ x < e | None => False end.
Definition image_fits (kernel_image : option (Z * Z)) : Prop :=
  match kernel_image with Some (s, e) => s mod PAGE_SIZE = 0 ∧ e mod PAGE_SIZE = 0 | None => True end.

Lemma aligned_le s x : s mod PAGE_SIZE = 0 → s ≤ x ↔ s ≤ page_base x.
Proof.
  intros Hs. pose proof (page_base_bounds x) as Hb. pose proof (page_base_mod x) as Hm.
  revert Hb Hm Hs. generalize (page_base x). unfold PAGE_SIZE. intros b ? ? ?.
  Z.div_mod_to_equations. lia.
Qed.

Lemma aligned_lt e x : e mod PAGE_SIZE = 0 → x < e ↔ page_base x < e.
Proof. intros He. pose proof (aligned_le e x He). lia. Qed.

Lemma usable_granular regions x :
  Forall region_fits regions → usable_in regions x ↔ usable_in regions (page_base x).
Proof.
  intros Hf. unfold usable_in. apply exist_proper. intros r.
  destruct (decide (r ∈ regions)) as [Hr|]; [|tauto].
  rewrite Forall_forall in Hf. destruct (Hf r Hr) as [[? Hm] ? ?].
  assert ((mr_start r + mr_page_count r * PAGE_SIZE) mod PAGE_SIZE = 0) as He
    by (by rewrite Z.add_mod, Hm, Z.mod_mul by done).
  by rewrite (aligned_le PHYS_WINDOW_START x), (aligned_le _ x Hm), (aligned_lt _ x He) by done.
Qed.

Lemma image_granular kernel_image x :
  image_fits kernel_image → in_image kernel_image x ↔ in_image kernel_image (page_base x).
Proof.
  destruct kernel_image as [[s e]|]; cbn; [|done]. intros [Hs He].
  by rewrite (aligned_le s x Hs), (aligned_lt e x He).
Qed.

Lemma initialize_allocator_spec kernel_image regions :
  Forall region_fits regions → (length regions < MAX_FREE_RANGES)%nat → image_fits kernel_image →
  match initialize_allocator kernel_image regions with
  | Ok (a, w) => paged (2 ^ 52) a ∧ (∀ x, free a x ↔ usable_in regions x ∧ ¬ in_image kernel_image x) ∧
      (∀ x, usable_in regions x → in_window w x) ∧
      PHYS_WINDOW_START ≤ w < 2 ^ 47 ∧ w mod TWO_MIB = 0
  | Err e => e = NoUsableMemory ∧ ∀ x, ¬ usable_in regions x
  | Panic | Hang => False
  end.
Proof.
  intros Hr Hlen Him. unfold initialize_allocator.
  assert (collected [] PhysicalAllocator_new 0) as H0.
  { assert (∀ x, ¬ usable_in [] x) as Hn by (intros x (r & Hx & _); by apply not_elem_of_nil in Hx).
    split; [apply allocator_new_ok|done| | |by left|done].
    - intros x. split; [by intros ?%covers_nil|]. intros Hx. by destruct (Hn x).
    - intros x Hx. by destruct (Hn x). }
  destruct (for_each_usable regions [] _ _ H0 Hr ltac:(cbn; lia)) as (a & h & -> & [Hok Hc Hf Hb Hre [Hh Hhm]]).
  cbn [app mbind outcome_bind] in *. case_decide as Hlow.
  { split; [done|]. intros x Hx. specialize (Hb x Hx). destruct Hx as (r & _ & _ & ? & _). lia. }
  assert (∃ a', match kernel_image with Some (s, e) => reserve_range a s e | None => Ok a end = Ok a' ∧
    alloc_ok a' ∧ ∀ x, free a' x ↔ free a x ∧ ¬ in_image kernel_image x) as (a' & -> & Hok' & Hf').
  { destruct kernel_image as [[s e]|]; [apply reserve_range_room; [done|lia]|].
    exists a. split_and!; try done. intros x. cbn. tauto. }
  cbn [mbind outcome_bind].
  assert (h ≤ align_up h TWO_MIB < h + TWO_MIB ∧ align_up h TWO_MIB mod TWO_MIB = 0) as [Hw Hwm].
  { unfold TWO_MIB. change (2 * 1024 * 1024) with (2 ^ 21). rewrite align_up_pow2 by (unfold is_u64; lia).
    change (2 ^ 21) with 2097152. split; [|by apply Z.mod_mul]. Z.div_mod_to_equations. lia. }
  assert (∀ x, free a' x ↔ usable_in regions x ∧ ¬ in_image kernel_image x) as Hfx
    by (intros x; by rewrite Hf', Hf).
  split_and!; try done; [|intros x Hx; specialize (Hb x Hx); destruct Hx as (r & _ & _ & ? & _);
    unfold in_window; lia|unfold TWO_MIB in *; lia..].
  split; [done| |].
  - intros x. rewrite !Hfx, (usable_granular regions x Hr), (image_granular _ x Him). done.
  - intros x [Hx _]%Hfx. specialize (Hb x Hx). lia.
Qed.

(** ** Initialisation *)

(** The framebuffer's pages lie apart from the window or inside it. *)
Record framebuffer_fits (window_end : Z) (fb : FramebufferInfo) : Prop := {
  ff_base : PAGE_SIZE ≤ fb_base fb;
  ff_size : 0 ≤ fb_size fb;
  ff_end : fb_base fb + fb_size fb ≤ 2 ^ 46;
  ff_place :
    let s := align_down (fb_base fb) PAGE_SIZE in
    let e := align_up (fb_base fb + fb_size fb) PAGE_SIZE in
    e ≤ PHYS_WINDOW_START ∨ window_end ≤ s ∨ PHYS_WINDOW_START ≤ s ∧ e ≤ window_end
}.

Lemma framebuffer_pages w fb :
  framebuffer_fits w fb →
  let s := align_down (fb_base fb) PAGE_SIZE in
  let e := align_up (fb_base fb + fb_size fb) PAGE_SIZE in
  0 < s < 2 ^ 47 ∧ s mod PAGE_SIZE = 0 ∧ 0 ≤ e < 2 ^ 47 ∧ e mod PAGE_SIZE = 0.
Proof.
  intros [Hb Hs He _]. cbv zeta. unfold PAGE_SIZE in *. change 4096 with (2 ^ 12) in *.
  rewrite align_down_pow2, align_up_pow2 by (unfold is_u64; lia). change (2 ^ 12) with 4096 in *.
  split_and!; try (by apply Z.mod_mul); Z.div_mod_to_equations; lia.
Qed.

(** What the kernel's memory state promises once it is initialised. *)
Record initialised (kernel_image : option (Z * Z)) (m : Memory) (regions : list MemoryRegion)
    (st : MemoryState) (root : Z) : Prop := {
  in_space : kernel_space st = Some (mkSpace root);
  in_owned : owned (store st) = None;
  in_config : config_ok st;
  in_tables_ok : ∃ T, tables_ok T root (store st) ∧ (∀ x, in_tables T x → usable_in regions x) ∧
    ∀ va, is_low va → leaf (memory (store st)) root va = kernel_leaf (phys_window_end st) (extra_ranges st) va;
  in_rest : ∀ x, ¬ usable_in regions x → memory (store st) x = m x;
  in_free : ∀ x, free_in (store st) x → usable_in regions x ∧ ¬ in_image kernel_image x ∧
    in_window (phys_window_end st) x;
  in_translate : ∀ va, is_low va → translate (memory (store st)) root va =
    kernel_translation (phys_window_end st) (extra_ranges st) va
}.

Lemma init_tail kernel_image m regions root s s0 s1 T w fb st :
  framebuffer_fits w fb → PHYS_WINDOW_START ≤ w < 2 ^ 47 → w mod TWO_MIB = 0 →
  (∀ x, free_in s x → usable_in regions x ∧ ¬ in_image kernel_image x ∧ in_window w x) →
  memory s = m → owned s = None → without root s s0 →
  st = mkMemoryState s1 (Some (mkSpace root)) w (align_down (fb_base fb) PAGE_SIZE)
    (align_up (fb_base fb + fb_size fb) PAGE_SIZE)
    (replicate MAX_SHARED_KERNEL_MAPPINGS (mkShared 0 0 false)) 0 →
  kernel_part w (extra_ranges st) {[ [] := root ]} root s0 T s1 →
  initialised kernel_image m regions st root.
Proof.
  intros Hfb Hw Hwm Hf Hm Ho Hwo -> Hk. pose proof Hk as (Hst & _ & _).
  assert (∀ x, free_in s0 x → free_in s x) as Hf0 by (intros x Hx; by apply (wo_free _ _ _ Hwo) in Hx as [? _]).
  assert (∀ x, in_tables {[ [] := root ]} x → free_in s x) as Hroot.
  { intros x (p & t & [_ <-]%lookup_singleton_Some & Hx). by apply (wo_was _ _ _ Hwo). }
  split; cbn [kernel_space store phys_window_end].
  - done.
  - eapply untracked_after; [apply Hk|]. pose proof (wo_tracks _ _ _ Hwo) as Htr. unfold tracks in Htr. rewrite Ho in Htr.
    by destruct (owned s0).
  - destruct (framebuffer_pages w fb Hfb) as (Hs & Hsm & He & Hem). split; cbn; [done|done|lia|].
    unfold extra_ranges, framebuffer_range. cbn. rewrite app_nil_r. case_decide as Hd; [|done].
    apply Forall_cons. split; [|done]. split; cbn; [lia|done|]. apply range_beside. cbn.
    pose proof (ff_place _ _ Hfb). cbv zeta in *. lia.
  - exists T. split_and!; [by eapply st_ok| |apply Hk]. intros x [Hx|Hx]%(st_new _ _ _ _ _ Hst); apply Hf; [by apply Hroot|by apply Hf0].
  - intros x Hx. rewrite (st_memory _ _ _ _ _ Hst), (without_memory root s), Hm; [done|done|..].
    + intros ?. by apply Hx, Hf.
    + intros ?%Hroot. by apply Hx, Hf.
    + intros ?%Hf0. by apply Hx, Hf.
  - intros x Hx. apply Hf, Hf0. by eapply st_free.
  - intros va Hva. by eapply kernel_part_translate.
Qed.

Lemma init_spec kernel_image m boot_info :
  Forall region_fits (memory_regions boot_info) →
  (length (memory_regions boot_info) < MAX_FREE_RANGES)%nat → image_fits kernel_image →
  (∀ a w, initialize_allocator kernel_image (memory_regions boot_info) = Ok (a, w) →
     framebuffer_fits w (framebuffer boot_info)) →
  match init kernel_image (MemoryState_new m) boot_info with
  | Ok (st, root) => initialised kernel_image m (memory_regions boot_info) st root
  | Err e => e = NoUsableMemory ∧ (∀ x, ¬ usable_in (memory_regions boot_info) x) ∨
      e = AllocatorExhausted
  | Panic | Hang => False
  end.
Proof.
  intros Hr Hlen Him Hfb. unfold init. change (memory (store (MemoryState_new m))) with m.
  change (shared_kernel_mappings (MemoryState_new m)) with (replicate MAX_SHARED_KERNEL_MAPPINGS (mkShared 0 0 false)).
  pose proof (initialize_allocator_spec kernel_image _ Hr Hlen Him) as Ha.
  destruct (initialize_allocator kernel_image (memory_regions boot_info)) as [[a w]|e| |];
    cbn [mbind outcome_bind]; try done; [|by left].
  destruct Ha as (Hp & Hf & Hin & Hw & Hwm). specialize (Hfb a w eq_refl).
  pose proof (take_page_spec (mkStore a m None) Hp) as Ht.
  destruct (take_page (mkStore a m None)) as [[root s0]|[e s0]| |]; cbn [drop_state map_err mbind outcome_bind];
    try done; [|by right; destruct Ht].
  destruct Ht as [Hwo Ho]. destruct (fresh_root _ _ _ Hwo) as [Hok Hl].
  set (s := mkStore a m None) in *.
  assert (∀ x, free_in s x → usable_in (memory_regions boot_info) x ∧ ¬ in_image kernel_image x ∧ in_window w x) as Hf0.
  { intros x Hx. apply Hf in Hx as [? ?]. split_and!; [done..|by apply Hin]. }
  assert (∀ e s1, stopped {[ [] := root ]} root s0 e s1 → e = AllocatorExhausted) as Herr.
  { intros e s1 (T' & lost & _ & _ & [[? _]|(_ & Htr & _)]); [done|]. unfold tracks in Htr. by rewrite Ho in Htr. }
  pose proof (kernel_part_window w root s0 Hok Hl Hw Hwm) as H1.
  destruct (map_identity_2m_range _ _ _ _ _) as [s1|[e s1]| |]; cbn [drop_state map_err mbind outcome_bind];
    try done; [|right; cbn; by eapply Herr].
  destruct H1 as (T1 & H1). unfold checked_add. rewrite decide_True by (destruct Hfb; lia).
  cbn [expect mbind outcome_bind]. destruct (framebuffer_pages _ _ Hfb) as (Hs & Hsm & He & Hem).
  set (fs := align_down _ _) in *. set (fe := align_up _ _) in *.
  assert (∀ s2, extra_ranges (mkMemoryState s2 (Some (mkSpace root)) w fs fe
      (replicate MAX_SHARED_KERNEL_MAPPINGS (mkShared 0 0 false)) 0) =
    if decide (fs < PHYS_WINDOW_START ∨ w < fe) then [mkShared fs fe true] else []) as Hx.
  { intros s2. unfold extra_ranges, framebuffer_range. cbn. rewrite app_nil_r.
    repeat case_decide; try done; exfalso; lia. }
  case_decide as Hd.
  - assert (range_ok w (mkShared fs fe true)) as Hrg.
    { split; [cbn; lia|done|]. apply range_beside. cbn. pose proof (ff_place _ _ Hfb) as Hpl. cbv zeta in Hpl. fold fs fe in Hpl. lia. }
    pose proof (kernel_part_next _ _ _ _ _ _ _ _ H1 Hrg) as H2. cbn [sh_start sh_end] in H2.
    change (sh_flags (mkShared fs fe true)) with (Z.lor PAGE_PRESENT PAGE_WRITABLE) in H2.
    destruct (map_identity_4k_range _ _ _ _ _) as [s2|[e s2]| |]; cbn [drop_state map_err mbind outcome_bind];
      try done; [|right; cbn; by eapply Herr].
    destruct H2 as (T2 & H2).
    apply (init_tail _ m _ root s s0 s2 T2 w (framebuffer boot_info) _ Hfb Hw Hwm Hf0 eq_refl eq_refl Hwo eq_refl).
    fold fs fe. by rewrite Hx.
  - cbn [mbind outcome_bind].
    apply (init_tail _ m _ root s s0 s1 T1 w (framebuffer boot_info) _ Hfb Hw Hwm Hf0 eq_refl eq_refl Hwo eq_refl).
    fold fs fe. by rewrite Hx.
Qed.

(** Memory the allocator hands out is mapped where it lies. *)
(** Recording a range: it is there already, or it comes last. *)
Lemma record_spec st start end_ writable :
  length (shared_kernel_mappings st) = MAX_SHARED_KERNEL_MAPPINGS →
  (shared_kernel_mapping_count st ≤ MAX_SHARED_KERNEL_MAPPINGS)%nat →
  match record_shared_kernel_mapping st start end_ writable with
  | Ok st' => ∃ l n, st' = with_shared l n st ∧ length l = MAX_SHARED_KERNEL_MAPPINGS ∧ (n ≤ MAX_SHARED_KERNEL_MAPPINGS)%nat ∧
      (take n l = take (shared_kernel_mapping_count st) (shared_kernel_mappings st) ∨
       take n l = take (shared_kernel_mapping_count st) (shared_kernel_mappings st) ++
         [mkShared (align_down start PAGE_SIZE) (align_up end_ PAGE_SIZE) writable])
  | Err e => e = SharedKernelMappingCapacityExceeded
  | Panic | Hang => False
  end.
Proof.
  intros Hl Hc. unfold record_shared_kernel_mapping. cbv zeta.
  set (s := align_down start PAGE_SIZE). set (e := align_up end_ PAGE_SIZE).
  assert (st = with_shared (shared_kernel_mappings st) (shared_kernel_mapping_count st) st) as Hsame by (by destruct st).
  case_decide as Hse; [eexists _, _; split_and!; [exact Hsame|done|done|by left]|].
  match goal with |- context [while ?n ?f ?x] => assert (∃ b, while n f x = Ok b) as [b ->] end.
  { apply (while_rule (λ _, True) (λ i, shared_kernel_mapping_count st - i)%nat (λ o, ∃ b, o = Ok b)); [|done|lia].
    intros i _. case_decide as Hi; [|by eexists].
    destruct (lookup_lt_is_Some_2 (shared_kernel_mappings st) i) as [x Hx]; [lia|].
    rewrite (get_at_Ok _ _ _ Hx). cbn [mbind outcome_bind]. case_decide; [by eexists|split; [done|lia]]. }
  cbn [mbind outcome_bind]. destruct b; [eexists _, _; split_and!; [exact Hsame|done|done|by left]|].
  case_decide as Hfull; [done|]. rewrite set_at_Ok by lia. cbn [mbind outcome_bind]. eexists _, _. split_and!; [done| |lia|].
  - by rewrite length_insert.
  - right. rewrite Nat.add_1_r. apply take_insert_S. lia.
Qed.

(** ** The running kernel

    What stays true of the kernel's memory while it maps more of it: its tables
    lie in usable memory, and no large page lies outside of the window. *)
Record established (regions : list MemoryRegion) (root : Z) (st : MemoryState) : Prop := {
  es_space : kernel_space st = Some (mkSpace root);
  es_config : config_ok st;
  es_owned : owned (store st) = None;
  es_tables : ∃ T, tables_ok T root (store st) ∧ (∀ x, in_tables T x → usable_in regions x) ∧
    ∀ va, is_low va → ¬ in_window (phys_window_end st) va → not_large (store st) root va;
  es_free : ∀ x, free_in (store st) x → usable_in regions x
}.

Lemma initialised_established kernel_image m regions st root :
  initialised kernel_image m regions st root → established regions root st.
Proof.
  intros [Hsp Ho Hcf (T & Hok & Hin & Hleaf) _ Hf _]. split; [done|done|done| |by intros x [? _]%Hf].
  exists T. split_and!; [done|done|]. intros va Hva Hw e. rewrite Hleaf by done. by apply kernel_leaf_outside.
Qed.

(** [st'] is a later state: the window is the same, at most one range is new,
    and memory that is not usable keeps its bytes. *)
Record extends (regions : list MemoryRegion) (r : SharedKernelMapping) (st st' : MemoryState) : Prop := {
  xt_window : phys_window_end st' = phys_window_end st;
  xt_ranges : extra_ranges st' = extra_ranges st ∨ extra_ranges st' = extra_ranges st ++ [r];
  xt_memory : ∀ x, ¬ usable_in regions x → memory (store st') x = memory (store st) x
}.

Lemma mapped_partly T root s lo hi level entry T' s' :
  mapped_from T root s lo hi level entry T' s' → partly root s lo hi level entry s'.
Proof. intros (_ & _ & Hleaf) va Hva. rewrite Hleaf by done. case_decide; auto. Qed.

Lemma established_step regions root st T T' lost s' r entry l n :
  established regions root st → tables_ok T root (store st) → (∀ x, in_tables T x → usable_in regions x) →
  (∀ va, is_low va → ¬ in_window (phys_window_end st) va → not_large (store st) root va) →
  step T T' root (store st) s' → accounts lost (store st) s' →
  partly root (store st) (sh_start r) (sh_end r) 0 entry s' → range_ok (phys_window_end st) r →
  length l = MAX_SHARED_KERNEL_MAPPINGS → (n ≤ MAX_SHARED_KERNEL_MAPPINGS)%nat →
  take n l = take (shared_kernel_mapping_count st) (shared_kernel_mappings st) ∨
  take n l = take (shared_kernel_mapping_count st) (shared_kernel_mappings st) ++ [r] →
  let st' := with_shared l n (with_store s' st) in
  established regions root st' ∧ extends regions r st st'.
Proof.
  intros [Hsp [Hw Hs Hc Hx] Ho _ Hf] Hok Hin Hnl Hst Ha Hp Hr Hl Hn Ht st'.
  assert (extra_ranges st' = framebuffer_range st ++ take n l) as Hex by done.
  assert (extra_ranges st' = extra_ranges st ∨ extra_ranges st' = extra_ranges st ++ [r]) as Hex'.
  { rewrite Hex. unfold extra_ranges. destruct Ht as [-> | ->]; [by left|right; by rewrite app_assoc]. }
  split.
  - split; [done| |by eapply untracked_after| |].
    + split; [done|done|done|]. change (phys_window_end st') with (phys_window_end st).
      destruct Hex' as [-> | ->]; [done|]. apply Forall_app. split; [done|by constructor].
    + exists T'. split_and!; [by eapply st_ok| |].
      * intros x [?|?]%(st_new _ _ _ _ _ Hst); [by apply Hin|by apply Hf].
      * intros va Hva Hnw e. change (memory (store st')) with (memory s').
        destruct (Hp va Hva) as [-> |[_ ->]]; [by apply Hnl|done].
    + intros x Hfx. apply Hf. by eapply st_free.
  - split; [done|done|]. intros x Hux. apply (st_memory _ _ _ _ _ Hst); [by intros ?%Hin|by intros ?%Hf].
Qed.

(** The pages of a range, which the window does not touch. *)
Definition pages_of (start end_ : Z) (writable : bool) : SharedKernelMapping :=
  mkShared (align_down start PAGE_SIZE) (align_up end_ PAGE_SIZE) writable.

Lemma pages_of_bounds start end_ writable : 0 ≤ start < 2 ^ 47 → 0 ≤ end_ ≤ 2 ^ 46 →
  let r := pages_of start end_ writable in
  0 ≤ sh_start r ≤ start ∧ sh_start r mod PAGE_SIZE = 0 ∧ end_ ≤ sh_end r < end_ + PAGE_SIZE ∧ sh_end r mod PAGE_SIZE = 0 ∧
  start < sh_start r + PAGE_SIZE.
Proof.
  intros Hs He. cbn. unfold PAGE_SIZE. change 4096 with (2 ^ 12).
  rewrite align_down_pow2, align_up_pow2 by (unfold is_u64; lia). change (2 ^ 12) with 4096.
  split_and!; try (by apply Z.mod_mul); Z.div_mod_to_equations; lia.
Qed.

Lemma mapped_translate T T' root s s' r va : tables_ok T root s → is_low va →
  mapped_from T root s (sh_start r) (sh_end r) 0 (λ va, Z.lor (page_base va) (sh_flags r)) T' s' →
  translate (memory s') root va =
    if decide (sh_has r va) then Some (mkTranslation va false (sh_writable r)) else translate (memory s) root va.
Proof.
  intros Hok Hva (Hst & _ & Hleaf). specialize (Hleaf va Hva). unfold sh_has.
  destruct (decide (sh_start r ≤ va < sh_end r)) as [Hin|Hin].
  - rewrite (translate_leaf (st_ok _ _ _ _ _ Hst)), Hleaf. cbn [fmap option_fmap option_map].
    destruct (sh_flags_ok r) as (Hf & _ & Hu & Hw).
    rewrite decode_page, Hu, Hw by (try done; by apply page_frame). do 2 f_equal.
    unfold page_base, PAGE_SIZE. Z.div_mod_to_equations. lia.
  - by apply (same_leaves_translate T T'); [|eapply st_ok|].
Qed.

(** Extending the kernel's own space: the range is mapped to itself, and every
    address space that is built from now on has it as well. *)
Lemma map_kernel_identity_spec regions root st start end_ writable :
  let r := pages_of start end_ writable in
  established regions root st → 0 ≤ start < 2 ^ 47 → 0 ≤ end_ ≤ 2 ^ 46 →
  (∀ va, sh_has r va → ¬ in_window (phys_window_end st) va) →
  match map_kernel_identity_range st start end_ writable with
  | Ok (st', root') => root' = root ∧ established regions root st' ∧ extends regions r st st' ∧
      ∀ va, is_low va → translate (memory (store st')) root va =
        if decide (sh_has r va) then Some (mkTranslation va false writable) else translate (memory (store st)) root va
  | Err (e, st') => (e = AllocatorExhausted ∨ e = SharedKernelMappingCapacityExceeded) ∧
      established regions root st' ∧ extends regions r st st'
  | Panic | Hang => False
  end.
Proof.
  intros r Hest Hs He Hap. pose proof Hest as [Hsp [Hw Hl Hc _] Ho (T & Hok & Hin & Hnl) _].
  pose proof (pages_of_bounds start end_ writable Hs He) as Hb. cbv zeta in Hb. fold r in Hb.
  destruct Hb as (Hb1 & Hb2 & Hb3 & Hb4 & Hb5).
  assert (range_ok (phys_window_end st) r) as Hr by (split; [split; [lia|done]|split; [unfold PAGE_SIZE in Hb3; lia|done]|done]).
  unfold map_kernel_identity_range. rewrite Hsp. cbn [ok_or mbind outcome_bind root_paddr].
  change (Z.lor PAGE_PRESENT (if writable then PAGE_WRITABLE else 0)) with (sh_flags r).
  destruct (sh_flags_ok r) as (Hf & Hpr & _).
  pose proof (map_identity_4k_spec T root (store st) start end_ _ Hok Hs ltac:(lia) Hf Hpr) as H. cbv zeta in H.
  change (align_down start PAGE_SIZE) with (sh_start r) in H. change (align_up end_ PAGE_SIZE) with (sh_end r) in H.
  lapply H; [clear H; intros H|].
  2: { intros va Hva. apply Hnl; [unfold is_low, PAGE_SIZE in *; lia|by apply Hap]. }
  destruct (map_identity_4k_range _ _ _ _ _) as [s'|[e s']| |]; cbn [map_err mbind outcome_bind]; try done.
  2: { destruct H as ((T' & lost & Hst & Ha & He') & Hp).
       split; [destruct He' as [[-> _]|(_ & Htr & _)]; [by left|unfold tracks in Htr; by rewrite Ho in Htr]|].
       by apply (established_step regions root st T T' lost s' r _ (shared_kernel_mappings st) (shared_kernel_mapping_count st) Hest
         Hok Hin Hnl Hst Ha Hp Hr Hl Hc (or_introl eq_refl)). }
  destruct H as (T' & Hmapped). pose proof Hmapped as (Hst & Ha & _). pose proof (mapped_partly _ _ _ _ _ _ _ _ _ Hmapped) as Hp.
  pose proof (record_spec (with_store s' st) start end_ writable Hl Hc) as Hrec.
  destruct (record_shared_kernel_mapping _ _ _ _) as [st2|e| |]; cbn [map_err mbind outcome_bind]; try done.
  2: { split; [by right|].
       by apply (established_step regions root st T T' [] s' r _ (shared_kernel_mappings st) (shared_kernel_mapping_count st) Hest
         Hok Hin Hnl Hst Ha Hp Hr Hl Hc (or_introl eq_refl)). }
  destruct Hrec as (l & n & -> & Hl' & Hn & Htake). unfold kernel_address_space. cbn [kernel_space with_shared with_store].
  rewrite Hsp. cbn [expect map_err mbind outcome_bind root_paddr]. split; [done|].
  destruct (established_step regions root st T T' [] s' r _ l n Hest Hok Hin Hnl Hst Ha Hp Hr Hl' Hn Htake) as [H1 H2].
  split_and!; [done|done|]. intros va Hva. by apply (mapped_translate T T').
Qed.

Lemma extra_apart w l x o :
  Forall (range_ok w) l → in_window w x → foldl (range_translation x) o l = o.
Proof.
  intros Hf Hx. revert o. induction l as [|m l IH]; intros o; [done|].
  apply Forall_cons in Hf as [[_ _ Ha] Hf]. cbn. rewrite IH by done. unfold range_translation.
  rewrite decide_False; [done|]. by intros ?%Ha.
Qed.

(** * Properties *)

(** C13. Memory initialisation.  For a memory map of whole pages (fewer than
    128 regions), a page-aligned kernel image and a framebuffer that lies
    apart from the physical window or inside it, [init] never panics or
    hangs.  It fails with [NoUsableMemory] only if no region offers memory
    above 16 MiB, or when the allocator cannot supply the tables.  Otherwise
    the free memory is usable memory outside the kernel image, and memory that
    is not usable keeps its bytes; the new address space is the identity, for the kernel only, on the window and
    the framebuffer, and nothing else is mapped; and every free byte is
    mapped at its own address, so that the kernel can reach each page it
    allocates. *)
Theorem init_maps_memory kernel_image m boot_info :
  Forall region_fits (memory_regions boot_info) →
  (length (memory_regions boot_info) < MAX_FREE_RANGES)%nat → image_fits kernel_image →
  (∀ a w, initialize_allocator kernel_image (memory_regions boot_info) = Ok (a, w) →
     framebuffer_fits w (framebuffer boot_info)) →
  match init kernel_image (MemoryState_new m) boot_info with
  | Ok (st, root) => initialised kernel_image m (memory_regions boot_info) st root ∧
      ∀ x, free_in (store st) x →
        translate (memory (store st)) root x = Some (mkTranslation x false true)
  | Err e => e = NoUsableMemory ∧ (∀ x, ¬ usable_in (memory_regions boot_info) x) ∨
      e = AllocatorExhausted
  | Panic | Hang => False
  end.
Proof.
  intros Hr Hlen Him Hfb. pose proof (init_spec kernel_image m boot_info Hr Hlen Him Hfb) as H.
  destruct (init kernel_image (MemoryState_new m) boot_info) as [[st root]|e| |]; try done.
  split; [done|]. intros x Hx. destruct H as [_ _ Hc _ _ Hf Ht]. destruct (Hf x Hx) as (_ & _ & Hw).
  pose proof (cf_window _ Hc) as [Hb _]. unfold in_window in Hw.
  rewrite Ht by (unfold is_low, PHYS_WINDOW_START in *; lia). unfold kernel_translation.
  rewrite (extra_apart (phys_window_end st)); [|apply Hc|done]. by rewrite decide_True.
Qed.

(** One mebibyte at 16 MiB, the kernel in its first pages, and a framebuffer. *)
Definition sample_boot : BootInfo :=
  BootInfo_new (mkFramebuffer 0x80000000 0x2000 64 32 64 Rgb)
    [mkMemoryRegion 0 160 Reserved; mkMemoryRegion 0x1000000 256 Usable] 0.
Definition sample_image : option (Z * Z) := Some (0x1000000, 0x1004000).

Lemma sample_boot_fits :
  Forall region_fits (memory_regions sample_boot) ∧ (length (memory_regions sample_boot) < MAX_FREE_RANGES)%nat ∧
  image_fits sample_image ∧
  ∀ a w, initialize_allocator sample_image (memory_regions sample_boot) = Ok (a, w) →
    framebuffer_fits w (framebuffer sample_boot).
Proof.
  split_and!.
  - repeat constructor; cbn; unfold PAGE_SIZE; lia.
  - unfold MAX_FREE_RANGES. cbn. lia.
  - split; reflexivity.
  - intros a w Hw. assert (w = 0x1200000) as -> by (vm_compute in Hw; injection Hw as _ <-; reflexivity).
    split; unfold PAGE_SIZE, PHYS_WINDOW_START; vm_compute; (congruence || (right; left; discriminate)).
Qed.

Lemma init_maps_memory_witness :
  ∃ st root, init sample_image (MemoryState_new (λ _, 1)) sample_boot = Ok (st, root) ∧
    initialised sample_image (λ _, 1) (memory_regions sample_boot) st root.
Proof.
  destruct sample_boot_fits as (Hr & Hl & Hi & Hf).
  pose proof (init_maps_memory sample_image (λ _, 1) sample_boot Hr Hl Hi Hf) as H.
  assert (is_Ok (init sample_image (MemoryState_new (λ _, 1)) sample_boot) = true) as Hok by (vm_compute; reflexivity).
  destruct (init sample_image (MemoryState_new (λ _, 1)) sample_boot) as [[st root]|e| |]; try discriminate Hok.
  exists st, root. split; [reflexivity|]. apply H.
Defined.
