(* ===== verification/Boot.v ===== *)
(** * The boot loader ([boot/uefi-loader/src/main.rs])

    From the kernel's file to the jump into the kernel: loading the segments,
    the kernel's first stack, the framebuffer and the memory map that the
    kernel gets.  The firmware is not part of the sources: its state and its
    calls are parameters, and [firmware] states what the loader relies on. *)

From stdpp Require Import gmap.
From S2P Require Import Prelude Bytes Errors Allocator Process Paging KernelSpace ElfFile.

Local Open Scope Z_scope.

Definition KERNEL_STACK_PAGES : Z := 16.
Definition MEMORY_REGION_CAPACITY : nat := 1024.

Inductive BootFailure :=
| FilesystemReadFailed | InvalidElf | GraphicsOutputUnavailable | UnsupportedPixelFormat | InvalidFramebuffer
| KernelSegmentAllocationFailed | KernelStackAllocationFailed | MemoryMapCapacityExceeded
| SegmentFileLargerThanMemory | AddressOverflow.

(** The statuses that the loader returns to the firmware. *)
Inductive Status := SUCCESS | LOAD_ERROR | UNSUPPORTED | OUT_OF_RESOURCES.

Definition status (f : BootFailure) : Status :=
  match f with
  | FilesystemReadFailed | InvalidElf => LOAD_ERROR
  | GraphicsOutputUnavailable | UnsupportedPixelFormat | InvalidFramebuffer => UNSUPPORTED
  | KernelSegmentAllocationFailed | KernelStackAllocationFailed | MemoryMapCapacityExceeded | AddressOverflow =>
      OUT_OF_RESOURCES
  | SegmentFileLargerThanMemory => LOAD_ERROR
  end.

Local Open Scope string_scope.

Definition as_str (f : BootFailure) : string :=
  match f with
  | FilesystemReadFailed => "failed to read kernel image"
  | InvalidElf => "kernel image is not a supported ELF64 executable"
  | GraphicsOutputUnavailable => "graphics output protocol is unavailable"
  | UnsupportedPixelFormat => "graphics mode does not expose a direct RGB or BGR framebuffer"
  | InvalidFramebuffer => "graphics framebuffer information was invalid"
  | KernelSegmentAllocationFailed => "failed to allocate memory for a kernel segment"
  | KernelStackAllocationFailed => "failed to allocate the initial kernel stack"
  | MemoryMapCapacityExceeded => "normalized memory map exceeded the preallocated buffer"
  | SegmentFileLargerThanMemory => "kernel segment file size exceeded its in-memory size"
  | AddressOverflow => "kernel image contained addresses that overflowed the loader"
  end.

Local Close Scope string_scope.

Definition from_elf (error : ElfError) : BootFailure := InvalidElf.

Abbreviation bres := (outcome BootFailure).

(** ** What the firmware reports *)

Inductive MemoryType :=
| CONVENTIONAL | LOADER_CODE | LOADER_DATA | BOOT_SERVICES_CODE | BOOT_SERVICES_DATA
| RUNTIME_SERVICES_CODE | RUNTIME_SERVICES_DATA | ACPI_RECLAIM | ACPI_NON_VOLATILE
| MMIO | MMIO_PORT_SPACE | PAL_CODE | PERSISTENT_MEMORY | UNUSABLE | OTHER.

Record MemoryDescriptor := mkDescriptor { ty : MemoryType; phys_start : Z; page_count : Z }.

Definition normalize_memory_region (d : MemoryDescriptor) : MemoryRegion :=
  let kind := match ty d with
    | CONVENTIONAL => Usable
    | LOADER_CODE | LOADER_DATA => Loader
    | BOOT_SERVICES_CODE | BOOT_SERVICES_DATA => BootServices
    | RUNTIME_SERVICES_CODE | RUNTIME_SERVICES_DATA => RuntimeServices
    | ACPI_RECLAIM => AcpiReclaimable
    | ACPI_NON_VOLATILE => AcpiNvs
    | MMIO | MMIO_PORT_SPACE | PAL_CODE => Mmio
    | PERSISTENT_MEMORY => Persistent
    | UNUSABLE => Unusable
    | OTHER => Reserved
    end in
  mkMemoryRegion (phys_start d) (page_count d) kind.

Inductive GopPixelFormat := GopRgb | GopBgr | GopOther.

Record GraphicsOutput := mkGop {
  gop_width : Z; gop_height : Z; gop_stride : Z; gop_format : GopPixelFormat; gop_base : Z; gop_size : Z
}.

(** [u32::try_from] *)
Definition u32_try_from (v : Z) : bres Z := if decide (v < 2 ^ 32) then Ok v else Err InvalidFramebuffer.

Definition query_framebuffer (gop : option GraphicsOutput) : bres FramebufferInfo :=
  gop ← ok_or gop GraphicsOutputUnavailable;
  format ← match gop_format gop with
           | GopRgb => Ok Rgb
           | GopBgr => Ok Bgr
           | GopOther => Err UnsupportedPixelFormat
           end;
  width ← u32_try_from (gop_width gop);
  height ← u32_try_from (gop_height gop);
  stride ← u32_try_from (gop_stride gop);
  let info := mkFramebuffer (gop_base gop) (gop_size gop) width height stride format in
  if negb (is_usable info) then Err InvalidFramebuffer else Ok info.

(** The first entry of the configuration table with one of the two ids. *)
Fixpoint find_acpi_rsdp {Guid} `{EqDecision Guid} (ACPI2_GUID ACPI_GUID : Guid) (entries : list (Guid * Z)) : Z :=
  match entries with
  | [] => 0
  | (guid, address) :: entries =>
      if decide (guid = ACPI2_GUID ∨ guid = ACPI_GUID) then address else find_acpi_rsdp ACPI2_GUID ACPI_GUID entries
  end.

(** ** Loading *)

Section Loader.
Context {Fw : Type} (allocate_at : Z → Z → Fw → option Fw) (allocate_any : Z → Fw → option (Z * Fw)).
Context (exit_boot_services : Fw → list MemoryDescriptor).

Definition load_segment (kernel_bytes : list Z) (v : Fw * Memory) (header : outcome ElfError ProgramHeader) : bres (Fw * Memory) :=
  let '(fw, m) := v in
  h ← map_err from_elf header;
  if decide (kind h ≠ PT_LOAD ∨ memory_size h = 0) then Ok (fw, m)
  else
    load_address ← map_err from_elf (load_address h);
    '(first, last) ← map_err from_elf (file_range h (Z.of_nat (length kernel_bytes)));
    let segment_start := align_down load_address PAGE_SIZE in
    end_ ← ok_or (checked_add load_address (memory_size h)) AddressOverflow;
    let segment_end := align_up end_ PAGE_SIZE in
    let page_count := u64 (segment_end - segment_start) / PAGE_SIZE in
    fw ← ok_or (allocate_at segment_start page_count fw) KernelSegmentAllocationFailed;
    let m := write_zeros m segment_start (page_count * PAGE_SIZE) in
    copy_end ← ok_or (checked_add load_address (file_size h)) AddressOverflow;
    mem_end ← ok_or (checked_add load_address (memory_size h)) AddressOverflow;
    if decide (mem_end < copy_end) then Err SegmentFileLargerThanMemory
    else
      bytes ← slice kernel_bytes (Z.to_nat first) (Z.to_nat last);
      Ok (fw, write_phys m load_address bytes).

Definition load_kernel_segments (elf : ElfImage) (kernel_bytes : list Z) (v : Fw * Memory) : bres (Fw * Memory) :=
  for_each (load_segment kernel_bytes) v (headers_of elf).

Definition allocate_kernel_stack (fw : Fw) : bres (Z * Fw) :=
  '(stack, fw) ← ok_or (allocate_any KERNEL_STACK_PAGES fw) KernelStackAllocationFailed;
  let top := stack + KERNEL_STACK_PAGES * PAGE_SIZE in
  Ok (Z.land top (u64_not 0x0f), fw).

(** The loop over the memory map fills a vector that does not grow. *)
Definition push_region (regions : list MemoryRegion) (d : MemoryDescriptor) : bres (list MemoryRegion) :=
  if decide (length regions = MEMORY_REGION_CAPACITY) then Err MemoryMapCapacityExceeded
  else Ok (regions ++ [normalize_memory_region d]).

(** What the kernel starts with: the address that it is entered at, the
    argument in its register, its stack pointer and the memory. *)
Record Handoff := mkHandoff { ho_entry : Z; ho_boot_info : BootInfo; ho_stack_top : Z; ho_memory : Memory }.

(** [run].  An error of [push_region] is returned like any other, although the
    firmware's services have been left by then and [main] can no longer
    report it. *)
Definition run {Guid} `{EqDecision Guid} (ACPI2_GUID ACPI_GUID : Guid) (kernel_file : option (list Z))
    (gop : option GraphicsOutput) (config : list (Guid * Z)) (fw : Fw) (m : Memory) : bres Handoff :=
  kernel_bytes ← ok_or kernel_file FilesystemReadFailed;
  elf ← map_err from_elf (ElfImage_parse kernel_bytes);
  framebuffer ← query_framebuffer gop;
  let acpi_rsdp_addr := find_acpi_rsdp ACPI2_GUID ACPI_GUID config in
  '(fw, m) ← load_kernel_segments elf kernel_bytes (fw, m);
  '(kernel_stack_top, fw) ← allocate_kernel_stack fw;
  memory_regions ← for_each push_region [] (exit_boot_services fw);
  let boot_info := BootInfo_new framebuffer memory_regions acpi_rsdp_addr in
  Ok (mkHandoff (entry_point elf) boot_info kernel_stack_top m).

(** ** Specification: the firmware's memory *)

(** Pages are handed out once and not none of them, from memory that is free below the limit of
    physical addresses, and the final map calls no other memory conventional. *)
Record firmware (free_ : Fw → Z → Prop) : Prop := {
  fw_below : ∀ fw x, free_ fw x → 0 ≤ x < 2 ^ 52;
  fw_at : ∀ fw fw' a n, allocate_at a n fw = Some fw' → 0 < n ∧
    (∀ x, a ≤ x < a + n * PAGE_SIZE → free_ fw x) ∧
    ∀ x, free_ fw' x → free_ fw x ∧ ¬ (a ≤ x < a + n * PAGE_SIZE);
  fw_any : ∀ fw fw' a n, allocate_any n fw = Some (a, fw') → a mod PAGE_SIZE = 0 ∧
    (∀ x, a ≤ x < a + n * PAGE_SIZE → free_ fw x) ∧
    ∀ x, free_ fw' x → free_ fw x ∧ ¬ (a ≤ x < a + n * PAGE_SIZE);
  fw_map : ∀ fw d x, d ∈ exit_boot_services fw → ty d = CONVENTIONAL →
    phys_start d ≤ x < phys_start d + page_count d * PAGE_SIZE → free_ fw x
}.
End Loader.

(** The byte that a segment has at [i] once it is loaded. *)
Definition segment_byte (kernel_bytes : list Z) (h : ProgramHeader) (i : Z) : Z :=
  if decide (i < file_size h) then default 0 (kernel_bytes !! Z.to_nat (offset h + i)) else 0.

(** * Lemmas *)

Lemma align_up_wraps v : 2 ^ 64 < v + PAGE_SIZE → is_u64 v → align_up v PAGE_SIZE = 0.
Proof.
  unfold is_u64, PAGE_SIZE, align_up. intros Hv Hu. destruct (v =? 0); [done|].
  assert (u64 (u64 (v + 4096) - 1) = v + 4095 - 2 ^ 64) as -> 
    by (unfold u64; replace (v + 4096) with (v + 4096 - 2 ^ 64 + 1 * 2 ^ 64) by lia;
        rewrite Z.mod_add, !Z.mod_small by (rewrite ?Z.mod_small; lia); lia).
  assert (0 ≤ v + 4095 - 2 ^ 64 < 2 ^ 12) as H by lia. revert H. generalize (v + 4095 - 2 ^ 64). intros w Hw.
  change (u64_not (u64 (4096 - 1))) with (u64_not (2 ^ 12 - 1)).
  apply Z.bits_inj'. intros n Hn. rewrite Z.land_spec, Z.bits_0. destruct (Z.le_gt_cases 12 n).
  - by rewrite <-(Z.mod_small w (2 ^ 12)), Z.mod_pow2_bits_high by lia.
  - unfold u64_not. assert (n = 0 ∨ n = 1 ∨ n = 2 ∨ n = 3 ∨ n = 4 ∨ n = 5 ∨ n = 6 ∨ n = 7 ∨ n = 8 ∨ n = 9 ∨ n = 10 ∨ n = 11) as Hc by lia.
    by repeat destruct Hc as [->|Hc]; subst; apply andb_false_r.
Qed.

(** The pages of a segment reach from its first byte to its last. *)
Lemma segment_pages a n : is_u64 a → 0 < n → a + n < 2 ^ 64 →
  let start := align_down a PAGE_SIZE in
  let count := u64 (align_up (a + n) PAGE_SIZE - start) / PAGE_SIZE in
  0 < count → start ≤ a ∧ 0 ≤ start ∧ (a + n ≤ start + count * PAGE_SIZE ∧ start + count * PAGE_SIZE ≤ 2 ^ 64).
Proof.
  intros Ha Hn Hend. cbv zeta. unfold is_u64 in *.
  assert (align_down a PAGE_SIZE = a / 4096 * 4096) as ->
    by (unfold PAGE_SIZE; change 4096 with (2 ^ 12); apply align_down_pow2; unfold is_u64; lia).
  assert (0 ≤ a / 4096 ∧ a / 4096 * 4096 ≤ a < a / 4096 * 4096 + 4096) as Hs by (Z.div_mod_to_equations; lia).
  revert Hs. generalize (a / 4096). intros p Hp. unfold u64, PAGE_SIZE in *.
  destruct (decide (2 ^ 64 < a + n + 4096)) as [Hw|Hw].
  - rewrite align_up_wraps by (unfold is_u64, PAGE_SIZE; lia). destruct (decide (p = 0)) as [->|Hp0]; [done|].
    replace ((0 - p * 4096) mod 2 ^ 64) with ((2 ^ 52 - p) * 4096); [rewrite Z.div_mul by lia; lia|].
    apply (Z.mod_unique _ _ (-1)); lia.
  - assert (align_up (a + n) 4096 = (a + n + 4096 - 1) / 4096 * 4096) as ->
      by (change 4096 with (2 ^ 12) in *; apply align_up_pow2; unfold is_u64; lia).
    assert ((a + n + 4096 - 1) / 4096 * 4096 < a + n + 4096 ∧ a + n ≤ (a + n + 4096 - 1) / 4096 * 4096) as Hq by (Z.div_mod_to_equations; lia).
    revert Hq. generalize ((a + n + 4096 - 1) / 4096). intros q Hq.
    replace (q * 4096 - p * 4096) with ((q - p) * 4096) by lia. rewrite Z.mod_small, Z.div_mul by lia. lia.
Qed.

Definition loadable (h : ProgramHeader) : Prop := kind h = PT_LOAD ∧ memory_size h ≠ 0.

Section Load.
Context {Fw : Type} (allocate_at : Z → Z → Fw → option Fw) (allocate_any : Z → Fw → option (Z * Fw)).
Context (exit_boot_services : Fw → list MemoryDescriptor) (free_ : Fw → Z → Prop).
Context (Hfw : firmware allocate_at allocate_any exit_boot_services free_).
Context (kernel_bytes : list Z) (fw0 : Fw) (m0 : Memory).

(** The segments [hs] are in memory, out of the reach of later allocations. *)
Record loaded (hs : list ProgramHeader) (fw : Fw) (m : Memory) : Prop := {
  ld_free : ∀ x, free_ fw x → free_ fw0 x;
  ld_bytes : ∀ h, h ∈ hs → loadable h → ∃ a, load_address h = Ok a ∧
    ∀ i, 0 ≤ i < memory_size h → ¬ free_ fw (a + i) ∧ m (a + i) = segment_byte kernel_bytes h i;
  ld_rest : ∀ x, free_ fw x ∨ ¬ free_ fw0 x → m x = m0 x
}.

Lemma load_address_bound h a : header_fits h → load_address h = Ok a → is_u64 a.
Proof.
  intros (_ & _ & _ & Hv & Hp & _). unfold load_address. destruct (negb _); case_match; try done; by intros [= <-].
Qed.

Lemma file_range_bounds h : 
  match file_range h (Z.of_nat (length kernel_bytes)) with
  | Ok (first, last) => first = offset h ∧ last = offset h + file_size h ∧ last ≤ Z.of_nat (length kernel_bytes)
  | Err _ => True
  | Panic | Hang => False
  end.
Proof.
  unfold file_range, checked_add. case_decide; cbn [ok_or mbind outcome_bind]; [|done]. case_decide; [done|]. split_and!; [done..|lia].
Qed.

(** The bytes of a segment over its zeroed pages. *)
Lemma segment_written m h a start len i :
  0 ≤ offset h → 0 ≤ file_size h ≤ memory_size h → offset h + file_size h ≤ Z.of_nat (length kernel_bytes) →
  start ≤ a → a + memory_size h ≤ start + len → 0 ≤ i < memory_size h →
  write_phys (write_zeros m start len) a (sub kernel_bytes (Z.to_nat (offset h)) (Z.to_nat (offset h + file_size h))) (a + i) =
    segment_byte kernel_bytes h i.
Proof.
  intros Ho Hf Hlast Hs He Hi. unfold write_phys, segment_byte. rewrite length_sub by lia.
  destruct (decide (i < file_size h)).
  - rewrite decide_True by lia. rewrite lookup_sub by lia. do 2 f_equal. lia.
  - rewrite decide_False by lia. unfold write_zeros. by rewrite decide_True by lia.
Qed.

Lemma kernel_segment_spec hs fw m r : loaded hs fw m →
  match r with Ok h => header_fits h | Err _ => True | _ => False end →
  match load_segment allocate_at kernel_bytes (fw, m) r with
  | Ok (fw', m') => ∃ h, r = Ok h ∧ loaded (hs ++ [h]) fw' m'
  | Err _ => True
  | Panic | Hang => False
  end.
Proof.
  intros [Hfree Hbytes Hrest] Hr. unfold load_segment. destruct r as [h|e| |]; try done. cbn [map_err mbind outcome_bind].
  case_decide as Hskip.
  { exists h. split; [done|]. split; [done| |done]. intros h' Hin [Hk Hn].
    apply elem_of_app in Hin as [Hh'|Hh']; [by apply Hbytes|]. apply list_elem_of_singleton in Hh' as ->. tauto. }
  destruct (load_address h) as [a|e| |] eqn:Ha; cbn [map_err mbind outcome_bind]; try done.
  2, 3: by unfold load_address in Ha; case_match.
  pose proof (load_address_bound h a Hr Ha) as Hau. destruct Hr as (_ & _ & Ho & _ & _ & Hf & Hn). unfold is_u64 in *.
  pose proof (file_range_bounds h) as Hfr.
  destruct (file_range h (Z.of_nat (length kernel_bytes))) as [[first last]|e| |] eqn:Hrange; cbn [map_err mbind outcome_bind]; try done.
  destruct Hfr as (-> & -> & Hlast).
  unfold checked_add. destruct (decide (a + memory_size h < 2 ^ 64)) as [Hend|]; cbn [ok_or mbind outcome_bind]; [|done]. cbv zeta.
  assert (0 < memory_size h) as Hpos by lia.
  pose proof (segment_pages a (memory_size h) ltac:(unfold is_u64; lia) Hpos Hend) as Hpages. cbv zeta in Hpages.
  set (start := align_down a PAGE_SIZE) in *. set (count := u64 (align_up (a + memory_size h) PAGE_SIZE - start) / PAGE_SIZE) in *.
  destruct (allocate_at start count fw) as [fw'|] eqn:Hal; cbn [ok_or mbind outcome_bind]; [|done].
  destruct (fw_at _ _ _ _ Hfw _ _ _ _ Hal) as (Hcount & Hwas & Hnow). destruct (Hpages Hcount) as (Hsa & Hs0 & Hse & _).
  destruct (decide (a + file_size h < 2 ^ 64)); cbn [ok_or mbind outcome_bind]; [|done]. case_decide as Hsize; [done|].
  rewrite slice_Ok by lia. cbn [mbind outcome_bind]. exists h. split; [done|].
  assert (∀ x, free_ fw' x ∨ ¬ (start ≤ x < start + count * PAGE_SIZE) →
    write_phys (write_zeros m start (count * PAGE_SIZE)) a
      (sub kernel_bytes (Z.to_nat (offset h)) (Z.to_nat (offset h + file_size h))) x = m x) as Hkeep.
  { intros x Hx. assert (¬ (start ≤ x < start + count * PAGE_SIZE)) as Hx' by (destruct Hx as [[_ ?]%Hnow|]; done).
    unfold write_phys. rewrite decide_False by (rewrite length_sub by lia; lia). unfold write_zeros. by rewrite decide_False. }
  split.
  - intros x [Hx _]%Hnow. by apply Hfree.
  - intros h' Hin Hl. apply elem_of_app in Hin as [Hh'|Hh'].
    + destruct (Hbytes h' Hh' Hl) as (a' & Ha' & Hb). exists a'. split; [done|]. intros i Hi.
      destruct (Hb i Hi) as [Hnf Hv]. split; [by intros [? _]%Hnow|].
      rewrite Hkeep; [done|]. right. intros Hx. by apply Hnf, Hwas.
    + apply list_elem_of_singleton in Hh' as ->. exists a. split; [done|]. intros i Hi. split.
      * intros [_ Hx]%Hnow. apply Hx. lia.
      * apply segment_written; try done; lia.
  - intros x Hx. rewrite Hkeep.
    + apply Hrest. destruct Hx as [[? _]%Hnow|]; [by left|by right].
    + destruct Hx as [|Hx]; [by left|right]. intros Hin. by apply Hx, Hfree, Hwas.
Qed.

Lemma kernel_segments_spec rs hs fw m : loaded hs fw m →
  (∀ r, r ∈ rs → match r with Ok h => header_fits h | Err _ => True | _ => False end) →
  match for_each (load_segment allocate_at kernel_bytes) (fw, m) rs with
  | Ok (fw', m') => ∃ hs', rs = map Ok hs' ∧ loaded (hs ++ hs') fw' m'
  | Err _ => True
  | Panic | Hang => False
  end.
Proof.
  revert hs fw m. induction rs as [|r rs IH]; intros hs fw m Hl Hr.
  { exists []. by rewrite app_nil_r. }
  cbn [for_each]. pose proof (kernel_segment_spec hs fw m r Hl (Hr r ltac:(by left))) as H.
  destruct (load_segment allocate_at kernel_bytes (fw, m) r) as [[fw1 m1]|e| |]; cbn [mbind outcome_bind]; try done.
  destruct H as (h & -> & Hl1). specialize (IH (hs ++ [h]) fw1 m1 Hl1 ltac:(intros r' Hr'; apply Hr; by right)).
  destruct (for_each _ (fw1, m1) rs) as [[fw2 m2]|e| |]; try done. destruct IH as (hs' & -> & Hl2).
  exists (h :: hs'). split; [done|]. by rewrite <-app_assoc in Hl2.
Qed.
End Load.

(** ** The memory map *)

Lemma push_regions_spec ds regions :
  match for_each push_region regions ds with
  | Ok rs => rs = regions ++ map normalize_memory_region ds
  | Err e => e = MemoryMapCapacityExceeded
  | Panic | Hang => False
  end.
Proof.
  revert regions. induction ds as [|d ds IH]; intros regions; [by rewrite app_nil_r|]. cbn [for_each].
  assert (push_region regions d = if decide (length regions = MEMORY_REGION_CAPACITY) then Err MemoryMapCapacityExceeded
    else Ok (regions ++ [normalize_memory_region d])) as -> by done.
  case_decide; [done|]. cbn [mbind outcome_bind]. specialize (IH (regions ++ [normalize_memory_region d])).
  destruct (for_each push_region _ ds) as [rs|e| |]; try done. by rewrite IH, <-app_assoc.
Qed.

Lemma push_regions_length ds rs : for_each push_region [] ds = Ok rs → (length ds ≤ MEMORY_REGION_CAPACITY)%nat.
Proof.
  assert (∀ regions, (length regions ≤ MEMORY_REGION_CAPACITY)%nat → for_each push_region regions ds = Ok rs →
    (length regions + length ds ≤ MEMORY_REGION_CAPACITY)%nat) as H; [|by apply (H []); cbn; lia].
  induction ds as [|d ds IH]; intros regions Hl; cbn [for_each length]; [lia|].
  intros (regions' & Hp & Hf)%bind_Ok. unfold push_region in Hp. case_decide; [done|]. injection Hp as <-.
  specialize (IH (regions ++ [normalize_memory_region d])). rewrite length_app in IH. cbn [length] in IH.
  specialize (IH ltac:(lia) Hf). lia.
Qed.

Lemma normalize_usable d : mr_kind (normalize_memory_region d) = Usable → ty d = CONVENTIONAL.
Proof. unfold normalize_memory_region. by destruct (ty d). Qed.

Lemma query_framebuffer_spec gop :
  match query_framebuffer gop with
  | Ok fb => is_usable fb = true
  | Err e => e = GraphicsOutputUnavailable ∨ e = UnsupportedPixelFormat ∨ e = InvalidFramebuffer
  | Panic | Hang => False
  end.
Proof.
  unfold query_framebuffer, u32_try_from. destruct gop as [g|]; cbn [ok_or mbind outcome_bind]; [|by left].
  assert (∀ format, let o := (width ← (if decide (gop_width g < 2 ^ 32) then Ok (gop_width g) else Err InvalidFramebuffer);
    height ← (if decide (gop_height g < 2 ^ 32) then Ok (gop_height g) else Err InvalidFramebuffer);
    stride ← (if decide (gop_stride g < 2 ^ 32) then Ok (gop_stride g) else Err InvalidFramebuffer);
    let info := mkFramebuffer (gop_base g) (gop_size g) width height stride format in
    if negb (is_usable info) then Err InvalidFramebuffer else Ok info) in
    match o with Ok fb => is_usable fb = true | Err e => e = InvalidFramebuffer | Panic | Hang => False end) as H.
  { intros format. cbv zeta. destruct (decide (gop_width g < _)), (decide (gop_height g < _)), (decide (gop_stride g < _)); cbn [mbind outcome_bind]; try done.
    by match goal with |- context [is_usable ?fb] => destruct (is_usable fb) eqn:Hfb end. }
  destruct (gop_format g); cbn [mbind outcome_bind]; [specialize (H Rgb)|specialize (H Bgr)|by right; left];
    cbv zeta in H; (destruct (mbind _ _) as [fb|e| |]; [done|by right; right|done..]).
Qed.

(** * Properties *)

(** C16. The handoff to the kernel.  With a firmware that hands out pages once
    and calls no other memory conventional in its final map, the loader ends
    with an error or jumps to the entry point of the image with a header and a
    framebuffer that the kernel accepts, every segment of the image in memory
    at its address, the bytes of the file followed by zeros, all other memory
    as it was but for the pages it took, and a stack of 64 KiB aligned to 16;
    and none of the segments and nothing of the stack lies in a region that
    the kernel is told is usable. *)
Theorem kernel_handoff {Fw Guid} `{EqDecision Guid} allocate_at allocate_any exit_boot_services free_
    (id1 id2 : Guid) kernel_bytes gop config (fw : Fw) m :
  firmware allocate_at allocate_any exit_boot_services free_ → bytes_ok kernel_bytes →
  match run allocate_at allocate_any exit_boot_services id1 id2 (Some kernel_bytes) gop config fw m with
  | Ok h =>
      let info := ho_boot_info h in
      let reserved x := ¬ usable_in (memory_regions info) x in
      has_valid_header info = true ∧ is_usable (framebuffer info) = true ∧
      (length (memory_regions info) ≤ MEMORY_REGION_CAPACITY)%nat ∧
      (ho_stack_top h mod 16 = 0 ∧ ∀ x, ho_stack_top h - 0x10000 ≤ x < ho_stack_top h → reserved x) ∧
      (∃ image hs, ElfImage_parse kernel_bytes = Ok image ∧ headers_of image = map Ok hs ∧ ho_entry h = entry_point image ∧
        ∀ s, s ∈ hs → loadable s → ∃ a, load_address s = Ok a ∧
          ∀ i, 0 ≤ i < memory_size s → ho_memory h (a + i) = segment_byte kernel_bytes s i ∧ reserved (a + i)) ∧
      ∀ x, ¬ free_ fw x ∨ usable_in (memory_regions info) x → ho_memory h x = m x
  | Err e => True
  | Panic | Hang => False
  end.
Proof.
  intros Hfw Hbytes. unfold run. cbn [ok_or mbind outcome_bind].
  pose proof (ElfImage_parse_returns kernel_bytes) as Hparse.
  destruct (ElfImage_parse kernel_bytes) as [image|e| |] eqn:Himage; cbn [map_err mbind outcome_bind]; try done.
  pose proof (query_framebuffer_spec gop) as Hgop. destruct (query_framebuffer gop) as [fb|e| |]; cbn [mbind outcome_bind]; try done.
  assert (loaded free_ kernel_bytes fw m [] fw m) as H0 by (split; [done|intros h Hh; by apply not_elem_of_nil in Hh|done]).
  pose proof (kernel_segments_spec allocate_at allocate_any exit_boot_services free_ Hfw kernel_bytes fw m (headers_of image) [] fw m H0
    (λ r Hr, headers_of_fit kernel_bytes image r Himage Hbytes Hr)) as Hload.
  unfold load_kernel_segments. destruct (for_each _ (fw, m) _) as [[fw1 m1]|e| |]; cbn [mbind outcome_bind]; try done.
  destruct Hload as (hs & Hhs & [Hfree Hseg Hrest]). cbn [app] in *.
  unfold allocate_kernel_stack. destruct (allocate_any KERNEL_STACK_PAGES fw1) as [[stack fw2]|] eqn:Hstack; cbn [ok_or mbind outcome_bind]; [|done].
  destruct (fw_any _ _ _ _ Hfw _ _ _ _ Hstack) as (Hmod & Hwas & Hnow).
  pose proof (push_regions_spec (exit_boot_services fw2) []) as Hregions.
  destruct (for_each push_region [] _) as [regions|e| |] eqn:Hpush; cbn [mbind outcome_bind]; try done. subst regions. cbn [app].
  assert (∀ x, usable_in (map normalize_memory_region (exit_boot_services fw2)) x → free_ fw2 x) as Husable.
  { intros x (r & Hr & Hk & _ & Hx). apply list_elem_of_fmap in Hr as (d & -> & Hd).
    apply (fw_map _ _ _ _ Hfw fw2 d); [done|by apply normalize_usable|done]. }
  cbv zeta. cbn [ho_boot_info ho_stack_top ho_entry ho_memory memory_regions framebuffer BootInfo_new].
  assert (∀ x, stack ≤ x < stack + 0x10000 → 0 ≤ x < 2 ^ 52) as Hb.
  { intros x Hx. apply (fw_below _ _ _ _ Hfw fw1). by apply Hwas. }
  pose proof (Hb stack ltac:(lia)) as Hs. unfold PAGE_SIZE in Hmod.
  assert (Z.land (stack + KERNEL_STACK_PAGES * PAGE_SIZE) (u64_not 0x0f) = stack + 0x10000) as Htop.
  { change (KERNEL_STACK_PAGES * PAGE_SIZE) with 0x10000. pose proof (align_down_pow2 (stack + 0x10000) 4 ltac:(lia)) as Hd.
    unfold align_down in Hd. change (u64_not (u64 (2 ^ 4 - 1))) with (u64_not 0x0f) in Hd. rewrite Hd by (unfold is_u64; lia).
    Z.div_mod_to_equations. lia. }
  rewrite Htop. split_and!; [done|done| | | | |].
  - rewrite length_map. by eapply push_regions_length.
  - Z.div_mod_to_equations. lia.
  - intros x Hx Hu%Husable. apply Hnow in Hu as [_ Hu]. apply Hu. change (KERNEL_STACK_PAGES * PAGE_SIZE) with 0x10000. lia.
  - exists image, hs. split_and!; [done|done|done|]. intros s Hin Hl. destruct (Hseg s Hin Hl) as (a & Ha & Hby). exists a. split; [done|].
    intros i Hi. destruct (Hby i Hi) as [Hnf Hv]. split; [done|]. intros Hu%Husable. by apply Hnow in Hu as [? _].
  - intros x Hx. apply Hrest. destruct Hx as [|Hu%Husable]; [by right|left]. by apply Hnow in Hu as [? _].
Qed.

(** A firmware that hands out 112 MiB from below. *)
Definition sample_top : Z := 0x8000000.
Definition sample_free (next x : Z) : Prop := 0x1000000 ≤ next ≤ x ∧ x < sample_top.
Definition sample_at (a n next : Z) : option Z :=
  if decide (0 < n ∧ 0x1000000 ≤ next ≤ a ∧ a + n * PAGE_SIZE ≤ sample_top) then Some (a + n * PAGE_SIZE) else None.
Definition sample_any (n next : Z) : option (Z * Z) :=
  if decide (0 < n ∧ 0x1000000 ≤ next ∧ next mod PAGE_SIZE = 0 ∧ next + n * PAGE_SIZE ≤ sample_top)
  then Some (next, next + n * PAGE_SIZE) else None.
Definition sample_map (next : Z) : list MemoryDescriptor :=
  [mkDescriptor LOADER_DATA 0x1000000 ((next - 0x1000000) / PAGE_SIZE);
   mkDescriptor CONVENTIONAL next (if decide (0x1000000 ≤ next) then (sample_top - next) / PAGE_SIZE else 0)].

Lemma sample_firmware : firmware sample_at sample_any sample_map sample_free.
Proof.
  split; unfold sample_free, sample_at, sample_any, sample_top, PAGE_SIZE.
  - intros fw x. lia.
  - intros fw fw' a n. case_decide; [|done]. intros [= <-]. split_and!; [lia|intros x; lia|intros x; lia].
  - intros fw fw' a n. case_decide; [|done]. intros [= <- <-]. split_and!; [lia|intros x; lia|intros x; lia].
  - intros fw d x Hd Hk Hx. unfold sample_map in Hd. apply elem_of_cons in Hd as [->|Hd]; [done|].
    apply list_elem_of_singleton in Hd as ->. cbn [phys_start page_count] in Hx. unfold sample_top, PAGE_SIZE in Hx. case_decide; [|lia].
    Z.div_mod_to_equations. lia.
Qed.

Definition sample_kernel : list Z := encode_elf 0x4000000 [mkProgramHeader 1 5 120 0x4000000 0 3 16] [1; 2; 3].

Lemma kernel_handoff_witness :
  match run sample_at sample_any sample_map 1 2 (Some sample_kernel)
    (Some (mkGop 640 480 640 GopBgr 0x80000000 0x12c000)) [(2, 0x7fe0000)] 0x1000000 (λ _, 0xff) with
  | Ok h => has_valid_header (ho_boot_info h) = true ∧ ho_stack_top h mod 16 = 0 ∧ ho_memory h 0x5000000 = 0xff
  | _ => False
  end.
Proof.
  pose proof (kernel_handoff sample_at sample_any sample_map sample_free 1 2 sample_kernel
    (Some (mkGop 640 480 640 GopBgr 0x80000000 0x12c000)) [(2, 0x7fe0000)] 0x1000000 (λ _, 0xff) sample_firmware) as H.
  assert (bytes_ok sample_kernel) as Hk by (vm_compute; repeat constructor; discriminate).
  specialize (H Hk).
  assert (match run sample_at sample_any sample_map 1 2 (Some sample_kernel)
    (Some (mkGop 640 480 640 GopBgr 0x80000000 0x12c000)) [(2, 0x7fe0000)] 0x1000000 (λ _, 0xff) with
    | Ok h => bool_decide (memory_regions (ho_boot_info h) =
        [mkMemoryRegion 0x1000000 0x3011 Loader; mkMemoryRegion 0x4011000 0x3fef Usable])
    | _ => false end = true) as Hok by (vm_compute; reflexivity).
  destruct (run _ _ _ _ _ _ _ _ _ _) as [h|e| |]; try discriminate Hok. apply bool_decide_eq_true in Hok.
  destruct H as (Hh & _ & _ & [Hs _] & _ & Hrest). split; [exact Hh|]. split; [exact Hs|]. apply (Hrest 0x5000000). right.
  rewrite Hok. exists (mkMemoryRegion 0x4011000 0x3fef Usable). split; [right; left|]. split; [reflexivity|].
  split; [discriminate|split; [discriminate|reflexivity]].
Defined.
