(* ===== verification/Font.v ===== *)
(** * Glyphs ([kernel/kernel/src/font.rs])

    The bitmaps of the console's font, seven rows of five bits each with the
    leftmost pixel in the highest bit, and the choice of one for a byte. *)

From S2P Require Import Prelude Bytes.

Local Open Scope Z_scope.

Definition GLYPH_WIDTH : nat := 5.
Definition GLYPH_HEIGHT : nat := 7.

Abbreviation Bitmap := (list Z) (only parsing).

Module Glyph.

Definition SPACE : Bitmap := [0x00; 0x00; 0x00; 0x00; 0x00; 0x00; 0x00].
Definition EXCLAMATION : Bitmap := [0x04; 0x04; 0x04; 0x04; 0x04; 0x00; 0x04].
Definition DOUBLE_QUOTE : Bitmap := [0x0a; 0x0a; 0x0a; 0x00; 0x00; 0x00; 0x00].
Definition HASH : Bitmap := [0x0a; 0x1f; 0x0a; 0x1f; 0x0a; 0x0a; 0x00].
Definition DOLLAR : Bitmap := [0x04; 0x0f; 0x14; 0x0e; 0x05; 0x1e; 0x04].
Definition PERCENT : Bitmap := [0x19; 0x1a; 0x04; 0x08; 0x16; 0x06; 0x00].
Definition AMPERSAND : Bitmap := [0x0c; 0x12; 0x14; 0x08; 0x15; 0x12; 0x0d].
Definition APOSTROPHE : Bitmap := [0x04; 0x04; 0x08; 0x00; 0x00; 0x00; 0x00].
Definition LEFT_PAREN : Bitmap := [0x02; 0x04; 0x08; 0x08; 0x08; 0x04; 0x02].
Definition RIGHT_PAREN : Bitmap := [0x08; 0x04; 0x02; 0x02; 0x02; 0x04; 0x08].
Definition ASTERISK : Bitmap := [0x00; 0x04; 0x15; 0x0e; 0x15; 0x04; 0x00].
Definition PLUS : Bitmap := [0x00; 0x04; 0x04; 0x1f; 0x04; 0x04; 0x00].
Definition COMMA : Bitmap := [0x00; 0x00; 0x00; 0x00; 0x06; 0x04; 0x08].
Definition MINUS : Bitmap := [0x00; 0x00; 0x00; 0x1f; 0x00; 0x00; 0x00].
Definition PERIOD : Bitmap := [0x00; 0x00; 0x00; 0x00; 0x00; 0x0c; 0x0c].
Definition SLASH : Bitmap := [0x01; 0x01; 0x02; 0x04; 0x08; 0x10; 0x10].
Definition ZERO : Bitmap := [0x0e; 0x11; 0x13; 0x15; 0x19; 0x11; 0x0e].
Definition ONE : Bitmap := [0x04; 0x0c; 0x04; 0x04; 0x04; 0x04; 0x0e].
Definition TWO : Bitmap := [0x0e; 0x11; 0x01; 0x02; 0x04; 0x08; 0x1f].
Definition THREE : Bitmap := [0x1e; 0x01; 0x01; 0x0e; 0x01; 0x01; 0x1e].
Definition FOUR : Bitmap := [0x02; 0x06; 0x0a; 0x12; 0x1f; 0x02; 0x02].
Definition FIVE : Bitmap := [0x1f; 0x10; 0x10; 0x1e; 0x01; 0x01; 0x1e].
Definition SIX : Bitmap := [0x0e; 0x10; 0x10; 0x1e; 0x11; 0x11; 0x0e].
Definition SEVEN : Bitmap := [0x1f; 0x01; 0x02; 0x04; 0x08; 0x08; 0x08].
Definition EIGHT : Bitmap := [0x0e; 0x11; 0x11; 0x0e; 0x11; 0x11; 0x0e].
Definition NINE : Bitmap := [0x0e; 0x11; 0x11; 0x0f; 0x01; 0x01; 0x0e].
Definition COLON : Bitmap := [0x00; 0x04; 0x04; 0x00; 0x04; 0x04; 0x00].
Definition SEMICOLON : Bitmap := [0x00; 0x04; 0x04; 0x00; 0x04; 0x04; 0x08].
Definition LESS_THAN : Bitmap := [0x02; 0x04; 0x08; 0x10; 0x08; 0x04; 0x02].
Definition EQUAL : Bitmap := [0x00; 0x1f; 0x00; 0x1f; 0x00; 0x00; 0x00].
Definition GREATER_THAN : Bitmap := [0x08; 0x04; 0x02; 0x01; 0x02; 0x04; 0x08].
Definition QUESTION : Bitmap := [0x0e; 0x11; 0x01; 0x02; 0x04; 0x00; 0x04].
Definition AT : Bitmap := [0x0e; 0x11; 0x17; 0x15; 0x17; 0x10; 0x0e].
Definition A : Bitmap := [0x0e; 0x11; 0x11; 0x1f; 0x11; 0x11; 0x11].
Definition B : Bitmap := [0x1e; 0x11; 0x11; 0x1e; 0x11; 0x11; 0x1e].
Definition C : Bitmap := [0x0e; 0x11; 0x10; 0x10; 0x10; 0x11; 0x0e].
Definition D : Bitmap := [0x1e; 0x11; 0x11; 0x11; 0x11; 0x11; 0x1e].
Definition E : Bitmap := [0x1f; 0x10; 0x10; 0x1e; 0x10; 0x10; 0x1f].
Definition F : Bitmap := [0x1f; 0x10; 0x10; 0x1e; 0x10; 0x10; 0x10].
Definition G : Bitmap := [0x0e; 0x11; 0x10; 0x17; 0x11; 0x11; 0x0e].
Definition H : Bitmap := [0x11; 0x11; 0x11; 0x1f; 0x11; 0x11; 0x11].
Definition I : Bitmap := [0x0e; 0x04; 0x04; 0x04; 0x04; 0x04; 0x0e].
Definition J : Bitmap := [0x01; 0x01; 0x01; 0x01; 0x11; 0x11; 0x0e].
Definition K : Bitmap := [0x11; 0x12; 0x14; 0x18; 0x14; 0x12; 0x11].
Definition L : Bitmap := [0x10; 0x10; 0x10; 0x10; 0x10; 0x10; 0x1f].
Definition M : Bitmap := [0x11; 0x1b; 0x15; 0x15; 0x11; 0x11; 0x11].
Definition N : Bitmap := [0x11; 0x19; 0x15; 0x13; 0x11; 0x11; 0x11].
Definition O : Bitmap := [0x0e; 0x11; 0x11; 0x11; 0x11; 0x11; 0x0e].
Definition P : Bitmap := [0x1e; 0x11; 0x11; 0x1e; 0x10; 0x10; 0x10].
Definition Q : Bitmap := [0x0e; 0x11; 0x11; 0x11; 0x15; 0x12; 0x0d].
Definition R : Bitmap := [0x1e; 0x11; 0x11; 0x1e; 0x14; 0x12; 0x11].
Definition S : Bitmap := [0x0f; 0x10; 0x10; 0x0e; 0x01; 0x01; 0x1e].
Definition T : Bitmap := [0x1f; 0x04; 0x04; 0x04; 0x04; 0x04; 0x04].
Definition U : Bitmap := [0x11; 0x11; 0x11; 0x11; 0x11; 0x11; 0x0e].
Definition V : Bitmap := [0x11; 0x11; 0x11; 0x11; 0x11; 0x0a; 0x04].
Definition W : Bitmap := [0x11; 0x11; 0x11; 0x15; 0x15; 0x15; 0x0a].
Definition X : Bitmap := [0x11; 0x11; 0x0a; 0x04; 0x0a; 0x11; 0x11].
Definition Y : Bitmap := [0x11; 0x11; 0x0a; 0x04; 0x04; 0x04; 0x04].
Definition Z : Bitmap := [0x1f; 0x01; 0x02; 0x04; 0x08; 0x10; 0x1f].
Definition LEFT_BRACKET : Bitmap := [0x0e; 0x08; 0x08; 0x08; 0x08; 0x08; 0x0e].
Definition BACKSLASH : Bitmap := [0x10; 0x08; 0x04; 0x02; 0x01; 0x00; 0x00].
Definition RIGHT_BRACKET : Bitmap := [0x0e; 0x02; 0x02; 0x02; 0x02; 0x02; 0x0e].
Definition CARET : Bitmap := [0x04; 0x0a; 0x11; 0x00; 0x00; 0x00; 0x00].
Definition UNDERSCORE : Bitmap := [0x00; 0x00; 0x00; 0x00; 0x00; 0x00; 0x1f].
Definition BACKTICK : Bitmap := [0x08; 0x04; 0x02; 0x00; 0x00; 0x00; 0x00].
Definition LEFT_BRACE : Bitmap := [0x02; 0x04; 0x04; 0x08; 0x04; 0x04; 0x02].
Definition VERTICAL_BAR : Bitmap := [0x04; 0x04; 0x04; 0x00; 0x04; 0x04; 0x04].
Definition RIGHT_BRACE : Bitmap := [0x08; 0x04; 0x04; 0x02; 0x04; 0x04; 0x08].
Definition TILDE : Bitmap := [0x00; 0x00; 0x09; 0x16; 0x00; 0x00; 0x00].

End Glyph.

Definition glyph_for (byte : Z) : Bitmap :=
  match byte with
  | 0x20 => Glyph.SPACE
  | 0x21 => Glyph.EXCLAMATION
  | 0x22 => Glyph.DOUBLE_QUOTE
  | 0x23 => Glyph.HASH
  | 0x24 => Glyph.DOLLAR
  | 0x25 => Glyph.PERCENT
  | 0x26 => Glyph.AMPERSAND
  | 0x27 => Glyph.APOSTROPHE
  | 0x28 => Glyph.LEFT_PAREN
  | 0x29 => Glyph.RIGHT_PAREN
  | 0x2a => Glyph.ASTERISK
  | 0x2b => Glyph.PLUS
  | 0x2c => Glyph.COMMA
  | 0x2d => Glyph.MINUS
  | 0x2e => Glyph.PERIOD
  | 0x2f => Glyph.SLASH
  | 0x30 => Glyph.ZERO
  | 0x31 => Glyph.ONE
  | 0x32 => Glyph.TWO
  | 0x33 => Glyph.THREE
  | 0x34 => Glyph.FOUR
  | 0x35 => Glyph.FIVE
  | 0x36 => Glyph.SIX
  | 0x37 => Glyph.SEVEN
  | 0x38 => Glyph.EIGHT
  | 0x39 => Glyph.NINE
  | 0x3a => Glyph.COLON
  | 0x3b => Glyph.SEMICOLON
  | 0x3c => Glyph.LESS_THAN
  | 0x3d => Glyph.EQUAL
  | 0x3e => Glyph.GREATER_THAN
  | 0x3f => Glyph.QUESTION
  | 0x40 => Glyph.AT
  | 0x41 | 0x61 => Glyph.A
  | 0x42 | 0x62 => Glyph.B
  | 0x43 | 0x63 => Glyph.C
  | 0x44 | 0x64 => Glyph.D
  | 0x45 | 0x65 => Glyph.E
  | 0x46 | 0x66 => Glyph.F
  | 0x47 | 0x67 => Glyph.G
  | 0x48 | 0x68 => Glyph.H
  | 0x49 | 0x69 => Glyph.I
  | 0x4a | 0x6a => Glyph.J
  | 0x4b | 0x6b => Glyph.K
  | 0x4c | 0x6c => Glyph.L
  | 0x4d | 0x6d => Glyph.M
  | 0x4e | 0x6e => Glyph.N
  | 0x4f | 0x6f => Glyph.O
  | 0x50 | 0x70 => Glyph.P
  | 0x51 | 0x71 => Glyph.Q
  | 0x52 | 0x72 => Glyph.R
  | 0x53 | 0x73 => Glyph.S
  | 0x54 | 0x74 => Glyph.T
  | 0x55 | 0x75 => Glyph.U
  | 0x56 | 0x76 => Glyph.V
  | 0x57 | 0x77 => Glyph.W
  | 0x58 | 0x78 => Glyph.X
  | 0x59 | 0x79 => Glyph.Y
  | 0x5a | 0x7a => Glyph.Z
  | 0x5b => Glyph.LEFT_BRACKET
  | 0x5c => Glyph.BACKSLASH
  | 0x5d => Glyph.RIGHT_BRACKET
  | 0x5e => Glyph.CARET
  | 0x5f => Glyph.UNDERSCORE
  | 0x60 => Glyph.BACKTICK
  | 0x7b => Glyph.LEFT_BRACE
  | 0x7c => Glyph.VERTICAL_BAR
  | 0x7d => Glyph.RIGHT_BRACE
  | 0x7e => Glyph.TILDE
  | _ => Glyph.QUESTION
  end.

(** The letter cases share their glyphs. *)
Definition upcase (byte : Z) : Z :=
  if (0x61 <=? byte) && (byte <=? 0x7a) then byte - 32 else byte.
(** Bytes with a glyph of their own. *)
Definition printable (byte : Z) : bool := (0x20 <=? byte) && (byte <=? 0x7e).

(** The character that a byte is shown as. *)
Definition shown (byte : Z) : Z := if printable byte then upcase byte else 0x3f.

(** * Lemmas *)

Definition same_rows (g h : Bitmap) : bool := forallb (λ '(x, y), x =? y) (zip g h).

Lemma same_rows_spec g h : length g = length h → same_rows g h = true ↔ g = h.
Proof.
  revert h. induction g as [|x g IH]; intros [|y h] Hl; try done. injection Hl as Hl.
  unfold same_rows. cbn. rewrite andb_true_iff, Z.eqb_eq. fold (same_rows g h). rewrite IH by done.
  split; [by intros [-> ->]|by intros [= -> ->]].
Qed.

(** A property of all bytes is checked on the list of them. *)
Lemma all_bytes (P : Z → bool) : forallb P (seqZ 0 256) = true → ∀ b, 0 ≤ b < 256 → P b = true.
Proof. intros H b Hb. rewrite forallb_forall in H. apply H, list_elem_of_In, elem_of_seqZ. lia. Qed.

Lemma all_byte_pairs (P : Z → Z → bool) :
  forallb (λ a, forallb (P a) (seqZ 0 256)) (seqZ 0 256) = true → ∀ a b, 0 ≤ a < 256 → 0 ≤ b < 256 → P a b = true.
Proof. intros H a b Ha Hb. by apply (all_bytes (P a)); [apply (all_bytes (λ a, forallb (P a) (seqZ 0 256)))|]. Qed.

Lemma glyph_size b : length (glyph_for b) = GLYPH_HEIGHT.
Proof. destruct b as [|p|p]; try done. do 7 (try (destruct p as [p|p|]; try done)). Qed.

(** * Properties *)

(** The font is legible.  Every glyph has seven rows of at most five bits,
    so that drawing one stays within its cell, and two bytes have the same
    glyph exactly when they are the same letter in either case, or both are
    shown as the question mark: itself or a byte outside the printable
    ASCII characters. *)
Theorem font_distinguishes a b :
  0 ≤ a < 256 → 0 ≤ b < 256 →
  (length (glyph_for a) = GLYPH_HEIGHT ∧ Forall (λ row, 0 ≤ row < 2 ^ Z.of_nat GLYPH_WIDTH) (glyph_for a)) ∧
  (glyph_for a = glyph_for b ↔
   shown a = shown b).
Proof.
  intros Ha Hb. split; [split; [apply glyph_size|]|].
  - eapply (bool_decide_eq_true_1 _). revert a Ha.
    apply (all_bytes (λ a, bool_decide (Forall (λ row, 0 ≤ row < 2 ^ Z.of_nat GLYPH_WIDTH) (glyph_for a)))).
    by vm_compute.
  - pose proof (all_byte_pairs (λ a b, Bool.eqb (same_rows (glyph_for a) (glyph_for b))
      (shown a =? shown b)) ltac:(by vm_compute) a b Ha Hb) as H.
    apply Bool.eqb_prop in H. rewrite <-same_rows_spec, H by by rewrite !glyph_size. apply Z.eqb_eq.
Qed.

Lemma font_distinguishes_witness : glyph_for 0x61 = glyph_for 0x41 ∧ glyph_for 0x30 ≠ glyph_for 0x4f.
Proof.
  split.
  - destruct (font_distinguishes 0x61 0x41) as [_ [_ H]]; [split; [discriminate|reflexivity]..|].
    apply H. reflexivity.
  - destruct (font_distinguishes 0x30 0x4f) as [_ [H _]]; [split; [discriminate|reflexivity]..|].
    intros Hg. discriminate (H Hg).
Defined.
