(* ===== verification/Console.v ===== *)
(** * Framebuffer console ([kernel/kernel/src/console.rs])

    The text console over the pixels of the framebuffer, and the screen of
    text that it shows: lines of bytes, the last of which is being written.

    The pixels are a function from the index of a pixel, counted from the
    framebuffer's base; the slice over the visible ones bounds the accesses
    as in the code.  Writes to the serial line are kept in its log. *)

From S2P Require Import Prelude Bytes Allocator Process KernelSpace Queues Terminal Font.

Definition DEFAULT_FOREGROUND : Z := 0xf9fafb.
Definition DEFAULT_BACKGROUND : Z := 0x111827.
Definition PADDING_X : nat := 16.
Definition PADDING_Y : nat := 16.
Definition GLYPH_ADVANCE_X : nat := GLYPH_WIDTH + 2.
Definition GLYPH_ADVANCE_Y : nat := GLYPH_HEIGHT + 3.
Definition MAX_TRACKED_ROWS : nat := 512.
#[global] Arguments MAX_TRACKED_ROWS : simpl never.

Record ConsoleCursor := mkCursor { column : nat; row : nat }.
#[export] Instance ConsoleCursor_eq_dec : EqDecision ConsoleCursor.
Proof. solve_decision. Defined.

Definition Pixels : Type := nat → Z.

Record FramebufferConsole := mkConsole {
  framebuffer : FramebufferInfo;
  foreground : Z;
  background : Z;
  visible_height : nat;
  columns : nat;
  rows : nat;
  cursor_column : nat;
  cursor_row : nat;
  row_lengths : list nat;
  input_floor : option ConsoleCursor;
  pixels : Pixels
}.

Definition with_pixels (m : Pixels) (c : FramebufferConsole) : FramebufferConsole :=
  mkConsole (framebuffer c) (foreground c) (background c) (visible_height c) (columns c) (rows c)
    (cursor_column c) (cursor_row c) (row_lengths c) (input_floor c) m.
Definition with_cursor (column row : nat) (c : FramebufferConsole) : FramebufferConsole :=
  mkConsole (framebuffer c) (foreground c) (background c) (visible_height c) (columns c) (rows c)
    column row (row_lengths c) (input_floor c) (pixels c).
Definition with_lengths (l : list nat) (c : FramebufferConsole) : FramebufferConsole :=
  mkConsole (framebuffer c) (foreground c) (background c) (visible_height c) (columns c) (rows c)
    (cursor_column c) (cursor_row c) l (input_floor c) (pixels c).
Definition with_floor (f : option ConsoleCursor) (c : FramebufferConsole) : FramebufferConsole :=
  mkConsole (framebuffer c) (foreground c) (background c) (visible_height c) (columns c) (rows c)
    (cursor_column c) (cursor_row c) (row_lengths c) f (pixels c).

(** ** Geometry *)

Definition visible_height_pixels (fb : FramebufferInfo) : nat :=
  let stride := Z.to_nat (fb_stride fb) in
  let max_pixels := Z.to_nat (fb_size fb) / 4 in
  let rows_from_size := if decide (stride = 0) then 0 else max_pixels / stride in
  Z.to_nat (fb_height fb) `min` rows_from_size.

Definition usable_columns (width : nat) : nat :=
  let usable_width := width - PADDING_X * 2 in
  if decide (usable_width < GLYPH_WIDTH) then 1 else 1 + (usable_width - GLYPH_WIDTH) / GLYPH_ADVANCE_X.

Definition usable_rows (visible_height : nat) : nat :=
  let usable_height := visible_height - PADDING_Y * 2 in
  if decide (usable_height < GLYPH_HEIGHT) then 1 else 1 + (usable_height - GLYPH_HEIGHT) / GLYPH_ADVANCE_Y.

Definition FramebufferConsole_new (fb : FramebufferInfo) (foreground background : Z) (m : Pixels)
    : FramebufferConsole :=
  let visible_height := visible_height_pixels fb in
  mkConsole fb foreground background visible_height (usable_columns (Z.to_nat (fb_width fb)))
    (usable_rows visible_height `min` MAX_TRACKED_ROWS) 0 0 (replicate MAX_TRACKED_ROWS 0) None m.

Definition width (c : FramebufferConsole) : nat := Z.to_nat (fb_width (framebuffer c)).
Definition stride (c : FramebufferConsole) : nat := Z.to_nat (fb_stride (framebuffer c)).
Definition visible_pixels (c : FramebufferConsole) : nat := visible_height c * stride c.

Definition encode_color (c : FramebufferConsole) (rgb : Z) : Z :=
  let red := Z.land (Z.shiftr rgb 16) 0xff in
  let green := Z.land (Z.shiftr rgb 8) 0xff in
  let blue := Z.land rgb 0xff in
  match fb_format (framebuffer c) with
  | Rgb => Z.lor (Z.lor red (Z.shiftl green 8)) (Z.shiftl blue 16)
  | Bgr => Z.lor (Z.lor blue (Z.shiftl green 8)) (Z.shiftl red 16)
  | UnknownFormat => rgb
  end.

(** ** Pixels *)

Definition set_pixel (m : Pixels) (index : nat) (pixel : Z) : Pixels :=
  λ i, if decide (i = index) then pixel else m i.
Definition fill_pixels (m : Pixels) (start end_ : nat) (pixel : Z) : Pixels :=
  λ i, if decide (start ≤ i < end_) then pixel else m i.

(** [<[u32]>::copy_within(start..end, destination)] *)
Definition copy_pixels {E} (len : nat) (m : Pixels) (start end_ destination : nat) : outcome E Pixels :=
  if decide (start ≤ end_ ∧ end_ ≤ len ∧ destination + (end_ - start) ≤ len)
  then Ok (λ i, if decide (destination ≤ i < destination + (end_ - start)) then m (start + (i - destination)) else m i)
  else Panic.

Definition put_pixel (c : FramebufferConsole) (m : Pixels) (x y : nat) (pixel : Z) : Pixels :=
  if decide (width c ≤ x ∨ visible_height c ≤ y) then m
  else
    let index := y * stride c + x in
    if decide (visible_pixels c ≤ index) then m else set_pixel m index pixel.

Definition clear_band (c : FramebufferConsole) (start_y end_y : nat) : outcome () FramebufferConsole :=
  let pixel := encode_color c (background c) in
  m ← for_each (λ m y,
    let row_start := y * stride c in
    let row_end := row_start + stride c in
    if decide (row_end ≤ visible_pixels c) then Ok (fill_pixels m row_start row_end pixel) else Panic)
    (pixels c) (seq start_y (end_y - start_y));
  Ok (with_pixels m c).

Definition draw_glyph (c : FramebufferConsole) (origin_x origin_y : nat) (glyph : Bitmap) : FramebufferConsole :=
  let pixel := encode_color c (foreground c) in
  with_pixels (foldl (λ m '(row_index, row),
    foldl (λ m column_index,
      let bit := Z.shiftl 1 (Z.of_nat (GLYPH_WIDTH - 1 - column_index)) in
      if (Z.land row bit =? 0)%Z then m
      else put_pixel c m (origin_x + column_index) (origin_y + row_index) pixel) m (seq 0 GLYPH_WIDTH))
    (pixels c) (imap pair glyph)) c.

Definition clear_glyph_area (c : FramebufferConsole) (origin_x origin_y : nat) : FramebufferConsole :=
  let background := encode_color c (background c) in
  with_pixels (foldl (λ m row,
    foldl (λ m column, put_pixel c m (origin_x + column) (origin_y + row) background) m (seq 0 GLYPH_ADVANCE_X))
    (pixels c) (seq 0 GLYPH_HEIGHT)) c.

Definition clear_cell (c : FramebufferConsole) (column row : nat) : FramebufferConsole :=
  clear_glyph_area c (PADDING_X + column * GLYPH_ADVANCE_X) (PADDING_Y + row * GLYPH_ADVANCE_Y).

(** ** Text *)

Definition clear (c : FramebufferConsole) : FramebufferConsole :=
  let m := fill_pixels (pixels c) 0 (visible_pixels c) (encode_color c (background c)) in
  with_floor None (with_lengths (replicate MAX_TRACKED_ROWS 0) (with_cursor 0 0 (with_pixels m c))).

Definition cursor (c : FramebufferConsole) : ConsoleCursor := mkCursor (cursor_column c) (cursor_row c).

Definition begin_terminal_session (c : FramebufferConsole) : FramebufferConsole :=
  with_floor (Some (cursor c)) c.

Definition scroll_up (c : FramebufferConsole) : outcome () FramebufferConsole :=
  let top := PADDING_Y `min` visible_height c in
  let bottom := visible_height c - PADDING_Y in
  if decide (bottom ≤ top) then Ok (clear c)
  else if decide (bottom - top ≤ GLYPH_ADVANCE_Y) then clear_band c top bottom
  else
    let shift := GLYPH_ADVANCE_Y in
    m ← copy_pixels (visible_pixels c) (pixels c) ((top + shift) * stride c) (bottom * stride c) (top * stride c);
    moved ← slice (row_lengths c) 1 (rows c);
    lengths ← write_at (row_lengths c) 0 moved;
    lengths ← set_at lengths (rows c - 1) 0;
    let floor := (λ floor, mkCursor (column floor) (row floor - 1)) <$> input_floor c in
    clear_band (with_floor floor (with_lengths lengths (with_pixels m c))) (bottom - shift) bottom.

Definition new_line (c : FramebufferConsole) : outcome () FramebufferConsole :=
  let c := with_cursor 0 (cursor_row c) c in
  if decide (rows c ≤ cursor_row c + 1) then
    c ← scroll_up c;
    Ok (with_cursor (cursor_column c) (rows c - 1) c)
  else Ok (with_cursor 0 (cursor_row c + 1) c).

Definition write_byte (c : FramebufferConsole) (byte : Z) : outcome () FramebufferConsole :=
  c ← (if decide (columns c ≤ cursor_column c) then new_line c else Ok c);
  let origin_x := PADDING_X + cursor_column c * GLYPH_ADVANCE_X in
  let origin_y := PADDING_Y + cursor_row c * GLYPH_ADVANCE_Y in
  let c := clear_glyph_area c origin_x origin_y in
  let c := draw_glyph c origin_x origin_y (glyph_for byte) in
  let c := with_cursor (cursor_column c + 1) (cursor_row c) c in
  n ← get_at (row_lengths c) (cursor_row c);
  lengths ← set_at (row_lengths c) (cursor_row c) (n `max` cursor_column c);
  Ok (with_lengths lengths c).

(** The loop over the rows above, [row] of them. *)
Fixpoint last_position (lengths : list nat) (row : nat) : outcome () (option ConsoleCursor) :=
  match row with
  | O => Ok None
  | S row =>
      n ← get_at lengths row;
      if decide (0 < n) then Ok (Some (mkCursor (n - 1) row)) else last_position lengths row
  end.

Definition previous_cursor_position (c : FramebufferConsole) : outcome () (option ConsoleCursor) :=
  if decide (0 < cursor_column c) then Ok (Some (mkCursor (cursor_column c - 1) (cursor_row c)))
  else last_position (row_lengths c) (cursor_row c).

Definition backspace_from_session (c : FramebufferConsole) : outcome () (bool * FramebufferConsole) :=
  match input_floor c with
  | None => Ok (false, c)
  | Some floor =>
      if decide (cursor_row c = row floor ∧ cursor_column c = column floor) then Ok (false, c)
      else
        target ← previous_cursor_position c;
        match target with
        | None => Ok (false, c)
        | Some target =>
            if decide (row target < row floor ∨ row target = row floor ∧ column target < column floor)
            then Ok (false, c)
            else
              let c := clear_cell c (column target) (row target) in
              let c := with_cursor (column target) (row target) c in
              lengths ← set_at (row_lengths c) (row target) (column target);
              Ok (true, with_lengths lengths c)
        end
  end.

Definition write_terminal_byte (c : FramebufferConsole) (byte : Z) : outcome () FramebufferConsole :=
  if (byte =? 10)%Z then new_line c
  else if (byte =? 0x7f)%Z then '(_, c) ← backspace_from_session c; Ok c
  else write_byte c byte.

Definition write_str (s : Serial) (c : FramebufferConsole) (text : list Z) : outcome () (Serial * FramebufferConsole) :=
  for_each (λ '(s, c) byte,
    let s := serial_write_byte s byte in
    c ← write_terminal_byte c byte; Ok (s, c)) (s, c) text.

(** ** The console behind its lock *)

Record ConsoleCell := mkCell { initialized : bool; locked : bool; console : option FramebufferConsole }.

Definition ConsoleCell_new : ConsoleCell := mkCell false false None.
Definition initialize (cell : ConsoleCell) (c : FramebufferConsole) : ConsoleCell :=
  mkCell true (locked cell) (Some c).
Definition try_lock (cell : ConsoleCell) : option ConsoleCell :=
  if negb (initialized cell) then None
  else if locked cell then None
  else Some (mkCell (initialized cell) true (console cell)).
(** The guard's [drop]. *)
Definition unlock (cell : ConsoleCell) : ConsoleCell := mkCell (initialized cell) false (console cell).

Definition with_console (cell : ConsoleCell) (operation : FramebufferConsole → outcome () FramebufferConsole)
    : outcome () ConsoleCell :=
  match try_lock cell with
  | None => Ok cell
  | Some guard =>
      c ← expect (console guard);
      c ← operation c;
      Ok (unlock (mkCell (initialized guard) (locked guard) (Some c)))
  end.

(** The functions of the module, on the global cell. *)
Definition console_init (cell : ConsoleCell) (fb : FramebufferInfo) (m : Pixels) : ConsoleCell :=
  initialize cell (FramebufferConsole_new fb DEFAULT_FOREGROUND DEFAULT_BACKGROUND m).
Definition console_clear (cell : ConsoleCell) : outcome () ConsoleCell :=
  with_console cell (λ c, Ok (clear c)).
Definition console_begin_terminal_session (cell : ConsoleCell) : outcome () ConsoleCell :=
  with_console cell (λ c, Ok (begin_terminal_session c)).
Definition console_write_terminal_byte (cell : ConsoleCell) (byte : Z) : outcome () ConsoleCell :=
  with_console cell (λ c, write_terminal_byte c byte).

(** ** Specification: a screen of text

    The lines above the cursor, the line being written, and the position that
    erasing stops at.  A newline on the last row drops the first line. *)

Record Text := mkText { above : list (list Z); current : list Z; text_floor : option ConsoleCursor }.

Definition text_lines (t : Text) : list (list Z) := above t ++ [current t].
Definition text_start : Text := mkText [] [] None.
Definition text_cursor (t : Text) : ConsoleCursor := mkCursor (length (current t)) (length (above t)).
(** Row by row, then column by column. *)
Definition before (a b : ConsoleCursor) : Prop := row a < row b ∨ row a = row b ∧ column a < column b.
#[export] Instance before_dec a b : Decision (before a b).
Proof. unfold before. apply _. Defined.

Definition text_session (t : Text) : Text := mkText (above t) (current t) (Some (text_cursor t)).

Definition text_new_line (rows : nat) (t : Text) : Text :=
  if decide (rows ≤ length (above t) + 1)
  then mkText (List.tl (text_lines t)) [] ((λ f, mkCursor (column f) (row f - 1)) <$> text_floor t)
  else mkText (text_lines t) [] (text_floor t).

Definition text_write (columns rows : nat) (t : Text) (byte : Z) : Text :=
  let t := if decide (columns ≤ length (current t)) then text_new_line rows t else t in
  mkText (above t) (current t ++ [byte]) (text_floor t).

(** The last byte of the lines, the last line first, and what stays. *)
Fixpoint back (reversed : list (list Z)) : option (list (list Z) * list Z) :=
  match reversed with
  | [] => None
  | [] :: rest => back rest
  | line :: rest => Some (rest, removelast line)
  end.

Definition text_erase (t : Text) : Text :=
  match text_floor t, back (current t :: rev (above t)) with
  | Some floor, Some (rest, line) =>
      let t' := mkText (rev rest) line (text_floor t) in
      if decide (text_cursor t = floor ∨ before (text_cursor t') floor) then t else t'
  | _, _ => t
  end.

Definition text_byte (columns rows : nat) (t : Text) (byte : Z) : Text :=
  if (byte =? 10)%Z then text_new_line rows t
  else if (byte =? 0x7f)%Z then text_erase t
  else text_write columns rows t byte.

(** What the pixels of a text are: the glyphs of its bytes, each in its cell. *)
Definition cell (t : Text) (row column : nat) : option Z := line ← text_lines t !! row; line !! column.

Definition glyph_bit (glyph : Bitmap) (dx dy : nat) : bool :=
  match glyph !! dy with
  | Some bits => bool_decide (dx < GLYPH_WIDTH) && negb (Z.land bits (Z.shiftl 1 (Z.of_nat (GLYPH_WIDTH - 1 - dx))) =? 0)%Z
  | None => false
  end.

Definition ink (t : Text) (x y : nat) : bool :=
  if decide (PADDING_X ≤ x ∧ PADDING_Y ≤ y) then
    match cell t ((y - PADDING_Y) / GLYPH_ADVANCE_Y) ((x - PADDING_X) / GLYPH_ADVANCE_X) with
    | Some byte => glyph_bit (glyph_for byte) ((x - PADDING_X) mod GLYPH_ADVANCE_X) ((y - PADDING_Y) mod GLYPH_ADVANCE_Y)
    | None => false
    end
  else false.

(** The text's pixels are what the framebuffer shows. *)
Definition displayed (c : FramebufferConsole) (t : Text) : Prop :=
  ∀ x y, x < width c → y < visible_height c →
    pixels c (y * stride c + x) = encode_color c (if ink t x y then foreground c else background c).

(** A framebuffer with room for a line that can be scrolled away. *)
Record roomy (fb : FramebufferInfo) : Prop := {
  ro_width : (0 ≤ fb_width fb ≤ fb_stride fb)%Z;
  ro_height : 2 * PADDING_Y + GLYPH_ADVANCE_Y < visible_height_pixels fb
}.

Record renders (c : FramebufferConsole) (t : Text) : Prop := {
  rn_roomy : roomy (framebuffer c);
  rn_height : visible_height c = visible_height_pixels (framebuffer c);
  rn_columns : columns c = usable_columns (width c);
  rn_rows : rows c = usable_rows (visible_height c) `min` MAX_TRACKED_ROWS;
  rn_above : length (above t) < rows c;
  rn_cursor : cursor c = text_cursor t;
  rn_lines : Forall (λ l, length l ≤ columns c) (text_lines t);
  rn_lengths : row_lengths c = map length (text_lines t) ++ replicate (MAX_TRACKED_ROWS - length (text_lines t)) 0;
  rn_floor : input_floor c = text_floor t;
  rn_pixels : displayed c t
}.

(** * Lemmas *)

(** ** Painting *)

Section Paint.
Context (c : FramebufferConsole) (Hw : width c ≤ stride c).

Lemma index_inj x y x' y' : x < width c → x' < width c →
  y * stride c + x = y' * stride c + x' → x = x' ∧ y = y'.
Proof.
  intros Hx Hx' He. assert (y = y') as ->; [|lia].
  assert (0 < stride c) by lia.
  apply (f_equal (λ n, n / stride c)) in He.
  by rewrite !Nat.div_add_l, !Nat.div_small, !Nat.add_0_r in He by lia.
Qed.

Context (x y : nat) (Hx : x < width c) (Hy : y < visible_height c).

Abbreviation view m := (m (y * stride c + x)).

Lemma put_pixel_view m x0 y0 pixel :
  view (put_pixel c m x0 y0 pixel) = if decide (x = x0 ∧ y = y0) then pixel else view m.
Proof.
  unfold put_pixel. case_decide as Ho; [rewrite decide_False by lia; done|].
  rewrite decide_False by (unfold visible_pixels; nia). unfold set_pixel.
  destruct (decide (x = x0 ∧ y = y0)) as [[-> ->]|Hne]; [by rewrite decide_True|].
  rewrite decide_False; [done|]. intros He. apply Hne. apply index_inj; [done|lia|done].
Qed.

Lemma paint_fold {A} (f : Pixels → A → Pixels) (P : A → bool) pixel l m :
  (∀ m a, a ∈ l → view (f m a) = if P a then pixel else view m) →
  view (foldl f m l) = if existsb P l then pixel else view m.
Proof.
  revert m. induction l as [|a l IH]; intros m Hf; [done|]. cbn [foldl existsb].
  rewrite IH by (intros m' a' Ha'; apply Hf; by right). rewrite Hf by left.
  by destruct (P a), (existsb P l).
Qed.

Lemma existsb_seq (P : nat → bool) n : existsb P (seq 0 n) = true ↔ ∃ k, k < n ∧ P k = true.
Proof.
  rewrite existsb_exists. split; intros (k & Hk & HP); exists k; (split; [|done]); [apply in_seq in Hk|apply in_seq]; lia.
Qed.

Lemma if_decide {A} (b : bool) (P : Prop) `{Decision P} (u v : A) :
  (b = true ↔ P) → (if b then u else v) = if decide P then u else v.
Proof. intros Hb. destruct b; case_decide; naive_solver. Qed.

(** Inside the cell whose corner is at the origin. *)
Definition in_cell (ox oy : nat) : Prop :=
  ox ≤ x < ox + GLYPH_ADVANCE_X ∧ oy ≤ y < oy + GLYPH_HEIGHT.

Lemma clear_glyph_area_view ox oy :
  view (pixels (clear_glyph_area c ox oy)) =
  if decide (in_cell ox oy) then encode_color c (background c) else view (pixels c).
Proof.
  unfold clear_glyph_area. cbn [pixels with_pixels].
  rewrite (paint_fold _ (λ r, existsb (λ k, bool_decide (x = ox + k ∧ y = oy + r)) (seq 0 GLYPH_ADVANCE_X)) (encode_color c (background c))).
  2: { intros m r _. apply paint_fold. intros m' k _. rewrite put_pixel_view. by repeat case_decide; case_bool_decide. }
  apply if_decide. rewrite existsb_seq. setoid_rewrite existsb_seq. setoid_rewrite bool_decide_eq_true.
  unfold in_cell. split; [intros (r & Hr & k & Hk & Hb); lia|]. intros Hc.
  exists (y - oy). split; [lia|]. exists (x - ox). lia.
Qed.

Lemma draw_glyph_view ox oy glyph : length glyph = GLYPH_HEIGHT →
  view (pixels (draw_glyph c ox oy glyph)) =
  if decide (in_cell ox oy) then if glyph_bit glyph (x - ox) (y - oy) then encode_color c (foreground c) else view (pixels c)
  else view (pixels c).
Proof.
  intros Hl. unfold draw_glyph. cbn [pixels with_pixels].
  set (bit r k := negb (Z.land r (Z.shiftl 1 (Z.of_nat (GLYPH_WIDTH - 1 - k))) =? 0)%Z).
  rewrite (paint_fold _ (λ '(i, r), existsb (λ k, bit r k && bool_decide (x = ox + k ∧ y = oy + i)) (seq 0 GLYPH_WIDTH))
    (encode_color c (foreground c))).
  2: { intros m [i r] _. apply paint_fold. intros m' k _. unfold bit.
       destruct (Z.land r _ =? 0)%Z; cbn [negb andb]; [done|].
       rewrite put_pixel_view. by repeat case_decide; case_bool_decide. }
  rewrite (if_decide _ (in_cell ox oy ∧ glyph_bit glyph (x - ox) (y - oy) = true)).
  { destruct (decide (in_cell ox oy)) as [Hc|Hc]; [|by rewrite decide_False by tauto].
    destruct (glyph_bit _ _ _) eqn:Hg; [by rewrite decide_True|by rewrite decide_False by (by intros [_ ?])]. }
  rewrite existsb_exists. unfold glyph_bit, in_cell. split.
  - intros ([i r] & Hin & Hk). apply list_elem_of_In, elem_of_lookup_imap in Hin as (i' & r' & [= -> ->] & Hr).
    apply existsb_seq in Hk as (k & Hk & [Hbit [-> ->]%bool_decide_eq_true]%andb_true_iff).
    pose proof (lookup_lt_Some _ _ _ Hr). unfold GLYPH_ADVANCE_X.
    replace (oy + i' - oy) with i' by lia. replace (ox + k - ox) with k by lia. rewrite Hr.
    split; [lia|]. by rewrite bool_decide_eq_true_2.
  - intros [Hc Hg]. destruct (glyph !! (y - oy)) as [r|] eqn:Hr; [|done].
    apply andb_true_iff in Hg as [Hk%bool_decide_eq_true Hbit]. exists (y - oy, r). split.
    + apply list_elem_of_In, elem_of_lookup_imap. by exists (y - oy), r.
    + apply existsb_seq. exists (x - ox). split; [done|].
      unfold bit. rewrite Hbit. apply bool_decide_eq_true. lia.
Qed.

End Paint.

Lemma clear_band_view c s e : width c ≤ stride c → s ≤ e → e ≤ visible_height c →
  ∃ m, clear_band c s e = Ok (with_pixels m c) ∧
    ∀ x y, x < width c → m (y * stride c + x) =
      if decide (s ≤ y < e) then encode_color c (background c) else pixels c (y * stride c + x).
Proof.
  intros Hw Hs He. unfold clear_band. set (body := λ m y, _). set (pixel := encode_color c (background c)).
  assert (∀ n, s + n ≤ e → ∃ m, for_each body (pixels c) (seq s n) = Ok m ∧
    ∀ x y, x < width c → m (y * stride c + x) = if decide (s ≤ y < s + n) then pixel else pixels c (y * stride c + x)) as Hn.
  { induction n as [|n IH]; intros Hn.
    - exists (pixels c). split; [done|]. intros x y _. by rewrite decide_False by lia.
    - destruct IH as (m & Hm & Hv); [lia|]. rewrite seq_S, for_each_app, Hm. cbn [mbind outcome_bind for_each].
      unfold body. rewrite decide_True by (unfold visible_pixels; nia). eexists. split; [done|].
      intros x y Hx. unfold fill_pixels. rewrite Hv by done.
      destruct (decide (y = s + n)) as [->|Hne]; [rewrite !decide_True by lia; done|].
      rewrite decide_False by nia. by repeat case_decide; try lia. }
  destruct (Hn (e - s)) as (m & -> & Hv); [lia|]. exists m. split; [done|].
  replace (s + (e - s)) with e in Hv by lia. done.
Qed.

(** ** Geometry *)

Lemma rows_fit c t : renders c t →
  1 ≤ rows c ≤ MAX_TRACKED_ROWS ∧ PADDING_Y + (rows c - 1) * GLYPH_ADVANCE_Y + GLYPH_HEIGHT ≤ visible_height c - PADDING_Y ∧
  2 * PADDING_Y + GLYPH_ADVANCE_Y < visible_height c ∧ width c ≤ stride c.
Proof.
  intros [[Hw Hh] Hv _ Hr _ _ _ _ _ _]. rewrite Hr, Hv. unfold usable_rows, MAX_TRACKED_ROWS, width, stride.
  unfold PADDING_Y, GLYPH_HEIGHT, GLYPH_ADVANCE_Y in *. rewrite decide_False by (unfold GLYPH_HEIGHT in *; lia).
  unfold GLYPH_HEIGHT in *. pose proof (Nat.mul_div_le (visible_height_pixels (framebuffer c) - 16 * 2 - 7) (7 + 3)). lia.
Qed.

Lemma cell_coordinate p k d n : d < n → (p + k * n + d - p) / n = k ∧ (p + k * n + d - p) mod n = d.
Proof.
  intros Hd. replace (p + k * n + d - p) with (k * n + d) by lia.
  rewrite Nat.div_add_l, Nat.div_small by lia. split; [lia|].
  rewrite Nat.add_comm, Nat.Div0.mod_add. by apply Nat.mod_small.
Qed.

(** Every point right of and below the padding lies in a cell. *)
Lemma cell_split p n x : 0 < n → p ≤ x → ∃ k d, x = p + k * n + d ∧ d < n.
Proof.
  intros Hn Hx. exists ((x - p) / n), ((x - p) mod n). pose proof (Nat.div_mod (x - p) n ltac:(lia)).
  pose proof (Nat.mod_upper_bound (x - p) n ltac:(lia)). lia.
Qed.

Lemma ink_cell t r k dx dy : dx < GLYPH_ADVANCE_X → dy < GLYPH_ADVANCE_Y →
  ink t (PADDING_X + k * GLYPH_ADVANCE_X + dx) (PADDING_Y + r * GLYPH_ADVANCE_Y + dy) =
  match cell t r k with Some byte => glyph_bit (glyph_for byte) dx dy | None => false end.
Proof.
  intros Hx Hy. unfold ink. rewrite decide_True by lia.
  destruct (cell_coordinate PADDING_X k dx _ Hx) as [-> ->]. by destruct (cell_coordinate PADDING_Y r dy _ Hy) as [-> ->].
Qed.

Lemma glyph_bit_high b dx dy : GLYPH_HEIGHT ≤ dy → glyph_bit (glyph_for b) dx dy = false.
Proof. intros Hd. unfold glyph_bit. by rewrite lookup_ge_None_2 by (rewrite glyph_size; done). Qed.

Lemma cell_beyond t r k : length (text_lines t) ≤ r → cell t r k = None.
Proof. intros Hr. unfold cell. by rewrite lookup_ge_None_2. Qed.

Lemma ink_below t n x y : length (text_lines t) ≤ S n →
  PADDING_Y + n * GLYPH_ADVANCE_Y + GLYPH_HEIGHT ≤ y → ink t x y = false.
Proof.
  intros Hl Hy. destruct (decide (PADDING_X ≤ x)) as [Hx|]; [|unfold ink; by rewrite decide_False by lia].
  destruct (cell_split PADDING_X GLYPH_ADVANCE_X x) as (k & dx & -> & Hdx); [unfold GLYPH_ADVANCE_X; lia|done|].
  destruct (cell_split PADDING_Y GLYPH_ADVANCE_Y y) as (r & dy & -> & Hdy); [unfold GLYPH_ADVANCE_Y; lia|lia|].
  rewrite ink_cell by done. destruct (decide (r ≤ n)) as [Hr|]; [|by rewrite cell_beyond by lia].
  destruct (cell t r k); [|done]. apply glyph_bit_high. unfold GLYPH_ADVANCE_Y in *. nia.
Qed.

(** ** Scrolling *)

(** The lengths of the rows move up with them. *)
Lemma lengths_scrolled (ls : list nat) n : 1 ≤ length ls ≤ n →
  (moved ← slice (E:=()) (ls ++ replicate (n - length ls) 0) 1 (length ls);
   lengths ← write_at (ls ++ replicate (n - length ls) 0) 0 moved;
   set_at lengths (length ls - 1) 0) = Ok (List.tl ls ++ replicate (n - (length ls - 1)) 0).
Proof.
  intros Hn. destruct ls as [|l ls]; [cbn in Hn; lia|]. cbn [length List.tl] in *.
  rewrite slice_Ok by (rewrite ?length_app; cbn; lia). cbn [mbind outcome_bind].
  assert (sub ((l :: ls) ++ replicate (n - S (length ls)) 0) 1 (S (length ls)) = ls) as ->.
  { unfold sub. cbn [app drop Nat.sub]. rewrite Nat.sub_0_r. apply take_app_length. }
  rewrite write_at_Ok by (rewrite length_app, length_replicate; cbn; lia). cbn [mbind outcome_bind].
  unfold splice. cbn [take app Nat.add]. set (rest := replicate _ 0).
  assert (drop (length ls) (l :: ls ++ rest) = drop (length ls) (l :: ls) ++ rest) as ->
    by (apply (drop_app_le (l :: ls)); cbn; lia).
  assert (∃ z, drop (length ls) (l :: ls) = [z]) as [z ->].
  { destruct (drop (length ls) (l :: ls)) as [|z [|]] eqn:Hd; apply (f_equal length) in Hd;
      rewrite length_drop in Hd; cbn in Hd; [lia|by exists z|lia]. }
  rewrite set_at_Ok by (rewrite !length_app; cbn; lia). f_equal.
  replace (S (length ls) - 1) with (length ls + 0) by lia. rewrite insert_app_r.
  replace (n - (length ls + 0)) with (S (n - S (length ls))) by lia. done.
Qed.

Lemma scroll_up_spec c t r : renders c t → length (text_lines t) = rows c →
  let lengths := List.tl (map length (text_lines t)) ++ replicate (MAX_TRACKED_ROWS - (rows c - 1)) 0 in
  let floor := (λ f, mkCursor (column f) (row f - 1)) <$> input_floor c in
  ∃ m, scroll_up (with_cursor 0 r c) = Ok (with_pixels m (with_floor floor (with_lengths lengths (with_cursor 0 r c)))) ∧
    ∀ x y, x < width c → m (y * stride c + x) =
      if decide (PADDING_Y ≤ y < visible_height c - PADDING_Y - GLYPH_ADVANCE_Y) then pixels c ((y + GLYPH_ADVANCE_Y) * stride c + x)
      else if decide (PADDING_Y ≤ y < visible_height c - PADDING_Y) then encode_color c (background c)
      else pixels c (y * stride c + x).
Proof.
  intros Hr Hfull lengths floor. destruct (rows_fit c t Hr) as (Hrows & _ & Hh & Hw).
  pose proof (lengths_scrolled (map length (text_lines t)) MAX_TRACKED_ROWS) as Hl.
  rewrite length_map, Hfull in Hl. specialize (Hl Hrows). fold lengths in Hl. rewrite <-Hfull, <-(rn_lengths _ _ Hr), Hfull in Hl.
  set (c0 := with_cursor 0 r c) in *. unfold scroll_up. change (visible_height c0) with (visible_height c).
  rewrite Nat.min_l by lia. set (bottom := visible_height c - PADDING_Y) in *.
  unfold GLYPH_ADVANCE_Y, GLYPH_HEIGHT, PADDING_Y in *. rewrite (decide_False (P:=bottom ≤ 16)) by lia.
  rewrite (decide_False (P:=bottom - 16 ≤ 7 + 3)) by lia. unfold copy_pixels.
  change (stride c0) with (stride c). change (visible_pixels c0) with (visible_height c * stride c).
  change (pixels c0) with (pixels c).
  rewrite decide_True by nia. cbn [mbind outcome_bind].
  match goal with |- context [with_pixels ?m c0] => set (m1 := m) end.
  change (row_lengths c0) with (row_lengths c). change (rows c0) with (rows c). change (input_floor c0) with (input_floor c).
  fold floor. apply bind_Ok in Hl as (moved & Hmoved & Hl). apply bind_Ok in Hl as (l1 & Hl1 & Hl).
  rewrite Hmoved. cbn [mbind outcome_bind]. rewrite Hl1. cbn [mbind outcome_bind]. rewrite Hl. cbn [mbind outcome_bind].
  set (c1 := with_floor floor (with_lengths lengths (with_pixels m1 c0))).
  destruct (clear_band_view c1 (bottom - (7 + 3)) bottom) as (m & Hband & Hm);
    [exact Hw|lia|change (visible_height c1) with (visible_height c); lia|].
  rewrite Hband. exists m. split; [done|]. intros x y Hx. rewrite Hm by done. change (stride c1) with (stride c).
  change (encode_color c1 (background c1)) with (encode_color c (background c)). change (pixels c1) with m1. unfold m1.
  set (st := stride c) in *. destruct (decide (16 ≤ y < bottom - (7 + 3))) as [Hy|Hy].
  - rewrite decide_False by lia. rewrite decide_True by nia. f_equal. nia.
  - destruct (decide (16 ≤ y < bottom)) as [Hb|Hb]; [by rewrite decide_True by lia|].
    rewrite decide_False by lia. rewrite decide_False; [done|]. intros Hd.
    destruct (decide (y < 16)); [nia|]. assert (bottom ≤ y) by lia. nia.
Qed.

(** ** Operations *)

Definition settings (c : FramebufferConsole) := (framebuffer c, foreground c, background c, visible_height c, columns c, rows c).

Lemma settings_framebuffer c c' : settings c' = settings c →
  framebuffer c' = framebuffer c ∧ foreground c' = foreground c ∧ background c' = background c ∧
  visible_height c' = visible_height c.
Proof. by intros [= ? ? ? ? _ _]. Qed.

Lemma length_text_lines t : length (text_lines t) = S (length (above t)).
Proof. unfold text_lines. rewrite length_app. cbn. lia. Qed.

Lemma ink_ext t t' x y : (∀ r k, cell t' r k = cell t r k) → ink t' x y = ink t x y.
Proof. intros Hc. unfold ink. by rewrite Hc. Qed.

Lemma cell_opened t f r k : cell (mkText (text_lines t) [] f) r k = cell t r k.
Proof.
  unfold cell. change (text_lines (mkText (text_lines t) [] f)) with (text_lines t ++ [[]]).
  destruct (text_lines t !! r) as [l|] eqn:Hl; [by rewrite (lookup_app_l_Some _ _ _ _ Hl)|].
  apply lookup_ge_None in Hl. rewrite lookup_app_r by done. by destruct (r - _) as [|[]].
Qed.

(** The text one row up, with an empty line below. *)
Lemma ink_scrolled t f x y : PADDING_Y ≤ y →
  ink (mkText (List.tl (text_lines t)) [] f) x y = ink t x (y + GLYPH_ADVANCE_Y).
Proof.
  intros Hy. destruct (decide (PADDING_X ≤ x)) as [Hx|]; [|unfold ink; by rewrite !decide_False by lia].
  destruct (cell_split PADDING_X GLYPH_ADVANCE_X x) as (k & dx & -> & Hdx); [unfold GLYPH_ADVANCE_X; lia|done|].
  destruct (cell_split PADDING_Y GLYPH_ADVANCE_Y y) as (r & dy & -> & Hdy); [unfold GLYPH_ADVANCE_Y; lia|lia|].
  replace (PADDING_Y + r * GLYPH_ADVANCE_Y + dy + GLYPH_ADVANCE_Y) with (PADDING_Y + S r * GLYPH_ADVANCE_Y + dy) by lia.
  rewrite !ink_cell by done. f_equal. unfold cell.
  change (text_lines (mkText (List.tl (text_lines t)) [] f)) with (List.tl (text_lines t) ++ [[]]).
  assert (text_lines t ≠ []) as Hne by (intros H; apply (f_equal length) in H; by rewrite length_text_lines in H).
  destruct (text_lines t) as [|l ls]; [done|]. cbn [List.tl lookup list_lookup].
  destruct (ls !! r) as [l'|] eqn:Hl; [by rewrite (lookup_app_l_Some _ _ _ _ Hl)|].
  apply lookup_ge_None in Hl. rewrite lookup_app_r by done. by destruct (r - _) as [|[]].
Qed.

Lemma new_line_spec c t : renders c t →
  ∃ c', new_line c = Ok c' ∧ settings c' = settings c ∧ renders c' (text_new_line (rows c) t) ∧ cursor_column c' = 0.
Proof.
  intros Hr. destruct (rows_fit c t Hr) as (Hrows & Hfit & Hh & Hw).
  pose proof Hr as [Hro Hv Hcol Hrw Hab [= Hcc Hcr] Hli Hle Hfl Hpx].
  unfold new_line, text_new_line. cbn [cursor_row with_cursor rows]. rewrite Hcr.
  destruct (decide (rows c ≤ length (above t) + 1)) as [Hfull|Hfull].
  - assert (length (text_lines t) = rows c) as Hn by (rewrite length_text_lines; lia).
    destruct (scroll_up_spec c t (length (above t)) Hr Hn) as (m & -> & Hm). cbn [mbind outcome_bind].
    eexists. split; [done|]. split; [done|]. split; [|done].
    assert (length (List.tl (text_lines t)) = rows c - 1) as Htl.
    { destruct (text_lines t); cbn in *; lia. }
    split; try done.
    + cbn. rewrite Htl. lia.
    + unfold cursor, text_cursor. cbn. by rewrite Htl.
    + apply Forall_app. split; [|by apply Forall_singleton; cbn; lia].
      cbn. destruct (text_lines t); [done|]. by apply Forall_cons in Hli as [_ ?].
    + cbn [row_lengths with_pixels with_floor with_lengths with_cursor].
      change (text_lines (mkText (List.tl (text_lines t)) [] ((λ f, mkCursor (column f) (row f - 1)) <$> text_floor t)))
        with (List.tl (text_lines t) ++ [[]]).
      rewrite map_app, length_app, Htl, <-app_assoc. cbn [map app length].
      replace (MAX_TRACKED_ROWS - (rows c - 1)) with (S (MAX_TRACKED_ROWS - (rows c - 1 + 1))) by lia.
      by destruct (text_lines t).
    + cbn. by rewrite Hfl.
    + intros x y Hx Hy. cbn [pixels with_pixels with_cursor]. change (stride _) with (stride c).
      change (visible_height _) with (visible_height c) in Hy. change (width _) with (width c) in Hx.
      rewrite Hm by done. clear Hm. unfold PADDING_Y, GLYPH_ADVANCE_Y, GLYPH_HEIGHT in Hfit, Hh.
      destruct (decide (PADDING_Y ≤ y)) as [Hp|Hp].
      * rewrite ink_scrolled by done. case_decide as Hd; [rewrite Hpx by (unfold PADDING_Y, GLYPH_ADVANCE_Y, GLYPH_HEIGHT in *; lia); done|].
        rewrite (ink_below t (rows c - 1)) by (rewrite ?Hn; unfold PADDING_Y, GLYPH_ADVANCE_Y, GLYPH_HEIGHT in *; lia).
        case_decide as Hd'; [done|]. rewrite Hpx by done.
        by rewrite (ink_below t (rows c - 1)) by (rewrite ?Hn; unfold PADDING_Y, GLYPH_ADVANCE_Y, GLYPH_HEIGHT in *; lia).
      * rewrite !decide_False by lia. rewrite Hpx by done. unfold ink. by rewrite !decide_False by lia.
  - eexists. split; [done|]. split; [done|]. split; [|done]. split; try done.
    + cbn. rewrite length_text_lines. lia.
    + unfold cursor, text_cursor. cbn. rewrite length_text_lines. f_equal. lia.
    + apply Forall_app. split; [done|]. by apply Forall_singleton; cbn; lia.
    + cbn [row_lengths with_cursor]. rewrite Hle.
      change (text_lines (mkText (text_lines t) [] (text_floor t))) with (text_lines t ++ [[]]).
      rewrite map_app, length_app, <-app_assoc. cbn [map app length]. rewrite length_text_lines.
      by replace (MAX_TRACKED_ROWS - S (length (above t))) with (S (MAX_TRACKED_ROWS - (S (length (above t)) + 1))) by lia.
    + intros x y Hx Hy. rewrite (ink_ext t) by apply cell_opened. by apply Hpx.
Qed.

(** Two texts that differ in one cell. *)
Lemma in_cell_iff x y k r dx dy col row :
  x = PADDING_X + k * GLYPH_ADVANCE_X + dx → dx < GLYPH_ADVANCE_X →
  y = PADDING_Y + r * GLYPH_ADVANCE_Y + dy → dy < GLYPH_ADVANCE_Y →
  in_cell x y (PADDING_X + col * GLYPH_ADVANCE_X) (PADDING_Y + row * GLYPH_ADVANCE_Y) ↔
  k = col ∧ r = row ∧ dy < GLYPH_HEIGHT.
Proof.
  intros -> Hx -> Hy. unfold in_cell, GLYPH_ADVANCE_X, GLYPH_ADVANCE_Y, GLYPH_HEIGHT, GLYPH_WIDTH in *.
  split; [|intros (-> & -> & ?); lia]. intros [? ?].
  assert (k = col) as -> by lia. assert (r = row) as -> by lia. lia.
Qed.

Lemma ink_outside t x y col row : ¬ (PADDING_X ≤ x ∧ PADDING_Y ≤ y) →
  ink t x y = false ∧ ¬ in_cell x y (PADDING_X + col * GLYPH_ADVANCE_X) (PADDING_Y + row * GLYPH_ADVANCE_Y).
Proof. intros H. split; [unfold ink; by rewrite decide_False|]. unfold in_cell. lia. Qed.

Lemma ink_update t t' col row new x y :
  (∀ r k, cell t' r k = if decide (r = row ∧ k = col) then new else cell t r k) →
  ink t' x y =
    if decide (in_cell x y (PADDING_X + col * GLYPH_ADVANCE_X) (PADDING_Y + row * GLYPH_ADVANCE_Y))
    then match new with
         | Some b => glyph_bit (glyph_for b) (x - (PADDING_X + col * GLYPH_ADVANCE_X)) (y - (PADDING_Y + row * GLYPH_ADVANCE_Y))
         | None => false
         end
    else ink t x y.
Proof.
  intros Hc. destruct (decide (PADDING_X ≤ x ∧ PADDING_Y ≤ y)) as [[Hx Hy]|Hout].
  2: { destruct (ink_outside t x y col row Hout) as [-> ?]. destruct (ink_outside t' x y col row Hout) as [-> _].
       by rewrite decide_False. }
  destruct (cell_split PADDING_X GLYPH_ADVANCE_X x) as (k & dx & Ex & Hdx); [unfold GLYPH_ADVANCE_X; lia|done|].
  destruct (cell_split PADDING_Y GLYPH_ADVANCE_Y y) as (r & dy & Ey & Hdy); [unfold GLYPH_ADVANCE_Y; lia|lia|].
  pose proof (in_cell_iff x y k r dx dy col row Ex Hdx Ey Hdy) as Hin.
  assert (∀ t, ink t x y = match cell t r k with Some byte => glyph_bit (glyph_for byte) dx dy | None => false end) as Hink
    by (intros; rewrite Ex, Ey; by apply ink_cell).
  rewrite !Hink, Hc. clear Hink. destruct (decide (r = row ∧ k = col)) as [[-> ->]|Hne].
  - case_decide as Hi.
    + replace (x - _) with dx by lia. by replace (y - _) with dy by lia.
    + assert (GLYPH_HEIGHT ≤ dy) by (apply Nat.nlt_ge; intros ?; by apply Hi, Hin).
      destruct new, (cell t row col); by rewrite ?glyph_bit_high by done.
  - rewrite decide_False; [done|]. rewrite Hin. naive_solver.
Qed.

Lemma cell_appended above line f f' b r k :
  cell (mkText above (line ++ [b]) f') r k =
  if decide (r = length above ∧ k = length line) then Some b else cell (mkText above line f) r k.
Proof.
  unfold cell, text_lines. cbn [Console.above Console.current]. destruct (decide (r < length above)) as [Hr|Hr].
  - rewrite decide_False by lia. by rewrite !lookup_app_l by done.
  - rewrite !lookup_app_r by lia. destruct (r - length above) as [|n] eqn:Hn.
    + cbn. destruct (decide (k < length line)); [rewrite decide_False, lookup_app_l by lia; done|].
      rewrite lookup_app_r by lia. destruct (decide (k = length line)) as [->|].
      * by rewrite Nat.sub_diag, decide_True by lia.
      * rewrite decide_False, (lookup_ge_None_2 line) by lia. apply lookup_ge_None_2. cbn. lia.
    + rewrite decide_False by lia. done.
Qed.

Lemma write_cell c t b : renders c t → cursor_column c < columns c →
  ∃ c', write_byte c b = Ok c' ∧ settings c' = settings c ∧
    renders c' (mkText (above t) (current t ++ [b]) (text_floor t)).
Proof.
  intros Hr Hlt. destruct (rows_fit c t Hr) as (Hrows & Hfit & Hh & Hw).
  pose proof Hr as [Hro Hv Hcol Hrw Hab [= Hcc Hcr] Hli Hle Hfl Hpx].
  unfold write_byte. rewrite decide_False by lia. cbn [mbind outcome_bind].
  set (ox := PADDING_X + _). set (oy := PADDING_Y + _).
  set (c1 := clear_glyph_area c ox oy). set (c2 := draw_glyph c1 ox oy (glyph_for b)).
  cbn [row_lengths cursor_row cursor_column with_cursor]. change (row_lengths c2) with (row_lengths c).
  change (cursor_row c2) with (cursor_row c). change (cursor_column c2) with (cursor_column c).
  assert (row_lengths c = map length (above t) ++ length (current t) :: replicate (MAX_TRACKED_ROWS - length (text_lines t)) 0) as Hlen.
  { rewrite Hle at 1. unfold text_lines at 1. by rewrite map_app, <-app_assoc. }
  rewrite Hlen, Hcr, Hcc. rewrite (get_at_Ok _ _ (length (current t)))
    by (rewrite lookup_app_r, length_map, Nat.sub_diag by (rewrite length_map; lia); done).
  cbn [mbind outcome_bind]. rewrite set_at_Ok by (rewrite length_app, length_map; cbn; lia). cbn [mbind outcome_bind].
  eexists. split; [done|]. split; [done|]. split; try done.
  - unfold cursor, text_cursor. cbn. by rewrite length_app.
  - unfold text_lines in *. cbn. apply Forall_app in Hli as [Hli _]. apply Forall_app. split; [done|].
    apply Forall_singleton. rewrite length_app. cbn. change (columns _) with (columns c). lia.
  - cbn [row_lengths with_lengths]. unfold text_lines. cbn [above current]. rewrite map_app, <-app_assoc.
    replace (length (above t)) with (length (map length (above t)) + 0) by (rewrite length_map; lia).
    rewrite insert_app_r. cbn [map app]. rewrite !length_app. cbn. do 3 f_equal. lia.
  - intros x y Hx Hy. change (width _) with (width c) in Hx. change (visible_height _) with (visible_height c) in Hy.
    change (stride _) with (stride c). change (pixels _) with (pixels c2). change (foreground _) with (foreground c).
    change (background _) with (background c). change (encode_color _) with (encode_color c).
    pose proof (draw_glyph_view c1 Hw x y Hx Hy ox oy (glyph_for b) (glyph_size b)) as Hd. fold c2 in Hd.
    change (stride c1) with (stride c) in Hd. rewrite Hd. clear Hd.
    pose proof (clear_glyph_area_view c Hw x y Hx Hy ox oy) as Hc. fold c1 in Hc. rewrite Hc. clear Hc.
    rewrite (ink_update t _ (cursor_column c) (cursor_row c) (Some b)).
    2: { intros r k. rewrite Hcr, Hcc. destruct t. apply cell_appended. }
    fold ox oy. rewrite Hpx by done. destruct (decide (in_cell x y ox oy)); [|done]. by destruct (glyph_bit _ _ _).
Qed.

Lemma write_byte_spec c t b : renders c t → 
  ∃ c', write_byte c b = Ok c' ∧ settings c' = settings c ∧ renders c' (text_write (columns c) (rows c) t b).
Proof.
  intros Hr. pose proof (rn_cursor _ _ Hr) as [= Hcc _]. unfold text_write.
  assert (0 < columns c) as Hpos by (rewrite (rn_columns _ _ Hr); unfold usable_columns; case_decide; lia).
  destruct (decide (columns c ≤ length (current t))) as [Hfull|Hfull].
  - destruct (new_line_spec c t Hr) as (c1 & Hn & Hs & Hr1 & Hc0). injection Hs as Hf Hfg Hbg Hvh Hcol Hrow.
    destruct (write_cell c1 _ b Hr1) as (c' & Hw & Hs' & Hr'); [rewrite Hc0, Hcol; done|].
    exists c'. split_and!; [|rewrite Hs'; unfold settings; congruence|done].
    rewrite <-Hw. unfold write_byte. rewrite Hcc, decide_True by done. rewrite Hn.
    cbn [mbind outcome_bind]. rewrite decide_False by (rewrite Hc0, Hcol; lia). done.
  - apply write_cell; [done|]. rewrite Hcc. lia.
Qed.

(** ** Erasing *)

Lemma last_position_back lines rest n : length lines = n →
  last_position (map length lines ++ rest) n =
  Ok ((λ '(rest, line), mkCursor (length line) (length rest)) <$> back (rev lines)).
Proof.
  revert n rest. induction lines as [|line lines IH] using rev_ind; intros n rest Hn; [by subst n|].
  rewrite length_app in Hn. cbn in Hn. destruct n as [|n]; [lia|]. assert (length lines = n) as Hl by lia.
  rewrite map_app, rev_app_distr. cbn [map rev app last_position].
  rewrite (get_at_Ok _ n (length line)) by (rewrite <-app_assoc, lookup_app_r, length_map, Hl, Nat.sub_diag by (rewrite length_map; lia); done).
  cbn [mbind outcome_bind]. destruct line as [|z line]; cbn [length back].
  - rewrite decide_False by lia. rewrite <-app_assoc. apply IH. done.
  - rewrite decide_True by lia. cbn [fmap option_fmap option_map]. do 3 f_equal; [|by rewrite length_rev].
    rewrite removelast_firstn_len, length_take. cbn. lia.
Qed.

(** What [back] leaves, and the one byte that it takes. *)
Lemma back_spec lines rest line : back (rev lines) = Some (rest, line) →
  ∃ b n, lines = rev rest ++ (line ++ [b]) :: replicate n [].
Proof.
  induction lines as [|l lines IH] using rev_ind; [done|]. rewrite rev_app_distr. cbn [rev app back].
  destruct l as [|z l].
  - intros (b & n & ->)%IH. exists b, (S n). rewrite <-app_assoc. cbn. rewrite <-replicate_cons_app. done.
  - intros [= <- <-]. exists (List.last (z :: l) 0%Z), 0. rewrite rev_involutive. cbn [replicate].
    do 2 f_equal. by apply app_removelast_last.
Qed.

Lemma previous_cursor_back c t : renders c t →
  previous_cursor_position c = Ok ((λ '(rest, line), mkCursor (length line) (length rest)) <$> back (current t :: rev (above t))).
Proof.
  intros Hr. pose proof (rn_cursor _ _ Hr) as [= Hcc Hcr]. unfold previous_cursor_position. rewrite Hcc, Hcr.
  destruct (current t) as [|z l] eqn:Hcur; cbn [length back].
  - rewrite decide_False by lia. rewrite (rn_lengths _ _ Hr). unfold text_lines.
    rewrite map_app, <-app_assoc. by apply last_position_back.
  - rewrite decide_True by lia. cbn [fmap option_fmap option_map]. do 3 f_equal; [|by rewrite length_rev].
    rewrite removelast_firstn_len, length_take. cbn. lia.
Qed.

Lemma cell_removed t rest line b n f r k :
  text_lines t = rev rest ++ (line ++ [b]) :: replicate n [] →
  cell (mkText (rev rest) line f) r k = if decide (r = length rest ∧ k = length line) then None else cell t r k.
Proof.
  intros Ht. unfold cell. rewrite Ht. unfold text_lines. cbn [above current]. rewrite <-(length_rev rest).
  destruct (decide (r < length (rev rest))) as [Hr|Hr].
  - rewrite decide_False by lia. by rewrite !lookup_app_l by done.
  - rewrite !lookup_app_r by lia. destruct (r - length (rev rest)) as [|i] eqn:Hi.
    + cbn. destruct (decide (k < length line)); [rewrite decide_False, lookup_app_l by lia; done|].
      destruct (decide (k = length line)) as [->|]; [rewrite decide_True by lia; by apply lookup_ge_None_2|].
      rewrite decide_False by lia. rewrite !lookup_ge_None_2 by (rewrite ?length_app; cbn; lia). done.
    + rewrite decide_False by lia. cbn. destruct (replicate n [] !! i) as [l|] eqn:Hl; [|done].
      apply lookup_replicate in Hl as [-> _]. done.
Qed.

Lemma lengths_removed (rest : list (list Z)) (line : list Z) b n m :
  length rest + S n ≤ m →
  set_at (E:=()) (map length (rev rest ++ (line ++ [b]) :: replicate n []) ++ replicate (m - (length rest + S n)) 0)
    (length rest) (length line) =
  Ok (map length (rev rest ++ [line]) ++ replicate (m - S (length rest)) 0).
Proof.
  intros Hm. rewrite set_at_Ok by (rewrite length_app, length_map, length_app, length_rev; cbn; lia). f_equal.
  rewrite !map_app, <-!app_assoc. cbn [map app].
  rewrite insert_app_r_alt, length_map, length_rev, Nat.sub_diag by (rewrite length_map, length_rev; done).
  cbn [insert list_insert app]. do 2 f_equal.
  change (map length) with (fmap (M:=list) (length (A:=Z))). rewrite fmap_replicate. cbn [length].
  rewrite <-replicate_add. f_equal. lia.
Qed.

Lemma erase_spec c t : renders c t →
  ∃ moved c', backspace_from_session c = Ok (moved, c') ∧ settings c' = settings c ∧ renders c' (text_erase t).
Proof.
  intros Hr. pose proof Hr as [Hro Hv Hcol Hrw Hab Hcur Hli Hle Hfl Hpx].
  destruct (rows_fit c t Hr) as (Hrows & Hfit & Hh & Hw).
  unfold backspace_from_session, text_erase. rewrite <-Hfl. destruct (input_floor c) as [floor|] eqn:Hf;
    [|exists false, c; split_and!; [done|done|done]].
  rewrite (previous_cursor_back c t Hr).
  assert (cursor_row c = row floor ∧ cursor_column c = column floor ↔ text_cursor t = floor) as Hat.
  { rewrite <-Hcur. unfold cursor. destruct floor. cbn. split; [by intros [-> ->]|by intros [= -> ->]]. }
  destruct (decide (cursor_row c = row floor ∧ cursor_column c = column floor)) as [Hc|Hc].
  { exists false, c. split_and!; [done|done|]. destruct (back _) as [[rest line]|]; [|done].
    by rewrite decide_True by (left; by apply Hat). }
  cbn [mbind outcome_bind]. destruct (back (current t :: rev (above t))) as [[rest line]|] eqn:Hb;
    cbn [fmap option_fmap option_map]; [|by exists false, c].
  set (t' := mkText (rev rest) line (Some floor)). cbn [row column].
  change (length rest < row floor ∨ length rest = row floor ∧ length line < column floor)
    with (before (mkCursor (length line) (length rest)) floor).
  assert (text_cursor t' = mkCursor (length line) (length rest)) as -> by (unfold text_cursor; cbn; by rewrite length_rev).
  destruct (decide (before _ floor)) as [Hbf|Hbf].
  { exists false, c. split_and!; [done|done|]. by rewrite decide_True by by right. }
  rewrite decide_False by tauto.
  assert (text_lines t = rev (current t :: rev (above t))) as Hlines by (cbn; by rewrite rev_involutive).
  destruct (back_spec (text_lines t) rest line) as (b & n & Hsplit); [by rewrite Hlines, rev_involutive|].
  assert (length (text_lines t) = length rest + S n) as Hn
    by (rewrite Hsplit, length_app, length_rev; cbn; rewrite length_replicate; done).
  cbn [row_lengths with_cursor clear_cell clear_glyph_area with_pixels]. rewrite Hle, Hn, Hsplit.
  rewrite length_text_lines in Hn. rewrite lengths_removed by lia. cbn [mbind outcome_bind].
  exists true. eexists. split; [done|]. split; [done|].
  assert (length (above t') = length rest) as Hab' by apply length_rev.
  split; try done.
  - rewrite Hab'. change (rows _) with (rows c). lia.
  - unfold cursor, text_cursor. cbn. by rewrite length_rev.
  - change (columns _) with (columns c). rewrite Hsplit in Hli. apply Forall_app in Hli as [Hli1 Hli2].
    apply Forall_cons in Hli2 as [Hl _]. rewrite length_app in Hl. cbn in Hl.
    unfold text_lines. apply Forall_app. split; [done|]. apply Forall_singleton. cbn. lia.
  - cbn [row_lengths with_lengths]. unfold text_lines. cbn [above current t']. by rewrite length_app, length_rev, Nat.add_1_r.
  - intros x y Hx Hy. change (width _) with (width c) in Hx. change (visible_height _) with (visible_height c) in Hy.
    change (stride _) with (stride c). change (foreground _) with (foreground c).
    change (background _) with (background c). change (encode_color _) with (encode_color c).
    change (pixels _) with (pixels (clear_cell c (length line) (length rest))).
    unfold clear_cell. rewrite clear_glyph_area_view by done.
    rewrite (ink_update t t' (length line) (length rest) None) by (intros; by eapply cell_removed).
    rewrite Hpx by done. by case_decide.
Qed.

(** ** The byte path *)

Lemma byte_spec c t b : renders c t →
  ∃ c', write_terminal_byte c b = Ok c' ∧ settings c' = settings c ∧ renders c' (text_byte (columns c) (rows c) t b).
Proof.
  intros Hr. unfold write_terminal_byte, text_byte. destruct (b =? 10)%Z.
  { destruct (new_line_spec c t Hr) as (c' & ? & ? & ? & _). by exists c'. }
  destruct (b =? 0x7f)%Z; [|by apply write_byte_spec].
  destruct (erase_spec c t Hr) as (moved & c' & -> & ? & ?). by exists c'.
Qed.

Lemma bytes_spec c t bytes : renders c t →
  ∃ c', for_each write_terminal_byte c bytes = Ok c' ∧ settings c' = settings c ∧
    renders c' (foldl (text_byte (columns c) (rows c)) t bytes).
Proof.
  revert c t. induction bytes as [|b bytes IH]; intros c t Hr; [by exists c|]. cbn [for_each foldl].
  destruct (byte_spec c t b Hr) as (c1 & -> & Hs & Hr1). cbn [mbind outcome_bind].
  destruct (IH c1 _ Hr1) as (c' & Hc & Hs' & Hr'). exists c'. injection Hs as Hf Hfg Hbg Hvh Hcol Hrow.
  split_and!; [done|rewrite Hs'; unfold settings; congruence|by rewrite Hcol, Hrow in Hr'].
Qed.

Lemma session_renders c t : renders c t → renders (begin_terminal_session c) (text_session t).
Proof. intros [? ? ? ? ? Hc ? ? ? ?]. split; try done. cbn. by rewrite Hc. Qed.

Lemma cleared_renders c : roomy (framebuffer c) → visible_height c = visible_height_pixels (framebuffer c) →
  columns c = usable_columns (width c) → rows c = usable_rows (visible_height c) `min` MAX_TRACKED_ROWS →
  renders (clear c) text_start.
Proof.
  intros Hro Hvh Hcol Hrow. pose proof Hro as [Hw Hh]. assert (0 < rows c).
  { rewrite Hrow. unfold usable_rows, MAX_TRACKED_ROWS. case_decide; lia. }
  split; try done.
  - cbn. apply Forall_singleton. cbn. lia.
  - intros x y Hx Hy. unfold clear. cbn [pixels with_floor with_lengths with_cursor with_pixels].
    change (width (clear c)) with (width c) in Hx. change (visible_height (clear c)) with (visible_height c) in Hy.
    unfold fill_pixels. rewrite decide_True.
    + assert (ink text_start x y = false) as ->; [|done]. unfold ink. case_decide; [|done].
      assert (∀ r k, cell text_start r k = None) as Hc by (intros [|[]] k; done). by rewrite Hc.
    + unfold visible_pixels. change (stride _) with (stride c). unfold width, stride in *. nia.
Qed.

Lemma clear_renders fb fg bg m : roomy fb → renders (clear (FramebufferConsole_new fb fg bg m)) text_start.
Proof. intros Hro. by apply cleared_renders. Qed.

Lemma clear_again c t : renders c t → renders (clear c) text_start.
Proof. intros []. by apply cleared_renders. Qed.

(** ** What stays above the session *)

(** How often the first line is dropped. *)
Definition drops (columns rows : nat) (t : Text) (byte : Z) : bool :=
  bool_decide (rows ≤ length (above t) + 1) &&
  ((byte =? 10)%Z || negb (byte =? 0x7f)%Z && bool_decide (columns ≤ length (current t))).
Fixpoint scrolled (columns rows : nat) (t : Text) (bytes : list Z) : nat :=
  match bytes with
  | [] => 0
  | byte :: bytes => Nat.b2n (drops columns rows t byte) + scrolled columns rows (text_byte columns rows t byte) bytes
  end.

(** The lines of [t] before its cursor stand [k] rows higher, below what has
    left the screen, and the floor is on the line that was current. *)
Record kept (t : Text) (k : nat) (t' : Text) : Prop := {
  kp_floor : text_floor t' = Some (mkCursor (length (current t)) (length (above t) - k));
  kp_lines : k ≤ length (above t) → ∃ l rest, text_lines t' = drop k (above t) ++ (current t ++ l) :: rest
}.

Lemma kept_session t : kept t 0 (text_session t).
Proof. split; [by rewrite Nat.sub_0_r|]. intros _. exists [], []. by rewrite drop_0, app_nil_r. Qed.

Lemma kept_new_line rows t k t' : kept t k t' →
  kept t (if decide (rows ≤ length (above t') + 1) then S k else k) (text_new_line rows t').
Proof.
  intros [Hf Hl]. unfold text_new_line. case_decide as Hfull.
  - split; [cbn; rewrite Hf; cbn; do 2 f_equal; lia|]. intros Hk. destruct Hl as (l & rest & Hl); [lia|].
    exists l, (rest ++ [[]]).
    change (text_lines (mkText (List.tl (text_lines t')) [] ((λ f, mkCursor (column f) (row f - 1)) <$> text_floor t'))) with (List.tl (text_lines t') ++ [[]]). rewrite Hl.
    destruct (drop k (above t)) as [|x xs] eqn:Hd; [apply (f_equal length) in Hd; rewrite length_drop in Hd; cbn in Hd; lia|].
    assert (drop (S k) (above t) = xs) as ->.
    { replace (S k) with (k + 1) by lia. by rewrite <-drop_drop, Hd. }
    cbn. by rewrite <-app_assoc.
  - split; [done|]. intros Hk. destruct (Hl Hk) as (l & rest & Hl'). exists l, (rest ++ [[]]).
    change (text_lines (mkText (text_lines t') [] (text_floor t'))) with (text_lines t' ++ [[]]).
    by rewrite Hl', <-app_assoc.
Qed.

Lemma kept_append t k t' b : kept t k t' →
  kept t k (mkText (above t') (current t' ++ [b]) (text_floor t')).
Proof.
  intros [Hf Hl]. split; [done|]. intros Hk. destruct (Hl Hk) as (l & rest & Hl'). unfold text_lines in *. cbn [above current].
  destruct rest as [|x rest _] using rev_ind.
  - apply app_inj_tail in Hl' as [-> ->]. exists (l ++ [b]), []. by rewrite <-app_assoc.
  - rewrite app_comm_cons, app_assoc in Hl'. apply app_inj_tail in Hl' as [-> ->].
    exists l, (rest ++ [x ++ [b]]). by rewrite app_comm_cons, <-app_assoc.
Qed.

Lemma kept_erase t k t' : kept t k t' → kept t k (text_erase t').
Proof.
  intros Hk. pose proof Hk as [Hf Hl]. unfold text_erase. rewrite Hf.
  destruct (back _) as [[rest line]|] eqn:Hb; [|done]. case_decide as Hd; [done|]. split; [done|]. intros Hn.
  destruct (Hl Hn) as (l & after & Hlines).
  assert (text_lines t' = rev (current t' :: rev (above t'))) as Hrev by (cbn; by rewrite rev_involutive).
  destruct (back_spec (text_lines t') rest line) as (b & n & Hsplit); [by rewrite Hrev, rev_involutive|].
  unfold before, text_cursor in Hd. cbn [row column above current] in Hd. rewrite length_rev in Hd.
  apply Decidable.not_or in Hd as [_ Hd]. unfold text_lines in *. cbn [above current].
  rewrite Hlines in Hsplit. assert (length (drop k (above t)) = length (above t) - k) as Hdl by apply length_drop.
  assert (drop k (above t) = take (length (above t) - k) (rev rest)) as Hpre.
  { apply (f_equal (take (length (above t) - k))) in Hsplit.
    rewrite take_app_length' in Hsplit by lia. rewrite Hsplit. apply take_app_le. rewrite length_rev. lia. }
  destruct (decide (length rest = length (above t) - k)) as [He|He].
  - rewrite take_ge in Hpre by (rewrite length_rev; lia). rewrite <-Hpre in Hsplit |- *.
    apply app_inv_head in Hsplit as [= Hcur _].
    assert (∃ l', line = current t ++ l') as [l' ->].
    { exists (drop (length (current t)) line).
      assert (current t = take (length (current t)) line) as Ht; [|by rewrite Ht at 1; rewrite take_drop].
      apply (f_equal (take (length (current t)))) in Hcur. rewrite take_app_length in Hcur.
      rewrite take_app_le in Hcur by lia. done. }
    exists l', []. done.
  - assert (rev rest = drop k (above t) ++ drop (length (above t) - k) (rev rest)) as Hr by (rewrite Hpre, take_drop; done).
    rewrite Hr, <-app_assoc in Hsplit. apply app_inv_head in Hsplit.
    destruct (drop (length (above t) - k) (rev rest)) as [|x xs] eqn:Hx.
    { apply (f_equal length) in Hx. rewrite length_drop, length_rev in Hx. cbn in Hx. lia. }
    injection Hsplit as <- Hafter. exists l, (xs ++ [line]). by rewrite Hr, <-app_assoc.
Qed.

Lemma kept_byte columns rows t k t' b : kept t k t' →
  kept t (Nat.b2n (drops columns rows t' b) + k) (text_byte columns rows t' b).
Proof.
  intros Hk. pose proof (kept_new_line rows t k t' Hk) as Hn. unfold drops, text_byte, text_write.
  assert (∀ n, (if decide (rows ≤ length (above t') + 1) then S n else n) =
    Nat.b2n (bool_decide (rows ≤ length (above t') + 1)) + n) as He by (intros; case_decide; by case_bool_decide).
  rewrite He in Hn. destruct (b =? 10)%Z; [cbn [orb]; by rewrite andb_true_r|].
  destruct (b =? 0x7f)%Z; cbn [orb negb andb]; [rewrite andb_false_r; by apply kept_erase|].
  destruct (decide (columns ≤ length (current t'))) as [Hc|Hc]; apply kept_append.
  - by rewrite (bool_decide_eq_true_2 _ Hc), andb_true_r.
  - by rewrite (bool_decide_eq_false_2 _ Hc), andb_false_r.
Qed.

Lemma kept_bytes columns rows t k t' bytes : kept t k t' →
  kept t (scrolled columns rows t' bytes + k) (foldl (text_byte columns rows) t' bytes).
Proof.
  revert k t'. induction bytes as [|b bytes IH]; intros k t' Hk; [done|]. cbn [scrolled foldl].
  rewrite (Nat.add_comm (Nat.b2n _)), <-Nat.add_assoc. by apply IH, kept_byte.
Qed.

(** ** Within the framebuffer, whatever its size *)

(** What a console of any framebuffer keeps.  [m] is memory from the
    framebuffer's base on, before the console was made. *)
Record within (m : Pixels) (c : FramebufferConsole) : Prop := {
  wi_rows : 1 ≤ rows c ≤ MAX_TRACKED_ROWS;
  wi_row : cursor_row c < rows c;
  wi_lengths : length (row_lengths c) = MAX_TRACKED_ROWS;
  wi_pixels : ∀ i, visible_pixels c ≤ i → pixels c i = m i
}.

Definition keeps_within (m : Pixels) (c : FramebufferConsole) (r : outcome () FramebufferConsole) : Prop :=
  ∃ c', r = Ok c' ∧ settings c' = settings c ∧ within m c'.

Lemma foldl_keeps {A S} (P : S → Prop) (f : S → A → S) l s : (∀ s a, P s → P (f s a)) → P s → P (foldl f s l).
Proof. intros Hf. revert s. induction l as [|a l IH]; intros s Hs; [done|]. by apply IH, Hf. Qed.

Lemma put_pixel_outside c m x y pixel i : visible_pixels c ≤ i → put_pixel c m x y pixel i = m i.
Proof.
  intros Hi. unfold put_pixel. case_decide; [done|]. case_decide; [done|]. unfold set_pixel. by rewrite decide_False by lia.
Qed.

Lemma paint_within m c c' : within m c → settings c' = settings c → cursor_row c' < rows c' →
  length (row_lengths c') = MAX_TRACKED_ROWS → (∀ i, visible_pixels c ≤ i → pixels c' i = pixels c i) → within m c'.
Proof.
  intros [Hr _ _ Hp] [= Hf _ _ Hv _ Hrows] Hrow Hl Hi.
  assert (visible_pixels c' = visible_pixels c) as Hvp by (unfold visible_pixels, stride; by rewrite Hf, Hv).
  split; [by rewrite Hrows|done|done|]. intros i. rewrite Hvp. intros Ho. by rewrite Hi, Hp.
Qed.

Lemma clear_band_within m c s e : within m c → e ≤ visible_height c → keeps_within m c (clear_band c s e).
Proof.
  intros Hc He. unfold clear_band. set (body := λ m y, _).
  assert (∀ ys m0, Forall (λ y, y < e) ys → ∃ m1, for_each body m0 ys = Ok m1 ∧
    ∀ i, visible_pixels c ≤ i → m1 i = m0 i) as Hys.
  { induction ys as [|y ys IH]; intros m0 Hf; [by exists m0|]. apply Forall_cons in Hf as [Hy Hf]. cbn [for_each].
    assert (y * stride c + stride c ≤ visible_pixels c) as Hfit by (unfold visible_pixels; nia).
    assert (body m0 y = Ok (fill_pixels m0 (y * stride c) (y * stride c + stride c) (encode_color c (background c)))) as ->
      by (unfold body; by rewrite decide_True).
    cbn [mbind outcome_bind]. destruct (IH (fill_pixels m0 (y * stride c) (y * stride c + stride c)
      (encode_color c (background c))) Hf) as (m1 & Hm & Hi).
    exists m1. split; [done|]. intros i Ho. rewrite Hi by done. unfold fill_pixels. by rewrite decide_False by lia. }
  destruct (Hys (seq s (e - s)) (pixels c)) as (m1 & -> & Hi).
  { apply Forall_forall. intros y Hy. apply elem_of_seq in Hy. lia. }
  eexists. split; [done|]. split; [done|]. by apply (paint_within m c); try apply Hc.
Qed.

Lemma clear_within m c : within m c → within m (clear c).
Proof.
  intros Hc. apply (paint_within m c); [done|done|cbn; apply Hc|apply length_replicate|]. intros i Hi. cbn.
  unfold fill_pixels. by rewrite decide_False by lia.
Qed.

Lemma scroll_up_within m c : within m c → keeps_within m c (scroll_up c).
Proof.
  intros Hc. pose proof Hc as [Hr Hrow Hl Hp]. unfold scroll_up. cbv zeta.
  set (top := PADDING_Y `min` visible_height c). set (bottom := visible_height c - PADDING_Y).
  assert (bottom ≤ visible_height c) as Hb by (unfold bottom; lia).
  case_decide; [eexists; split_and!; [done|done|by apply clear_within]|].
  case_decide as Hsmall; [by apply clear_band_within|].
  assert ((top + GLYPH_ADVANCE_Y) * stride c ≤ bottom * stride c ≤ visible_pixels c) as Hcopy
    by (unfold visible_pixels; split; apply Nat.mul_le_mono_r; lia).
  assert (top * stride c + (bottom * stride c - (top + GLYPH_ADVANCE_Y) * stride c) ≤ visible_pixels c) as Hto by lia.
  unfold copy_pixels. rewrite decide_True by (split_and!; lia). cbn [mbind outcome_bind].
  rewrite slice_Ok by (rewrite ?Hl; lia). cbn [mbind outcome_bind].
  assert (length (sub (row_lengths c) 1 (rows c)) = rows c - 1) as Hsub by (apply length_sub; lia).
  rewrite write_at_Ok by lia. cbn [mbind outcome_bind].
  rewrite set_at_Ok by (rewrite length_splice; lia). cbn [mbind outcome_bind].
  match goal with |- keeps_within _ _ (clear_band ?c1 _ _) => set (c' := c1) end.
  destruct (clear_band_within m c' (bottom - GLYPH_ADVANCE_Y) bottom) as (c2 & -> & Hs & Hw); [|done|by exists c2].
  apply (paint_within m c); [done|done|exact Hrow| |].
  - cbn. by rewrite length_insert, length_splice by lia.
  - intros i Hi. cbn. by rewrite decide_False by lia.
Qed.

Lemma new_line_within m c : within m c → keeps_within m c (new_line c).
Proof.
  intros Hc. unfold new_line. cbv zeta. case_decide as Hlast.
  - destruct (scroll_up_within m (with_cursor 0 (cursor_row c) c)) as (c' & -> & Hs & Hw); [by destruct Hc|].
    cbn [mbind outcome_bind]. eexists. split; [done|]. split; [exact Hs|].
    apply (paint_within m c'); [done|done| |apply Hw|done]. cbn. pose proof (wi_rows _ _ Hw). injection Hs as _ _ _ _ _ Hrows.
    cbn in *. lia.
  - eexists. split; [done|]. split; [done|]. apply (paint_within m c); [done|done| |apply Hc|done]. cbn in *. lia.
Qed.

Lemma clear_glyph_area_outside c x y i : visible_pixels c ≤ i → pixels (clear_glyph_area c x y) i = pixels c i.
Proof.
  intros Hi. unfold clear_glyph_area. cbn [pixels with_pixels].
  apply (foldl_keeps (λ m : Pixels, m i = pixels c i)); [|done]. intros m1 row Hm1.
  apply (foldl_keeps (λ m : Pixels, m i = pixels c i)); [|done]. intros m2 k Hm2. by rewrite put_pixel_outside.
Qed.

Lemma draw_glyph_outside c x y glyph i : visible_pixels c ≤ i → pixels (draw_glyph c x y glyph) i = pixels c i.
Proof.
  intros Hi. unfold draw_glyph. cbn [pixels with_pixels].
  apply (foldl_keeps (λ m : Pixels, m i = pixels c i)); [|done]. intros m1 [r bits] Hm1.
  apply (foldl_keeps (λ m : Pixels, m i = pixels c i)); [|done]. intros m2 k Hm2. case_match; [done|]. by rewrite put_pixel_outside.
Qed.

Lemma write_byte_within m c b : within m c → keeps_within m c (write_byte c b).
Proof.
  intros Hc. unfold write_byte.
  assert (keeps_within m c (if decide (columns c ≤ cursor_column c) then new_line c else Ok c)) as (c1 & -> & Hs & Hw)
    by (case_decide; [by apply new_line_within|by exists c]).
  cbn [mbind outcome_bind]. pose proof Hw as [Hr Hrow Hl _].
  cbn [row_lengths cursor_row with_cursor draw_glyph clear_glyph_area with_pixels].
  destruct (lookup_lt_is_Some_2 (row_lengths c1) (cursor_row c1)) as [n Hn]; [lia|].
  rewrite (get_at_Ok _ _ n) by done. cbn [mbind outcome_bind]. rewrite set_at_Ok by lia. cbn [mbind outcome_bind].
  eexists. split; [done|]. split; [exact Hs|]. apply (paint_within m c1); [done|done|exact Hrow|cbn; by rewrite length_insert|].
  intros i Hi. cbn [pixels with_lengths with_cursor]. rewrite draw_glyph_outside by exact Hi. by apply clear_glyph_area_outside.
Qed.

Lemma last_position_within lengths n : n ≤ length lengths →
  ∃ p, last_position lengths n = Ok p ∧ ∀ target, p = Some target → row target < n.
Proof.
  induction n as [|n IH]; intros Hn; [by exists None|]. cbn [last_position].
  destruct (lookup_lt_is_Some_2 lengths n) as [k Hk]; [lia|]. rewrite (get_at_Ok _ _ k) by done. cbn [mbind outcome_bind].
  case_decide; [eexists; split; [done|]; intros ? [= <-]; cbn; lia|].
  destruct IH as (p & Hp & Ht); [lia|]. exists p. split; [done|]. intros t Hpt. specialize (Ht t Hpt). lia.
Qed.

Lemma backspace_within m c : within m c → keeps_within m c ('(_, c) ← backspace_from_session c; Ok c).
Proof.
  intros Hc. assert (keeps_within m c (Ok c)) as Hsame by (by exists c). pose proof Hc as [Hr Hrow Hl Hp].
  unfold backspace_from_session. destruct (input_floor c) as [floor|]; [|done]. case_decide; [done|].
  assert (∃ p, previous_cursor_position c = Ok p ∧ ∀ target, p = Some target → row target < rows c) as (p & -> & Ht).
  { unfold previous_cursor_position. case_decide; [eexists; split; [done|]; by intros ? [= <-]|].
    destruct (last_position_within (row_lengths c) (cursor_row c)) as (p & Hpos & Ht); [lia|]. exists p. split; [done|].
    intros t Hpt. specialize (Ht t Hpt). lia. }
  cbn [mbind outcome_bind]. destruct p as [target|]; [|done]. case_decide; [done|]. specialize (Ht _ eq_refl).
  cbn [row_lengths with_cursor clear_cell clear_glyph_area with_pixels]. rewrite set_at_Ok by lia. cbn [mbind outcome_bind].
  eexists. split; [done|]. split; [done|]. apply (paint_within m c); [done|done|exact Ht|cbn; by rewrite length_insert|].
  intros i Hi. cbn [pixels with_lengths with_cursor]. by apply clear_glyph_area_outside.
Qed.

(** What the rest of the kernel can do to the console. *)
Inductive ConsoleOp := Clear | BeginSession | TerminalByte (byte : Z).
Definition console_op (c : FramebufferConsole) (op : ConsoleOp) : outcome () FramebufferConsole :=
  match op with
  | Clear => Ok (clear c)
  | BeginSession => Ok (begin_terminal_session c)
  | TerminalByte byte => write_terminal_byte c byte
  end.

Lemma console_op_within m c op : within m c → keeps_within m c (console_op c op).
Proof.
  intros Hc. destruct op as [| |b]; cbn [console_op].
  - eexists. split_and!; [done|done|by apply clear_within].
  - eexists. split_and!; [done|done|by destruct Hc].
  - unfold write_terminal_byte. case_match; [by apply new_line_within|].
    case_match; [by apply backspace_within|by apply write_byte_within].
Qed.

Lemma console_ops_within m c ops : within m c → keeps_within m c (for_each console_op c ops).
Proof.
  revert c. induction ops as [|op ops IH]; intros c Hc; [by exists c|]. cbn [for_each].
  destruct (console_op_within m c op Hc) as (c1 & -> & Hs & Hw). cbn [mbind outcome_bind].
  destruct (IH c1 Hw) as (c2 & -> & Hs2 & Hw2). exists c2. split_and!; [done|congruence|done].
Qed.

(** The visible rows are within the size of the framebuffer. *)
Lemma visible_rows_fit fb fg bg m :
  visible_pixels (FramebufferConsole_new fb fg bg m) ≤ Z.to_nat (fb_size fb) / 4.
Proof.
  unfold visible_pixels, stride. cbn [visible_height framebuffer FramebufferConsole_new]. unfold visible_height_pixels.
  case_decide as Hs; [rewrite Hs; lia|]. pose proof (Nat.Div0.mul_div_le (Z.to_nat (fb_size fb) / 4) (Z.to_nat (fb_stride fb))). nia.
Qed.

Lemma new_within fb fg bg m : within m (FramebufferConsole_new fb fg bg m).
Proof.
  assert (1 ≤ usable_rows (visible_height_pixels fb)) by (unfold usable_rows; case_decide; lia).
  split; cbn; [|unfold MAX_TRACKED_ROWS in *; lia|by rewrite length_replicate|done]. unfold MAX_TRACKED_ROWS. lia.
Qed.

(** ** Behind the lock *)

Lemma cell_bytes c c' bytes : for_each write_terminal_byte c bytes = Ok c' →
  for_each console_write_terminal_byte (mkCell true false (Some c)) bytes = Ok (mkCell true false (Some c')).
Proof.
  revert c. induction bytes as [|b bytes IH]; intros c Hc; [by injection Hc as ->|].
  cbn [for_each] in *. apply bind_Ok in Hc as (c1 & H1 & Hc).
  change (console_write_terminal_byte (mkCell true false (Some c)) b)
    with (c1 ← write_terminal_byte c b; Ok (mkCell true false (Some c1))).
  rewrite H1. cbn [mbind outcome_bind]. by apply IH.
Qed.

(** * Properties *)

(** C10. The framebuffer shows the text.  On a framebuffer with room for more
    than one row of glyphs, the console cleared, printing [boot] and then,
    with a session begun, [typed], never panics, and at the end every visible
    pixel is that of the screen of text: lines wrapped at the last column,
    scrolled when the last row is left, erased up to the session's start,
    each byte as its glyph in its cell and the background elsewhere. *)
Theorem console_refines fb fg bg m boot typed :
  roomy fb →
  let columns := usable_columns (Z.to_nat (fb_width fb)) in
  let rows := usable_rows (visible_height_pixels fb) `min` MAX_TRACKED_ROWS in
  let shown := foldl (text_byte columns rows) text_start boot in
  ∃ c1 c2, for_each write_terminal_byte (clear (FramebufferConsole_new fb fg bg m)) boot = Ok c1 ∧
    displayed c1 shown ∧
    for_each write_terminal_byte (begin_terminal_session c1) typed = Ok c2 ∧
    settings c2 = settings (FramebufferConsole_new fb fg bg m) ∧
    displayed c2 (foldl (text_byte columns rows) (text_session shown) typed).
Proof.
  intros Hro columns rows shown.
  destruct (bytes_spec _ _ boot (clear_renders fb fg bg m Hro)) as (c1 & Hc1 & Hs1 & Hr1).
  destruct (bytes_spec _ _ typed (session_renders _ _ Hr1)) as (c2 & Hc2 & Hs2 & Hr2).
  pose proof Hs1 as [= _ _ _ _ Hcol Hrow]. exists c1, c2. split_and!; [done|apply Hr1|done|by rewrite Hs2|].
  apply rn_pixels in Hr2.
  change (Console.columns (begin_terminal_session c1)) with (Console.columns c1) in Hr2.
  change (Console.rows (begin_terminal_session c1)) with (Console.rows c1) in Hr2.
  by rewrite Hcol, Hrow in Hr2.
Qed.

(** C26. The console stays within the framebuffer and never panics, whatever
    the framebuffer is: of any size, width, height and stride, also with no
    visible row, one row of glyphs, or more rows than are tracked.  After any sequence of clearing,
    beginning a session and bytes of any value, memory from the first pixel
    that is not whole within the framebuffer's size on is as it was: no unsafe
    write goes past the end. *)
Theorem console_stays_in_framebuffer fb fg bg m ops :
  ∃ c, for_each console_op (FramebufferConsole_new fb fg bg m) ops = Ok c ∧
    cursor_row c < rows c ≤ MAX_TRACKED_ROWS ∧
    ∀ i, Z.to_nat (fb_size fb) < 4 * i + 4 → pixels c i = m i.
Proof.
  destruct (console_ops_within m _ ops (new_within fb fg bg m)) as (c & Hc & Hs & [Hr Hrow _ Hp]). exists c.
  split_and!; [done|done|lia|]. intros i Hi. apply Hp.
  assert (visible_pixels c = visible_pixels (FramebufferConsole_new fb fg bg m)) as -> by
    (injection Hs as Hf _ _ Hv _ _; unfold visible_pixels, stride; by rewrite Hf, Hv).
  pose proof (visible_rows_fit fb fg bg m). pose proof (Nat.Div0.mul_div_le (Z.to_nat (fb_size fb)) 4).
  pose proof (Nat.div_mod_eq (Z.to_nat (fb_size fb)) 4). pose proof (Nat.mod_upper_bound (Z.to_nat (fb_size fb)) 4). lia.
Qed.

(** C25. A session cannot erase what stood on the screen before it.  Whatever
    bytes follow its start, each cell that showed a byte then shows it in
    the end, as many rows higher as the screen has scrolled, unless it has
    left the screen at the top. *)
Theorem session_keeps_screen c t bytes :
  renders c t →
  let k := scrolled (columns c) (rows c) (text_session t) bytes in
  ∃ c' t', for_each write_terminal_byte (begin_terminal_session c) bytes = Ok c' ∧ renders c' t' ∧
    ∀ row column byte, cell t row column = Some byte → k ≤ row → cell t' (row - k) column = Some byte.
Proof.
  intros Hr k. destruct (bytes_spec _ _ bytes (session_renders c t Hr)) as (c' & Hc & _ & Hr').
  eexists c', _. split_and!; [done|exact Hr'|]. clear Hr' Hc. intros row column byte Hcell Hk.
  change (Console.columns (begin_terminal_session c)) with (Console.columns c).
  change (Console.rows (begin_terminal_session c)) with (Console.rows c).
  destruct (kept_bytes (Console.columns c) (Console.rows c) t 0 (text_session t) bytes (kept_session t)) as [_ Hl].
  rewrite Nat.add_0_r in Hl. fold k in Hl.
  assert (row ≤ length (above t)) as Hrow.
  { apply Nat.nlt_ge. intros ?. by rewrite cell_beyond in Hcell by (rewrite length_text_lines; lia). }
  destruct Hl as (l & rest & Hl); [lia|]. unfold cell in *. rewrite Hl.
  destruct (decide (row = length (above t))) as [->|Hne].
  - rewrite lookup_app_r, length_drop, Nat.sub_diag by (rewrite length_drop; lia). cbn.
    unfold text_lines in Hcell. rewrite lookup_app_r, Nat.sub_diag in Hcell by lia. cbn in Hcell.
    by apply lookup_app_l_Some.
  - rewrite lookup_app_l by (rewrite length_drop; lia). rewrite lookup_drop. replace (k + (row - k)) with row by lia.
    unfold text_lines in Hcell. by rewrite lookup_app_l in Hcell by lia.
Qed.

(** C24. From a program to the screen.  Of the bytes that a process writes to its
    terminal handle the first 1024, as many as the queue holds, reach the
    framebuffer at the next flush: every visible pixel is then that of the
    text with these bytes.  Their number is what the write returns; what is
    beyond it is not shown, also when the caller ignores the number.  The
    bytes reach the serial line at once, newlines as CR LF, and with them the
    first one that was refused.  The flush empties the queue and returns. *)
Theorem program_output_on_screen p fd t c text data :
  resolve_fd p fd = Some TerminalEndpointObject →
  holds (output t) [] → SERIAL_READY (serial t) = true → renders c text →
  ∃ t' q s c', Process.write p fd data t = Ok (length data `min` TERMINAL_OUTPUT_CAPACITY, t') ∧
    flush_output console_write_terminal_byte t' (mkCell true false (Some c)) =
      Ok (mkEndpoint (input t) q s, mkCell true false (Some c')) ∧
    holds q [] ∧ sent s = sent (serial t) ++ crlf (take (TERMINAL_OUTPUT_CAPACITY + 1) data) ∧
    displayed c' (foldl (text_byte (columns c) (rows c)) text (take TERMINAL_OUTPUT_CAPACITY data)).
Proof.
  intros Hfd Ho Hs Hr. destruct (write_terminal p fd data t [] Hfd Ho) as (q & Hwr & Hq). cbn [length app] in Hwr, Hq.
  rewrite Nat.sub_0_r in Hwr, Hq.
  destruct (bytes_spec c text (take TERMINAL_OUTPUT_CAPACITY data) Hr) as (c' & Hc & _ & Hr').
  destruct (flush_output_spec console_write_terminal_byte
    (mkEndpoint (input t) q (foldl serial_write_byte (serial t) (take (S TERMINAL_OUTPUT_CAPACITY) data)))
    (mkCell true false (Some c)) (mkCell true false (Some c')) _ Hq (cell_bytes _ _ _ Hc)) as (q' & Hf & Hq').
  do 4 eexists. split_and!; [exact Hwr|exact Hf|done|by rewrite Nat.add_1_r; apply serial_log|apply Hr'].
Qed.

(** Four columns and five rows. *)
Definition sample_screen : FramebufferInfo := mkFramebuffer 0x80000000 20480 60 80 64 Rgb.

Lemma sample_screen_roomy : roomy sample_screen.
Proof. split; [cbn; lia|]. apply Nat.ltb_lt. by vm_compute. Qed.

(** The last row of pixels of the letter L, in the third row of text. *)
Lemma console_refines_witness :
  ∃ c1 c2, for_each write_terminal_byte (clear (FramebufferConsole_new sample_screen 0 0xff (λ _, 7%Z))) (ascii "lazers") = Ok c1 ∧
    for_each write_terminal_byte (begin_terminal_session c1) [10; 108; 109; 0x7f]%Z = Ok c2 ∧
    map (λ x, pixels c2 (42 * stride c2 + x)) (seq 15 8) = [0xff0000; 0; 0; 0; 0; 0; 0xff0000; 0xff0000]%Z.
Proof.
  destruct (console_refines sample_screen 0 0xff (λ _, 7%Z) (ascii "lazers") [10; 108; 109; 0x7f]%Z sample_screen_roomy)
    as (c1 & c2 & H1 & _ & H2 & Hs & Hd).
  pose proof (settings_framebuffer _ _ Hs) as (Hf & Hfg & Hbg & Hvh).
  exists c1, c2. split; [exact H1|]. split; [exact H2|]. cbn [map seq].
  unfold displayed, width, stride, encode_color in *. rewrite Hf, Hfg, Hbg, Hvh in *.
  rewrite !Hd by (apply Nat.ltb_lt; by vm_compute). vm_compute. reflexivity.
Defined.

Lemma session_keeps_screen_witness :
  ∃ c c' t', for_each write_terminal_byte (clear (FramebufferConsole_new sample_screen 0 0xff (λ _, 7%Z))) (ascii "ok") = Ok c ∧
    for_each write_terminal_byte (begin_terminal_session c) [0x7f; 97; 10; 0x7f; 0x7f; 0x7f]%Z = Ok c' ∧ renders c' t' ∧
    cell t' 0 0 = Some 111%Z ∧ cell t' 0 1 = Some 107%Z.
Proof.
  destruct (bytes_spec _ _ (ascii "ok") (clear_renders sample_screen 0 0xff (λ _, 7%Z) sample_screen_roomy)) as (c & Hc & Hs & Hr).
  destruct (session_keeps_screen c _ [0x7f; 97; 10; 0x7f; 0x7f; 0x7f]%Z Hr) as (c' & t' & Hc' & Hr' & Hcell).
  exists c, c', t'. split; [exact Hc|]. split; [exact Hc'|]. split; [exact Hr'|].
  pose proof (f_equal (λ s, (snd s, snd (fst s))) Hs) as Hg. cbn [settings fst snd] in Hg.
  assert (rows c = 5 ∧ columns c = 4) as [Hrow Hcol] by (split; [refine (eq_trans (f_equal fst Hg) _)|refine (eq_trans (f_equal snd Hg) _)]; by vm_compute).
  rewrite Hrow, Hcol in Hcell. split.
  - apply (Hcell 0 0); [by vm_compute|apply Nat.leb_le; by vm_compute].
  - apply (Hcell 0 1); [by vm_compute|apply Nat.leb_le; by vm_compute].
Defined.

Lemma program_output_on_screen_witness :
  let p := set_stdio (mkStdio 0 1 2)%Z (with_handles (replicate 8 (Some TerminalEndpointObject))
    (Process_new 1 "shell" (mkSpace 0x1000) OwnedPages_empty Continue)) in
  let t := TerminalEndpoint_new (mkSerial true []) in
  let c := clear (FramebufferConsole_new sample_screen 0 0xff (λ _, 7%Z)) in
  ∃ t' q s c', Process.write p 1 (ascii "hi" ++ [10]%Z) t = Ok (3, t') ∧
    flush_output console_write_terminal_byte t' (mkCell true false (Some c)) =
      Ok (mkEndpoint (input t) q s, mkCell true false (Some c')) ∧
    holds q [] ∧ sent s = ascii "hi" ++ [13; 10]%Z ∧ displayed c' (mkText [ascii "hi"] [] None).
Proof.
  intros p t c. destruct (program_output_on_screen p 1 t c text_start (ascii "hi" ++ [10]%Z)) as (t' & q & s & c' & H1 & H2 & H3 & H4 & H5).
  - reflexivity.
  - apply (ByteQueue_new_holds TERMINAL_OUTPUT_CAPACITY). unfold TERMINAL_OUTPUT_CAPACITY. lia.
  - reflexivity.
  - exact (clear_renders sample_screen 0 0xff (λ _, 7%Z) sample_screen_roomy).
  - exists t', q, s, c'. split; [exact H1|]. split; [exact H2|]. split; [exact H3|]. split; [exact H4|].
    assert (foldl (text_byte (columns c) (rows c)) text_start (take TERMINAL_OUTPUT_CAPACITY (ascii "hi" ++ [10]%Z)) =
      mkText [ascii "hi"] [] None) as Ht by by vm_compute.
    rewrite <-Ht. exact H5.
Defined.

(** ** Where the code differs from the screen of text *)

(** When the row of the floor has left the screen, its column stays: on the
    row that is the first one now, what a program writes there cannot be
    erased. *)
Example floor_column_stays :
  foldl (text_byte 10 1) (text_session (mkText [] (ascii "> ") None)) [10; 120; 0x7f]%Z =
  mkText [] (ascii "x") (Some (mkCursor 2 0)).
Proof. by vm_compute. Qed.

(** On a framebuffer too low for a row of glyphs between the paddings, a new
    line clears the band between them only, and the lower part of the last
    glyphs stays. *)
Example low_screen_keeps_ink :
  let fb := mkFramebuffer 0x80000000 8704 60 34 64 Rgb in
  match for_each write_terminal_byte (clear (FramebufferConsole_new fb 1 0 (λ _, 7%Z))) [108; 10]%Z with
  | Ok c => pixels c (22 * 64 + 16) = encode_color c (foreground c) ∧ encode_color c (foreground c) ≠ encode_color c (background c)
  | _ => False
  end.
Proof. by vm_compute. Qed.
