(* ===== verification/Power.v ===== *)
(** * Power control ([kernel/kernel/src/power.rs])

    The search for the ACPI soft-off registers in the firmware's tables and
    the writes that turn the machine off.  The tables are bytes of physical
    memory that the firmware left; mapping them is a call of the memory
    module, given to the section as [map_range] and instantiated with
    [KernelSpace.map_kernel_identity_range]. *)

From S2P Require Import Prelude Bytes Errors Allocator Process Paging KernelSpace.

Definition RSDP_V1_LENGTH : nat := 20.
Definition RSDP_V2_LENGTH : nat := 36.
Definition SDT_HEADER_LENGTH : nat := 36.
Definition FADT_SIGNATURE : list Z := ascii "FACP".
Definition RSDT_SIGNATURE : list Z := ascii "RSDT".
Definition XSDT_SIGNATURE : list Z := ascii "XSDT".
Definition DSDT_SIGNATURE : list Z := ascii "DSDT".

Definition FADT_DSDT_OFFSET : nat := 40.
Definition FADT_PM1A_CONTROL_BLOCK_OFFSET : nat := 64.
Definition FADT_PM1B_CONTROL_BLOCK_OFFSET : nat := 68.
Definition FADT_PM1_CONTROL_LENGTH_OFFSET : nat := 89.
Definition FADT_X_DSDT_OFFSET : nat := 140.
Definition FADT_X_PM1A_CONTROL_BLOCK_OFFSET : nat := 172.
Definition FADT_X_PM1B_CONTROL_BLOCK_OFFSET : nat := 184.
Definition GAS_LENGTH : nat := 12.
Definition GAS_SPACE_ID_SYSTEM_IO : Z := 1.

Definition AML_NAME_OP : Z := 0x08.
Definition AML_PACKAGE_OP : Z := 0x12.
Definition AML_ROOT_PREFIX : Z := 0x5c.
Definition AML_PARENT_PREFIX : Z := 0x5e.
Definition AML_BYTE_PREFIX : Z := 0x0a.
Definition AML_WORD_PREFIX : Z := 0x0b.
Definition AML_DWORD_PREFIX : Z := 0x0c.
Definition AML_QWORD_PREFIX : Z := 0x0e.

Definition PM1_CONTROL_SLEEP_TYPE_SHIFT : Z := 10.
Definition PM1_CONTROL_SLEEP_ENABLE : Z := Z.shiftl 1 13.

Inductive RootTableKind := Rsdt | Xsdt.
Record RootTable := mkRootTable { rt_kind : RootTableKind; rt_address : Z }.

Record AcpiShutdown := mkShutdown {
  pm1a_control_block : Z;
  pm1b_control_block : option Z;
  sleep_type_a : Z;
  sleep_type_b : Z
}.

Inductive PowerError :=
| MissingRsdp | InvalidRsdp | MissingRootTable | InvalidRootTable | MissingFadt | InvalidFadt
| MissingDsdt | InvalidDsdt | MissingPm1ControlBlock | UnsupportedPm1ControlBlock
| MissingS5Package | InvalidS5Package | MappingFailed.

Definition power_error_as_str (e : PowerError) : list Z :=
  match e with
  | MissingRsdp => ascii "ACPI RSDP was not provided by the loader"
  | InvalidRsdp => ascii "ACPI RSDP was malformed or failed checksum validation"
  | MissingRootTable => ascii "ACPI root system table address was missing"
  | InvalidRootTable => ascii "ACPI root system table was malformed or invalid"
  | MissingFadt => ascii "ACPI FADT table was not found"
  | InvalidFadt => ascii "ACPI FADT table was malformed or unsupported"
  | MissingDsdt => ascii "ACPI DSDT table was not found"
  | InvalidDsdt => ascii "ACPI DSDT table was malformed or unsupported"
  | MissingPm1ControlBlock => ascii "ACPI PM1 control block was not described"
  | UnsupportedPm1ControlBlock => ascii "ACPI PM1 control block used an unsupported address format"
  | MissingS5Package => ascii "ACPI DSDT did not expose an _S5 shutdown package"
  | InvalidS5Package => ascii "ACPI _S5 shutdown package was malformed"
  | MappingFailed => ascii "kernel could not map the ACPI table range"
  end.

Inductive PowerBackend :=
| Uninitialized
| AcpiSoftOff (shutdown : AcpiShutdown)
| Unavailable (e : PowerError).

Record FadtInfo := mkFadtInfo {
  fi_dsdt_address : Z;
  fi_pm1a_control_block : Z;
  fi_pm1b_control_block : option Z
}.

Abbreviation pres := (outcome PowerError).

(** ** Fields of tables *)

Definition read_u32 (bytes : list Z) (offset : nat) : option Z :=
  from_le_bytes <$> get_range bytes offset (offset + 4).
Definition read_u64 (bytes : list Z) (offset : nat) : option Z :=
  from_le_bytes <$> get_range bytes offset (offset + 8).

(** [&bytes[..n] == text] *)
Definition prefix_is (bytes : list Z) (n : nat) (text : list Z) : pres bool :=
  s ← slice bytes 0 n; Ok (bool_decide (s = text)).

Definition checksum (bytes : list Z) (length : nat) : pres Z :=
  s ← slice bytes 0 length; Ok (foldl (λ sum byte, (sum + byte) mod 256)%Z 0%Z s).

Definition parse_table_length (bytes : list Z) : option nat :=
  length ← Z.to_nat <$> read_u32 bytes 4;
  if decide (length < SDT_HEADER_LENGTH) then None else Some length.

Definition table_error (signature : list Z) : PowerError :=
  if decide (signature = FADT_SIGNATURE) then InvalidFadt
  else if decide (signature = DSDT_SIGNATURE) then InvalidDsdt
  else InvalidRootTable.

Definition parse_sdt_header (bytes expected_signature : list Z) : pres () :=
  if decide (length bytes < SDT_HEADER_LENGTH) then Err (table_error expected_signature)
  else
    n ← ok_or (parse_table_length bytes) (table_error expected_signature);
    if decide (length bytes < n) then Err (table_error expected_signature)
    else
      same ← prefix_is bytes 4 expected_signature;
      if negb same then Err (table_error expected_signature)
      else
        sum ← checksum bytes n;
        if negb (sum =? 0)%Z then Err (table_error expected_signature) else Ok tt.

Definition RSDP_TEXT : list Z := ascii "RSD PTR ".

Definition parse_rsdp (bytes : list Z) : pres RootTable :=
  if decide (length bytes < RSDP_V1_LENGTH) then Err InvalidRsdp
  else
    same ← prefix_is bytes 8 RSDP_TEXT;
    if negb same then Err InvalidRsdp
    else
      sum ← checksum bytes RSDP_V1_LENGTH;
      if negb (sum =? 0)%Z then Err InvalidRsdp
      else
        revision ← get_at bytes 15;
        xsdt ← (if (2 <=? revision)%Z then
          if decide (length bytes < RSDP_V2_LENGTH) then Err InvalidRsdp
          else
            n ← ok_or (Z.to_nat <$> read_u32 bytes 20) InvalidRsdp;
            if decide (n < RSDP_V2_LENGTH ∨ length bytes < n) then Err InvalidRsdp
            else
              sum ← checksum bytes n;
              if negb (sum =? 0)%Z then Err InvalidRsdp
              else ok_or (read_u64 bytes 24) InvalidRsdp
          else Ok 0%Z);
        if negb (xsdt =? 0)%Z then Ok (mkRootTable Xsdt xsdt)
        else
          rsdt ← ok_or (read_u32 bytes 16) InvalidRsdp;
          if (rsdt =? 0)%Z then Err MissingRootTable else Ok (mkRootTable Rsdt rsdt).

(** ** The FADT *)

Definition parse_system_io_gas (bytes : list Z) : pres (option Z) :=
  if decide (length bytes < GAS_LENGTH) then Err InvalidFadt
  else
    space_id ← get_at bytes 0;
    bit_width ← get_at bytes 1;
    address ← ok_or (read_u64 bytes 4) InvalidFadt;
    if (address =? 0)%Z then Ok None
    else if negb (space_id =? GAS_SPACE_ID_SYSTEM_IO)%Z || (bit_width <? 16)%Z || (2 ^ 16 - 1 <? address)%Z
    then Err UnsupportedPm1ControlBlock
    else Ok (Some (address mod 2 ^ 16)%Z).

Definition select_pm1_control_block (bytes : list Z) (legacy_offset extended_offset : nat)
    : pres (option Z) :=
  extended ← (if decide (extended_offset + GAS_LENGTH ≤ length bytes) then
      gas ← slice bytes extended_offset (extended_offset + GAS_LENGTH); parse_system_io_gas gas
    else Ok None);
  match extended with
  | Some address => Ok (Some address)
  | None =>
      legacy ← ok_or (read_u32 bytes legacy_offset) InvalidFadt;
      if (legacy =? 0)%Z then Ok None
      else if (2 ^ 16 - 1 <? legacy)%Z then Err UnsupportedPm1ControlBlock
      else Ok (Some (legacy mod 2 ^ 16)%Z)
  end.

Definition select_dsdt_address (bytes : list Z) : pres Z :=
  x_dsdt ← (if decide (FADT_X_DSDT_OFFSET + 8 ≤ length bytes)
            then ok_or (read_u64 bytes FADT_X_DSDT_OFFSET) InvalidFadt else Ok 0%Z);
  if negb (x_dsdt =? 0)%Z then Ok x_dsdt
  else
    dsdt ← ok_or (read_u32 bytes FADT_DSDT_OFFSET) InvalidFadt;
    if (dsdt =? 0)%Z then Err MissingDsdt else Ok dsdt.

Definition parse_fadt (bytes : list Z) : pres FadtInfo :=
  _ ← parse_sdt_header bytes FADT_SIGNATURE;
  if decide (length bytes ≤ FADT_PM1_CONTROL_LENGTH_OFFSET) then Err InvalidFadt
  else
    width ← get_at bytes FADT_PM1_CONTROL_LENGTH_OFFSET;
    if (width <? 2)%Z then Err InvalidFadt
    else
      dsdt_address ← select_dsdt_address bytes;
      pm1a ← select_pm1_control_block bytes FADT_PM1A_CONTROL_BLOCK_OFFSET FADT_X_PM1A_CONTROL_BLOCK_OFFSET;
      pm1a ← ok_or pm1a MissingPm1ControlBlock;
      pm1b ← select_pm1_control_block bytes FADT_PM1B_CONTROL_BLOCK_OFFSET FADT_X_PM1B_CONTROL_BLOCK_OFFSET;
      Ok (mkFadtInfo dsdt_address pm1a pm1b).

(** ** The _S5 package of the DSDT *)

Definition parse_package_length (bytes : list Z) : pres (option (nat * nat)) :=
  match head bytes with
  | None => Ok None
  | Some lead =>
      let following_bytes := Z.to_nat (Z.shiftr lead 6) in
      if decide (length bytes < 1 + following_bytes) then Ok None
      else
        n ← for_each (λ n index,
          b ← get_at bytes (1 + index);
          Ok (Z.lor n (Z.shiftl b (4 + Z.of_nat index * 8)))) (Z.land lead 0x0f) (seq 0 following_bytes);
        Ok (Some (Z.to_nat n, 1 + following_bytes))
  end.

Definition parse_aml_integer (bytes : list Z) : option (Z * nat) :=
  let prefixed (n : nat) :=
    s ← get_range bytes 1 (1 + n); Some ((from_le_bytes s mod 2 ^ 16)%Z, 1 + n) in
  match head bytes with
  | None => None
  | Some opcode =>
      if (opcode =? 0x00)%Z then Some (0%Z, 1)
      else if (opcode =? 0x01)%Z then Some (1%Z, 1)
      else if (opcode =? AML_BYTE_PREFIX)%Z then prefixed 1
      else if (opcode =? AML_WORD_PREFIX)%Z then prefixed 2
      else if (opcode =? AML_DWORD_PREFIX)%Z then prefixed 4
      else if (opcode =? AML_QWORD_PREFIX)%Z then prefixed 8
      else None
  end.

Definition S5_NAME : list Z := ascii "_S5_".

(** Where the name of a [Name] would start, if one starts at [index]. *)
Definition name_start (aml : list Z) (index : nat) : pres (option nat) :=
  b ← get_at aml index;
  if (b =? AML_NAME_OP)%Z then Ok (Some (index + 1))
  else if decide (index + 1 < length aml) then
    if (b =? AML_ROOT_PREFIX)%Z || (b =? AML_PARENT_PREFIX)%Z then
      b' ← get_at aml (index + 1);
      Ok (if (b' =? AML_NAME_OP)%Z then Some (index + 2) else None)
    else Ok None
  else Ok None.

(** The two sleep types behind the package operator. *)
Definition s5_values (aml : list Z) (cursor : nat) : pres (Z * Z) :=
  rest ← slice aml cursor (length aml);
  p ← parse_package_length rest;
  '(_, package_length_bytes) ← ok_or p InvalidS5Package;
  let cursor := cursor + package_length_bytes in
  if decide (length aml ≤ cursor) then Err InvalidS5Package
  else
    let cursor := cursor + 1 in
    rest ← slice aml cursor (length aml);
    '(a, consumed_a) ← ok_or (parse_aml_integer rest) InvalidS5Package;
    let cursor := cursor + consumed_a in
    rest ← slice aml cursor (length aml);
    '(b, _) ← ok_or (parse_aml_integer rest) InvalidS5Package;
    Ok (Z.land a 0x7, Z.land b 0x7).

Definition s5_step (aml : list Z) (index : nat) : pres (nat + Z * Z) :=
  if decide (index + 6 ≤ length aml) then
    start ← name_start aml index;
    match start with
    | None => Ok (inl (index + 1))
    | Some start =>
        if decide (length aml < start + 4) then Ok (inl (index + 1))
        else
          name ← slice aml start (start + 4);
          if negb (bool_decide (name = S5_NAME)) then Ok (inl (index + 1))
          else
            let cursor := start + 4 in
            if decide (length aml ≤ cursor) then Ok (inl (index + 1))
            else
              op ← get_at aml cursor;
              if negb (op =? AML_PACKAGE_OP)%Z then Ok (inl (index + 1))
              else v ← s5_values aml (cursor + 1); Ok (inr v)
    end
  else Err MissingS5Package.

Definition parse_s5_package (dsdt : list Z) : pres (Z * Z) :=
  _ ← parse_sdt_header dsdt DSDT_SIGNATURE;
  aml ← slice dsdt SDT_HEADER_LENGTH (length dsdt);
  while (S (length aml)) (s5_step aml) 0.

(** ** Finding the tables *)

Definition root_table_signature (kind : RootTableKind) : list Z :=
  match kind with Rsdt => RSDT_SIGNATURE | Xsdt => XSDT_SIGNATURE end.

Section Discover.
Context {St : Type}.

(** An error carries the state that it leaves. *)
Abbreviation spres := (outcome (PowerError * St)).
Definition keep {A} (st : St) (o : pres A) : spres A := map_err (λ e, (e, st)) o.

Context (map_range : St → Z → Z → spres St) (physical : St → Z → Z).

(** The bytes that a slice over mapped memory shows now.  It is read only after
    [map_range] has mapped it, so there is no fault; what a physical address
    without memory shows is up to [physical]. *)
Definition bytes_at (st : St) (address : Z) (len : nat) : list Z :=
  map (physical st) (seqZ address (Z.of_nat len)).

Definition map_bytes (st : St) (address : Z) (len : nat) : spres (list Z * St) :=
  if decide (len = 0) then Err (MappingFailed, st)
  else
    end_ ← ok_or (checked_add address (Z.of_nat len)) (MappingFailed, st);
    st ← map_range st address end_;
    Ok (bytes_at st address len, st).

(** The bytes of the table, and how many they are. *)
Definition map_sdt (st : St) (address : Z) (expected_signature : list Z) : spres (list Z * St) :=
  if (address =? 0)%Z then Err (MissingRootTable, st)
  else
    '(header, st) ← map_bytes st address SDT_HEADER_LENGTH;
    n ← ok_or (parse_table_length header) (InvalidRootTable, st);
    '(table, st) ← map_bytes st address n;
    _ ← keep st (parse_sdt_header table expected_signature);
    Ok (table, st).

(** One entry of the root table, which is read where it lies. *)
Definition fadt_step (address : Z) (len : nat) (entry_size : nat) (v : nat * St)
    : spres (nat * St + Z * St) :=
  let '(offset, st) := v in
  let root := bytes_at st address len in
  if decide (offset + entry_size ≤ length root) then
    table_address ← ok_or (if decide (entry_size = 4) then read_u32 root offset else read_u64 root offset)
                      (InvalidRootTable, st);
    if negb (table_address =? 0)%Z then
      '(header, st) ← map_bytes st table_address SDT_HEADER_LENGTH;
      same ← keep st (if decide (4 ≤ length header) then prefix_is header 4 FADT_SIGNATURE else Ok false);
      if (same : bool) then Ok (inr (table_address, st)) else Ok (inl (offset + entry_size, st))
    else Ok (inl (offset + entry_size, st))
  else Err (MissingFadt, st).

Definition find_fadt_address (st : St) (address : Z) (len : nat) (kind : RootTableKind) : spres (Z * St) :=
  while (S len) (fadt_step address len (match kind with Rsdt => 4 | Xsdt => 8 end)) (SDT_HEADER_LENGTH, st).

Definition discover_acpi_shutdown (st : St) (acpi_rsdp_addr : Z) : spres (AcpiShutdown * St) :=
  if (acpi_rsdp_addr =? 0)%Z then Err (MissingRsdp, st)
  else
    '(rsdp, st) ← map_bytes st acpi_rsdp_addr RSDP_V2_LENGTH;
    root_table ← keep st (parse_rsdp rsdp);
    '(root, st) ← map_sdt st (rt_address root_table) (root_table_signature (rt_kind root_table));
    '(fadt_address, st) ← find_fadt_address st (rt_address root_table) (length root) (rt_kind root_table);
    '(fadt, st) ← map_sdt st fadt_address FADT_SIGNATURE;
    fadt_info ← keep st (parse_fadt fadt);
    '(dsdt, st) ← map_sdt st (fi_dsdt_address fadt_info) DSDT_SIGNATURE;
    '(a, b) ← keep st (parse_s5_package dsdt);
    Ok (mkShutdown (fi_pm1a_control_block fadt_info) (fi_pm1b_control_block fadt_info) a b, st).

(** [power::init] with the state it leaves. *)
Definition init (st : St) (acpi_rsdp_addr : Z) : outcome () (PowerBackend * St) :=
  match discover_acpi_shutdown st acpi_rsdp_addr with
  | Ok (shutdown, st) => Ok (AcpiSoftOff shutdown, st)
  | Err (e, st) => Ok (Unavailable e, st)
  | Panic => Panic
  | Hang => Hang
  end.

End Discover.

(** The kernel's memory. *)
Definition kernel_map_range (st : MemoryState) (start end_ : Z) : outcome (PowerError * MemoryState) MemoryState :=
  '(st, _) ← map_err (λ '(_, st), (MappingFailed, st)) (map_kernel_identity_range st start end_ false); Ok st.
Definition kernel_physical (st : MemoryState) : Z → Z := memory (store st).

(** ** Turning off *)

Definition sleep_command (sleep_type : Z) : Z :=
  Z.lor (Z.shiftl sleep_type PM1_CONTROL_SLEEP_TYPE_SHIFT mod 2 ^ 16) PM1_CONTROL_SLEEP_ENABLE.

(** The 16-bit port writes of [AcpiShutdown::perform], in order. *)
Definition perform (s : AcpiShutdown) : list (Z * Z) :=
  (pm1a_control_block s, sleep_command (sleep_type_a s)) ::
  match pm1b_control_block s with
  | Some pm1b => [(pm1b, sleep_command (sleep_type_b s))]
  | None => []
  end.

(** [shutdown]: the port writes and the reason printed before it halts. *)
Definition shutdown (backend : PowerBackend) : list (Z * Z) * list Z :=
  match backend with
  | AcpiSoftOff s => (perform s, ascii "firmware did not power off the machine")
  | Unavailable e => ([], power_error_as_str e)
  | Uninitialized => ([], ascii "power subsystem was not initialized")
  end.

(** ** Specification: what the firmware leaves *)

(** A field of [n] bytes, little end first. *)
Definition field (bytes : list Z) (offset n : nat) : Z := from_le_bytes (sub bytes offset (offset + n)).

Definition byte_sum (bytes : list Z) : Z := foldl Z.add 0%Z bytes.

(** A table that is what its header says. *)
Record table_ok (signature bytes : list Z) : Prop := {
  tb_size : SDT_HEADER_LENGTH ≤ length bytes;
  tb_signature : take 4 bytes = signature;
  tb_length : field bytes 4 4 = Z.of_nat (length bytes);
  tb_sum : (byte_sum bytes mod 256 = 0)%Z
}.

(** The bytes stand at [address], inside the firmware's memory [area]. *)
Definition inside (area : Z → Prop) (start end_ : Z) : Prop := ∀ x, (start ≤ x < end_)%Z → area x.
Record lies (area : Z → Prop) (mem : Z → Z) (address : Z) (bytes : list Z) : Prop := {
  ly_range : (0 < address ∧ address + Z.of_nat (length bytes) < 2 ^ 64)%Z;
  ly_inside : inside area address (address + Z.of_nat (length bytes));
  ly_bytes : ∀ i b, bytes !! i = Some b → mem (address + Z.of_nat i)%Z = b
}.

(** A version 2 root pointer to an XSDT. *)
Record rsdp_ok (bytes : list Z) (xsdt_address : Z) : Prop := {
  rp_size : length bytes = RSDP_V2_LENGTH;
  rp_text : take 8 bytes = RSDP_TEXT;
  rp_revision : ∃ revision, bytes !! 15 = Some revision ∧ (2 ≤ revision)%Z;
  rp_length : field bytes 20 4 = Z.of_nat RSDP_V2_LENGTH;
  rp_sum1 : (byte_sum (take RSDP_V1_LENGTH bytes) mod 256 = 0)%Z;
  rp_sum2 : (byte_sum bytes mod 256 = 0)%Z;
  rp_xsdt : field bytes 24 8 = xsdt_address
}.

(** An FADT with extended fields: a generic address of sixteen bits or more in
    the I/O space, or none and no legacy address either. *)
Definition gas_ok (fadt : list Z) (legacy extended : nat) (port : option Z) : Prop :=
  match port with
  | Some port => (0 < port < 2 ^ 16)%Z ∧ field fadt (extended + 4) 8 = port ∧
      fadt !! extended = Some GAS_SPACE_ID_SYSTEM_IO ∧
      ∃ width, fadt !! (extended + 1) = Some width ∧ (16 ≤ width)%Z
  | None => field fadt (extended + 4) 8 = 0%Z ∧ field fadt legacy 4 = 0%Z
  end.

Record fadt_ok (fadt : list Z) (dsdt_address : Z) (pm1a : Z) (pm1b : option Z) : Prop := {
  fa_table : table_ok FADT_SIGNATURE fadt;
  fa_size : FADT_X_PM1B_CONTROL_BLOCK_OFFSET + GAS_LENGTH ≤ length fadt;
  fa_width : ∃ width, fadt !! FADT_PM1_CONTROL_LENGTH_OFFSET = Some width ∧ (2 ≤ width)%Z;
  fa_dsdt : field fadt FADT_X_DSDT_OFFSET 8 = dsdt_address;
  fa_pm1a : gas_ok fadt FADT_PM1A_CONTROL_BLOCK_OFFSET FADT_X_PM1A_CONTROL_BLOCK_OFFSET (Some pm1a);
  fa_pm1b : gas_ok fadt FADT_PM1B_CONTROL_BLOCK_OFFSET FADT_X_PM1B_CONTROL_BLOCK_OFFSET pm1b
}.

(** [Name (_S5_, Package () { a, b, ... })] *)
Definition aml_byte (v : Z) : list Z :=
  (if v =? 0 then [0x00] else if v =? 1 then [0x01] else [AML_BYTE_PREFIX; v])%Z.
Definition aml_name : list Z := AML_NAME_OP :: S5_NAME.
Definition aml_s5 (package_length elements a b : Z) : list Z :=
  aml_name ++ [AML_PACKAGE_OP; package_length; elements] ++ aml_byte a ++ aml_byte b.

Record dsdt_ok (dsdt : list Z) (a b : Z) : Prop := {
  ds_table : table_ok DSDT_SIGNATURE dsdt;
  ds_types : (0 ≤ a < 8 ∧ 0 ≤ b < 8)%Z;
  ds_code : ∃ pre n elements post, drop SDT_HEADER_LENGTH dsdt = pre ++ aml_s5 n elements a b ++ post ∧
    (0 ≤ n < 64)%Z ∧
    ∀ i, i < length pre → sub (drop SDT_HEADER_LENGTH dsdt) i (i + 5) ≠ aml_name
}.

(** An entry of the root table that does not lead to the FADT. *)
Definition other_table (area : Z → Prop) (mem : Z → Z) (t : Z) : Prop :=
  t = 0%Z ∨ ((0 < t ∧ t + 36 < 2 ^ 64)%Z ∧ inside area t (t + 36) ∧ map mem (seqZ t 4) ≠ FADT_SIGNATURE).

(** The firmware's tables, from the root pointer to the sleep types. *)
Record firmware (area : Z → Prop) (mem : Z → Z) (rsdp_address pm1a : Z) (pm1b : option Z) (a b : Z) : Prop := {
  fw_rsdp : ∃ rsdp xsdt_address xsdt before fadt_address after fadt dsdt_address dsdt,
    lies area mem rsdp_address rsdp ∧ rsdp_ok rsdp xsdt_address ∧
    lies area mem xsdt_address xsdt ∧ table_ok XSDT_SIGNATURE xsdt ∧
    drop SDT_HEADER_LENGTH xsdt = concat (map (to_le_bytes 8) (before ++ fadt_address :: after)) ∧
    Forall (other_table area mem) before ∧
    lies area mem fadt_address fadt ∧ fadt_ok fadt dsdt_address pm1a pm1b ∧
    lies area mem dsdt_address dsdt ∧ dsdt_ok dsdt a b
}.

(** * Lemmas *)

(** ** No panics *)

Lemma returns_ok_or {E A} (o : option A) (e : E) : returns (ok_or o e).
Proof. by destruct o. Qed.

Lemma returns_slice {E A} (l : list A) a b : a ≤ b → b ≤ length l → returns (slice (E:=E) l a b).
Proof. intros. by rewrite slice_Ok. Qed.

Lemma returns_get_at {E A} (l : list A) i : i < length l → returns (get_at (E:=E) l i).
Proof. intros [x Hx]%lookup_lt_is_Some_2. by rewrite (get_at_Ok _ _ _ Hx). Qed.

Lemma returns_keep {St A} (st : St) (o : pres A) : returns o → returns (keep st o).
Proof. by destruct o. Qed.

Create HintDb returns.
#[local] Hint Resolve returns_ok_or returns_slice returns_get_at : returns.

(** Goes through a computation one bind or one test at a time. *)
Ltac returns_step :=
  match goal with
  | |- returns (_ ≫= _) => apply bind_returns; [|let x := fresh "x" in let H := fresh "Hx" in intros x H]
  | |- returns (let '_ := ?x in _) => destruct x
  | |- returns (if decide _ then _ else _) => case_decide
  | |- returns (if ?b then _ else _) => destruct b eqn:?
  | |- returns (match ?x with _ => _ end) => destruct x eqn:?
  | |- returns (Ok _) => exact I
  | |- returns (Err _) => exact I
  | |- returns (ok_or _ _) => apply returns_ok_or
  | |- returns (keep _ _) => apply returns_keep
  end.
Ltac returns_auto := repeat returns_step; try (eauto with returns lia).

Lemma prefix_is_returns bytes n text : n ≤ length bytes → returns (prefix_is bytes n text).
Proof. intros. unfold prefix_is. rewrite slice_Ok by lia. done. Qed.

Lemma checksum_returns bytes n : n ≤ length bytes → returns (checksum bytes n).
Proof. intros. unfold checksum. rewrite slice_Ok by lia. done. Qed.

Lemma parse_sdt_header_returns bytes signature : returns (parse_sdt_header bytes signature).
Proof.
  unfold parse_sdt_header, SDT_HEADER_LENGTH. repeat returns_step.
  - apply prefix_is_returns. lia.
  - apply checksum_returns. lia.
Qed.

Lemma parse_rsdp_returns bytes : returns (parse_rsdp bytes).
Proof.
  unfold parse_rsdp, RSDP_V1_LENGTH, RSDP_V2_LENGTH. repeat returns_step.
  - apply prefix_is_returns. lia.
  - apply checksum_returns. lia.
  - apply returns_get_at. lia.
  - apply checksum_returns. lia.
Qed.

Lemma select_pm1_returns bytes legacy extended : returns (select_pm1_control_block bytes legacy extended).
Proof.
  unfold select_pm1_control_block, parse_system_io_gas, GAS_LENGTH. repeat returns_step.
  - apply returns_slice; lia.
  - apply returns_get_at; lia.
  - apply returns_get_at; lia.
Qed.

Lemma parse_fadt_returns bytes : returns (parse_fadt bytes).
Proof.
  unfold parse_fadt, select_dsdt_address. repeat returns_step;
    first [apply select_pm1_returns|apply parse_sdt_header_returns|apply returns_get_at; lia].
Qed.

Lemma parse_package_length_spec bytes :
  match parse_package_length bytes with
  | Ok None => True
  | Ok (Some (_, n)) => n ≤ length bytes
  | _ => False
  end.
Proof.
  unfold parse_package_length. destruct (head bytes) as [lead|]; [|done].
  case_decide as Hl; [done|]. set (k := Z.to_nat (Z.shiftr lead 6)) in *.
  assert (∀ l n, (∀ i, i ∈ l → 1 + i < length bytes) → ∃ n', for_each (E:=PowerError) (λ n index,
    b ← get_at bytes (1 + index); Ok (Z.lor n (Z.shiftl b (4 + Z.of_nat index * 8)))) n l = Ok n') as Hloop.
  { induction l as [|i l IH]; intros n Hi; [by eexists|]. cbn [for_each].
    destruct (lookup_lt_is_Some_2 bytes (1 + i)) as [b Hbi]; [apply Hi; by left|].
    rewrite (get_at_Ok _ _ _ Hbi). cbn [mbind outcome_bind]. apply IH. intros j Hj. apply Hi. by right. }
  destruct (Hloop (seq 0 k) (Z.land lead 0x0f)) as [n' ->]; [|cbn; lia].
  intros i Hi%elem_of_seq. lia.
Qed.

Lemma parse_aml_integer_bound bytes v n : parse_aml_integer bytes = Some (v, n) → n ≤ length bytes.
Proof.
  unfold parse_aml_integer. destruct bytes as [|opcode bytes]; [done|]. cbn [head].
  assert (∀ k, (s ← get_range (opcode :: bytes) 1 (1 + k); Some ((from_le_bytes s mod 2 ^ 16)%Z, 1 + k))
    = Some (v, n) → n ≤ length (opcode :: bytes)) as Hk.
  { intros k. unfold get_range. case_decide; [|done]. cbn [mbind option_bind]. intros [= _ <-]. lia. }
  repeat (match goal with |- context [if ?b then _ else _] => destruct b end);
    try (intros [= _ <-]; cbn; lia); apply Hk.
Qed.

Lemma s5_values_returns aml cursor : cursor ≤ length aml → returns (s5_values aml cursor).
Proof.
  intros Hc. unfold s5_values. rewrite slice_Ok by lia. cbn [mbind outcome_bind].
  pose proof (parse_package_length_spec (sub aml cursor (length aml))) as Hp.
  destruct (parse_package_length _) as [[[n k]|]|e| |]; try done. cbn [mbind outcome_bind ok_or].
  case_decide as Hk; [done|]. rewrite slice_Ok by lia. cbn [mbind outcome_bind].
  destruct (parse_aml_integer (sub aml (cursor + k + 1) (length aml))) as [[a ca]|] eqn:Ha; [|done].
  apply parse_aml_integer_bound in Ha. rewrite length_sub in Ha by lia. cbn [mbind outcome_bind ok_or].
  rewrite slice_Ok by lia. cbn [mbind outcome_bind].
  by destruct (parse_aml_integer _) as [[b cb]|].
Qed.

Lemma name_start_spec aml index : index < length aml →
  match name_start aml index with
  | Ok (Some start) => index < start ≤ index + 2
  | Ok None => True
  | _ => False
  end.
Proof.
  intros Hi. unfold name_start. destruct (lookup_lt_is_Some_2 aml index Hi) as [b Hb].
  rewrite (get_at_Ok _ _ _ Hb). cbn [mbind outcome_bind]. destruct (b =? AML_NAME_OP)%Z; [lia|].
  case_decide as Hi'; [|done]. destruct (_ || _); [|done].
  destruct (lookup_lt_is_Some_2 aml (index + 1) Hi') as [b' Hb'].
  rewrite (get_at_Ok _ _ _ Hb'). cbn [mbind outcome_bind]. destruct (b' =? AML_NAME_OP)%Z; lia || done.
Qed.

Lemma parse_s5_package_returns dsdt : returns (parse_s5_package dsdt).
Proof.
  unfold parse_s5_package. apply bind_returns; [apply parse_sdt_header_returns|]. intros [] Hh.
  assert (SDT_HEADER_LENGTH ≤ length dsdt) as Hl.
  { unfold parse_sdt_header in Hh. case_decide; [done|lia]. }
  rewrite slice_Ok by lia. cbn [mbind outcome_bind]. set (aml := sub _ _ _).
  apply (while_rule (λ _, True) (λ index, length aml - index) returns); [|done|lia].
  intros index _. unfold s5_step. case_decide as Hi; [|done].
  pose proof (name_start_spec aml index ltac:(lia)) as Hn.
  destruct (name_start aml index) as [[start|]|e| |]; try done; cbn [mbind outcome_bind]; [|split; [done|lia]].
  case_decide as Hs; [split; [done|lia]|]. rewrite slice_Ok by lia. cbn [mbind outcome_bind].
  destruct (negb _); [split; [done|lia]|]. case_decide as Hc; [split; [done|lia]|].
  destruct (lookup_lt_is_Some_2 aml (start + 4)) as [op Hop]; [lia|].
  rewrite (get_at_Ok _ _ _ Hop). cbn [mbind outcome_bind].
  destruct (negb _); [split; [done|lia]|].
  pose proof (s5_values_returns aml (start + 4 + 1) ltac:(lia)) as Hv.
  by destruct (s5_values aml (start + 4 + 1)).
Qed.

Section Discover.
Context {St : Type} (map_range : St → Z → Z → outcome (PowerError * St) St) (physical : St → Z → Z).

Lemma length_bytes_at st address len : length (bytes_at physical st address len) = len.
Proof. unfold bytes_at. rewrite length_map, length_seqZ. lia. Qed.

Context (Hmap : ∀ st start end_, returns (map_range st start end_)).

Lemma map_bytes_returns st address len : returns (map_bytes map_range physical st address len).
Proof. unfold map_bytes. repeat returns_step. apply Hmap. Qed.

Lemma map_sdt_returns st address signature : returns (map_sdt map_range physical st address signature).
Proof.
  unfold map_sdt. repeat returns_step; first [apply map_bytes_returns|apply parse_sdt_header_returns].
Qed.

Lemma find_fadt_returns st address len kind :
  returns (find_fadt_address map_range physical st address len kind).
Proof.
  unfold find_fadt_address. set (size := match kind with Rsdt => 4 | Xsdt => 8 end).
  assert (0 < size) as Hsize by (unfold size; destruct kind; lia).
  apply (while_rule (λ _, True) (λ '(offset, _), len - offset) returns); [|done|cbn; lia].
  intros [offset st'] _. unfold fadt_step. rewrite length_bytes_at. case_decide; [|done].
  match goal with |- context [ok_or ?o ?e] => destruct o as [t|] end; [|done]. cbn [mbind outcome_bind ok_or].
  destruct (negb _); [|split; [done|lia]].
  pose proof (map_bytes_returns st' t SDT_HEADER_LENGTH) as Hm.
  destruct (map_bytes _ _ st' t _) as [[header st'']|e| |]; try done. cbn [mbind outcome_bind].
  assert (returns (if decide (4 ≤ length header) then prefix_is header 4 FADT_SIGNATURE else Ok false)) as Hp
    by (repeat returns_step; by apply prefix_is_returns).
  destruct (if decide (4 ≤ length header) then _ else _) as [[|]|e| |]; try done. split; [done|lia].
Qed.

Lemma discover_returns st address : returns (discover_acpi_shutdown map_range physical st address).
Proof.
  unfold discover_acpi_shutdown. repeat returns_step;
    first [apply map_bytes_returns|apply parse_rsdp_returns|apply map_sdt_returns|apply find_fadt_returns
          |apply parse_fadt_returns|apply parse_s5_package_returns].
Qed.

End Discover.

(** ** Well-formed tables are read *)

Lemma checksum_spec bytes : checksum bytes (length bytes) = Ok (byte_sum bytes mod 256)%Z.
Proof.
  unfold checksum. rewrite slice_Ok by lia. cbn [mbind outcome_bind]. rewrite sub_0, take_ge by lia.
  f_equal. unfold byte_sum. change 0%Z with (0 mod 256)%Z at 1. generalize 0%Z as s.
  induction bytes as [|b bytes IH]; intros s; [done|]. cbn [foldl].
  rewrite Zplus_mod_idemp_l. apply IH.
Qed.

Lemma prefix_is_spec bytes n text : n ≤ length bytes → prefix_is bytes n text = Ok (bool_decide (take n bytes = text)).
Proof. intros. unfold prefix_is. rewrite slice_Ok by lia. cbn [mbind outcome_bind]. by rewrite sub_0. Qed.

Lemma read_table_field bytes offset n : offset + n ≤ length bytes →
  from_le_bytes <$> get_range bytes offset (offset + n) = Some (field bytes offset n).
Proof. intros. unfold get_range. by rewrite decide_True by lia. Qed.

Lemma table_length signature bytes k : table_ok signature bytes → 8 ≤ k →
  parse_table_length (take k bytes) = Some (length bytes).
Proof.
  intros [Hs _ Hl _] Hk. unfold parse_table_length, SDT_HEADER_LENGTH in *. unfold read_u32.
  rewrite (read_table_field (take k bytes) 4 4) by (rewrite length_take; lia).
  assert (field (take k bytes) 4 4 = field bytes 4 4) as ->.
  { unfold field, sub. rewrite !take_drop_commute, take_take. do 3 f_equal. lia. }
  rewrite Hl. cbn [fmap option_fmap option_map mbind option_bind]. rewrite Nat2Z.id. by rewrite decide_False by lia.
Qed.

Lemma parse_sdt_header_ok signature bytes : table_ok signature bytes → parse_sdt_header bytes signature = Ok tt.
Proof.
  intros Ht. pose proof (table_length signature bytes (length bytes) Ht) as Hlen.
  destruct Ht as [Hs Hsig _ Hsum]. unfold parse_sdt_header. rewrite decide_False by lia.
  rewrite take_ge in Hlen by lia. rewrite Hlen by (unfold SDT_HEADER_LENGTH in *; lia).
  cbn [ok_or mbind outcome_bind]. rewrite decide_False by lia.
  rewrite prefix_is_spec by (unfold SDT_HEADER_LENGTH in *; lia). cbn [mbind outcome_bind].
  rewrite bool_decide_eq_true_2 by done. cbn [negb]. rewrite checksum_spec. cbn [mbind outcome_bind].
  by rewrite Hsum.
Qed.

Lemma parse_rsdp_ok bytes xsdt : rsdp_ok bytes xsdt → xsdt ≠ 0%Z → parse_rsdp bytes = Ok (mkRootTable Xsdt xsdt).
Proof.
  intros [Hs Ht (rev & Hrev & Hr2) Hl H1 H2 Hx] Hne. unfold RSDP_V2_LENGTH in *. unfold parse_rsdp, RSDP_V1_LENGTH, RSDP_V2_LENGTH in *.
  rewrite decide_False by lia. rewrite prefix_is_spec by lia. cbn [mbind outcome_bind].
  rewrite bool_decide_eq_true_2 by done. cbn [negb].
  assert (checksum bytes 20 = Ok 0%Z) as ->.
  { pose proof (checksum_spec (take 20 bytes)) as Hc. rewrite length_take, Nat.min_l, H1 in Hc by lia.
    rewrite <-Hc. unfold checksum. rewrite !slice_Ok by (rewrite ?length_take; lia).
    by rewrite !sub_0, take_take. }
  cbn [mbind outcome_bind Z.eqb negb]. rewrite (get_at_Ok _ _ _ Hrev). cbn [mbind outcome_bind].
  rewrite (proj2 (Z.leb_le 2 rev)) by done. rewrite decide_False by lia.
  unfold read_u32, read_u64. rewrite (read_table_field bytes 20 4), Hl by lia.
  cbn [fmap option_fmap option_map ok_or mbind outcome_bind]. rewrite Nat2Z.id.
  rewrite decide_False by lia. rewrite <-Hs, checksum_spec, H2. cbn [mbind outcome_bind Z.eqb negb].
  rewrite (read_table_field bytes 24 8), Hx by lia. cbn [ok_or mbind outcome_bind].
  by destruct (Z.eqb_spec xsdt 0).
Qed.

Lemma select_pm1_ok fadt legacy extended port :
  gas_ok fadt legacy extended port → extended + GAS_LENGTH ≤ length fadt → legacy + 4 ≤ length fadt →
  select_pm1_control_block fadt legacy extended = Ok port.
Proof.
  unfold GAS_LENGTH. intros Hg He Hl. unfold select_pm1_control_block, GAS_LENGTH. rewrite decide_True by lia.
  rewrite slice_Ok by lia. cbn [mbind outcome_bind]. unfold parse_system_io_gas, GAS_LENGTH.
  rewrite length_sub by lia. rewrite decide_False by lia.
  destruct (lookup_lt_is_Some_2 fadt extended) as [b0 Hb0]; [lia|].
  destruct (lookup_lt_is_Some_2 fadt (extended + 1)) as [b1 Hb1]; [lia|].
  rewrite (get_at_Ok _ 0 b0) by (rewrite lookup_sub, Nat.add_0_r by lia; done). cbn [mbind outcome_bind].
  rewrite (get_at_Ok _ 1 b1) by (rewrite lookup_sub by lia; done). cbn [mbind outcome_bind].
  unfold read_u64. rewrite (read_table_field (sub fadt extended (extended + 12)) 4 8) by (rewrite length_sub; lia).
  assert (field (sub fadt extended (extended + 12)) 4 8 = field fadt (extended + 4) 8) as ->.
  { unfold field. rewrite sub_sub by lia. do 2 f_equal; lia. }
  cbn [ok_or mbind outcome_bind]. destruct port as [port|].
  - destruct Hg as ([Hp1 Hp2] & -> & Hsp & width & Hw & Hw16).
    assert (b0 = GAS_SPACE_ID_SYSTEM_IO) as -> by congruence. assert (b1 = width) as -> by congruence.
    rewrite (proj2 (Z.eqb_neq port 0)) by lia. rewrite Z.eqb_refl. cbn [negb orb].
    rewrite (proj2 (Z.ltb_ge width 16)) by lia. cbn [orb].
    rewrite (proj2 (Z.ltb_ge (2 ^ 16 - 1) port)) by lia. cbn [mbind outcome_bind].
    by rewrite Z.mod_small by lia.
  - destruct Hg as [-> Hleg]. cbn [Z.eqb mbind outcome_bind].
    unfold read_u32. by rewrite (read_table_field fadt legacy 4), Hleg by lia.
Qed.

Lemma parse_fadt_ok fadt dsdt pm1a pm1b : fadt_ok fadt dsdt pm1a pm1b → dsdt ≠ 0%Z →
  parse_fadt fadt = Ok (mkFadtInfo dsdt pm1a pm1b).
Proof.
  intros [Ht Hs (width & Hw & Hw2) Hd Ha Hb] Hne. unfold parse_fadt. rewrite parse_sdt_header_ok by done.
  cbn [mbind outcome_bind].
  unfold FADT_X_PM1B_CONTROL_BLOCK_OFFSET, FADT_PM1_CONTROL_LENGTH_OFFSET, FADT_X_DSDT_OFFSET, FADT_PM1A_CONTROL_BLOCK_OFFSET,
    FADT_X_PM1A_CONTROL_BLOCK_OFFSET, FADT_PM1B_CONTROL_BLOCK_OFFSET, GAS_LENGTH in *.
  rewrite decide_False by lia. rewrite (get_at_Ok _ _ _ Hw). cbn [mbind outcome_bind].
  rewrite (proj2 (Z.ltb_ge width 2)) by lia. unfold select_dsdt_address, FADT_X_DSDT_OFFSET. rewrite decide_True by lia.
  unfold read_u64. rewrite (read_table_field fadt 140 8), Hd by lia. cbn [ok_or mbind outcome_bind].
  destruct (Z.eqb_spec dsdt 0) as [|_]; [done|]. cbn [negb mbind outcome_bind].
  rewrite (select_pm1_ok _ _ _ _ Ha) by (unfold GAS_LENGTH; lia). cbn [ok_or mbind outcome_bind].
  by rewrite (select_pm1_ok _ _ _ _ Hb) by (unfold GAS_LENGTH; lia).
Qed.

(** ** The _S5 package *)

Lemma aml_byte_parsed v rest : (0 ≤ v < 8)%Z →
  parse_aml_integer (aml_byte v ++ rest) = Some (v, length (aml_byte v)).
Proof.
  intros Hv. unfold aml_byte. destruct (Z.eqb_spec v 0) as [->|]; [done|].
  destruct (Z.eqb_spec v 1) as [->|]; [done|]. unfold parse_aml_integer. cbn [app head].
  change ((AML_BYTE_PREFIX =? 0)%Z) with false. change ((AML_BYTE_PREFIX =? 1)%Z) with false. cbn [Z.eqb].
  rewrite Z.eqb_refl. unfold get_range. rewrite decide_True by (cbn; lia). cbn.
  rewrite Z.add_0_r, Z.mod_small by lia. done.
Qed.

Lemma slice_rest {E} (a b : list Z) : slice (E:=E) (a ++ b) (length a) (length (a ++ b)) = Ok b.
Proof. rewrite slice_Ok by (rewrite ?length_app; lia). f_equal. unfold sub. rewrite drop_app_length. apply take_ge. rewrite length_app. lia. Qed.

Lemma s5_values_ok pre n elements a b post : (0 ≤ n < 64)%Z → (0 ≤ a < 8)%Z → (0 ≤ b < 8)%Z →
  s5_values (pre ++ [n; elements] ++ aml_byte a ++ aml_byte b ++ post) (length pre) = Ok (a, b).
Proof.
  intros Hn Ha Hb. unfold s5_values. rewrite slice_rest. cbn [mbind outcome_bind].
  assert (parse_package_length ([n; elements] ++ aml_byte a ++ aml_byte b ++ post) =
    Ok (Some (Z.to_nat (Z.land n 0x0f), 1))) as ->.
  { unfold parse_package_length. cbn [app head]. rewrite Z.shiftr_div_pow2, Z.div_small by lia.
    cbn [Z.to_nat]. rewrite decide_False by (cbn; lia). done. }
  cbn [ok_or mbind outcome_bind]. rewrite decide_False by (rewrite !length_app; cbn; lia).
  assert (pre ++ [n; elements] ++ aml_byte a ++ aml_byte b ++ post =
    (pre ++ [n; elements]) ++ aml_byte a ++ aml_byte b ++ post) as -> by by rewrite <-app_assoc.
  assert (length pre + 1 + 1 = length (pre ++ [n; elements])) as -> by (rewrite length_app; cbn; lia).
  rewrite slice_rest. cbn [mbind outcome_bind]. rewrite aml_byte_parsed by done. cbn [ok_or mbind outcome_bind].
  rewrite <-length_app. rewrite (app_assoc (pre ++ _)), slice_rest. cbn [mbind outcome_bind].
  rewrite aml_byte_parsed by done. cbn [ok_or mbind outcome_bind].
  assert (∀ v, (0 ≤ v < 8)%Z → Z.land v 7 = v) as Hland
    by (intros v Hv; change 7%Z with (Z.ones 3); rewrite Z.land_ones by lia; apply Z.mod_small; lia).
  by rewrite !Hland.
Qed.

Lemma sub_aml_name aml i : i + 5 ≤ length aml → aml !! i = Some AML_NAME_OP →
  sub aml (i + 1) (i + 5) = S5_NAME → sub aml i (i + 5) = aml_name.
Proof.
  intros Hl Hi Hs. rewrite (sub_split aml i (i + 1) (i + 5)) by lia. rewrite Hs.
  rewrite (sub_snoc aml i i AML_NAME_OP) by done. by rewrite sub_nil.
Qed.

Lemma s5_step_found pre n elements a b post index start :
  let aml := pre ++ aml_s5 n elements a b ++ post in
  (0 ≤ n < 64)%Z → (0 ≤ a < 8)%Z → (0 ≤ b < 8)%Z →
  index + 6 ≤ length aml → name_start aml index = Ok (Some start) → start = length pre + 1 →
  s5_step aml index = Ok (inr (a, b)).
Proof.
  intros aml Hn Ha Hb Hi Hst ->. unfold s5_step. rewrite decide_True by done. rewrite Hst. cbn [mbind outcome_bind].
  assert (length pre + 6 ≤ length aml) as Hlen by (unfold aml; rewrite !length_app; cbn; lia).
  rewrite decide_False by lia. rewrite slice_Ok by lia. cbn [mbind outcome_bind].
  assert (sub aml (length pre + 1) (length pre + 1 + 4) = S5_NAME) as ->.
  { unfold aml. change (aml_s5 n elements a b) with
      ([AML_NAME_OP] ++ S5_NAME ++ [AML_PACKAGE_OP; n; elements] ++ aml_byte a ++ aml_byte b).
    rewrite <-!app_assoc, (app_assoc pre). replace (length pre + 1) with (length (pre ++ [AML_NAME_OP]))
      by (by rewrite length_app).
    apply (sub_app_middle (pre ++ [AML_NAME_OP]) S5_NAME). }
  rewrite bool_decide_eq_true_2 by done. cbn [negb]. rewrite decide_False by lia.
  assert (aml = (pre ++ aml_name ++ [AML_PACKAGE_OP]) ++ [n; elements] ++ aml_byte a ++ aml_byte b ++ post) as Haml.
  { unfold aml, aml_s5. rewrite <-!app_assoc. done. }
  assert (aml !! (length pre + 1 + 4) = Some AML_PACKAGE_OP) as Hop.
  { unfold aml. rewrite lookup_app_r by lia. replace (length pre + 1 + 4 - length pre) with 5 by lia. done. }
  rewrite (get_at_Ok _ _ _ Hop). cbn [mbind outcome_bind]. rewrite Z.eqb_refl. cbn [negb].
  replace (length pre + 1 + 4 + 1) with (length (pre ++ aml_name ++ [AML_PACKAGE_OP]))
    by (rewrite !length_app; cbn; lia).
  rewrite Haml, s5_values_ok by done. done.
Qed.

Lemma parse_s5_package_ok dsdt a b : dsdt_ok dsdt a b → parse_s5_package dsdt = Ok (a, b).
Proof.
  intros [Ht [Ha Hb] (pre & n & elements & post & Hcode & Hn & Hpre)]. unfold parse_s5_package.
  rewrite parse_sdt_header_ok by done. cbn [mbind outcome_bind].
  destruct Ht as [Hs _ _ _]. rewrite slice_Ok by lia. cbn [mbind outcome_bind].
  assert (sub dsdt SDT_HEADER_LENGTH (length dsdt) = drop SDT_HEADER_LENGTH dsdt) as ->
    by (unfold sub; apply take_ge; rewrite length_drop; lia).
  rewrite Hcode in Hpre |- *. clear dsdt Hs Hcode. set (aml := pre ++ aml_s5 n elements a b ++ post) in *.
  assert (length pre + 8 ≤ length aml) as Hlen.
  { unfold aml, aml_s5. rewrite !length_app. cbn. lia. }
  apply (while_rule (λ index, index ≤ length pre) (λ index, length aml - index) (λ o, o = Ok (a, b))); [|lia|lia].
  intros index Hi. destruct (decide (index = length pre)) as [->|Hne].
  { unfold aml. rewrite (s5_step_found pre n elements a b post _ (length pre + 1)); try done; [fold aml; lia|].
    fold aml. assert (aml !! length pre = Some AML_NAME_OP) as Hop
      by (unfold aml; rewrite lookup_app_r, Nat.sub_diag by lia; done).
    unfold name_start. by rewrite (get_at_Ok _ _ _ Hop). }
  assert (s5_step aml index = Ok (inl (index + 1)) ∨ s5_step aml index = Ok (inr (a, b))) as [->| ->]; [|lia|done].
  pose proof (name_start_spec aml index ltac:(lia)) as Hst.
  destruct (name_start aml index) as [[start|]|e| |] eqn:Hn'; try done.
  2: { left. unfold s5_step. rewrite decide_True by lia. by rewrite Hn'. }
  destruct (decide (start = length pre + 1)) as [->|Hneq].
  { right. by apply (s5_step_found pre n elements a b post index (length pre + 1)); [| | |fold aml; lia|..]. }
  left. unfold s5_step. rewrite decide_True by lia. rewrite Hn'. cbn [mbind outcome_bind].
  case_decide as Hs; [done|]. rewrite slice_Ok by lia. cbn [mbind outcome_bind].
  destruct (decide (sub aml start (start + 4) = S5_NAME)) as [Hname|Hname];
    [|by rewrite bool_decide_eq_false_2].
  exfalso. assert (aml !! (start - 1) = Some AML_NAME_OP) as Hop.
  { unfold name_start in Hn'. assert (is_Some (aml !! index)) as [c Hc] by (apply lookup_lt_is_Some_2; lia).
    rewrite (get_at_Ok _ _ _ Hc) in Hn'. cbn [mbind outcome_bind] in Hn'.
    destruct (Z.eqb_spec c AML_NAME_OP) as [Hcv|_]; [injection Hn' as <-; by rewrite Nat.add_sub, Hc, Hcv|].
    case_decide as Hi1; [|done]. destruct (_ || _); [|done].
    destruct (lookup_lt_is_Some_2 aml (index + 1) Hi1) as [c' Hc'].
    rewrite (get_at_Ok _ _ _ Hc') in Hn'. cbn [mbind outcome_bind] in Hn'.
    destruct (Z.eqb_spec c' AML_NAME_OP) as [Hcv|_]; [|done]. injection Hn' as <-.
    replace (index + 2 - 1) with (index + 1) by lia. by rewrite Hc', Hcv. }
  apply (Hpre (start - 1)); [lia|]. apply sub_aml_name; [lia|done|].
  rewrite <-Hname. f_equal; lia.
Qed.

(** ** The tables are found *)

Section Found.
Context {St : Type} (map_range : St → Z → Z → outcome (PowerError * St) St) (physical : St → Z → Z).
Context (I : St → Prop) (area : Z → Prop) (mem : Z → Z).

(** A mapping inside the area that a good state refuses. *)
Definition refused : Prop :=
  ∃ st start end_ st', I st ∧ (start < end_)%Z ∧ inside area start end_ ∧ map_range st start end_ = Err (MappingFailed, st').

(** The value, unless a mapping was refused. *)
Definition gives {A} (o : outcome (PowerError * St) (A * St)) (v : A) : Prop :=
  (∃ st', o = Ok (v, st') ∧ I st') ∨ (∃ st', o = Err (MappingFailed, st') ∧ I st' ∧ refused).

Lemma gives_bind {A B} (o : outcome (PowerError * St) (A * St)) v (k : A → St → outcome (PowerError * St) (B * St)) w :
  gives o v → (∀ st', I st' → gives (k v st') w) → gives ('(v, st') ← o; k v st') w.
Proof. intros [(st' & -> & Hi)|(st' & -> & Hr)] Hk; [by apply Hk|right; by exists st']. Qed.

Context (Hphysical : ∀ st x, I st → area x → physical st x = mem x).
Context (Hmap : ∀ st start end_, I st → (start < end_)%Z → inside area start end_ →
  (∃ st', map_range st start end_ = Ok st' ∧ I st') ∨ (∃ st', map_range st start end_ = Err (MappingFailed, st') ∧ I st')).

Lemma bytes_at_mem st address n : I st → inside area address (address + Z.of_nat n) →
  bytes_at physical st address n = map mem (seqZ address (Z.of_nat n)).
Proof.
  intros Hi Ha. unfold bytes_at. apply map_ext_in. intros x Hx%list_elem_of_In%elem_of_seqZ.
  apply Hphysical; [done|]. by apply Ha.
Qed.

Lemma bytes_at_lies st address bytes n : I st →
  lies area mem address bytes → n ≤ length bytes → bytes_at physical st address n = take n bytes.
Proof.
  intros Hi [_ Ha Hb] Hn. rewrite bytes_at_mem by (done || intros x Hx; apply Ha; lia).
  apply list_eq. intros i. destruct (decide (i < n)).
  - destruct (lookup_lt_is_Some_2 bytes i) as [b Hib]; [lia|].
    rewrite lookup_take_lt, Hib by lia. change (fmap mem (seqZ address (Z.of_nat n)) !! i = Some b).
    rewrite list_lookup_fmap, lookup_seqZ_lt by lia. cbn. by rewrite (Hb i b Hib).
  - rewrite lookup_take_ge by lia. apply lookup_ge_None_2. rewrite length_map, length_seqZ. lia.
Qed.

Lemma map_bytes_gives st address n : I st → 0 < n → (address + Z.of_nat n < 2 ^ 64)%Z →
  inside area address (address + Z.of_nat n) →
  gives (map_bytes map_range physical st address n) (map mem (seqZ address (Z.of_nat n))).
Proof.
  intros Hi Hn Ha Hin. unfold map_bytes. rewrite decide_False by lia. unfold checked_add. rewrite decide_True by done.
  cbn [ok_or mbind outcome_bind].
  destruct (Hmap st address (address + Z.of_nat n)%Z Hi ltac:(lia) Hin) as [(st' & -> & Hi')|(st' & Hr & Hi')].
  - left. exists st'. cbn [mbind outcome_bind]. by rewrite bytes_at_mem.
  - right. rewrite Hr. exists st'. split_and!; [done|done|]. exists st, address, (address + Z.of_nat n)%Z, st'.
    split_and!; [done|lia|done|done].
Qed.

Lemma map_bytes_lies st address bytes n : I st → lies area mem address bytes → 0 < n ≤ length bytes →
  gives (map_bytes map_range physical st address n) (take n bytes).
Proof.
  intros Hi Hl Hn. rewrite <-(bytes_at_lies st address) by (done || lia). destruct Hl as [Hr Ha _].
  assert (inside area address (address + Z.of_nat n)) by (intros x Hx; apply Ha; lia).
  rewrite bytes_at_mem by done. apply map_bytes_gives; [done|lia|lia|done].
Qed.

Lemma map_sdt_gives st address bytes signature : I st →
  lies area mem address bytes → table_ok signature bytes →
  gives (map_sdt map_range physical st address signature) bytes.
Proof.
  intros Hi Hl Ht. unfold map_sdt. pose proof (ly_range _ _ _ _ Hl). pose proof (tb_size _ _ Ht) as Hs.
  unfold SDT_HEADER_LENGTH in *. rewrite (proj2 (Z.eqb_neq address 0)) by lia.
  apply (gives_bind _ (take 36 bytes)); [apply map_bytes_lies; [done|done|lia]|]. intros st1 H1.
  rewrite (table_length signature) by (done || unfold SDT_HEADER_LENGTH; lia). cbn [ok_or mbind outcome_bind].
  apply (gives_bind _ bytes).
  { rewrite <-(take_ge bytes (length bytes)) at 2 by lia. apply map_bytes_lies; [done|done|lia]. }
  intros st2 H2. rewrite parse_sdt_header_ok by done. left. by exists st2.
Qed.

Lemma sub_concat_words (ws : list Z) i w : ws !! i = Some w →
  sub (concat (map (to_le_bytes 8) ws)) (8 * i) (8 * i + 8) = to_le_bytes 8 w.
Proof.
  intros Hi. replace (8 * i) with (8 * i + 0) at 1 by lia. replace (8 * i + 8) with (8 * i + 0 + 8) by lia.
  rewrite (sub_concat 8 _ i (to_le_bytes 8 w)); [done| |by rewrite list_lookup_fmap, Hi|lia].
  apply Forall_map, Forall_true. intros x. apply length_to_le_bytes.
Qed.

(** The entries of an XSDT, read from its bytes. *)
Lemma read_entry_word xsdt entries k e : SDT_HEADER_LENGTH ≤ length xsdt →
  drop SDT_HEADER_LENGTH xsdt = concat (map (to_le_bytes 8) entries) →
  entries !! k = Some e → (0 ≤ e < 2 ^ 64)%Z →
  read_u64 xsdt (SDT_HEADER_LENGTH + 8 * k) = Some e ∧
  SDT_HEADER_LENGTH + 8 * k + 8 ≤ length xsdt.
Proof.
  intros Hlen Hcode Hk He. pose proof (lookup_lt_Some _ _ _ Hk).
  assert (length xsdt = SDT_HEADER_LENGTH + 8 * length entries) as Hn.
  { rewrite <-(take_drop SDT_HEADER_LENGTH xsdt), length_app, Hcode, length_take_le by done.
    f_equal. clear. induction entries as [|e es IH]; [done|].
    cbn [map concat]. rewrite length_app, length_to_le_bytes, IH. cbn. lia. }
  split; [|lia]. unfold read_u64. rewrite read_table_field by lia. f_equal. unfold field.
  replace (sub xsdt (SDT_HEADER_LENGTH + 8 * k) (SDT_HEADER_LENGTH + 8 * k + 8)) with (to_le_bytes 8 e);
    [by apply from_to_le_bytes|].
  rewrite <-(sub_concat_words entries k e Hk), <-Hcode. unfold sub. rewrite drop_drop. do 2 f_equal; lia.
Qed.

Lemma fadt_step_other st address xsdt before k t rest : I st →
  lies area mem address xsdt → SDT_HEADER_LENGTH ≤ length xsdt →
  drop SDT_HEADER_LENGTH xsdt = concat (map (to_le_bytes 8) (before ++ rest)) →
  before !! k = Some t → other_table area mem t →
  let next o := match o with
    | Ok (inl (offset, st')) => offset = SDT_HEADER_LENGTH + 8 * S k ∧ I st'
    | Err (e, st') => e = MappingFailed ∧ I st' ∧ refused
    | _ => False end in
  next (fadt_step map_range physical address (length xsdt) 8 (SDT_HEADER_LENGTH + 8 * k, st)).
Proof.
  intros Hi Hx Hlen Hcode Hk Ht next. unfold fadt_step. rewrite (bytes_at_lies st address xsdt), take_ge by done.
  assert (0 ≤ t < 2 ^ 64)%Z as Htr by (destruct Ht as [->|(? & _)]; lia).
  destruct (read_entry_word xsdt _ k t Hlen Hcode (lookup_app_l_Some _ _ _ _ Hk) Htr) as [Hr Hb].
  rewrite decide_True by done. rewrite (decide_False (P:=8 = 4)) by lia. rewrite Hr. cbn [ok_or mbind outcome_bind].
  destruct (Z.eqb_spec t 0) as [->|Hne]; cbn [negb]; [split; [lia|done]|].
  destruct Ht as [|(Hr' & Hin & Hsig)]; [done|].
  destruct (map_bytes_gives st t SDT_HEADER_LENGTH) as [(st' & -> & Hi')|(st' & -> & Hi' & Href)];
    [done|unfold SDT_HEADER_LENGTH; lia|apply Hr'|done| |by split].
  cbn [mbind outcome_bind]. rewrite length_map, length_seqZ, Nat2Z.id.
  rewrite decide_True by (unfold SDT_HEADER_LENGTH; lia).
  rewrite prefix_is_spec by (rewrite length_map, length_seqZ; unfold SDT_HEADER_LENGTH; lia).
  cbn [mbind outcome_bind]. rewrite bool_decide_eq_false_2; [split; [lia|done]|].
  intros Heq. apply Hsig. rewrite <-Heq. symmetry. apply (firstn_map mem 4 (seqZ t (Z.of_nat SDT_HEADER_LENGTH))).
Qed.

Lemma find_fadt_gives st address xsdt before fadt_address after fadt : I st →
  lies area mem address xsdt → SDT_HEADER_LENGTH ≤ length xsdt →
  drop SDT_HEADER_LENGTH xsdt = concat (map (to_le_bytes 8) (before ++ fadt_address :: after)) →
  Forall (other_table area mem) before →
  lies area mem fadt_address fadt → table_ok FADT_SIGNATURE fadt →
  gives (find_fadt_address map_range physical st address (length xsdt) Xsdt) fadt_address.
Proof.
  intros Hi Hx Hlen Hcode Hbefore Hf Ht. unfold find_fadt_address.
  apply (while_rule (λ '(offset, st1), ∃ k, k ≤ length before ∧ offset = SDT_HEADER_LENGTH + 8 * k ∧ I st1)
    (λ '(offset, _), length xsdt - offset) (λ o, gives o fadt_address));
    [|exists 0; split_and!; [lia|lia|done]|cbn; lia].
  intros [offset st1] (k & Hk & -> & Hi1). destruct (decide (k = length before)) as [->|Hne].
  - pose proof (ly_range _ _ _ _ Hf). pose proof (tb_size _ _ Ht) as Hs.
    destruct (read_entry_word xsdt _ (length before) fadt_address Hlen Hcode) as [Hr Hb];
      [by rewrite lookup_app_r, Nat.sub_diag by lia|lia|].
    unfold fadt_step. rewrite (bytes_at_lies st1 address xsdt), take_ge by done.
    rewrite decide_True by done. rewrite (decide_False (P:=8 = 4)) by lia. rewrite Hr. cbn [ok_or mbind outcome_bind].
    rewrite (proj2 (Z.eqb_neq fadt_address 0)) by lia. cbn [negb].
    destruct (map_bytes_lies st1 fadt_address fadt SDT_HEADER_LENGTH Hi1 Hf) as [(st2 & -> & Hi2)|(st2 & -> & Hi2 & Href)];
      [unfold SDT_HEADER_LENGTH in *; lia| |right; by exists st2].
    cbn [mbind outcome_bind]. rewrite length_take_le by done. rewrite decide_True by (unfold SDT_HEADER_LENGTH; lia).
    rewrite prefix_is_spec by (rewrite length_take_le; unfold SDT_HEADER_LENGTH in *; lia).
    rewrite take_take. change (4 `min` SDT_HEADER_LENGTH) with 4. rewrite (tb_signature _ _ Ht).
    cbn [mbind outcome_bind]. rewrite bool_decide_eq_true_2 by done. left. by exists st2.
  - destruct (lookup_lt_is_Some_2 before k) as [t Hbk]; [lia|].
    pose proof (Forall_lookup_1 _ _ _ _ Hbefore Hbk) as Ht'.
    pose proof (fadt_step_other st1 address xsdt before k t _ Hi1 Hx Hlen Hcode Hbk Ht') as Hn. cbv zeta in Hn.
    assert (SDT_HEADER_LENGTH + 8 * k + 8 ≤ length xsdt) as Hb.
    { destruct (read_entry_word xsdt _ k t Hlen Hcode (lookup_app_l_Some _ _ _ _ Hbk)) as [_ ?]; [|done].
      destruct Ht' as [->|(? & _)]; lia. }
    destruct (fadt_step _ _ _ _ _ _) as [[[offset' st2]|]|[e st2]| |]; try done.
    + destruct Hn as [-> Hi2]. split; [|lia]. exists (S k). split_and!; [lia|done|done].
    + destruct Hn as (-> & Hi2 & Href). right. by exists st2.
Qed.

Lemma discover_gives st rsdp_address pm1a pm1b a b : I st →
  firmware area mem rsdp_address pm1a pm1b a b →
  gives (discover_acpi_shutdown map_range physical st rsdp_address) (mkShutdown pm1a pm1b a b).
Proof.
  intros Hi [(rsdp & xa & xsdt & before & fa & after & fadt & da & dsdt & Hl1 & Hr & Hl2 & Hx & Hc & Hb & Hl3 & Hf & Hl4 & Hd)].
  unfold discover_acpi_shutdown. pose proof (ly_range _ _ _ _ Hl1). pose proof (ly_range _ _ _ _ Hl2).
  pose proof (ly_range _ _ _ _ Hl4). rewrite (proj2 (Z.eqb_neq rsdp_address 0)) by lia.
  apply (gives_bind _ rsdp).
  { rewrite <-(take_ge rsdp RSDP_V2_LENGTH) by (rewrite (rp_size _ _ Hr); done).
    apply map_bytes_lies; [done|done|]. rewrite (rp_size _ _ Hr). unfold RSDP_V2_LENGTH. lia. }
  intros st1 Hi1. rewrite (parse_rsdp_ok _ _ Hr) by lia. cbn [mbind outcome_bind rt_address rt_kind root_table_signature].
  apply (gives_bind _ xsdt); [by apply map_sdt_gives|]. intros st2 Hi2.
  apply (gives_bind _ fa).
  { apply (find_fadt_gives st2 xa xsdt before fa after fadt); try done; [apply Hx|apply Hf]. }
  intros st3 Hi3. apply (gives_bind _ fadt); [apply map_sdt_gives; [done|done|apply Hf]|]. intros st4 Hi4.
  rewrite (parse_fadt_ok _ _ _ _ Hf) by lia. cbn [mbind outcome_bind fi_dsdt_address].
  apply (gives_bind _ dsdt); [apply map_sdt_gives; [done|done|apply Hd]|]. intros st5 Hi5.
  rewrite (parse_s5_package_ok _ _ _ Hd). left. by exists st5.
Qed.

End Found.

(** ** On the kernel's memory *)

(** Firmware memory: no usable memory, no page that the window covers. *)
Definition firmware_area (regions : list MemoryRegion) (window_end x : Z) : Prop :=
  (0 ≤ x < 2 ^ 46)%Z ∧ ¬ usable_in regions x ∧ ¬ in_window window_end x.

(** The running kernel, with the firmware's bytes where they were.  [P] is
    what the ranges besides the window satisfy. *)
Record kernel_ready (regions : list MemoryRegion) (root window_end : Z) (P : SharedKernelMapping → Prop)
    (mem : Z → Z) (st : MemoryState) : Prop := {
  kr_established : established regions root st;
  kr_window : phys_window_end st = window_end;
  kr_ranges : Forall P (extra_ranges st);
  kr_memory : ∀ x, ¬ usable_in regions x → memory (store st) x = mem x
}.

Lemma inside_page (area : Z → Prop) start end_ writable va :
  inside area start end_ → (start < end_)%Z → (0 ≤ start < 2 ^ 47)%Z → (end_ ≤ 2 ^ 46)%Z →
  sh_has (pages_of start end_ writable) va → ∃ x, area x ∧ page_base va = page_base x.
Proof.
  intros Hin Hse Hs He Hva. destruct (pages_of_bounds start end_ writable Hs ltac:(lia)) as (H1 & H2 & H3 & H4 & H5).
  exists (Z.max start (Z.min va (end_ - 1))). split; [apply Hin; lia|]. unfold sh_has in Hva.
  revert H1 H2 H3 H4 H5 Hva. generalize (sh_start (pages_of start end_ writable)), (sh_end (pages_of start end_ writable)).
  unfold page_base, PAGE_SIZE. intros a b H1 H2 H3 H4 H5 Hva. Z.div_mod_to_equations. lia.
Qed.

Lemma window_pages w x va : (PHYS_WINDOW_START ≤ w)%Z → (w mod TWO_MIB = 0)%Z →
  page_base va = page_base x → in_window w va → in_window w x.
Proof.
  unfold in_window, page_base, PAGE_SIZE, PHYS_WINDOW_START, TWO_MIB. change (2 * 1024 * 1024)%Z with 2097152%Z.
  intros Hw Hm Hp. Z.div_mod_to_equations. lia.
Qed.

Lemma kernel_map_range_spec regions root w P (area : Z → Prop) mem st start end_ :
  (∀ x, area x → firmware_area regions w x) →
  (∀ start end_, (start < end_)%Z → inside area start end_ → P (pages_of start end_ false)) →
  kernel_ready regions root w P mem st → (start < end_)%Z → inside area start end_ →
  (∃ st', kernel_map_range st start end_ = Ok st' ∧ kernel_ready regions root w P mem st') ∨
  (∃ st', kernel_map_range st start end_ = Err (MappingFailed, st') ∧ kernel_ready regions root w P mem st').
Proof.
  intros Hr HP [Hest <- Hx Hm] Hse Hin.
  destruct (Hr start (Hin start ltac:(lia))) as [Hs _]. destruct (Hr (end_ - 1)%Z (Hin (end_ - 1)%Z ltac:(lia))) as [He _].
  pose proof (es_config _ _ _ Hest) as [[Hw Hwm] _ _ _].
  pose proof (map_kernel_identity_spec regions root st start end_ false Hest ltac:(lia) ltac:(lia)) as H. cbv zeta in H.
  lapply H; [clear H; intros H|].
  2: { intros va Hva Hwin. destruct (inside_page area start end_ false va Hin Hse ltac:(lia) ltac:(lia) Hva) as (x & Hax & Hb).
       destruct (Hr x Hax) as (_ & _ & Hn). apply Hn. apply (window_pages _ x va); [lia|done..]. }
  assert (∀ st', established regions root st' → extends regions (pages_of start end_ false) st st' →
    kernel_ready regions root (phys_window_end st) P mem st') as Hnext.
  { intros st' He' [Hw' Hx' Hm']. split; [done|done| |intros x Hux; rewrite Hm' by done; by apply Hm].
    destruct Hx' as [-> | ->]; [done|]. apply Forall_app. split; [done|]. constructor; [by apply HP|done]. }
  unfold kernel_map_range. destruct (map_kernel_identity_range _ _ _ _) as [[st' root']|[e st']| |];
    cbn [map_err mbind outcome_bind]; try done.
  - destruct H as (_ & He' & Hx' & _). left. exists st'. auto.
  - destruct H as (_ & He' & Hx'). right. exists st'. auto.
Qed.

(** The state that [KernelSpace.init] leaves is ready. *)
Lemma initialised_ready kernel_image m regions st root (P : SharedKernelMapping → Prop) :
  initialised kernel_image m regions st root → Forall P (extra_ranges st) →
  kernel_ready regions root (phys_window_end st) P m st.
Proof.
  intros Hi HP. split; [by eapply initialised_established|done|done|].
  intros x Hx. by apply (in_rest _ _ _ _ _ Hi).
Qed.

(** [power::init] on the running kernel: whatever becomes of the tables, the
    kernel runs on, and with well-formed tables the registers are found unless
    a table cannot be mapped. *)
Lemma power_init_ready regions root w P area mem st rsdp_address pm1a pm1b a b :
  (∀ x, area x → firmware_area regions w x) →
  (∀ start end_, (start < end_)%Z → inside area start end_ → P (pages_of start end_ false)) →
  kernel_ready regions root w P mem st → firmware area mem rsdp_address pm1a pm1b a b →
  ∃ backend st', init kernel_map_range kernel_physical st rsdp_address = Ok (backend, st') ∧
    kernel_ready regions root w P mem st' ∧
    (backend = AcpiSoftOff (mkShutdown pm1a pm1b a b) ∨
     backend = Unavailable MappingFailed ∧ refused kernel_map_range (kernel_ready regions root w P mem) area).
Proof.
  intros Ha HP Hr Hf.
  destruct (discover_gives kernel_map_range kernel_physical (kernel_ready regions root w P mem) area mem
    ltac:(intros st1 x Hr1 Hx; apply (kr_memory _ _ _ _ _ _ Hr1); by apply Ha)
    ltac:(intros st1 s e Hr1 Hse Hin; by apply (kernel_map_range_spec regions root w P area mem))
    st rsdp_address pm1a pm1b a b Hr Hf) as [(st' & Hd & Hi)|(st' & Hd & Hi & Href)];
    unfold init; rewrite Hd; eexists _, st'; (split; [done|]); (split; [done|]); [by left|by right].
Qed.

Lemma sleep_command_value t : (0 ≤ t < 8)%Z → sleep_command t = (t * 1024 + 8192)%Z.
Proof.
  intros Ht. unfold sleep_command, PM1_CONTROL_SLEEP_TYPE_SHIFT, PM1_CONTROL_SLEEP_ENABLE.
  assert (t = 0 ∨ t = 1 ∨ t = 2 ∨ t = 3 ∨ t = 4 ∨ t = 5 ∨ t = 6 ∨ t = 7)%Z as Hc by lia.
  by repeat destruct Hc as [->|Hc]; subst.
Qed.

(** * Properties *)

(** C34. Whatever bytes the firmware left, as long as mapping them returns,
    the search for the ACPI registers ends with a result or an error: no
    table length, offset, package length or AML byte makes it read past a
    slice, and its loops over the root table and the DSDT end.  So [init]
    always chooses a backend, and [shutdown] has something to do. *)
Theorem power_discovery_total {St : Type} (map_range : St → Z → Z → outcome (PowerError * St) St) (physical : St → Z → Z) :
  (∀ st start end_, returns (map_range st start end_)) →
  ∀ st acpi_rsdp_addr, ∃ backend st',
    init map_range physical st acpi_rsdp_addr = Ok (backend, st') ∧
    discover_acpi_shutdown map_range physical st acpi_rsdp_addr =
      match backend with
      | AcpiSoftOff s => Ok (s, st')
      | Unavailable e => Err (e, st')
      | Uninitialized => Hang
      end.
Proof.
  intros Hmap st addr. pose proof (discover_returns map_range physical Hmap st addr) as Hr. unfold init.
  destruct (discover_acpi_shutdown map_range physical st addr) as [[s st']|[e st']| |]; try done; by eexists _, _.
Qed.

(** Memory of nothing but 0xff, always mapped. *)
Lemma power_discovery_total_witness :
  init (λ st _ _, Ok st) (λ _ _, 0xff%Z) () 0x1000 = Ok (Unavailable InvalidRsdp, ()).
Proof.
  destruct (power_discovery_total (λ st _ _, Ok st) (λ _ _, 0xff%Z) ltac:(done) () 0x1000%Z)
    as (backend & st' & -> & Hd).
  vm_compute in Hd. destruct backend, st'; congruence.
Defined.

(** C17. Turning the machine off.  On the memory that [KernelSpace.init]
    leaves, let the firmware's tables stand in memory that is neither usable
    nor inside the kernel's window: a root pointer of version 2 or later, an
    XSDT with the FADT among its entries, the FADT with its I/O registers and
    the DSDT with [Name (_S5_, Package () {a, b, ...})], all with correct
    lengths and checksums.  Then [power::init] finds exactly these registers
    and sleep types, unless the kernel cannot map one of the tables; in either
    case the kernel's tables and shared ranges stay well formed and memory
    that is not usable keeps its bytes.  [shutdown] writes the sleep type and
    the enable bit to the first control register and then to the second, if
    there is one. *)
Theorem acpi_soft_off_found kernel_image m regions st root rsdp_address pm1a pm1b a b :
  initialised kernel_image m regions st root →
  let area := firmware_area regions (phys_window_end st) in
  let ready := kernel_ready regions root (phys_window_end st) (λ _, True) m in
  firmware area m rsdp_address pm1a pm1b a b →
  (∃ backend st', init kernel_map_range kernel_physical st rsdp_address = Ok (backend, st') ∧ ready st' ∧
    (backend = AcpiSoftOff (mkShutdown pm1a pm1b a b) ∨
     backend = Unavailable MappingFailed ∧ refused kernel_map_range ready area)) ∧
  fst (shutdown (AcpiSoftOff (mkShutdown pm1a pm1b a b))) =
    (pm1a, a * 1024 + 8192)%Z :: match pm1b with Some port => [(port, b * 1024 + 8192)%Z] | None => [] end.
Proof.
  intros Hinit area ready Hf. split.
  - apply (power_init_ready regions root (phys_window_end st) (λ _, True) area m st _ pm1a pm1b a b);
      [done|done|eapply initialised_ready; [done|by apply Forall_true]|done].
  - destruct Hf as [(? & ? & ? & ? & ? & ? & ? & ? & ? & _ & _ & _ & _ & _ & _ & _ & _ & _ & [_ [Ha Hb] _])].
    cbn [shutdown fst]. unfold perform. cbn [pm1a_control_block pm1b_control_block sleep_type_a sleep_type_b].
    rewrite !sleep_command_value by done. by destruct pm1b.
Qed.

(** Tables with their length and checksum filled in. *)
Definition sealed (signature body : list Z) : list Z :=
  let bytes sum := signature ++ to_le_bytes 4 (Z.of_nat (36 + length body)) ++ [2; sum]%Z ++ replicate 26 0%Z ++ body in
  bytes ((- byte_sum (bytes 0%Z)) mod 256)%Z.
Definition sample_dsdt : list Z :=
  sealed DSDT_SIGNATURE ([0xa4; 0x08; 0x00]%Z ++ aml_s5 6 4 5 0 ++ [0x00; 0x00]%Z).
Definition sample_gas (port : Z) : list Z := [1; 16; 0; 2]%Z ++ to_le_bytes 8 port.
Definition sample_fadt : list Z :=
  sealed FADT_SIGNATURE (replicate 53 0%Z ++ [2]%Z ++ replicate 50 0%Z ++ to_le_bytes 8 0x82000 ++
    replicate 24 0%Z ++ sample_gas 0x604 ++ replicate 12 0%Z).
Definition sample_xsdt : list Z :=
  sealed XSDT_SIGNATURE (to_le_bytes 8 0x82000 ++ to_le_bytes 8 0x81000).
Definition sample_rsdp : list Z :=
  let bytes sum1 sum2 := RSDP_TEXT ++ [sum1]%Z ++ replicate 6 0%Z ++ [2]%Z ++ replicate 4 0%Z ++
    to_le_bytes 4 36 ++ to_le_bytes 8 0x80100 ++ [sum2; 0; 0; 0]%Z in
  let sum1 := ((- byte_sum (take 20 (bytes 0 0)%Z)) mod 256)%Z in
  bytes sum1 ((- byte_sum (bytes sum1 0%Z)) mod 256)%Z.

(** Memory with these tables and nothing else. *)
Definition placed (tables : list (Z * list Z)) (x : Z) : Z :=
  foldr (λ '(address, bytes) rest,
    if (address <=? x)%Z && (x <? address + Z.of_nat (length bytes))%Z
    then nth (Z.to_nat (x - address)) bytes 0%Z else rest) 0%Z tables.
Definition sample_firmware : Z → Z :=
  placed [(0x80000, sample_rsdp); (0x80100, sample_xsdt); (0x81000, sample_fadt); (0x82000, sample_dsdt)]%Z.

Lemma lies_placed (area : Z → Prop) mem address bytes lo hi :
  (∀ x, (lo ≤ x < hi)%Z → area x) →
  (lo <=? address)%Z && (address + Z.of_nat (length bytes) <=? hi)%Z && (0 <? address)%Z && (hi <? 2 ^ 64)%Z &&
  forallb (λ i, mem (address + Z.of_nat i) =? nth i bytes 0)%Z (seq 0 (length bytes)) = true →
  lies area mem address bytes.
Proof.
  intros Ha [[[[H1%Z.leb_le H2%Z.leb_le]%andb_true_iff H3%Z.ltb_lt]%andb_true_iff H4%Z.ltb_lt]%andb_true_iff Hb]%andb_true_iff.
  split; [lia|intros x Hx; apply Ha; lia|]. intros i b Hi. rewrite forallb_forall in Hb.
  pose proof (lookup_lt_Some _ _ _ Hi). specialize (Hb i ltac:(apply in_seq; lia)).
  apply Z.eqb_eq in Hb. rewrite Hb. by apply nth_lookup_Some.
Qed.

Lemma sample_firmware_ok (area : Z → Prop) :
  (∀ x, (0x80000 ≤ x < 0x83000)%Z → area x) →
  firmware area sample_firmware 0x80000 0x604 None 5 0.
Proof.
  intros Ha. split. exists sample_rsdp, 0x80100%Z, sample_xsdt, [0x82000%Z], 0x81000%Z, [], sample_fadt, 0x82000%Z, sample_dsdt.
  split_and!.
  - apply (lies_placed _ _ _ _ _ _ Ha). by vm_compute.
  - split; try by vm_compute. exists 2%Z. split; [by vm_compute|lia].
  - apply (lies_placed _ _ _ _ _ _ Ha). by vm_compute.
  - split; try by vm_compute. by apply Nat.leb_le; vm_compute.
  - by vm_compute.
  - constructor; [|constructor]. right. split_and!; [lia|lia|intros x Hx; apply Ha; lia|by vm_compute].
  - apply (lies_placed _ _ _ _ _ _ Ha). by vm_compute.
  - split; [split| | | | |]; try by vm_compute.
    + by apply Nat.leb_le; vm_compute.
    + exists 2%Z. split; [by vm_compute|lia].
    + split_and!; try by vm_compute. exists 16%Z. split; [by vm_compute|lia].
  - apply (lies_placed _ _ _ _ _ _ Ha). by vm_compute.
  - split; [split; try by vm_compute|lia|].
    { by apply Nat.leb_le; vm_compute. }
    exists [0xa4; 0x08; 0x00]%Z, 6%Z, 4%Z, [0x00; 0x00]%Z. split_and!; [by vm_compute|lia|lia|].
    intros i Hi. assert (i = 0 ∨ i = 1 ∨ i = 2) as [->|[->| ->]] by (cbn in Hi; lia); by vm_compute.
Qed.


Lemma acpi_soft_off_found_witness :
  match KernelSpace.init sample_image (MemoryState_new sample_firmware) sample_boot with
  | Ok (st, _) => ∃ st', init kernel_map_range kernel_physical st 0x80000 =
      Ok (AcpiSoftOff (mkShutdown 0x604 None 5 0), st')
  | _ => False
  end.
Proof.
  destruct sample_boot_fits as (Hr & Hl & Hi & Hf).
  pose proof (init_spec sample_image sample_firmware sample_boot Hr Hl Hi Hf) as H.
  assert (match KernelSpace.init sample_image (MemoryState_new sample_firmware) sample_boot with
    | Ok (st, _) => match init kernel_map_range kernel_physical st 0x80000 with
        | Ok (AcpiSoftOff _, _) => phys_window_end st =? 0x1200000 | _ => false end
    | _ => false end = true)%Z as Hok by (vm_compute; reflexivity).
  destruct (KernelSpace.init _ _ _) as [[st root]|e| |]; try discriminate Hok.
  assert (phys_window_end st = 0x1200000)%Z as Hw.
  { destruct (init _ _ st _) as [[[] ?]| | |]; try discriminate Hok. by apply Z.eqb_eq. }
  destruct (acpi_soft_off_found sample_image sample_firmware _ st root 0x80000 0x604 None 5 0 H)
    as [(backend & st' & Hd & _ & Hb) _].
  - apply sample_firmware_ok. intros x Hx. split_and!; [lia|lia| |].
    + intros (r & Hin & Hk & ? & ?). cbn in Hin. rewrite !elem_of_cons, elem_of_nil in Hin.
      destruct Hin as [->|[->|[]]]; cbn in *; [done|unfold PAGE_SIZE in *; lia].
    + rewrite Hw. unfold in_window, PHYS_WINDOW_START. lia.
  - rewrite Hd in Hok |- *. destruct Hb as [->|[-> _]]; [by exists st'|discriminate Hok].
Defined.

(** The root prefix of a name stands before the name segment in AML, and the
    scan looks for it before the operator. *)
Example rooted_s5_is_missed :
  parse_s5_package (sealed DSDT_SIGNATURE ([AML_NAME_OP; AML_ROOT_PREFIX]%Z ++ S5_NAME ++
    [AML_PACKAGE_OP; 6; 4; AML_BYTE_PREFIX; 5; 0; 0; 0]%Z)) = Err MissingS5Package.
Proof. by vm_compute. Qed.
