(* ===== verification/Pci.v ===== *)
(** * PCI configuration space ([kernel/kernel/src/pci.rs])

    The conventional access through two ports and the search for the first
    AHCI controller.  The ports lead to a device that is not part of the
    sources: its state is a parameter, and what the code relies on is that it
    is a configuration space ([config_space]): reading the data port gives
    the register that was last addressed. *)

From S2P Require Import Prelude Bytes.

Local Open Scope Z_scope.

Definition CONFIG_ADDRESS_PORT : Z := 0x0cf8.
Definition CONFIG_DATA_PORT : Z := 0x0cfc.

Definition CLASS_MASS_STORAGE : Z := 0x01.
Definition SUBCLASS_SATA : Z := 0x06.
Definition PROG_IF_AHCI : Z := 0x01.

Definition PCI_COMMAND_OFFSET : Z := 0x04.
Definition PCI_CLASS_OFFSET : Z := 0x08.
Definition PCI_HEADER_TYPE_OFFSET : Z := 0x0c.
Definition PCI_BAR5_OFFSET : Z := 0x24.

Definition PCI_COMMAND_MEMORY_SPACE : Z := Z.shiftl 1 1.
Definition PCI_COMMAND_BUS_MASTER : Z := Z.shiftl 1 2.

Record PciDeviceLocation := mkLocation { bus : Z; slot : Z; function : Z }.
Record AhciControllerInfo := mkControllerInfo { location : PciDeviceLocation; abar : Z }.

Definition pci_config_address (l : PciDeviceLocation) (offset : Z) : Z :=
  Z.lor (Z.lor (Z.lor (Z.lor (Z.shiftl 1 31) (Z.shiftl (bus l) 16)) (Z.shiftl (slot l) 11))
    (Z.shiftl (function l) 8)) (Z.land offset 0xfc).

Section Ports.
Context {Dev : Type} (outl : Z → Z → Dev → Dev) (inl_ : Z → Dev → Z * Dev).

Definition read_u32 (l : PciDeviceLocation) (offset : Z) (d : Dev) : Z * Dev :=
  let d := outl CONFIG_ADDRESS_PORT (pci_config_address l offset) d in
  inl_ CONFIG_DATA_PORT d.

Definition write_u32 (l : PciDeviceLocation) (offset value : Z) (d : Dev) : Dev :=
  let d := outl CONFIG_ADDRESS_PORT (pci_config_address l offset) d in
  outl CONFIG_DATA_PORT value d.

Definition read_u8 (l : PciDeviceLocation) (offset : Z) (d : Dev) : Z * Dev :=
  let shift := Z.land offset 0x03 * 8 in
  let '(v, d) := read_u32 l (Z.land offset 0xfc) d in
  (Z.land (Z.shiftr v shift) 0xff, d).

Definition read_u16 (l : PciDeviceLocation) (offset : Z) (d : Dev) : Z * Dev :=
  let shift := Z.land offset 0x02 * 8 in
  let '(v, d) := read_u32 l (Z.land offset 0xfc) d in
  (Z.land (Z.shiftr v shift) 0xffff, d).

(** [!(0xffff << shift)] keeps 32 bits. *)
Definition write_u16 (l : PciDeviceLocation) (offset value : Z) (d : Dev) : Dev :=
  let aligned := Z.land offset 0xfc in
  let shift := Z.land offset 0x02 * 8 in
  let '(register, d) := read_u32 l aligned d in
  let register := Z.ldiff register (Z.shiftl 0xffff shift) in
  let register := Z.lor register (Z.shiftl value shift) in
  write_u32 l aligned register d.

Definition enable_memory_bus_mastering (l : PciDeviceLocation) (d : Dev) : Dev :=
  let '(command, d) := read_u16 l PCI_COMMAND_OFFSET d in
  let updated := Z.lor (Z.lor command PCI_COMMAND_MEMORY_SPACE) PCI_COMMAND_BUS_MASTER in
  write_u16 l PCI_COMMAND_OFFSET updated d.

(** One function of a slot: whether it is the controller. *)
Definition probe_function (l : PciDeviceLocation) (d : Dev) : option AhciControllerInfo * Dev :=
  let '(vendor, d) := read_u16 l 0x00 d in
  if vendor =? 0xffff then (None, d)
  else
    let '(class_reg, d) := read_u32 l PCI_CLASS_OFFSET d in
    let class := Z.land (Z.shiftr class_reg 24) 0xff in
    let subclass := Z.land (Z.shiftr class_reg 16) 0xff in
    let prog_if := Z.land (Z.shiftr class_reg 8) 0xff in
    if (class =? CLASS_MASS_STORAGE) && (subclass =? SUBCLASS_SATA) && (prog_if =? PROG_IF_AHCI) then
      let '(bar, d) := read_u32 l PCI_BAR5_OFFSET d in
      let abar := Z.land bar 0xfffffff0 in
      (if negb (abar =? 0) then Some (mkControllerInfo l abar) else None, d)
    else (None, d).

Definition scan_functions (bus slot function_count : Z) (d : Dev)
    : outcome () (option AhciControllerInfo * Dev) :=
  while 9 (λ '(function, d),
    if function <? function_count then
      let '(found, d) := probe_function (mkLocation bus slot function) d in
      match found with
      | Some info => Ok (inr (Some info, d))
      | None => Ok (inl (function + 1, d))
      end
    else Ok (inr (None, d))) (0, d).

Definition scan_slots (bus : Z) (d : Dev) : outcome () (option AhciControllerInfo * Dev) :=
  while 33 (λ '(slot, d),
    if slot <? 32 then
      let l := mkLocation bus slot 0 in
      let '(vendor, d) := read_u16 l 0x00 d in
      if negb (vendor =? 0xffff) then
        let '(header, d) := read_u8 l PCI_HEADER_TYPE_OFFSET d in
        let header_type := Z.land header 0x80 in
        let function_count := if negb (header_type =? 0) then 8 else 1 in
        '(found, d) ← scan_functions bus slot function_count d;
        match found with
        | Some info => Ok (inr (Some info, d))
        | None => Ok (inl (slot + 1, d))
        end
      else Ok (inl (slot + 1, d))
    else Ok (inr (None, d))) (0, d).

Definition find_ahci_controller (d : Dev) : outcome () (option AhciControllerInfo * Dev) :=
  while 257 (λ '(bus, d),
    if bus <=? 0xff then
      '(found, d) ← scan_slots bus d;
      match found with
      | Some info => Ok (inr (Some info, d))
      | None => Ok (inl (bus + 1, d))
      end
    else Ok (inr (None, d))) (0, d).

(** ** Specification *)

(** A device behind the two ports that holds a 32-bit register for each
    address; reading changes none of them. *)
Record config_space (regs : Dev → Z → Z) : Prop := {
  cs_value : ∀ d address, fst (inl_ CONFIG_DATA_PORT (outl CONFIG_ADDRESS_PORT address d)) = regs d address;
  cs_kept : ∀ d address, regs (snd (inl_ CONFIG_DATA_PORT (outl CONFIG_ADDRESS_PORT address d))) = regs d
}.

End Ports.

(** The register of a function at an offset, and the fields of it. *)
Definition reg (regs : Z → Z) (l : PciDeviceLocation) (offset : Z) : Z := regs (pci_config_address l offset).
Definition vendor_of (regs : Z → Z) (l : PciDeviceLocation) : Z := Z.land (reg regs l 0) 0xffff.
(** What the code takes for the sign of more functions: bit 7 of the byte at
    0x0c.  The header type, which has this bit, is the byte at 0x0e. *)
Definition multifunction (regs : Z → Z) (l : PciDeviceLocation) : bool := Z.testbit (reg regs l 0x0c) 7.

(** The function answers, and it is either the first of its slot or one of a
    slot whose first function answers and says that there are more. *)
Definition reachable (regs : Z → Z) (l : PciDeviceLocation) : Prop :=
  (0 ≤ bus l < 256 ∧ 0 ≤ slot l < 32 ∧ 0 ≤ function l < 8) ∧
  vendor_of regs l ≠ 0xffff ∧
  let first := mkLocation (bus l) (slot l) 0 in
  vendor_of regs first ≠ 0xffff ∧ (function l = 0 ∨ multifunction regs first = true).

(** An AHCI controller with registers at [abar]. *)
Definition is_controller (regs : Z → Z) (i : AhciControllerInfo) : Prop :=
  Z.shiftr (Z.land (reg regs (location i) 0x08) (2 ^ 32 - 1)) 8 = 0x010601 ∧
  abar i = Z.land (reg regs (location i) 0x24) 0xfffffff0 ∧ abar i ≠ 0.

(** Bus by bus, slot by slot. *)
Definition ordinal (l : PciDeviceLocation) : Z := bus l * 256 + slot l * 8 + function l.

Definition target (regs : Z → Z) (i : AhciControllerInfo) : Prop :=
  reachable regs (location i) ∧ is_controller regs i.

(** No target comes before [n]. *)
Definition none_before (regs : Z → Z) (n : Z) : Prop := ∀ i, target regs i → n ≤ ordinal (location i).

(** * Lemmas *)

Section Scan.
Context {Dev : Type} (outl : Z → Z → Dev → Dev) (inl_ : Z → Dev → Z * Dev) (regs : Dev → Z → Z).
Context (Hspace : config_space outl inl_ regs) (r : Z → Z) (Hr : ∀ a, 0 ≤ r a < 2 ^ 32).

Lemma read_u32_spec l offset d : regs d = r →
  ∃ d', read_u32 outl inl_ l offset d = (reg r l offset, d') ∧ regs d' = r.
Proof.
  intros Hd. unfold read_u32. pose proof (cs_value _ _ _ Hspace d (pci_config_address l offset)) as Hv.
  pose proof (cs_kept _ _ _ Hspace d (pci_config_address l offset)) as Hk.
  destruct (inl_ _ _) as [v d']. cbn in *. exists d'. by rewrite Hv, Hk, Hd.
Qed.

Lemma read_vendor_spec l d : regs d = r →
  ∃ d', read_u16 outl inl_ l 0x00 d = (vendor_of r l, d') ∧ regs d' = r.
Proof.
  intros Hd. unfold read_u16. change (Z.land 0 2 * 8) with 0. change (Z.land 0 0xfc) with 0.
  destruct (read_u32_spec l 0 d Hd) as (d' & -> & Hd'). exists d'. by rewrite Z.shiftr_0_r.
Qed.

Lemma read_header_spec l d : regs d = r →
  ∃ v d', read_u8 outl inl_ l PCI_HEADER_TYPE_OFFSET d = (v, d') ∧ regs d' = r ∧
    (Z.land v 0x80 =? 0) = negb (multifunction r l).
Proof.
  intros Hd. unfold read_u8. change (Z.land PCI_HEADER_TYPE_OFFSET 0x03 * 8) with 0.
  change (Z.land PCI_HEADER_TYPE_OFFSET 0xfc) with 0x0c.
  destruct (read_u32_spec l 0x0c d Hd) as (d' & -> & Hd'). eexists _, d'. split_and!; [done|done|].
  rewrite Z.shiftr_0_r, <-Z.land_assoc. change (Z.land 0xff 0x80) with (2 ^ 7). by apply land_bit_eqb.
Qed.

Lemma probe_spec l d : regs d = r →
  ∃ found d', probe_function outl inl_ l d = (found, d') ∧ regs d' = r ∧
    match found with
    | Some i => location i = l ∧ vendor_of r l ≠ 0xffff ∧ is_controller r i
    | None => ∀ i, location i = l → vendor_of r l ≠ 0xffff → ¬ is_controller r i
    end.
Proof.
  intros Hd. unfold probe_function. destruct (read_vendor_spec l d Hd) as (d1 & -> & H1).
  destruct (Z.eqb_spec (vendor_of r l) 0xffff) as [He|He]; [exists None, d1; split_and!; [done|done|by intros ? _ ?]|].
  destruct (read_u32_spec l PCI_CLASS_OFFSET d1 H1) as (d2 & -> & H2). set (c := reg r l PCI_CLASS_OFFSET) in *.
  assert ((Z.land (Z.shiftr c 24) 0xff =? CLASS_MASS_STORAGE) && (Z.land (Z.shiftr c 16) 0xff =? SUBCLASS_SATA) &&
    (Z.land (Z.shiftr c 8) 0xff =? PROG_IF_AHCI) = bool_decide (Z.shiftr (Z.land c (2 ^ 32 - 1)) 8 = 0x010601)) as ->.
  { pose proof (Hr (pci_config_address l PCI_CLASS_OFFSET)) as Hc. fold (reg r l PCI_CLASS_OFFSET) in Hc. fold c in Hc.
    change (2 ^ 32 - 1) with (Z.ones 32). rewrite Z.land_ones, Z.mod_small by lia.
    change 0xff with (Z.ones 8). rewrite !Z.land_ones, !Z.shiftr_div_pow2 by lia.
    unfold CLASS_MASS_STORAGE, SUBCLASS_SATA, PROG_IF_AHCI. apply eq_true_iff_eq.
    rewrite bool_decide_eq_true, !andb_true_iff, !Z.eqb_eq. Z.div_mod_to_equations. lia. }
  case_bool_decide as Hclass.
  - destruct (read_u32_spec l PCI_BAR5_OFFSET d2 H2) as (d3 & -> & H3).
    destruct (Z.eqb_spec (Z.land (reg r l PCI_BAR5_OFFSET) 0xfffffff0) 0) as [Hb|Hb]; cbn [negb];
      eexists _, _; (split_and!; [done|done|]).
    + intros i Hi _ (_ & Ha & Hne). rewrite Hi in Ha. by rewrite Ha in Hne.
    + done.
  - eexists _, _. split_and!; [done|done|]. intros i Hi _ (Hc & _ & _). by rewrite Hi in Hc.
Qed.

Definition scanned (next : Z) (o : outcome () (option AhciControllerInfo * Dev)) : Prop :=
  ∃ found d', o = Ok (found, d') ∧ regs d' = r ∧
    match found with
    | Some i => target r i ∧ none_before r (ordinal (location i))
    | None => none_before r next
    end.

Lemma scan_functions_spec b s d : regs d = r → 0 ≤ b < 256 → 0 ≤ s < 32 →
  let first := mkLocation b s 0 in
  vendor_of r first ≠ 0xffff → none_before r (ordinal first) →
  scanned (ordinal first + 8) (scan_functions outl inl_ b s (if multifunction r first then 8 else 1) d).
Proof.
  intros Hd Hb Hs first Hfirst Hbefore. unfold scan_functions.
  set (count := if multifunction r first then 8 else 1).
  assert (1 ≤ count ≤ 8) as Hcount by (unfold count; destruct (multifunction r first); lia).
  apply (while_rule (λ '(f, d), 0 ≤ f ≤ count ∧ regs d = r ∧ none_before r (ordinal first + f))
    (λ '(f, _), Z.to_nat (count - f)) (scanned (ordinal first + 8))); [|split_and!; [lia|lia|done|by rewrite Z.add_0_r]|lia].
  intros [f d1] (Hf & H1 & Hn). destruct (Z.ltb_spec f count) as [Hlt|Hge].
  - destruct (probe_spec (mkLocation b s f) d1 H1) as (found & d2 & -> & H2 & Hfound).
    assert (reachable r (mkLocation b s f) ↔ vendor_of r (mkLocation b s f) ≠ 0xffff) as Hreach.
    { unfold reachable. cbn [bus slot function]. fold first. split; [tauto|]. intros Hv. split_and!; try (done || lia).
      unfold count in Hlt. destruct (multifunction r first); [by right|left; lia]. }
    destruct found as [i|].
    + destruct Hfound as (Hl & Hv & Hc). exists (Some i), d2. split_and!; [done|done| |].
      * split; [|done]. rewrite Hl. by apply Hreach.
      * rewrite Hl. replace (ordinal (mkLocation b s f)) with (ordinal first + f) by (unfold ordinal; cbn; lia). exact Hn.
    + split; [|lia]. split_and!; [lia|lia|done|]. intros i Hi. pose proof (Hn i Hi) as Hi'.
      destruct (decide (ordinal (location i) = ordinal first + f)) as [He|]; [|lia].
      exfalso. destruct Hi as [Hri Hci]. assert (location i = mkLocation b s f) as Hloc.
      { destruct Hri as [(? & ? & ?) _]. unfold ordinal in He. cbn in He. destruct (location i). cbn in *. f_equal; lia. }
      apply (Hfound i Hloc); [|done]. rewrite Hloc in Hri. exact (proj1 Hreach Hri).
  - assert (f = count) as -> by lia. eexists _, _. split_and!; [done|done|]. intros i Hi. pose proof (Hn i Hi) as Hi'.
    unfold count in Hi'. destruct (multifunction r first) eqn:Hm; [done|].
    destruct Hi as [((? & ? & ?) & _ & _ & Hz) _]. unfold ordinal in *. cbn [bus slot function first] in *.
    destruct (decide (bus (location i) = b ∧ slot (location i) = s)) as [[Eb Es]|]; [|lia].
    rewrite Eb, Es in Hz. fold first in Hz. rewrite Hm in Hz. destruct Hz as [?|?]; [lia|done].
Qed.

Lemma scan_slots_spec b d : regs d = r → 0 ≤ b < 256 → none_before r (b * 256) →
  scanned ((b + 1) * 256) (scan_slots outl inl_ b d).
Proof.
  intros Hd Hb Hbefore. unfold scan_slots.
  apply (while_rule (λ '(s, d), 0 ≤ s ≤ 32 ∧ regs d = r ∧ none_before r (b * 256 + s * 8))
    (λ '(s, _), Z.to_nat (32 - s)) (scanned ((b + 1) * 256))); [|split_and!; [lia|lia|done|by rewrite Z.add_0_r]|lia].
  intros [s d1] (Hs & H1 & Hn). destruct (Z.ltb_spec s 32) as [Hlt|Hge].
  2: { eexists _, _. split_and!; [done|done|]. intros i Hi. specialize (Hn i Hi). lia. }
  set (first := mkLocation b s 0). assert (ordinal first = b * 256 + s * 8) as Ho by (unfold ordinal; cbn; lia).
  destruct (read_vendor_spec first d1 H1) as (d2 & -> & H2).
  destruct (Z.eqb_spec (vendor_of r first) 0xffff) as [Hv|Hv]; cbn [negb].
  - split; [|lia]. split_and!; [lia|lia|done|]. intros i Hi. specialize (Hn i Hi).
    destruct Hi as [((? & ? & ?) & _ & Hvi & _) _]. unfold ordinal in *. cbn in Ho.
    destruct (decide (bus (location i) = b ∧ slot (location i) = s)) as [[Eb Es]|]; [|lia].
    by rewrite Eb, Es in Hvi.
  - destruct (read_header_spec first d2 H2) as (v & d3 & -> & H3 & Hm). rewrite Hm, negb_involutive.
    rewrite <-Ho in Hn. destruct (scan_functions_spec b s d3 H3 Hb ltac:(lia) Hv Hn) as (found & d4 & He & H4 & Hfound).
    fold first in He. rewrite He. cbn [mbind outcome_bind]. destruct found as [i|]; [by eexists _, _|].
    split; [|lia]. split_and!; [lia|lia|done|]. fold first in Hfound. rewrite Ho in Hfound. by replace (b * 256 + (s + 1) * 8) with (b * 256 + s * 8 + 8) by lia.
Qed.

Lemma find_spec d : regs d = r → scanned (256 * 256) (find_ahci_controller outl inl_ d).
Proof.
  intros Hd. unfold find_ahci_controller.
  apply (while_rule (λ '(b, d), 0 ≤ b ≤ 256 ∧ regs d = r ∧ none_before r (b * 256))
    (λ '(b, _), Z.to_nat (256 - b)) (scanned (256 * 256))); [| |lia].
  2: { split_and!; [lia|lia|done|]. intros i [((? & ? & ?) & _) _]. unfold ordinal. lia. }
  intros [b d1] (Hb & H1 & Hn). destruct (Z.leb_spec b 0xff) as [Hle|Hgt].
  - destruct (scan_slots_spec b d1 H1 ltac:(lia) Hn) as (found & d2 & -> & H2 & Hfound). cbn [mbind outcome_bind].
    destruct found as [i|]; [by eexists _, _|]. split; [|lia]. split_and!; [lia|lia|done|done].
  - eexists _, _. split_and!; [done|done|]. by replace (256 * 256) with (b * 256) by lia.
Qed.

(** Enabling a function writes its command register back with two more bits,
    and with it the status bits as they were read. *)
Lemma enable_spec l d : regs d = r →
  ∃ d', regs d' = r ∧ enable_memory_bus_mastering outl inl_ l d =
    outl CONFIG_DATA_PORT (Z.lor (reg r l 0x04) 6) (outl CONFIG_ADDRESS_PORT (pci_config_address l 0x04) d').
Proof.
  intros Hd. unfold enable_memory_bus_mastering, read_u16, write_u16.
  change (Z.land PCI_COMMAND_OFFSET 0x02 * 8) with 0. change (Z.land PCI_COMMAND_OFFSET 0xfc) with 0x04.
  destruct (read_u32_spec l 0x04 d Hd) as (d1 & -> & H1). destruct (read_u32_spec l 0x04 d1 H1) as (d2 & -> & H2).
  exists d2. split; [done|]. unfold write_u32. f_equal. rewrite Z.shiftr_0_r, !Z.shiftl_0_r, <-Z.lor_assoc.
  change (Z.lor PCI_COMMAND_MEMORY_SPACE PCI_COMMAND_BUS_MASTER) with 6. set (v := reg r l 4).
  rewrite Z.lor_assoc. f_equal. change 0xffff with (Z.ones 16). apply Z.bits_inj'. intros n Hn.
  rewrite Z.lor_spec, Z.ldiff_spec, Z.land_spec. by destruct (Z.testbit v n), (Z.testbit (Z.ones 16) n).
Qed.

End Scan.

(** * Properties *)

(** The search over configuration space.  On any device that holds
    32-bit registers, the three nested loops end without a panic, leave the
    registers alone and find the AHCI controller that comes first in the
    order of buses, slots and functions among the functions that the scan
    reaches, with the address of its registers; or they find none and there
    is none. *)
Theorem find_ahci_controller_first {Dev} outl inl_ (regs : Dev → Z → Z) d :
  config_space outl inl_ regs → (∀ a, 0 ≤ regs d a < 2 ^ 32) →
  ∃ found d', find_ahci_controller outl inl_ d = Ok (found, d') ∧ regs d' = regs d ∧
    match found with
    | Some i => target (regs d) i ∧ ∀ i', target (regs d) i' → ordinal (location i) ≤ ordinal (location i')
    | None => ∀ i, ¬ target (regs d) i
    end.
Proof.
  intros Hs Hr. destruct (find_spec outl inl_ regs Hs (regs d) Hr d eq_refl) as (found & d' & Hf & Hd & Hfound).
  exists found, d'. split_and!; [done|done|]. destruct found as [i|]; [done|].
  intros i Hi. pose proof (Hfound i Hi). destruct Hi as [((? & ? & ?) & _) _]. unfold ordinal in *. lia.
Qed.

(** A device with one register for each address: the latch is the address. *)
Definition sample_outl (port value latch : Z) : Z := if port =? CONFIG_ADDRESS_PORT then value else latch.
Definition sample_inl (regs : Z → Z) (port latch : Z) : Z * Z := (regs latch, latch).

Lemma sample_space regs : config_space sample_outl (sample_inl regs) (λ _, regs).
Proof. by split. Qed.

(** Functions given by their registers; others do not answer. *)
Definition sample_functions (functions : list (PciDeviceLocation * list (Z * Z))) (address : Z) : Z :=
  foldr (λ '(l, fields) rest, foldr (λ '(offset, value) rest,
    if address =? pci_config_address l offset then value else rest) rest fields) 0xffffffff functions.
Definition sample_controller : list (Z * Z) :=
  [(0, 0x29228086); (0x04, 0x00100000); (0x08, 0x01060102); (0x0c, 0x00000000); (0x24, 0xfebf1000)].

Lemma sample_functions_bound l : Forall (λ '(_, fields), Forall (λ '(_, v), 0 ≤ v < 2 ^ 32) fields) l →
  ∀ a, 0 ≤ sample_functions l a < 2 ^ 32.
Proof.
  intros Hl a. induction Hl as [|[loc fields] l Hf _ IH]; cbn [sample_functions foldr]; [lia|].
  fold (sample_functions l a). induction Hf as [|[o v] fields Hv _ IHf]; cbn [foldr]; [done|]. by case_match.
Qed.

Lemma find_ahci_controller_first_witness :
  let regs := sample_functions [(mkLocation 0 3 0, sample_controller)] in
  ∃ i d', find_ahci_controller sample_outl (sample_inl regs) 0 = Ok (Some i, d') ∧ target regs i ∧ ordinal (location i) ≤ 24.
Proof.
  intros regs.
  destruct (find_ahci_controller_first sample_outl (sample_inl regs) (λ _, regs) 0 (sample_space regs))
    as (found & d' & Hf & _ & Hfound).
  - apply sample_functions_bound. repeat first [apply Forall_nil_2|apply Forall_cons_2]; lia.
  - assert (target regs (mkControllerInfo (mkLocation 0 3 0) 0xfebf1000)) as Ht.
    { split; [split; [cbn; lia|split; [by vm_compute|split; [by vm_compute|by left]]]|]. split; [by vm_compute|].
      split; [by vm_compute|discriminate]. }
    destruct found as [i|]; [|destruct (Hfound _ Ht)]. exists i, d'. split; [exact Hf|].
    destruct Hfound as [Hi Hmin]. split; [exact Hi|]. exact (Hmin _ Ht).
Defined.

(** A slot of two functions, which says so where the standard wants it: the
    scan does not look at the second. *)
Example second_function_is_missed :
  let regs := sample_functions
    [(mkLocation 0 31 0, [(0, 0x29188086); (0x08, 0x06010002); (0x0c, 0x00800000)]);
     (mkLocation 0 31 2, sample_controller)] in
  (λ o, match o with Ok (found, _) => Some found | _ => None end)
    (find_ahci_controller sample_outl (sample_inl regs) 0) = Some None.
Proof. by vm_compute. Qed.
