(* ===== verification/Ahci.v ===== *)
(** * The AHCI disk ([kernel/kernel/src/storage/ahci.rs])

    Finding a SATA disk on an AHCI controller and reading one sector through
    its registers and the command structures in memory.  The controller is
    not part of the sources: its state is a parameter, and so is what an
    access to one of its registers does to it and, by DMA, to memory.
    [ahci_port] states what the code relies on: a disk on the first port, the
    only one whose registers the code finds ([later_ports_misaddressed]), and a
    port whose two engines may be switched together. *)

From stdpp Require Import gmap.
From S2P Require Import Prelude Bytes Errors Allocator Process Paging KernelSpace.

Local Open Scope Z_scope.

Definition AHCI_MMIO_SIZE : Z := 0x1100.
Definition SECTOR_SIZE : Z := 512.

Definition AHCI_GHC_AE : Z := Z.shiftl 1 31.
Definition AHCI_PORT_CMD_ST : Z := Z.shiftl 1 0.
Definition AHCI_PORT_CMD_FRE : Z := Z.shiftl 1 4.
Definition AHCI_PORT_CMD_FR : Z := Z.shiftl 1 14.
Definition AHCI_PORT_CMD_CR : Z := Z.shiftl 1 15.
Definition AHCI_PORT_TFD_BSY : Z := Z.shiftl 1 7.
Definition AHCI_PORT_TFD_DRQ : Z := Z.shiftl 1 3.
Definition AHCI_PORT_IS_TFES : Z := Z.shiftl 1 30.
Definition SATA_STATUS_DEVICE_PRESENT : Z := 0x3.
Definition SATA_STATUS_INTERFACE_ACTIVE : Z := 0x1.
Definition SATA_SIGNATURE_ATA : Z := 0x00000101.

Definition ATA_COMMAND_READ_DMA_EXT : Z := 0x25.
Definition FIS_TYPE_REG_H2D : Z := 0x27.

(** ** Layout of the registers: each field of a [repr(C)] struct and its size *)

Local Open Scope string_scope.

Definition HbaPort : list (string * Z) :=
  [("command_list_base", 4); ("command_list_base_upper", 4); ("fis_base", 4); ("fis_base_upper", 4);
   ("interrupt_status", 4); ("interrupt_enable", 4); ("command_status", 4); ("reserved0", 4);
   ("task_file_data", 4); ("signature", 4); ("serial_ata_status", 4); ("serial_ata_control", 4);
   ("serial_ata_error", 4); ("serial_ata_active", 4); ("command_issue", 4); ("serial_ata_notification", 4);
   ("fis_based_switching", 4); ("device_sleep", 4); ("reserved1", 0x28)].

Definition size_of (fields : list (string * Z)) : Z := foldr (λ '(_, n) total, n + total) 0 fields.

Definition HbaMemory : list (string * Z) :=
  [("capabilities", 4); ("global_host_control", 4); ("interrupt_status", 4); ("ports_implemented", 4);
   ("version", 4); ("command_completion_coalescing_control", 4); ("command_completion_coalescing_ports", 4);
   ("enclosure_management_location", 4); ("enclosure_management_control", 4); ("capabilities_extended", 4);
   ("bios_handoff_control_status", 4); ("reserved", 0x74); ("vendor", 0x60); ("ports", 32 * size_of HbaPort)].

Fixpoint offset_of (fields : list (string * Z)) (name : string) : Z :=
  match fields with
  | [] => 0
  | (field, n) :: fields => if bool_decide (field = name) then 0 else n + offset_of fields name
  end.

Local Close Scope string_scope.

(** ** Structures in memory *)

Record HbaCommandHeader := mkHeader {
  command_fis_length : Z; flags : Z; prdt_length : Z; bytes_transferred : Z;
  command_table_base : Z; command_table_base_upper : Z
}.
Definition header_bytes (h : HbaCommandHeader) : list Z :=
  [command_fis_length h; flags h] ++ to_le_bytes 2 (prdt_length h) ++ to_le_bytes 4 (bytes_transferred h) ++
  to_le_bytes 4 (command_table_base h) ++ to_le_bytes 4 (command_table_base_upper h) ++ replicate 16 0.

Record HbaPrdtEntry := mkPrdt { data_base : Z; data_base_upper : Z; byte_count : Z }.
Definition prdt_bytes (e : HbaPrdtEntry) : list Z :=
  to_le_bytes 4 (data_base e) ++ to_le_bytes 4 (data_base_upper e) ++ to_le_bytes 4 0 ++ to_le_bytes 4 (byte_count e).

(** [HbaCommandTable::default()] with its one entry filled in. *)
Definition table_bytes (e : HbaPrdtEntry) : list Z :=
  replicate 64 0 ++ replicate 16 0 ++ replicate 48 0 ++ prdt_bytes e.

(** [FisRegisterHostToDevice] for a read of one sector. *)
Definition read_fis (lba : Z) : list Z :=
  let byte shift := Z.land (Z.shiftr lba shift) 0xff in
  [FIS_TYPE_REG_H2D; Z.shiftl 1 7; ATA_COMMAND_READ_DMA_EXT; 0; byte 0; byte 8; byte 16; Z.shiftl 1 6;
   byte 24; byte 32; byte 40; 0; 1; 0; 0; 0; 0; 0; 0; 0].

(** ** The controller *)

Record AhciController := mkController {
  abar : Z; port_index : nat;
  command_list_paddr : Z; fis_paddr : Z; command_table_paddr : Z; dma_buffer_paddr : Z
}.

Definition SPIN_LIMIT : Z := 1000000.
Definition SPINS : nat := Z.to_nat (SPIN_LIMIT + 1).
#[global] Arguments SPINS : simpl never.

Abbreviation dres := (outcome StorageError).

Section Controller.
Context {Dev : Type} (read32 : Z → Dev * Memory → Z * (Dev * Memory)) (write32 : Z → Z → Dev * Memory → Dev * Memory).

Definition port_ptr (c : AhciController) (index : nat) : Z :=
  abar c + offset_of HbaMemory "ports" + Z.of_nat index * size_of HbaPort.

Definition read_hba_reg (c : AhciController) (field : string) (w : Dev * Memory) : Z * (Dev * Memory) :=
  read32 (abar c + offset_of HbaMemory field) w.
Definition write_hba_reg (c : AhciController) (field : string) (value : Z) (w : Dev * Memory) : Dev * Memory :=
  write32 (abar c + offset_of HbaMemory field) value w.
Definition read_port_reg_at (c : AhciController) (index : nat) (field : string) (w : Dev * Memory) : Z * (Dev * Memory) :=
  read32 (port_ptr c index + offset_of HbaPort field) w.
Definition read_port_reg (c : AhciController) (field : string) (w : Dev * Memory) : Z * (Dev * Memory) :=
  read_port_reg_at c (port_index c) field w.
Definition write_port_reg (c : AhciController) (field : string) (value : Z) (w : Dev * Memory) : Dev * Memory :=
  write32 (port_ptr c (port_index c) + offset_of HbaPort field) value w.

Definition low32 (v : Z) : Z := v mod 2 ^ 32.
Definition high32 (v : Z) : Z := Z.shiftr v 32 mod 2 ^ 32.
Definition u32_max : Z := 2 ^ 32 - 1.

Definition enable_ahci_mode (c : AhciController) (w : Dev * Memory) : Dev * Memory :=
  let '(ghc, w) := read_hba_reg c "global_host_control" w in
  write_hba_reg c "global_host_control" (Z.lor ghc AHCI_GHC_AE) w.

Definition port_is_sata_disk (c : AhciController) (index : nat) (w : Dev * Memory) : bool * (Dev * Memory) :=
  let '(sata_status, w) := read_port_reg_at c index "serial_ata_status" w in
  let device_detection := Z.land sata_status 0x0f in
  let interface_power := Z.land (Z.shiftr sata_status 8) 0x0f in
  let '(signature, w) := read_port_reg_at c index "signature" w in
  ((device_detection =? SATA_STATUS_DEVICE_PRESENT) && (interface_power =? SATA_STATUS_INTERFACE_ACTIVE) &&
   (signature =? SATA_SIGNATURE_ATA), w).

Definition wait_for_device_ready (c : AhciController) (w : Dev * Memory) : dres (Dev * Memory) :=
  while SPINS (λ '(spins, w),
    let '(task_file, w) := read_port_reg c "task_file_data" w in
    if Z.land task_file (Z.lor AHCI_PORT_TFD_BSY AHCI_PORT_TFD_DRQ) =? 0 then Ok (inr w)
    else
      let spins := spins + 1 in
      if SPIN_LIMIT <? spins then Err AhciCommandTimeout else Ok (inl (spins, w))) (0, w).

(** [command & !(ST | FRE)] *)
Definition stop_port (c : AhciController) (w : Dev * Memory) : dres (Dev * Memory) :=
  let '(command, w) := read_port_reg c "command_status" w in
  let w := write_port_reg c "command_status" (Z.ldiff command (Z.lor AHCI_PORT_CMD_ST AHCI_PORT_CMD_FRE)) w in
  while SPINS (λ '(spins, w),
    let '(command, w) := read_port_reg c "command_status" w in
    if Z.land command (Z.lor AHCI_PORT_CMD_CR AHCI_PORT_CMD_FR) =? 0 then Ok (inr w)
    else
      let spins := spins + 1 in
      if SPIN_LIMIT <? spins then Err AhciCommandTimeout else Ok (inl (spins, w))) (0, w).

Definition start_port (c : AhciController) (w : Dev * Memory) : Dev * Memory :=
  let '(command, w) := read_port_reg c "command_status" w in
  write_port_reg c "command_status" (Z.lor (Z.lor command AHCI_PORT_CMD_FRE) AHCI_PORT_CMD_ST) w.

Definition initialize_port (c : AhciController) (w : Dev * Memory) : dres (Dev * Memory) :=
  w ← stop_port c w;
  let w := write_port_reg c "command_list_base" (low32 (command_list_paddr c)) w in
  let w := write_port_reg c "command_list_base_upper" (high32 (command_list_paddr c)) w in
  let w := write_port_reg c "fis_base" (low32 (fis_paddr c)) w in
  let w := write_port_reg c "fis_base_upper" (high32 (fis_paddr c)) w in
  let w := write_port_reg c "interrupt_enable" 0 w in
  let w := write_port_reg c "serial_ata_error" u32_max w in
  let w := write_port_reg c "interrupt_status" u32_max w in
  Ok (start_port c w).

(** The search of [initialize] over the ports. *)
Definition find_port (c : AhciController) (ports_implemented : Z) (w : Dev * Memory) : dres (AhciController * (Dev * Memory)) :=
  while 33 (λ '(port_index, w),
    if decide (port_index < 32)%nat then
      let '(disk, w) := if Z.testbit ports_implemented (Z.of_nat port_index)
                        then port_is_sata_disk c port_index w else (false, w) in
      if (disk : bool) then
        let c := mkController (abar c) port_index (command_list_paddr c) (fis_paddr c)
                   (command_table_paddr c) (dma_buffer_paddr c) in
        w ← initialize_port c w;
        Ok (inr (c, w))
      else Ok (inl (S port_index, w))
    else Err AhciPortNotFound) (0%nat, w).

Definition initialize (abar : Z) (d : Dev) (st : MemoryState) : dres (AhciController * Dev * MemoryState) :=
  '(command_list, st) ← map_err Errors.Memory (allocate_kernel_page st);
  '(fis, st) ← map_err Errors.Memory (allocate_kernel_page st);
  '(command_table, st) ← map_err Errors.Memory (allocate_kernel_page st);
  '(dma_buffer, st) ← map_err Errors.Memory (allocate_kernel_page st);
  let c := mkController abar 0 command_list fis command_table dma_buffer in
  let w := enable_ahci_mode c (d, memory (store st)) in
  let '(ports_implemented, w) := read_hba_reg c "ports_implemented" w in
  '(c, w) ← find_port c ports_implemented w;
  Ok (c, fst w, with_store (with_memory (snd w) (store st)) st).

(** The command structures for a read, in memory. *)
Definition write_command (c : AhciController) (lba : Z) (m : Memory) : Memory :=
  let header := mkHeader (Z.of_nat (length (read_fis lba)) / 4) 0 1 0
                  (low32 (command_table_paddr c)) (high32 (command_table_paddr c)) in
  let m := write_phys m (command_list_paddr c) (header_bytes header) in
  let entry := mkPrdt (low32 (dma_buffer_paddr c)) (high32 (dma_buffer_paddr c)) (SECTOR_SIZE - 1) in
  let m := write_phys m (command_table_paddr c) (table_bytes entry) in
  write_phys m (command_table_paddr c) (read_fis lba).

Definition wait_for_command (c : AhciController) (w : Dev * Memory) : dres (Dev * Memory) :=
  while SPINS (λ '(spins, w),
    let '(interrupt_status, w) := read_port_reg c "interrupt_status" w in
    if negb (Z.land interrupt_status AHCI_PORT_IS_TFES =? 0) then Err AhciTaskFileError
    else
      let '(command_issue, w) := read_port_reg c "command_issue" w in
      if Z.land command_issue 1 =? 0 then Ok (inr w)
      else
        let spins := spins + 1 in
        if SPIN_LIMIT <? spins then Err AhciCommandTimeout else Ok (inl (spins, w))) (0, w).

Definition read_sector (c : AhciController) (lba : Z) (w : Dev * Memory) : dres (list Z * (Dev * Memory)) :=
  w ← wait_for_device_ready c w;
  let w := write_port_reg c "interrupt_status" u32_max w in
  let '(d, m) := w in
  let w := write_port_reg c "command_issue" 1 (d, write_command c lba m) in
  w ← wait_for_command c w;
  Ok (map (snd w) (seqZ (dma_buffer_paddr c) SECTOR_SIZE), w).

End Controller.

(** ** Specification: the controller and the disk behind its first port

    The offsets of the registers and the layout of the command structures are
    those of the standard, not of the structs above. *)

Definition port_registers (abar index : Z) : Z := abar + 0x100 + 0x80 * index.

(** A little-endian field of [n] bytes in memory. *)
Definition memory_field (m : Memory) (address n : Z) : Z := from_le_bytes (map m (seqZ address n)).

(** The first command of the list asks for one sector of the disk, by DMA to
    [buffer]. *)
Definition read_request (m : Memory) (list_ lba buffer : Z) : Prop :=
  ∃ table,
    (Z.land (m list_) 0x1f = 5 ∧ Z.testbit (m list_) 6 = false) ∧
    memory_field m (list_ + 2) 2 = 1 ∧ memory_field m (list_ + 8) 8 = table ∧
    (m table = 0x27 ∧ Z.testbit (m (table + 1)) 7 = true ∧ m (table + 2) = 0x25 ∧ Z.testbit (m (table + 7)) 6 = true) ∧
    lba = from_le_bytes (map m (seqZ (table + 4) 3 ++ seqZ (table + 8) 3)) ∧ memory_field m (table + 12) 2 = 1 ∧
    memory_field m (table + 0x80) 8 = buffer ∧ Z.land (memory_field m (table + 0x8c) 4) (2 ^ 22 - 1) = 511.

(** What the port is doing, with the address of its command list and of the
    area for received FISes, and how often it will be polled before it is
    done. *)
Inductive Phase :=
| Reset
| Stopping (polls : nat)
| Stopped (list_ fis : Z)
| Idle (list_ fis : Z) (polls : nat)
| Running (list_ fis lba buffer : Z) (polls : nat).

(** Memory is as it was but for the received FISes. *)
Definition same_but (fis : Z) (m m' : Memory) : Prop := ∀ x, ¬ (fis ≤ x < fis + 256) → m' x = m x.

Section Contract.
Context {Dev : Type} (read32 : Z → Dev * Memory → Z * (Dev * Memory)) (write32 : Z → Z → Dev * Memory → Dev * Memory).

(** A read that gives a value with a property, and leaves the device in a
    phase and memory as it may be. *)
Definition reads (address : Z) (d : Dev) (m : Memory) (phase : Dev → Phase) (value : Z → Prop) (p : Phase)
    (kept : Memory → Prop) : Prop :=
  ∃ v d' m', read32 address (d, m) = (v, (d', m')) ∧ value v ∧ phase d' = p ∧ kept m'.
Definition writes (address value : Z) (d : Dev) (m : Memory) (phase : Dev → Phase) (p : Phase)
    (kept : Memory → Prop) : Prop :=
  ∃ d' m', write32 address value (d, m) = (d', m') ∧ phase d' = p ∧ kept m'.

(** The command engine (ST, bit 0) and the FIS engine (FRE, bit 4) may be
    stopped, and started, in one write.  This is more than the standard gives:
    there FRE is to stay set until the command engine is at rest, and to be set
    before ST (AHCI 1.3.1, 10.1.2 and 10.3).  The driver relies on it. *)
Record engines_together (abar : Z) (latency : nat) (phase : Dev → Phase) : Prop := {
  et_stop : ∀ d m v, phase d = Reset → Z.testbit v 0 = false → Z.testbit v 4 = false →
    ∃ n, (n ≤ latency)%nat ∧ writes (port_registers abar 0 + 0x18) v d m phase (Stopping n) (eq m);
  et_start : ∀ d m l f v, phase d = Stopped l f → Z.testbit v 0 = true → Z.testbit v 4 = true →
    ∃ n, (n ≤ latency)%nat ∧ writes (port_registers abar 0 + 0x18) v d m phase (Idle l f n) (same_but f m)
}.

(** What the driver relies on, of a controller with a disk on its first port.
    Polling ends within [latency]; a sector is 512 bytes. *)
Record ahci_port (abar : Z) (latency : nat) (disk : Z → list Z) (phase : Dev → Phase) : Prop := {
  ap_latency : Z.of_nat latency < SPIN_LIMIT;
  ap_control : ∀ d m, phase d = Reset →
    reads (abar + 0x04) d m phase (λ _, True) Reset (eq m) ∧
    ∀ v, Z.testbit v 31 = true → writes (abar + 0x04) v d m phase Reset (eq m);
  ap_ports : ∀ d m, phase d = Reset → reads (abar + 0x0c) d m phase (λ v, Z.testbit v 0 = true) Reset (eq m);
  ap_detect : ∀ d m, phase d = Reset →
    reads (port_registers abar 0 + 0x28) d m phase (λ v, Z.land v 0x0f = 3 ∧ Z.land (Z.shiftr v 8) 0x0f = 1) Reset (eq m) ∧
    reads (port_registers abar 0 + 0x24) d m phase (λ v, v = 0x101) Reset (eq m);
  ap_command : ∀ d m, (phase d = Reset ∨ ∃ l f, phase d = Stopped l f) →
    reads (port_registers abar 0 + 0x18) d m phase (λ _, True) (phase d) (eq m);
  ap_together : engines_together abar latency phase;
  ap_stopping : ∀ d m n, phase d = Stopping n →
    match n with
    | O => ∃ l f, reads (port_registers abar 0 + 0x18) d m phase (λ v, Z.testbit v 14 = false ∧ Z.testbit v 15 = false) (Stopped l f) (eq m)
    | S n => reads (port_registers abar 0 + 0x18) d m phase (λ v, Z.testbit v 14 = true ∨ Z.testbit v 15 = true) (Stopping n) (eq m)
    end;
  ap_list : ∀ d m l f v, phase d = Stopped l f → 0 ≤ v < 2 ^ 32 →
    writes (port_registers abar 0) v d m phase (Stopped (l / 2 ^ 32 * 2 ^ 32 + v) f) (eq m) ∧
    writes (port_registers abar 0 + 0x04) v d m phase (Stopped (v * 2 ^ 32 + l mod 2 ^ 32) f) (eq m);
  ap_fis : ∀ d m l f v, phase d = Stopped l f → 0 ≤ v < 2 ^ 32 →
    writes (port_registers abar 0 + 0x08) v d m phase (Stopped l (f / 2 ^ 32 * 2 ^ 32 + v)) (eq m) ∧
    writes (port_registers abar 0 + 0x0c) v d m phase (Stopped l (v * 2 ^ 32 + f mod 2 ^ 32)) (eq m);
  ap_setup : ∀ d m l f, phase d = Stopped l f →
    writes (port_registers abar 0 + 0x14) 0 d m phase (Stopped l f) (eq m) ∧
    writes (port_registers abar 0 + 0x30) (2 ^ 32 - 1) d m phase (Stopped l f) (eq m) ∧
    writes (port_registers abar 0 + 0x10) (2 ^ 32 - 1) d m phase (Stopped l f) (eq m);
  ap_ready : ∀ d m l f n, phase d = Idle l f n →
    match n with
    | O => reads (port_registers abar 0 + 0x20) d m phase (λ v, Z.testbit v 7 = false ∧ Z.testbit v 3 = false) (Idle l f 0) (same_but f m)
    | S n => reads (port_registers abar 0 + 0x20) d m phase (λ v, Z.testbit v 7 = true ∨ Z.testbit v 3 = true) (Idle l f n) (same_but f m)
    end;
  ap_clear : ∀ d m l f, phase d = Idle l f 0 → writes (port_registers abar 0 + 0x10) (2 ^ 32 - 1) d m phase (Idle l f 0) (same_but f m);
  ap_issue : ∀ d m l f lba buffer, phase d = Idle l f 0 → read_request m l lba buffer →
    ∃ n, (n ≤ latency)%nat ∧ writes (port_registers abar 0 + 0x38) 1 d m phase (Running l f lba buffer n)
      (λ m', ∀ x, ¬ (buffer ≤ x < buffer + 512) → ¬ (f ≤ x < f + 256) → m' x = m x);
  ap_status : ∀ d m l f lba buffer n, phase d = Running l f lba buffer n →
    reads (port_registers abar 0 + 0x10) d m phase (λ v, Z.testbit v 30 = false) (Running l f lba buffer n)
      (λ m', ∀ x, ¬ (buffer ≤ x < buffer + 512) → ¬ (f ≤ x < f + 256) → m' x = m x);
  ap_done : ∀ d m l f lba buffer n, phase d = Running l f lba buffer n →
    match n with
    | O => ∃ k, (k ≤ latency)%nat ∧ reads (port_registers abar 0 + 0x38) d m phase (λ v, Z.testbit v 0 = false) (Idle l f k)
        (λ m', (∀ x, ¬ (buffer ≤ x < buffer + 512) → ¬ (f ≤ x < f + 256) → m' x = m x) ∧
               map m' (seqZ buffer 512) = disk lba)
    | S n => reads (port_registers abar 0 + 0x38) d m phase (λ v, Z.testbit v 0 = true) (Running l f lba buffer n)
        (λ m', ∀ x, ¬ (buffer ≤ x < buffer + 512) → ¬ (f ≤ x < f + 256) → m' x = m x)
    end
}.
End Contract.

(** The pages of a controller lie apart, inside the address space. *)
Record pages_apart (c : AhciController) : Prop := {
  pa_range : Forall (λ p, 0 ≤ p ∧ p + PAGE_SIZE ≤ 2 ^ 52) [command_list_paddr c; fis_paddr c; command_table_paddr c; dma_buffer_paddr c];
  pa_apart : ∀ i j p q, [command_list_paddr c; fis_paddr c; command_table_paddr c; dma_buffer_paddr c] !! i = Some p →
    [command_list_paddr c; fis_paddr c; command_table_paddr c; dma_buffer_paddr c] !! j = Some q →
    i ≠ j → p + PAGE_SIZE ≤ q ∨ q + PAGE_SIZE ≤ p
}.

(** * Lemmas *)

(** ** Bytes in memory *)

Lemma phys_inside m a l k n : (k + n ≤ length l)%nat →
  map (write_phys m a l) (seqZ (a + Z.of_nat k) (Z.of_nat n)) = sub l k (k + n).
Proof.
  intros Hk. apply list_eq. intros i. rewrite list_lookup_fmap. unfold sub.
  destruct (decide (i < n)%nat) as [Hi|Hi].
  - rewrite lookup_seqZ_lt by lia. cbn [fmap option_fmap option_map]. rewrite lookup_take_lt, lookup_drop by lia.
    unfold write_phys. rewrite decide_True by lia. replace (Z.to_nat _) with (k + i)%nat by lia.
    destruct (lookup_lt_is_Some_2 l (k + i)) as [b ->]; [lia|done].
  - rewrite lookup_seqZ_ge by lia. symmetry. apply lookup_ge_None_2. rewrite length_take, length_drop. lia.
Qed.

Lemma phys_outside m a l x : ¬ (a ≤ x < a + Z.of_nat (length l)) → write_phys m a l x = m x.
Proof. intros Hx. unfold write_phys. by rewrite decide_False. Qed.

Lemma phys_outside_range m a l b n : b + n ≤ a ∨ a + Z.of_nat (length l) ≤ b →
  map (write_phys m a l) (seqZ b n) = map m (seqZ b n).
Proof. intros Hb. apply map_ext_in. intros x Hx%list_elem_of_In%elem_of_seqZ. apply phys_outside. lia. Qed.

Lemma le_bytes_halves v : 0 ≤ v < 2 ^ 64 →
  to_le_bytes 4 (low32 v) ++ to_le_bytes 4 (high32 v) = to_le_bytes 8 v.
Proof.
  intros Hv. unfold low32, high32. rewrite Z.shiftr_div_pow2 by lia. cbn [to_le_bytes app].
  repeat (apply (f_equal2 cons); [Z.div_mod_to_equations; lia|]). done.
Qed.

Lemma fis_lba lba : 0 ≤ lba < 2 ^ 48 →
  from_le_bytes (sub (read_fis lba) 4 7 ++ sub (read_fis lba) 8 11) = lba.
Proof.
  intros Hl. rewrite <-(from_to_le_bytes 6 lba) at 3 by (change (256 ^ Z.of_nat 6) with (2 ^ 48); done). f_equal.
  unfold sub, read_fis. cbn [drop take app Nat.sub to_le_bytes]. rewrite Z.shiftr_0_r. change 0xff with (Z.ones 8).
  rewrite !Z.land_ones, !Z.shiftr_div_pow2 by lia. rewrite !Z.div_div by lia. done.
Qed.

(** The command that the driver writes is the read that the controller is to
    carry out. *)
Lemma write_command_request c lba m : pages_apart c → 0 ≤ lba < 2 ^ 48 →
  read_request (write_command c lba m) (command_list_paddr c) lba (dma_buffer_paddr c) ∧
  ∀ x, ¬ (command_list_paddr c ≤ x < command_list_paddr c + PAGE_SIZE) →
    ¬ (command_table_paddr c ≤ x < command_table_paddr c + PAGE_SIZE) → write_command c lba m x = m x.
Proof.
  intros [Hr Hap] Hl. unfold PAGE_SIZE in *.
  pose proof (proj1 (Forall_lookup _ _) Hr) as Hr'. pose proof (Hr' 0%nat _ eq_refl) as Hlist.
  pose proof (Hr' 2%nat _ eq_refl) as Htable. pose proof (Hr' 3%nat _ eq_refl) as Hdma.
  cbv beta in Hlist, Htable, Hdma. clear Hr Hr'.
  pose proof (Hap 0%nat 2%nat _ _ eq_refl eq_refl ltac:(done)) as Hlt. clear Hap.
  set (l := command_list_paddr c) in *. set (t := command_table_paddr c) in *. set (b := dma_buffer_paddr c) in *.
  set (header := header_bytes (mkHeader (Z.of_nat (length (read_fis lba)) / 4) 0 1 0 (low32 t) (high32 t))).
  set (entry := table_bytes (mkPrdt (low32 b) (high32 b) (SECTOR_SIZE - 1))).
  change (write_command c lba m) with (write_phys (write_phys (write_phys m l header) t entry) t (read_fis lba)).
  assert (length header = 32%nat) as Hhl by done. assert (length entry = 144%nat) as Hel by done.
  assert (length (read_fis lba) = 20%nat) as Hfl by done.
  assert (∀ k n, (k + n ≤ 32)%nat → map (write_phys (write_phys (write_phys m l header) t entry) t (read_fis lba))
    (seqZ (l + Z.of_nat k) (Z.of_nat n)) = sub header k (k + n)) as Hheader.
  { intros k n Hkn. rewrite !phys_outside_range by lia. apply phys_inside. lia. }
  assert (∀ k n, (20 ≤ k)%nat → (k + n ≤ 144)%nat → map (write_phys (write_phys (write_phys m l header) t entry) t (read_fis lba))
    (seqZ (t + Z.of_nat k) (Z.of_nat n)) = sub entry k (k + n)) as Hentry.
  { intros k n Hk Hkn. rewrite (phys_outside_range _ t (read_fis lba)) by lia. apply phys_inside. lia. }
  assert (∀ k n, (k + n ≤ 20)%nat → map (write_phys (write_phys (write_phys m l header) t entry) t (read_fis lba))
    (seqZ (t + Z.of_nat k) (Z.of_nat n)) = sub (read_fis lba) k (k + n)) as Hfis by (intros; by apply phys_inside).
  assert (∀ x, ¬ (l ≤ x < l + 4096) → ¬ (t ≤ x < t + 4096) →
    write_phys (write_phys (write_phys m l header) t entry) t (read_fis lba) x = m x) as Hout.
  { intros x Hxl Hxt. rewrite !phys_outside by lia. done. }
  set (m' := write_phys _ t (read_fis lba)) in *. clearbody m'. split; [|exact Hout]. clear Hout.
  assert (∀ k, (k < 20)%nat → Some (m' (t + Z.of_nat k)) = read_fis lba !! k) as Hbyte.
  { intros k Hk. pose proof (Hfis k 1%nat ltac:(lia)) as H. destruct (lookup_lt_is_Some_2 (read_fis lba) k) as [v Hv]; [lia|].
    rewrite (sub_snoc _ k k v) in H by done. rewrite sub_nil, seqZ_cons in H by lia. injection H as ->. done. }
  exists t. split_and!.
  - pose proof (Hheader 0%nat 1%nat ltac:(lia)) as H. rewrite Z.add_0_r, seqZ_cons in H by lia. injection H as ->. done.
  - pose proof (Hheader 0%nat 1%nat ltac:(lia)) as H. rewrite Z.add_0_r, seqZ_cons in H by lia. injection H as ->. done.
  - unfold memory_field. assert (map m' (seqZ (l + 2) 2) = sub header 2 4) as -> by exact (Hheader 2%nat 2%nat ltac:(lia)). done.
  - unfold memory_field. assert (map m' (seqZ (l + 8) 8) = sub header 8 16) as -> by exact (Hheader 8%nat 8%nat ltac:(lia)).
    change (sub header 8 16) with (to_le_bytes 4 (low32 t) ++ to_le_bytes 4 (high32 t)).
    rewrite le_bytes_halves by lia. apply from_to_le_bytes. change (256 ^ Z.of_nat 8) with (2 ^ 64). lia.
  - pose proof (Hbyte 0%nat ltac:(lia)) as H. rewrite Z.add_0_r in H. by injection H as ->.
  - pose proof (Hbyte 1%nat ltac:(lia)) as [= H]. assert (m' (t + 1) = Z.shiftl 1 7) as -> by exact H. done.
  - pose proof (Hbyte 2%nat ltac:(lia)) as [= H]. assert (m' (t + 2) = ATA_COMMAND_READ_DMA_EXT) as -> by exact H. done.
  - pose proof (Hbyte 7%nat ltac:(lia)) as [= H]. assert (m' (t + 7) = Z.shiftl 1 6) as -> by exact H. done.
  - rewrite map_app. assert (map m' (seqZ (t + 4) 3) = sub (read_fis lba) 4 7) as -> by exact (Hfis 4%nat 3%nat ltac:(lia)).
    assert (map m' (seqZ (t + 8) 3) = sub (read_fis lba) 8 11) as -> by exact (Hfis 8%nat 3%nat ltac:(lia)). symmetry. by apply fis_lba.
  - unfold memory_field. assert (map m' (seqZ (t + 12) 2) = sub (read_fis lba) 12 14) as -> by exact (Hfis 12%nat 2%nat ltac:(lia)). done.
  - unfold memory_field. assert (map m' (seqZ (t + 0x80) 8) = sub entry 128 136) as -> by exact (Hentry 128%nat 8%nat ltac:(lia) ltac:(lia)).
    change (sub entry 128 136) with (to_le_bytes 4 (low32 b) ++ to_le_bytes 4 (high32 b)).
    rewrite le_bytes_halves by lia. apply from_to_le_bytes. change (256 ^ Z.of_nat 8) with (2 ^ 64). lia.
  - unfold memory_field. assert (map m' (seqZ (t + 0x8c) 4) = sub entry 140 144) as -> by exact (Hentry 140%nat 4%nat ltac:(lia) ltac:(lia)). done.
Qed.

(** ** Polling *)

Lemma first_port c : port_ptr c 0 = port_registers (abar c) 0.
Proof. unfold port_ptr, port_registers. change (offset_of HbaMemory "ports") with 0x100. lia. Qed.

Section Driver.
Context {Dev : Type} (read32 : Z → Dev * Memory → Z * (Dev * Memory)) (write32 : Z → Z → Dev * Memory → Dev * Memory).

(** A result, or one of the errors. *)
Definition settles {A} (errors : list StorageError) (o : dres A) : Prop :=
  match o with
  | Ok _ => True
  | Err e => e ∈ errors
  | Panic | Hang => False
  end.

(** A loop that counts its spins ends, whatever it reads. *)
Lemma spin_returns errors (body : Z * (Dev * Memory) → dres (Z * (Dev * Memory) + Dev * Memory)) w :
  (∀ spins w, match body (spins, w) with
     | Ok (inl (spins', _)) => spins' = spins + 1 ∧ spins' ≤ SPIN_LIMIT
     | Ok (inr _) => True
     | Err e => e ∈ errors
     | Panic | Hang => False
     end) →
  settles errors (while SPINS body (0, w)).
Proof.
  intros Hb. apply (while_rule (λ '(spins, _), 0 ≤ spins ≤ SPIN_LIMIT) (λ '(spins, _), Z.to_nat (SPIN_LIMIT - spins)) (settles errors));
    [|unfold SPIN_LIMIT; lia|unfold SPINS, SPIN_LIMIT; lia].
  intros [spins w1] Hs. specialize (Hb spins w1).
  destruct (body (spins, w1)) as [[[spins' w2]|w2]|e| |]; [|done|done|done|done]. lia.
Qed.

Lemma wait_for_device_ready_returns c w :
  settles [AhciCommandTimeout] (wait_for_device_ready read32 c w).
Proof.
  apply spin_returns. intros spins w1. destruct (read_port_reg _ _ _ _) as [v w2]. destruct (Z.land v _ =? 0); [done|].
  cbv zeta. destruct (Z.ltb_spec SPIN_LIMIT (spins + 1)); [set_solver|lia].
Qed.

Lemma wait_for_command_returns c w :
  settles [AhciCommandTimeout; AhciTaskFileError] (wait_for_command read32 c w).
Proof.
  apply spin_returns. intros spins w1. destruct (read_port_reg _ _ _ _) as [v w2]. destruct (Z.land v _ =? 0); cbn [negb]; [|set_solver].
  destruct (read_port_reg _ _ _ _) as [v' w3]. destruct (Z.land v' 1 =? 0); [done|].
  cbv zeta. destruct (Z.ltb_spec SPIN_LIMIT (spins + 1)); [set_solver|lia].
Qed.

Lemma stop_port_returns c w :
  settles [AhciCommandTimeout] (stop_port read32 write32 c w).
Proof.
  unfold stop_port. destruct (read_port_reg _ _ _ _) as [v0 w0]. apply spin_returns. intros spins w1.
  destruct (read_port_reg _ _ _ _) as [v w2]. destruct (Z.land v _ =? 0); [done|].
  cbv zeta. destruct (Z.ltb_spec SPIN_LIMIT (spins + 1)); [set_solver|lia].
Qed.

Lemma read_sector_returns c lba w :
  settles [AhciCommandTimeout; AhciTaskFileError] (read_sector read32 write32 c lba w).
Proof.
  unfold read_sector. pose proof (wait_for_device_ready_returns c w) as H1.
  destruct (wait_for_device_ready _ _ _) as [w1|e| |]; cbn [mbind outcome_bind settles] in *; try done; [|set_solver].
  destruct (write_port_reg _ _ _ _ _) as [d m]. set (w2 := write_port_reg _ _ _ _ (d, _)).
  pose proof (wait_for_command_returns c w2) as H2. by destruct (wait_for_command _ _ _).
Qed.

(** ** The first port *)

Context (latency : nat) (disk : Z → list Z) (phase : Dev → Phase) (c : AhciController).
Context (Hport : ahci_port read32 write32 (abar c) latency disk phase) (Hindex : port_index c = 0%nat).

Lemma wait_ready_spec d m l f n : phase d = Idle l f n → (n ≤ latency)%nat →
  ∃ d' m', wait_for_device_ready read32 c (d, m) = Ok (d', m') ∧ phase d' = Idle l f 0 ∧ same_but f m m'.
Proof.
  intros Hd Hn. unfold wait_for_device_ready. pose proof (ap_latency _ _ _ _ _ _ Hport) as Hlat.
  apply (while_rule (λ '(spins, (d1, m1)), ∃ k, phase d1 = Idle l f k ∧ 0 ≤ spins ∧ spins + Z.of_nat k ≤ Z.of_nat latency ∧ same_but f m m1)
    (λ '(spins, _), Z.to_nat (SPIN_LIMIT - spins))
    (λ o, ∃ d' m', o = Ok (d', m') ∧ phase d' = Idle l f 0 ∧ same_but f m m')).
  - intros [spins [d1 m1]] (k & Hk & Hs & Hsk & Hm). unfold read_port_reg, read_port_reg_at. rewrite Hindex, first_port.
    change (offset_of HbaPort "task_file_data") with 0x20.
    pose proof (ap_ready _ _ _ _ _ _ Hport d1 m1 l f k Hk) as H.
    change (Z.lor AHCI_PORT_TFD_BSY AHCI_PORT_TFD_DRQ) with (Z.lor (2 ^ 7) (2 ^ 3)).
    destruct k as [|k]; destruct H as (v & d2 & m2 & -> & Hv & Hp & Hm2); rewrite land_bits_eqb by done.
    + destruct Hv as [-> ->]. cbn. exists d2, m2. split_and!; [done|done|]. intros x Hx. by rewrite Hm2, Hm.
    + assert (Z.testbit v 7 || Z.testbit v 3 = true) as -> by (destruct Hv as [-> | ->]; [done|apply orb_true_r]). cbn.
      rewrite (proj2 (Z.ltb_ge _ _)) by lia. split; [|lia]. exists k. split_and!; [done|lia|lia|].
      intros x Hx. by rewrite Hm2, Hm.
  - exists n. split_and!; [done|lia|lia|by intros ? _].
  - unfold SPINS, SPIN_LIMIT. lia.
Qed.

Definition dma_only (f buffer : Z) (m m' : Memory) : Prop :=
  ∀ x, ¬ (buffer ≤ x < buffer + 512) → ¬ (f ≤ x < f + 256) → m' x = m x.

Lemma dma_only_trans f b m1 m2 m3 : dma_only f b m1 m2 → dma_only f b m2 m3 → dma_only f b m1 m3.
Proof. intros H1 H2 x Hb Hf. by rewrite H2, H1. Qed.

Lemma wait_command_spec d m l f lba buffer n : phase d = Running l f lba buffer n → (n ≤ latency)%nat →
  ∃ d' m' k, wait_for_command read32 c (d, m) = Ok (d', m') ∧ phase d' = Idle l f k ∧ (k ≤ latency)%nat ∧
    dma_only f buffer m m' ∧ map m' (seqZ buffer 512) = disk lba.
Proof.
  intros Hd Hn. unfold wait_for_command. pose proof (ap_latency _ _ _ _ _ _ Hport) as Hlat.
  apply (while_rule (λ '(spins, (d1, m1)), ∃ k, phase d1 = Running l f lba buffer k ∧ 0 ≤ spins ∧
      spins + Z.of_nat k ≤ Z.of_nat latency ∧ dma_only f buffer m m1)
    (λ '(spins, _), Z.to_nat (SPIN_LIMIT - spins))
    (λ o, ∃ d' m' k, o = Ok (d', m') ∧ phase d' = Idle l f k ∧ (k ≤ latency)%nat ∧
      dma_only f buffer m m' ∧ map m' (seqZ buffer 512) = disk lba)).
  - intros [spins [d1 m1]] (k & Hk & Hs & Hsk & Hm). unfold read_port_reg, read_port_reg_at. rewrite Hindex, first_port.
    change (offset_of HbaPort "interrupt_status") with 0x10. change (offset_of HbaPort "command_issue") with 0x38.
    destruct (ap_status _ _ _ _ _ _ Hport d1 m1 l f lba buffer k Hk) as (v & d2 & m2 & -> & Hv & Hp & Hm2).
    change AHCI_PORT_IS_TFES with (2 ^ 30). rewrite land_bit_eqb, Hv by done. cbn [negb].
    pose proof (ap_done _ _ _ _ _ _ Hport d2 m2 l f lba buffer k Hp) as H. change 1 with (2 ^ 0).
    destruct k as [|k].
    + destruct H as (k & Hkl & v' & d3 & m3 & -> & Hv' & Hp3 & Hm3 & Hdisk). change 1 with (2 ^ 0).
      rewrite land_bit_eqb, Hv' by done. cbn. exists d3, m3, k. split_and!; try done.
      by eapply dma_only_trans; [|eapply dma_only_trans].
    + destruct H as (v' & d3 & m3 & -> & Hv' & Hp3 & Hm3). change 1 with (2 ^ 0).
      rewrite land_bit_eqb, Hv' by done. cbn [negb]. change (2 ^ 0) with 1.
      rewrite (proj2 (Z.ltb_ge _ _)) by lia. split; [|lia]. exists k. split_and!; [done|lia|lia|].
      by eapply dma_only_trans; [|eapply dma_only_trans].
  - exists n. split_and!; [done|lia|lia|by intros ? _].
  - unfold SPINS, SPIN_LIMIT. lia.
Qed.

(** Memory outside the controller's pages. *)
Definition outside_pages (x : Z) : Prop :=
  ¬ (command_list_paddr c ≤ x < command_list_paddr c + PAGE_SIZE) ∧ ¬ (fis_paddr c ≤ x < fis_paddr c + PAGE_SIZE) ∧
  ¬ (command_table_paddr c ≤ x < command_table_paddr c + PAGE_SIZE) ∧ ¬ (dma_buffer_paddr c ≤ x < dma_buffer_paddr c + PAGE_SIZE).

Lemma read_sector_spec d m n lba : pages_apart c → 0 ≤ lba < 2 ^ 48 →
  phase d = Idle (command_list_paddr c) (fis_paddr c) n → (n ≤ latency)%nat →
  ∃ d' m' k, read_sector read32 write32 c lba (d, m) = Ok (disk lba, (d', m')) ∧
    phase d' = Idle (command_list_paddr c) (fis_paddr c) k ∧ (k ≤ latency)%nat ∧
    ∀ x, outside_pages x → m' x = m x.
Proof.
  intros Hpages Hlba Hd Hn. unfold read_sector.
  destruct (wait_ready_spec d m _ _ n Hd Hn) as (d1 & m1 & -> & H1 & Hm1). cbn [mbind outcome_bind].
  unfold write_port_reg. rewrite Hindex, first_port.
  change (offset_of HbaPort "interrupt_status") with 0x10. change (offset_of HbaPort "command_issue") with 0x38.
  change u32_max with (2 ^ 32 - 1).
  destruct (ap_clear _ _ _ _ _ _ Hport d1 m1 _ _ H1) as (d2 & m2 & -> & H2 & Hm2).
  destruct (write_command_request c lba m2 Hpages Hlba) as [Hreq Hm3].
  destruct (ap_issue _ _ _ _ _ _ Hport d2 _ _ _ _ _ H2 Hreq) as (k & Hk & d4 & m4 & -> & H4 & Hm4).
  destruct (wait_command_spec d4 m4 _ _ _ _ _ H4 Hk) as (d5 & m5 & k5 & -> & H5 & Hk5 & Hm5 & Hdisk).
  cbn [mbind outcome_bind snd]. exists d5, m5, k5. split_and!; [|done|done|].
  - unfold SECTOR_SIZE. by rewrite Hdisk.
  - intros x (Hl & Hf & Ht & Hb). unfold PAGE_SIZE in *.
    rewrite Hm5, Hm4, Hm3, Hm2, Hm1 by lia. done.
Qed.
End Driver.

(** ** Initialisation *)

Lemma low32_bound v : 0 ≤ low32 v < 2 ^ 32.
Proof. apply Z.mod_pos_bound. lia. Qed.
Lemma high32_bound v : 0 ≤ high32 v < 2 ^ 32.
Proof. apply Z.mod_pos_bound. lia. Qed.

Lemma join_halves v x : 0 ≤ v < 2 ^ 64 → high32 v * 2 ^ 32 + (x / 2 ^ 32 * 2 ^ 32 + low32 v) mod 2 ^ 32 = v.
Proof.
  intros Hv. unfold high32, low32. rewrite Z.shiftr_div_pow2 by lia.
  rewrite Z.add_comm with (n := x / 2 ^ 32 * 2 ^ 32), Z.mod_add, Z.mod_mod by lia.
  rewrite (Z.mod_small (v / 2 ^ 32)) by (Z.div_mod_to_equations; lia). Z.div_mod_to_equations. lia.
Qed.

Section Initialise.
Context {Dev : Type} (read32 : Z → Dev * Memory → Z * (Dev * Memory)) (write32 : Z → Z → Dev * Memory → Dev * Memory).
Context (latency : nat) (disk : Z → list Z) (phase : Dev → Phase).

Lemma stop_spec c d m : ahci_port read32 write32 (abar c) latency disk phase → port_index c = 0%nat → phase d = Reset →
  ∃ d' l f, stop_port read32 write32 c (d, m) = Ok (d', m) ∧ phase d' = Stopped l f.
Proof.
  intros Hport Hindex Hd. unfold stop_port, read_port_reg, read_port_reg_at, write_port_reg.
  rewrite Hindex, first_port. change (offset_of HbaPort "command_status") with 0x18.
  destruct (ap_command _ _ _ _ _ _ Hport d m (or_introl Hd)) as (v & d1 & m1 & -> & _ & H1 & <-). rewrite Hd in H1.
  set (v' := Z.ldiff v _).
  assert (Z.testbit v' 0 = false ∧ Z.testbit v' 4 = false) as [Hb0 Hb4]
    by (unfold v'; rewrite !Z.ldiff_spec; split; apply andb_false_r).
  destruct (et_stop _ _ _ _ (ap_together _ _ _ _ _ _ Hport) d1 m v' H1 Hb0 Hb4) as (n & Hn & d2 & m2 & -> & H2 & <-).
  pose proof (ap_latency _ _ _ _ _ _ Hport) as Hlat.
  apply (while_rule (λ '(spins, (d1, m1)), ∃ k, phase d1 = Stopping k ∧ 0 ≤ spins ∧ spins + Z.of_nat k ≤ Z.of_nat latency ∧ m1 = m)
    (λ '(spins, _), Z.to_nat (SPIN_LIMIT - spins))
    (λ o, ∃ d' l f, o = Ok (d', m) ∧ phase d' = Stopped l f)).
  - intros [spins [d3 m3]] (k & Hk & Hs & Hsk & ->). pose proof (ap_stopping _ _ _ _ _ _ Hport d3 m k Hk) as H.
    change (Z.lor AHCI_PORT_CMD_CR AHCI_PORT_CMD_FR) with (Z.lor (2 ^ 14) (2 ^ 15)).
    destruct k as [|k].
    + destruct H as (l & f & w & d4 & m4 & -> & [Hw1 Hw2] & H4 & <-). rewrite land_bits_eqb, Hw1, Hw2 by done. cbn.
      by exists d4, l, f.
    + destruct H as (w & d4 & m4 & -> & Hw & H4 & <-). rewrite land_bits_eqb by done.
      assert (Z.testbit w 14 || Z.testbit w 15 = true) as -> by (destruct Hw as [-> | ->]; [done|apply orb_true_r]). cbn.
      rewrite (proj2 (Z.ltb_ge _ _)) by lia. split; [|lia]. exists k. split_and!; [done|lia|lia|done].
  - exists n. split_and!; [done|lia|lia|done].
  - unfold SPINS, SPIN_LIMIT. lia.
Qed.

Lemma initialize_port_spec c d m : ahci_port read32 write32 (abar c) latency disk phase → port_index c = 0%nat →
  phase d = Reset → 0 ≤ command_list_paddr c < 2 ^ 64 → 0 ≤ fis_paddr c < 2 ^ 64 →
  ∃ d' m' n, initialize_port read32 write32 c (d, m) = Ok (d', m') ∧
    phase d' = Idle (command_list_paddr c) (fis_paddr c) n ∧ (n ≤ latency)%nat ∧ same_but (fis_paddr c) m m'.
Proof.
  intros Hport Hindex Hd Hl Hf. unfold initialize_port.
  destruct (stop_spec c d m Hport Hindex Hd) as (d1 & l & f & -> & H1). cbn [mbind outcome_bind].
  unfold start_port, read_port_reg, read_port_reg_at, write_port_reg. rewrite Hindex, first_port.
  change (offset_of HbaPort "command_list_base") with 0. change (offset_of HbaPort "command_list_base_upper") with 0x04.
  change (offset_of HbaPort "fis_base") with 0x08. change (offset_of HbaPort "fis_base_upper") with 0x0c.
  change (offset_of HbaPort "interrupt_enable") with 0x14. change (offset_of HbaPort "serial_ata_error") with 0x30.
  change (offset_of HbaPort "interrupt_status") with 0x10. change (offset_of HbaPort "command_status") with 0x18.
  change u32_max with (2 ^ 32 - 1). rewrite Z.add_0_r.
  destruct (ap_list _ _ _ _ _ _ Hport d1 m l f _ H1 (low32_bound (command_list_paddr c))) as [(d2 & m2 & -> & H2 & <-) _].
  destruct (ap_list _ _ _ _ _ _ Hport d2 m _ _ _ H2 (high32_bound (command_list_paddr c))) as [_ (d3 & m3 & -> & H3 & <-)].
  rewrite join_halves in H3 by done.
  destruct (ap_fis _ _ _ _ _ _ Hport d3 m _ _ _ H3 (low32_bound (fis_paddr c))) as [(d4 & m4 & -> & H4 & <-) _].
  destruct (ap_fis _ _ _ _ _ _ Hport d4 m _ _ _ H4 (high32_bound (fis_paddr c))) as [_ (d5 & m5 & -> & H5 & <-)].
  rewrite join_halves in H5 by done.
  destruct (ap_setup _ _ _ _ _ _ Hport d5 m _ _ H5) as [(d6 & m6 & -> & H6 & <-) _].
  destruct (ap_setup _ _ _ _ _ _ Hport d6 m _ _ H6) as [_ [(d7 & m7 & -> & H7 & <-) _]].
  destruct (ap_setup _ _ _ _ _ _ Hport d7 m _ _ H7) as [_ [_ (d8 & m8 & -> & H8 & <-)]].
  destruct (ap_command _ _ _ _ _ _ Hport d8 m ltac:(right; eauto)) as (v & d9 & m9 & -> & _ & H9 & <-). rewrite H8 in H9.
  destruct (et_start _ _ _ _ (ap_together _ _ _ _ _ _ Hport) d9 m _ _ (Z.lor (Z.lor v AHCI_PORT_CMD_FRE) AHCI_PORT_CMD_ST) H9)
    as (n & Hn & d10 & m10 & -> & H10 & Hm10);
    [rewrite !Z.lor_spec; apply orb_true_r|rewrite !Z.lor_spec; change (Z.testbit AHCI_PORT_CMD_FRE 4) with true; by rewrite orb_true_r|].
  by exists d10, m10, n.
Qed.

Lemma find_port_spec c d m v : ahci_port read32 write32 (abar c) latency disk phase → port_index c = 0%nat →
  phase d = Reset → 0 ≤ command_list_paddr c < 2 ^ 64 → 0 ≤ fis_paddr c < 2 ^ 64 → Z.testbit v 0 = true →
  ∃ d' m' n, find_port read32 write32 c v (d, m) = Ok (c, (d', m')) ∧
    phase d' = Idle (command_list_paddr c) (fis_paddr c) n ∧ (n ≤ latency)%nat ∧ same_but (fis_paddr c) m m'.
Proof.
  intros Hport Hindex Hd Hl Hf Hv. unfold find_port.
  destruct (ap_detect _ _ _ _ _ _ Hport d m Hd) as [(v1 & d1 & m1 & Hr1 & [Hv1 Hv1'] & H1 & <-) _].
  destruct (ap_detect _ _ _ _ _ _ Hport d1 m H1) as [_ (v2 & d2 & m2 & Hr2 & -> & H2 & <-)].
  destruct (initialize_port_spec c d2 m Hport Hindex H2 Hl Hf) as (d3 & m3 & n & Hi & H3 & Hn & Hm3).
  exists d3, m3, n. split_and!; try done. apply while_exit. rewrite decide_True by lia. change (Z.of_nat 0) with 0. rewrite Hv.
  unfold port_is_sata_disk, read_port_reg_at. rewrite first_port.
  change (offset_of HbaPort "serial_ata_status") with 0x28. change (offset_of HbaPort "signature") with 0x24.
  rewrite Hr1, Hr2, Hv1, Hv1'. cbn [Z.eqb Pos.eqb andb SATA_STATUS_DEVICE_PRESENT SATA_STATUS_INTERFACE_ACTIVE SATA_SIGNATURE_ATA].
  assert (mkController (abar c) 0 (command_list_paddr c) (fis_paddr c) (command_table_paddr c) (dma_buffer_paddr c) = c) as ->
    by (destruct c; cbn in *; by rewrite Hindex).
  by rewrite Hi.
Qed.

End Initialise.

(** ** The pages *)

Lemma allocate_kernel_page_spec st : paged (2 ^ 52) (allocator (store st)) →
  match allocate_kernel_page st with
  | Ok (c, st') => without c (store st) (store st') ∧ st' = with_store (store st') st
  | Err e => e = AllocatorExhausted
  | Panic | Hang => False
  end.
Proof.
  intros Hp. unfold allocate_kernel_page. pose proof (take_page_spec (store st) Hp) as H.
  destruct (take_page (store st)) as [[c s]|[e s]| |]; cbn; try done; [split; [apply H|done]|by destruct H].
Qed.

Lemma without_apart c s s' c' : without c s s' → (∀ x, in_page c' x → free_in s' x) → is_frame c' →
  c + PAGE_SIZE ≤ c' ∨ c' + PAGE_SIZE ≤ c.
Proof.
  intros Hw Hc' [_ Hm']. destruct (wo_frame _ _ _ Hw) as [_ Hm]. destruct (decide (c = c')) as [->|Hne].
  - assert (free_in s' c') as Hf by (apply Hc'; unfold in_page, PAGE_SIZE; lia).
    apply (wo_free _ _ _ Hw) in Hf as [_ Hf]. exfalso. apply Hf. unfold in_page, PAGE_SIZE. lia.
  - unfold PAGE_SIZE. Z.div_mod_to_equations. lia.
Qed.

(** [s'] is [s] less the pages [ps], which lie apart. *)
Inductive without_all : list Z → Store → Store → Prop :=
| wa_nil s : without_all [] s s
| wa_cons c ps s s1 s2 : without c s s1 → without_all ps s1 s2 → without_all (c :: ps) s s2.

Lemma without_all_free ps s s' : without_all ps s s' →
  (∀ x, free_in s' x → free_in s x) ∧ (∀ c x, c ∈ ps → in_page c x → free_in s x ∧ ¬ free_in s' x) ∧
  (∀ x, ¬ free_in s x → memory s' x = memory s x) ∧ Forall is_frame ps ∧
  (paged (2 ^ 52) (allocator s) → paged (2 ^ 52) (allocator s')).
Proof.
  induction 1 as [s|c ps s s1 s2 Hw Ha (IHf & IHp & IHm & IHfr & IHpg)].
  { split_and!; try done. intros c x Hc. by apply not_elem_of_nil in Hc. }
  pose proof (wo_free _ _ _ Hw) as Hwf. split_and!.
  - intros x Hx%IHf. by apply Hwf in Hx as [? _].
  - intros c' x [->|Hc']%elem_of_cons Hx.
    + split; [by apply (wo_was _ _ _ Hw)|]. intros Hf%IHf%Hwf. by destruct Hf.
    + destruct (IHp c' x Hc' Hx) as [Hf Hn]. split; [|done]. by apply Hwf in Hf as [? _].
  - intros x Hx. rewrite IHm by (intros [? _]%Hwf; done). rewrite (wo_memory _ _ _ Hw). unfold write_zeros.
    rewrite decide_False; [done|]. intros Hin. apply Hx. by apply (wo_was _ _ _ Hw).
  - constructor; [apply Hw|done].
  - intros _. by apply IHpg, Hw.
Qed.

Lemma without_all_owned ps s s' : without_all ps s s' → owned s = None → owned s' = None.
Proof.
  induction 1 as [s|c ps s s1 s2 Hw Ha IH]; [done|]. intros Ho. apply IH. pose proof (wo_tracks _ _ _ Hw) as Ht.
  unfold tracks in Ht. rewrite Ho in Ht. by destruct (owned s1).
Qed.

Lemma without_all_apart ps s s' i j p q : without_all ps s s' → ps !! i = Some p → ps !! j = Some q → i ≠ j →
  p + PAGE_SIZE ≤ q ∨ q + PAGE_SIZE ≤ p.
Proof.
  intros Ha. revert i j p q. induction Ha as [s|c ps s s1 s2 Hw Ha IH]; intros i j p q Hp Hq Hij; [done|].
  pose proof (without_all_free _ _ _ Ha) as (_ & Hfree & _ & Hfr & _). rewrite Forall_forall in Hfr.
  assert (∀ r, r ∈ ps → c + PAGE_SIZE ≤ r ∨ r + PAGE_SIZE ≤ c) as Hc.
  { intros r Hr. apply (without_apart c s s1); [done| |by apply Hfr]. intros x Hx. by apply (Hfree r x Hr). }
  destruct i as [|i], j as [|j]; cbn in Hp, Hq; [done| | |by apply (IH i j); auto].
  - injection Hp as ->. apply Hc. by eapply list_elem_of_lookup_2.
  - injection Hq as ->. destruct (Hc p); [by eapply list_elem_of_lookup_2|by right|by left].
Qed.

(** The pages of a controller. *)
Definition controller_pages (c : AhciController) : list Z :=
  [command_list_paddr c; fis_paddr c; command_table_paddr c; dma_buffer_paddr c].

(** ** Reading sectors one after the other *)

Section Reads.
Context {Dev : Type} (read32 : Z → Dev * Memory → Z * (Dev * Memory)) (write32 : Z → Z → Dev * Memory → Dev * Memory).

Fixpoint read_all (c : AhciController) (lbas : list Z) (w : Dev * Memory) : dres (list (list Z) * (Dev * Memory)) :=
  match lbas with
  | [] => Ok ([], w)
  | lba :: lbas =>
      '(sector, w) ← read_sector read32 write32 c lba w;
      '(sectors, w) ← read_all c lbas w;
      Ok (sector :: sectors, w)
  end.

Context (latency : nat) (disk : Z → list Z) (phase : Dev → Phase).

(** The controller is ready, with pages that [st] had free. *)
Record ready (st : MemoryState) (c : AhciController) (d : Dev) (m : Memory) : Prop := {
  rd_port : ahci_port read32 write32 (abar c) latency disk phase;
  rd_index : port_index c = 0%nat;
  rd_apart : pages_apart c;
  rd_free : ∀ page x, page ∈ controller_pages c → in_page page x → free_in (store st) x;
  rd_phase : ∃ n, phase d = Idle (command_list_paddr c) (fis_paddr c) n ∧ (n ≤ latency)%nat;
  rd_memory : ∀ x, ¬ free_in (store st) x → m x = memory (store st) x
}.

Lemma ready_read st c d m lba : ready st c d m → 0 ≤ lba < 2 ^ 48 →
  ∃ d' m', read_sector read32 write32 c lba (d, m) = Ok (disk lba, (d', m')) ∧ ready st c d' m'.
Proof.
  intros [Hport Hi Ha Hf (n & Hd & Hn) Hm] Hl.
  destruct (read_sector_spec read32 write32 latency disk phase c Hport Hi d m n lba Ha Hl Hd Hn) as (d' & m' & k & Hr & Hd' & Hk & Hm').
  exists d', m'. split; [done|]. split; try done; [by exists k|].
  intros x Hx. rewrite Hm'; [by apply Hm|]. unfold controller_pages in Hf.
  split_and!; intros Hin; apply Hx; [apply (Hf (command_list_paddr c))|apply (Hf (fis_paddr c))
    |apply (Hf (command_table_paddr c))|apply (Hf (dma_buffer_paddr c))]; try done; set_solver.
Qed.

Lemma ready_read_all st c d m lbas : ready st c d m → Forall (λ lba, 0 ≤ lba < 2 ^ 48) lbas →
  ∃ d' m', read_all c lbas (d, m) = Ok (map disk lbas, (d', m')) ∧ ready st c d' m'.
Proof.
  revert d m. induction lbas as [|lba lbas IH]; intros d m Hrd Hl; [by exists d, m|].
  apply Forall_cons in Hl as [Hlba Hl]. cbn [read_all map].
  destruct (ready_read st c d m lba Hrd Hlba) as (d1 & m1 & -> & H1). cbn [mbind outcome_bind].
  destruct (IH d1 m1 H1 Hl) as (d2 & m2 & -> & H2). cbn [mbind outcome_bind]. by exists d2, m2.
Qed.

(** The four pages come first. *)
Lemma initialize_cases base d st : paged (2 ^ 52) (allocator (store st)) →
  initialize read32 write32 base d st = Err (Errors.Memory AllocatorExhausted) ∨
  ∃ l f t b st', let c := mkController base 0 l f t b in
    without_all (controller_pages c) (store st) (store st') ∧
    st' = with_store (store st') st ∧
    initialize read32 write32 base d st =
      let w := enable_ahci_mode read32 write32 c (d, memory (store st')) in
      let '(ports_implemented, w) := read_hba_reg read32 c "ports_implemented" w in
      '(c, w) ← find_port read32 write32 c ports_implemented w;
      Ok (c, fst w, with_store (with_memory (snd w) (store st')) st').
Proof.
  intros Hp. unfold initialize.
  pose proof (allocate_kernel_page_spec st Hp) as H1.
  destruct (allocate_kernel_page st) as [[l st1]|e| |] eqn:E1; cbn [map_err mbind outcome_bind]; try done; [|left; by subst].
  destruct H1 as [H1 Hs1].
  pose proof (allocate_kernel_page_spec st1 (wo_paged _ _ _ H1)) as H2.
  destruct (allocate_kernel_page st1) as [[f st2]|e| |]; cbn [map_err mbind outcome_bind]; try done; [|left; by subst].
  destruct H2 as [H2 Hs2].
  pose proof (allocate_kernel_page_spec st2 (wo_paged _ _ _ H2)) as H3.
  destruct (allocate_kernel_page st2) as [[t st3]|e| |]; cbn [map_err mbind outcome_bind]; try done; [|left; by subst].
  destruct H3 as [H3 Hs3].
  pose proof (allocate_kernel_page_spec st3 (wo_paged _ _ _ H3)) as H4.
  destruct (allocate_kernel_page st3) as [[b st4]|e| |]; cbn [map_err mbind outcome_bind]; try done; [|left; by subst].
  destruct H4 as [H4 Hs4].
  right. exists l, f, t, b, st4. split_and!; [by repeat (econstructor; [done|]); constructor| |done].
  rewrite Hs4 at 1. rewrite Hs3 at 1. rewrite Hs2 at 1. by rewrite Hs1 at 1.
Qed.

Lemma initialize_spec base d st : paged (2 ^ 52) (allocator (store st)) →
  ahci_port read32 write32 base latency disk phase → phase d = Reset →
  match initialize read32 write32 base d st with
  | Ok (c, d', st') =>
      ready st c d' (memory (store st')) ∧ paged (2 ^ 52) (allocator (store st')) ∧ abar c = base ∧
      st' = with_store (store st') st ∧ (∀ x, free_in (store st') x → free_in (store st) x) ∧
      (owned (store st) = None → owned (store st') = None) ∧
      ∀ page x, page ∈ controller_pages c → in_page page x → ¬ free_in (store st') x
  | Err e => e = Errors.Memory AllocatorExhausted
  | Panic | Hang => False
  end.
Proof.
  intros Hp Hport Hd. destruct (initialize_cases base d st Hp) as [->|(l & f & t & b & st4 & H)]; [done|].
  cbv zeta in H. set (c := mkController base 0 l f t b) in *. destruct H as (Hall & Hst & ->).
  destruct (without_all_free _ _ _ Hall) as (Hfsub & Hfree & Hmem & Hfr & Hpg).
  assert (Forall (λ p, 0 ≤ p < 2 ^ 52 ∧ p mod 4096 = 0) (controller_pages c)) as Hfr' by done.
  pose proof (proj1 (Forall_lookup _ _) Hfr') as Hrange.
  pose proof (Hrange 0%nat l eq_refl) as Hl. pose proof (Hrange 1%nat f eq_refl) as Hf. cbv beta in Hl, Hf.
  unfold enable_ahci_mode, read_hba_reg, write_hba_reg. change (abar c) with base.
  change (offset_of HbaMemory "global_host_control") with 0x04. change (offset_of HbaMemory "ports_implemented") with 0x0c.
  destruct (ap_control _ _ _ _ _ _ Hport d (memory (store st4)) Hd) as [(v1 & d1 & m1 & -> & _ & Hd1 & <-) _].
  destruct (ap_control _ _ _ _ _ _ Hport d1 (memory (store st4)) Hd1) as [_ Hw].
  destruct (Hw (Z.lor v1 AHCI_GHC_AE)) as (d2 & m2 & -> & Hd2 & <-); [rewrite Z.lor_spec; apply orb_true_r|].
  destruct (ap_ports _ _ _ _ _ _ Hport d2 (memory (store st4)) Hd2) as (v3 & d3 & m3 & -> & Hv3 & Hd3 & <-).
  destruct (find_port_spec read32 write32 latency disk phase c d3 (memory (store st4)) v3) as (d4 & m4 & n & -> & Hd4 & Hn & Hm4);
    try done; [cbn; lia..|].
  cbn [mbind outcome_bind fst snd store with_store with_memory allocator memory]. split; [|split_and!; [exact (Hpg Hp)|done|by rewrite Hst|exact Hfsub|exact (without_all_owned _ _ _ Hall)|]].
  - split; try done.
    + split.
      * change (Forall (λ p, 0 ≤ p ∧ p + PAGE_SIZE ≤ 2 ^ 52) (controller_pages c)). eapply Forall_impl; [exact Hfr'|].
        cbv beta. unfold PAGE_SIZE. intros p ?. Z.div_mod_to_equations. lia.
      * intros i j p q Hi Hj Hij. exact (without_all_apart _ _ _ i j p q Hall Hi Hj Hij).
    + intros page x Hpage Hx. by apply (Hfree page x).
    + by exists n.
    + intros x Hx. cbn. rewrite Hm4; [by apply Hmem|]. intros Hin. apply Hx.
      apply (Hfree f x); [cbn; set_solver|]. unfold in_page, PAGE_SIZE. cbn in Hin. lia.
  - intros page x Hpage Hx. by apply (Hfree page x).
Qed.

End Reads.

(** Whatever the device answers, looking for a port ends. *)
Definition port_found {Dev} (c : AhciController) (o : dres (AhciController * (Dev * Memory))) : Prop :=
  match o with
  | Ok (c', _) => controller_pages c' = controller_pages c ∧ abar c' = abar c ∧ (port_index c' < 32)%nat
  | Err e => e ∈ [AhciPortNotFound; AhciCommandTimeout]
  | Panic | Hang => False
  end.

Lemma find_port_returns {Dev} read32 write32 c v (w : Dev * Memory) : port_found c (find_port read32 write32 c v w).
Proof.
  unfold find_port. apply (while_rule (λ '(i, _), (i ≤ 32)%nat) (λ '(i, _), 32 - i)%nat (port_found c)); [|lia|lia].
  intros [i w1] Hi. case_decide as Hlt; [|cbn; set_solver].
  destruct (if Z.testbit v (Z.of_nat i) then _ else _) as [[|] w2]; [|lia].
  set (c1 := mkController _ i _ _ _ _). unfold initialize_port.
  pose proof (stop_port_returns read32 write32 c1 w2) as Hs.
  destruct (stop_port _ _ c1 w2) as [w3|e| |]; cbn [mbind outcome_bind settles port_found] in *; try done. set_solver.
Qed.

(** A sector that is read has 512 bytes. *)
Lemma read_sector_length {Dev} read32 write32 c lba (w w' : Dev * Memory) sector :
  read_sector read32 write32 c lba w = Ok (sector, w') → length sector = 512%nat.
Proof.
  unfold read_sector. destruct (wait_for_device_ready _ _ _) as [w1| | |]; cbn [mbind outcome_bind]; try done.
  destruct (write_port_reg _ _ _ _ _) as [d m]. destruct (wait_for_command _ _ _) as [w2| | |]; cbn [mbind outcome_bind]; try done.
  by intros [= <- _].
Qed.

(** ** A device that behaves

    One port with a disk; [extra] is the rest of the device's state.  On the
    sample disk the sectors hold their own number. *)

Definition sample_base : Z := 0xfebf1000.
Definition sample_disk (lba : Z) : list Z := replicate 512 (lba mod 256).

Definition sample_read {Extra} (content : Z → list Z) (address : Z) (w : (Extra * Phase) * Memory) : Z * ((Extra * Phase) * Memory) :=
  let '((extra, d), m) := w in
  match d with
  | Reset =>
      if address =? sample_base + 0x0c then (1, w)
      else if address =? sample_base + 0x128 then (0x113, w)
      else if address =? sample_base + 0x124 then (0x101, w)
      else (0, w)
  | Stopping (S n) => if address =? sample_base + 0x118 then (0xc000, ((extra, Stopping n), m)) else (0, w)
  | Stopping O => if address =? sample_base + 0x118 then (0, ((extra, Stopped 0 0), m)) else (0, w)
  | Idle l f (S n) => if address =? sample_base + 0x120 then (0x80, ((extra, Idle l f n), m)) else (0, w)
  | Running l f lba buffer n =>
      if address =? sample_base + 0x138 then
        match n with
        | O => (0, ((extra, Idle l f 1), write_phys m buffer (content lba)))
        | S n => (1, ((extra, Running l f lba buffer n), m))
        end
      else (0, w)
  | _ => (0, w)
  end.

Definition sample_request (m : Memory) (l : Z) : Z * Z :=
  let table := memory_field m (l + 8) 8 in
  (from_le_bytes (map m (seqZ (table + 4) 3 ++ seqZ (table + 8) 3)), memory_field m (table + 0x80) 8).

Definition sample_write {Extra} (address value : Z) (w : (Extra * Phase) * Memory) : (Extra * Phase) * Memory :=
  let '((extra, d), m) := w in
  match d with
  | Reset => if address =? sample_base + 0x118 then ((extra, Stopping 2), m) else w
  | Stopped l f =>
      if address =? sample_base + 0x100 then ((extra, Stopped (l / 2 ^ 32 * 2 ^ 32 + value) f), m)
      else if address =? sample_base + 0x104 then ((extra, Stopped (value * 2 ^ 32 + l mod 2 ^ 32) f), m)
      else if address =? sample_base + 0x108 then ((extra, Stopped l (f / 2 ^ 32 * 2 ^ 32 + value)), m)
      else if address =? sample_base + 0x10c then ((extra, Stopped l (value * 2 ^ 32 + f mod 2 ^ 32)), m)
      else if address =? sample_base + 0x118 then ((extra, Idle l f 3), m)
      else w
  | Idle l f O =>
      if address =? sample_base + 0x138 then
        let '(lba, buffer) := sample_request m l in ((extra, Running l f lba buffer 2), m)
      else w
  | _ => w
  end.

Lemma sample_port {Extra} content : (∀ lba, length (content lba) = 512%nat) →
  ahci_port (Dev:=Extra * Phase) (sample_read content) sample_write sample_base 5 content snd.
Proof.
  intros Hlen.
  assert (engines_together (Dev:=Extra * Phase) sample_write sample_base 5 snd) as Htogether.
  { split; unfold writes; intros [q d] m; cbn [snd]; intros * -> _ _; [exists 2%nat|exists 3%nat]; (split; [lia|]); by eexists (q, _), m. }
  split; unfold reads, writes; [done|..|exact Htogether| | | | | | | | |]; intros [q d] m; cbn [snd]; intros *.
  - intros ->. split; [by exists 0, (q, Reset), m|]. intros v _. by exists (q, Reset), m.
  - intros ->. by exists 1, (q, Reset), m.
  - intros ->. split; [by exists 0x113, (q, Reset), m|by exists 0x101, (q, Reset), m].
  - intros [->|(l & f & ->)]; by eexists 0, (q, _), m.
  - destruct n as [|n]; intros ->; [exists 0, 0; by eexists 0, (q, _), m|]. eexists 0xc000, (q, _), m. split_and!; try done. by left.
  - intros -> _. split; by eexists (q, _), m.
  - intros -> _. split; by eexists (q, _), m.
  - intros ->. split_and!; by eexists (q, _), m.
  - destruct n as [|n]; intros ->; [by eexists 0, (q, _), m|]. eexists 0x80, (q, _), m. split_and!; try done. by left.
  - intros ->. by eexists (q, _), m.
  - intros -> (table & _ & _ & <- & _ & -> & _ & <- & _). exists 2%nat. split; [lia|]. by eexists (q, _), m.
  - intros ->. by eexists 0, (q, _), m.
  - destruct n as [|n]; intros ->; [|by eexists 1, (q, _), m]. exists 1%nat. split; [lia|].
    eexists 0, (q, _), (write_phys m buffer (content lba)). split_and!; try done.
    + intros x Hx _. apply phys_outside. rewrite Hlen. lia.
    + pose proof (phys_inside m buffer (content lba) 0 512) as H. rewrite Z.add_0_r in H.
      change 512 with (Z.of_nat 512). rewrite H by (rewrite Hlen; lia). unfold sub. by rewrite drop_0, firstn_all2 by (rewrite Hlen; lia).
Qed.

(** * Properties *)

(** C33. The disk driver always returns.  Whatever the registers of the device
    answer, starting the controller ends with a controller on one of the 32
    ports, or with an error: no page is free, no port has a disk, or the port
    does not come to rest.  Reading a sector ends with its 512 bytes or with
    one of its two errors.  No loop on a register runs for ever and nothing
    panics. *)
Theorem driver_returns {Dev} read32 write32 base (d : Dev) st lba :
  paged (2 ^ 52) (allocator (store st)) →
  match initialize read32 write32 base d st with
  | Ok (c, d', st') =>
      (port_index c < 32)%nat ∧
      ∀ w, match read_sector read32 write32 c lba w with
           | Ok (sector, _) => length sector = 512%nat
           | Err e => e = AhciCommandTimeout ∨ e = AhciTaskFileError
           | Panic | Hang => False
           end
  | Err e => e = Errors.Memory AllocatorExhausted ∨ e = AhciPortNotFound ∨ e = AhciCommandTimeout
  | Panic | Hang => False
  end.
Proof.
  intros Hp. destruct (initialize_cases read32 write32 base d st Hp) as [->|(l & f & t & b & st4 & H)]; [by left|].
  cbv zeta in H. destruct H as (_ & _ & ->). destruct (read_hba_reg _ _ _ _) as [v w].
  pose proof (find_port_returns read32 write32 (mkController base 0 l f t b) v w) as Hf.
  destruct (find_port _ _ _ _ _) as [[c w']|e| |]; cbn [mbind outcome_bind port_found] in *; try done; [|set_solver].
  split; [by apply Hf|]. intros w2. pose proof (read_sector_returns read32 write32 c lba w2) as Hr.
  destruct (read_sector _ _ _ _ _) as [[sector w3]|e| |] eqn:E; cbn [settles] in *; try done; [|set_solver].
  by eapply read_sector_length.
Qed.

Definition sample_state : MemoryState := with_store sample_store (MemoryState_new (λ _, 1)).

Lemma driver_returns_witness :
  ∃ c d' st', initialize (sample_read sample_disk) sample_write sample_base (tt, Reset) sample_state = Ok (c, d', st') ∧ (port_index c < 32)%nat.
Proof.
  pose proof (driver_returns (sample_read sample_disk) sample_write sample_base (tt, Reset) sample_state 7 sample_paged) as H.
  assert (is_Ok (initialize (sample_read sample_disk) sample_write sample_base (tt, Reset) sample_state) = true) as Hok by (vm_compute; reflexivity).
  destruct (initialize (sample_read sample_disk) sample_write sample_base (tt, Reset) sample_state) as [[[c d'] st']|e| |]; try discriminate Hok.
  exists c, d', st'. split; [reflexivity|]. exact (proj1 H).
Defined.

(** ** Where the driver and the standard differ *)

(** Only the first port has its registers where the standard puts them: a
    [HbaPort] is 0x10 bytes short of the distance between two ports. *)
Lemma later_ports_misaddressed c index :
  port_ptr c index = port_registers (abar c) (Z.of_nat index) - 0x10 * Z.of_nat index.
Proof.
  unfold port_ptr, port_registers. change (offset_of HbaMemory "ports") with 0x100. change (size_of HbaPort) with 0x70. lia.
Qed.

(** The command has room for 48 bits of a sector's number. *)
Lemma high_lba_truncated lba : 0 ≤ lba → read_fis (lba + 2 ^ 48) = read_fis lba.
Proof.
  intros Hl. unfold read_fis. change 0xff with (Z.ones 8).
  assert (∀ n, 0 ≤ n ≤ 40 → Z.land (Z.shiftr (lba + 2 ^ 48) n) (Z.ones 8) = Z.land (Z.shiftr lba n) (Z.ones 8)) as H.
  { intros n Hn. rewrite !Z.land_ones, !Z.shiftr_div_pow2 by lia.
    replace (2 ^ 48) with (2 ^ (40 - n) * 2 ^ 8 * 2 ^ n) by (rewrite <-!Z.pow_add_r by lia; f_equal; lia).
    rewrite Z.div_add by (apply Z.pow_nonzero; lia). by rewrite Z.mod_add. }
  by rewrite !H by lia.
Qed.
