(* ===== verification/Loader.v ===== *)
(** * Program startup ([kernel/kernel/src/memory/loader.rs], [libs/liblazer/src/runtime.rs])

    How the kernel lays out a program's arguments on its new stack, writing
    through the map of the pages it has just given it, and how the program's
    runtime finds them again. *)

From S2P Require Import Prelude Bytes Errors Allocator.

Local Open Scope Z_scope.

Definition MAX_STARTUP_ARGS : nat := 32.
#[global] Arguments MAX_STARTUP_ARGS : simpl never.

Definition checked_sub (a b : Z) : option Z := if decide (b ≤ a) then Some (a - b) else None.

Definition USER_STACK_BASE : Z := USER_STACK_TOP - Z.of_nat USER_STACK_PAGES * PAGE_SIZE.

(** ** The pages of the new program ([UserPageMap]) *)

Record UserPage := mkUserPage { virt_page : Z; phys_page : Z }.
Definition UserPageMap : Type := list (option UserPage).

Definition UserPageMap_new : UserPageMap := replicate MAX_SEGMENT_PAGES None.

(** [find]: the first slot that holds the page. *)
Fixpoint find (pages : UserPageMap) (virt : Z) : option UserPage :=
  match pages with
  | [] => None
  | Some page :: pages => if virt_page page =? virt then Some page else find pages virt
  | None :: pages => find pages virt
  end.

Definition map_contains (pages : UserPageMap) (virt : Z) : bool :=
  match find pages virt with Some _ => true | None => false end.

(** [insert]: the first empty slot. *)
Fixpoint insert_page (pages : UserPageMap) (page : UserPage) : res UserPageMap :=
  match pages with
  | [] => Err SegmentOverlapCapacityExceeded
  | None :: pages => Ok (Some page :: pages)
  | Some p :: pages => pages ← insert_page pages page; Ok (Some p :: pages)
  end.

Definition copy_into (pages : UserPageMap) (mem : Memory) (start_address : Z) (bytes : list Z)
    : res Memory :=
  while (S (length bytes)) (λ '(remaining, address, mem),
    if decide (remaining = []) then Ok (inr mem)
    else
      let virt := align_down address PAGE_SIZE in
      page ← ok_or (find pages virt) UserImageOutOfRange;
      let offset := address - virt in
      let len := Z.to_nat (Z.min (Z.of_nat (length remaining)) (PAGE_SIZE - offset)) in
      let mem := write_phys mem (phys_page page + offset) (take len remaining) in
      remaining ← slice remaining len (length remaining);
      Ok (inl (remaining, address + Z.of_nat len, mem))) (bytes, start_address, mem).
#[global] Arguments copy_into : simpl never.

(** ** The startup block *)

Record ProgramStartup := mkStartup { argv0 : list Z; argv_tail : list Z }.

Record StartupLayout := mkLayout {
  args : list (list Z);
  argc : nat;
  strings_start : Z;
  stack_start : Z
}.

(** [iter().position(|byte| *byte == 0)] *)
Fixpoint position_nul (l : list Z) : option nat :=
  match l with
  | [] => None
  | b :: l => if b =? 0 then Some 0%nat else S <$> position_nul l
  end.

Definition invalid_argument (arg : list Z) : bool := negb (utf8_valid arg) || contains 0 arg.

(** The loop that cuts [argv_tail] at its zero bytes. *)
Definition split_tail (tail : list Z) (args : list (list Z)) : res (list (list Z) * nat) :=
  while (S (length tail)) (λ '(cursor, args, argc),
    if decide (cursor < length tail)%nat then
      rest ← slice tail cursor (length tail);
      match position_nul rest with
      | None => Err InvalidStartupArguments
      | Some relative_end =>
          let end_ := (cursor + relative_end)%nat in
          arg ← slice tail cursor end_;
          if bool_decide (arg = []) || invalid_argument arg then Err InvalidStartupArguments
          else if decide (length args ≤ argc)%nat then Err StartupArgumentsTooLarge
          else
            args ← set_at args argc arg;
            Ok (inl ((end_ + 1)%nat, args, (argc + 1)%nat))
      end
    else Ok (inr (args, argc))) (0%nat, args, 1%nat).
#[global] Arguments split_tail : simpl never.

(** The loop that adds up the sizes of the strings. *)
Definition strings_size (args : list (list Z)) (argc : nat) : res nat :=
  while (S argc) (λ '(index, size),
    if decide (index < argc)%nat then
      arg ← get_at args index; Ok (inl (S index, (size + (length arg + 1))%nat))
    else Ok (inr size)) (0%nat, 0%nat).
#[global] Arguments strings_size : simpl never.

Definition prepare_startup_layout (startup : ProgramStartup) : res StartupLayout :=
  if invalid_argument (argv0 startup) then Err InvalidStartupArguments
  else
    '(args, argc) ← split_tail (argv_tail startup) (argv0 startup :: replicate (MAX_STARTUP_ARGS - 1) []);
    size ← strings_size args argc;
    let pointers_len := Z.of_nat (argc + 1) * 8 in
    strings_start ← ok_or (checked_sub USER_STACK_TOP (Z.of_nat size)) StartupArgumentsTooLarge;
    pointers_end ← ok_or (checked_sub strings_start pointers_len) StartupArgumentsTooLarge;
    let pointers_start := align_down pointers_end 8 in
    stack_end ← ok_or (checked_sub pointers_start 8) StartupArgumentsTooLarge;
    let stack_start := align_down stack_end 16 in
    if decide (stack_start < USER_STACK_BASE) then Err StartupArgumentsTooLarge
    else Ok (mkLayout args argc strings_start stack_start).

(** The loop that copies the strings and notes where they are. *)
Definition write_strings (pages : UserPageMap) (mem : Memory) (layout : StartupLayout)
    : res (list Z * Memory) :=
  while (S (argc layout)) (λ '(arg_index, pointers, cursor, mem),
    if decide (arg_index < argc layout)%nat then
      pointers ← set_at pointers arg_index cursor;
      arg ← get_at (args layout) arg_index;
      mem ← copy_into pages mem cursor arg;
      let cursor := cursor + Z.of_nat (length arg) in
      mem ← copy_into pages mem cursor [0];
      Ok (inl (S arg_index, pointers, cursor + 1, mem))
    else Ok (inr (pointers, mem)))
    (0%nat, replicate (MAX_STARTUP_ARGS + 1) 0, strings_start layout, mem).
#[global] Arguments write_strings : simpl never.

Definition write_startup_arguments (pages : UserPageMap) (mem : Memory) (startup : ProgramStartup)
    : res (Z * Memory) :=
  layout ← prepare_startup_layout startup;
  '(pointers, mem) ← write_strings pages mem layout;
  pointers ← set_at pointers (argc layout) 0;
  mem ← copy_into pages mem (stack_start layout) (to_le_bytes 8 (Z.of_nat (argc layout)));
  pointers ← slice pointers 0 (argc layout + 1);
  mem ← copy_into pages mem (stack_start layout + 8) (concat (map (to_le_bytes 8) pointers));
  Ok (stack_start layout, mem).

Definition contains_user_address (address : Z) : bool :=
  (USER_IMAGE_BASE <=? address) && (address <? USER_STACK_TOP).

(** ** The runtime of the program (liblazer)

    A view of memory answers [None] where nothing is mapped: the access
    faults. *)

Definition View : Type := Z → option Z.

Definition load_byte (view : View) (address : Z) : outcome () Z := expect (view address).
Fixpoint load_bytes (view : View) (address : Z) (n : nat) : outcome () (list Z) :=
  match n with
  | O => Ok []
  | S n => b ← load_byte view address; l ← load_bytes view (address + 1) n; Ok (b :: l)
  end.
Definition load_word (view : View) (address : Z) : outcome () Z :=
  l ← load_bytes view address 8; Ok (from_le_bytes l).

Record Args := mkArgs { a_index : Z; a_argc : Z; a_argv : Z }.

(** [__liblazer_initialize] and [args]. *)
Definition initialize (view : View) (stack_top : Z) : outcome () Args :=
  argc ← load_word view stack_top; Ok (mkArgs 0 argc (stack_top + 8)).

(** The loop has no bound in the source; the fuel is the caller's. *)
Definition c_string_len (fuel : nat) (view : View) (pointer : Z) : outcome () nat :=
  while fuel (λ length,
    byte ← load_byte view (pointer + Z.of_nat length);
    if byte =? 0 then Ok (inr length) else Ok (inl (S length))) 0%nat.

Definition args_next (fuel : nat) (view : View) (a : Args) : outcome () (option (list Z) * Args) :=
  if decide (a_argc a ≤ a_index a) then Ok (None, a)
  else
    pointer ← load_word view (a_argv a + 8 * a_index a);
    length ← c_string_len fuel view pointer;
    bytes ← load_bytes view pointer length;
    match from_utf8 bytes with
    | None => Ok (None, a)
    | Some value => Ok (Some value, mkArgs (a_index a + 1) (a_argc a) (a_argv a))
    end.

(** What a [for] loop over [args()] sees. *)
Definition collect_args (fuel : nat) (view : View) (a : Args) : outcome () (list (list Z)) :=
  while fuel (λ '(seen, a),
    '(value, a) ← args_next fuel view a;
    match value with
    | Some value => Ok (inl (seen ++ [value], a))
    | None => Ok (inr seen)
    end) ([], a).

(** ** What the program sees *)

(** Memory through the page map. *)
Definition user_view (pages : UserPageMap) (mem : Memory) : View := λ va,
  page ← find pages (page_base va); Some (mem (phys_page page + (va - page_base va))).

(** Different virtual pages lie in different physical pages. *)
Definition pages_ok (pages : UserPageMap) : Prop := ∀ v1 v2 p1 p2,
  find pages v1 = Some p1 → find pages v2 = Some p2 → v1 ≠ v2 →
  phys_page p1 + PAGE_SIZE ≤ phys_page p2 ∨ phys_page p2 + PAGE_SIZE ≤ phys_page p1.

(** Every address of the range is mapped. *)
Definition mapped (pages : UserPageMap) (start end_ : Z) : Prop :=
  ∀ va, start ≤ va < end_ → is_Some (find pages (page_base va)).

(** The physical addresses behind the map. *)
Definition behind (pages : UserPageMap) (a : Z) : Prop :=
  ∃ v p, find pages v = Some p ∧ phys_page p ≤ a < phys_page p + PAGE_SIZE.

(** [bytes] stand at [start] in [view]. *)
Definition holds (view : View) (start : Z) (bytes : list Z) : Prop :=
  ∀ i b, bytes !! i = Some b → view (start + Z.of_nat i) = Some b.

(** The encoding of the arguments after the first, and how they are stored. *)
Definition encode_tail (extra : list (list Z)) : list Z := concat (map (λ a, a ++ [0]) extra).
Definition valid_argument (a : list Z) : Prop := invalid_argument a = false.

(** Room the startup block needs at most: the strings, the pointers with
    their terminator and the count, and what alignment may waste. *)
Definition startup_size (arguments : list (list Z)) : Z :=
  Z.of_nat (length (encode_tail arguments)) + 8 * (Z.of_nat (length arguments) + 2) + 22.

(** * Lemmas *)

Lemma view_write_page pages mem v p off l va :
  pages_ok pages → find pages v = Some p → v mod PAGE_SIZE = 0 →
  0 ≤ off → off + Z.of_nat (length l) ≤ PAGE_SIZE →
  user_view pages (write_phys mem (phys_page p + off) l) va =
    if decide (v + off ≤ va < v + off + Z.of_nat (length l))
    then Some (default 0 (l !! Z.to_nat (va - (v + off))))
    else user_view pages mem va.
Proof.
  intros Hok Hp Hv Hoff Hlen. unfold user_view, write_phys.
  pose proof (page_base_bounds va). case_decide as Hin.
  - rewrite (page_base_unique va v), Hp by (done || lia). cbn.
    rewrite decide_True by lia. do 3 f_equal. lia.
  - destruct (find pages (page_base va)) as [q|] eqn:Hq; [|done]. cbn. f_equal.
    rewrite decide_False; [done|]. intros Hw.
    destruct (decide (page_base va = v)) as [Heq|Hne].
    + rewrite Heq in *. assert (q = p) as -> by congruence. lia.
    + destruct (Hok _ _ _ _ Hq Hp Hne); lia.
Qed.

(** [copy_into] writes exactly the given bytes, as the program will see them,
    whatever page boundaries they cross, and touches no other page. *)
Lemma copy_into_spec pages mem start bytes :
  pages_ok pages → 0 ≤ start → start + Z.of_nat (length bytes) ≤ 2 ^ 64 →
  mapped pages start (start + Z.of_nat (length bytes)) →
  ∃ mem', copy_into pages mem start bytes = Ok mem' ∧
    (∀ va, user_view pages mem' va =
      if decide (start ≤ va < start + Z.of_nat (length bytes))
      then Some (default 0 (bytes !! Z.to_nat (va - start))) else user_view pages mem va) ∧
    (∀ a, ¬ behind pages a → mem' a = mem a).
Proof.
  intros Hok H0 Hmax Hmap. unfold copy_into.
  apply (while_rule
    (λ '(rem, address, mem'), ∃ done, bytes = done ++ rem ∧
       address = start + Z.of_nat (length done) ∧
       (∀ va, user_view pages mem' va =
          if decide (start ≤ va < address)
          then Some (default 0 (bytes !! Z.to_nat (va - start))) else user_view pages mem va) ∧
       (∀ a, ¬ behind pages a → mem' a = mem a))
    (λ '(rem, _, _), length rem)
    (λ o, ∃ mem', o = Ok mem' ∧
      (∀ va, user_view pages mem' va =
        if decide (start ≤ va < start + Z.of_nat (length bytes))
        then Some (default 0 (bytes !! Z.to_nat (va - start))) else user_view pages mem va) ∧
      (∀ a, ¬ behind pages a → mem' a = mem a))); [| |lia].
  2: { exists []. cbn. split_and!; [done|lia| |done]. intros va. rewrite decide_False by lia. done. }
  intros [[rem address] mem1] (done & Hb & Ha & Hview & Hframe).
  assert (length bytes = length done + length rem)%nat as Hl by (by rewrite Hb, length_app).
  case_decide as Hrem.
  { exists mem1. subst rem. rewrite app_nil_r in Hb. subst done. split_and!; [done| |done].
    intros va. rewrite Hview, Ha. done. }
  assert (0 < length rem)%nat as Hpos by (destruct rem; cbn; [done|lia]).
  assert (is_u64 address) as Hu by (unfold is_u64; lia).
  rewrite align_page by done. pose proof (page_base_bounds address) as Hpb.
  destruct (Hmap address) as [p Hp]; [lia|]. rewrite Hp. cbn [ok_or mbind outcome_bind].
  set (off := address - page_base address) in *.
  set (n := Z.to_nat (Z.min (Z.of_nat (length rem)) (PAGE_SIZE - off))).
  assert (0 < n ≤ length rem)%nat as Hn by lia.
  assert (Z.of_nat n ≤ PAGE_SIZE - off) as Hn2 by lia.
  rewrite slice_Ok by lia. cbn [mbind outcome_bind].
  assert (sub rem n (length rem) = drop n rem) as ->
    by (unfold sub; rewrite take_ge; [done|rewrite length_drop; lia]).
  assert (length (take n rem) = n) as Hlt by (rewrite length_take; lia).
  split; [|rewrite length_drop; lia].
  exists (done ++ take n rem). split_and!.
  - rewrite <-app_assoc, take_drop. done.
  - rewrite length_app, Hlt. lia.
  - intros va. rewrite (view_write_page pages mem1 (page_base address) p off (take n rem) va)
      by (try done; try apply page_base_mod; lia).
    rewrite Hlt, Hview. replace (page_base address + off) with address by lia.
    repeat case_decide; try lia; try done. f_equal. f_equal.
    rewrite Hb, lookup_app_r by lia. rewrite lookup_take_lt by lia. f_equal. lia.
  - intros a Hnb. unfold write_phys. rewrite decide_False; [by apply Hframe|].
    intros Hin. apply Hnb. exists (page_base address), p. split; [done|]. lia.
Qed.

(** ** The layout *)

Lemma invalid_false a : valid_argument a ↔ utf8_valid a = true ∧ ¬ In 0 a.
Proof.
  unfold valid_argument, invalid_argument. rewrite orb_false_iff, negb_false_iff, contains_false. done.
Qed.

Lemma position_nul_app a rest : ¬ In 0 a → position_nul (a ++ 0 :: rest) = Some (length a).
Proof.
  induction a as [|b a IH]; intros Hn; [done|]. cbn.
  destruct (Z.eqb_spec b 0) as [->|]; [destruct Hn; by left|].
  rewrite IH; [done|]. intros ?. apply Hn. by right.
Qed.

Lemma encode_tail_cons a l : encode_tail (a :: l) = a ++ 0 :: encode_tail l.
Proof. unfold encode_tail. cbn. by rewrite <-app_assoc. Qed.
Lemma encode_tail_app l k : encode_tail (l ++ k) = encode_tail l ++ encode_tail k.
Proof. unfold encode_tail. by rewrite map_app, concat_app. Qed.

Lemma drop_encode d r : drop (length (encode_tail d)) (encode_tail (d ++ r)) = encode_tail r.
Proof. rewrite encode_tail_app. apply drop_app_length. Qed.

Definition padded (arguments : list (list Z)) : list (list Z) :=
  arguments ++ replicate (MAX_STARTUP_ARGS - length arguments) [].

Lemma length_padded l : (length l ≤ MAX_STARTUP_ARGS)%nat → length (padded l) = MAX_STARTUP_ARGS.
Proof. intros. unfold padded. rewrite length_app, length_replicate. lia. Qed.

Lemma padded_insert l a :
  (length l < MAX_STARTUP_ARGS)%nat → <[length l := a]> (padded l) = padded (l ++ [a]).
Proof.
  intros Hl. unfold padded. rewrite insert_app_r_alt, Nat.sub_diag by lia.
  destruct (MAX_STARTUP_ARGS - length l)%nat as [|n] eqn:Hn; [lia|].
  rewrite length_app, <-app_assoc. cbn. do 3 f_equal. lia.
Qed.

Lemma split_tail_spec a0 extra :
  Forall (λ a, valid_argument a ∧ a ≠ []) extra →
  split_tail (encode_tail extra) (a0 :: replicate (MAX_STARTUP_ARGS - 1) []) =
    if decide (S (length extra) ≤ MAX_STARTUP_ARGS)%nat
    then Ok (padded (a0 :: extra), S (length extra)) else Err StartupArgumentsTooLarge.
Proof.
  intros Hval. unfold split_tail.
  apply (while_rule
    (λ '(cursor, args, argc), ∃ d r, extra = d ++ r ∧ cursor = length (encode_tail d) ∧
       argc = S (length d) ∧ args = padded (a0 :: d) ∧ (argc ≤ MAX_STARTUP_ARGS)%nat)
    (λ '(cursor, _, _), (length (encode_tail extra) - cursor)%nat)
    (λ o, o = if decide (S (length extra) ≤ MAX_STARTUP_ARGS)%nat
      then Ok (padded (a0 :: extra), S (length extra)) else Err StartupArgumentsTooLarge));
    [|exists [], extra; split_and!; try done; unfold MAX_STARTUP_ARGS; cbn; lia|lia].
  intros [[cursor args] argc] (d & r & -> & -> & -> & -> & Hd). case_decide as Hlt.
  2: { destruct r as [|a r].
       - rewrite app_nil_r. by rewrite decide_True.
       - rewrite encode_tail_app, encode_tail_cons, !length_app in Hlt. cbn in Hlt. lia. }
  destruct r as [|a r]; [rewrite app_nil_r in Hlt; lia|].
  apply Forall_app in Hval as [_ [[Hva Hne] _]%Forall_cons].
  apply invalid_false in Hva as Hva'. destruct Hva' as [_ Hn0].
  rewrite slice_Ok by lia. cbn [mbind outcome_bind].
  assert (sub (encode_tail (d ++ a :: r)) (length (encode_tail d)) (length (encode_tail (d ++ a :: r)))
    = encode_tail (a :: r)) as ->.
  { unfold sub. rewrite drop_encode. apply take_ge.
    rewrite encode_tail_app, length_app. lia. }
  rewrite encode_tail_cons, position_nul_app by done.
  assert (length (encode_tail (d ++ a :: r))
    = length (encode_tail d) + length a + S (length (encode_tail r)))%nat as Hlen
    by (rewrite encode_tail_app, encode_tail_cons, !length_app; cbn; lia).
  rewrite slice_Ok by lia. cbn [mbind outcome_bind].
  assert (sub (encode_tail (d ++ a :: r)) (length (encode_tail d))
    (length (encode_tail d) + length a) = a) as ->.
  { unfold sub. rewrite drop_encode, encode_tail_cons.
    replace (length (encode_tail d) + length a - length (encode_tail d))%nat with (length a) by lia.
    apply take_app_length. }
  rewrite bool_decide_false by done. rewrite Hva. cbn [orb].
  rewrite length_padded by done. case_decide as Hfull.
  - rewrite decide_False; [done|]. rewrite length_app. cbn. lia.
  - rewrite set_at_Ok by (rewrite length_padded; [lia|done]). cbn [mbind outcome_bind].
    change (S (length d)) with (length (a0 :: d)). rewrite padded_insert by (cbn; lia).
    split; [|rewrite Hlen; lia]. exists (d ++ [a]), r. rewrite <-app_assoc. split_and!; [done| | |done|].
    + rewrite encode_tail_app, encode_tail_cons, !length_app. cbn. lia.
    + rewrite length_app. cbn. lia.
    + cbn. lia.
Qed.

Lemma strings_size_spec args argc :
  (argc ≤ length args)%nat → strings_size args argc = Ok (length (encode_tail (take argc args))).
Proof.
  intros Hle. unfold strings_size.
  apply (while_rule (λ '(i, size), (i ≤ argc)%nat ∧ size = length (encode_tail (take i args)))
    (λ '(i, _), (argc - i)%nat) (λ o, o = Ok (length (encode_tail (take argc args)))));
    [|split; [lia|done]|lia].
  intros [i size] [Hi ->]. case_decide as Hlt.
  - destruct (lookup_lt_is_Some_2 args i) as [a Ha]; [lia|].
    rewrite (get_at_Ok _ _ _ Ha). cbn [mbind outcome_bind]. split; [|lia]. split; [lia|].
    rewrite (take_S_r _ _ _ Ha), encode_tail_app, encode_tail_cons, !length_app. cbn. lia.
  - by assert (i = argc) as -> by lia.
Qed.

Lemma align_down_bounds v k :
  0 ≤ k < 64 → is_u64 v → v - 2 ^ k < align_down v (2 ^ k) ≤ v ∧ align_down v (2 ^ k) mod 2 ^ k = 0 ∧
  0 ≤ align_down v (2 ^ k).
Proof.
  intros Hk Hv. rewrite align_down_pow2 by done. assert (0 < 2 ^ k) by (apply Z.pow_pos_nonneg; lia).
  destruct Hv. pose proof (Z.div_mod v (2 ^ k)). pose proof (Z.mod_pos_bound v (2 ^ k)).
  split_and!; [lia|lia|by apply Z.mod_mul; lia|]. apply Z.mul_nonneg_nonneg; [apply Z.div_pos|]; lia.
Qed.

(** Where the block lies: from the 16-aligned stack pointer up, below the
    stack's top, without overlap. *)
Record layout_ok (all : list (list Z)) (ss st : Z) : Prop := {
  lay_strings : ss = USER_STACK_TOP - Z.of_nat (length (encode_tail all));
  lay_base : USER_STACK_BASE ≤ st;
  lay_align : st mod 16 = 0;
  lay_gap : st + 8 + 8 * (Z.of_nat (length all) + 1) ≤ ss;
  lay_count : (length all ≤ MAX_STARTUP_ARGS)%nat
}.

(** Arguments whose tail has been cut up are laid out or are too large. *)
Lemma layout_cases a0 tail extra :
  valid_argument a0 → (length (a0 :: extra) ≤ MAX_STARTUP_ARGS)%nat →
  split_tail tail (a0 :: replicate (MAX_STARTUP_ARGS - 1) []) =
    Ok (padded (a0 :: extra), S (length extra)) →
  (USER_STACK_TOP - USER_STACK_BASE < startup_size (a0 :: extra) ∧
   prepare_startup_layout (mkStartup a0 tail) = Err StartupArgumentsTooLarge) ∨
  ∃ ss st, prepare_startup_layout (mkStartup a0 tail)
      = Ok (mkLayout (padded (a0 :: extra)) (length (a0 :: extra)) ss st) ∧
    layout_ok (a0 :: extra) ss st.
Proof.
  intros Hv0 Hcount Hsplit. unfold prepare_startup_layout. cbn [argv0 argv_tail].
  rewrite Hv0, Hsplit. cbn [mbind outcome_bind].
  change (S (length extra)) with (length (a0 :: extra)) at 1.
  rewrite strings_size_spec by (rewrite length_padded; done). cbn [mbind outcome_bind].
  assert (take (S (length extra)) (padded (a0 :: extra)) = a0 :: extra) as ->
    by (unfold padded; apply (take_app_length (a0 :: extra))).
  unfold startup_size. set (size := length (encode_tail (a0 :: extra))) in *.
  set (n := length (a0 :: extra)) in *. change (S (length extra)) with n.
  assert (USER_STACK_TOP = 0x800000 ∧ USER_STACK_BASE = 0x7f0000) as [HT HB] by done.
  rewrite HT, HB in *. unfold checked_sub.
  case_decide; [|left; split; [lia|done]]. cbn [ok_or mbind outcome_bind].
  case_decide; [|left; split; [lia|done]]. cbn [ok_or mbind outcome_bind].
  set (pe := 0x800000 - Z.of_nat size - Z.of_nat (n + 1) * 8) in *.
  destruct (align_down_bounds pe 3) as (Hp & _ & Hp0); [lia|unfold is_u64; lia|].
  change (2 ^ 3) with 8 in *. set (ps := align_down pe 8) in *.
  case_decide; [|left; split; [lia|done]]. cbn [ok_or mbind outcome_bind].
  destruct (align_down_bounds (ps - 8) 4) as (Hs & Hs16 & _); [lia|unfold is_u64; lia|].
  change (2 ^ 4) with 16 in *. case_decide; [left; split; [lia|done]|right].
  eexists _, _. split; [done|]. split; [by rewrite HT|rewrite HB; lia|done|lia|done].
Qed.

Lemma layout_spec a0 extra :
  valid_argument a0 → Forall (λ a, valid_argument a ∧ a ≠ []) extra →
  (length (a0 :: extra) ≤ MAX_STARTUP_ARGS)%nat →
  startup_size (a0 :: extra) ≤ USER_STACK_TOP - USER_STACK_BASE →
  ∃ ss st, prepare_startup_layout (mkStartup a0 (encode_tail extra))
      = Ok (mkLayout (padded (a0 :: extra)) (length (a0 :: extra)) ss st) ∧
    layout_ok (a0 :: extra) ss st.
Proof.
  intros Hv0 Hve Hcount Hsize.
  destruct (layout_cases a0 (encode_tail extra) extra Hv0 Hcount) as [[? _]|H]; [|lia|done].
  rewrite split_tail_spec by done. by rewrite decide_True.
Qed.

Lemma position_nul_spec l :
  match position_nul l with
  | Some n => l = take n l ++ 0 :: drop (S n) l ∧ (n < length l)%nat
  | None => ¬ In 0 l
  end.
Proof.
  induction l as [|b l IH]; [by intros []|]. cbn [position_nul]. destruct (Z.eqb_spec b 0) as [->|Hb].
  - cbn. split; [done|lia].
  - destruct (position_nul l) as [n|]; cbn.
    + destruct IH as [IH ?]. split; [by f_equal|lia].
    + by intros [?|?].
Qed.

(** Any tail: it is cut into arguments, or rejected. *)
Lemma split_tail_total a0 tail :
  match split_tail tail (a0 :: replicate (MAX_STARTUP_ARGS - 1) []) with
  | Ok (args, argc) => ∃ extra, args = padded (a0 :: extra) ∧ argc = S (length extra) ∧
      (length (a0 :: extra) ≤ MAX_STARTUP_ARGS)%nat
  | Err e => e = InvalidStartupArguments ∨ e = StartupArgumentsTooLarge
  | Panic | Hang => False
  end.
Proof.
  unfold split_tail.
  apply (while_rule
    (λ '(cursor, args, argc), ∃ d, args = padded (a0 :: d) ∧ argc = S (length d) ∧
       (length (a0 :: d) ≤ MAX_STARTUP_ARGS)%nat)
    (λ '(cursor, _, _), (length tail - cursor)%nat)
    (λ o, match o with
      | Ok (args, argc) => ∃ extra, args = padded (a0 :: extra) ∧ argc = S (length extra) ∧
          (length (a0 :: extra) ≤ MAX_STARTUP_ARGS)%nat
      | Err e => e = InvalidStartupArguments ∨ e = StartupArgumentsTooLarge
      | Panic | Hang => False end));
    [|exists []; split_and!; try done; unfold MAX_STARTUP_ARGS; cbn; lia|lia].
  intros [[cursor args] argc] (d & -> & -> & Hd). case_decide as Hlt; [|by exists d].
  rewrite slice_Ok by lia. cbn [mbind outcome_bind].
  pose proof (position_nul_spec (sub tail cursor (length tail))) as Hp.
  destruct (position_nul _) as [n|]; [|by left]. destruct Hp as [_ Hn]. rewrite length_sub in Hn by lia.
  rewrite slice_Ok by lia. cbn [mbind outcome_bind].
  destruct (bool_decide _ || invalid_argument _); [by left|].
  rewrite length_padded by done. case_decide as Hfull; [by right|].
  rewrite set_at_Ok by (rewrite length_padded; [lia|done]). cbn [mbind outcome_bind].
  change (S (length d)) with (length (a0 :: d)). rewrite padded_insert by (cbn; lia).
  split; [|lia]. eexists (d ++ [_]). split_and!; [done| |]; cbn; rewrite length_app; cbn; lia.
Qed.

(** ** Writing the block *)

Fixpoint string_addresses (start : Z) (l : list (list Z)) : list Z :=
  match l with
  | [] => []
  | a :: l => start :: string_addresses (start + Z.of_nat (length a) + 1) l
  end.

Lemma length_string_addresses s l : length (string_addresses s l) = length l.
Proof. revert s. induction l; intros; cbn; [done|by rewrite IHl]. Qed.

Lemma string_addresses_app s l k :
  string_addresses s (l ++ k)
    = string_addresses s l ++ string_addresses (s + Z.of_nat (length (encode_tail l))) k.
Proof.
  revert s. induction l as [|a l IH]; intros s; cbn.
  - f_equal. lia.
  - rewrite IH. do 2 f_equal. rewrite length_app, length_app. cbn.
    change (concat (map (λ a0, a0 ++ [0]) l)) with (encode_tail l). f_equal. lia.
Qed.

(** Memory in which [bytes] have been written at [start]. *)
Definition written (pages : UserPageMap) (mem mem' : Memory) (start : Z) (bytes : list Z) : Prop :=
  (∀ va, user_view pages mem' va =
    if decide (start ≤ va < start + Z.of_nat (length bytes))
    then Some (default 0 (bytes !! Z.to_nat (va - start))) else user_view pages mem va) ∧
  (∀ a, ¬ behind pages a → mem' a = mem a).

Lemma written_nil pages mem start : written pages mem mem start [].
Proof. split; [|done]. intros va. rewrite decide_False by (cbn; lia). done. Qed.

Lemma written_app pages mem mem1 mem2 start b1 b2 :
  written pages mem mem1 start b1 →
  written pages mem1 mem2 (start + Z.of_nat (length b1)) b2 →
  written pages mem mem2 start (b1 ++ b2).
Proof.
  intros [H1 F1] [H2 F2]. split; [|intros a Ha; rewrite F2, F1; done].
  intros va. rewrite H2, H1, length_app. repeat case_decide; try lia; try done; do 2 f_equal.
  - rewrite lookup_app_r by lia. f_equal. lia.
  - rewrite lookup_app_l by lia. done.
Qed.

Lemma written_holds pages mem mem' start bytes :
  written pages mem mem' start bytes → holds (user_view pages mem') start bytes.
Proof.
  intros [H _] i b Hi. pose proof (lookup_lt_Some _ _ _ Hi).
  rewrite H, decide_True by lia. replace (Z.to_nat (start + Z.of_nat i - start)) with i by lia.
  by rewrite Hi.
Qed.

Lemma written_keeps pages mem mem' start bytes s l :
  written pages mem mem' start bytes → holds (user_view pages mem) s l →
  (s + Z.of_nat (length l) ≤ start ∨ start + Z.of_nat (length bytes) ≤ s) →
  holds (user_view pages mem') s l.
Proof.
  intros [H _] Hl Hd i b Hi. pose proof (lookup_lt_Some _ _ _ Hi).
  rewrite H, decide_False by lia. by apply Hl.
Qed.

Section Write.
Context (pages : UserPageMap) (Hok : pages_ok pages).
Context (Hmap : mapped pages USER_STACK_BASE USER_STACK_TOP).

Lemma copy_in_stack mem start bytes :
  USER_STACK_BASE ≤ start → start + Z.of_nat (length bytes) ≤ USER_STACK_TOP →
  ∃ mem', copy_into pages mem start bytes = Ok mem' ∧ written pages mem mem' start bytes.
Proof.
  intros Hs He. assert (USER_STACK_TOP = 0x800000 ∧ USER_STACK_BASE = 0x7f0000) as [HT HB] by done.
  destruct (copy_into_spec pages mem start bytes Hok) as (mem' & Hc & Hv & Hf); [lia|lia| |].
  - intros va Hva. apply Hmap. lia.
  - exists mem'. split; [done|by split].
Qed.

Lemma write_strings_spec mem all ss st :
  (length all ≤ MAX_STARTUP_ARGS)%nat → USER_STACK_BASE ≤ ss →
  ss + Z.of_nat (length (encode_tail all)) = USER_STACK_TOP →
  ∃ mem', write_strings pages mem (mkLayout (padded all) (length all) ss st)
      = Ok (string_addresses ss all ++ replicate (MAX_STARTUP_ARGS + 1 - length all) 0, mem') ∧
    written pages mem mem' ss (encode_tail all).
Proof.
  intros Hlen Hss Htop. unfold write_strings. cbn [Loader.argc strings_start Loader.args].
  apply (while_rule
    (λ '(i, ptrs, cursor, mem1), ∃ d r, all = d ++ r ∧ i = length d ∧
       ptrs = string_addresses ss d ++ replicate (MAX_STARTUP_ARGS + 1 - length d) 0 ∧
       cursor = ss + Z.of_nat (length (encode_tail d)) ∧ written pages mem mem1 ss (encode_tail d))
    (λ '(i, _, _, _), (length all - i)%nat)
    (λ o, ∃ mem', o = Ok (string_addresses ss all ++ replicate (MAX_STARTUP_ARGS + 1 - length all) 0, mem') ∧
       written pages mem mem' ss (encode_tail all)));
    [|exists [], all; split_and!; try done; [cbn; lia|apply written_nil]|lia].
  intros [[[i ptrs] cursor] mem1] (d & r & -> & -> & -> & -> & Hw). case_decide as Hlt.
  2: { destruct r as [|a r]; [|rewrite length_app in Hlt; cbn in Hlt; lia].
       exists mem1. by rewrite app_nil_r. }
  destruct r as [|a r]; [rewrite app_nil_r in Hlt; lia|].
  rewrite length_app in Hlen. cbn [length] in Hlen.
  rewrite set_at_Ok by (rewrite length_app, length_string_addresses, length_replicate; lia).
  cbn [mbind outcome_bind].
  assert (padded (d ++ a :: r) !! length d = Some a) as Hget.
  { unfold padded. rewrite lookup_app_l by (rewrite length_app; cbn; lia).
    by rewrite list_lookup_middle. }
  rewrite (get_at_Ok _ _ _ Hget). cbn [mbind outcome_bind].
  rewrite encode_tail_app, encode_tail_cons, !length_app in Htop. cbn [length] in Htop.
  destruct (copy_in_stack mem1 (ss + Z.of_nat (length (encode_tail d))) a) as (mem2 & -> & Hw2);
    [lia|lia|]. cbn [mbind outcome_bind].
  destruct (copy_in_stack mem2 (ss + Z.of_nat (length (encode_tail d)) + Z.of_nat (length a)) [0])
    as (mem3 & -> & Hw3); [lia|cbn; lia|]. cbn [mbind outcome_bind].
  split; [|rewrite length_app; cbn; lia].
  exists (d ++ [a]), r. rewrite <-app_assoc. split_and!; [done| | | |].
  - rewrite length_app. cbn. lia.
  - rewrite string_addresses_app. cbn [string_addresses].
    rewrite insert_app_r_alt by (rewrite length_string_addresses; lia).
    rewrite length_string_addresses, Nat.sub_diag, length_app, <-app_assoc.
    destruct (MAX_STARTUP_ARGS + 1 - length d)%nat as [|n] eqn:Hn; [lia|].
    cbn. do 3 f_equal. lia.
  - rewrite encode_tail_app, encode_tail_cons, !length_app. cbn. lia.
  - rewrite encode_tail_app, encode_tail_cons. change (encode_tail []) with (@nil Z).
    eapply written_app; [exact Hw|]. by eapply written_app.
Qed.

(** The whole block as the program will find it. *)
Lemma write_startup_spec mem startup all ss st :
  prepare_startup_layout startup = Ok (mkLayout (padded all) (length all) ss st) →
  layout_ok all ss st →
  ∃ mem', write_startup_arguments pages mem startup = Ok (st, mem') ∧
    holds (user_view pages mem') st (to_le_bytes 8 (Z.of_nat (length all))) ∧
    holds (user_view pages mem') (st + 8)
      (concat (map (to_le_bytes 8) (string_addresses ss all ++ [0]))) ∧
    holds (user_view pages mem') ss (encode_tail all) ∧
    (∀ a, ¬ behind pages a → mem' a = mem a) ∧
    (∀ va, va < st ∨ USER_STACK_TOP ≤ va → user_view pages mem' va = user_view pages mem va).
Proof.
  intros Hlay [Hss Hst H16 Hgap Hcount].
  unfold write_startup_arguments. rewrite Hlay. cbn [mbind outcome_bind].
  destruct (write_strings_spec mem all ss st Hcount) as (mem1 & -> & Hw1); [lia|lia|].
  cbn [mbind outcome_bind Loader.argc stack_start].
  rewrite set_at_Ok by (rewrite length_app, length_string_addresses, length_replicate; lia).
  cbn [mbind outcome_bind].
  assert (<[length all := 0]> (string_addresses ss all ++ replicate (MAX_STARTUP_ARGS + 1 - length all) 0)
    = string_addresses ss all ++ 0 :: replicate (MAX_STARTUP_ARGS - length all) 0) as ->.
  { rewrite insert_app_r_alt by (rewrite length_string_addresses; lia).
    rewrite length_string_addresses, Nat.sub_diag.
    replace (MAX_STARTUP_ARGS + 1 - length all)%nat with (S (MAX_STARTUP_ARGS - length all)) by lia. done. }
  destruct (copy_in_stack mem1 st (to_le_bytes 8 (Z.of_nat (length all)))) as (mem2 & -> & Hw2);
    [lia|rewrite length_to_le_bytes; lia|]. cbn [mbind outcome_bind].
  rewrite slice_Ok by (rewrite ?length_app; cbn; rewrite ?length_string_addresses; lia).
  cbn [mbind outcome_bind]. rewrite sub_0.
  assert (take (length all + 1) (string_addresses ss all ++ 0 :: replicate (MAX_STARTUP_ARGS - length all) 0)
    = string_addresses ss all ++ [0]) as ->.
  { rewrite take_app_ge by (rewrite length_string_addresses; lia). rewrite length_string_addresses.
    by replace (length all + 1 - length all)%nat with 1%nat by lia. }
  set (ptrs := concat (map (to_le_bytes 8) (string_addresses ss all ++ [0]))).
  assert (length ptrs = 8 * (length all + 1))%nat as Hptrs.
  { unfold ptrs. rewrite <-(length_string_addresses ss all).
    generalize (string_addresses ss all). intros l. induction l as [|x l IH]; [done|].
    cbn [app map concat]. rewrite length_app, length_to_le_bytes, IH. cbn. lia. }
  destruct (copy_in_stack mem2 (st + 8) ptrs) as (mem3 & -> & Hw3); [lia|lia|].
  cbn [mbind outcome_bind].
  assert (USER_STACK_TOP = 0x800000 ∧ USER_STACK_BASE = 0x7f0000) as [HT HB] by done.
  pose proof (length_to_le_bytes 8 (Z.of_nat (length all))) as Hl8.
  exists mem3. split_and!; try done; try lia.
  - eapply written_keeps; [exact Hw3|by eapply written_holds|lia].
  - by eapply written_holds.
  - eapply written_keeps; [exact Hw3| |lia].
    eapply written_keeps; [exact Hw2|by eapply written_holds|lia].
  - intros a Ha. destruct Hw1 as [_ F1], Hw2 as [_ F2], Hw3 as [_ F3]. by rewrite F3, F2, F1.
  - intros va Hva. destruct Hw1 as [V1 _], Hw2 as [V2 _], Hw3 as [V3 _].
    rewrite V3, decide_False by lia. rewrite V2, decide_False by lia. rewrite V1, decide_False by lia. done.
Qed.

(** Any startup data is written into the stack or rejected. *)
Lemma write_startup_total mem startup :
  match write_startup_arguments pages mem startup with
  | Ok (st, mem') => USER_STACK_BASE ≤ st < USER_STACK_TOP ∧
      (∀ a, ¬ behind pages a → mem' a = mem a) ∧
      (∀ va, va < st ∨ USER_STACK_TOP ≤ va → user_view pages mem' va = user_view pages mem va)
  | Err e => e = InvalidStartupArguments ∨ e = StartupArgumentsTooLarge
  | Panic | Hang => False
  end.
Proof.
  destruct startup as [a0 tail]. destruct (invalid_argument a0) eqn:Hv.
  { unfold write_startup_arguments, prepare_startup_layout. cbn [argv0]. rewrite Hv. by left. }
  pose proof (split_tail_total a0 tail) as Ht.
  destruct (split_tail tail _) as [[args argc]|e| |] eqn:Hs; try done.
  - destruct Ht as (extra & -> & -> & Hc).
    destruct (layout_cases a0 tail extra Hv Hc Hs) as [[_ Hl]|(ss & st & Hl & Hlok)].
    + unfold write_startup_arguments. rewrite Hl. by right.
    + destruct (write_startup_spec mem _ _ _ _ Hl Hlok) as (mem' & -> & _ & _ & _ & Hf & Hv').
      destruct Hlok. split_and!; [lia|cbn in *; lia|done|done].
  - unfold write_startup_arguments, prepare_startup_layout. cbn [argv0 argv_tail]. by rewrite Hv, Hs.
Qed.

End Write.

(** ** Reading the block *)

Lemma holds_cons view s b l : holds view s (b :: l) ↔ view s = Some b ∧ holds view (s + 1) l.
Proof.
  split.
  - intros H. split; [by rewrite <-(H 0%nat b), Z.add_0_r|].
    intros i c Hi. rewrite <-(H (S i) c) by done. f_equal. lia.
  - intros [H0 H] [|i] c Hi; cbn in Hi; [injection Hi as <-; by rewrite Z.add_0_r|].
    rewrite <-(H i c) by done. f_equal. lia.
Qed.

Lemma holds_ext view view' s l : (∀ va, view' va = view va) → holds view s l → holds view' s l.
Proof. intros He Hh i b Hi. rewrite He. by apply Hh. Qed.

Lemma holds_app view s l k :
  holds view s (l ++ k) ↔ holds view s l ∧ holds view (s + Z.of_nat (length l)) k.
Proof.
  revert s. induction l as [|b l IH]; intros s.
  - cbn. rewrite Z.add_0_r. split; [|naive_solver]. intros H. split; [|done]. intros i b Hi. done.
  - rewrite <-app_comm_cons, !holds_cons, IH.
    replace (s + Z.of_nat (length (b :: l))) with (s + 1 + Z.of_nat (length l)) by (cbn; lia).
    naive_solver.
Qed.

Lemma load_bytes_spec view s l : holds view s l → load_bytes view s (length l) = Ok l.
Proof.
  revert s. induction l as [|b l IH]; intros s; [done|]. intros [Hb Hl]%holds_cons.
  cbn. unfold load_byte. rewrite Hb. cbn. by rewrite (IH _ Hl).
Qed.

Lemma load_word_spec view s v :
  is_u64 v → holds view s (to_le_bytes 8 v) → load_word view s = Ok v.
Proof.
  intros Hv H%load_bytes_spec. rewrite length_to_le_bytes in H. unfold load_word.
  rewrite H. cbn [mbind outcome_bind]. rewrite from_to_le_bytes; [done|].
  change (256 ^ Z.of_nat 8) with (2 ^ 64). exact Hv.
Qed.

Lemma c_string_len_spec fuel view s a :
  holds view s (a ++ [0]) → ¬ In 0 a → (length a < fuel)%nat → c_string_len fuel view s = Ok (length a).
Proof.
  intros Hh Hn Hf. unfold c_string_len.
  apply (while_rule (λ n, (n ≤ length a)%nat) (λ n, (length a - n)%nat)
    (λ o, o = Ok (length a))); [|lia|lia].
  intros n Hle. destruct (decide (n = length a)) as [->|].
  - unfold load_byte. rewrite (Hh (length a) 0); [done|]. by rewrite list_lookup_middle.
  - destruct (lookup_lt_is_Some_2 a n) as [b Hb]; [lia|].
    unfold load_byte. rewrite (Hh n b) by (by rewrite lookup_app_l by lia). cbn.
    destruct (Z.eqb_spec b 0) as [->|]; [|lia].
    destruct Hn. apply list_elem_of_In, list_elem_of_lookup. eauto.
Qed.

(** Where the [i]th string stands. *)
Lemma holds_string view ss l i a :
  holds view ss (encode_tail l) → l !! i = Some a →
  ∃ p, string_addresses ss l !! i = Some p ∧ holds view p (a ++ [0]) ∧
    ss ≤ p ≤ ss + Z.of_nat (length (encode_tail l)).
Proof.
  revert ss i. induction l as [|b l IH]; intros ss i Hh Hi; [done|].
  rewrite encode_tail_cons in Hh |- *. destruct i as [|i]; cbn in Hi.
  - injection Hi as ->. exists ss. split; [done|]. split; [|lia].
    change (0 :: encode_tail l) with ([0] ++ encode_tail l) in Hh. rewrite app_assoc in Hh.
    by apply holds_app in Hh as [? _].
  - change (0 :: encode_tail l) with ([0] ++ encode_tail l) in Hh. rewrite app_assoc in Hh.
    apply holds_app in Hh as [_ Hh]. rewrite length_app in Hh. cbn [length] in Hh.
    replace (ss + Z.of_nat (length b + 1)) with (ss + Z.of_nat (length b) + 1) in Hh by lia.
    destruct (IH _ i Hh Hi) as (p & Hp & Hhp & Hb). exists p. split; [done|]. split; [done|].
    rewrite length_app. cbn [length]. lia.
Qed.

Lemma holds_pointer view s l i p :
  holds view s (concat (map (to_le_bytes 8) l)) → l !! i = Some p →
  holds view (s + 8 * Z.of_nat i) (to_le_bytes 8 p).
Proof.
  revert s i. induction l as [|b l IH]; intros s i Hh Hi; [done|].
  cbn [map concat] in Hh. apply holds_app in Hh as [Hb Hh].
  destruct i as [|i]; cbn in Hi; [injection Hi as ->; by rewrite Z.add_0_r|].
  rewrite length_to_le_bytes in Hh.
  replace (s + 8 * Z.of_nat (S i)) with (s + Z.of_nat 8 + 8 * Z.of_nat i) by lia. by apply IH.
Qed.

(** The runtime's iterator finds every argument. *)
Lemma collect_spec fuel view st ss all :
  Forall valid_argument all → (length all < fuel)%nat →
  Forall (λ a, (length a < fuel)%nat) all →
  0 ≤ ss → ss + Z.of_nat (length (encode_tail all)) < 2 ^ 64 → Z.of_nat (length all) < 2 ^ 64 →
  holds view st (to_le_bytes 8 (Z.of_nat (length all))) →
  holds view (st + 8) (concat (map (to_le_bytes 8) (string_addresses ss all ++ [0]))) →
  holds view ss (encode_tail all) →
  (a ← initialize view st; collect_args fuel view a) = Ok all.
Proof.
  intros Hval Hf Hfs Hss0 Hss Hn Hc Hp Hs. unfold initialize.
  rewrite (load_word_spec view st (Z.of_nat (length all)) ltac:(unfold is_u64; lia) Hc). cbn [mbind outcome_bind].
  unfold collect_args.
  apply (while_rule
    (λ '(seen, a), ∃ r, all = seen ++ r ∧
       a = mkArgs (Z.of_nat (length seen)) (Z.of_nat (length all)) (st + 8))
    (λ '(seen, _), (length all - length seen)%nat) (λ o, o = Ok all));
    [|by exists all|cbn; lia].
  intros [seen a] (r & Hall & ->). unfold args_next. cbn [a_index a_argc a_argv].
  destruct r as [|arg r].
  - rewrite app_nil_r in Hall. subst seen. by rewrite decide_True by lia.
  - assert (length all = length seen + S (length r))%nat as Hl by (by rewrite Hall, length_app).
    rewrite decide_False by lia.
    assert (all !! length seen = Some arg) as Harg by (by rewrite Hall, list_lookup_middle).
    destruct (holds_string view ss all (length seen) arg Hs Harg) as (p & Hpa & Hhp & Hpb).
    rewrite (load_word_spec view _ p); [|unfold is_u64; lia|].
    2: { apply (holds_pointer view _ (string_addresses ss all ++ [0]) (length seen) p Hp).
         apply lookup_app_l_Some. exact Hpa. }
    cbn [mbind outcome_bind].
    rewrite Forall_lookup in Hval, Hfs.
    pose proof (Hfs _ _ Harg) as Hfa.
    destruct (proj1 (invalid_false arg) (Hval _ _ Harg)) as [Hu H0].
    rewrite (c_string_len_spec fuel view p arg Hhp H0 Hfa). cbn [mbind outcome_bind].
    apply holds_app in Hhp as [Hh _]. rewrite (load_bytes_spec _ _ _ Hh). cbn [mbind outcome_bind].
    unfold from_utf8. rewrite Hu. split; [|rewrite length_app; cbn; lia].
    exists r. rewrite <-app_assoc. split; [done|]. rewrite length_app. cbn. f_equal. lia.
Qed.

(** A program receives its arguments: when the kernel has mapped the stack
    to distinct pages, and the arguments are NUL-free UTF-8 text, at most 32,
    and fit the stack, writing the startup block succeeds and the program's
    runtime, started with the returned stack pointer, iterates over exactly
    the program's path and the given arguments.  The stack pointer is
    16-aligned and inside the stack; nothing below it changes in the program's
    memory, and no memory outside the program's pages is written. *)
Lemma program_receives_arguments pages mem a0 extra fuel :
  pages_ok pages → mapped pages USER_STACK_BASE USER_STACK_TOP →
  valid_argument a0 → Forall (λ a, valid_argument a ∧ a ≠ []) extra →
  (length (a0 :: extra) ≤ MAX_STARTUP_ARGS)%nat →
  startup_size (a0 :: extra) ≤ USER_STACK_TOP - USER_STACK_BASE →
  (Z.to_nat (USER_STACK_TOP - USER_STACK_BASE) ≤ fuel)%nat →
  ∃ stack_top mem',
    write_startup_arguments pages mem (mkStartup a0 (encode_tail extra)) = Ok (stack_top, mem') ∧
    (∀ view, (∀ va, view va = user_view pages mem' va) →
       (a ← initialize view stack_top; collect_args fuel view a) = Ok (a0 :: extra)) ∧
    USER_STACK_BASE ≤ stack_top < USER_STACK_TOP ∧ stack_top mod 16 = 0 ∧
    (∀ va, va < stack_top → user_view pages mem' va = user_view pages mem va) ∧
    (∀ a, ¬ behind pages a → mem' a = mem a).
Proof.
  intros Hok Hmap Hv0 Hve Hcount Hsize Hfuel.
  destruct (layout_spec a0 extra Hv0 Hve Hcount Hsize) as (ss & st & Hlay & Hlok).
  destruct (write_startup_spec pages Hok Hmap mem _ _ _ _ Hlay Hlok)
    as (mem' & -> & Hc & Hp & Hs & Hframe & Hlow).
  destruct Hlok as [Hss Hb H16 Hgap _].
  assert (USER_STACK_TOP = 0x800000 ∧ USER_STACK_BASE = 0x7f0000) as [HT HB] by done.
  exists st, mem'. split; [done|]. split_and!; [|done|lia|done|auto|done].
  intros view Hview. apply (holds_ext _ view) in Hc, Hp, Hs; [|done..].
  unfold startup_size in Hsize. rewrite HT, HB in *.
  change (Z.to_nat (0x800000 - 0x7f0000)) with (Z.to_nat 65536) in Hfuel.
  apply (collect_spec fuel _ st ss); try done; try lia.
  - constructor; [done|]. eapply Forall_impl; [exact Hve|]. by intros a [? _].
  - apply Forall_lookup. intros i a Ha. apply list_elem_of_split_length in Ha as (l1 & l2 & Heq & _).
    rewrite Heq, encode_tail_app, encode_tail_cons, !length_app in Hsize. cbn [length] in Hsize. lia.
Qed.
