(* ===== verification/UserProgram.v ===== *)
(** * Loading user programs ([load_user_program] of [kernel/kernel/src/memory/loader.rs])

    A new address space with the shared kernel mappings, the pages of the
    program's segments and of its stack, and the startup block. *)

From stdpp Require Import gmap.
From S2P Require Import Prelude Bytes Errors Allocator ElfFile Process Paging KernelSpace Loader.

Local Open Scope Z_scope.

Definition lift {E A} (f : E → MemoryError) (s : Store) (m : outcome E A) : sres A :=
  map_err (λ e, (f e, s)) m.

(** One page of the program: allocated, mapped, entered in the page map and
    recorded as owned, in this order. *)
Definition load_page (root : Z) (pages : UserPageMap) (s : Store) (virt flags : Z)
    : sres (UserPageMap * Store) :=
  '(phys, s) ← take_page s;
  s ← map_4k root s virt phys flags;
  pages ← lift id s (insert_page pages (mkUserPage virt phys));
  s ← own_page s phys;
  Ok (pages, s).

(** [while virt < page_end] *)
Definition load_pages (root : Z) (pages : UserPageMap) (s : Store) (page_start page_end flags : Z)
    : sres (UserPageMap * Store) :=
  while (S (Z.to_nat ((page_end - page_start) / PAGE_SIZE))) (λ '(virt, pages, s),
    if decide (virt < page_end) then
      '(pages, s) ← (if map_contains pages virt then Ok (pages, s)
                     else load_page root pages s virt flags);
      Ok (inl (virt + PAGE_SIZE, pages, s))
    else Ok (inr (pages, s))) (page_start, pages, s).
#[global] Arguments load_pages : simpl never.

Definition page_flags (header : ProgramHeader) : Z :=
  Z.lor (Z.lor PAGE_PRESENT PAGE_USER)
    (if negb (Z.land (flags header) PF_W =? 0) then PAGE_WRITABLE else 0).

Definition load_segment (root : Z) (file : list Z) (v : UserPageMap * Store)
    (header_result : outcome ElfError ProgramHeader) : sres (UserPageMap * Store) :=
  let '(pages, s) := v in
  header ← lift Elf s header_result;
  if decide (kind header ≠ PT_LOAD) then Ok (pages, s)
  else
    let segment_start := virtual_address header in
    segment_end ← lift id s (ok_or (checked_add (virtual_address header) (memory_size header))
                               UserImageOutOfRange);
    if decide (segment_start < USER_IMAGE_BASE ∨ USER_STACK_BASE < segment_end
               ∨ memory_size header < file_size header)
    then Err (UserImageOutOfRange, s)
    else
      let page_start := align_down segment_start PAGE_SIZE in
      let page_end := align_up segment_end PAGE_SIZE in
      '(pages, s) ← load_pages root pages s page_start page_end (page_flags header);
      '(first, last) ← lift Elf s (file_range header (Z.of_nat (length file)));
      bytes ← slice file (Z.to_nat first) (Z.to_nat last);
      m ← lift id s (copy_into pages (memory s) (virtual_address header) bytes);
      Ok (pages, with_memory m s).

(** The stack's pages are new: they are not looked up first. *)
Definition load_stack (root : Z) (pages : UserPageMap) (s : Store) : sres (UserPageMap * Store) :=
  while (S USER_STACK_PAGES) (λ '(stack_page, pages, s),
    if decide (stack_page < USER_STACK_TOP) then
      '(pages, s) ← load_page root pages s stack_page
                      (Z.lor (Z.lor PAGE_PRESENT PAGE_WRITABLE) PAGE_USER);
      Ok (inl (stack_page + PAGE_SIZE, pages, s))
    else Ok (inr (pages, s))) (USER_STACK_BASE, pages, s).
#[global] Arguments load_stack : simpl never.

(** The closure whose errors release the owned pages: the root of the space
    and the stack pointer. *)
Definition build_program (st : MemoryState) (s : Store) (image : ElfImage) (file : list Z)
    (startup : ProgramStartup) : sres (Z * Z * Store) :=
  '(root, s) ← take_page s;
  s ← own_page s root;
  s ← map_shared_kernel_context st root s;
  '(pages, s) ← for_each (load_segment root file) (UserPageMap_new, s) (headers_of image);
  '(pages, s) ← load_stack root pages s;
  '(stack_top, m) ← lift id s (write_startup_arguments pages (memory s) startup);
  Ok (root, stack_top, with_memory m s).

(** The kernel's allocator and memory, after the builder is gone. *)
Definition settle (a : PhysicalAllocator) (m : Memory) (st : MemoryState) : MemoryState :=
  with_store (mkStore a m None) st.

(** [owned_pages] as it stands. *)
Definition owned_now (s : Store) : OwnedPages := default OwnedPages_empty (owned s).

(** An error also says how the kernel's memory is left. *)
Definition load_user_program (st : MemoryState) (file : list Z) (startup : ProgramStartup)
    : outcome (MemoryError * MemoryState) (LoadedUserProgram * MemoryState) :=
  image ← map_err (λ e, (Elf e, st)) (ElfImage_parse file);
  let entry := entry_point image in
  if negb (contains_user_address entry) then Err (UserImageOutOfRange, st)
  else
    let s := mkStore (allocator (store st)) (memory (store st)) (Some OwnedPages_empty) in
    match build_program st s image file startup with
    | Ok (root, stack_top, s) =>
        Ok (mkProgram (mkSpace root) entry stack_top (owned_now s),
            settle (allocator s) (memory s) st)
    | Err (e, s) =>
        a ← map_err (λ e', (e', st)) (owned_release (owned_now s) (allocator s));
        Err (e, settle a (memory s) st)
    | Panic => Panic
    | Hang => Hang
    end.

(** ** What the program is given *)

Definition user_area (va : Z) : Prop := USER_IMAGE_BASE ≤ va < USER_STACK_TOP.

(** The pages of a segment. *)
Definition covers_page (h : ProgramHeader) (va : Z) : Prop :=
  align_down (virtual_address h) PAGE_SIZE ≤ va <
    align_up (virtual_address h + memory_size h) PAGE_SIZE.
Definition in_file (h : ProgramHeader) (va : Z) : Prop :=
  virtual_address h ≤ va < virtual_address h + file_size h.
#[export] Instance covers_page_dec h va : Decision (covers_page h va).
Proof. unfold covers_page. apply _. Defined.
#[export] Instance in_file_dec h va : Decision (in_file h va).
Proof. unfold in_file. apply _. Defined.

(** An address of the image: whether it may be written, and its byte. *)
Definition segment_byte (file : list Z) (h : ProgramHeader) (va : Z) (o : option (bool * Z))
    : option (bool * Z) :=
  if decide (kind h ≠ PT_LOAD) then o
  else
    let o := if decide (covers_page h va)
             then Some (default (negb (Z.land (flags h) PF_W =? 0), 0) o) else o in
    if decide (in_file h va)
    then '(w, _) ← o; b ← file !! Z.to_nat (offset h + (va - virtual_address h)); Some (w, b)
    else o.

(** Segments in the order of the headers: the first to cover a page decides
    whether it is writable, the last to hold a byte decides its value; other
    bytes are zero.  The stack is writable and zero. *)
Definition segments_byte (file : list Z) (hs : list ProgramHeader) (va : Z) : option (bool * Z) :=
  foldl (λ o h, segment_byte file h va o) None hs.
Definition program_byte (file : list Z) (hs : list ProgramHeader) (va : Z) : option (bool * Z) :=
  if decide (USER_STACK_BASE ≤ va < USER_STACK_TOP) then Some (true, 0)
  else segments_byte file hs va.

(** What the processor lets a program read, at low addresses. *)
Definition user_load (m : Memory) (root : Z) : View := λ va,
  if decide (is_low va) then t ← translate m root va; if t_user t then Some (m (t_phys t)) else None
  else None.

(** What the kernel holds once a program has been loaded. *)
Record program_image (st : MemoryState) (file : list Z) (hs : list ProgramHeader)
    (program : LoadedUserProgram) (st' : MemoryState) : Prop := {
  pi_config : st' = settle (allocator (store st')) (memory (store st')) st;
  pi_space : address_space (root_paddr (lp_address_space program)) (store st');
  pi_mapped : ∀ va w b, program_byte file hs va = Some (w, b) → ∃ phys,
    translate (memory (store st')) (root_paddr (lp_address_space program)) va =
      Some (mkTranslation phys true w) ∧
    (va < lp_user_stack_top program → memory (store st') phys = b) ∧
    free_in (store st) phys ∧ ¬ free_in (store st') phys;
  pi_kernel : ∀ va, is_low va → program_byte file hs va = None →
    translate (memory (store st')) (root_paddr (lp_address_space program)) va =
      kernel_translation (phys_window_end st) (extra_ranges st) va;
  pi_memory : ∀ x, ¬ free_in (store st) x → memory (store st') x = memory (store st) x;
  pi_owned : let owned x := in_pages (take (owned_len (lp_owned_pages program))
                                        (pages (lp_owned_pages program))) x in
    ∀ x, (free_in (store st) x ↔ free_in (store st') x ∨ owned x) ∧ ¬ (free_in (store st') x ∧ owned x)
}.

(** * Lemmas *)

Lemma find_insert pages page pages' v :
  insert_page pages page = Ok pages' → find pages (virt_page page) = None →
  find pages' v = if decide (v = virt_page page) then Some page else find pages v.
Proof.
  revert pages'. induction pages as [|[q|] pages IH]; intros pages' Hi Hn; cbn in Hi; [done| |].
  - apply bind_Ok in Hi as (l & Hl & [= <-]). cbn in *.
    destruct (Z.eqb_spec (virt_page q) (virt_page page)) as [|Hne]; [done|].
    destruct (Z.eqb_spec (virt_page q) v) as [<-|Hv]; [by rewrite decide_False|]. by apply IH.
  - injection Hi as <-. cbn in *. destruct (Z.eqb_spec (virt_page page) v) as [<-|Hv];
      [by rewrite decide_True|]. rewrite decide_False by done. done.
Qed.

Lemma insert_page_total pages page :
  match insert_page pages page with
  | Ok _ => True
  | Err e => e = SegmentOverlapCapacityExceeded
  | Panic | Hang => False
  end.
Proof.
  induction pages as [|[q|] pages IH]; cbn; [done| |done].
  by destruct (insert_page pages page).
Qed.

Lemma find_virt pages v p : find pages v = Some p → virt_page p = v.
Proof.
  induction pages as [|[q|] pages IH]; cbn; [done| |done].
  destruct (Z.eqb_spec (virt_page q) v); [by intros [= <-]|done].
Qed.

Lemma find_new v : find UserPageMap_new v = None.
Proof. unfold UserPageMap_new. induction MAX_SEGMENT_PAGES; [done|]. cbn. done. Qed.

(** ** A program under construction *)

(** [K] is the walk of the kernel part, [img] what the pages hold so far. *)
Record built (s0 : Store) (T : Tables) (root : Z) (K : Z → option (nat * Z)) (pages : UserPageMap)
    (s : Store) (img : Z → option (bool * Z)) : Prop := {
  bu_tables : tables_ok T root s;
  bu_other : ∀ va, is_low va → find pages (page_base va) = None → leaf (memory s) root va = K va;
  bu_none : ∀ va, find pages (page_base va) = None → img va = None;
  bu_page : ∀ v p, find pages v = Some p → v mod PAGE_SIZE = 0 ∧ user_area v ∧ is_frame (phys_page p);
  bu_leaf : ∀ va p, find pages (page_base va) = Some p → ∃ f, is_flags f ∧
    has f PAGE_PRESENT = true ∧ has f PAGE_USER = true ∧
    leaf (memory s) root va = Some (0%nat, Z.lor (phys_page p) f) ∧
    img va = Some (has f PAGE_WRITABLE, memory s (phys_page p + (va - page_base va)));
  bu_distinct : pages_ok pages;
  bu_free : ∀ x, free_in s x → free_in s0 x;
  bu_new : ∀ x, in_tables T x → free_in s0 x;
  bu_behind : ∀ x, behind pages x → free_in s0 x ∧ ¬ free_in s x ∧ ¬ in_tables T x;
  bu_memory : ∀ x, ¬ free_in s0 x → memory s x = memory s0 x;
  bu_accounts : accounts [] s0 s
}.

Definition capacity_error (e : MemoryError) : Prop :=
  e = AllocatorExhausted ∨ e = OwnedPageCapacityExceeded ∨ e = SegmentOverlapCapacityExceeded.

(** A failure at any point: at most two pages, allocated but not yet
    recorded, are lost, and only for want of memory or of room in a table. *)
Record load_failed (s0 : Store) (e : MemoryError) (s : Store) : Prop := {
  lf_paged : paged (2 ^ 52) (allocator s);
  lf_memory : ∀ x, ¬ free_in s0 x → memory s x = memory s0 x;
  lf_lost : ∃ lost, accounts lost s0 s ∧
    (lost = [] ∨ capacity_error e ∧ (length lost ≤ 2)%nat)
}.

Lemma user_area_low va : user_area va → is_low va.
Proof. unfold user_area, is_low, USER_IMAGE_BASE, USER_STACK_TOP. lia. Qed.

Lemma user_area_page va : user_area va ↔ user_area (page_base va).
Proof.
  unfold user_area. rewrite (aligned_le USER_IMAGE_BASE va), (aligned_lt USER_STACK_TOP va) by done. done.
Qed.

(** A page that is recorded after it was used. *)
Lemma accounts_owned c s s1 s2 s3 :
  without c s s1 → owns [] s s1 → accounts [] s1 s2 → own_page s2 c = Ok s3 →
  tracks s = true → (∀ x, in_page c x → ¬ free_in s2 x) → accounts [] s s3.
Proof.
  intros Hw Ho [Ht2 H2] Hown Htr Hc. pose proof (wo_tracks _ _ _ Hw) as Ht1.
  assert (allocator s3 = allocator s2 ∧ tracks s3 = tracks s2 ∧ owns [c] s2 s3)
    as (Ha3 & Ht3 & Ho3 & Hfit3).
  { unfold own_page in Hown. unfold owns, tracks, owned_list, owned_fits in *. destruct (owned s2) as [o|] eqn:Hs2.
    2: { rewrite Ht1, Htr in Ht2. done. }
    apply bind_Ok in Hown as (o' & Ho' & [= <-]). cbn. unfold owned_push in Ho'.
    case_decide; [done|]. rewrite set_at_Ok in Ho' by lia. cbn in Ho'. injection Ho' as <-. cbn.
    rewrite Nat.add_1_r, take_insert_S, length_insert by lia. done || (split_and!; (done || lia)). }
  split; [congruence|]. intros _ Hok.
  destruct (accounts_leaked c s s1 Hw Ho) as [_ H1]. destruct (H1 Htr Hok) as [Hok1 Hx1].
  destruct (H2 ltac:(congruence) Hok1) as [[Hfs2 Hf2 Hn2] Hx2].
  destruct Ho as [Ho _]. rewrite app_nil_r in Ho.
  assert (∀ x, free_in s3 x ↔ free_in s2 x) as Hf3 by (intros x; unfold free_in; by rewrite Ha3).
  split.
  - split; [by apply Hfit3| |]; rewrite Ho3.
    + apply Forall_app. split; [done|]. constructor; [|done]. split; apply Hw.
    + intros x. rewrite in_pages_app, in_pages_one, Hf3. specialize (Hn2 x). specialize (Hc x). tauto.
  - intros x. unfold total at 1. rewrite Ho3, Hf3, in_pages_app, in_pages_one.
    specialize (Hx1 x). specialize (Hx2 x). unfold total in *. rewrite in_pages_one in Hx1.
    pose proof (in_pages_nil x) as Hnil. pose proof (wo_was _ _ _ Hw x) as Hwas. specialize (Hc x).
    assert (in_page c x ∨ ¬ in_page c x) as [Hd|Hd] by (unfold in_page; lia);
      revert Hx1 Hx2 Hnil Hwas Hc Hd; clear; generalize (in_page c x), (in_pages [] x),
      (in_pages (owned_list s2) x), (in_pages (owned_list s) x), (free_in s2 x), (free_in s1 x), (free_in s x);
      tauto.
Qed.

Lemma own_page_cases s c :
  match own_page s c with
  | Ok s' => allocator s' = allocator s ∧ memory s' = memory s
  | Err (e, s') => e = OwnedPageCapacityExceeded ∧ s' = s
  | Panic | Hang => False
  end.
Proof.
  unfold own_page. destruct (owned s) as [o|]; [|done]. unfold owned_push. case_decide; [done|].
  rewrite set_at_Ok by lia. done.
Qed.

(** ** Loading pages *)

Section Program.
Context {s0 : Store} {root : Z} {K : Z → option (nat * Z)}.
Context (Htr : tracks s0 = true).
Context (HK : ∀ va e, user_area va → K va ≠ Some (1%nat, e)).

Lemma built_tracks T pages s img : built s0 T root K pages s img → tracks s = true.
Proof. intros Hb. rewrite <-Htr. apply (bu_accounts _ _ _ _ _ _ _ Hb). Qed.

Lemma built_not_large T pages s img va :
  built s0 T root K pages s img → user_area va → find pages (page_base va) = None →
  not_large s root va.
Proof.
  intros Hb Hu Hn e. rewrite (bu_other _ _ _ _ _ _ _ Hb) by (done || by apply user_area_low).
  by apply HK.
Qed.

(** A failure after a page was taken and [lost] were not recorded. *)
Lemma failed_from T pages s img lost s' e :
  built s0 T root K pages s img → accounts lost s s' → paged (2 ^ 52) (allocator s') →
  (∀ x, ¬ in_tables T x → ¬ free_in s x → memory s' x = memory s x) →
  lost = [] ∨ capacity_error e ∧ (length lost ≤ 2)%nat → load_failed s0 e s'.
Proof.
  intros Hb Ha Hp Hm Hl. split; [done| |].
  - intros x Hx. rewrite <-(bu_memory _ _ _ _ _ _ _ Hb) by done. apply Hm.
    + by intros ?%(bu_new _ _ _ _ _ _ _ Hb).
    + by intros ?%(bu_free _ _ _ _ _ _ _ Hb).
  - exists lost. split; [|done]. apply (accounts_trans [] lost s0 s); [apply Hb|done].
Qed.

(** The image after a page has been added: zero there. *)
Definition add_page (virt : Z) (writable : bool) (img : Z → option (bool * Z)) : Z → option (bool * Z) :=
  λ va, if decide (page_base va = virt) then Some (writable, 0) else img va.

Lemma built_add_page T pages s img virt flags c s1 T2 s2 pages' s3 :
  built s0 T root K pages s img → find pages virt = None → virt mod PAGE_SIZE = 0 → user_area virt →
  is_flags flags → has flags PAGE_PRESENT = true → has flags PAGE_USER = true →
  without c s s1 → owned s1 = owned s → step T T2 root s s2 → step T T2 root s1 s2 → accounts [] s1 s2 →
  (∀ va, leaf (memory s2) root va =
    if decide (path va = path virt) then Some (0%nat, Z.lor c flags) else leaf (memory s) root va) →
  insert_page pages (mkUserPage virt c) = Ok pages' → own_page s2 c = Ok s3 →
  built s0 T2 root K pages' s3 (add_page virt (has flags PAGE_WRITABLE) img).
Proof.
  intros Hb Hn Hva Hu Hfl Hpr Hus Hw Ho Hst Hst1 Ha Hleaf Hi Hown.
  pose proof (built_tracks _ _ _ _ Hb) as Hts. pose proof Hb as [Hok Hother Hnone Hpage Hlf Hdist Hfree Hnew Hbeh Hmem Hacc].
  pose proof (own_page_cases s2 c) as Hcases. rewrite Hown in Hcases. destruct Hcases as [Hal Hme].
  assert (∀ x, free_in s3 x ↔ free_in s2 x) as Hf3 by (intros x; unfold free_in; by rewrite Hal).
  assert (∀ x, in_page c x → free_in s x ∧ ¬ in_tables T x ∧ ¬ free_in s1 x) as Hc.
  { intros x Hx. pose proof (wo_was _ _ _ Hw x Hx) as Hfx. split_and!; [done| |].
    - intros Ht. by eapply taken_tables.
    - rewrite (wo_free _ _ _ Hw). by intros [_ ?]. }
  assert (∀ x, in_page c x → memory s2 x = 0) as Hzero.
  { intros x Hx. destruct (Hc x Hx) as (_ & Ht & Hf). rewrite (st_memory _ _ _ _ _ Hst1), (wo_memory _ _ _ Hw) by done.
    unfold write_zeros. by rewrite decide_True. }
  assert (∀ x, behind pages x → memory s2 x = memory s x) as Hold.
  { intros x Hx. destruct (Hbeh x Hx) as (_ & Hf & Ht). by apply (st_memory _ _ _ _ _ Hst). }
  assert (∀ v, find pages' v = if decide (v = virt) then Some (mkUserPage virt c) else find pages v) as Hfind
    by (intros v; by apply (find_insert _ (mkUserPage virt c))).
  destruct (frame_tables T2 root s2 s3) as [Hok3 Hl3]; [by eapply st_ok|by rewrite Hme| |by intros x ?%Hf3|].
  { rewrite Hal. by eapply tb_alloc, st_ok. }
  assert (∀ va, is_low va → leaf (memory s3) root va =
    if decide (page_base va = virt) then Some (0%nat, Z.lor c flags) else leaf (memory s) root va) as Hleaf3.
  { intros va Hlow. rewrite Hl3, Hleaf. pose proof (path_page va virt Hlow (user_area_low _ Hu) Hva) as Hpp.
    by destruct (decide (path va = path virt)), (decide (page_base va = virt)); try tauto. }
  pose proof (wo_frame _ _ _ Hw) as Hcf.
  split.
  - done.
  - intros va Hlow. rewrite Hfind, Hleaf3 by done. case_decide; [done|]. by apply Hother.
  - intros va. unfold add_page. rewrite Hfind. case_decide; [done|]. by apply Hnone.
  - intros v p. rewrite Hfind. case_decide; [|by apply Hpage]. intros [= <-]. by subst v.
  - intros va p. rewrite Hfind. unfold add_page. case_decide as Hd.
    + intros [= <-]. exists flags. cbn [phys_page]. split_and!; [done..| |].
      * rewrite Hleaf3, decide_True by (done || (apply user_area_low, user_area_page; by rewrite Hd)). done.
      * rewrite Hme, Hzero; [done|]. pose proof (page_base_bounds va). unfold in_page. lia.
    + intros Hp. destruct (Hlf va p Hp) as (f & ? & ? & ? & Hle & ->). exists f. split_and!; [done..| |].
      * rewrite Hleaf3, decide_False by (done || (apply user_area_low, user_area_page; by eapply Hpage)). done.
      * rewrite Hme, Hold; [done|]. exists (page_base va), p. split; [done|].
        pose proof (page_base_bounds va). lia.
  - intros v1 v2 p1 p2. rewrite !Hfind.
    assert (∀ v p, find pages v = Some p → phys_page p + PAGE_SIZE ≤ c ∨ c + PAGE_SIZE ≤ phys_page p) as Hap.
    { intros v p Hp. destruct (Hpage v p Hp) as (_ & _ & Hpf).
      destruct (decide (phys_page p = c)) as [Heq|Hne].
      - exfalso. destruct (Hbeh c) as (_ & Hf & _); [exists v, p; split; [done|unfold PAGE_SIZE; lia]|].
        apply Hf, (wo_was _ _ _ Hw). unfold in_page, PAGE_SIZE. lia.
      - destruct Hpf as [_ Hm], Hcf as [_ Hcm]. unfold PAGE_SIZE. Z.div_mod_to_equations. lia. }
    repeat case_decide; intros H1 H2 Hne; simplify_eq; cbn; [| |by eapply Hdist].
    + apply or_comm. by eapply Hap.
    + by eapply Hap.
  - intros x ?%Hf3. by apply Hfree, (st_free _ _ _ _ _ Hst).
  - intros x [?|?]%(st_new _ _ _ _ _ Hst); [by apply Hnew|by apply Hfree].
  - intros x (v & p & Hp & Hx). rewrite Hfind in Hp. rewrite Hf3. case_decide.
    + injection Hp as <-. cbn in Hx. destruct (Hc x Hx) as (? & ? & ?). split_and!; [by apply Hfree| |].
      * by intros ?%(st_free _ _ _ _ _ Hst1).
      * by intros [?|?]%(st_new _ _ _ _ _ Hst1).
    + destruct (Hbeh x) as (? & ? & ?); [by exists v, p|]. split_and!; [done| |].
      * by intros ?%(st_free _ _ _ _ _ Hst).
      * by intros [?|?]%(st_new _ _ _ _ _ Hst).
  - intros x Hx. rewrite Hme, (st_memory _ _ _ _ _ Hst); [by apply Hmem| |].
    + by intros ?%Hnew.
    + by intros ?%Hfree.
  - apply (accounts_trans [] [] s0 s); [done|]. eapply (accounts_owned c s s1 s2); try done.
    + by apply owns_same.
    + intros x Hx. destruct (Hc x Hx) as (_ & _ & Hf). by intros ?%(st_free _ _ _ _ _ Hst1).
Qed.

(** Failing without a page in hand loses nothing. *)
Lemma failed_here T pages s img e : built s0 T root K pages s img → load_failed s0 e s.
Proof.
  intros Hb. apply (failed_from T pages s img [] s); [done|apply accounts_refl| |done|by left].
  eapply tb_alloc, (bu_tables _ _ _ _ _ _ _ Hb).
Qed.

Lemma load_page_spec T pages s img virt flags :
  built s0 T root K pages s img → find pages virt = None → virt mod PAGE_SIZE = 0 → user_area virt →
  is_flags flags → has flags PAGE_PRESENT = true → has flags PAGE_USER = true →
  match load_page root pages s virt flags with
  | Ok (pages', s') => ∃ T', built s0 T' root K pages' s' (add_page virt (has flags PAGE_WRITABLE) img) ∧
      ∀ v, v ≠ virt → find pages' v = find pages v
  | Err (e, s') => load_failed s0 e s'
  | Panic | Hang => False
  end.
Proof.
  intros Hb Hn Hva Hu Hfl Hpr Hus. unfold load_page.
  pose proof (bu_tables _ _ _ _ _ _ _ Hb) as Hok.
  pose proof (take_page_spec s (tb_alloc _ _ _ Hok)) as Ht.
  destruct (take_page s) as [[c s1]|[e s1]| |]; cbn [mbind outcome_bind]; try done;
    [|destruct Ht as [_ ->]; by eapply failed_here].
  destruct Ht as [Hw Ho]. destruct (step_without T root s c s1 Hok Hw) as [Hst1 Hl1].
  assert (accounts [c] s s1) as Hac by (apply accounts_leaked; [done|by apply owns_same]).
  assert (page_base virt = virt) as Hvb
    by (apply page_base_unique; [done|unfold PAGE_SIZE; lia]).
  assert (not_large s1 root virt) as Hnl.
  { apply (not_large_same root s s1 virt Hl1).
    eapply built_not_large; [done|done|]. by rewrite Hvb. }
  pose proof (map_4k_spec T root s1 virt c flags (st_ok _ _ _ _ _ Hst1) Hva (wo_frame _ _ _ Hw) Hfl Hpr Hnl) as Hm.
  destruct (map_4k root s1 virt c flags) as [s2|[e s2]| |]; cbn [mbind outcome_bind]; try done.
  2: { destruct Hm as (T' & lost & Hst2 & _ & Ha2 & He).
    apply (failed_from T pages s img ([c] ++ lost) s2); [done|by eapply accounts_trans| | |right].
    - eapply tb_alloc, st_ok. exact Hst2.
    - apply (st_memory T T' root). by eapply step_trans.
    - unfold capacity_error. destruct He as [[-> ->]|(-> & _ & Hlen)]; cbn; (split; [auto|lia]). }
  destruct Hm as (T2 & Hst2 & Ha2 & Hleaf2).
  assert (step T T2 root s s2) as Hst by (by eapply step_trans).
  assert (load_failed s0 SegmentOverlapCapacityExceeded s2 ∧ load_failed s0 OwnedPageCapacityExceeded s2) as [Hf1 Hf2].
  { split; (apply (failed_from T pages s img ([c] ++ []) s2); [done|by eapply accounts_trans| | |right]);
      try (by eapply tb_alloc, st_ok); try (by apply (st_memory T T2 root)); unfold capacity_error; cbn; auto. }
  pose proof (insert_page_total pages (mkUserPage virt c)) as Hi.
  destruct (insert_page pages (mkUserPage virt c)) as [pages'|e| |] eqn:Hins;
    unfold lift; cbn [map_err mbind outcome_bind id]; [|by subst e|done..].
  pose proof (own_page_cases s2 c) as Hcs.
  destruct (own_page s2 c) as [s3|[e s3]| |] eqn:Hown; cbn [mbind outcome_bind]; [|by destruct Hcs as [-> ->]|done..].
  exists T2. split.
  - eapply built_add_page; try done. intros va. by rewrite Hleaf2, Hl1.
  - intros v Hne. rewrite (find_insert _ _ _ v Hins Hn). by rewrite decide_False.
Qed.

(** The image after the pages of a range have been added. *)
Definition fill (lo hi : Z) (writable : bool) (img : Z → option (bool * Z)) : Z → option (bool * Z) :=
  λ va, if decide (lo ≤ va < hi) then Some (default (writable, 0) (img va)) else img va.

Lemma built_ext T pages s img img' :
  built s0 T root K pages s img → (∀ va, img' va = img va) → built s0 T root K pages s img'.
Proof.
  intros [? ? Hn ? Hl ? ? ? ? ? ?] He. split; try done.
  - intros va Hf. rewrite He. by apply Hn.
  - intros va p Hp. rewrite He. by apply Hl.
Qed.

Lemma built_found T pages s img va :
  built s0 T root K pages s img → is_Some (find pages (page_base va)) ↔ is_Some (img va).
Proof.
  intros Hb. destruct (find pages (page_base va)) as [p|] eqn:Hf.
  - destruct (bu_leaf _ _ _ _ _ _ _ Hb va p Hf) as (f & _ & _ & _ & _ & ->). split; by eexists.
  - by rewrite (bu_none _ _ _ _ _ _ _ Hb va Hf).
Qed.

Lemma map_contains_spec pages v : if map_contains pages v then is_Some (find pages v) else find pages v = None.
Proof. unfold map_contains. destruct (find pages v); [by eexists|done]. Qed.

Lemma load_pages_spec T pages s img lo hi flags :
  built s0 T root K pages s img → lo mod PAGE_SIZE = 0 → hi mod PAGE_SIZE = 0 →
  USER_IMAGE_BASE ≤ lo → lo ≤ hi → hi ≤ USER_STACK_TOP →
  is_flags flags → has flags PAGE_PRESENT = true → has flags PAGE_USER = true →
  match load_pages root pages s lo hi flags with
  | Ok (pages', s') => ∃ T', built s0 T' root K pages' s' (fill lo hi (has flags PAGE_WRITABLE) img)
  | Err (e, s') => load_failed s0 e s'
  | Panic | Hang => False
  end.
Proof.
  intros Hb Hlo Hhi H1 H2 H3 Hfl Hpr Hus. unfold load_pages.
  set (w := has flags PAGE_WRITABLE). assert (0 < PAGE_SIZE) as HP by done.
  apply (while_rule
    (λ '(virt, pages', s'), (lo ≤ virt ≤ hi ∧ virt mod PAGE_SIZE = 0) ∧
      ∃ T', built s0 T' root K pages' s' (fill lo virt w img))
    (λ '(virt, _, _), Z.to_nat ((hi - virt) / PAGE_SIZE))
    (λ o, match o with
          | Ok (pages', s') => ∃ T', built s0 T' root K pages' s' (fill lo hi w img)
          | Err (e, s') => load_failed s0 e s'
          | Panic | Hang => False end)); [| |lia].
  2: { split; [lia|]. exists T. eapply built_ext; [done|]. intros va. unfold fill. by rewrite decide_False by lia. }
  intros [[virt pages'] s'] ((Hv & Hvm) & T' & Hb'). case_decide as Hlt.
  2: { assert (virt = hi) as -> by lia. by exists T'. }
  assert (user_area virt) as Hu by (unfold user_area; lia).
  assert (virt + PAGE_SIZE ≤ hi) as Hroom by (unfold PAGE_SIZE in *; Z.div_mod_to_equations; lia).
  assert (lo ≤ virt + PAGE_SIZE ≤ hi ∧ (virt + PAGE_SIZE) mod PAGE_SIZE = 0) as Hnext
    by (unfold PAGE_SIZE in *; split; [lia|Z.div_mod_to_equations; lia]).
  assert (∀ x, page_base x = virt ↔ virt ≤ x < virt + PAGE_SIZE) as Hin.
  { intros x. split; [intros <-; apply page_base_bounds|by apply page_base_unique]. }
  assert (Z.to_nat ((hi - (virt + PAGE_SIZE)) / PAGE_SIZE) < Z.to_nat ((hi - virt) / PAGE_SIZE))%nat as Hdec
    by (unfold PAGE_SIZE in *; Z.div_mod_to_equations; lia).
  pose proof (map_contains_spec pages' virt) as Hc. destruct (map_contains pages' virt).
  - cbn [mbind outcome_bind]. split; [|done]. split; [done|]. exists T'. eapply built_ext; [done|].
    intros va. unfold fill. repeat case_decide; try lia; [done| |done].
    assert (page_base va = virt) as Hpb by (apply Hin; lia). rewrite <-Hpb in Hc.
    apply (built_found _ _ _ _ _ Hb') in Hc as [y Hy]. unfold fill in Hy. rewrite decide_False in Hy by lia.
    by rewrite Hy.
  - pose proof (load_page_spec T' pages' s' _ virt flags Hb' Hc Hvm Hu Hfl Hpr Hus) as Hp.
    destruct (load_page root pages' s' virt flags) as [[pages2 s2]|[e s2]| |]; cbn [mbind outcome_bind]; try done.
    destruct Hp as (T2 & Hb2 & _). split; [|done]. split; [done|]. exists T2. eapply built_ext; [done|].
    intros va. unfold add_page. fold w. specialize (Hin va).
    destruct (decide (page_base va = virt)) as [Hd|Hd]; unfold fill; [|repeat case_decide; done || lia].
    rewrite decide_True by lia. rewrite <-Hd in Hc.
    apply (bu_none _ _ _ _ _ _ _ Hb') in Hc. unfold fill in Hc. rewrite decide_False in Hc by lia. by rewrite Hc.
Qed.

(** ** Writing through the page map *)

Lemma user_view_image T pages s img va :
  built s0 T root K pages s img → user_view pages (memory s) va = snd <$> img va.
Proof.
  intros Hb. unfold user_view. destruct (find pages (page_base va)) as [p|] eqn:Hf.
  - destruct (bu_leaf _ _ _ _ _ _ _ Hb va p Hf) as (f & _ & _ & _ & _ & ->). done.
  - by rewrite (bu_none _ _ _ _ _ _ _ Hb va Hf).
Qed.

(** The image with its bytes read again. *)
Definition overlay (img : Z → option (bool * Z)) (view : View) : Z → option (bool * Z) :=
  λ va, '(w, _) ← img va; b ← view va; Some (w, b).

Lemma built_write T pages s img m :
  built s0 T root K pages s img → (∀ x, ¬ behind pages x → m x = memory s x) →
  built s0 T root K pages (with_memory m s) (overlay img (user_view pages m)).
Proof.
  intros [Hok Ho Hn Hp Hl Hd Hf Hnew Hb Hm Ha] Hx.
  destruct (frame_tables T root s (with_memory m s) Hok) as [Hok' Hl'].
  { intros x Ht. apply Hx. intros ?%Hb. naive_solver. }
  { exact (tb_alloc _ _ _ Hok). }
  { done. }
  split; try done.
  - intros va Hlow Hnone. rewrite Hl'. by apply Ho.
  - intros va Hnone. unfold overlay. by rewrite Hn.
  - intros va p Hq. destruct (Hl va p Hq) as (f & ? & ? & ? & Hle & Him). exists f.
    split_and!; [done..|by rewrite Hl'|]. unfold overlay, user_view. by rewrite Him, Hq.
  - intros x Hfree. cbn. rewrite Hx; [by apply Hm|]. by intros [? _]%Hb.
  - apply (accounts_trans [] [] s0 s); [done|apply accounts_memory].
Qed.

(** [bytes] placed at [start] in the image. *)
Definition place (start : Z) (bytes : list Z) (img : Z → option (bool * Z)) : Z → option (bool * Z) :=
  λ va, if decide (start ≤ va < start + Z.of_nat (length bytes))
        then '(w, _) ← img va; Some (w, default 0 (bytes !! Z.to_nat (va - start))) else img va.

Lemma copy_spec T pages s img start bytes :
  built s0 T root K pages s img → 0 ≤ start → start + Z.of_nat (length bytes) ≤ 2 ^ 64 →
  (∀ va, start ≤ va < start + Z.of_nat (length bytes) → is_Some (img va)) →
  ∃ m, copy_into pages (memory s) start bytes = Ok m ∧
    built s0 T root K pages (with_memory m s) (place start bytes img).
Proof.
  intros Hb H0 H64 Him.
  destruct (copy_into_spec pages (memory s) start bytes) as (m & Hm & Hview & Hframe);
    [by eapply bu_distinct|done|done|intros va Hva; by apply (built_found _ _ _ _ _ Hb), Him|].
  exists m. split; [done|]. eapply built_ext; [by apply built_write|]. intros va. unfold place, overlay.
  rewrite Hview, (user_view_image _ _ _ _ va Hb). by destruct (img va) as [[w b]|]; repeat case_decide.
Qed.

(** ** Segments *)

Lemma page_flags_ok h :
  is_flags (page_flags h) ∧ has (page_flags h) PAGE_PRESENT = true ∧ has (page_flags h) PAGE_USER = true ∧
  has (page_flags h) PAGE_WRITABLE = negb (Z.land (flags h) PF_W =? 0).
Proof. unfold page_flags. destruct (negb _); (split; [apply is_flags_small; split; by vm_compute|done]). Qed.

Lemma page_align v :
  is_u64 (v + PAGE_SIZE) → 0 ≤ v → let lo := align_down v PAGE_SIZE in let hi := align_up v PAGE_SIZE in
  lo ≤ v < lo + PAGE_SIZE ∧ v ≤ hi < v + PAGE_SIZE ∧ lo mod PAGE_SIZE = 0 ∧ hi mod PAGE_SIZE = 0.
Proof.
  intros Hu H0. cbv zeta. unfold is_u64, PAGE_SIZE in *. change 4096 with (2 ^ 12) in *.
  rewrite align_down_pow2, align_up_pow2 by (unfold is_u64; lia). change (2 ^ 12) with 4096 in *.
  split_and!; try (by apply Z.mod_mul); Z.div_mod_to_equations; lia.
Qed.

Lemma load_segment_spec T pages s img file h :
  built s0 T root K pages s img → header_fits h →
  match load_segment root file (pages, s) (Ok h) with
  | Ok (pages', s') => (∃ T', built s0 T' root K pages' s' (λ va, segment_byte file h va (img va))) ∧
      ∀ va o, USER_STACK_BASE ≤ va → segment_byte file h va o = o
  | Err (e, s') => load_failed s0 e s'
  | Panic | Hang => False
  end.
Proof.
  intros Hb (_ & _ & Hoff & Hva & _ & Hfs & Hms). unfold load_segment, lift. cbn [map_err mbind outcome_bind].
  case_decide as Hk.
  { unfold segment_byte. split; [|intros; by rewrite decide_True].
    exists T. eapply built_ext; [done|]. intros va. by rewrite decide_True. }
  unfold is_u64 in *.
  destruct (checked_add (virtual_address h) (memory_size h)) as [e|] eqn:He;
    cbn [ok_or map_err mbind outcome_bind]; [|by eapply failed_here].
  apply checked_add_Some in He as [-> He]. case_decide as Hr; [by eapply failed_here|].
  assert (USER_IMAGE_BASE ≤ virtual_address h ∧ virtual_address h + memory_size h ≤ USER_STACK_BASE ∧
    file_size h ≤ memory_size h) as (H1 & H2 & H3) by lia. clear Hr.
  assert (USER_IMAGE_BASE = 0x400000 ∧ USER_STACK_BASE = 0x7f0000 ∧ USER_STACK_TOP = 0x800000) as (EB & ES & ET) by done.
  destruct (page_align (virtual_address h)) as (Hlo & _ & Hlom & _); [unfold is_u64, PAGE_SIZE; lia|lia|].
  destruct (page_align (virtual_address h + memory_size h)) as (_ & Hhi & _ & Hhim); [unfold is_u64, PAGE_SIZE; lia|lia|].
  assert (align_up (virtual_address h + memory_size h) PAGE_SIZE ≤ USER_STACK_BASE) as Hhis.
  { revert Hhi Hhim H2. generalize (align_up (virtual_address h + memory_size h) PAGE_SIZE). rewrite ES. unfold PAGE_SIZE.
    intros x ? ? ?. Z.div_mod_to_equations. lia. }
  assert (USER_IMAGE_BASE ≤ align_down (virtual_address h) PAGE_SIZE) as Hlob.
  { revert Hlo Hlom H1. generalize (align_down (virtual_address h) PAGE_SIZE). rewrite EB. unfold PAGE_SIZE.
    intros x ? ? ?. Z.div_mod_to_equations. lia. }
  destruct (page_flags_ok h) as (Hfl & Hpr & Hus & Hwr).
  pose proof (load_pages_spec T pages s img _ _ (page_flags h) Hb Hlom Hhim Hlob ltac:(lia) ltac:(lia) Hfl Hpr Hus) as Hp.
  destruct (load_pages _ _ _ _ _ _) as [[pages1 s1]|[e s1]| |]; cbn [mbind outcome_bind]; try done.
  destruct Hp as (T1 & Hb1). unfold file_range.
  destruct (checked_add (offset h) (file_size h)) as [fe|] eqn:Hfe;
    cbn [ok_or map_err mbind outcome_bind]; [|by eapply failed_here].
  apply checked_add_Some in Hfe as [-> Hfe]. case_decide as Hend; cbn [map_err mbind outcome_bind]; [by eapply failed_here|].
  rewrite slice_Ok by lia. cbn [mbind outcome_bind].
  set (bytes := sub file _ _).
  assert (Z.of_nat (length bytes) = file_size h) as Hlen by (unfold bytes; rewrite length_sub by lia; lia).
  destruct (copy_spec T1 pages1 s1 _ (virtual_address h) bytes Hb1) as (m & -> & Hb2); [lia|lia| |].
  { intros va Hin. unfold fill. rewrite decide_True by lia. by eexists. }
  cbn [map_err mbind outcome_bind]. split.
  2: { intros va o Hin. unfold segment_byte. case_decide; [done|].
    rewrite !decide_False by (unfold covers_page, in_file; lia). done. }
  exists T1. eapply built_ext; [done|]. intros va.
  unfold segment_byte, place. rewrite (decide_False (P:=kind h ≠ PT_LOAD)) by (intros Hne; by apply Hne). rewrite Hlen.
  fold (in_file h va). unfold fill. rewrite Hwr. fold (covers_page h va).
  destruct (decide (in_file h va)) as [Hin|Hin]; [|done].
  assert (is_Some (file !! Z.to_nat (offset h + (va - virtual_address h)))) as [b Hbyte]
    by (apply lookup_lt_is_Some; unfold in_file in Hin; lia).
  assert (bytes !! Z.to_nat (va - virtual_address h) = Some b) as ->.
  { unfold bytes, in_file in *. rewrite lookup_sub by lia. rewrite <-Hbyte. f_equal. lia. }
  rewrite Hbyte. by destruct (if decide (covers_page h va) then _ else _) as [[w b']|].
Qed.

Lemma load_segments_spec T pages s file rs seen :
  built s0 T root K pages s (segments_byte file seen) →
  (∀ va, USER_STACK_BASE ≤ va → segments_byte file seen va = None) →
  Forall (λ r, match r with Ok h => header_fits h | Err _ => True | _ => False end) rs →
  match for_each (load_segment root file) (pages, s) rs with
  | Ok (pages', s') => ∃ T' hs, rs = map Ok hs ∧
      built s0 T' root K pages' s' (segments_byte file (seen ++ hs)) ∧
      ∀ va, USER_STACK_BASE ≤ va → segments_byte file (seen ++ hs) va = None
  | Err (e, s') => load_failed s0 e s'
  | Panic | Hang => False
  end.
Proof.
  revert T pages s seen. induction rs as [|r rs IH]; intros T pages s seen Hb Hs Hf; cbn [for_each].
  { exists T, []. by rewrite app_nil_r. }
  apply Forall_cons in Hf as [Hr Hf]. destruct r as [h|e| |]; try done.
  2: { cbn [load_segment lift map_err mbind outcome_bind]. by eapply failed_here. }
  pose proof (load_segment_spec T pages s _ file h Hb Hr) as H.
  destruct (load_segment root file (pages, s) (Ok h)) as [[pages1 s1]|[e s1]| |]; cbn [mbind outcome_bind]; try done.
  destruct H as ((T1 & Hb1) & Hs1).
  assert (∀ va, segments_byte file (seen ++ [h]) va = segment_byte file h va (segments_byte file seen va)) as He
    by (intros va; unfold segments_byte; by rewrite foldl_app).
  specialize (IH T1 pages1 s1 (seen ++ [h]) (built_ext _ _ _ _ _ Hb1 He)).
  lapply IH; [clear IH; intros IH; specialize (IH Hf)|intros va Hva; by rewrite He, Hs1, Hs].
  destruct (for_each _ _ _) as [[pages2 s2]|[e s2]| |]; try done.
  destruct IH as (T2 & hs & -> & Hb2). exists T2, (h :: hs). by rewrite <-app_assoc in Hb2.
Qed.

(** ** The stack *)

Lemma load_stack_spec T pages s img :
  built s0 T root K pages s img → (∀ va, USER_STACK_BASE ≤ va → img va = None) →
  match load_stack root pages s with
  | Ok (pages', s') => ∃ T', built s0 T' root K pages' s' (fill USER_STACK_BASE USER_STACK_TOP true img)
  | Err (e, s') => load_failed s0 e s'
  | Panic | Hang => False
  end.
Proof.
  intros Hb Hnone. unfold load_stack. assert (PAGE_SIZE = 4096 ∧ USER_STACK_BASE = 0x7f0000 ∧ USER_STACK_TOP = 0x800000
    ∧ USER_IMAGE_BASE = 0x400000) as (EP & ES & ET & EB) by done.
  set (flags := Z.lor (Z.lor PAGE_PRESENT PAGE_WRITABLE) PAGE_USER).
  apply (while_rule
    (λ '(page, pages', s'), (USER_STACK_BASE ≤ page ≤ USER_STACK_TOP ∧ page mod PAGE_SIZE = 0) ∧
      ∃ T', built s0 T' root K pages' s' (fill USER_STACK_BASE page true img))
    (λ '(page, _, _), Z.to_nat ((USER_STACK_TOP - page) / PAGE_SIZE))
    (λ o, match o with
          | Ok (pages', s') => ∃ T', built s0 T' root K pages' s' (fill USER_STACK_BASE USER_STACK_TOP true img)
          | Err (e, s') => load_failed s0 e s'
          | Panic | Hang => False end)); [| |by vm_compute; lia].
  2: { split; [done|]. exists T. eapply built_ext; [done|]. intros va. unfold fill. by rewrite decide_False by lia. }
  intros [[page pages'] s'] ((Hp & Hpm) & T' & Hb'). case_decide as Hlt.
  2: { assert (page = USER_STACK_TOP) as -> by lia. by exists T'. }
  assert (page_base page = page) as Hpb by (apply page_base_unique; [done|lia]).
  assert (find pages' page = None) as Hn.
  { destruct (find pages' page) eqn:Hf; [|done]. exfalso.
    assert (is_Some (find pages' (page_base page))) as Hs by (rewrite Hpb, Hf; by eexists).
    apply (built_found _ _ _ _ _ Hb') in Hs as [y Hy]. unfold fill in Hy.
    rewrite decide_False, Hnone in Hy by lia. done. }
  assert (∀ x, page_base x = page ↔ page ≤ x < page + PAGE_SIZE) as Hin.
  { intros x. split; [intros <-; apply page_base_bounds|by apply page_base_unique]. }
  pose proof (load_page_spec T' pages' s' _ page flags Hb' Hn Hpm ltac:(unfold user_area; lia)
    ltac:(apply is_flags_small; split; by vm_compute) eq_refl eq_refl) as H.
  destruct (load_page root pages' s' page flags) as [[pages2 s2]|[e s2]| |]; cbn [mbind outcome_bind]; try done.
  destruct H as (T2 & Hb2 & _). split.
  - split; [rewrite EP, ES, ET in *; split; [|Z.div_mod_to_equations; lia]; Z.div_mod_to_equations; lia|].
    exists T2. eapply built_ext; [done|]. intros va. specialize (Hin va). unfold add_page, fill.
    change (has flags PAGE_WRITABLE) with true.
    repeat case_decide; try tauto; try lia; try done. rewrite Hnone by lia. done.
  - rewrite EP in *. Z.div_mod_to_equations. lia.
Qed.

End Program.

(** ** The whole program *)

(** What a program with arguments [arguments] finds when it is started on the
    block at [stack_top]. *)
Definition receives (view : View) (stack_top : Z) (arguments : list (list Z)) : Prop :=
  ∀ fuel, (Z.to_nat (USER_STACK_TOP - USER_STACK_BASE) ≤ fuel)%nat →
    (a ← initialize view stack_top; collect_args fuel view a) = Ok arguments.

Definition startup_fits (a0 : list Z) (extra : list (list Z)) : Prop :=
  valid_argument a0 ∧ Forall (λ a, valid_argument a ∧ a ≠ []) extra ∧
  (length (a0 :: extra) ≤ MAX_STARTUP_ARGS)%nat ∧
  startup_size (a0 :: extra) ≤ USER_STACK_TOP - USER_STACK_BASE.

(** The program is built: its image is that of the file below the startup
    block, and the block says what it should. *)
Record program_built (s0 : Store) (st : MemoryState) (file : list Z) (hs : list ProgramHeader)
    (startup : ProgramStartup) (root stack_top : Z) (T : Tables) (pages : UserPageMap) (s : Store)
    (img : Z → option (bool * Z)) : Prop := {
  pb_built : built s0 T root (kernel_leaf (phys_window_end st) (extra_ranges st)) pages s img;
  pb_top : USER_STACK_BASE ≤ stack_top < USER_STACK_TOP;
  pb_writable : ∀ va, fst <$> img va = fst <$> program_byte file hs va;
  pb_bytes : ∀ va, va < stack_top → img va = program_byte file hs va;
  pb_arguments : ∀ a0 extra view, startup = mkStartup a0 (encode_tail extra) → startup_fits a0 extra →
    (∀ va, view va = snd <$> img va) → stack_top mod 16 = 0 ∧ receives view stack_top (a0 :: extra)
}.

Lemma program_byte_fill file hs va :
  (∀ va, USER_STACK_BASE ≤ va → segments_byte file hs va = None) →
  fill USER_STACK_BASE USER_STACK_TOP true (segments_byte file hs) va = program_byte file hs va.
Proof.
  intros Hn. unfold fill, program_byte. case_decide; [|done]. by rewrite Hn by lia.
Qed.

Lemma write_startup_image s0 st file hs startup root T pages s img :
  built s0 T root (kernel_leaf (phys_window_end st) (extra_ranges st)) pages s img →
  (∀ va, img va = program_byte file hs va) →
  match write_startup_arguments pages (memory s) startup with
  | Ok (stack_top, m) => ∃ img',
      program_built s0 st file hs startup root stack_top T pages (with_memory m s) img'
  | Err _ => True
  | Panic | Hang => False
  end.
Proof.
  intros Hb Him. pose proof (bu_distinct _ _ _ _ _ _ _ Hb) as Hok.
  assert (mapped pages USER_STACK_BASE USER_STACK_TOP) as Hmap.
  { intros va Hva. apply (built_found _ _ _ _ _ Hb). rewrite Him. unfold program_byte.
    rewrite decide_True by done. by eexists. }
  pose proof (write_startup_total pages Hok Hmap (memory s) startup) as H.
  destruct (write_startup_arguments _ _ _) as [[stack_top m]|e| |] eqn:Hw; try done.
  destruct H as (Hst & Hframe & Hview). exists (overlay img (user_view pages m)).
  assert (∀ va, is_Some (user_view pages m va) ↔ is_Some (img va)) as Hsome.
  { intros va. rewrite <-(built_found _ _ _ _ _ Hb). unfold user_view.
    destruct (find pages (page_base va)); cbn; split; intros [? ?]; done || by eexists. }
  split; [by apply built_write|done| | |].
  - intros va. rewrite <-Him. unfold overlay. specialize (Hsome va).
    destruct (img va) as [[w b]|]; [|done]. cbn. destruct (proj2 Hsome) as [b' ->]; [by eexists|done].
  - intros va Hva. rewrite <-Him. unfold overlay. rewrite Hview, (user_view_image _ _ _ _ va Hb) by auto.
    by destruct (img va) as [[w b]|].
  - intros a0 extra view -> (H1 & H2 & H3 & H4) Hv.
    split; [|intros fuel Hfuel];
      destruct (program_receives_arguments pages (memory s) a0 extra
                  (Z.to_nat (USER_STACK_TOP - USER_STACK_BASE))) as (st1 & m1 & Hw1 & _ & _ & H16 & _); try done;
      rewrite Hw in Hw1; injection Hw1 as -> ->; [done|].
    destruct (program_receives_arguments pages (memory s) a0 extra fuel) as (st2 & m2 & Hw2 & Hr & _); try done.
    rewrite Hw in Hw2. injection Hw2 as -> ->. apply Hr. intros va. rewrite Hv. unfold overlay.
    specialize (Hsome va). destruct (user_view pages m2 va) as [b|]; cbn.
    + destruct (proj1 Hsome) as [[w b'] ->]; [by eexists|done].
    + destruct (img va) as [[w b]|]; [|done]. destruct (proj2 Hsome) as [? ?]; [by eexists|done].
Qed.

(** The kernel part of the space, before any page of the program. *)
Lemma built_start st s root s1 T s2 file :
  without root s s1 → accounts [] s s1 →
  kernel_part (phys_window_end st) (extra_ranges st) {[ [] := root ]} root s1 T s2 →
  built s T root (kernel_leaf (phys_window_end st) (extra_ranges st)) UserPageMap_new s2
    (segments_byte file []).
Proof.
  intros Hw Ha1 (Hst & Ha2 & Hleaf).
  assert (∀ x, in_tables {[ [] := root ]} x → free_in s x) as Hroot.
  { intros x (p & t & [<- <-]%lookup_singleton_Some & Hx). by apply (wo_was _ _ _ Hw). }
  assert (∀ x, free_in s1 x → free_in s x) as Hf1 by (intros x ?%(wo_free _ _ _ Hw); tauto).
  assert (∀ v, find UserPageMap_new v = None) as Hnew by apply find_new.
  split.
  - by eapply st_ok.
  - intros va Hva _. by apply Hleaf.
  - done.
  - intros v p. by rewrite Hnew.
  - intros va p. by rewrite Hnew.
  - intros v1 v2 p1 p2. by rewrite Hnew.
  - intros x ?%(st_free _ _ _ _ _ Hst). by apply Hf1.
  - intros x [?|?]%(st_new _ _ _ _ _ Hst); [by apply Hroot|by apply Hf1].
  - intros x (v & p & Hp & _). by rewrite Hnew in Hp.
  - intros x Hx. rewrite (st_memory _ _ _ _ _ Hst); [by eapply without_memory| |].
    + by intros ?%Hroot.
    + by intros ?%Hf1.
  - by apply (accounts_trans [] [] s s1).
Qed.

Lemma build_program_spec st s image file startup :
  config_ok st → paged (2 ^ 52) (allocator s) → tracks s = true →
  ElfImage_parse file = Ok image → bytes_ok file →
  match build_program st s image file startup with
  | Ok (root, stack_top, s') => ∃ hs T pages img, headers_of image = map Ok hs ∧
      program_built s st file hs startup root stack_top T pages s' img
  | Err (e, s') => load_failed s e s'
  | Panic | Hang => False
  end.
Proof.
  intros Hcf Hp Htr Himage Hfile. unfold build_program. rewrite acquire_bind.
  pose proof (acquire_spec s Hp) as Ha.
  destruct (acquire s) as [[root s1]|[e s1]| |]; cbn [mbind outcome_bind]; try done.
  2: { destruct Ha as [[-> ->]|(-> & _ & c & Hw & Ho)].
    - split; [done|done|]. exists []. split; [apply accounts_refl|by left].
    - split; [apply Hw|intros x Hx; by eapply without_memory|]. exists [c].
      split; [by apply accounts_leaked|right; split; [right; by left|cbn; lia]]. }
  destruct Ha as [Hw Ho]. pose proof (accounts_acquired _ _ _ Hw Ho) as Hac.
  destruct (fresh_root _ _ _ Hw) as [Hok Hl].
  pose proof (shared_context_spec st root s1 Hcf Hok Hl) as Hk.
  destruct (map_shared_kernel_context st root s1) as [s2|[e s2]| |]; cbn [mbind outcome_bind]; try done.
  2: { destruct Hk as (T & lost & Hst & Ha2 & He). split; [by eapply tb_alloc, st_ok| |].
    - intros x Hx. rewrite (st_memory _ _ _ _ _ Hst); [by eapply without_memory| |].
      + intros (p & t & [<- <-]%lookup_singleton_Some & Hin). by apply Hx, (wo_was _ _ _ Hw).
      + intros [? _]%(wo_free _ _ _ Hw). done.
    - exists lost. split; [by apply (accounts_trans [] lost s s1)|].
      unfold capacity_error. destruct He as [[-> ->]|(-> & _ & Hlen)]; [by left|right; split; [auto|lia]]. }
  destruct Hk as (T & Hk). pose proof (built_start st s root s1 T s2 file Hw Hac Hk) as Hb.
  assert (∀ va e, user_area va → kernel_leaf (phys_window_end st) (extra_ranges st) va ≠ Some (1%nat, e)) as HK.
  { intros va e Hva. apply kernel_leaf_outside. unfold in_window, user_area, PHYS_WINDOW_START, USER_STACK_TOP in *. lia. }
  pose proof (load_segments_spec Htr HK T _ s2 file (headers_of image) [] Hb) as Hs.
  lapply Hs; [clear Hs; intros Hs|done]. lapply Hs; [clear Hs; intros Hs|].
  2: { apply Forall_forall. intros r Hr. by eapply headers_of_fit. }
  destruct (for_each _ _ _) as [[pages3 s3]|[e s3]| |]; cbn [mbind outcome_bind]; try done.
  destruct Hs as (T3 & hs & Hhs & Hb3 & Hn). cbn [app] in *.
  pose proof (load_stack_spec Htr HK T3 pages3 s3 _ Hb3 Hn) as Hst.
  destruct (load_stack root pages3 s3) as [[pages4 s4]|[e s4]| |]; cbn [mbind outcome_bind]; try done.
  destruct Hst as (T4 & Hb4). apply (built_ext _ _ _ _ (program_byte file hs)) in Hb4;
    [|intros va; symmetry; by apply program_byte_fill].
  pose proof (write_startup_image s st file hs startup root T4 pages4 s4 _ Hb4 ltac:(done)) as Hws.
  destruct (write_startup_arguments pages4 (memory s4) startup) as [[stack_top m]|e| |];
    unfold lift; cbn [map_err mbind outcome_bind]; try done; [|by eapply failed_here].
  destruct Hws as (img & Hpb). by exists hs, T4, pages4, img.
Qed.

(** ** Releasing the pages *)

(** Part of the memory in [free'] is enough to fill the array of ranges. *)
Definition ranges_exhausted (free' : Z → Prop) : Prop :=
  ∃ a, paged (2 ^ 52) a ∧ count a = MAX_FREE_RANGES ∧ ∀ x, free a x → free' x.

Lemma free_one a page :
  paged (2 ^ 52) a → is_frame page → 0 < page →
  match free_contiguous_pages a page 1 with
  | Ok a' => paged (2 ^ 52) a' ∧ ∀ x, free a' x ↔ in_page page x ∨ free a x
  | Panic => count a = MAX_FREE_RANGES
  | Err _ | Hang => False
  end.
Proof.
  intros Hp [Hb Hm] H0.
  assert (page + 1 * PAGE_SIZE ≤ 2 ^ 52) as He
    by (change (2 ^ 52) with 4503599627370496 in *; unfold PAGE_SIZE; Z.div_mod_to_equations; lia).
  pose proof (free_pages_spec (2 ^ 52) a page 1 Hp Hm H0 ltac:(lia) He ltac:(lia)) as H.
  destruct (free_contiguous_pages a page 1); try done.
Qed.

Lemma release_spec o a :
  paged (2 ^ 52) a → (owned_len o ≤ length (pages o))%nat →
  Forall (λ p, is_frame p ∧ 0 < p) (take (owned_len o) (pages o)) →
  let back x := free a x ∨ in_pages (take (owned_len o) (pages o)) x in
  match owned_release o a with
  | Ok a' => paged (2 ^ 52) a' ∧ ∀ x, free a' x ↔ back x
  | Panic => ranges_exhausted back
  | Err _ | Hang => False
  end.
Proof.
  intros Hp Hlen Hf back. set (n := owned_len o) in *. set (l := pages o) in *. unfold owned_release. fold n l.
  apply (while_rule
    (λ '(i, a'), (i ≤ n)%nat ∧ paged (2 ^ 52) a' ∧ ∀ x, free a' x ↔ free a x ∨ in_pages (take i l) x)
    (λ '(i, _), n - i)%nat
    (λ r, match r with
          | Ok a' => paged (2 ^ 52) a' ∧ ∀ x, free a' x ↔ back x
          | Panic => ranges_exhausted back
          | Err _ | Hang => False end)); [| |lia].
  2: { split_and!; [lia|done|]. intros x. rewrite take_0. pose proof (in_pages_nil x). tauto. }
  intros [i a'] (Hi & Hp' & Hx). case_decide as Hlt.
  2: { assert (i = n) as -> by lia. by split. }
  destruct (lookup_lt_is_Some_2 l i) as [page Hpage]; [lia|].
  rewrite (get_at_Ok _ _ _ Hpage). cbn [mbind outcome_bind].
  assert (is_frame page ∧ 0 < page) as [Hfr H0].
  { rewrite Forall_lookup in Hf. apply (Hf i). by rewrite lookup_take_lt by lia. }
  pose proof (free_one a' page Hp' Hfr H0) as Hone.
  destruct (free_contiguous_pages a' page 1) as [a2| | |]; cbn [mbind outcome_bind]; try done.
  - destruct Hone as [Hp2 Hx2]. split; [|lia]. split_and!; [lia|done|]. intros x.
    rewrite Hx2, Hx, (take_S_r _ _ _ Hpage), in_pages_app, in_pages_one. tauto.
  - exists a'. split_and!; [done|done|]. intros x [?|(q & Hq & Hin)]%Hx; [by left|right].
    exists q. split; [|done]. apply list_elem_of_lookup in Hq as (j & Hj).
    pose proof (lookup_lt_Some _ _ _ Hj) as Hjl. rewrite length_take in Hjl.
    apply list_elem_of_lookup. exists j. rewrite lookup_take_lt in * by lia. done.
Qed.

(** ** The result *)

Section Translate.
Context {s0 : Store} {T : Tables} {root w : Z} {l : list SharedKernelMapping} {pages : UserPageMap}.
Context {s : Store} {img : Z → option (bool * Z)}.
Context (Hb : built s0 T root (kernel_leaf w l) pages s img).

Lemma image_user va : is_Some (img va) → user_area va ∧ is_low va.
Proof.
  intros [p Hp]%(built_found _ _ _ _ _ Hb). apply (bu_page _ _ _ _ _ _ _ Hb) in Hp as (_ & Hu & _).
  assert (user_area va) by (by apply user_area_page). split; [done|by apply user_area_low].
Qed.

Lemma image_translate va wr b :
  img va = Some (wr, b) → ∃ phys, translate (memory s) root va = Some (mkTranslation phys true wr) ∧
    memory s phys = b ∧ free_in s0 phys ∧ ¬ free_in s phys.
Proof.
  intros Hi. assert (is_Some (find pages (page_base va))) as [p Hp] by (apply (built_found _ _ _ _ _ Hb); by eexists).
  destruct (bu_leaf _ _ _ _ _ _ _ Hb va p Hp) as (f & Hf & _ & Hu & Hl & Him).
  destruct (bu_page _ _ _ _ _ _ _ Hb _ p Hp) as (_ & _ & Hfr).
  rewrite Him in Hi. injection Hi as <- <-. exists (phys_page p + (va - page_base va)).
  rewrite (translate_leaf (bu_tables _ _ _ _ _ _ _ Hb)), Hl. cbn [fmap option_fmap option_map].
  rewrite decode_page, Hu by done. split; [|split; [done|]].
  - do 2 f_equal. unfold page_base. unfold PAGE_SIZE. Z.div_mod_to_equations. lia.
  - destruct (bu_behind _ _ _ _ _ _ _ Hb (phys_page p + (va - page_base va))) as (? & ? & _); [|done].
    exists (page_base va), p. split; [done|]. pose proof (page_base_bounds va). lia.
Qed.

Lemma image_kernel va :
  is_low va → img va = None → translate (memory s) root va = kernel_translation w l va.
Proof.
  intros Hlow Hi. assert (find pages (page_base va) = None) as Hn.
  { apply eq_None_not_Some. intros [? Hx]%(built_found _ _ _ _ _ Hb). congruence. }
  rewrite (translate_leaf (bu_tables _ _ _ _ _ _ _ Hb)), (bu_other _ _ _ _ _ _ _ Hb) by done.
  by apply kernel_leaf_translation.
Qed.

Lemma kernel_not_user va t : kernel_translation w l va = Some t → t_user t = false.
Proof.
  unfold kernel_translation. assert (∀ o : option translation,
    (∀ t, o = Some t → t_user t = false) → ∀ t, foldl (range_translation va) o l = Some t → t_user t = false) as H.
  { clear Hb. induction l as [|m k IH]; [done|]. intros o Ho. cbn. apply IH. intros t'. unfold range_translation.
    case_decide; [by intros [= <-]|apply Ho]. }
  apply H. intros t'. case_decide; [by intros [= <-]|done].
Qed.

Lemma image_load va : user_load (memory s) root va = snd <$> img va.
Proof.
  unfold user_load. destruct (img va) as [[wr b]|] eqn:Hi.
  - rewrite decide_True by (apply image_user; by eexists).
    destruct (image_translate _ _ _ Hi) as (phys & -> & Hm & _). cbn. by rewrite Hm.
  - case_decide as Hlow; [|done]. rewrite image_kernel by done.
    destruct (kernel_translation w l va) as [t|] eqn:Ht; [|done]. cbn. by rewrite (kernel_not_user _ _ Ht).
Qed.

End Translate.

Section Load.
Context {st : MemoryState} {file : list Z} {startup : ProgramStartup}.
Context (Hcf : config_ok st) (Hp : paged (2 ^ 52) (allocator (store st))) (Hfile : bytes_ok file).

(** The store the builder starts from. *)
Definition tracked : Store := mkStore (allocator (store st)) (memory (store st)) (Some OwnedPages_empty).

Lemma tracked_owned : owned_ok tracked ∧ ∀ x, total tracked x ↔ free_in (store st) x.
Proof.
  split; [split; cbn; [lia|done|]|]; intros x; try (intros ?%in_pages_nil; done).
  unfold total. pose proof (in_pages_nil x) as Hn. change (owned_list tracked) with (@nil Z).
  unfold free_in. cbn. tauto.
Qed.

(** Success, and failure with what could be saved. *)
Definition loaded (program : LoadedUserProgram) (st' : MemoryState) : Prop :=
  ∃ image hs s' T img pages,
    ElfImage_parse file = Ok image ∧ headers_of image = map Ok hs ∧
    user_area (lp_entry_point program) ∧ lp_entry_point program = entry_point image ∧
    st' = settle (allocator s') (memory s') st ∧ lp_owned_pages program = owned_now s' ∧
    program_built tracked st file hs startup (root_paddr (lp_address_space program))
      (lp_user_stack_top program) T pages s' img.

Definition not_loaded (e : MemoryError) (st' : MemoryState) : Prop :=
  ∃ a m, st' = settle a m st ∧ paged (2 ^ 52) a ∧
    (∀ x, ¬ free_in (store st) x → m x = memory (store st) x) ∧
    ∃ lost, (∀ x, free a x ↔ free_in (store st) x ∧ ¬ in_pages lost x) ∧
      (lost = [] ∨ capacity_error e ∧ (length lost ≤ 2)%nat).

Lemma load_spec :
  owned (store st) = None →
  match load_user_program st file startup with
  | Ok (program, st') => loaded program st'
  | Err (e, st') => not_loaded e st'
  | Panic => ranges_exhausted (free_in (store st))
  | Hang => False
  end.
Proof.
  intros Hown.
  assert (∀ e, not_loaded e st) as Hsame.
  { intros e. exists (allocator (store st)), (memory (store st)).
    split; [|split_and!; [done|done|exists []; split; [|by left]]].
    - destruct st as [[a m o] sp w f1 f2 l n]. cbn in *. by subst o.
    - intros x. pose proof (in_pages_nil x). unfold free_in. tauto. }
  unfold load_user_program. pose proof (ElfImage_parse_returns file) as Hr.
  destruct (ElfImage_parse file) as [image|e| |] eqn:Hi; cbn [map_err mbind outcome_bind]; try done.
  destruct (contains_user_address (entry_point image)) eqn:He; cbn [negb]; [|done].
  fold tracked.
  pose proof (build_program_spec st tracked image file startup Hcf Hp eq_refl Hi Hfile) as Hb.
  destruct (build_program st tracked image file startup) as [[[root top] s']|[e s']| |]; try done.
  - destruct Hb as (hs & T & pages & img & Hhs & Hb). exists image, hs, s', T, img, pages. cbn.
    split_and!; try done. unfold contains_user_address in He. unfold user_area. lia.
  - destruct Hb as [Hp' Hm (lost & [Ht Ha] & Hl)].
    destruct tracked_owned as [Hok Htot]. destruct (Ha eq_refl Hok) as [[Hfs Hf Hn] Hx].
    assert (∃ o, owned s' = Some o) as [o Ho]
      by (unfold tracks in Ht; destruct (owned s') as [o|]; [by exists o|done]).
    assert (owned_now s' = o) as -> by (unfold owned_now; by rewrite Ho).
    unfold owned_fits, owned_list in *. rewrite Ho in *.
    pose proof (release_spec o (allocator s') Hp' Hfs Hf) as Hrel. cbv zeta in Hrel.
    assert (∀ x, free (allocator s') x ∨ in_pages (take (owned_len o) (pages o)) x ↔
      free_in (store st) x ∧ ¬ in_pages lost x) as Hback.
    { intros x. specialize (Hx x). rewrite Htot in Hx. unfold total, owned_list in Hx. by rewrite Ho in Hx. }
    destruct (owned_release o (allocator s')) as [a'|e'| |]; cbn [map_err mbind outcome_bind]; try done.
    + destruct Hrel as [Hpa Hfa]. exists a', (memory s'). split_and!; [done|done|done|].
      exists lost. split; [|done]. intros x. by rewrite Hfa, Hback.
    + destruct Hrel as (a & Hpa & Hc & Hax). exists a. split_and!; [done|done|].
      intros x Hfx. by apply Hax, Hback in Hfx as [? _].
Qed.

End Load.

(** * Properties *)

(** C5. Loading a program.  When [load_user_program] succeeds (on a memory
    state in order, for any file and arguments), every page that a loadable
    segment or the stack touches is mapped for the user, writable exactly if
    the first segment on it or the stack makes it so, onto memory that was
    free and is not any more.  Below the startup block the program sees the
    bytes of the file where the last segment puts them and zeros elsewhere.
    Everything else is mapped as in the kernel's space, for the kernel only;
    no other memory changes; and the pages handed over as owned are exactly
    those that left the allocator, so that releasing them loses nothing. *)
Theorem loaded_program_image st file startup program st' :
  config_ok st → paged (2 ^ 52) (allocator (store st)) → owned (store st) = None → bytes_ok file →
  load_user_program st file startup = Ok (program, st') →
  ∃ image hs, ElfImage_parse file = Ok image ∧ headers_of image = map Ok hs ∧
    lp_entry_point program = entry_point image ∧ user_area (lp_entry_point program) ∧
    USER_STACK_BASE ≤ lp_user_stack_top program < USER_STACK_TOP ∧
    program_image st file hs program st'.
Proof.
  intros Hcf Hp Ho Hf Hl. pose proof (load_spec (startup := startup) Hcf Hp Hf Ho) as H. rewrite Hl in H.
  destruct H as (image & hs & s' & T & img & pgs & Hi & Hhs & Hu & He & -> & Hown & [Hb Htop Hw Hbytes _]).
  exists image, hs. do 4 (split; [done|]). split; [done|]. clear Hl.
  destruct (tracked_owned (st := st)) as [Hok Htot].
  pose proof (bu_accounts _ _ _ _ _ _ _ Hb) as [Htr Ha]. destruct (Ha eq_refl Hok) as [[_ _ Hn] Hx].
  assert (owned_list s' = take (owned_len (lp_owned_pages program)) (pages (lp_owned_pages program))) as Hol.
  { unfold owned_list. rewrite Hown. unfold owned_now. unfold tracks in Htr. by destruct (owned s'). }
  split.
  - done.
  - pose proof (bu_tables _ _ _ _ _ _ _ Hb) as Hok'. exists T.
    apply (frame_tables T _ s'); [done|done|exact (tb_alloc _ _ _ Hok')|done].
  - intros va w b Hpb. pose proof (Hw va) as Hwa. rewrite Hpb in Hwa.
    destruct (img va) as [[w' b']|] eqn:Hiv; [|done]. injection Hwa as ->.
    destruct (image_translate Hb va w b' Hiv) as (phys & Htrl & Hm & Hf0 & Hf1).
    exists phys. split_and!; [done| |done|done]. intros Hlt. cbn. rewrite Hm.
    rewrite Hbytes, Hpb in Hiv by done. by injection Hiv.
  - intros va Hlow Hpb. pose proof (Hw va) as Hwa. rewrite Hpb in Hwa.
    apply (image_kernel Hb); [done|]. by destruct (img va).
  - apply (bu_memory _ _ _ _ _ _ _ Hb).
  - cbv zeta. intros x. rewrite <-Hol. specialize (Hx x). specialize (Hn x). specialize (Htot x).
    pose proof (in_pages_nil x). unfold total in *. change (free_in (store (settle (allocator s') (memory s') st)) x) with (free_in s' x).
    tauto.
Qed.

(** C6. A program receives its arguments.  When the arguments are NUL-free
    UTF-8 text, the first possibly empty and at most 32, and fit the stack,
    and [load_user_program] succeeds, then the runtime of the program, reading
    memory through the page tables it was given, as a user, from the stack
    pointer it was given, iterates over exactly those arguments.  The stack
    pointer is 16-aligned. *)
Theorem loaded_program_arguments st file a0 extra program st' :
  config_ok st → paged (2 ^ 52) (allocator (store st)) → owned (store st) = None → bytes_ok file →
  startup_fits a0 extra →
  load_user_program st file (mkStartup a0 (encode_tail extra)) = Ok (program, st') →
  lp_user_stack_top program mod 16 = 0 ∧
  receives (user_load (memory (store st')) (root_paddr (lp_address_space program)))
    (lp_user_stack_top program) (a0 :: extra).
Proof.
  intros Hcf Hp Ho Hf Hs Hl. pose proof (load_spec (startup := mkStartup a0 (encode_tail extra)) Hcf Hp Hf Ho) as H.
  rewrite Hl in H. destruct H as (image & hs & s' & T & img & pgs & _ & _ & _ & _ & -> & _ & [Hb _ _ _ Harg]).
  apply Harg; [done|done|]. intros va. apply (image_load Hb).
Qed.

(** C19. A load that fails gives back what it took.  It never hangs, whatever
    the file and the arguments.  On an error the kernel's memory that was in
    use is unchanged and the free memory is what it was, except that after a
    failure for want of memory or of room in a table at most two pages (one
    just allocated, one for a page table) may be lost.  A panic can only be
    that of the allocator whose array of ranges is full. *)
Theorem failed_load_releases st file startup :
  config_ok st → paged (2 ^ 52) (allocator (store st)) → owned (store st) = None → bytes_ok file →
  match load_user_program st file startup with
  | Ok _ => True
  | Err (e, st') => not_loaded (st := st) e st'
  | Panic => ranges_exhausted (free_in (store st))
  | Hang => False
  end.
Proof.
  intros Hcf Hp Ho Hf. pose proof (load_spec (startup := startup) Hcf Hp Hf Ho) as H.
  by destruct (load_user_program st file startup) as [[p st']|[e st']| |].
Qed.

(** A kernel with sixty-four free pages at 16 MiB and nothing else mapped, and
    a small program. *)
Definition sample_state : MemoryState :=
  with_store (mkStore (mkAllocator (mkRegion 0x1000000 0x1040000 :: replicate 127 PhysicalRegion_empty) 1)
                (λ _, 1) None) (MemoryState_new (λ _, 1)).
Definition sample_program : list Z :=
  encode_elf 0x400000 [mkProgramHeader 1 5 120 0x400000 0 3 16] [1; 2; 3].

Lemma sample_state_ok :
  config_ok sample_state ∧ paged (2 ^ 52) (allocator (store sample_state)) ∧
  owned (store sample_state) = None ∧ bytes_ok sample_program.
Proof.
  split_and!; [| |reflexivity|].
  - split; [split; [unfold PHYS_WINDOW_START; cbn; unfold PHYS_WINDOW_START; lia|reflexivity]|reflexivity|cbn; lia|constructor].
  - assert (∀ x, free (allocator (store sample_state)) x ↔ 0x1000000 ≤ x < 0x1040000) as Hf.
    { intros x. unfold free, live. cbn. rewrite covers_cons. cbn. pose proof (covers_nil x). tauto. }
    split.
    + split; [reflexivity|cbn; unfold MAX_FREE_RANGES; lia|].
      unfold live. cbn. apply canonical_cons. split_and!; [unfold region_ok; cbn; lia|constructor|apply canonical_nil].
    + intros x. rewrite !Hf. pose proof (page_base_bounds x) as Hb. pose proof (page_base_mod x) as Hm.
      revert Hb Hm. generalize (page_base x). unfold PAGE_SIZE. intros b ? ?. Z.div_mod_to_equations. lia.
    + intros x Hx%Hf. lia.
  - unfold sample_program, encode_elf. vm_compute. repeat constructor; discriminate.
Qed.

Definition sample_startup : ProgramStartup := mkStartup [97] (encode_tail [[98]]).

(** Its only program header. *)
Definition sample_header : ProgramHeader := mkProgramHeader 1 5 120 0x400000 0 3 16.

Lemma sample_image image hs :
  ElfImage_parse sample_program = Ok image → headers_of image = map Ok hs → hs = [sample_header].
Proof.
  intros Hi Hh. assert ((headers_of <$> match ElfImage_parse sample_program with Ok i => Some i | _ => None end)
    = Some [Ok sample_header]) as Hc by (vm_compute; reflexivity).
  rewrite Hi in Hc. injection Hc as Hc. rewrite Hh in Hc. destruct hs as [|h [|]]; try done. by injection Hc as ->.
Qed.

(** Where the loaded program finds a byte below its stack pointer. *)
Lemma sample_translate program st' va w b :
  load_user_program sample_state sample_program sample_startup = Ok (program, st') → va < USER_STACK_BASE →
  program_byte sample_program [sample_header] va = Some (w, b) →
  ∃ phys, translate (memory (store st')) (root_paddr (lp_address_space program)) va
            = Some (mkTranslation phys true w) ∧ memory (store st') phys = b.
Proof.
  intros Hl Hva Hb. destruct sample_state_ok as (Hcf & Hp & Ho & Hf).
  pose proof (load_spec (startup := sample_startup) Hcf Hp Hf Ho) as H. rewrite Hl in H.
  destruct H as (image & hs & s' & T & img & pgs & Hi & Hh & _ & _ & -> & _ & [Hbu Htop _ Hby _]).
  rewrite (sample_image _ _ Hi Hh) in Hby. rewrite <-Hby in Hb by lia.
  destruct (image_translate Hbu _ _ _ Hb) as (phys & Ht & Hm & _).
  exists phys. exact (conj Ht Hm).
Qed.

Lemma loaded_program_image_witness :
  ∃ program st' image hs, load_user_program sample_state sample_program sample_startup = Ok (program, st') ∧
    ElfImage_parse sample_program = Ok image ∧ program_image sample_state sample_program hs program st'.
Proof.
  destruct sample_state_ok as (Hcf & Hp & Ho & Hf).
  assert (is_Ok (load_user_program sample_state sample_program sample_startup) = true) as Hok by (vm_compute; reflexivity).
  destruct (load_user_program sample_state sample_program sample_startup) as [[program st']|e| |] eqn:Hl; try discriminate Hok.
  destruct (loaded_program_image sample_state sample_program sample_startup program st' Hcf Hp Ho Hf Hl)
    as (image & hs & Hi & _ & _ & _ & _ & Him).
  exists program, st', image, hs. exact (conj eq_refl (conj Hi Him)).
Defined.

Lemma loaded_program_arguments_witness :
  ∃ program st', load_user_program sample_state sample_program sample_startup = Ok (program, st') ∧
    receives (user_load (memory (store st')) (root_paddr (lp_address_space program)))
      (lp_user_stack_top program) [[97]; [98]].
Proof.
  destruct sample_state_ok as (Hcf & Hp & Ho & Hf).
  assert (is_Ok (load_user_program sample_state sample_program sample_startup) = true) as Hok by (vm_compute; reflexivity).
  destruct (load_user_program sample_state sample_program sample_startup) as [[program st']|e| |] eqn:Hl; try discriminate Hok.
  assert (startup_fits [97] [[98]]) as Hs
    by (split; [reflexivity|split; [repeat constructor; discriminate|split; vm_compute; (lia || discriminate)]]).
  destruct (loaded_program_arguments sample_state sample_program [97] [[98]] program st' Hcf Hp Ho Hf Hs Hl)
    as [_ Hr].
  exists program, st'. exact (conj eq_refl Hr).
Defined.

Lemma failed_load_releases_witness :
  ∃ e st', load_user_program sample_state (take 100 sample_program) (mkStartup [97] []) = Err (e, st') ∧
    not_loaded (st := sample_state) e st'.
Proof.
  destruct sample_state_ok as (Hcf & Hp & Ho & Hf).
  assert (bytes_ok (take 100 sample_program)) as Hf'
    by (unfold bytes_ok in *; apply Forall_take; exact Hf).
  pose proof (failed_load_releases sample_state (take 100 sample_program) (mkStartup [97] []) Hcf Hp Ho Hf') as H.
  assert ((match load_user_program sample_state (take 100 sample_program) (mkStartup [97] []) with
           | Err _ => true | _ => false end) = true) as Hok by (vm_compute; reflexivity).
  destruct (load_user_program _ _ _) as [r|[e st']| |]; try discriminate Hok.
  exists e, st'. exact (conj eq_refl H).
Defined.
