(* ===== verification/Fat32.v ===== *)
(** * The FAT32 reader ([kernel/kernel/src/storage/fat32.rs])

    The disk is a parameter: reading a sector gives its 512 bytes or fails
    with the driver's error.  The sums of disk addresses are 64-bit; where
    one would not fit the model panics, as the checked build does. *)

From S2P Require Import Prelude Bytes Errors.

Local Open Scope Z_scope.

Abbreviation res := (outcome StorageError).

Definition SECTOR_SIZE : nat := 512.
#[global] Arguments SECTOR_SIZE : simpl never.

Definition FAT_DIRECTORY_ENTRY_SIZE : nat := 32.
Definition FAT_ATTRIBUTE_DIRECTORY : Z := 16.
Definition FAT_ATTRIBUTE_VOLUME_ID : Z := 8.
Definition FAT_ATTRIBUTE_LONG_NAME : Z := 0x0f.
Definition FAT_ENTRY_END_OF_CHAIN : Z := 0x0ffffff8.
Definition FAT_ENTRY_BAD_CLUSTER : Z := 0x0ffffff7.

(** Addition of 64-bit disk addresses. *)
Definition add64 {E} (a b : Z) : outcome E Z := expect (checked_add a b).

(** The part of a partition-table entry the reader uses ([GptPartition]). *)
Record Partition := mkPartition { start_lba : Z; sector_count : Z }.

Record Fat32 := mkFat32 {
  partition_start_lba : Z;
  partition_sector_count : Z;
  sectors_per_cluster : nat;
  reserved_sector_count : Z;
  root_cluster : Z;
  first_data_sector : Z
}.

Record FatDirectoryEntry := mkDirEntry {
  first_cluster : Z;
  size : nat;
  is_directory : bool
}.

Inductive FatResolvedPath :=
| RootDirectory
| Directory (cluster : Z)
| File (entry : FatDirectoryEntry).

(** ** Short names *)

Definition normalize_fat_byte (byte : Z) : res Z :=
  if is_ascii_alphanumeric byte then Ok (to_ascii_uppercase byte)
  else if contains byte (ascii "$%'-_@~`!(){}^#&") then Ok byte
  else Err InvalidShortName.

(** [short_name[at + index] = normalize_fat_byte(byte)?] for the bytes in order. *)
Definition copy_name (short_name : list Z) (at_ : nat) (bytes : list Z) : res (list Z) :=
  '(_, name) ← for_each (λ '(index, name) byte,
    b ← normalize_fat_byte byte;
    name ← set_at name (at_ + index) b;
    Ok (S index, name)) (0%nat, short_name) bytes;
  Ok name.
#[global] Arguments copy_name : simpl never.

Definition make_short_name (component : list Z) : res (list Z) :=
  let short_name := replicate 11 SPACE in
  match split_on DOT component with
  | [] => Err InvalidShortName
  | name :: parts =>
      if bool_decide (1 < length parts)%nat || bool_decide (name = []) || bool_decide (8 < length name)%nat
      then Err InvalidShortName
      else
        short_name ← copy_name short_name 0 name;
        match parts with
        | [] => Ok short_name
        | extension :: _ =>
            if bool_decide (extension = []) || bool_decide (3 < length extension)%nat
            then Err InvalidShortName
            else copy_name short_name 8 extension
        end
  end.

Record DisplayShortName := mkDisplay { d_bytes : list Z; d_len : nat }.

(** The loops that find the length without trailing spaces, and that copy. *)
Definition trimmed_len (entry : list Z) (base n : nat) : res nat :=
  while (S n) (λ len,
    if decide (0 < len)%nat then
      b ← get_at entry (base + len - 1);
      if b =? SPACE then Ok (inl (len - 1)%nat) else Ok (inr len)
    else Ok (inr len)) n.
#[global] Arguments trimmed_len : simpl never.

Definition copy_display (entry : list Z) (base n : nat) (d : DisplayShortName) : res DisplayShortName :=
  while (S n) (λ '(index, d),
    if decide (index < n)%nat then
      b ← get_at entry (base + index);
      bytes ← set_at (d_bytes d) (d_len d) b;
      Ok (inl (S index, mkDisplay bytes (S (d_len d))))
    else Ok (inr d)) (0%nat, d).
#[global] Arguments copy_display : simpl never.

Definition display_short_name (entry : list Z) : res DisplayShortName :=
  name_len ← trimmed_len entry 0 8;
  extension_len ← trimmed_len entry 8 3;
  d ← copy_display entry 0 name_len (mkDisplay (replicate 12 0) 0);
  if decide (extension_len = 0%nat) then Ok d
  else
    bytes ← set_at (d_bytes d) (d_len d) DOT;
    copy_display entry 8 extension_len (mkDisplay bytes (S (d_len d))).

Definition is_dot_entry (d : DisplayShortName) : res bool :=
  name ← slice (d_bytes d) 0 (d_len d);
  Ok (bool_decide (name = [DOT]) || bool_decide (name = [DOT; DOT])).

Section Disk.
Context (read_sector : Z → res (list Z)).

(** ** Mounting *)

Definition mount (partition : Partition) : res Fat32 :=
  sector ← read_sector (start_lba partition);
  bytes_per_sector ← read_le_u16 sector 11;
  spc ← get_at sector 13;
  reserved ← read_le_u16 sector 14;
  fat_count ← get_at sector 16;
  root_entry_count ← read_le_u16 sector 17;
  total_sectors_16 ← read_le_u16 sector 19;
  fat_size_16 ← read_le_u16 sector 22;
  total_sectors_32 ← read_le_u32 sector 32;
  sectors_per_fat ← read_le_u32 sector 36;
  root ← read_le_u32 sector 44;
  if negb (bytes_per_sector =? Z.of_nat SECTOR_SIZE) || (spc =? 0) || (reserved =? 0) ||
     (fat_count =? 0) || negb (root_entry_count =? 0) || negb (fat_size_16 =? 0) ||
     (sectors_per_fat =? 0)
  then Err InvalidFat32BootSector
  else
    let total_sectors := if negb (total_sectors_16 =? 0) then total_sectors_16 else total_sectors_32 in
    if (total_sectors =? 0) || (sector_count partition <? total_sectors)
    then Err InvalidFat32BootSector
    else
      a ← add64 (start_lba partition) reserved;
      first_data ← add64 a (fat_count * sectors_per_fat);
      Ok (mkFat32 (start_lba partition) (sector_count partition) (Z.to_nat spc) reserved root first_data).

Context (fs : Fat32).

(** ** Clusters *)

Definition cluster_to_lba (cluster : Z) : res Z :=
  if cluster <? 2 then Err InvalidFat32BootSector
  else
    let offset := (cluster - 2) * Z.of_nat (sectors_per_cluster fs) in
    lba ← add64 (first_data_sector fs) offset;
    limit ← add64 (partition_start_lba fs) (partition_sector_count fs);
    if limit <=? lba then Err InvalidFat32BootSector else Ok lba.

Definition next_cluster (cluster : Z) : res Z :=
  let fat_offset := cluster * 4 in
  a ← add64 (partition_start_lba fs) (reserved_sector_count fs);
  fat_sector ← add64 a (fat_offset / Z.of_nat SECTOR_SIZE);
  let sector_offset := Z.to_nat (fat_offset mod Z.of_nat SECTOR_SIZE) in
  sector ← read_sector fat_sector;
  entry ← read_le_u32 sector sector_offset;
  let entry := Z.land entry 0x0fffffff in
  if (entry =? FAT_ENTRY_BAD_CLUSTER) || (entry <? 2) then Err InvalidFat32BootSector
  else if FAT_ENTRY_END_OF_CHAIN <=? entry then Err FileNotFound
  else Ok entry.

(** ** Reading a file *)

(** The sectors of one cluster, while bytes remain. *)
Definition read_cluster (lba : Z) (remaining written : nat) (buffer : list Z)
    : res (nat * nat * list Z) :=
  while (S (sectors_per_cluster fs)) (λ '(sector_index, remaining, written, buffer),
    if decide (sector_index < sectors_per_cluster fs ∧ 0 < remaining)%nat then
      at_ ← add64 lba (Z.of_nat sector_index);
      sector ← read_sector at_;
      let bytes := Nat.min remaining SECTOR_SIZE in
      piece ← slice sector 0 bytes;
      buffer ← write_at buffer written piece;
      Ok (inl (S sector_index, (remaining - bytes)%nat, (written + bytes)%nat, buffer))
    else Ok (inr (remaining, written, buffer))) (0%nat, remaining, written, buffer).

(** The number of bytes and the buffer. *)
Definition read_file (entry : FatDirectoryEntry) (buffer : list Z) : res (nat * list Z) :=
  if decide (length buffer < size entry)%nat then Err BufferTooSmall
  else
    while (S (size entry)) (λ '(cluster, remaining, written, buffer),
      if decide (0 < remaining)%nat then
        lba ← cluster_to_lba cluster;
        '(remaining, written, buffer) ← read_cluster lba remaining written buffer;
        if decide (remaining = 0%nat) then Ok (inr (written, buffer))
        else
          cluster ← next_cluster cluster;
          Ok (inl (cluster, remaining, written, buffer))
      else Ok (inr (written, buffer))) (first_cluster entry, size entry, 0%nat, buffer).

(** ** Directories

    The walk over the entries of a directory, written out twice in the
    source.  [visit] is given each entry that is neither deleted nor a long
    name nor a volume label and answers [inl] to go on and [inr] to return;
    [finish] is what happens at the end mark. *)

Section Scan.
Context {S R : Type} (visit : S → list Z → res (S + R)) (finish : S → R).

Definition scan_sector (sector : list Z) (s : S) : res (S + R) :=
  while (Datatypes.S SECTOR_SIZE) (λ '(entry_offset, s),
    if decide (entry_offset + FAT_DIRECTORY_ENTRY_SIZE ≤ SECTOR_SIZE)%nat then
      let next := (entry_offset + FAT_DIRECTORY_ENTRY_SIZE)%nat in
      entry ← slice sector entry_offset next;
      first_byte ← get_at entry 0;
      if first_byte =? 0x00 then Ok (inr (inr (finish s)))
      else if first_byte =? 0xe5 then Ok (inl (next, s))
      else
        attributes ← get_at entry 11;
        if (attributes =? FAT_ATTRIBUTE_LONG_NAME)
           || negb (Z.land attributes FAT_ATTRIBUTE_VOLUME_ID =? 0)
        then Ok (inl (next, s))
        else
          x ← visit s entry;
          match x with inl s => Ok (inl (next, s)) | inr r => Ok (inr (inr r)) end
    else Ok (inr (inl s))) (0%nat, s).

Definition scan_cluster (lba : Z) (s : S) : res (S + R) :=
  while (Datatypes.S (sectors_per_cluster fs)) (λ '(sector_index, s),
    if decide (sector_index < sectors_per_cluster fs)%nat then
      at_ ← add64 lba (Z.of_nat sector_index);
      sector ← read_sector at_;
      x ← scan_sector sector s;
      match x with inl s => Ok (inl (Datatypes.S sector_index, s)) | inr r => Ok (inr (inr r)) end
    else Ok (inr (inl s))) (0%nat, s).

(** The source's [loop] follows the cluster chain without a bound. *)
Definition scan_directory (fuel : nat) (start_cluster : Z) (s : S) : res R :=
  while fuel (λ '(cluster, s),
    lba ← cluster_to_lba cluster;
    x ← scan_cluster lba s;
    match x with
    | inr r => Ok (inr r)
    | inl s => cluster ← next_cluster cluster; Ok (inl (cluster, s))
    end) (start_cluster, s).
End Scan.

(** [find_in_directory]: the end mark returns [Err(FileNotFound)]. *)
Definition found_entry (entry : list Z) : res FatDirectoryEntry :=
  hi ← read_le_u16 entry 20;
  lo ← read_le_u16 entry 26;
  size ← read_le_u32 entry 28;
  attributes ← get_at entry 11;
  Ok (mkDirEntry (Z.lor (Z.shiftl hi 16) lo) (Z.to_nat size)
        (negb (Z.land attributes FAT_ATTRIBUTE_DIRECTORY =? 0))).

Definition find_in_directory (fuel : nat) (start_cluster : Z) (component : list Z)
    : res FatDirectoryEntry :=
  short_name ← make_short_name component;
  r ← scan_directory (λ _ entry,
        name ← slice entry 0 11;
        if decide (name = short_name) then e ← found_entry entry; Ok (inr (Some e)) else Ok (inl tt))
      (λ _, None) fuel start_cluster tt;
  ok_or r FileNotFound.

(** The loop over the non-empty components. *)
Fixpoint resolve_components (fuel : nat) (cluster : Z) (components : list (list Z))
    : res FatResolvedPath :=
  match components with
  | [] => Err FileNotFound
  | component :: components =>
      entry ← find_in_directory fuel cluster component;
      match components with
      | [] => Ok (if is_directory entry then Directory (first_cluster entry) else File entry)
      | _ =>
          if is_directory entry then resolve_components fuel (first_cluster entry) components
          else Err FileNotFound
      end
  end.

Definition resolve_absolute (fuel : nat) (path : list Z) : res FatResolvedPath :=
  if negb (starts_with SLASH path) then Err PathNotAbsolute
  else
    match filter (λ c, c ≠ []) (split_on SLASH path) with
    | [] => Ok RootDirectory
    | components => resolve_components fuel (root_cluster fs) components
    end.

Definition open_absolute (fuel : nat) (path : list Z) : res FatDirectoryEntry :=
  r ← resolve_absolute fuel path;
  match r with File entry => Ok entry | RootDirectory | Directory _ => Err NotAFile end.

Definition ensure_dir (fuel : nat) (path : list Z) : res () :=
  r ← resolve_absolute fuel path;
  match r with RootDirectory | Directory _ => Ok tt | File _ => Err NotADirectory end.

(** One line of a listing. *)
Definition list_entry (s : nat * list Z) (entry : list Z) : res ((nat * list Z) + (nat * list Z)) :=
  let '(written, buffer) := s in
  name ← slice entry 0 11;
  display ← display_short_name name;
  dot ← is_dot_entry display;
  if (dot : bool) then Ok (inl (written, buffer))
  else if decide (length buffer < written + (d_len display + 1))%nat then Err BufferTooSmall
  else
    text ← slice (d_bytes display) 0 (d_len display);
    buffer ← write_at buffer written text;
    buffer ← set_at buffer (written + d_len display) NEWLINE;
    Ok (inl ((written + d_len display + 1)%nat, buffer)).

Definition read_dir (fuel : nat) (path : list Z) (buffer : list Z) : res (nat * list Z) :=
  r ← resolve_absolute fuel path;
  start ← match r with
    | RootDirectory => Ok (root_cluster fs)
    | Directory cluster => Ok cluster
    | File _ => Err NotADirectory
    end;
  scan_directory list_entry (λ s, s) fuel start (0%nat, buffer).

End Disk.

(** ** What the disk holds

    The sectors of a cluster and of the first [n] clusters of a chain, read
    through the same geometry and the same table. *)

Section Spec.
Context (read_sector : Z → res (list Z)) (fs : Fat32).

Fixpoint sectors_from (lba : Z) (i n : nat) : res (list (list Z)) :=
  match n with
  | O => Ok []
  | S n =>
      at_ ← add64 lba (Z.of_nat i);
      sector ← read_sector at_; rest ← sectors_from lba (S i) n; Ok (sector :: rest)
  end.

Definition cluster_sectors (cluster : Z) : res (list (list Z)) :=
  lba ← cluster_to_lba fs cluster; sectors_from lba 0 (sectors_per_cluster fs).

(** [None] as the second component: the last cluster's link is not followed. *)
Fixpoint chain_sectors (n : nat) (cluster : Z) : res (list (list Z)) :=
  match n with
  | O => Ok []
  | S n =>
      here ← cluster_sectors cluster;
      match n with
      | O => Ok here
      | S _ => next ← next_cluster read_sector fs cluster; rest ← chain_sectors n next; Ok (here ++ rest)
      end
  end.

(** The last cluster of such a chain. *)
Fixpoint chain_last (n : nat) (cluster : Z) : res Z :=
  match n with
  | O | S O => Ok cluster
  | S n => next ← next_cluster read_sector fs cluster; chain_last n next
  end.
End Spec.

(** The 32-byte entries of sectors, and those a directory walk gets to see. *)
Definition entries_of (sector : list Z) : list (list Z) :=
  map (λ i, sub sector (32 * i) (32 * i + 32)) (seq 0 16).
Definition directory_entries (sectors : list (list Z)) : list (list Z) := concat (map entries_of sectors).

Definition byte_at (i : nat) (entry : list Z) : Z := default 0 (entry !! i).
Definition is_end_mark (entry : list Z) : bool := byte_at 0 entry =? 0x00.
Definition is_live (entry : list Z) : bool :=
  negb (byte_at 0 entry =? 0xe5) && negb (byte_at 11 entry =? FAT_ATTRIBUTE_LONG_NAME)
  && (Z.land (byte_at 11 entry) FAT_ATTRIBUTE_VOLUME_ID =? 0).

(** The live entries before the end mark, and whether there is one. *)
Fixpoint live_entries (es : list (list Z)) : list (list Z) :=
  match es with
  | [] => []
  | e :: es => if is_end_mark e then [] else if is_live e then e :: live_entries es else live_entries es
  end.
Definition ended (es : list (list Z)) : bool := existsb is_end_mark es.

(** The meaning of a walk over live entries. *)
Section Fold.
Context {S R : Type} (visit : S → list Z → res (S + R)).
Fixpoint fold_visit (s : S) (es : list (list Z)) : res (S + R) :=
  match es with
  | [] => Ok (inl s)
  | e :: es => x ← visit s e; match x with inl s => fold_visit s es | inr r => Ok (inr r) end
  end.
End Fold.

(** The text of a short name: the name and, if any, a dot and the extension. *)
Fixpoint trim_right (l : list Z) : list Z :=
  match l with
  | [] => []
  | b :: l => match trim_right l with [] => if b =? SPACE then [] else [b] | t => b :: t end
  end.
Definition display_text (name : list Z) : list Z :=
  match trim_right (sub name 8 11) with
  | [] => trim_right (take 8 name)
  | extension => trim_right (take 8 name) ++ DOT :: extension
  end.

(** The lines of a listing. *)
Definition shown (e : list Z) : bool :=
  let t := display_text (take 11 e) in negb (bool_decide (t = [DOT]) || bool_decide (t = [DOT; DOT])).
Definition listing (es : list (list Z)) : list Z :=
  concat (map (λ e, display_text (take 11 e) ++ [NEWLINE]) (filter (λ e, shown e = true) es)).

(** * Lemmas *)

(** ** What ends up in a buffer

    Buffers keep their length, and hold bytes if the disk does. *)

Section Buffers.
Context (read_sector : Z → res (list Z)) (fs : Fat32).
Context (Hbytes : ∀ lba, ensures (read_sector lba) bytes_ok).

Definition buffer_like (buffer b : list Z) : Prop :=
  length b = length buffer ∧ (bytes_ok buffer → bytes_ok b).

Lemma buffer_like_refl b : buffer_like b b.
Proof. done. Qed.

Lemma buffer_like_trans a b c : buffer_like a b → buffer_like b c → buffer_like a c.
Proof. intros [? ?] [? ?]. split; [congruence|auto]. Qed.

Lemma write_at_like {E} buffer off src :
  bytes_ok src → ensures (write_at (E:=E) buffer off src) (buffer_like buffer).
Proof. intros Hs b Hb. destruct (ensures_write_at _ _ _ _ Hb) as [? H]. split; [done|]. intros ?. by apply H. Qed.

Lemma read_cluster_like lba remaining written buffer :
  ensures (read_cluster read_sector fs lba remaining written buffer) (λ '(_, _, b), buffer_like buffer b).
Proof.
  apply (ensures_while (λ '(_, _, _, b), buffer_like buffer b)); [|apply buffer_like_refl].
  intros [[[i r] w] b] Hb. case_decide; [|by apply ensures_Ok].
  eapply ensures_bind; [apply ensures_any|]. intros at_ _.
  eapply ensures_bind; [apply Hbytes|]. intros sector Hs.
  eapply ensures_bind; [apply ensures_slice|]. intros piece Hp.
  eapply ensures_bind; [apply write_at_like; by apply Hp|]. intros b' Hb'.
  apply ensures_Ok. by eapply buffer_like_trans.
Qed.

Lemma read_file_like entry buffer :
  ensures (read_file read_sector fs entry buffer) (λ '(_, b), buffer_like buffer b).
Proof.
  unfold read_file. case_decide; [done|].
  apply (ensures_while (λ '(_, _, _, b), buffer_like buffer b)); [|apply buffer_like_refl].
  intros [[[c r] w] b] Hb. case_decide; [|by apply ensures_Ok].
  eapply ensures_bind; [apply ensures_any|]. intros lba _.
  eapply ensures_bind; [apply read_cluster_like|]. intros [[r' w'] b'] Hb'.
  assert (buffer_like buffer b') by (by eapply buffer_like_trans).
  case_decide; [by apply ensures_Ok|].
  eapply ensures_bind; [apply ensures_any|]. intros c' _. by apply ensures_Ok.
Qed.

Section Scan.
Context {S R : Type} (I : S → Prop) (Q : R → Prop) (visit : S → list Z → res (S + R)) (finish : S → R).
Let next (x : S + R) : Prop := match x with inl s => I s | inr r => Q r end.
Context (Hvisit : ∀ s entry, I s → bytes_ok entry → ensures (visit s entry) next).
Context (Hfinish : ∀ s, I s → Q (finish s)).

Lemma scan_sector_ensures sector s :
  bytes_ok sector → I s → ensures (scan_sector visit finish sector s) next.
Proof.
  intros Hs Hi. apply (ensures_while (λ '(_, s), I s)); [|done]. clear s Hi. intros [o s] Hi.
  case_decide; [|by apply ensures_Ok].
  eapply ensures_bind; [apply ensures_slice|]. intros entry He.
  eapply ensures_bind; [apply ensures_any|]. intros b _.
  destruct (b =? 0x00); [apply ensures_Ok; cbn; by apply Hfinish|].
  destruct (b =? 0xe5); [by apply ensures_Ok|].
  eapply ensures_bind; [apply ensures_any|]. intros attributes _.
  destruct (_ || _); [by apply ensures_Ok|].
  eapply ensures_bind; [apply Hvisit; [done|by apply He]|]. intros [s'|r] Hx; by apply ensures_Ok.
Qed.

Lemma scan_directory_ensures fuel cluster s :
  I s → ensures (scan_directory read_sector fs visit finish fuel cluster s) Q.
Proof.
  intros Hi. apply (ensures_while (λ '(_, s), I s)); [|done]. clear s Hi. intros [c s] Hi.
  eapply ensures_bind; [apply ensures_any|]. intros lba _.
  apply (ensures_bind _ _ next).
  - apply (ensures_while (λ '(_, s), I s)); [|done]. clear s Hi. intros [i s] Hi.
    case_decide; [|by apply ensures_Ok].
    eapply ensures_bind; [apply ensures_any|]. intros at_ _.
    eapply ensures_bind; [apply Hbytes|]. intros sector Hs.
    eapply ensures_bind; [by apply scan_sector_ensures|]. intros [s'|r] Hx; by apply ensures_Ok.
  - intros [s'|r] Hx; [|by apply ensures_Ok].
    eapply ensures_bind; [apply ensures_any|]. intros c' _. by apply ensures_Ok.
Qed.
End Scan.

(** A size is a 32-bit number. *)
Definition sized (e : FatDirectoryEntry) : Prop := Z.of_nat (size e) < 2 ^ 32.

Lemma found_entry_sized entry : bytes_ok entry → ensures (found_entry entry) sized.
Proof.
  intros He e (hi & _ & (lo & _ & (n & Hn & (a & _ & [= <-])%bind_Ok)%bind_Ok)%bind_Ok)%bind_Ok.
  unfold sized. cbn. pose proof (read_le_u32_bound _ _ He n Hn) as Hb. cbn in Hb. lia.
Qed.

Lemma find_in_directory_sized fuel cluster component :
  ensures (find_in_directory read_sector fs fuel cluster component) sized.
Proof.
  eapply ensures_bind; [apply ensures_any|]. intros name _.
  apply (ensures_bind _ _ (λ r : option FatDirectoryEntry, ∀ e, r = Some e → sized e)).
  - apply (scan_directory_ensures (λ _, True)); [|done|done]. intros [] entry _ He.
    eapply ensures_bind; [apply ensures_any|]. intros n _. case_decide; [|by apply ensures_Ok].
    eapply ensures_bind; [by apply found_entry_sized|]. intros e Hs. apply ensures_Ok. by intros ? [= <-].
  - intros r Hr e He%ok_or_Ok. by apply Hr.
Qed.

Lemma open_absolute_sized fuel path : ensures (open_absolute read_sector fs fuel path) sized.
Proof.
  apply (ensures_bind _ _ (λ r, ∀ e, r = File e → sized e)).
  - unfold resolve_absolute. destruct (negb _); [done|].
    destruct (filter _ _) as [|c cs]; [by apply ensures_Ok|]. generalize (root_cluster fs).
    generalize (c :: cs). clear c cs. intros cs. induction cs as [|c cs IH]; intros cluster; [done|]. cbn.
    eapply ensures_bind; [apply find_in_directory_sized|]. intros e He. destruct cs as [|c' cs].
    + apply ensures_Ok. destruct (is_directory e); [done|]. by intros ? [= <-].
    + destruct (is_directory e); [apply IH|done].
  - intros [| |e] He; [done..|]. apply ensures_Ok. by apply He.
Qed.

Lemma list_entry_length n s entry :
  length s.2 = n →
  ensures (list_entry s entry) (λ x, match x with inl s => length s.2 = n | inr (_, b) => length b = n end).
Proof.
  destruct s as [w b]. cbn. intros Hb. unfold list_entry.
  eapply ensures_bind; [apply ensures_any|]. intros name _.
  eapply ensures_bind; [apply ensures_any|]. intros display _.
  eapply ensures_bind; [apply ensures_any|]. intros [|] _; [by apply ensures_Ok|].
  case_decide; [done|].
  eapply ensures_bind; [apply ensures_any|]. intros text _.
  eapply ensures_bind; [apply ensures_write_at|]. intros b1 [H1 _].
  eapply ensures_bind; [apply ensures_set_at|]. intros b2 [H2 _]. apply ensures_Ok. cbn. congruence.
Qed.

Lemma read_dir_length fuel path buffer :
  ensures (read_dir read_sector fs fuel path buffer) (λ '(_, b), length b = length buffer).
Proof.
  eapply ensures_bind; [apply ensures_any|]. intros r _.
  eapply ensures_bind; [apply ensures_any|]. intros start _.
  apply (scan_directory_ensures (λ s, length s.2 = length buffer)); [|by intros []|done].
  intros s entry Hs _. by apply list_entry_length.
Qed.

End Buffers.

(** ** Reading files *)

Section Read.
Context (read_sector : Z → res (list Z)) (fs : Fat32).
Context (Hdisk : ∀ lba s, read_sector lba = Ok s → length s = SECTOR_SIZE).

Lemma sectors_from_lengths lba i n ss :
  sectors_from read_sector lba i n = Ok ss →
  length ss = n ∧ Forall (λ s, length s = SECTOR_SIZE) ss.
Proof.
  revert i ss. induction n as [|n IH]; intros i ss; cbn; [intros [= <-]; done|].
  intros (at_ & _ & (s & Hs & (rest & Hr & [= <-])%bind_Ok)%bind_Ok)%bind_Ok.
  destruct (IH _ _ Hr) as [<- HF]. split; [done|]. constructor; [by eapply Hdisk|done].
Qed.

Lemma chain_lengths n c ss :
  chain_sectors read_sector fs n c = Ok ss →
  length ss = (n * sectors_per_cluster fs)%nat ∧ Forall (λ s, length s = SECTOR_SIZE) ss.
Proof.
  revert c ss. induction n as [|n IH]; intros c ss; [intros [= <-]; done|].
  cbn [chain_sectors]. intros (here & Hh & Hrest)%bind_Ok.
  unfold cluster_sectors in Hh. apply bind_Ok in Hh as (lba & _ & Hh).
  apply sectors_from_lengths in Hh as [Hl HF].
  destruct n as [|n].
  - injection Hrest as <-. split; [lia|done].
  - apply bind_Ok in Hrest as (next & _ & (rest & Hr & [= <-])%bind_Ok).
    destruct (IH _ _ Hr) as [Hlr HFr]. rewrite length_app. split; [lia|by apply Forall_app].
Qed.

Lemma concat_length (ss : list (list Z)) :
  Forall (λ s, length s = SECTOR_SIZE) ss → length (concat ss) = (length ss * SECTOR_SIZE)%nat.
Proof. induction 1 as [|s ss Hs _ IH]; cbn; [done|]. rewrite length_app, IH. lia. Qed.

(** One cluster: as many bytes as remain, and no more than it holds. *)
Lemma read_cluster_spec lba ss (buffer done_ : list Z) remaining :
  sectors_from read_sector lba 0 (sectors_per_cluster fs) = Ok ss →
  (length done_ + remaining ≤ length buffer)%nat →
  read_cluster read_sector fs lba remaining (length done_) (splice buffer 0 done_) =
    Ok ((remaining - length (concat ss))%nat,
        (length done_ + Nat.min remaining (length (concat ss)))%nat,
        splice buffer 0 (done_ ++ take remaining (concat ss))).
Proof.
  intros Hss Hlen. pose proof (sectors_from_lengths _ _ _ _ Hss) as [Hl HF].
  unfold read_cluster.
  apply (while_rule
    (λ '(i, rem, written, buf), ∃ pre post, ss = pre ++ post ∧ length pre = i ∧
       sectors_from read_sector lba i (sectors_per_cluster fs - i) = Ok post ∧
       rem = (remaining - length (concat pre))%nat ∧
       written = (length done_ + Nat.min remaining (length (concat pre)))%nat ∧
       buf = splice buffer 0 (done_ ++ take remaining (concat pre)))
    (λ '(i, _, _, _), (sectors_per_cluster fs - i)%nat)
    (λ o, o = Ok ((remaining - length (concat ss))%nat,
        (length done_ + Nat.min remaining (length (concat ss)))%nat,
        splice buffer 0 (done_ ++ take remaining (concat ss))))); [| |lia].
  2: { exists [], ss. split_and!; try done; [by rewrite Nat.sub_0_r|cbn; lia|cbn; lia|].
       cbn. by rewrite take_nil, app_nil_r. }
  intros [[[i rem] written] buf] (pre & post & Heq & Hi & Hpost & -> & -> & ->). subst ss.
  apply Forall_app in HF as [HFpre HFpost]. rewrite length_app in Hl.
  rewrite concat_app, length_app. pose proof (concat_length _ HFpost) as Hcp.
  case_decide as Hcond.
  - destruct (sectors_per_cluster fs - i)%nat as [|k] eqn:Hk; [lia|]. cbn [sectors_from] in Hpost.
    apply bind_Ok in Hpost as (at_ & Hat & (s & Hs & (rest & Hrest & [= <-])%bind_Ok)%bind_Ok).
    rewrite Hat. cbn [mbind outcome_bind]. rewrite Hs. cbn [mbind outcome_bind].
    pose proof (Hdisk _ _ Hs) as Hsl. rewrite slice_Ok by lia. cbn [mbind outcome_bind].
    rewrite sub_0. set (b := Nat.min (remaining - length (concat pre)) SECTOR_SIZE).
    assert (length (take b s) = b) as Htb by (rewrite length_take; lia).
    rewrite Nat.min_r by lia.
    rewrite (take_ge (concat pre)) by lia.
    rewrite write_at_next by (rewrite ?Htb, length_app; lia).
    cbn [mbind outcome_bind]. split; [|lia].
    exists (pre ++ [s]), rest. rewrite <-app_assoc, !concat_app, !length_app. cbn [concat].
    rewrite app_nil_r. split_and!; [done|cbn; lia| |lia|lia|].
    + replace (sectors_per_cluster fs - S i)%nat with k by lia. done.
    + rewrite <-app_assoc. do 2 f_equal. rewrite take_app_ge by lia. f_equal.
      unfold b. destruct (decide (remaining - length (concat pre) ≤ SECTOR_SIZE)%nat).
      * by rewrite Nat.min_l by lia.
      * rewrite Nat.min_r by lia. by rewrite !take_ge by lia.
  - assert (post = [] ∨ (remaining ≤ length (concat pre))%nat) as [->|Hdone].
    { destruct (decide (remaining ≤ length (concat pre))%nat); [by right|]. left.
      destruct (sectors_per_cluster fs - i)%nat eqn:Hk; [|lia]. cbn in Hpost. congruence. }
    + cbn [concat length]. by rewrite Nat.add_0_r, app_nil_r.
    + rewrite take_app_le by done.
      replace (remaining - (length (concat pre) + length (concat post)))%nat with 0%nat by lia.
      replace (remaining - length (concat pre))%nat with 0%nat by lia.
      rewrite !Nat.min_l by lia. done.
Qed.

(** The clusters of the chain, one after the other. *)
Lemma read_chain_spec n c ss (buffer done_ : list Z) remaining fuel :
  chain_sectors read_sector fs n c = Ok ss → (0 < sectors_per_cluster fs)%nat →
  (0 < remaining)%nat → (length done_ + remaining ≤ length buffer)%nat →
  ((n - 1) * (sectors_per_cluster fs * SECTOR_SIZE) < remaining
     ≤ n * (sectors_per_cluster fs * SECTOR_SIZE))%nat →
  (remaining < fuel)%nat →
  while fuel (λ '(cluster, remaining, written, buffer),
      if decide (0 < remaining)%nat then
        lba ← cluster_to_lba fs cluster;
        '(remaining, written, buffer) ← read_cluster read_sector fs lba remaining written buffer;
        if decide (remaining = 0%nat) then Ok (inr (written, buffer))
        else
          cluster ← next_cluster read_sector fs cluster;
          Ok (inl (cluster, remaining, written, buffer))
      else Ok (inr (written, buffer))) (c, remaining, length done_, splice buffer 0 done_)
  = Ok ((length done_ + remaining)%nat, splice buffer 0 (done_ ++ take remaining (concat ss))).
Proof.
  intros Hch Hspc. set (cb := (sectors_per_cluster fs * SECTOR_SIZE)%nat).
  assert (0 < cb)%nat as Hcb by (unfold cb, SECTOR_SIZE; lia).
  revert n c ss done_ remaining Hch.
  induction fuel as [|fuel IH]; intros n c ss done_ remaining Hch Hr Hlen Hn Hf; [lia|].
  destruct n as [|n]; [lia|]. cbn [chain_sectors] in Hch.
  apply bind_Ok in Hch as (here & Hh & Hrest). unfold cluster_sectors in Hh.
  apply bind_Ok in Hh as (lba & Hlba & Hh).
  pose proof (sectors_from_lengths _ _ _ _ Hh) as [Hhl HhF].
  pose proof (concat_length _ HhF) as Hhc. rewrite Hhl in Hhc. fold cb in Hhc.
  cbn [while]. rewrite decide_True by done. rewrite Hlba. cbn [mbind outcome_bind].
  rewrite (read_cluster_spec lba here buffer done_ remaining Hh Hlen). cbn [mbind outcome_bind].
  rewrite Hhc. destruct n as [|n].
  - injection Hrest as <-. rewrite decide_True by lia. cbn [mbind outcome_bind].
    by rewrite Nat.min_l by lia.
  - rewrite decide_False by lia.
    apply bind_Ok in Hrest as (next & Hnext & (rest & Hch & [= <-])%bind_Ok).
    rewrite Hnext. cbn [mbind outcome_bind]. rewrite Nat.min_r by lia.
    rewrite (take_ge (concat here)) by lia.
    replace (length done_ + cb)%nat with (length (done_ ++ concat here)) by (rewrite length_app; lia).
    rewrite (IH (S n) next rest (done_ ++ concat here) (remaining - cb)%nat Hch)
      by (rewrite ?length_app; lia).
    rewrite length_app, Hhc. f_equal. f_equal; [lia|].
    rewrite concat_app, (take_app_ge (concat here)), Hhc, <-app_assoc by lia. done.
Qed.

End Read.

(** ** Walking directories *)

Section Walk.
Context (read_sector : Z → res (list Z)) (fs : Fat32).
Context (Hdisk : ∀ lba s, read_sector lba = Ok s → length s = SECTOR_SIZE).
Context {S R : Type} (visit : S → list Z → res (S + R)) (finish : S → R).

(** What a walk over the entries [es] does from [s]. *)
Definition walk (s : S) (es : list (list Z)) : res (S + R) :=
  x ← fold_visit visit s (live_entries es);
  match x with
  | inr r => Ok (inr r)
  | inl s => if ended es then Ok (inr (finish s)) else Ok (inl s)
  end.

Lemma walk_cons s e es :
  walk s (e :: es) =
    if is_end_mark e then Ok (inr (finish s))
    else if is_live e then x ← visit s e;
      match x with inl s => walk s es | inr r => Ok (inr r) end
    else walk s es.
Proof.
  unfold walk, ended. cbn [live_entries existsb]. destruct (is_end_mark e); [done|].
  cbn [orb]. destruct (is_live e); [|done]. cbn [fold_visit]. rewrite bind_assoc.
  destruct (visit s e) as [[s'|r]| | |]; cbn; done.
Qed.

Lemma walk_app s es es' :
  walk s (es ++ es') = x ← walk s es; match x with inl s => walk s es' | inr r => Ok (inr r) end.
Proof.
  revert s. induction es as [|e es IH]; intros s; [done|].
  cbn [app]. rewrite !walk_cons. destruct (is_end_mark e); [done|].
  destruct (is_live e); [|apply IH]. rewrite bind_assoc.
  destruct (visit s e) as [[s'|r]| | |]; cbn [mbind outcome_bind]; [apply IH|done..].
Qed.

Lemma byte_at_get (e : list Z) i : (i < length e)%nat → get_at (E:=StorageError) e i = Ok (byte_at i e).
Proof.
  intros Hi. destruct (lookup_lt_is_Some_2 e i Hi) as [b Hb].
  unfold byte_at. rewrite Hb. by apply get_at_Ok.
Qed.

Lemma scan_sector_spec sector s :
  length sector = SECTOR_SIZE → scan_sector visit finish sector s = walk s (entries_of sector).
Proof.
  intros Hl. unfold scan_sector, entries_of.
  assert (∀ n i fuel s, (i + n = 16)%nat → (n < fuel)%nat →
    while fuel (λ '(entry_offset, s),
      if decide (entry_offset + FAT_DIRECTORY_ENTRY_SIZE ≤ SECTOR_SIZE)%nat then
        let next := (entry_offset + FAT_DIRECTORY_ENTRY_SIZE)%nat in
        entry ← slice sector entry_offset next;
        first_byte ← get_at entry 0;
        if first_byte =? 0x00 then Ok (inr (inr (finish s)))
        else if first_byte =? 0xe5 then Ok (inl (next, s))
        else
          attributes ← get_at entry 11;
          if (attributes =? FAT_ATTRIBUTE_LONG_NAME)
             || negb (Z.land attributes FAT_ATTRIBUTE_VOLUME_ID =? 0)
          then Ok (inl (next, s))
          else
            x ← visit s entry;
            match x with inl s => Ok (inl (next, s)) | inr r => Ok (inr (inr r)) end
      else Ok (inr (inl s))) ((32 * i)%nat, s)
    = walk s (map (λ i, sub sector (32 * i) (32 * i + 32)) (seq i n))) as H.
  { unfold FAT_DIRECTORY_ENTRY_SIZE. induction n as [|n IH]; intros i fuel s0 Hin Hf;
      (destruct fuel as [|fuel]; [lia|]); cbn [while].
    - rewrite decide_False by (unfold SECTOR_SIZE; lia). done.
    - rewrite decide_True by (unfold SECTOR_SIZE; lia).
      rewrite slice_Ok by (rewrite ?Hl; unfold SECTOR_SIZE; lia). cbn [mbind outcome_bind seq map].
      set (e := sub sector (32 * i) (32 * i + 32)).
      assert (length e = 32%nat) as He
        by (unfold e; rewrite length_sub by (rewrite Hl; unfold SECTOR_SIZE; lia); lia).
      rewrite (byte_at_get e 0), (byte_at_get e 11) by lia. cbn [mbind outcome_bind].
      rewrite walk_cons.
      unfold is_end_mark, is_live. destruct (byte_at 0 e =? 0x00); [done|].
      replace (32 * i + 32)%nat with (32 * Datatypes.S i)%nat by lia.
      destruct (byte_at 0 e =? 0xe5); cbn [negb andb]; [apply IH; lia|].
      destruct (byte_at 11 e =? FAT_ATTRIBUTE_LONG_NAME); cbn [negb andb orb]; [apply IH; lia|].
      destruct (Z.land (byte_at 11 e) FAT_ATTRIBUTE_VOLUME_ID =? 0); cbn [negb]; [|apply IH; lia].
      destruct (visit s0 e) as [[s1|r]| | |]; cbn [mbind outcome_bind]; try done.
      apply IH; lia. }
  apply (H 16%nat 0%nat); [done|unfold SECTOR_SIZE; lia].
Qed.

Lemma scan_cluster_spec lba ss s :
  sectors_from read_sector lba 0 (sectors_per_cluster fs) = Ok ss →
  scan_cluster read_sector fs visit finish lba s = walk s (directory_entries ss).
Proof.
  intros Hss. unfold scan_cluster, directory_entries.
  assert (∀ n i fuel s ss, (i + n = sectors_per_cluster fs)%nat → (n < fuel)%nat →
    sectors_from read_sector lba i n = Ok ss →
    while fuel (λ '(sector_index, s),
      if decide (sector_index < sectors_per_cluster fs)%nat then
        at_ ← add64 lba (Z.of_nat sector_index);
        sector ← read_sector at_;
        x ← scan_sector visit finish sector s;
        match x with inl s => Ok (inl (Datatypes.S sector_index, s)) | inr r => Ok (inr (inr r)) end
      else Ok (inr (inl s))) (i, s) = walk s (concat (map entries_of ss))) as H.
  { induction n as [|n IH]; intros i fuel s0 ss0 Hin Hf Hs0;
      (destruct fuel as [|fuel]; [lia|]); cbn [while].
    - rewrite decide_False by lia. injection Hs0 as <-. done.
    - rewrite decide_True by lia. cbn [sectors_from] in Hs0.
      apply bind_Ok in Hs0 as (at_ & -> & (sec & Hsec & (rest & Hrest & [= <-])%bind_Ok)%bind_Ok).
      cbn [mbind outcome_bind map concat]. rewrite Hsec. cbn [mbind outcome_bind].
      rewrite scan_sector_spec by (by eapply Hdisk). rewrite walk_app.
      destruct (walk s0 (entries_of sec)) as [[s1|r]| | |]; cbn [mbind outcome_bind]; try done.
      apply IH; [lia|lia|done]. }
  apply (H (sectors_per_cluster fs) 0%nat); [done|lia|done].
Qed.

(** A walk over a directory of at least [n] clusters: it either ends within
    them or goes on in the next cluster. *)
Lemma scan_directory_spec n fuel c ss s :
  (0 < n)%nat → chain_sectors read_sector fs n c = Ok ss → (n ≤ fuel)%nat →
  scan_directory read_sector fs visit finish fuel c s =
    x ← walk s (directory_entries ss);
    match x with
    | inr r => Ok r
    | inl s =>
        last ← chain_last read_sector fs n c;
        next ← next_cluster read_sector fs last;
        scan_directory read_sector fs visit finish (fuel - n) next s
    end.
Proof.
  intros Hn. revert n c ss s Hn. unfold scan_directory.
  induction fuel as [|fuel IH]; intros n c ss s Hn Hch Hf; [lia|].
  destruct n as [|n]; [lia|]. cbn [chain_sectors] in Hch.
  apply bind_Ok in Hch as (here & Hh & Hrest). unfold cluster_sectors in Hh.
  apply bind_Ok in Hh as (lba & Hlba & Hh). cbn [while]. rewrite Hlba. cbn [mbind outcome_bind].
  rewrite (scan_cluster_spec lba here s Hh). destruct n as [|n].
  - injection Hrest as <-. cbn [chain_last mbind outcome_bind].
    destruct (walk s (directory_entries here)) as [[s1|r]| | |]; cbn [mbind outcome_bind]; try done.
    destruct (next_cluster read_sector fs c); cbn [mbind outcome_bind]; try done.
    by rewrite Nat.sub_succ, Nat.sub_0_r.
  - apply bind_Ok in Hrest as (next & Hnext & (rest & Hch & [= <-])%bind_Ok).
    unfold directory_entries. rewrite map_app, concat_app, walk_app.
    change (concat (map entries_of here)) with (directory_entries here).
    change (concat (map entries_of rest)) with (directory_entries rest).
    destruct (walk s (directory_entries here)) as [[s1|r]| | |]; cbn [mbind outcome_bind]; try done.
    rewrite Hnext. cbn [mbind outcome_bind].
    rewrite (IH (Datatypes.S n) next rest s1) by (done || lia).
    cbn [chain_last]. rewrite Hnext. cbn [mbind outcome_bind]. done.
Qed.

End Walk.

(** ** Short names *)

Lemma trim_right_snoc l b :
  trim_right (l ++ [b]) = if b =? SPACE then trim_right l else l ++ [b].
Proof.
  induction l as [|a l IH]; cbn; [done|]. rewrite IH.
  destruct (b =? SPACE); [done|]. by destruct (l ++ [b]) eqn:Hl; [destruct l|].
Qed.

Lemma trim_right_prefix l : trim_right l = take (length (trim_right l)) l.
Proof.
  induction l as [|b l IH]; cbn; [done|]. destruct (trim_right l) as [|t ts] eqn:Ht.
  - by destruct (b =? SPACE).
  - cbn in *. f_equal. exact IH.
Qed.

Lemma trim_right_length l : (length (trim_right l) ≤ length l)%nat.
Proof. rewrite trim_right_prefix, length_take. lia. Qed.

Lemma trim_right_spaces l n : trim_right (l ++ replicate n SPACE) = trim_right l.
Proof.
  induction n as [|n IH]; [by rewrite app_nil_r|].
  by rewrite replicate_S_end, app_assoc, trim_right_snoc, IH.
Qed.

Lemma trim_right_id l : Forall (λ b, b ≠ SPACE) l → trim_right l = l.
Proof.
  intros H. destruct l as [|b l] using rev_ind; [done|]. rewrite trim_right_snoc.
  apply Forall_app in H as [_ [Hb _]%Forall_cons]. by apply Z.eqb_neq in Hb as ->.
Qed.

Lemma trimmed_len_spec entry base n :
  (base + n ≤ length entry)%nat →
  trimmed_len entry base n = Ok (length (trim_right (sub entry base (base + n)))).
Proof.
  intros Hl. unfold trimmed_len.
  apply (while_rule
    (λ k, (k ≤ n)%nat ∧ trim_right (sub entry base (base + n)) = trim_right (sub entry base (base + k)))
    (λ k, k) (λ o, o = Ok (length (trim_right (sub entry base (base + n)))))); [|split; [lia|done]|lia].
  intros k [Hk Ht]. case_decide as Hk0.
  - destruct (lookup_lt_is_Some_2 entry (base + k - 1)) as [b Hb]; [lia|].
    rewrite (get_at_Ok _ _ _ Hb). cbn [mbind outcome_bind].
    assert (sub entry base (base + k) = sub entry base (base + (k - 1)) ++ [b]) as Hs.
    { replace (base + k)%nat with (base + (k - 1) + 1)%nat at 1 by lia.
      apply sub_snoc; [lia|]. by replace (base + (k - 1))%nat with (base + k - 1)%nat by lia. }
    rewrite Hs, trim_right_snoc in Ht. destruct (b =? SPACE).
    + split; [|lia]. split; [lia|done].
    + rewrite Ht, length_app, length_sub by lia. apply f_equal. change (length [b]) with 1%nat. lia.
  - assert (k = 0)%nat as -> by lia. rewrite Ht, Nat.add_0_r, sub_nil. done.
Qed.

Definition shown_as (t : list Z) : DisplayShortName := mkDisplay (splice (replicate 12 0) 0 t) (length t).

Lemma copy_display_spec entry base n t :
  (base + n ≤ length entry)%nat → (length t + n ≤ 12)%nat →
  copy_display entry base n (shown_as t) = Ok (shown_as (t ++ sub entry base (base + n))).
Proof.
  intros Hl Ht. unfold copy_display.
  apply (while_rule
    (λ '(i, d), (i ≤ n)%nat ∧ d = shown_as (t ++ sub entry base (base + i)))
    (λ '(i, _), (n - i)%nat) (λ o, o = Ok (shown_as (t ++ sub entry base (base + n)))));
    [|split; [lia|by rewrite Nat.add_0_r, sub_nil, app_nil_r]|lia].
  intros [i d] [Hi ->]. case_decide as Hlt.
  - destruct (lookup_lt_is_Some_2 entry (base + i)) as [b Hb]; [lia|].
    rewrite (get_at_Ok _ _ _ Hb). cbn [mbind outcome_bind d_bytes d_len shown_as].
    assert (length (t ++ sub entry base (base + i)) = length t + i)%nat as Hla
      by (rewrite length_app, length_sub; lia).
    rewrite set_at_next by (rewrite ?length_replicate; lia). cbn [mbind outcome_bind].
    split; [|lia]. split; [lia|]. unfold shown_as.
    replace (base + S i)%nat with (base + i + 1)%nat by lia.
    rewrite (sub_snoc entry base (base + i) b) by (lia || done). rewrite app_assoc.
    f_equal. rewrite (length_app _ [b]). change (length [b]) with 1%nat. lia.
  - by assert (i = n) as -> by lia.
Qed.

Lemma sub_prefix {A} (l : list A) base n k :
  (k ≤ n)%nat → sub l base (base + k) = take k (sub l base (base + n)).
Proof.
  intros. unfold sub. rewrite take_take. f_equal. lia.
Qed.

Lemma display_short_name_spec name :
  length name = 11%nat → display_short_name name = Ok (shown_as (display_text name)).
Proof.
  intros Hl. unfold display_short_name, display_text.
  rewrite !trimmed_len_spec by lia. cbn [mbind outcome_bind].
  change (0 + 8)%nat with 8%nat. change (8 + 3)%nat with 11%nat. rewrite sub_0.
  set (n := trim_right (take 8 name)). set (e := trim_right (sub name 8 11)).
  pose proof (trim_right_length (take 8 name)) as Hn. rewrite length_take in Hn. fold n in Hn.
  pose proof (trim_right_length (sub name 8 11)) as He. rewrite length_sub in He by lia. fold e in He.
  change (mkDisplay (replicate 12 0) 0) with (shown_as []).
  rewrite copy_display_spec by (cbn; lia). cbn [mbind outcome_bind app].
  assert (sub name 0 (0 + length n) = n) as ->.
  { rewrite sub_prefix with (n := 8%nat), sub_0 by lia. symmetry. apply trim_right_prefix. }
  case_decide as Hz; [by destruct e|]. destruct e as [|b e'] eqn:Hee; [done|]. rewrite <-Hee in *.
  cbn [d_bytes d_len shown_as]. rewrite set_at_next by (rewrite ?length_replicate; lia).
  cbn [mbind outcome_bind].
  change (mkDisplay (splice (replicate 12 0) 0 (n ++ [DOT])) (S (length n)))
    with (mkDisplay (splice (replicate 12 0) 0 (n ++ [DOT])) (S (length n))).
  assert (mkDisplay (splice (replicate 12 0) 0 (n ++ [DOT])) (S (length n)) = shown_as (n ++ [DOT])) as ->
    by (unfold shown_as; rewrite length_app; cbn; f_equal; lia).
  rewrite copy_display_spec by (rewrite ?length_app; change (length [DOT]) with 1%nat; lia).
  rewrite sub_prefix with (n := 3%nat) by lia. change (8 + 3)%nat with 11%nat.
  assert (take (length e) (sub name 8 11) = e) as -> by (symmetry; apply trim_right_prefix).
  by rewrite <-app_assoc.
Qed.

Lemma shown_as_text t : (length t ≤ 12)%nat → take (d_len (shown_as t)) (d_bytes (shown_as t)) = t.
Proof. intros. cbn. by apply take_splice_0. Qed.

Lemma display_text_length name : length name = 11%nat → (length (display_text name) ≤ 12)%nat.
Proof.
  intros Hl. unfold display_text. pose proof (trim_right_length (take 8 name)) as Hn.
  pose proof (trim_right_length (sub name 8 11)) as He.
  rewrite length_take in Hn. rewrite length_sub in He by lia.
  destruct (trim_right (sub name 8 11)) as [|b l]; [lia|]. rewrite length_app. cbn [length] in *. lia.
Qed.

Lemma is_dot_entry_spec t :
  (length t ≤ 12)%nat →
  is_dot_entry (shown_as t) = Ok (bool_decide (t = [DOT]) || bool_decide (t = [DOT; DOT])).
Proof.
  intros Hl. unfold is_dot_entry. cbn [d_bytes d_len shown_as].
  rewrite slice_Ok by (rewrite ?length_splice, ?length_replicate; cbn; lia). cbn [mbind outcome_bind].
  rewrite sub_0. change (take (length t) (splice (replicate 12 0) 0 t))
    with (take (d_len (shown_as t)) (d_bytes (shown_as t))). by rewrite shown_as_text.
Qed.

(** ** Encoding *)

Lemma normalize_fat_byte_Ok b c :
  normalize_fat_byte b = Ok c → c = to_ascii_uppercase b ∧ c ≠ SPACE.
Proof.
  unfold normalize_fat_byte, is_ascii_alphanumeric, is_ascii_lowercase, is_ascii_uppercase,
    is_ascii_digit, to_ascii_uppercase, SPACE. destruct (_ || _) eqn:Ha.
  - intros [= <-]. split; [done|]. unfold is_ascii_lowercase.
    destruct ((97 <=? b) && (b <=? 122)) eqn:Hl; lia.
  - destruct (contains b _) eqn:Hc; [|done]. intros [= <-].
    apply contains_In in Hc. cbn in Hc.
    repeat (destruct Hc as [<-|Hc]; [split; [reflexivity|discriminate]|]). done.
Qed.

Lemma copy_name_Ok name at_ bytes r :
  (at_ + length bytes ≤ length name)%nat → copy_name name at_ bytes = Ok r →
  r = splice name at_ (map to_ascii_uppercase bytes) ∧
  Forall (λ b, to_ascii_uppercase b ≠ SPACE) bytes.
Proof.
  unfold copy_name. intros Hlen (p & Hp & Hr)%bind_Ok.
  assert (∀ bytes i cur, (at_ + i + length bytes ≤ length cur)%nat →
    for_each (λ '(index, name) byte,
      b ← normalize_fat_byte byte; name ← set_at name (at_ + index) b; Ok (S index, name))
      (i, cur) bytes = Ok p →
    p = ((i + length bytes)%nat, splice cur (at_ + i) (map to_ascii_uppercase bytes)) ∧
    Forall (λ b, to_ascii_uppercase b ≠ SPACE) bytes) as H.
  { clear. induction bytes as [|b bytes IH]; intros i cur Hl Hf.
    - injection Hf as <-. split; [|done]. f_equal; [cbn; lia|].
      unfold splice. cbn. rewrite Nat.add_0_r. symmetry. apply take_drop.
    - cbn [for_each] in Hf. apply bind_Ok in Hf as (s & (c & Hc & (cur' & Hs & [= <-])%bind_Ok)%bind_Ok & Hf).
      apply normalize_fat_byte_Ok in Hc as [-> Hc]. cbn [length] in Hl.
      unfold set_at in Hs. rewrite decide_True in Hs by lia. injection Hs as <-.
      apply IH in Hf as [-> HF]; [|rewrite length_insert; lia]. split; [|by constructor].
      f_equal; [cbn; lia|]. rewrite <-splice_single by lia.
      replace (at_ + S i)%nat with (at_ + i + length [to_ascii_uppercase b])%nat by (cbn; lia).
      rewrite splice_adjacent by (rewrite length_map; cbn; lia). done. }
  destruct p as [k nm]. injection Hr as <-.
  destruct (H bytes 0%nat name) as [[= _ ->] HF]; [lia|done|]. by rewrite Nat.add_0_r.
Qed.

(** What a short name looks like: both parts padded with spaces. *)
Lemma make_short_name_Ok component name :
  make_short_name component = Ok name →
  length name = 11%nat ∧ display_text name = map to_ascii_uppercase component.
Proof.
  unfold make_short_name. pose proof (join_split DOT component) as Hj.
  destruct (split_on DOT component) as [|base parts]; [done|].
  destruct (bool_decide (1 < length parts)%nat) eqn:Hp; [done|].
  destruct (bool_decide (base = [])) eqn:Hb; [done|].
  destruct (bool_decide (8 < length base)%nat) eqn:H8; [done|]. cbn [orb].
  apply bool_decide_eq_false in Hp, Hb, H8. intros (n1 & H1 & Hrest)%bind_Ok.
  apply copy_name_Ok in H1 as [-> HF]; [|rewrite length_replicate; lia].
  set (B := map to_ascii_uppercase base) in *.
  assert (length B = length base) as HB by apply length_map.
  assert (Forall (λ b, b ≠ SPACE) B) as HFB by (unfold B; by apply Forall_map).
  assert (splice (replicate 11 SPACE) 0 B = B ++ replicate (8 - length B) SPACE ++ replicate 3 SPACE) as Hsp.
  { unfold splice. rewrite take_0, drop_replicate, <-replicate_add. cbn [app]. do 2 f_equal. lia. }
  assert (take 8 (B ++ replicate (8 - length B) SPACE ++ replicate 3 SPACE)
    = B ++ replicate (8 - length B) SPACE) as Ht8.
  { rewrite app_assoc. apply take_app_length'. rewrite length_app, length_replicate. lia. }
  destruct parts as [|ext [|? ?]]; [| |cbn in Hp; lia].
  - rewrite Hsp in Hrest. apply (f_equal (λ o, default [] (match o with Ok x => Some x | _ => None end))) in Hrest.
    cbn [default from_option id] in Hrest. subst name. split.
    + rewrite !length_app, !length_replicate. lia.
    + unfold display_text, sub. rewrite Ht8.
      rewrite app_assoc, drop_app_length' by (rewrite length_app, length_replicate; lia).
      change (trim_right (take (11 - 8) (replicate 3 SPACE))) with (@nil Z).
      rewrite trim_right_spaces, trim_right_id by done. cbn in Hj. by subst base.
  - destruct (bool_decide (ext = [])) eqn:He; [done|].
    destruct (bool_decide (3 < length ext)%nat) eqn:H3; [done|]. cbn [orb] in Hrest.
    apply bool_decide_eq_false in He, H3.
    apply copy_name_Ok in Hrest as [-> HFE];
      [|rewrite Hsp, !length_app, !length_replicate; lia].
    set (E := map to_ascii_uppercase ext) in *.
    assert (length E = length ext) as HE by apply length_map.
    assert (Forall (λ b, b ≠ SPACE) E) as HFE' by (unfold E; by apply Forall_map).
    assert (splice (splice (replicate 11 SPACE) 0 B) 8 E =
      (B ++ replicate (8 - length B) SPACE) ++ E ++ replicate (3 - length E) SPACE) as ->.
    { rewrite Hsp. unfold splice. rewrite Ht8. do 2 f_equal.
      rewrite app_assoc, drop_app_ge by (rewrite length_app, length_replicate; lia).
      rewrite length_app, length_replicate, drop_replicate. f_equal. lia. }
    assert (length (B ++ replicate (8 - length B) SPACE) = 8%nat) as Hl8
      by (rewrite length_app, length_replicate; lia).
    split; [rewrite length_app, Hl8, length_app, length_replicate; lia|].
    unfold display_text, sub. rewrite take_app_length' by done. rewrite drop_app_length' by done.
    rewrite (take_ge _ (11 - 8)) by (rewrite length_app, length_replicate; lia).
    rewrite !trim_right_spaces, !trim_right_id by done.
    cbn in Hj. rewrite <-Hj, map_app. fold B. cbn [map]. fold E.
    change (to_ascii_uppercase DOT) with DOT. destruct E eqn:HEE; [|done].
    destruct ext; [done|]. unfold E in HEE. discriminate.
Qed.

(** ** Listings *)

Lemma list_entry_spec (buffer done_ e : list Z) :
  (11 ≤ length e)%nat → (length done_ ≤ length buffer)%nat →
  list_entry (length done_, splice buffer 0 done_) e =
    let line := if shown e then display_text (take 11 e) ++ [NEWLINE] else [] in
    if decide (length done_ + length line ≤ length buffer)%nat
    then Ok (inl (length (done_ ++ line), splice buffer 0 (done_ ++ line))) else Err BufferTooSmall.
Proof.
  intros He Hd. unfold list_entry, shown. rewrite slice_Ok, sub_0 by lia. cbn [mbind outcome_bind].
  assert (length (take 11 e) = 11%nat) as H11 by (rewrite length_take; lia).
  rewrite display_short_name_spec by done. cbn [mbind outcome_bind].
  set (t := display_text (take 11 e)).
  pose proof (display_text_length _ H11) as Ht. fold t in Ht.
  rewrite is_dot_entry_spec by done. cbn [mbind outcome_bind].
  destruct (bool_decide (t = [DOT]) || bool_decide (t = [DOT; DOT])); cbn [negb].
  - rewrite app_nil_r. rewrite decide_True by (cbn; lia). done.
  - cbn [d_len d_bytes shown_as]. rewrite length_splice by (cbn; lia).
    rewrite !length_app. change (length [NEWLINE]) with 1%nat.
    destruct (decide (length done_ + (length t + 1) ≤ length buffer)%nat) as [Hf|Hf].
    + rewrite decide_False by lia.
      rewrite slice_Ok by (rewrite ?length_splice, ?length_replicate; cbn; lia).
      cbn [mbind outcome_bind]. rewrite sub_0, take_splice_0 by (rewrite length_replicate; lia).
      rewrite write_at_next by lia. cbn [mbind outcome_bind].
      rewrite set_at_next by (rewrite ?length_app; lia). cbn [mbind outcome_bind].
      rewrite <-app_assoc. do 3 f_equal. lia.
    + rewrite decide_True by lia. done.
Qed.

Lemma listing_cons e es :
  listing (e :: es) = (if shown e then display_text (take 11 e) ++ [NEWLINE] else []) ++ listing es.
Proof.
  unfold listing. rewrite filter_cons. destruct (shown e) eqn:Hs; [by rewrite decide_True|].
  by rewrite decide_False by done.
Qed.

Lemma fold_listing es (buffer done_ : list Z) :
  Forall (λ e, 11 ≤ length e)%nat es → (length done_ ≤ length buffer)%nat →
  fold_visit list_entry (length done_, splice buffer 0 done_) es =
    if decide (length (done_ ++ listing es) ≤ length buffer)%nat
    then Ok (inl (length (done_ ++ listing es), splice buffer 0 (done_ ++ listing es)))
    else Err BufferTooSmall.
Proof.
  intros HF. revert done_. induction HF as [|e es He _ IH]; intros done_ Hd.
  - cbn [fold_visit]. unfold listing. cbn. by rewrite app_nil_r, decide_True.
  - cbn [fold_visit]. rewrite list_entry_spec, listing_cons by done. cbv zeta.
    set (line := if shown e then _ else _). case_decide as Hf; cbn [mbind outcome_bind].
    + rewrite IH by (rewrite length_app; lia). by rewrite <-app_assoc.
    + rewrite decide_False; [done|]. rewrite !length_app. lia.
Qed.

Lemma entries_length ss :
  Forall (λ s, length s = SECTOR_SIZE) ss →
  Forall (λ e : list Z, length e = 32%nat) (directory_entries ss).
Proof.
  intros HF. unfold directory_entries. apply Forall_concat, Forall_map.
  eapply Forall_impl; [exact HF|]. intros s Hs. unfold entries_of. apply Forall_map, Forall_forall.
  intros i Hi%elem_of_seq. rewrite length_sub by (rewrite Hs; unfold SECTOR_SIZE; lia). lia.
Qed.

Lemma live_sublist es : sublist (live_entries es) es.
Proof.
  induction es as [|e es IH]; cbn; [done|]. destruct (is_end_mark e); [apply sublist_nil_l|].
  destruct (is_live e); by constructor.
Qed.

Lemma live_length ss :
  Forall (λ s, length s = SECTOR_SIZE) ss →
  Forall (λ e : list Z, length e = 32%nat) (live_entries (directory_entries ss)).
Proof. intros HF. eapply sublist_Forall; [apply live_sublist|]. by apply entries_length. Qed.

(** ** Lookups *)

(** The first entry with the given name. *)
Definition named (name e : list Z) : bool := bool_decide (take 11 e = name).
Fixpoint first_named (name : list Z) (es : list (list Z)) : option (list Z) :=
  match es with
  | [] => None
  | e :: es => if named name e then Some e else first_named name es
  end.

Lemma found_entry_Ok e : length e = 32%nat → is_Ok (found_entry e) = true.
Proof.
  intros He. unfold found_entry. rewrite !read_le_u16_returns by lia. cbn [mbind outcome_bind].
  rewrite read_le_u32_returns by lia. cbn [mbind outcome_bind].
  rewrite (byte_at_get e 11) by lia. done.
Qed.

Lemma fold_find name es :
  Forall (λ e : list Z, length e = 32%nat) es →
  fold_visit (R:=option FatDirectoryEntry) (λ _ entry,
      nm ← slice entry 0 11;
      if decide (nm = name) then e ← found_entry entry; Ok (inr (Some e)) else Ok (inl tt)) tt es =
    match first_named name es with
    | Some e => d ← found_entry e; Ok (inr (Some d))
    | None => Ok (inl tt)
    end.
Proof.
  induction 1 as [|e es He _ IH]; [done|]. cbn [fold_visit first_named].
  rewrite slice_Ok, sub_0 by lia. cbn [mbind outcome_bind]. unfold named.
  case_decide as Hn; [rewrite bool_decide_true by done|rewrite bool_decide_false by done].
  - destruct (found_entry e); done.
  - cbn [mbind outcome_bind]. apply IH.
Qed.

(** ** A concrete disk

    One sector per cluster: the table in sector 1, the root directory in
    cluster 2 (sector 2), a file of 5 bytes in cluster 3. *)

Definition padded_sector (l : list Z) : list Z := l ++ replicate (SECTOR_SIZE - length l) 0.
Definition sample_entry : list Z := ascii "A       TXT" ++ [0x20] ++ replicate 8 0 ++ [0; 0]
  ++ replicate 4 0 ++ [3; 0] ++ [5; 0; 0; 0].
Definition sample_disk (lba : Z) : res (list Z) :=
  if lba =? 1 then
    Ok (padded_sector (replicate 8 0 ++ [0xff; 0xff; 0xff; 0x0f] ++ [0xff; 0xff; 0xff; 0x0f]))
  else if lba =? 2 then Ok (padded_sector sample_entry)
  else if lba =? 3 then Ok (padded_sector (ascii "hello"))
  else Ok (replicate SECTOR_SIZE 0).
Definition sample_fs : Fat32 := mkFat32 0 100 1 1 2 2.

Lemma sample_disk_ok lba s : sample_disk lba = Ok s → length s = SECTOR_SIZE.
Proof.
  unfold sample_disk. repeat destruct (_ =? _); intros [= <-]; reflexivity.
Qed.

(** * Properties *)

(** C35. Reading a file whose chain has as many readable clusters as its size
    needs returns its size and leaves in the buffer exactly the first [size]
    bytes of the chain's clusters, in chain order, with the rest of the buffer
    untouched; a buffer that is too small is refused before anything is
    read. *)
Theorem read_file_reads_chain read_sector fs entry n ss buffer :
  (∀ lba s, read_sector lba = Ok s → length s = SECTOR_SIZE) →
  (0 < sectors_per_cluster fs)%nat → (0 < size entry)%nat →
  ((n - 1) * (sectors_per_cluster fs * SECTOR_SIZE) < size entry
     ≤ n * (sectors_per_cluster fs * SECTOR_SIZE))%nat →
  chain_sectors read_sector fs n (first_cluster entry) = Ok ss →
  read_file read_sector fs entry buffer =
    if decide (size entry ≤ length buffer)%nat
    then Ok (size entry, splice buffer 0 (take (size entry) (concat ss)))
    else Err BufferTooSmall.
Proof.
  intros Hdisk Hspc Hsize Hn Hch. unfold read_file. case_decide as Hb.
  - rewrite decide_False by lia. done.
  - rewrite decide_True by lia.
    rewrite <-(splice_0_nil buffer) at 1. change 0%nat with (length (@nil Z)) at 2.
    rewrite (read_chain_spec read_sector fs Hdisk n _ ss buffer [] (size entry)) by (done || cbn; lia).
    done.
Qed.

Lemma read_file_reads_chain_witness :
  read_file sample_disk sample_fs (mkDirEntry 3 5 false) (replicate 8 0)
    = Ok (5%nat, ascii "hello" ++ [0; 0; 0]).
Proof.
  rewrite (read_file_reads_chain sample_disk sample_fs (mkDirEntry 3 5 false) 1
    [padded_sector (ascii "hello")] (replicate 8 0) sample_disk_ok
    ltac:(vm_compute; lia) ltac:(vm_compute; lia) ltac:(split; vm_compute; lia)
    ltac:(vm_compute; reflexivity)).
  vm_compute. reflexivity.
Defined.

(** Looking a component up finds the first live entry with its short
    name, long-name, label and deleted entries being skipped and nothing
    behind the end mark being seen; without such an entry the answer is
    [FileNotFound], at the end mark or at the end of the chain. *)
Theorem find_in_directory_first read_sector fs n fuel c component name ss :
  (∀ lba s, read_sector lba = Ok s → length s = SECTOR_SIZE) →
  (0 < n ≤ fuel)%nat → chain_sectors read_sector fs n c = Ok ss →
  make_short_name component = Ok name →
  (ended (directory_entries ss) = true ∨
   (last ← chain_last read_sector fs n c; next_cluster read_sector fs last) = Err FileNotFound) →
  match first_named name (live_entries (directory_entries ss)) with
  | Some e => find_in_directory read_sector fs fuel c component = found_entry e ∧
      is_Ok (found_entry e) = true
  | None => find_in_directory read_sector fs fuel c component = Err FileNotFound
  end.
Proof.
  intros Hdisk [Hn Hf] Hch Hname Hend. unfold find_in_directory. rewrite Hname.
  cbn [mbind outcome_bind].
  rewrite (scan_directory_spec read_sector fs Hdisk _ _ n fuel c ss tt Hn Hch Hf).
  pose proof (proj2 (chain_lengths read_sector fs Hdisk n c ss Hch)) as HF.
  pose proof (live_length ss HF) as Hlive.
  unfold walk. rewrite fold_find by done.
  destruct (first_named name (live_entries (directory_entries ss))) as [e|] eqn:He.
  - assert (length e = 32%nat) as Hel.
    { clear -He Hlive. induction Hlive as [|x l Hx _ IH]; [done|]. cbn in He.
      destruct (named name x); [congruence|by apply IH]. }
    pose proof (found_entry_Ok e Hel) as Hok. split; [|done].
    destruct (found_entry e) as [d| | |]; try done.
  - cbn [mbind outcome_bind]. destruct (ended (directory_entries ss)); [done|].
    destruct Hend as [?|Hend]; [done|]. cbn [mbind outcome_bind].
    destruct (chain_last read_sector fs n c) as [last| | |]; cbn [mbind outcome_bind] in Hend |- *;
      try congruence; try done. by rewrite Hend.
Qed.

Lemma find_in_directory_first_witness :
  find_in_directory sample_disk sample_fs 1 2 (ascii "a.txt") = Ok (mkDirEntry 3 5 false).
Proof.
  pose proof (find_in_directory_first sample_disk sample_fs 1 1 2 (ascii "a.txt")
    (ascii "A       TXT") [padded_sector sample_entry] sample_disk_ok ltac:(lia)
    ltac:(vm_compute; reflexivity) ltac:(vm_compute; reflexivity)
    ltac:(left; vm_compute; reflexivity)) as H.
  destruct (first_named _ _) as [e|] eqn:He in H; [|vm_compute in He; discriminate].
  destruct H as [H _]. rewrite H. vm_compute in He. injection He as <-. vm_compute. reflexivity.
Defined.

(** Listing a directory that has an end mark writes one line per live
    entry, the dot entries left out, in directory order at the start of the
    buffer, or fails with [BufferTooSmall] exactly when they do not fit.  A
    directory that fills its last cluster, and so ends with its chain, is
    never listed: the end of the chain is reported as [FileNotFound]. *)
Theorem read_dir_lists read_sector fs n fuel path start r ss buffer :
  (∀ lba s, read_sector lba = Ok s → length s = SECTOR_SIZE) →
  (0 < n ≤ fuel)%nat →
  resolve_absolute read_sector fs fuel path = Ok r →
  match r with RootDirectory => start = root_cluster fs | Directory c => start = c | File _ => False end →
  chain_sectors read_sector fs n start = Ok ss →
  let lines := listing (live_entries (directory_entries ss)) in
  (ended (directory_entries ss) = true →
     read_dir read_sector fs fuel path buffer =
       if decide (length lines ≤ length buffer)%nat
       then Ok (length lines, splice buffer 0 lines) else Err BufferTooSmall) ∧
  (ended (directory_entries ss) = false →
     (last ← chain_last read_sector fs n start; next_cluster read_sector fs last) = Err FileNotFound →
     read_dir read_sector fs fuel path buffer =
       if decide (length lines ≤ length buffer)%nat then Err FileNotFound else Err BufferTooSmall).
Proof.
  intros Hdisk [Hn Hf] Hr Hstart Hch lines.
  pose proof (proj2 (chain_lengths read_sector fs Hdisk n start ss Hch)) as HF.
  assert (Forall (λ e, 11 ≤ length e)%nat (live_entries (directory_entries ss))) as Hlive
    by (eapply Forall_impl; [by apply live_length|]; intros e He; cbv beta in He; lia).
  assert (read_dir read_sector fs fuel path buffer =
    scan_directory read_sector fs list_entry (λ s, s) fuel start (0%nat, buffer)) as ->.
  { unfold read_dir. rewrite Hr. cbn [mbind outcome_bind].
    destruct r; [by rewrite Hstart|by rewrite Hstart|done]. }
  rewrite (scan_directory_spec read_sector fs Hdisk _ _ n fuel start ss (0%nat, buffer) Hn Hch Hf).
  unfold walk. pose proof (fold_listing _ buffer [] Hlive ltac:(cbn; lia)) as Hfold.
  cbn [app length] in Hfold. rewrite splice_0_nil in Hfold. fold lines in Hfold. rewrite Hfold.
  split; [intros ->|intros -> Hend]; case_decide; cbn [mbind outcome_bind]; try done.
  destruct (chain_last read_sector fs n start) as [last| | |]; cbn [mbind outcome_bind] in Hend |- *;
    try congruence; try done. by rewrite Hend.
Qed.

Lemma read_dir_lists_witness :
  read_dir sample_disk sample_fs 1 (ascii "/") (replicate 8 0) = Ok (6%nat, ascii "A.TXT" ++ [10; 0; 0]).
Proof.
  destruct (read_dir_lists sample_disk sample_fs 1 1 (ascii "/") 2 RootDirectory
    [padded_sector sample_entry] (replicate 8 0) sample_disk_ok ltac:(lia)
    ltac:(vm_compute; reflexivity) eq_refl ltac:(vm_compute; reflexivity)) as [H _].
  rewrite H by (vm_compute; reflexivity). vm_compute. reflexivity.
Defined.

(** Short names round-trip: a component that can be encoded has an
    11-byte short name, which is displayed as the component in upper case; so
    what a listing shows is found again, and lookups ignore case. *)
Theorem short_name_roundtrip component name :
  make_short_name component = Ok name →
  length name = 11%nat ∧ ∃ d, display_short_name name = Ok d ∧
    take (d_len d) (d_bytes d) = map to_ascii_uppercase component.
Proof.
  intros [Hl Ht]%make_short_name_Ok. split; [done|].
  rewrite display_short_name_spec by done. eexists. split; [done|].
  rewrite shown_as_text; [done|]. by apply display_text_length.
Qed.

Lemma short_name_roundtrip_witness :
  ∃ d, display_short_name (ascii "CAT     TXT") = Ok d ∧
    take (d_len d) (d_bytes d) = ascii "CAT.TXT".
Proof.
  destruct (short_name_roundtrip (ascii "cat.txt") (ascii "CAT     TXT")
    ltac:(vm_compute; reflexivity)) as (_ & d & Hd & Ht).
  exists d. split; [exact Hd|exact Ht].
Defined.

(** C40. A directory whose cluster links to itself, without an end mark and
    without the wanted entry, is searched for ever: no number of rounds is
    enough. *)
Theorem cyclic_directory_never_returns read_sector fs fuel c component name ss :
  (∀ lba s, read_sector lba = Ok s → length s = SECTOR_SIZE) →
  make_short_name component = Ok name → cluster_sectors read_sector fs c = Ok ss →
  next_cluster read_sector fs c = Ok c →
  ended (directory_entries ss) = false →
  first_named name (live_entries (directory_entries ss)) = None →
  find_in_directory read_sector fs fuel c component = Hang.
Proof.
  intros Hdisk Hname Hss Hnext Hend Hnone. unfold find_in_directory. rewrite Hname.
  cbn [mbind outcome_bind]. unfold scan_directory.
  match goal with |- (r ← while fuel ?b ?s; _) = _ => assert (while fuel b s = Hang) as -> end; [|done].
  apply (while_diverges (λ '(cluster, _), cluster = c)); [|done].
  intros [cluster []] ->. exists (c, tt). split; [|done].
  unfold cluster_sectors in Hss. apply bind_Ok in Hss as (lba & -> & Hss). cbn [mbind outcome_bind].
  rewrite (scan_cluster_spec read_sector fs Hdisk _ _ lba ss tt Hss).
  unfold walk. rewrite fold_find, Hnone, Hend.
  - cbn [mbind outcome_bind]. by rewrite Hnext.
  - apply live_length. by apply sectors_from_lengths in Hss as [].
Qed.

(** Cluster 4 of this disk holds deleted entries only and links to itself. *)
Definition cyclic_disk (lba : Z) : res (list Z) :=
  if lba =? 1 then Ok (padded_sector (replicate 16 0 ++ [4; 0; 0; 0]))
  else Ok (replicate SECTOR_SIZE 0xe5).

Lemma cyclic_directory_never_returns_witness :
  find_in_directory cyclic_disk sample_fs 100 4 (ascii "a") = Hang.
Proof.
  apply (cyclic_directory_never_returns cyclic_disk sample_fs 100 4 (ascii "a")
    (ascii "A          ") [replicate SECTOR_SIZE 0xe5]).
  - intros lba s. unfold cyclic_disk. destruct (lba =? 1); intros [= <-]; reflexivity.
  - vm_compute. reflexivity.
  - vm_compute. reflexivity.
  - vm_compute. reflexivity.
  - vm_compute. reflexivity.
  - vm_compute. reflexivity.
Defined.
