(* ===== verification/Gpt.v ===== *)
(** * The partition table ([kernel/kernel/src/storage/gpt.rs])

    Reading the GUID partition table into at most sixteen partitions and
    finding one by type or name.  Reading a sector is a parameter, as in
    [Fat32]. *)

From S2P Require Import Prelude Bytes Errors Fat32.

Local Open Scope Z_scope.

Definition GPT_HEADER_LBA : Z := 1.
Definition GPT_HEADER_SIGNATURE : list Z := ascii "EFI PART".
Definition EFI_SYSTEM_PARTITION_GUID : list Z :=
  [0x28; 0x73; 0x2a; 0xc1; 0x1f; 0xf8; 0xd2; 0x11; 0xba; 0x4b; 0x00; 0xa0; 0xc9; 0x3e; 0xc9; 0x3b].
Definition MAX_PARTITIONS : nat := 16.
Definition NAME_LEN : nat := 36.
#[global] Arguments MAX_PARTITIONS : simpl never.
#[global] Arguments NAME_LEN : simpl never.

Record GptPartition := mkGptPartition {
  type_guid : list Z;
  g_start_lba : Z;
  g_sector_count : Z;
  name : list Z
}.

Abbreviation GptPartitions := (list (option GptPartition)).

Definition read_partition_name (entry : list Z) : res (list Z) :=
  while (S NAME_LEN) (λ '(index, name),
    if decide (index < length name)%nat then
      unit ← read_le_u16 entry (56 + index * 2);
      name ← set_at name index unit;
      Ok (inl (S index, name))
    else Ok (inr name)) (0%nat, replicate NAME_LEN 0).
#[global] Arguments read_partition_name : simpl never.

(** One used entry of the table. *)
Definition parse_partition (entry : list Z) : res GptPartition :=
  guid ← slice entry 0 16;
  start_lba ← read_le_u64 entry 32;
  end_lba ← read_le_u64 entry 40;
  if end_lba <? start_lba then Err InvalidPartitionTable
  else
    count ← add64 (end_lba - start_lba) 1;
    name ← read_partition_name entry;
    Ok (mkGptPartition guid start_lba count name).

Definition is_used (guid : list Z) : bool := existsb (λ byte, negb (byte =? 0)) guid.

(** The entries of one sector. *)
Definition read_entries (entry_size : nat) (sector : list Z) (found : nat) (partitions : GptPartitions)
    : res (nat * GptPartitions) :=
  while (S SECTOR_SIZE) (λ '(offset, found, partitions),
    if decide (offset + entry_size ≤ SECTOR_SIZE)%nat then
      if decide (length partitions ≤ found)%nat then Ok (inr (found, partitions))
      else
        entry ← slice sector offset (offset + entry_size);
        guid ← slice entry 0 16;
        if is_used guid then
          p ← parse_partition entry;
          partitions ← set_at partitions found (Some p);
          Ok (inl ((offset + entry_size)%nat, S found, partitions))
        else Ok (inl ((offset + entry_size)%nat, found, partitions))
    else Ok (inr (found, partitions))) (0%nat, found, partitions).
#[global] Arguments read_entries : simpl never.

Section Disk.
Context (read_sector : Z → res (list Z)).

Definition gpt_read : res GptPartitions :=
  header ← read_sector GPT_HEADER_LBA;
  signature ← slice header 0 8;
  if negb (bool_decide (signature = GPT_HEADER_SIGNATURE)) then Err InvalidGptHeader
  else
    entry_lba ← read_le_u64 header 72;
    entry_count ← read_le_u32 header 80;
    entry_size ← read_le_u32 header 84;
    if entry_size <? 128 then Err InvalidPartitionTable
    else
      table_bytes ← ok_or (checked_mul entry_count entry_size) InvalidPartitionTable;
      let table_sectors :=
        Z.to_nat (align_up table_bytes (Z.of_nat SECTOR_SIZE) / Z.of_nat SECTOR_SIZE) in
      '(_, partitions) ← while (S table_sectors) (λ '(sector_index, found, partitions),
        if decide (sector_index < table_sectors)%nat then
          at_ ← add64 entry_lba (Z.of_nat sector_index);
          sector ← read_sector at_;
          '(found, partitions) ← read_entries (Z.to_nat entry_size) sector found partitions;
          Ok (inl (S sector_index, found, partitions))
        else Ok (inr (found, partitions))) (0%nat, 0%nat, replicate MAX_PARTITIONS None);
      Ok partitions.
End Disk.

(** The three loops of [name_matches]: widening the bytes, comparing them
    with the stored name, and checking that the rest of it is zero. *)
Definition name_matches (part : GptPartition) (wanted : list Z) : res bool :=
  '(fits, expected, expected_len) ← for_each (λ '(fits, expected, expected_len) byte,
      if negb fits then Ok (fits, expected, expected_len)
      else if decide (length expected ≤ expected_len)%nat then Ok (false, expected, expected_len)
      else expected ← set_at expected expected_len byte; Ok (true, expected, S expected_len))
    (true, replicate NAME_LEN 0, 0%nat) wanted;
  if negb fits then Ok false
  else
    same ← while (S expected_len) (λ index,
      if decide (index < expected_len)%nat then
        a ← get_at (name part) index; b ← get_at expected index;
        if a =? b then Ok (inl (S index)) else Ok (inr false)
      else Ok (inr true)) 0%nat;
    if negb same then Ok false
    else
      while (S (length (name part))) (λ index,
        if decide (index < length (name part))%nat then
          a ← get_at (name part) index;
          if a =? 0 then Ok (inl (S index)) else Ok (inr false)
        else Ok (inr true)) expected_len.

(** [iter().flatten().copied().find(..)] *)
Fixpoint find_partition (p : GptPartition → res bool) (partitions : GptPartitions)
    : res (option GptPartition) :=
  match partitions with
  | [] => Ok None
  | Some part :: rest => found ← p part; if (found : bool) then Ok (Some part) else find_partition p rest
  | None :: rest => find_partition p rest
  end.

Definition find_by_type (partitions : GptPartitions) (guid : list Z) : res (option GptPartition) :=
  find_partition (λ part, Ok (bool_decide (type_guid part = guid))) partitions.
Definition find_by_name (partitions : GptPartitions) (wanted : list Z) : res (option GptPartition) :=
  find_partition (λ part, name_matches part wanted) partitions.

(** ** What the table holds *)

(** The entries of a sector: as many whole ones as fit. *)
Definition table_entries (entry_size : nat) (sector : list Z) : list (list Z) :=
  map (λ i, sub sector (i * entry_size) (i * entry_size + entry_size)) (seq 0 (SECTOR_SIZE / entry_size)).

Definition used_entries (entry_size : nat) (sectors : list (list Z)) : list (list Z) :=
  filter (λ e, is_used (take 16 e) = true) (concat (map (table_entries entry_size) sectors)).

Definition partition_array (parts : list GptPartition) : GptPartitions :=
  map Some parts ++ replicate (MAX_PARTITIONS - length parts) None.

(** * Lemmas *)

(** Filling the array with the used entries among [es]. *)
Fixpoint fill (es : list (list Z)) (parts : list GptPartition) : res (list GptPartition) :=
  match es with
  | [] => Ok parts
  | e :: es =>
      if decide (MAX_PARTITIONS ≤ length parts)%nat then Ok parts
      else if is_used (take 16 e) then p ← parse_partition e; fill es (parts ++ [p])
      else fill es parts
  end.

Lemma fill_full es parts : (MAX_PARTITIONS ≤ length parts)%nat → fill es parts = Ok parts.
Proof. intros. destruct es; cbn [fill]; [done|]. by rewrite decide_True. Qed.

Lemma fill_app es es' parts :
  fill (es ++ es') parts = parts ← fill es parts; fill es' parts.
Proof.
  revert parts. induction es as [|e es IH]; intros parts; [done|]. cbn [app fill].
  case_decide; [cbn; by rewrite fill_full|].
  destruct (is_used (take 16 e)); [|apply IH].
  rewrite bind_assoc. destruct (parse_partition e); cbn [mbind outcome_bind]; [apply IH|done..].
Qed.

Lemma length_partition_array parts :
  (length parts ≤ MAX_PARTITIONS)%nat → length (partition_array parts) = MAX_PARTITIONS.
Proof.
  intros. unfold partition_array. rewrite length_app, length_map, length_replicate. lia.
Qed.

Lemma partition_array_insert parts p :
  (length parts < MAX_PARTITIONS)%nat →
  <[length parts := Some p]> (partition_array parts) = partition_array (parts ++ [p]).
Proof.
  intros Hl. unfold partition_array.
  rewrite insert_app_r_alt by (rewrite length_map; lia). rewrite length_map, Nat.sub_diag.
  destruct (MAX_PARTITIONS - length parts)%nat as [|n] eqn:Hn; [lia|].
  rewrite map_app, length_app, <-app_assoc. cbn. do 3 f_equal. lia.
Qed.

Lemma read_entries_spec es sector parts :
  (16 ≤ es)%nat → length sector = SECTOR_SIZE → (length parts ≤ MAX_PARTITIONS)%nat →
  read_entries es sector (length parts) (partition_array parts) =
    parts ← fill (table_entries es sector) parts; Ok (length parts, partition_array parts).
Proof.
  intros Hes Hl. unfold read_entries, table_entries.
  set (n := (SECTOR_SIZE / es)%nat).
  assert (n * es ≤ SECTOR_SIZE < (n + 1) * es)%nat as Hn.
  { unfold n. pose proof (Nat.div_mod_eq SECTOR_SIZE es). pose proof (Nat.mod_upper_bound SECTOR_SIZE es).
    split; lia. }
  assert (n ≤ SECTOR_SIZE)%nat as Hns by nia.
  assert (∀ k i fuel parts, (i + k = n)%nat → (k < fuel)%nat → (length parts ≤ MAX_PARTITIONS)%nat →
    while fuel (λ '(offset, found, partitions),
      if decide (offset + es ≤ SECTOR_SIZE)%nat then
        if decide (length partitions ≤ found)%nat then Ok (inr (found, partitions))
        else
          entry ← slice sector offset (offset + es);
          guid ← slice entry 0 16;
          if is_used guid then
            p ← parse_partition entry;
            partitions ← set_at partitions found (Some p);
            Ok (inl ((offset + es)%nat, S found, partitions))
          else Ok (inl ((offset + es)%nat, found, partitions))
      else Ok (inr (found, partitions))) ((i * es)%nat, length parts, partition_array parts)
    = parts ← fill (map (λ i, sub sector (i * es) (i * es + es)) (seq i k)) parts;
      Ok (length parts, partition_array parts)) as H.
  { induction k as [|k IH]; intros i fuel ps Hik Hf Hps; (destruct fuel as [|fuel]; [lia|]); cbn [while].
    - rewrite decide_False by nia. done.
    - rewrite decide_True by nia. rewrite length_partition_array by done. cbn [seq map fill].
      destruct (decide (MAX_PARTITIONS ≤ length ps)%nat); [done|].
      rewrite slice_Ok by (rewrite ?Hl; nia). cbn [mbind outcome_bind].
      set (e := sub sector (i * es) (i * es + es)).
      assert (length e = es) as He by (unfold e; rewrite length_sub by (rewrite Hl; nia); lia).
      rewrite slice_Ok, sub_0 by lia. cbn [mbind outcome_bind].
      replace (i * es + es)%nat with (S i * es)%nat by lia.
      destruct (is_used (take 16 e)); [|apply IH; lia].
      destruct (parse_partition e) as [p| | |]; cbn [mbind outcome_bind]; try done.
      rewrite set_at_Ok by (rewrite length_partition_array; lia). cbn [mbind outcome_bind].
      rewrite partition_array_insert by lia.
      replace (S (length ps)) with (length (ps ++ [p])) by (rewrite length_app; cbn; lia).
      apply IH; [lia|lia|rewrite length_app; cbn; lia]. }
  intros Hp. apply (H n 0%nat); [done|lia|done].
Qed.

Lemma fill_bound es parts parts' :
  (length parts ≤ MAX_PARTITIONS)%nat → fill es parts = Ok parts' → (length parts' ≤ MAX_PARTITIONS)%nat.
Proof.
  revert parts. induction es as [|e es IH]; intros parts Hl; cbn [fill]; [congruence|].
  case_decide; [congruence|]. destruct (is_used (take 16 e)); [|by apply IH].
  intros (p & _ & Hf)%bind_Ok. apply IH in Hf; [done|]. rewrite length_app. cbn. lia.
Qed.

(** [fill] parses the first sixteen used entries. *)
Lemma fill_spec es parsed :
  Forall2 (λ e p, parse_partition e = Ok p)
    (take MAX_PARTITIONS (filter (λ e, is_used (take 16 e) = true) es)) parsed →
  fill es [] = Ok parsed.
Proof.
  assert (∀ es parts parsed, (length parts ≤ MAX_PARTITIONS)%nat →
    Forall2 (λ e p, parse_partition e = Ok p)
      (take (MAX_PARTITIONS - length parts) (filter (λ e, is_used (take 16 e) = true) es)) parsed →
    fill es parts = Ok (parts ++ parsed)) as H.
  { clear. induction es as [|e es IH]; intros parts parsed Hl HF.
    - rewrite filter_nil, take_nil in HF. apply Forall2_nil_inv_l in HF as ->. cbn. by rewrite app_nil_r.
    - cbn [fill]. case_decide as Hfull.
      + replace (MAX_PARTITIONS - length parts)%nat with 0%nat in HF by lia. cbn in HF.
        apply Forall2_nil_inv_l in HF as ->. by rewrite app_nil_r.
      + rewrite filter_cons in HF. case_decide as Hu.
        * rewrite Hu. destruct (MAX_PARTITIONS - length parts)%nat as [|k] eqn:Hk; [lia|].
          cbn [take] in HF. apply Forall2_cons_inv_l in HF as (p & ps & Hp & HF & ->).
          rewrite Hp. cbn [mbind outcome_bind]. rewrite (IH (parts ++ [p]) ps).
          -- by rewrite <-app_assoc.
          -- rewrite length_app. cbn. lia.
          -- rewrite length_app. cbn [length].
             by replace (MAX_PARTITIONS - (length parts + 1))%nat with k by lia.
        * destruct (is_used (take 16 e)); [done|]. by apply IH. }
  intros HF. apply (H es [] parsed); [cbn; lia|]. cbn [length]. by rewrite Nat.sub_0_r.
Qed.

(** ** Names *)

(** The stored name is the wanted one, filled up with zeros. *)
Definition has_name (wanted : list Z) (part : GptPartition) : bool :=
  bool_decide (name part = wanted ++ replicate (NAME_LEN - length wanted) 0) &&
  bool_decide (length wanted ≤ NAME_LEN)%nat.

Lemma widen_spec wanted done_ :
  (length done_ ≤ NAME_LEN)%nat →
  for_each (E:=StorageError) (λ '(fits, expected, expected_len) byte,
      if negb fits then Ok (fits, expected, expected_len)
      else if decide (length expected ≤ expected_len)%nat then Ok (false, expected, expected_len)
      else expected ← set_at expected expected_len byte; Ok (true, expected, S expected_len))
    (true, splice (replicate NAME_LEN 0) 0 done_, length done_) wanted =
  if decide (length (done_ ++ wanted) ≤ NAME_LEN)%nat
  then Ok (true, splice (replicate NAME_LEN 0) 0 (done_ ++ wanted), length (done_ ++ wanted))
  else Ok (false, splice (replicate NAME_LEN 0) 0 (take NAME_LEN (done_ ++ wanted)), NAME_LEN).
Proof.
  revert done_. induction wanted as [|b wanted IH]; intros done_ Hd.
  - rewrite app_nil_r. by rewrite decide_True.
  - cbn [for_each negb]. rewrite length_splice, length_replicate by (rewrite length_replicate; cbn; lia).
    case_decide as Hfull; cbn [mbind outcome_bind].
    + assert (length done_ = NAME_LEN) as Hdl by lia. rewrite decide_False by (rewrite length_app; cbn; lia).
      rewrite take_app_le, take_ge, Hdl by lia.
      clear IH. induction wanted as [|b' wanted IH]; [done|]. cbn [for_each negb mbind outcome_bind].
      exact IH.
    + rewrite set_at_next by (rewrite ?length_replicate; lia). cbn [mbind outcome_bind].
      replace (S (length done_)) with (length (done_ ++ [b])) by (rewrite length_app; cbn; lia).
      rewrite IH by (rewrite length_app; cbn; lia). by rewrite <-app_assoc.
Qed.

Lemma compare_spec (nm expected : list Z) n :
  (n ≤ length nm)%nat → (n ≤ length expected)%nat →
  while (E:=StorageError) (S n) (λ index,
    if decide (index < n)%nat then
      a ← get_at nm index; b ← get_at expected index;
      if a =? b then Ok (inl (S index)) else Ok (inr false)
    else Ok (inr true)) 0%nat = Ok (bool_decide (take n nm = take n expected)).
Proof.
  intros Hn He.
  apply (while_rule (λ i, (i ≤ n)%nat ∧ take i nm = take i expected) (λ i, (n - i)%nat)
    (λ o, o = Ok (bool_decide (take n nm = take n expected)))); [|split; [lia|done]|lia].
  intros i [Hi Hp]. case_decide as Hlt.
  - destruct (lookup_lt_is_Some_2 nm i) as [a Ha]; [lia|].
    destruct (lookup_lt_is_Some_2 expected i) as [b Hb]; [lia|].
    rewrite (get_at_Ok _ _ _ Ha), (get_at_Ok _ _ _ Hb). cbn [mbind outcome_bind].
    destruct (Z.eqb_spec a b) as [->|Hne].
    + split; [|lia]. split; [lia|]. by rewrite (take_S_r _ _ _ Ha), (take_S_r _ _ _ Hb), Hp.
    + rewrite bool_decide_false; [done|]. intros Heq.
      apply (f_equal (λ l : list Z, l !! i)) in Heq. rewrite !lookup_take_lt in Heq by lia. congruence.
  - assert (i = n) as -> by lia. by rewrite bool_decide_true.
Qed.

Lemma zeros_spec (nm : list Z) from :
  (from ≤ length nm)%nat →
  while (E:=StorageError) (S (length nm)) (λ index,
    if decide (index < length nm)%nat then
      a ← get_at nm index; if a =? 0 then Ok (inl (S index)) else Ok (inr false)
    else Ok (inr true)) from = Ok (bool_decide (drop from nm = replicate (length nm - from) 0)).
Proof.
  intros Hf.
  apply (while_rule
    (λ i, (from ≤ i ≤ length nm)%nat ∧
       (drop from nm = replicate (length nm - from) 0 ↔ drop i nm = replicate (length nm - i) 0))
    (λ i, (length nm - i)%nat)
    (λ o, o = Ok (bool_decide (drop from nm = replicate (length nm - from) 0)))); [|split; [lia|done]|lia].
  intros i [Hi Hiff]. case_decide as Hlt.
  - destruct (lookup_lt_is_Some_2 nm i) as [a Ha]; [lia|].
    rewrite (get_at_Ok _ _ _ Ha). cbn [mbind outcome_bind].
    rewrite (drop_S _ _ _ Ha) in Hiff. replace (length nm - i)%nat with (S (length nm - S i)) in Hiff by lia.
    cbn [replicate] in Hiff. destruct (Z.eqb_spec a 0) as [->|Hne].
    + split; [|lia]. split; [lia|]. rewrite Hiff. split; [by intros [= ?]|by intros ->].
    + rewrite bool_decide_false; [done|]. rewrite Hiff. congruence.
  - assert (i = length nm) as -> by lia. rewrite bool_decide_true; [done|].
    apply Hiff. by rewrite drop_ge, Nat.sub_diag by lia.
Qed.

Lemma name_matches_spec part wanted :
  length (name part) = NAME_LEN → name_matches part wanted = Ok (has_name wanted part).
Proof.
  intros Hl. unfold name_matches, has_name.
  rewrite <-(splice_0_nil (replicate NAME_LEN 0)). change 0%nat with (length (@nil Z)) at 2.
  rewrite widen_spec by (cbn; lia). cbn [app]. case_decide as Hfit; cbn [mbind outcome_bind negb].
  2: { by rewrite andb_comm, bool_decide_false. }
  rewrite compare_spec by (rewrite ?length_splice, ?length_replicate; rewrite ?length_replicate; cbn; lia).
  cbn [mbind outcome_bind]. rewrite take_splice_0 by (rewrite length_replicate; lia).
  rewrite (bool_decide_true (length wanted ≤ NAME_LEN)%nat) by done. rewrite andb_true_r.
  case_bool_decide as Hsame; cbn [negb].
  - rewrite zeros_spec by lia. rewrite Hl. f_equal. apply bool_decide_ext.
    rewrite <-(take_drop (length wanted) (name part)) at 2. rewrite Hsame.
    split; [by intros ->|]. by intros ?%app_inv_head.
  - rewrite bool_decide_false; [done|]. intros Heq. apply Hsame. rewrite Heq. apply take_app_length.
Qed.

(** ** The whole table *)

(** The sectors of the table. *)
Fixpoint table_sectors (read_sector : Z → res (list Z)) (lba : Z) (i n : nat) : res (list (list Z)) :=
  match n with
  | O => Ok []
  | S n =>
      at_ ← add64 lba (Z.of_nat i);
      s ← read_sector at_; rest ← table_sectors read_sector lba (S i) n; Ok (s :: rest)
  end.

Lemma read_table_spec read_sector lba es n sectors parts :
  (∀ lba s, read_sector lba = Ok s → length s = SECTOR_SIZE) → (16 ≤ es)%nat →
  table_sectors read_sector lba 0 n = Ok sectors →
  fill (concat (map (table_entries es) sectors)) [] = Ok parts →
  while (S n) (λ '(sector_index, found, partitions),
    if decide (sector_index < n)%nat then
      at_ ← add64 lba (Z.of_nat sector_index);
      sector ← read_sector at_;
      '(found, partitions) ← read_entries es sector found partitions;
      Ok (inl (S sector_index, found, partitions))
    else Ok (inr (found, partitions))) (0%nat, 0%nat, replicate MAX_PARTITIONS None)
  = Ok (length parts, partition_array parts).
Proof.
  intros Hdisk Hes Hs Hfill.
  apply (while_rule
    (λ '(i, found, partitions), ∃ ps rest, found = length ps ∧ partitions = partition_array ps ∧
       (i ≤ n)%nat ∧ (length ps ≤ MAX_PARTITIONS)%nat ∧
       table_sectors read_sector lba i (n - i) = Ok rest ∧
       fill (concat (map (table_entries es) rest)) ps = Ok parts)
    (λ '(i, _, _), (n - i)%nat) (λ o, o = Ok (length parts, partition_array parts))); [| |lia].
  2: { exists [], sectors. rewrite Nat.sub_0_r. split_and!; try done; cbn; lia. }
  intros [[i found] partitions] (ps & rest & -> & -> & Hi & Hps & Hrest & Hf). case_decide as Hlt.
  - destruct (n - i)%nat as [|k] eqn:Hk; [lia|]. cbn [table_sectors] in Hrest.
    apply bind_Ok in Hrest as (at_ & -> & (s & Hsec & (rest' & Hrest & [= <-])%bind_Ok)%bind_Ok).
    cbn [mbind outcome_bind]. rewrite Hsec. cbn [mbind outcome_bind].
    rewrite read_entries_spec by (done || by eapply Hdisk).
    cbn [map concat] in Hf. rewrite fill_app in Hf. apply bind_Ok in Hf as (ps' & Hps' & Hf).
    rewrite Hps'. cbn [mbind outcome_bind]. split; [|lia].
    exists ps', rest'. split_and!; [done|done|lia|by eapply fill_bound| |done].
    by replace (n - S i)%nat with k by lia.
  - replace (n - i)%nat with 0%nat in Hrest by lia. injection Hrest as <-. injection Hf as ->. done.
Qed.

Lemma find_partition_array p (q : GptPartition → bool) parts :
  Forall (λ part, p part = Ok (q part)) parts →
  find_partition p (partition_array parts) = Ok (snd <$> list_find (λ part, q part = true) parts).
Proof.
  unfold partition_array. intros HF. generalize (MAX_PARTITIONS - length parts)%nat. intros n.
  induction HF as [|part parts Hp _ IH]; cbn [map app find_partition list_find].
  - induction n as [|n IH]; [done|]. exact IH.
  - rewrite Hp. cbn [mbind outcome_bind]. destruct (q part) eqn:Hq; [by rewrite decide_True|].
    rewrite decide_False by done. rewrite IH. by destruct (list_find _ parts) as [[]|].
Qed.

Lemma read_partition_name_length entry nm :
  read_partition_name entry = Ok nm → length nm = NAME_LEN.
Proof.
  unfold read_partition_name. intros H.
  match type of H with while ?f ?b ?s = _ =>
    assert (match while f b s with Ok nm => length nm = NAME_LEN | _ => True end) as Hl;
    [|by rewrite H in Hl] end.
  apply (while_rule (λ '(i, nm), (i ≤ NAME_LEN)%nat ∧ length nm = NAME_LEN) (λ '(i, _), (NAME_LEN - i)%nat)
    (λ o, match o with Ok nm => length nm = NAME_LEN | _ => True end));
    [|split; [lia|apply length_replicate]|lia].
  intros [i cur] [Hi Hl]. case_decide as Hlt; [|done].
  destruct (read_le_u16 entry _) as [u| | |]; cbn [mbind outcome_bind]; try done.
  rewrite set_at_Ok by done. cbn [mbind outcome_bind]. rewrite length_insert. split; [split; [lia|done]|lia].
Qed.

Lemma parse_partition_name e p : parse_partition e = Ok p → length (name p) = NAME_LEN.
Proof.
  unfold parse_partition. intros (g & _ & (s & _ & (l & _ & H)%bind_Ok)%bind_Ok)%bind_Ok.
  destruct (l <? s); [done|]. apply bind_Ok in H as (n & _ & (nm & Hnm & [= <-])%bind_Ok).
  by apply read_partition_name_length in Hnm.
Qed.

(** Where the header says the table is. *)
Definition header_lba (header : list Z) : Z := from_le_bytes (sub header 72 80).
Definition header_count (header : list Z) : Z := from_le_bytes (sub header 80 84).
Definition header_entry_size (header : list Z) : Z := from_le_bytes (sub header 84 88).

(** A disk whose table has one entry, named A, at sectors 10 to 19. *)
Definition sample_gpt_entry : list Z :=
  [1] ++ replicate 31 0 ++ [10] ++ replicate 7 0 ++ [19] ++ replicate 7 0 ++ replicate 8 0 ++
  [65; 0] ++ replicate 70 0.
Definition sample_gpt_header : list Z :=
  padded_sector (ascii "EFI PART" ++ replicate 64 0 ++ [2; 0; 0; 0; 0; 0; 0; 0] ++ [1; 0; 0; 0] ++ [128; 0; 0; 0]).
Definition sample_gpt_disk (lba : Z) : res (list Z) :=
  if lba =? 1 then Ok sample_gpt_header
  else if lba =? 2 then Ok (padded_sector sample_gpt_entry)
  else Ok (replicate SECTOR_SIZE 0).

(** * Properties *)

(** Reading a table whose sectors are readable yields the first sixteen
    used entries in table order, decoded, and nothing else; looking a
    partition up by name then finds the first of them whose stored name is
    exactly the wanted one, zero-filled. *)
Theorem gpt_finds_partition read_sector header sectors parsed wanted :
  (∀ lba s, read_sector lba = Ok s → length s = SECTOR_SIZE) →
  read_sector GPT_HEADER_LBA = Ok header → bytes_ok header →
  take 8 header = GPT_HEADER_SIGNATURE → 128 ≤ header_entry_size header →
  table_sectors read_sector (header_lba header) 0
    (Z.to_nat ((header_count header * header_entry_size header + 511) / 512)) = Ok sectors →
  Forall2 (λ e p, parse_partition e = Ok p)
    (take MAX_PARTITIONS (used_entries (Z.to_nat (header_entry_size header)) sectors)) parsed →
  gpt_read read_sector = Ok (partition_array parsed) ∧
  find_by_name (partition_array parsed) wanted
    = Ok (snd <$> list_find (λ part, has_name wanted part = true) parsed).
Proof.
  intros Hdisk Hh Hb Hsig Hes Hsec Hparsed. pose proof (Hdisk _ _ Hh) as Hl. split.
  - unfold gpt_read. rewrite Hh. cbn [mbind outcome_bind].
    rewrite slice_Ok, sub_0, Hsig by (rewrite ?Hl; unfold SECTOR_SIZE; lia). cbn [mbind outcome_bind].
    rewrite bool_decide_true by done. cbn [negb].
    rewrite read_le_u64_returns by (rewrite Hl; unfold SECTOR_SIZE; lia). cbn [mbind outcome_bind].
    rewrite !read_le_u32_returns by (rewrite Hl; unfold SECTOR_SIZE; lia). cbn [mbind outcome_bind].
    change (sub header 72 (72 + 8)) with (sub header 72 80).
    change (sub header 80 (80 + 4)) with (sub header 80 84).
    change (sub header 84 (84 + 4)) with (sub header 84 88).
    fold (header_lba header) (header_count header) (header_entry_size header).
    rewrite (proj2 (Z.ltb_ge _ _)) by done.
    assert (0 ≤ header_count header < 2 ^ 32 ∧ 0 ≤ header_entry_size header < 2 ^ 32) as [Hc He].
    { split; [pose proof (from_le_bytes_bound (sub header 80 84) (bytes_ok_sub _ _ _ Hb)) as H
        |pose proof (from_le_bytes_bound (sub header 84 88) (bytes_ok_sub _ _ _ Hb)) as H];
        rewrite length_sub in H by (rewrite Hl; unfold SECTOR_SIZE; lia); exact H. }
    assert (header_count header * header_entry_size header ≤ (2 ^ 32 - 1) * (2 ^ 32 - 1)) as Hprod
      by (apply Z.mul_le_mono_nonneg; lia).
    unfold checked_mul. rewrite decide_True by lia. cbn [ok_or mbind outcome_bind].
    change (Z.of_nat SECTOR_SIZE) with (2 ^ 9).
    rewrite align_up_pow2 by (unfold is_u64; lia). rewrite Z.div_mul by lia.
    change (2 ^ 9) with 512. replace (header_count header * header_entry_size header + 512 - 1)
      with (header_count header * header_entry_size header + 511) by lia.
    rewrite (read_table_spec read_sector (header_lba header) (Z.to_nat (header_entry_size header)) _
      sectors parsed Hdisk ltac:(lia) Hsec); [done|].
    by apply fill_spec.
  - unfold find_by_name. apply find_partition_array.
    apply Forall_lookup. intros i part Hi.
    destruct (Forall2_lookup_r _ _ _ _ _ Hparsed Hi) as (e & _ & Hpe).
    apply name_matches_spec. by eapply parse_partition_name.
Qed.

Lemma gpt_finds_partition_witness :
  ∃ p, gpt_read sample_gpt_disk = Ok (partition_array [p]) ∧
    find_by_name (partition_array [p]) [65] = Ok (Some p) ∧ g_start_lba p = 10 ∧ g_sector_count p = 10.
Proof.
  eexists.
  match goal with |- context [partition_array [?p]] =>
    destruct (gpt_finds_partition sample_gpt_disk sample_gpt_header [padded_sector sample_gpt_entry] [p]
      [65]) as [Hr Hf] end.
  - intros lba s. unfold sample_gpt_disk. repeat destruct (_ =? _); intros [= <-]; reflexivity.
  - reflexivity.
  - unfold bytes_ok. apply (bool_decide_unpack _). vm_compute. reflexivity.
  - vm_compute. reflexivity.
  - vm_compute. discriminate.
  - vm_compute. reflexivity.
  - constructor; [|constructor]. vm_compute. reflexivity.
  - split; [exact Hr|]. rewrite Hf. split; [vm_compute; reflexivity|]. split; reflexivity.
Defined.
