(* ===== verification/RootFs.v ===== *)
(** * The root filesystem ([kernel/kernel/src/storage/rootfs.rs])

    Files and directories of the mounted system partition, read into the
    caller's buffer or into a kernel buffer, over a disk that reads sectors. *)

From stdpp Require Import gmap.
From S2P Require Import Prelude Bytes Errors Allocator Paging KernelSpace UserProgram Fat32 Gpt.

Local Open Scope Z_scope.

Section RootFs.
Context (read_sector : Z → Fat32.res (list Z)) (fuel : nat).

(** ** [RootFs] *)

Definition read_file_into (fs : Fat32) (path buffer : list Z) : Fat32.res (nat * list Z) :=
  file ← open_absolute read_sector fs fuel path; read_file read_sector fs file buffer.

(** The bytes of a kernel buffer. *)
Definition as_slice (m : Memory) (b : KernelBuffer) : list Z :=
  map (λ i, m (start_paddr b + Z.of_nat i)) (seq 0 (Z.to_nat (buf_len b))).

(** The buffer and its bytes.  An error leaves the kernel's memory as it says:
    a buffer whose file cannot be read is not released. *)
Definition read_file_buffer (fs : Fat32) (st : MemoryState) (path : list Z)
    : outcome (StorageError * MemoryState) (KernelBuffer * MemoryState) :=
  file ← map_err (λ e, (e, st)) (open_absolute read_sector fs fuel path);
  '(buffer, a, m) ← map_err (λ e, (Errors.Memory e, st))
    (allocate_kernel_buffer (allocator (store st)) (memory (store st)) (Z.of_nat (size file)));
  let st := with_store (mkStore a m (owned (store st))) st in
  '(bytes_read, bytes) ← map_err (λ e, (e, st)) (read_file read_sector fs file (as_slice m buffer));
  if decide (Z.of_nat bytes_read ≠ buf_len buffer) then Panic
  else
    let m := write_phys m (start_paddr buffer) bytes in
    Ok (buffer, with_store (mkStore a m (owned (store st))) st).

(** ** The mounted filesystem, if there is one *)

Definition with_root_fs {A} (root_fs : option Fat32) (operation : Fat32 → Fat32.res A) : Fat32.res A :=
  fs ← ok_or root_fs RootFsUnavailable; operation fs.

Definition read_root_file (root_fs : option Fat32) (st : MemoryState) (path : list Z)
    : outcome (StorageError * MemoryState) (KernelBuffer * MemoryState) :=
  fs ← ok_or root_fs (RootFsUnavailable, st); read_file_buffer fs st path.
Definition read_root_file_into (root_fs : option Fat32) (path buffer : list Z) : Fat32.res (nat * list Z) :=
  with_root_fs root_fs (λ fs, read_file_into fs path buffer).
Definition read_root_dir (root_fs : option Fat32) (path buffer : list Z) : Fat32.res (nat * list Z) :=
  with_root_fs root_fs (λ fs, read_dir read_sector fs fuel path buffer).
Definition ensure_root_dir (root_fs : option Fat32) (path : list Z) : Fat32.res () :=
  with_root_fs root_fs (λ fs, ensure_dir read_sector fs fuel path).

(** Mounting, once the disk can be read: the partition table must name a boot
    partition and the system partition. *)
Definition mount_system : Fat32.res Fat32 :=
  partitions ← gpt_read read_sector;
  esp ← find_by_type partitions EFI_SYSTEM_PARTITION_GUID;
  _ ← ok_or esp MissingEspPartition;
  system ← find_by_name partitions (ascii "LAZERS-SYSTEM");
  system ← ok_or system MissingSystemPartition;
  mount read_sector (mkPartition (g_start_lba system) (g_sector_count system)).

End RootFs.
