(* ===== verification/Storage.v ===== *)
(** * Attaching the disk ([mount_root_fs] of [kernel/kernel/src/storage/rootfs.rs])

    The first half of mounting: the AHCI controller is looked up on the PCI
    bus, may use memory from then on, gets its registers mapped into the
    kernel's space and is started.  What follows, the partition table and the
    filesystem, only reads sectors ([RootFs.mount_system]); the theorem here
    says that these reads see a disk that does not change, which is how
    Gpt.v and Fat32.v take it. *)

From stdpp Require Import gmap.
From S2P Require Import Prelude Bytes Errors Allocator Process Paging KernelSpace Pci Ahci.

Local Open Scope Z_scope.

Section Attach.
Context {Dev : Type} (outl : Z → Z → Dev → Dev) (inl_ : Z → Dev → Z * Dev).
Context (read32 : Z → Dev * Memory → Z * (Dev * Memory)) (write32 : Z → Z → Dev * Memory → Dev * Memory).

Definition register_start (info : AhciControllerInfo) : Z := align_down (Pci.abar info) PAGE_SIZE.
Definition register_end (info : AhciControllerInfo) : Z := align_up (Pci.abar info + AHCI_MMIO_SIZE) PAGE_SIZE.

(** The third component is the root that the processor is to use. *)
Definition attach_disk (d : Dev) (st : MemoryState) : dres (AhciController * Dev * MemoryState * Z) :=
  '(found, d) ← map_err (λ _, AhciControllerNotFound) (find_ahci_controller outl inl_ d);
  info ← ok_or found AhciControllerNotFound;
  let d := enable_memory_bus_mastering outl inl_ (location info) d in
  let abar_start := align_down (Pci.abar info) PAGE_SIZE in
  let abar_end := align_up (Pci.abar info + AHCI_MMIO_SIZE) PAGE_SIZE in
  '(st, root) ← map_err (λ '(e, _), Errors.Memory e) (map_kernel_identity_range st abar_start abar_end true);
  '(c, d, st) ← initialize read32 write32 (Pci.abar info) d st;
  Ok (c, d, st, root).

(** ** Specification *)

(** The bus and the disk: a configuration space of 32-bit registers whose
    first AHCI controller is a device with a disk on its first port (a disk on a
    later port is out of the driver's reach, [Ahci.later_ports_misaddressed]),
    at rest whatever the ports of the bus are used for. *)
Record machine (regs : Dev → Z → Z) (latency : nat) (disk : Z → list Z) (phase : Dev → Phase) (d : Dev) : Prop := {
  ma_space : config_space outl inl_ regs;
  ma_value : ∀ a, 0 ≤ regs d a < 2 ^ 32;
  ma_port : ∀ info, target (regs d) info → (∀ other, target (regs d) other → ordinal (location info) ≤ ordinal (location other)) →
    ahci_port read32 write32 (Pci.abar info) latency disk phase;
  ma_rest : phase d = Reset;
  ma_outl : ∀ port v d, phase (outl port v d) = phase d;
  ma_inl : ∀ port d, phase (snd (inl_ port d)) = phase d
}.

(** ** Port I/O leaves the controller at rest *)

Section Rest.
Context (phase : Dev → Phase) (Hout : ∀ port v d, phase (outl port v d) = phase d).
Context (Hin : ∀ port d, phase (snd (inl_ port d)) = phase d).

Lemma read_u32_rest l o d : phase (snd (read_u32 outl inl_ l o d)) = phase d.
Proof. unfold read_u32. by rewrite Hin, Hout. Qed.

Lemma read_u8_rest l o d : phase (snd (read_u8 outl inl_ l o d)) = phase d.
Proof. unfold read_u8. pose proof (read_u32_rest l (Z.land o 0xfc) d). by destruct (read_u32 _ _ _ _ _). Qed.

Lemma read_u16_rest l o d : phase (snd (read_u16 outl inl_ l o d)) = phase d.
Proof. unfold read_u16. pose proof (read_u32_rest l (Z.land o 0xfc) d). by destruct (read_u32 _ _ _ _ _). Qed.

Lemma enable_rest l d : phase (enable_memory_bus_mastering outl inl_ l d) = phase d.
Proof.
  unfold enable_memory_bus_mastering. pose proof (read_u16_rest l PCI_COMMAND_OFFSET d) as H1.
  destruct (read_u16 _ _ _ _ _) as [v d1]. unfold write_u16, write_u32.
  pose proof (read_u32_rest l (Z.land PCI_COMMAND_OFFSET 0xfc) d1) as H2. destruct (read_u32 _ _ _ _ _) as [v2 d2].
  cbn [snd] in *. by rewrite !Hout, H2.
Qed.

Lemma probe_rest l d : phase (snd (probe_function outl inl_ l d)) = phase d.
Proof.
  unfold probe_function. pose proof (read_u16_rest l 0 d) as H1. destruct (read_u16 _ _ _ _ _) as [v1 d1]. cbn [snd] in H1.
  destruct (v1 =? 0xffff); [done|].
  pose proof (read_u32_rest l PCI_CLASS_OFFSET d1) as H2. destruct (read_u32 _ _ _ _ _) as [v2 d2]. cbn [snd] in H2. cbv zeta.
  match goal with |- context [if ?b then _ else _] => destruct b end; [|cbn; congruence].
  pose proof (read_u32_rest l PCI_BAR5_OFFSET d2) as H3. destruct (read_u32 _ _ _ _ _) as [v3 d3]. cbn [snd] in *. congruence.
Qed.

Lemma scan_functions_rest b s n d p : phase d = p →
  ensures (scan_functions outl inl_ b s n d) (λ '(_, d'), phase d' = p).
Proof.
  intros Hd. unfold scan_functions. apply (ensures_while (λ '(_, d1), phase d1 = p)); [|done].
  intros [f d1] H1. destruct (f <? n); [|by apply ensures_Ok].
  pose proof (probe_rest (mkLocation b s f) d1) as H2. destruct (probe_function _ _ _ _) as [[i|] d2]; apply ensures_Ok; cbn in *; congruence.
Qed.

Lemma scan_slots_rest b d p : phase d = p → ensures (scan_slots outl inl_ b d) (λ '(_, d'), phase d' = p).
Proof.
  intros Hd. unfold scan_slots. apply (ensures_while (λ '(_, d1), phase d1 = p)); [|done].
  intros [s d1] H1. destruct (s <? 32); [|by apply ensures_Ok]. cbv zeta.
  pose proof (read_u16_rest (mkLocation b s 0) 0 d1) as H2. destruct (read_u16 _ _ _ _ _) as [v d2]. cbn [snd] in H2.
  destruct (negb _); [|apply ensures_Ok; congruence].
  pose proof (read_u8_rest (mkLocation b s 0) PCI_HEADER_TYPE_OFFSET d2) as H3. destruct (read_u8 _ _ _ _ _) as [h d3]. cbn [snd] in H3.
  eapply ensures_bind; [apply (scan_functions_rest _ _ _ _ p); congruence|]. intros [[i|] d4] H4; by apply ensures_Ok.
Qed.

Lemma find_rest d p : phase d = p → ensures (find_ahci_controller outl inl_ d) (λ '(_, d'), phase d' = p).
Proof.
  intros Hd. unfold find_ahci_controller. apply (ensures_while (λ '(_, d1), phase d1 = p)); [|done].
  intros [b d1] H1. destruct (b <=? 0xff); [|by apply ensures_Ok].
  eapply ensures_bind; [by apply (scan_slots_rest _ _ p)|]. intros [[i|] d2] H2; by apply ensures_Ok.
Qed.
End Rest.
End Attach.

(** ** The registers *)

Lemma abar_bounds r i : target r i → 0 ≤ Pci.abar i < 2 ^ 32.
Proof.
  intros (_ & _ & -> & _). change 0xfffffff0 with (Z.ldiff (Z.ones 32) (Z.ones 4)).
  set (v := reg r (location i) 36). split; [apply Z.land_nonneg; by right|].
  assert (Z.land v (Z.ldiff (Z.ones 32) (Z.ones 4)) = Z.land (Z.ldiff v (Z.ones 4)) (Z.ones 32)) as ->.
  { apply Z.bits_inj'. intros n Hn. rewrite !Z.land_spec, !Z.ldiff_spec.
    by destruct (Z.testbit v n), (Z.testbit (Z.ones 32) n), (Z.testbit (Z.ones 4) n). }
  rewrite Z.land_ones by lia. apply Z.mod_pos_bound. lia.
Qed.

Lemma register_bounds a : 0 ≤ a < 2 ^ 32 →
  0 ≤ align_down a PAGE_SIZE ∧ align_down a PAGE_SIZE ≤ a ∧ a + AHCI_MMIO_SIZE ≤ align_up (a + AHCI_MMIO_SIZE) PAGE_SIZE ∧
  align_up (a + AHCI_MMIO_SIZE) PAGE_SIZE < 2 ^ 47 ∧
  align_down (align_down a PAGE_SIZE) PAGE_SIZE = align_down a PAGE_SIZE ∧
  align_up (align_up (a + AHCI_MMIO_SIZE) PAGE_SIZE) PAGE_SIZE = align_up (a + AHCI_MMIO_SIZE) PAGE_SIZE.
Proof.
  intros Ha. unfold PAGE_SIZE, AHCI_MMIO_SIZE. change 4096 with (2 ^ 12).
  rewrite !align_down_pow2, !align_up_pow2 by (unfold is_u64; Z.div_mod_to_equations; lia).
  Z.div_mod_to_equations. lia.
Qed.

(** The pages of the controller's registers. *)
Definition in_registers (info : AhciControllerInfo) (va : Z) : Prop := register_start info ≤ va < register_end info.

#[export] Instance in_registers_dec info va : Decision (in_registers info va).
Proof. unfold in_registers. apply _. Defined.

(** The kernel's space with the registers: for the kernel only, writable. *)
Definition with_registers (info : AhciControllerInfo) (old : option translation) (va : Z) : option translation :=
  if decide (in_registers info va) then Some (mkTranslation va false true) else old.

(** ** The whole of it *)

(** The disk is attached: [info] is the controller, the kernel's space has its
    registers, and the memory outside of the usable regions is as it was. *)
Record attached (regions : list MemoryRegion) (st : MemoryState) (root : Z) (info : AhciControllerInfo)
    (m : Memory) : Prop := {
  at_space : ∀ va, is_low va → translate m root va = with_registers info (translate (memory (store st)) root va) va;
  at_memory : ∀ x, ¬ usable_in regions x → m x = memory (store st) x
}.

(** Memory that agrees with the kernel's, but for the free pages. *)
Definition keeps_taken (st : MemoryState) (m : Memory) : Prop :=
  ∀ x, ¬ free_in (store st) x → m x = memory (store st) x.

Lemma taken_attached regions root st st1 info m :
  established regions root st → established regions root st1 →
  (∀ x, ¬ usable_in regions x → memory (store st1) x = memory (store st) x) →
  (∀ va, is_low va → translate (memory (store st1)) root va = with_registers info (translate (memory (store st)) root va) va) →
  keeps_taken st1 m → attached regions st root info m.
Proof.
  intros Hest Hest1 Hmem Htr Hm. destruct (es_tables _ _ _ Hest1) as (T & Hok & Hin & _).
  destruct (frame_tables T root (store st1) (with_memory m (store st1)) Hok) as [Hok2 Hl2];
    [intros x Hx; apply Hm; by eapply taken_tables|apply (tb_alloc _ _ _ Hok)|done|].
  split.
  - intros va Hva. rewrite <-Htr by done. by apply (same_leaves_translate T T root (store st1) (with_memory m (store st1))).
  - intros x Hx. rewrite Hm by (by intros ?%(es_free _ _ _ Hest1)). by apply Hmem.
Qed.

(** The registers lie outside of the window. *)
Definition registers_apart (w : Z) (info : AhciControllerInfo) : Prop :=
  register_end info ≤ PHYS_WINDOW_START ∨ w ≤ register_start info.

Definition register_range (info : AhciControllerInfo) : SharedKernelMapping :=
  mkShared (register_start info) (register_end info) true.

Lemma registers_pages info : 0 ≤ Pci.abar info < 2 ^ 32 →
  pages_of (register_start info) (register_end info) true = register_range info ∧
  0 ≤ register_start info < 2 ^ 47 ∧ 0 ≤ register_end info ≤ 2 ^ 46.
Proof.
  intros Ha. pose proof (register_bounds _ Ha) as (H1 & H2 & H3 & H4 & H5 & H6).
  unfold pages_of, register_range, register_start, register_end. rewrite H5, H6. split; [done|].
  split; [unfold AHCI_MMIO_SIZE in *; lia|]. clear H1 H2 H3 H4 H5 H6. unfold AHCI_MMIO_SIZE, PAGE_SIZE. change 4096 with (2 ^ 12).
  rewrite align_up_pow2 by (unfold is_u64; lia). Z.div_mod_to_equations. lia.
Qed.

(** Nothing comes before the controller that is found. *)
Definition first_target (r : Z → Z) (info : AhciControllerInfo) : Prop :=
  target r info ∧ ∀ other, target r other → ordinal (location info) ≤ ordinal (location other).

(** Mapping the registers. *)
Lemma map_registers regions st root info :
  established regions root st → 0 ≤ Pci.abar info < 2 ^ 32 → registers_apart (phys_window_end st) info →
  match map_kernel_identity_range st (register_start info) (register_end info) true with
  | Ok (st', root') => root' = root ∧ established regions root st' ∧ extends regions (register_range info) st st' ∧
      ∀ m, keeps_taken st' m → attached regions st root info m
  | Err (e, st') => (e = AllocatorExhausted ∨ e = SharedKernelMappingCapacityExceeded) ∧
      established regions root st' ∧ extends regions (register_range info) st st'
  | Panic | Hang => False
  end.
Proof.
  intros Hest Ha Hap. destruct (registers_pages info Ha) as (Hp & Hs & He).
  pose proof (map_kernel_identity_spec regions root st (register_start info) (register_end info) true Hest Hs He) as H.
  cbv zeta in H. rewrite Hp in H. specialize (H (range_beside _ (register_range info) Hap)).
  destruct (map_kernel_identity_range _ _ _ _) as [[st' root']|[e st']| |]; try done.
  destruct H as (-> & Hest' & Hx & Htr). split_and!; [done..|]. intros m Hm.
  apply (taken_attached regions root st st'); [done|done|apply Hx|exact Htr|done].
Qed.

Lemma attach_spec {Dev} outl inl_ read32 write32 (regs : Dev → Z → Z) latency disk phase regions st root d :
  established regions root st → machine outl inl_ read32 write32 regs latency disk phase d →
  (∀ info, first_target (regs d) info → registers_apart (phys_window_end st) info) →
  match attach_disk outl inl_ read32 write32 d st with
  | Ok (c, d1, st1, root1) => ∃ info st0, first_target (regs d) info ∧ root1 = root ∧
      established regions root st0 ∧ extends regions (register_range info) st st0 ∧
      (∀ m, keeps_taken st0 m → attached regions st root info m) ∧
      ready read32 write32 latency disk phase st0 c d1 (memory (store st1)) ∧
      paged (2 ^ 52) (allocator (store st1)) ∧ owned (store st1) = None ∧ st1 = with_store (store st1) st0
  | Err e =>
      e = AhciControllerNotFound ∧ (∀ info, ¬ target (regs d) info) ∨
      e ∈ Errors.Memory <$> [AllocatorExhausted; SharedKernelMappingCapacityExceeded]
  | Panic | Hang => False
  end.
Proof.
  intros Hest [Hspace Hval Hport Hrest Hout Hinl] Hap. unfold attach_disk.
  pose proof (find_rest outl inl_ phase Hout Hinl d Reset Hrest) as Hr.
  destruct (find_spec outl inl_ regs Hspace (regs d) Hval d eq_refl) as (found & d1 & Hf & Hd1 & Hfound).
  specialize (Hr _ Hf). cbv beta in Hr. rewrite Hf. cbn [map_err mbind outcome_bind].
  destruct found as [info|]; cbn [ok_or mbind outcome_bind].
  2: { left. split; [done|]. intros i Hi. pose proof (Hfound i Hi). destruct Hi as [((? & ? & ?) & _) _]. unfold ordinal in *. lia. }
  assert (first_target (regs d) info) as Ht by exact Hfound. pose proof (abar_bounds _ _ (proj1 Ht)) as Ha.
  cbv zeta. fold (register_start info) (register_end info).
  pose proof (map_registers regions st root info Hest Ha (Hap _ Ht)) as Hmap.
  destruct (map_kernel_identity_range _ _ _ _) as [[st0 root1]|[e st0]| |]; cbn [map_err mbind outcome_bind]; try done.
  2: { right. destruct Hmap as ([-> | ->] & _); set_solver. }
  destruct Hmap as (-> & Hest0 & Hx & Hatt). destruct (es_tables _ _ _ Hest0) as (T & Hok & _).
  pose proof (initialize_spec read32 write32 latency disk phase (Pci.abar info) (enable_memory_bus_mastering outl inl_ (location info) d1) st0
    (tb_alloc _ _ _ Hok) (Hport _ (proj1 Ht) (proj2 Ht)) ltac:(by rewrite enable_rest)) as Hi.
  destruct (initialize _ _ _ _ _) as [[[c d2] st2]|e| |]; cbn [mbind outcome_bind]; try done; [|right; set_solver].
  destruct Hi as (Hready & Hp & _ & Hst2 & _ & Ho & _). exists info, st0. split_and!; try done. apply Ho, Hest0.
Qed.

(** * Properties *)


(** A machine whose bus answers with an AHCI controller at every location. *)
Definition sample_register (address : Z) : Z :=
  let offset := Z.land address 0xfc in
  if offset =? 0x00 then 0x29228086 else if offset =? 0x08 then 0x01060102
  else if offset =? 0x24 then sample_base else 0.

Definition sample_out (port value : Z) (d : Z * Phase) : Z * Phase := (sample_outl port value (fst d), snd d).
Definition sample_in (port : Z) (d : Z * Phase) : Z * (Z * Phase) := (sample_register (fst d), d).

Lemma low_of_shifted x k : 8 ≤ k → Z.land (Z.shiftl x k) 0xfc = 0.
Proof.
  intros Hk. change 0xfc with (Z.land (Z.ones 8) 0xfc). rewrite Z.land_assoc, Z.land_ones, Z.shiftl_mul_pow2 by lia.
  replace (x * 2 ^ k) with (x * 2 ^ (k - 8) * 2 ^ 8) by (rewrite <-Z.mul_assoc, <-Z.pow_add_r by lia; f_equal; f_equal; lia).
  by rewrite Z.mod_mul.
Qed.

Lemma sample_abar l : reg sample_register l 0x24 = sample_base.
Proof.
  unfold reg, sample_register. unfold pci_config_address. rewrite !Z.land_lor_distr_l, !low_of_shifted by lia. reflexivity.
Qed.

Lemma sample_bus_machine content : (∀ lba, length (content lba) = 512%nat) →
  machine sample_out sample_in (sample_read content) sample_write (λ _, sample_register) 5 content snd (0, Reset).
Proof.
  intros Hlen.
  split; try done.
  - intros a. unfold sample_register, sample_base. repeat case_match; lia.
  - intros info (_ & _ & -> & _) _. rewrite sample_abar. by apply sample_port.
Qed.

