(* ===== verification/Services.v ===== *)
(** * Services for the running process ([kernel/kernel/src/scheduler/services.rs])

    What a system call asks of the scheduler, the current process, the root
    filesystem and the loader, over the state of the whole kernel. *)

From stdpp Require Import gmap.
From S2P Require Import Prelude Bytes Errors Paths Env Queues Terminal Allocator.
From S2P Require Import Process Paging KernelSpace Loader UserProgram Fat32 RootFs Sched.

Local Open Scope Z_scope.

Inductive SpawnError :=
| SpawnInvalidPath | SpawnFileNotFound | SpawnInvalidExecutable | SpawnResourceUnavailable.

Inductive EnvironmentAccessError :=
| AccessInvalidKey | AccessNotFound | AccessBufferTooSmall | AccessKeyTooLong | AccessValueTooLong
| AccessCapacityExceeded | AccessResourceUnavailable.

Definition map_environment_error (error : EnvironmentError) : EnvironmentAccessError :=
  match error with
  | InvalidKey => AccessInvalidKey
  | KeyTooLong => AccessKeyTooLong
  | ValueTooLong => AccessValueTooLong
  | CapacityExceeded => AccessCapacityExceeded
  end.

Definition map_storage_spawn_error (error : StorageError) : SpawnError :=
  match error with
  | InvalidPath | PathNotAbsolute | InvalidShortName => SpawnInvalidPath
  | FileNotFound | NotAFile => SpawnFileNotFound
  | _ => SpawnResourceUnavailable
  end.

(** [NormalizedPath::resolve] and [as_str]: the path's text. *)
Definition resolve (cwd path : list Z) : Fat32.res (list Z) :=
  '(len, bytes) ← normalize_path cwd path (replicate MAX_CWD_LEN 0);
  text ← slice bytes 0 len;
  ok_or (from_utf8 text) InvalidPath.

(** ** The kernel

    The scheduler's machine, the memory with its allocator, the terminal and
    the mounted filesystem. *)

Record Kernel := mkKernel {
  machine : Machine;
  mem : MemoryState;
  terminal : TerminalEndpoint;
  root_fs : option Fat32
}.

Definition with_machine (m : Machine) (k : Kernel) : Kernel := mkKernel m (mem k) (terminal k) (root_fs k).
Definition with_mem (st : MemoryState) (k : Kernel) : Kernel :=
  mkKernel (machine k) st (terminal k) (root_fs k).
Definition with_terminal (t : TerminalEndpoint) (k : Kernel) : Kernel :=
  mkKernel (machine k) (mem k) t (root_fs k).
Definition with_scheduler (s : SchedulerState) (k : Kernel) : Kernel :=
  with_machine (with_sched s (machine k)) k.
Definition scheduler (k : Kernel) : SchedulerState := sched (machine k).

(** [scheduler.process(scheduler.thread(current).process_id())] *)
Definition process_of {E} (k : Kernel) (current : ThreadId) : outcome E (ProcessId * Process) :=
  t ← thread (scheduler k) current; p ← process (scheduler k) (process_id t); Ok (process_id t, p).

Definition current_process {E} (k : Kernel) (none : E) : outcome E (ProcessId * Process) :=
  current ← ok_or (current_thread (scheduler k)) none; process_of k current.

(** [with_current_process] *)
Definition with_current_process {E A} (k : Kernel) (operation : Process → outcome E A) : outcome E (option A) :=
  match current_thread (scheduler k) with
  | None => Ok None
  | Some current => '(_, p) ← process_of k current; a ← operation p; Ok (Some a)
  end.

(** Storing the changed process. *)
Definition put_current {E} (k : Kernel) (pid : ProcessId) (p : Process) : outcome E Kernel :=
  '(_, s) ← process_mut (scheduler k) pid (λ _, ((), p)); Ok (with_scheduler s k).

(** ** Streams, working directory, environment *)

Definition current_process_read (k : Kernel) (fd : Z) (buffer : list Z)
    : outcome () (nat * list Z * Kernel) :=
  r ← with_current_process k (λ p, Process.read p fd buffer (terminal k));
  match r with
  | Some (n, buffer, t) => Ok (n, buffer, with_terminal t k)
  | None => Ok (0%nat, buffer, k)
  end.

Definition current_process_write (k : Kernel) (fd : Z) (buffer : list Z) : outcome () (nat * Kernel) :=
  r ← with_current_process k (λ p, Process.write p fd buffer (terminal k));
  match r with
  | Some (n, t) => Ok (n, with_terminal t k)
  | None => Ok (0%nat, k)
  end.

Definition current_process_getcwd (k : Kernel) (buffer : list Z) : outcome () (option (nat * list Z)) :=
  r ← with_current_process k (λ p, copy_cwd_into p buffer);
  Ok (match r with Some r => r | None => None end).

Abbreviation ares := (outcome EnvironmentAccessError).

Definition current_process_get_env (k : Kernel) (key buffer : list Z) : ares (nat * list Z) :=
  '(_, p) ← current_process k AccessResourceUnavailable;
  value ← map_err map_environment_error (Process.get_env p key);
  match value with
  | None => Err AccessNotFound
  | Some value =>
      if decide (length buffer < length value)%nat then Err AccessBufferTooSmall
      else buffer ← write_at buffer 0 value; Ok (length value, buffer)
  end.

Definition current_process_list_env (k : Kernel) (buffer : list Z) : ares (nat * list Z) :=
  '(_, p) ← current_process k AccessResourceUnavailable;
  map_err map_environment_error (list_env_into p buffer).

Definition current_process_set_env (k : Kernel) (key value : list Z) : ares Kernel :=
  '(pid, p) ← current_process k AccessResourceUnavailable;
  p ← map_err map_environment_error (Process.set_env key value p);
  put_current k pid p.

Definition current_process_unset_env (k : Kernel) (key : list Z) : ares Kernel :=
  '(pid, p) ← current_process k AccessResourceUnavailable;
  '(existed, p) ← map_err map_environment_error (remove_env key p);
  k ← put_current k pid p;
  if (existed : bool) then Ok k else Err AccessNotFound.

(** ** Files and programs *)

Section Disk.
Context (read_sector : Z → Fat32.res (list Z)) (fuel : nat).

Definition current_process_chdir (k : Kernel) (path : list Z) : Fat32.res Kernel :=
  '(pid, p) ← current_process k RootFsUnavailable;
  c ← cwd p;
  path ← resolve c path;
  _ ← ensure_root_dir read_sector fuel (root_fs k) path;
  p ← set_cwd path p;
  p ← ok_or p InvalidPath;
  put_current k pid p.

Definition current_process_read_file (k : Kernel) (path buffer : list Z) : Fat32.res (nat * list Z) :=
  '(_, p) ← current_process k RootFsUnavailable;
  c ← cwd p;
  path ← resolve c path;
  read_root_file_into read_sector fuel (root_fs k) path buffer.

Definition current_process_read_dir (k : Kernel) (path buffer : list Z) : Fat32.res (nat * list Z) :=
  '(_, p) ← current_process k RootFsUnavailable;
  c ← cwd p;
  path ← resolve c path;
  read_root_dir read_sector fuel (root_fs k) path buffer.

Context (stack_end : nat → Z) (trampoline : Z).

(** [file.release()], [program.owned_pages.release()] *)
Definition release_buffer {E} (b : KernelBuffer) (k : Kernel) : outcome E Kernel :=
  match buffer_release b (allocator (store (mem k))) with
  | Ok a => Ok (with_mem (settle a (memory (store (mem k))) (mem k)) k)
  | _ => Panic
  end.
Definition release_pages {E} (o : OwnedPages) (k : Kernel) : outcome E Kernel :=
  match owned_release o (allocator (store (mem k))) with
  | Ok a => Ok (with_mem (settle a (memory (store (mem k))) (mem k)) k)
  | _ => Panic
  end.

(** The part of [spawn_user_process_and_wait_with_stdio] up to the child: its
    id, or the error and the kernel it leaves behind. *)
Definition spawn_child (k : Kernel) (path argv_tail : list Z) (silent_stdio : bool)
    : outcome (SpawnError * Kernel) (ProcessId * Kernel) :=
  let failed {A} (m : outcome StorageError A) : outcome (SpawnError * Kernel) A :=
    map_err (λ e, (map_storage_spawn_error e, k)) m in
  current ← ok_or (current_thread (scheduler k)) (SpawnResourceUnavailable, k);
  '(_, p) ← process_of k current;
  c ← cwd p;
  normalized_path ← failed (resolve c path);
  '(file, st) ← map_err (λ '(e, st), (map_storage_spawn_error e, with_mem st k))
    (read_root_file read_sector fuel (root_fs k) (mem k) normalized_path);
  let startup := mkStartup normalized_path argv_tail in
  match load_user_program st (as_slice (memory (store st)) file) startup with
  | Panic => Panic
  | Hang => Hang
  | Err (_, st) =>
      k ← release_buffer file (with_mem st k);
      Err (SpawnInvalidExecutable, k)
  | Ok (program, st) =>
      k ← release_buffer file (with_mem st k);
      '(r, s) ← spawn_child_process stack_end trampoline (scheduler k) current program silent_stdio;
      let k := with_scheduler s k in
      match r with
      | inl child => Ok (child, k)
      | inr program =>
          k ← release_pages (lp_owned_pages program) k;
          Err (SpawnResourceUnavailable, k)
      end
  end.

(** Blocking the caller until the child has exited: the switch, and what
    happens when the caller runs again. *)
Definition spawn_and_block (k : Kernel) (path argv_tail : list Z) (silent_stdio : bool)
    : outcome (SpawnError * Kernel) Kernel :=
  '(child, k) ← spawn_child k path argv_tail silent_stdio;
  '(_, m) ← wait_for_child (machine k) child;
  Ok (with_machine m k).

Definition spawn_resumed (k : Kernel) : outcome (SpawnError * Kernel) (Z * Kernel) :=
  '(status, m) ← wait_for_child_result (machine k);
  let k := with_machine m k in
  status ← ok_or status (SpawnResourceUnavailable, k); Ok (status, k).

End Disk.

(** * Lemmas *)

(** The process of the running thread. *)
Definition current_proc (k : Kernel) : option Process :=
  c ← current_thread (scheduler k); t ← thread_at (scheduler k) c; process_at (scheduler k) (process_id t).

(** The record of the running process, as everything here finds it, and the
    kernel with another record in its place. *)
Record running_process (k : Kernel) (pid : ProcessId) (p : Process) : Prop := {
  rp_current : current_proc k = Some p;
  rp_thread : ∃ c t, current_thread (scheduler k) = Some c ∧ thread_at (scheduler k) c = Some t ∧
    process_id t = pid;
  rp_process : process_at (scheduler k) pid = Some p;
  rp_ok : proc_ok p;
  rp_active : active_space (machine k) = p_address_space p;
  rp_lookup : ∀ E (e : E), current_process k e = Ok (pid, p);
  rp_with : ∀ E A (f : Process → outcome E A), with_current_process k f = (a ← f p; Ok (Some a))
}.

Definition put_running (pid : ProcessId) (p : Process) (k : Kernel) : Kernel :=
  with_scheduler (put_process pid (Some p) (scheduler k)) k.

Lemma running_process_ok k : machine_ok (machine k) → ∃ pid p, running_process k pid p.
Proof.
  intros Hm. pose proof Hm as [[Hsz Htab] (c & t & p & Hc & Ht & Hp & Hsp & _)].
  exists (process_id t), p.
  assert (∀ E, thread (E:=E) (scheduler k) c = Ok t) as Ht' by (intros E; by apply thread_Ok).
  assert (∀ E, process (E:=E) (scheduler k) (process_id t) = Ok p) as Hp'
    by (intros E; by apply process_Ok).
  split.
  - unfold current_proc, scheduler. rewrite Hc. cbn [mbind option_bind]. rewrite Ht. done.
  - by exists c, t.
  - done.
  - by apply (ok_process _ _ _ _ Htab) in Hp as [].
  - done.
  - intros E e. unfold current_process, process_of. unfold scheduler in *. rewrite Hc.
    cbn [ok_or mbind outcome_bind]. rewrite Ht'. cbn [mbind outcome_bind]. by rewrite Hp'.
  - intros E A f. unfold with_current_process, process_of. unfold scheduler in *. rewrite Hc, Ht'.
    cbn [mbind outcome_bind]. rewrite Hp'. done.
Qed.

Lemma put_running_ok k pid p p' :
  machine_ok (machine k) → running_process k pid p → same_core p p' → proc_ok p' →
  (∀ E, put_current (E:=E) k pid p' = Ok (put_running pid p' k)) ∧
  machine_ok (machine (put_running pid p' k)) ∧ current_proc (put_running pid p' k) = Some p' ∧
  ∀ j, process_at (scheduler (put_running pid p' k)) j =
    if decide (pid = j) then Some p' else process_at (scheduler k) j.
Proof.
  intros Hm [_ (c & t & Hc & Ht & <-) Hp _ _ _ _] Hcore Hok. pose proof (process_at_lt _ _ _ Hp) as Hl.
  assert (∀ j, process_at (scheduler (put_running (process_id t) p' k)) j =
    if decide (process_id t = j) then Some p' else process_at (scheduler k) j) as Hat
    by (intros j; by apply process_at_put).
  split_and!; [|by apply (machine_put _ c t p p')| |done].
  - intros E. unfold put_current. by rewrite (process_mut_put _ _ _ _ Hp).
  - unfold current_proc.
    change (current_thread (scheduler (put_running _ _ _))) with (current_thread (scheduler k)).
    change (thread_at (scheduler (put_running ?a ?b k))) with (thread_at (scheduler k)).
    rewrite Hc. cbn [mbind option_bind]. rewrite Ht. cbn [mbind option_bind]. by rewrite Hat, decide_True.
Qed.
