(* ===== verification/Syscall.v ===== *)
(** * System calls ([kernel/kernel/src/syscall.rs], [libs/kernel-abi], the traps of [arch.rs])

    The numbers and result codes of the interface, and the dispatch of a trap
    frame: every call reads and writes the caller's memory through its page
    tables. *)

From stdpp Require Import gmap pretty.
From S2P Require Import Prelude Bytes Errors Env Queues Terminal Allocator Process.
From S2P Require Import Paging KernelSpace Loader UserProgram Fat32 RootFs Sched Services.

Local Open Scope Z_scope.

(** ** The interface (libs/kernel-abi) *)

Inductive Syscall :=
| SysRead | SysWrite | SysYield | SysExit | SysSpawnWait | SysReadDir | SysChdir | SysGetCwd
| SysReadFile | SysGetEnv | SysSetEnv | SysUnsetEnv | SysListEnv | SysSpawnWaitSilent.

Definition syscall_number (s : Syscall) : Z :=
  match s with
  | SysRead => 0 | SysWrite => 1 | SysYield => 2 | SysExit => 3 | SysSpawnWait => 4
  | SysReadDir => 5 | SysChdir => 6 | SysGetCwd => 7 | SysReadFile => 8 | SysGetEnv => 9
  | SysSetEnv => 10 | SysUnsetEnv => 11 | SysListEnv => 12 | SysSpawnWaitSilent => 13
  end.

Module SpawnCode.
Definition INVALID_PATH : Z := u64_max.
Definition FILE_NOT_FOUND : Z := u64_max - 1.
Definition INVALID_EXECUTABLE : Z := u64_max - 2.
Definition RESOURCE_UNAVAILABLE : Z := u64_max - 3.
End SpawnCode.
Module ReadDirCode.
Definition INVALID_PATH : Z := u64_max.
Definition NOT_FOUND : Z := u64_max - 1.
Definition BUFFER_TOO_SMALL : Z := u64_max - 2.
Definition RESOURCE_UNAVAILABLE : Z := u64_max - 3.
End ReadDirCode.
Module ChdirCode.
Definition INVALID_PATH : Z := u64_max.
Definition NOT_FOUND : Z := u64_max - 1.
Definition RESOURCE_UNAVAILABLE : Z := u64_max - 2.
End ChdirCode.
Module GetCwdCode.
Definition BUFFER_TOO_SMALL : Z := u64_max.
Definition RESOURCE_UNAVAILABLE : Z := u64_max - 1.
End GetCwdCode.
Module ReadFileCode.
Definition INVALID_PATH : Z := u64_max.
Definition NOT_FOUND : Z := u64_max - 1.
Definition NOT_A_FILE : Z := u64_max - 2.
Definition BUFFER_TOO_SMALL : Z := u64_max - 3.
Definition RESOURCE_UNAVAILABLE : Z := u64_max - 4.
End ReadFileCode.
Module GetEnvCode.
Definition INVALID_KEY : Z := u64_max.
Definition NOT_FOUND : Z := u64_max - 1.
Definition BUFFER_TOO_SMALL : Z := u64_max - 2.
Definition RESOURCE_UNAVAILABLE : Z := u64_max - 3.
End GetEnvCode.
Module SetEnvCode.
Definition INVALID_KEY : Z := u64_max.
Definition KEY_TOO_LONG : Z := u64_max - 1.
Definition VALUE_TOO_LONG : Z := u64_max - 2.
Definition CAPACITY_EXCEEDED : Z := u64_max - 3.
Definition RESOURCE_UNAVAILABLE : Z := u64_max - 4.
End SetEnvCode.
Module UnsetEnvCode.
Definition INVALID_KEY : Z := u64_max.
Definition NOT_FOUND : Z := u64_max - 1.
Definition RESOURCE_UNAVAILABLE : Z := u64_max - 2.
End UnsetEnvCode.
Module ListEnvCode.
Definition BUFFER_TOO_SMALL : Z := u64_max.
Definition RESOURCE_UNAVAILABLE : Z := u64_max - 1.
End ListEnvCode.

(** ** The trap frame (arch.rs) *)

Record TrapFrame := mkFrame {
  f_rax : Z; f_rbx : Z; f_rcx : Z; f_rdx : Z; f_rbp : Z; f_rdi : Z; f_rsi : Z;
  f_r8 : Z; f_r9 : Z; f_r10 : Z; f_r11 : Z; f_r12 : Z; f_r13 : Z; f_r14 : Z; f_r15 : Z;
  f_vector : Z; f_error_code : Z; f_rip : Z; f_cs : Z; f_rflags : Z; f_rsp : Z; f_ss : Z
}.

Definition set_rax (value : Z) (f : TrapFrame) : TrapFrame :=
  mkFrame value (f_rbx f) (f_rcx f) (f_rdx f) (f_rbp f) (f_rdi f) (f_rsi f)
    (f_r8 f) (f_r9 f) (f_r10 f) (f_r11 f) (f_r12 f) (f_r13 f) (f_r14 f) (f_r15 f)
    (f_vector f) (f_error_code f) (f_rip f) (f_cs f) (f_rflags f) (f_rsp f) (f_ss f).

Definition from_user_mode (f : TrapFrame) : bool := Z.land (f_cs f) 3 =? 3.

(** ** The caller's memory (memory/user.rs)

    A slice is taken through the page tables of the running process; the
    kernel may use any page that is mapped.  An address that is not mapped
    faults, and a fault in the kernel is a panic. *)

Definition kernel_view (m : Memory) (root : Z) : View := λ va,
  t ← translate m root va; Some (m (t_phys t)).

Definition active_root (k : Kernel) : Z := root_paddr (active_space (machine k)).
Definition kernel_memory (k : Kernel) : Memory := memory (store (mem k)).

Definition user_slice (k : Kernel) (address len : Z) : outcome () (option (list Z)) :=
  if validate_user_buffer address len then
    bytes ← load_bytes (kernel_view (kernel_memory k) (active_root k)) address (Z.to_nat len);
    Ok (Some bytes)
  else Ok None.

Fixpoint store_bytes (m : Memory) (root address : Z) (bytes : list Z) : outcome () Memory :=
  match bytes with
  | [] => Ok m
  | byte :: bytes =>
      t ← expect (translate m root address);
      store_bytes (write_phys m (t_phys t) [byte]) root (address + 1) bytes
  end.

(** What has been written to a [user_slice_mut]. *)
Definition write_back (k : Kernel) (address : Z) (bytes : list Z) : outcome () Kernel :=
  m ← store_bytes (kernel_memory k) (active_root k) address bytes;
  Ok (with_mem (settle (allocator (store (mem k))) m (mem k)) k).

(** [user_slice] and [from_utf8]. *)
Definition user_str (k : Kernel) (address len : Z) : outcome () (option (list Z)) :=
  bytes ← user_slice k address len; Ok (bytes ← bytes; from_utf8 bytes).

(** [match] on a result. *)
Definition handle {E A R} (m : outcome E A) (err : E → outcome () R) (ok : A → outcome () R)
    : outcome () R :=
  match m with Ok a => ok a | Err e => err e | Panic => Panic | Hang => Hang end.

(** ** The calls *)

Definition syscall_read (k : Kernel) (fd address len : Z) : outcome () (Z * Kernel) :=
  buffer ← user_slice k address len;
  match buffer with
  | None => Ok (0, k)
  | Some buffer =>
      '(n, buffer, k) ← current_process_read k fd buffer;
      k ← write_back k address buffer; Ok (Z.of_nat n, k)
  end.

Definition syscall_write (k : Kernel) (fd address len : Z) : outcome () (Z * Kernel) :=
  buffer ← user_slice k address len;
  match buffer with
  | None => Ok (0, k)
  | Some buffer => '(n, k) ← current_process_write k fd buffer; Ok (Z.of_nat n, k)
  end.

Definition syscall_getcwd (k : Kernel) (address len : Z) : outcome () (Z * Kernel) :=
  buffer ← user_slice k address len;
  match buffer with
  | None => Ok (GetCwdCode.RESOURCE_UNAVAILABLE, k)
  | Some buffer =>
      r ← current_process_getcwd k buffer;
      match r with
      | Some (n, buffer) => k ← write_back k address buffer; Ok (Z.of_nat n, k)
      | None => Ok (GetCwdCode.BUFFER_TOO_SMALL, k)
      end
  end.

Definition get_env_code (e : EnvironmentAccessError) : Z :=
  match e with
  | AccessInvalidKey | AccessKeyTooLong | AccessValueTooLong | AccessCapacityExceeded =>
      GetEnvCode.INVALID_KEY
  | AccessNotFound => GetEnvCode.NOT_FOUND
  | AccessBufferTooSmall => GetEnvCode.BUFFER_TOO_SMALL
  | AccessResourceUnavailable => GetEnvCode.RESOURCE_UNAVAILABLE
  end.

Definition syscall_get_env (k : Kernel) (key_address key_len buffer_address buffer_len : Z)
    : outcome () (Z * Kernel) :=
  key ← user_str k key_address key_len;
  match key with
  | None => Ok (GetEnvCode.INVALID_KEY, k)
  | Some key =>
      buffer ← user_slice k buffer_address buffer_len;
      match buffer with
      | None => Ok (GetEnvCode.RESOURCE_UNAVAILABLE, k)
      | Some buffer =>
          handle (current_process_get_env k key buffer) (λ e, Ok (get_env_code e, k))
            (λ '(n, buffer), k ← write_back k buffer_address buffer; Ok (Z.of_nat n, k))
      end
  end.

Definition set_env_code (e : EnvironmentAccessError) : Z :=
  match e with
  | AccessInvalidKey => SetEnvCode.INVALID_KEY
  | AccessKeyTooLong => SetEnvCode.KEY_TOO_LONG
  | AccessValueTooLong => SetEnvCode.VALUE_TOO_LONG
  | AccessCapacityExceeded => SetEnvCode.CAPACITY_EXCEEDED
  | AccessResourceUnavailable | AccessNotFound | AccessBufferTooSmall =>
      SetEnvCode.RESOURCE_UNAVAILABLE
  end.

Definition syscall_set_env (k : Kernel) (key_address key_len value_address value_len : Z)
    : outcome () (Z * Kernel) :=
  key ← user_str k key_address key_len;
  match key with
  | None => Ok (SetEnvCode.INVALID_KEY, k)
  | Some key =>
      value ← user_str k value_address value_len;
      match value with
      | None => Ok (SetEnvCode.RESOURCE_UNAVAILABLE, k)
      | Some value =>
          handle (current_process_set_env k key value) (λ e, Ok (set_env_code e, k)) (λ k, Ok (0, k))
      end
  end.

Definition unset_env_code (e : EnvironmentAccessError) : Z :=
  match e with
  | AccessInvalidKey | AccessKeyTooLong | AccessValueTooLong | AccessCapacityExceeded =>
      UnsetEnvCode.INVALID_KEY
  | AccessNotFound => UnsetEnvCode.NOT_FOUND
  | AccessResourceUnavailable | AccessBufferTooSmall => UnsetEnvCode.RESOURCE_UNAVAILABLE
  end.

Definition syscall_unset_env (k : Kernel) (key_address key_len : Z) : outcome () (Z * Kernel) :=
  key ← user_str k key_address key_len;
  match key with
  | None => Ok (UnsetEnvCode.INVALID_KEY, k)
  | Some key => handle (current_process_unset_env k key) (λ e, Ok (unset_env_code e, k)) (λ k, Ok (0, k))
  end.

Definition list_env_code (e : EnvironmentAccessError) : Z :=
  match e with
  | AccessBufferTooSmall | AccessCapacityExceeded => ListEnvCode.BUFFER_TOO_SMALL
  | AccessInvalidKey | AccessKeyTooLong | AccessValueTooLong | AccessNotFound
  | AccessResourceUnavailable => ListEnvCode.RESOURCE_UNAVAILABLE
  end.

(** [partial] is what a call that fails in the middle of its answer leaves in
    the caller's buffer: the part it had written. *)
Section Dispatch.
Context (partial : list Z → list Z).

Definition syscall_list_env (k : Kernel) (address len : Z) : outcome () (Z * Kernel) :=
  buffer ← user_slice k address len;
  match buffer with
  | None => Ok (ListEnvCode.RESOURCE_UNAVAILABLE, k)
  | Some buffer =>
      handle (current_process_list_env k buffer)
        (λ e, k ← write_back k address (partial buffer); Ok (list_env_code e, k))
        (λ '(n, buffer), k ← write_back k address buffer; Ok (Z.of_nat n, k))
  end.

Context (read_sector : Z → Fat32.res (list Z)) (fuel : nat).

Definition read_dir_code (e : StorageError) : Z :=
  match e with
  | InvalidPath | PathNotAbsolute | InvalidShortName => ReadDirCode.INVALID_PATH
  | FileNotFound | NotADirectory => ReadDirCode.NOT_FOUND
  | BufferTooSmall => ReadDirCode.BUFFER_TOO_SMALL
  | _ => ReadDirCode.RESOURCE_UNAVAILABLE
  end.

Definition chdir_code (e : StorageError) : Z :=
  match e with
  | InvalidPath | PathNotAbsolute | InvalidShortName => ChdirCode.INVALID_PATH
  | FileNotFound | NotADirectory => ChdirCode.NOT_FOUND
  | _ => ChdirCode.RESOURCE_UNAVAILABLE
  end.

Definition read_file_code (e : StorageError) : Z :=
  match e with
  | InvalidPath | PathNotAbsolute | InvalidShortName => ReadFileCode.INVALID_PATH
  | FileNotFound => ReadFileCode.NOT_FOUND
  | NotAFile => ReadFileCode.NOT_A_FILE
  | BufferTooSmall => ReadFileCode.BUFFER_TOO_SMALL
  | _ => ReadFileCode.RESOURCE_UNAVAILABLE
  end.

Definition syscall_read_dir (k : Kernel) (path_address path_len buffer_address buffer_len : Z)
    : outcome () (Z * Kernel) :=
  path ← user_str k path_address path_len;
  match path with
  | None => Ok (ReadDirCode.INVALID_PATH, k)
  | Some path =>
      buffer ← user_slice k buffer_address buffer_len;
      match buffer with
      | None => Ok (ReadDirCode.RESOURCE_UNAVAILABLE, k)
      | Some buffer =>
          handle (current_process_read_dir read_sector fuel k path buffer)
            (λ e, k ← write_back k buffer_address (partial buffer); Ok (read_dir_code e, k))
            (λ '(n, buffer), k ← write_back k buffer_address buffer; Ok (Z.of_nat n, k))
      end
  end.

Definition syscall_chdir (k : Kernel) (path_address path_len : Z) : outcome () (Z * Kernel) :=
  path ← user_str k path_address path_len;
  match path with
  | None => Ok (ChdirCode.INVALID_PATH, k)
  | Some path =>
      handle (current_process_chdir read_sector fuel k path) (λ e, Ok (chdir_code e, k)) (λ k, Ok (0, k))
  end.

Definition syscall_read_file (k : Kernel) (path_address path_len buffer_address buffer_len : Z)
    : outcome () (Z * Kernel) :=
  path ← user_str k path_address path_len;
  match path with
  | None => Ok (ReadFileCode.INVALID_PATH, k)
  | Some path =>
      buffer ← user_slice k buffer_address buffer_len;
      match buffer with
      | None => Ok (ReadFileCode.RESOURCE_UNAVAILABLE, k)
      | Some buffer =>
          handle (current_process_read_file read_sector fuel k path buffer)
            (λ e, k ← write_back k buffer_address (partial buffer); Ok (read_file_code e, k))
            (λ '(n, buffer), k ← write_back k buffer_address buffer; Ok (Z.of_nat n, k))
      end
  end.

Definition spawn_code (e : SpawnError) : Z :=
  match e with
  | SpawnInvalidPath => SpawnCode.INVALID_PATH
  | SpawnFileNotFound => SpawnCode.FILE_NOT_FOUND
  | SpawnInvalidExecutable => SpawnCode.INVALID_EXECUTABLE
  | SpawnResourceUnavailable => SpawnCode.RESOURCE_UNAVAILABLE
  end.

Context (stack_end : nat → Z) (trampoline : Z).

(** [None]: the child runs and the caller waits; [spawn_result] is its answer
    when it runs again. *)
Definition syscall_spawn (silent : bool) (k : Kernel) (path_address path_len argv_address argv_len : Z)
    : outcome () (option Z * Kernel) :=
  path ← user_str k path_address path_len;
  match path with
  | None => Ok (Some SpawnCode.INVALID_PATH, k)
  | Some path =>
      argv_tail ← user_slice k argv_address argv_len;
      match argv_tail with
      | None => Ok (Some SpawnCode.RESOURCE_UNAVAILABLE, k)
      | Some argv_tail =>
          handle (spawn_and_block read_sector fuel stack_end trampoline k path argv_tail silent)
            (λ '(e, k), Ok (Some (spawn_code e), k)) (λ k, Ok (None, k))
      end
  end.
Definition syscall_spawn_wait := syscall_spawn false.
Definition syscall_spawn_wait_silent := syscall_spawn true.

Definition spawn_result (k : Kernel) : outcome () (Z * Kernel) :=
  handle (spawn_resumed k) (λ '(e, k), Ok (spawn_code e, k)) (λ '(status, k), Ok (status, k)).

(** ** Dispatch

    What becomes of the trap frame: the call returns to the caller, or another
    thread runs first and [resume] completes it, or it never returns.  No
    kernel: the machine has been shut down or halted. *)

Inductive disposition := Returned (frame : TrapFrame) | Yielded | SpawnPending | NoReturn.

Definition finish (frame : TrapFrame) (r : outcome () (Z * Kernel))
    : outcome () (disposition * option Kernel) :=
  '(value, k) ← r; Ok (Returned (set_rax value frame), Some k).

Definition finish_spawn (frame : TrapFrame) (r : outcome () (option Z * Kernel))
    : outcome () (disposition * option Kernel) :=
  '(value, k) ← r;
  Ok (match value with Some value => Returned (set_rax value frame) | None => SpawnPending end, Some k).

Definition do_exit (k : Kernel) (status : Z) : outcome () (disposition * option Kernel) :=
  '(pages, m) ← exit_current_process (machine k) status;
  match m with
  | None => Ok (NoReturn, None)
  | Some m => k ← release_pages pages (with_machine m k); Ok (NoReturn, Some k)
  end.

Definition dispatch (k : Kernel) (frame : TrapFrame) : outcome () (disposition * option Kernel) :=
  let calls s := f_rax frame =? syscall_number s in
  let rdi := f_rdi frame in let rsi := f_rsi frame in
  let rdx := f_rdx frame in let rcx := f_rcx frame in
  if calls SysRead then finish frame (syscall_read k rdi rsi rdx)
  else if calls SysWrite then finish frame (syscall_write k rdi rsi rdx)
  else if calls SysYield then m ← yield_now (machine k); Ok (Yielded, Some (with_machine m k))
  else if calls SysExit then do_exit k rdi
  else if calls SysSpawnWait then finish_spawn frame (syscall_spawn_wait k rdi rsi rdx rcx)
  else if calls SysSpawnWaitSilent then finish_spawn frame (syscall_spawn_wait_silent k rdi rsi rdx rcx)
  else if calls SysReadDir then finish frame (syscall_read_dir k rdi rsi rdx rcx)
  else if calls SysChdir then finish frame (syscall_chdir k rdi rsi)
  else if calls SysGetCwd then finish frame (syscall_getcwd k rdi rsi)
  else if calls SysReadFile then finish frame (syscall_read_file k rdi rsi rdx rcx)
  else if calls SysGetEnv then finish frame (syscall_get_env k rdi rsi rdx rcx)
  else if calls SysSetEnv then finish frame (syscall_set_env k rdi rsi rdx rcx)
  else if calls SysUnsetEnv then finish frame (syscall_unset_env k rdi rsi)
  else if calls SysListEnv then finish frame (syscall_list_env k rdi rsi)
  else Ok (Returned (set_rax 0 frame), Some k).

(** The rest of the call, when its thread runs again. *)
Definition resume (d : disposition) (frame : TrapFrame) (k : Kernel)
    : outcome () (option (TrapFrame * Kernel)) :=
  match d with
  | Returned frame => Ok (Some (frame, k))
  | Yielded => Ok (Some (set_rax 0 frame, k))
  | SpawnPending => '(value, k) ← spawn_result k; Ok (Some (set_rax value frame, k))
  | NoReturn => Ok None
  end.

(** [Display] and [{:#x}] of an unsigned integer. *)
Definition decimal (n : Z) : list Z := ascii (pretty (Z.to_N n)).

Fixpoint hex_digits (fuel : nat) (n : Z) (rest : list Z) : list Z :=
  match fuel with
  | O => rest
  | S fuel =>
      let digit := n mod 16 in
      let rest := (if digit <? 10 then 48 + digit else 87 + digit) :: rest in
      if n / 16 =? 0 then rest else hex_digits fuel (n / 16) rest
  end.
Definition hex (n : Z) : list Z := ascii "0x" ++ hex_digits 16 n [].

(** The line that a fault of a user program prints. *)
Definition user_trap_line (frame : TrapFrame) (cr2 : Z) : list Z :=
  ascii "user trap " ++ decimal (f_vector frame) ++ ascii " rip=" ++ hex (f_rip frame) ++
  ascii " err=" ++ hex (f_error_code frame) ++ ascii " cr2=" ++ hex cr2 ++ [10].

(** [kprintln!] while the system runs: the serial log.  The screen is not part
    of the kernel's state here. *)
Definition print_line (line : list Z) (k : Kernel) : Kernel :=
  with_terminal (mkEndpoint (input (terminal k)) (output (terminal k)) (foldl serial_write_byte (serial (terminal k)) line)) k.

(** [rust_trap_entry]: a fault of a user program is reported and ends it with
    status 1; any other trap is a panic.  [cr2] is the control register. *)
Definition TRAP_INVALID_OPCODE : Z := 6.
Definition TRAP_GENERAL_PROTECTION : Z := 13.
Definition TRAP_PAGE_FAULT : Z := 14.
Definition TRAP_SYSCALL : Z := 0x80.

Definition rust_trap_entry (k : Kernel) (frame : TrapFrame) (cr2 : Z) : outcome () (disposition * option Kernel) :=
  let vector := f_vector frame mod 256 in
  if vector =? TRAP_SYSCALL then dispatch k frame
  else if (vector =? TRAP_INVALID_OPCODE) || (vector =? TRAP_GENERAL_PROTECTION) || (vector =? TRAP_PAGE_FAULT)
  then if from_user_mode frame then do_exit (print_line (user_trap_line frame cr2) k) 1 else Panic
  else Panic.

End Dispatch.

(** ** Specification: a program's memory

    The page tables of a space, none of which the program can reach, and
    different user addresses in different bytes. *)
Record user_space (s : Store) (root : Z) (T : Tables) : Prop := {
  us_tables : Paging.tables_ok T root s;
  us_apart : ∀ va t, user_area va → translate (memory s) root va = Some t → ¬ in_tables T (t_phys t);
  us_distinct : ∀ va va' t t', user_area va → user_area va' →
    translate (memory s) root va = Some t → translate (memory s) root va' = Some t' →
    t_phys t = t_phys t' → va = va'
}.

(** All of it, tables and bytes, lies in the given pages. *)
Record own_space (s : Store) (root : Z) (pgs : list Z) (T : Tables) : Prop := {
  ow_space : user_space s root T;
  ow_tables : ∀ x, in_tables T x → in_pages pgs x;
  ow_reach : ∀ va t, user_area va → translate (memory s) root va = Some t → in_pages pgs (t_phys t);
  ow_user : ∀ va t, is_low va → translate (memory s) root va = Some t → t_user t = true → user_area va
}.

(** The pages of a program. *)
Definition program_pages (o : OwnedPages) : list Z := take (owned_len o) (pages o).

(** No range that every space shares is in the way of programs. *)
Definition extras_apart (st : MemoryState) : Prop :=
  Forall (λ m, sh_end m ≤ USER_IMAGE_BASE ∨ USER_STACK_TOP ≤ sh_start m) (extra_ranges st).

(** [bytes] in place of what stood at [address]. *)
Definition view_set (v : View) (address : Z) (bytes : list Z) : View := λ va,
  if decide (address ≤ va < address + Z.of_nat (length bytes))
  then bytes !! Z.to_nat (va - address) else v va.

(** A physical byte behind one of the addresses. *)
Definition reached_by (m : Memory) (root lo hi x : Z) : Prop :=
  ∃ va t, lo ≤ va < hi ∧ translate m root va = Some t ∧ t_phys t = x.

(** * Lemmas *)

(** ** Reading and writing a program's memory *)

Section UserSpace.
Context {root : Z} {T : Tables}.

Lemma user_space_store s x b :
  user_space s root T → ¬ in_tables T x →
  let s' := with_memory (write_phys (memory s) x [b]) s in
  user_space s' root T ∧ ∀ va, translate (memory s') root va = translate (memory s) root va.
Proof.
  intros [Hok Ha Hd] Hx s'.
  assert (∀ y, in_tables T y → memory s' y = memory s y) as Hsame.
  { intros y Hy. unfold s', write_phys. cbn. rewrite decide_False; [done|]. intros ?.
    assert (y = x) as -> by lia. done. }
  destruct (frame_tables T root s s' Hok Hsame (tb_alloc _ _ _ Hok) ltac:(done)) as [Hok' Hl].
  assert (∀ va, translate (memory s') root va = translate (memory s) root va) as Ht
    by (intros va; by eapply same_leaves_translate).
  split; [|done]. split; [done| |].
  - intros va t. rewrite Ht. apply Ha.
  - intros va va' t t'. rewrite !Ht. apply Hd.
Qed.

Lemma user_area_validated address len :
  validate_user_buffer address len = true → 0 ≤ len →
  len = 0 ∨ ∀ va, address ≤ va < address + len → user_area va.
Proof.
  unfold validate_user_buffer. intros Hv Hl. destruct (Z.eqb_spec len 0) as [|Hne]; [by left|right].
  unfold checked_add in Hv. case_decide; [|done].
  apply andb_true_iff in Hv as [Hv _]. apply andb_true_iff in Hv as [H1 H2].
  intros va Hva. unfold user_area. lia.
Qed.

Lemma kernel_view_store s address b bytes va :
  user_space s root T → user_area address → user_area va → is_Some (kernel_view (memory s) root address) →
  ∃ t, translate (memory s) root address = Some t ∧
    let s' := with_memory (write_phys (memory s) (t_phys t) [b]) s in
    user_space s' root T ∧ (∀ va, translate (memory s') root va = translate (memory s) root va) ∧
    kernel_view (memory s') root va =
      (if decide (va = address) then Some b else kernel_view (memory s) root va) ∧
    view_set (kernel_view (memory s') root) (address + 1) bytes va =
      view_set (kernel_view (memory s) root) address (b :: bytes) va.
Proof.
  intros Hu Ha Hva [y Hy]. unfold kernel_view in Hy. apply bind_Some in Hy as (t & Ht & _).
  exists t. split; [done|]. intros s'.
  destruct (user_space_store s (t_phys t) b Hu) as [Hu' Htr]; [by apply (us_apart _ _ _ Hu address)|].
  fold s' in Hu', Htr.
  assert (kernel_view (memory s') root va =
    if decide (va = address) then Some b else kernel_view (memory s) root va) as Hk.
  { unfold kernel_view. rewrite Htr. case_decide as Heq.
    - subst va. rewrite Ht. cbn. f_equal. unfold s', write_phys. cbn. rewrite decide_True by lia.
      by rewrite Z.sub_diag.
    - destruct (translate (memory s) root va) as [t'|] eqn:Ht'; [|done]. cbn. f_equal.
      unfold s', write_phys. cbn. rewrite decide_False; [done|]. intros Hin.
      apply Heq. eapply (us_distinct _ _ _ Hu); [done|done|exact Ht'|exact Ht|lia]. }
  split_and!; [done|done|done|]. unfold view_set. rewrite Hk. cbn [length].
  destruct (decide (va = address)) as [->|Hne].
  - rewrite decide_False, decide_True by lia. by rewrite Z.sub_diag.
  - destruct (decide (address + 1 ≤ va < address + 1 + Z.of_nat (length bytes))).
    + rewrite decide_True by lia. by replace (Z.to_nat (va - address)) with (S (Z.to_nat (va - (address + 1)))) by lia.
    + by rewrite decide_False by lia.
Qed.

(** Bytes written through the tables are what is read there; nothing else
    changes. *)
Lemma store_bytes_spec s address bytes :
  user_space s root T →
  (∀ va, address ≤ va < address + Z.of_nat (length bytes) →
     user_area va ∧ is_Some (kernel_view (memory s) root va)) →
  ∃ m', store_bytes (memory s) root address bytes = Ok m' ∧
    user_space (with_memory m' s) root T ∧
    (∀ va, translate m' root va = translate (memory s) root va) ∧
    (∀ va, user_area va →
       kernel_view m' root va = view_set (kernel_view (memory s) root) address bytes va) ∧
    ∀ x, ¬ reached_by (memory s) root address (address + Z.of_nat (length bytes)) x → m' x = memory s x.
Proof.
  revert s address. induction bytes as [|b bytes IH]; intros s address Hu Hm.
  { exists (memory s). split_and!; try done; [by destruct s|]. intros va _. unfold view_set.
    by rewrite decide_False by (cbn; lia). }
  cbn [store_bytes]. cbn [length] in Hm. destruct (Hm address) as [Ha Hsome]; [lia|].
  destruct (kernel_view_store s address b bytes address Hu Ha Ha Hsome) as (t & Ht & Hu' & Htr & _).
  rewrite Ht. cbn [expect mbind outcome_bind].
  set (s' := with_memory (write_phys (memory s) (t_phys t) [b]) s) in *.
  change (write_phys (memory s) (t_phys t) [b]) with (memory s').
  assert (∀ va, user_area va → kernel_view (memory s') root va =
    (if decide (va = address) then Some b else kernel_view (memory s) root va) ∧
    view_set (kernel_view (memory s') root) (address + 1) bytes va =
    view_set (kernel_view (memory s) root) address (b :: bytes) va) as Hk.
  { intros va Hva. destruct (kernel_view_store s address b bytes va Hu Ha Hva Hsome) as (t' & Ht' & _ & _ & H1 & H2).
    assert (t' = t) as -> by congruence. done. }
  destruct (IH s' (address + 1) Hu') as (m' & Hst & Hu2 & Htr2 & Hv & Hf).
  { intros va Hva. destruct (Hm va) as [Hua Hs]; [lia|]. split; [done|].
    rewrite (proj1 (Hk va Hua)). case_decide; [by eexists|done]. }
  exists m'. split; [done|]. split_and!; [done|by intros va; rewrite Htr2| |].
  - intros va Hva. rewrite Hv by done. by apply Hk.
  - intros x Hx. rewrite Hf.
    + unfold s', write_phys. cbn. rewrite decide_False; [done|]. intros ?. apply Hx.
      exists address, t. cbn [length]. split; [lia|]. split; [exact Ht|]. cbn [length] in *. lia.
    + intros (va & t' & Hin & Ht' & <-). apply Hx. exists va, t'. cbn [length].
      split; [lia|]. by rewrite <-Htr.
Qed.

End UserSpace.

(** ** The space of a loaded program *)

Lemma kernel_translation_user window_end l va :
  PHYS_WINDOW_START ≤ window_end → user_area va →
  Forall (λ m, sh_end m ≤ USER_IMAGE_BASE ∨ USER_STACK_TOP ≤ sh_start m) l →
  kernel_translation window_end l va = None.
Proof.
  intros Hw Hva Hl. unfold kernel_translation, user_area in *.
  rewrite decide_False by (unfold PHYS_WINDOW_START, USER_STACK_TOP in *; lia).
  generalize (@eq_refl _ (@None translation)). generalize (@None translation) at 1 3.
  induction Hl as [|m l Hm _ IH]; intros o Ho; [done|]. cbn. apply IH. unfold range_translation.
  rewrite decide_False; [done|]. unfold sh_has. lia.
Qed.

Lemma loaded_space st file startup program st' :
  config_ok st → paged (2 ^ 52) (allocator (store st)) → owned (store st) = None → bytes_ok file →
  extras_apart st → load_user_program st file startup = Ok (program, st') →
  ∃ T, own_space (store st') (root_paddr (lp_address_space program))
         (program_pages (lp_owned_pages program)) T.
Proof.
  intros Hcf Hp Ho Hf Hx Hl. pose proof (load_spec (startup := startup) Hcf Hp Hf Ho) as H. rewrite Hl in H.
  destruct H as (image & hs & s' & T & img & pgs & _ & _ & _ & _ & -> & Hown & [Hb _ _ _ _]). exists T.
  destruct (tracked_owned (st := st)) as [Hok Htot].
  destruct (bu_accounts _ _ _ _ _ _ _ Hb) as [Htr Ha]. destruct (Ha eq_refl Hok) as [_ Hacc].
  assert (owned_list s' = program_pages (lp_owned_pages program)) as Hol.
  { unfold program_pages, owned_list. rewrite Hown. unfold owned_now. unfold tracks in Htr. by destruct (owned s'). }
  assert (∀ x, free_in (store st) x → ¬ free_in s' x → in_pages (program_pages (lp_owned_pages program)) x) as Hin.
  { intros x Hx0 Hx1. rewrite <-Hol. specialize (Hacc x). pose proof (in_pages_nil x).
    specialize (Htot x). unfold total in *. tauto. }
  pose proof (bu_tables _ _ _ _ _ _ _ Hb) as Hok'.
  assert (∀ va t, user_area va → translate (memory s') (root_paddr (lp_address_space program)) va = Some t →
    ∃ p, find pgs (page_base va) = Some p ∧ t_phys t = phys_page p + (va - page_base va)) as Htrans.
  { intros va t Hva Ht. destruct (find pgs (page_base va)) as [p|] eqn:Hfp.
    - exists p. split; [done|]. destruct (bu_leaf _ _ _ _ _ _ _ Hb va p Hfp) as (f & Hff & _ & _ & Hlf & _).
      destruct (bu_page _ _ _ _ _ _ _ Hb _ p Hfp) as (_ & _ & Hfr).
      rewrite (translate_leaf Hok'), Hlf in Ht. cbn [fmap option_fmap option_map] in Ht.
      rewrite decode_page in Ht by done. injection Ht as <-. cbn. unfold page_base. unfold PAGE_SIZE.
      Z.div_mod_to_equations. lia.
    - exfalso. rewrite (image_kernel Hb) in Ht by (by apply user_area_low || by apply (bu_none _ _ _ _ _ _ _ Hb)).
      rewrite kernel_translation_user in Ht by (done || apply Hcf). done. }
  split; [split|..].
  - apply (frame_tables T _ s'); [done|done|exact (tb_alloc _ _ _ Hok')|done].
  - intros va t Hva Ht. destruct (Htrans va t Hva Ht) as (p & Hfp & ->).
    apply (bu_behind _ _ _ _ _ _ _ Hb). exists (page_base va), p. split; [done|].
    pose proof (page_base_bounds va). lia.
  - intros va va' t t' Hva Hva' Ht Ht' Heq. destruct (Htrans va t Hva Ht) as (p & Hfp & Hph).
    destruct (Htrans va' t' Hva' Ht') as (p' & Hfp' & Hph').
    pose proof (page_base_bounds va). pose proof (page_base_bounds va').
    destruct (decide (page_base va = page_base va')) as [He|Hne].
    + rewrite He in Hfp. assert (p = p') as -> by congruence. lia.
    + destruct (bu_distinct _ _ _ _ _ _ _ Hb _ _ _ _ Hfp Hfp' Hne); lia.
  - intros x Hx'. apply Hin; [by apply (bu_new _ _ _ _ _ _ _ Hb)|].
    destruct Hx' as (q & t & Hq & Hxt). by eapply (tb_taken _ _ _ Hok').
  - intros va t Hva Ht. destruct (Htrans va t Hva Ht) as (p & Hfp & ->).
    assert (behind pgs (phys_page p + (va - page_base va))) as Hbe
      by (exists (page_base va), p; split; [done|]; pose proof (page_base_bounds va); lia).
    apply Hin; by apply (bu_behind _ _ _ _ _ _ _ Hb).
  - intros va t Hlow Ht Hus. destruct (img va) as [[w b]|] eqn:Hi; [by apply (image_user Hb); eexists|].
    rewrite (image_kernel Hb) in Ht by done. apply kernel_not_user in Ht. congruence.
Qed.
