(* ===== verification/Arch.v ===== *)
(** * Segments, traps and the way into user mode ([kernel/kernel/src/arch.rs])

    The descriptor tables as the code builds them, with their layout in
    memory, the entry stubs of arch.asm, and what the processor makes of them:
    which handler an exception or an [int] of a program reaches, on which
    stack and with which frame.  The addresses of the tables and of the four
    entry stubs are given. *)

From stdpp Require Import gmap.
From S2P Require Import Prelude Bytes Env Queues Terminal Allocator Process.
From S2P Require Import Paging KernelSpace Loader UserProgram Fat32 RootFs Sched Services Syscall.

Local Open Scope Z_scope.

Definition KERNEL_CODE_SELECTOR : Z := 0x08.
Definition KERNEL_DATA_SELECTOR : Z := 0x10.
Definition USER_DATA_SELECTOR : Z := 0x18.
Definition USER_CODE_SELECTOR : Z := 0x20.
Definition TSS_SELECTOR : Z := 0x28.

(** ** Descriptors *)

Definition code_descriptor (dpl : Z) : Z :=
  let access := Z.lor 0x9a (Z.shiftl (Z.land dpl 0x3) 5) in
  let flags := 0x2 in
  Z.lor (Z.lor (Z.lor 0xffff (Z.shiftl access 40)) (Z.shiftl flags 52)) (Z.shiftl 0xf 48).

Definition data_descriptor (dpl : Z) : Z :=
  let access := Z.lor 0x92 (Z.shiftl (Z.land dpl 0x3) 5) in
  Z.lor (Z.lor 0xffff (Z.shiftl access 40)) (Z.shiftl 0xf 48).

Definition tss_descriptor (base limit : Z) : Z * Z :=
  let low := Z.lor (Z.lor (Z.lor (Z.lor (Z.land limit 0xffff) (Z.shiftl (Z.land base 0x00ffffff) 16))
               (Z.shiftl 0x89 40)) (Z.shiftl (Z.land (Z.shiftr limit 16) 0xf) 48))
               (Z.shiftl (Z.land (Z.shiftr base 24) 0xff) 56) in
  (low, Z.shiftr base 32).

Record InterruptGate := mkGate {
  offset_low : Z; selector : Z; ist_index : Z; type_attributes : Z; offset_mid : Z; offset_high : Z; gate_reserved : Z
}.

Definition missing : InterruptGate := mkGate 0 0 0 0 0 0 0.

Definition InterruptGate_new (handler selector dpl : Z) : InterruptGate :=
  mkGate (handler mod 2 ^ 16) selector 0 (Z.lor 0x8e (Z.shiftl (Z.land dpl 0x3) 5))
    (Z.shiftr handler 16 mod 2 ^ 16) (Z.shiftr handler 32 mod 2 ^ 32) 0.

(** [repr(C, packed)] *)
Definition gate_bytes (g : InterruptGate) : list Z :=
  to_le_bytes 2 (offset_low g) ++ to_le_bytes 2 (selector g) ++ [ist_index g; type_attributes g] ++
  to_le_bytes 2 (offset_mid g) ++ to_le_bytes 4 (offset_high g) ++ to_le_bytes 4 (gate_reserved g).

Record TaskStateSegment := mkTss {
  reserved0 : Z; rsp0 : Z; rsp1 : Z; rsp2 : Z; reserved1 : Z; ist : list Z;
  reserved2 : Z; reserved3 : Z; io_map_base : Z
}.

Definition tss_bytes (t : TaskStateSegment) : list Z :=
  to_le_bytes 4 (reserved0 t) ++ to_le_bytes 8 (rsp0 t) ++ to_le_bytes 8 (rsp1 t) ++ to_le_bytes 8 (rsp2 t) ++
  to_le_bytes 8 (reserved1 t) ++ concat (map (to_le_bytes 8) (ist t)) ++ to_le_bytes 8 (reserved2 t) ++
  to_le_bytes 2 (reserved3 t) ++ to_le_bytes 2 (io_map_base t).

Definition TSS_SIZE : nat := 104.
Definition TaskStateSegment_new : TaskStateSegment := mkTss 0 0 0 0 0 (replicate 7 0) 0 0 (Z.of_nat TSS_SIZE).

(** ** The tables *)

Record ArchState := mkArch { gdt : list Z; tss : TaskStateSegment; idt : list InterruptGate }.

Definition ArchState_new : ArchState := mkArch (replicate 8 0) TaskStateSegment_new (replicate 256 missing).

Definition gdt_bytes (a : ArchState) : list Z := concat (map (to_le_bytes 8) (gdt a)).
Definition idt_bytes (a : ArchState) : list Z := concat (map gate_bytes (idt a)).

(** Where the linker put the tables and the entry stubs. *)
Record Layout := mkLayout {
  gdt_at : Z; tss_at : Z; idt_at : Z;
  trap_invalid_opcode : Z; trap_general_protection : Z; trap_page_fault : Z; trap_syscall : Z
}.

Record DescriptorTablePointer := mkPointer { limit : Z; base : Z }.

Section Tables.
Context (l : Layout).

Definition setup_gdt (a : ArchState) : ArchState :=
  let entries := <[4%nat := code_descriptor 3]> (<[3%nat := data_descriptor 3]> (<[2%nat := data_descriptor 0]>
    (<[1%nat := code_descriptor 0]> (<[0%nat := 0]> (gdt a))))) in
  let tss_limit := Z.of_nat TSS_SIZE - 1 in
  let '(low, high) := tss_descriptor (tss_at l) tss_limit in
  mkArch (<[6%nat := high]> (<[5%nat := low]> entries)) (tss a) (idt a).

Definition set_handler (index handler selector dpl : Z) (a : ArchState) : ArchState :=
  mkArch (gdt a) (tss a) (<[Z.to_nat index := InterruptGate_new handler selector dpl]> (idt a)).

Definition setup_idt (a : ArchState) : ArchState :=
  let a := set_handler TRAP_INVALID_OPCODE (trap_invalid_opcode l) KERNEL_CODE_SELECTOR 0 a in
  let a := set_handler TRAP_GENERAL_PROTECTION (trap_general_protection l) KERNEL_CODE_SELECTOR 0 a in
  let a := set_handler TRAP_PAGE_FAULT (trap_page_fault l) KERNEL_CODE_SELECTOR 0 a in
  set_handler TRAP_SYSCALL (trap_syscall l) KERNEL_CODE_SELECTOR 3 a.

Definition gdt_pointer : DescriptorTablePointer := mkPointer (8 * 8 - 1) (gdt_at l).
Definition idt_pointer : DescriptorTablePointer := mkPointer (256 * 16 - 1) (idt_at l).

(** The tables that [init] builds and the pointers that it loads. *)
Definition init (a : ArchState) : ArchState * (DescriptorTablePointer * DescriptorTablePointer) :=
  let a := setup_idt (setup_gdt a) in (a, (gdt_pointer, idt_pointer)).

End Tables.

Definition set_kernel_stack_top (stack_top : Z) (a : ArchState) : ArchState :=
  let t := tss a in
  mkArch (gdt a) (mkTss (reserved0 t) stack_top (rsp1 t) (rsp2 t) (reserved1 t) (ist t) (reserved2 t) (reserved3 t)
    (io_map_base t)) (idt a).

(** ** The processor

    What the processor does with the tables, as its manual says: a code
    segment, a gate, the stack of a trap from user mode, and the cascade of
    faults when a gate cannot be used. *)

Definition read_le (m : Z → Z) (address : Z) (n : nat) : Z := from_le_bytes (map m (seqZ address (Z.of_nat n))).

(** Bits [lo .. lo + n - 1]. *)
Definition bits (v lo n : Z) : Z := Z.land (Z.shiftr v lo) (Z.ones n).

Record Segment := mkSegment {
  sg_present : bool; sg_ring : Z; sg_system : bool; sg_type : Z; sg_long : bool
}.
Definition segment_of (d : Z) : Segment :=
  mkSegment (Z.testbit d 47) (bits d 45 2) (negb (Z.testbit d 44)) (bits d 40 4) (Z.testbit d 53).

Definition descriptor_at (m : Z → Z) (p : DescriptorTablePointer) (selector : Z) : option Z :=
  let offset := Z.shiftl (Z.shiftr selector 3) 3 in
  if decide (offset + 7 ≤ limit p) then Some (read_le m (base p + offset) 8) else None.

(** The base and the limit of the 16-byte descriptor of a task state segment
    that is available. *)
Definition task_at (m : Z → Z) (p : DescriptorTablePointer) (selector : Z) : option (Z * Z) :=
  low ← descriptor_at m p selector; high ← descriptor_at m p (selector + 8);
  let s := segment_of low in
  if sg_present s && sg_system s && (sg_type s =? 9)
  then Some (bits low 16 24 + 2 ^ 24 * bits low 56 8 + 2 ^ 32 * bits high 0 32, bits low 0 16 + 2 ^ 16 * bits low 48 4)
  else None.

Record Gate := mkGateView { gv_handler : Z; gv_selector : Z; gv_stack : Z }.

(** An interrupt gate that is present, or the fault that using it raises. *)
Definition gate_at (m : Z → Z) (p : DescriptorTablePointer) (vector : Z) (software : bool) (ring : Z) : Gate + Z :=
  let at_ := base p + 16 * vector in
  if decide (16 * vector + 15 ≤ limit p) then
    let attributes := read_le m (at_ + 5) 1 in
    if negb (bits attributes 0 5 =? 0x0e) then inr TRAP_GENERAL_PROTECTION
    else if software && (bits attributes 5 2 <? ring) then inr TRAP_GENERAL_PROTECTION
    else if negb (Z.testbit attributes 7) then inr 11
    else inl (mkGateView (read_le m at_ 2 + 2 ^ 16 * read_le m (at_ + 6) 2 + 2 ^ 32 * read_le m (at_ + 8) 4)
           (read_le m (at_ + 2) 2) (bits (read_le m (at_ + 4) 1) 0 3))
  else inr TRAP_GENERAL_PROTECTION.

(** Faults of which two in a row are a double fault; an [int] is not one. *)
Definition contributory (vector : Z) : bool := existsb (Z.eqb vector) [0; 10; 11; 12; 13].
Definition doubles (first second : Z) : bool :=
  (contributory first || (first =? TRAP_PAGE_FAULT)) && contributory second.

(** Where the processor goes on, with the ring and the new stack pointer, if
    it switches stacks, or that it shuts down.  A double fault is vector 8. *)
Inductive delivery := Entered (handler ring : Z) (stack : option Z) | Shutdown.

Record Cpu := mkCpu { gdtr : DescriptorTablePointer; idtr : DescriptorTablePointer; tr : Z }.

Fixpoint deliver (fuel : nat) (m : Z → Z) (c : Cpu) (ring vector : Z) (software : bool) : delivery :=
  match fuel with
  | O => Shutdown
  | S fuel =>
      match gate_at m (idtr c) vector software ring with
      | inl g =>
          match descriptor_at m (gdtr c) (gv_selector g) with
          | Some d =>
              let s := segment_of d in
              if sg_present s && negb (sg_system s) && Z.testbit (sg_type s) 3 && sg_long s && (sg_ring s =? 0) then
                Entered (gv_handler g) (sg_ring s)
                  (if negb (gv_stack g =? 0) then Some (read_le m (tr c + 0x24 + 8 * (gv_stack g - 1)) 8)
                   else if sg_ring s <? ring then Some (read_le m (tr c + 4) 8) else None)
              else Shutdown
          | None => Shutdown
          end
      | inr fault =>
          if software then deliver fuel m c ring fault false
          else if vector =? 8 then Shutdown
          else deliver fuel m c ring (if doubles vector fault then 8 else fault) false
      end
  end.

(** [iretq] to another ring: the ring it ends in. *)
Record InterruptFrame := mkInterruptFrame { if_rip : Z; if_cs : Z; if_rflags : Z; if_rsp : Z; if_ss : Z }.

Definition iretq (m : Z → Z) (c : Cpu) (f : InterruptFrame) : option Z :=
  code ← descriptor_at m (gdtr c) (if_cs f); data ← descriptor_at m (gdtr c) (if_ss f);
  let cs := segment_of code in
  let ss := segment_of data in
  let ring := Z.land (if_cs f) 3 in
  if sg_present cs && negb (sg_system cs) && Z.testbit (sg_type cs) 3 && sg_long cs && (sg_ring cs =? ring) &&
     sg_present ss && negb (sg_system ss) && negb (Z.testbit (sg_type ss) 3) && Z.testbit (sg_type ss) 1 &&
     (sg_ring ss =? ring) && (Z.land (if_ss f) 3 =? ring)
  then Some ring else None.

(** The frame that [enter_user_mode] builds for [iretq]. *)
Definition user_mode_frame (entry_point user_stack_top : Z) : InterruptFrame :=
  mkInterruptFrame entry_point (Z.lor USER_CODE_SELECTOR 0x3) 0x202 user_stack_top (Z.lor USER_DATA_SELECTOR 0x3).

(** The handler that an exception ([software] is [false]) or an [int] of a
    program should reach, if any. *)
Definition user_event (l : Layout) (vector : Z) (software : bool) : option Z :=
  if software then Some (if vector =? TRAP_SYSCALL then trap_syscall l else trap_general_protection l)
  else if vector =? TRAP_INVALID_OPCODE then Some (trap_invalid_opcode l)
  else if vector =? TRAP_PAGE_FAULT then Some (trap_page_fault l)
  else if existsb (Z.eqb vector) [0; 8; 10; 11; 12] then None
  else Some (trap_general_protection l).

(** The entry stubs have addresses. *)
Record layout_ok (l : Layout) : Prop := {
  lo_tss : 0 ≤ tss_at l < 2 ^ 64;
  lo_handlers : Forall (λ h, 0 ≤ h < 2 ^ 64)
    [trap_invalid_opcode l; trap_general_protection l; trap_page_fault l; trap_syscall l]
}.

(** The tables lie in memory. *)
Record placed (l : Layout) (a : ArchState) (m : Z → Z) : Prop := {
  pl_gdt : map m (seqZ (gdt_at l) 64) = gdt_bytes a;
  pl_tss : map m (seqZ (tss_at l) (Z.of_nat TSS_SIZE)) = tss_bytes (tss a);
  pl_idt : map m (seqZ (idt_at l) 4096) = idt_bytes a
}.

(** * Lemmas *)

Lemma read_le_placed m at_ l off n : map m (seqZ at_ (Z.of_nat (length l))) = l → (off + n ≤ length l)%nat →
  read_le m (at_ + Z.of_nat off) n = from_le_bytes (sub l off (off + n)).
Proof.
  intros Hl Hn. unfold read_le. f_equal. remember (length l) as k eqn:Hk. rewrite <-Hl. apply list_eq. intros i.
  destruct (decide (i < n)%nat) as [Hi|Hi].
  - rewrite lookup_sub by lia. change (map m ?l) with (m <$> l).
    rewrite !list_lookup_fmap, !lookup_seqZ_lt by lia. cbn. do 2 f_equal. lia.
  - unfold sub. rewrite lookup_take_ge by lia. apply lookup_ge_None_2. rewrite length_map, length_seqZ. lia.
Qed.

Lemma gate_bytes_length g : length (gate_bytes g) = 16%nat.
Proof. done. Qed.

Section Placed.
Context (l : Layout) (top : Z) (m : Z → Z).
Let a := set_kernel_stack_top top (fst (init l ArchState_new)).
Context (Hm : placed l a m).

Lemma gdt_length : length (gdt_bytes a) = 64%nat.
Proof. done. Qed.

Lemma idt_length : length (idt_bytes a) = 4096%nat.
Proof. vm_compute. done. Qed.

Lemma read_gdt i d : gdt a !! i = Some d → 0 ≤ d < 2 ^ 64 → read_le m (gdt_at l + 8 * Z.of_nat i) 8 = d.
Proof.
  intros Hi Hd. assert (i < 8)%nat as Hi8 by (by apply lookup_lt_Some in Hi).
  replace (gdt_at l + 8 * Z.of_nat i) with (gdt_at l + Z.of_nat (8 * i + 0)) by lia.
  rewrite (read_le_placed m _ (gdt_bytes a)); [|rewrite gdt_length; apply (pl_gdt _ _ _ Hm)|rewrite gdt_length; lia].
  unfold gdt_bytes. rewrite (sub_concat 8 _ i (to_le_bytes 8 d)).
  - apply (from_to_le_bytes 8 d). change (256 ^ Z.of_nat 8) with (2 ^ 64). done.
  - apply Forall_map, Forall_true. intros x. apply length_to_le_bytes.
  - by rewrite list_lookup_fmap, Hi.
  - lia.
Qed.

Lemma read_idt v g k n : idt a !! v = Some g → (k + n ≤ 16)%nat →
  read_le m (idt_at l + 16 * Z.of_nat v + Z.of_nat k) n = from_le_bytes (sub (gate_bytes g) k (k + n)).
Proof.
  intros Hv Hk. assert (v < 256)%nat as Hi by (by apply lookup_lt_Some in Hv).
  replace (idt_at l + 16 * Z.of_nat v + Z.of_nat k) with (idt_at l + Z.of_nat (16 * v + k)) by lia.
  rewrite (read_le_placed m _ (idt_bytes a)); [|rewrite idt_length; apply (pl_idt _ _ _ Hm)|rewrite idt_length; lia].
  unfold idt_bytes. rewrite (sub_concat 16 _ v (gate_bytes g)); [done| |by rewrite list_lookup_fmap, Hv|done].
  apply Forall_map, Forall_true. intros x. apply gate_bytes_length.
Qed.

End Placed.

(** The descriptor of the task state segment. *)
Lemma tss_low_value base : 0 ≤ base < 2 ^ 64 →
  fst (tss_descriptor base (Z.of_nat TSS_SIZE - 1)) =
    103 + base mod 2 ^ 24 * 2 ^ 16 + 0x89 * 2 ^ 40 + base / 2 ^ 24 mod 2 ^ 8 * 2 ^ 56.
Proof.
  intros Hb. unfold tss_descriptor. cbn [fst]. change (Z.of_nat TSS_SIZE - 1) with 103.
  change (Z.land 103 0xffff) with 103. change (Z.shiftl (Z.land (Z.shiftr 103 16) 0xf) 48) with 0. rewrite Z.lor_0_r.
  change 0x00ffffff with (Z.ones 24). change 0xff with (Z.ones 8). rewrite !Z.land_ones, Z.shiftr_div_pow2 by lia.
  assert (0 ≤ base mod 2 ^ 24 < 2 ^ 24) as H1 by (apply Z.mod_pos_bound; lia).
  assert (0 ≤ base / 2 ^ 24 mod 2 ^ 8 < 2 ^ 8) as H2 by (apply Z.mod_pos_bound; lia).
  revert H1 H2. generalize (base mod 2 ^ 24) (base / 2 ^ 24 mod 2 ^ 8). intros b e H1 H2.
  rewrite (lor_add 103 b 16) by lia. rewrite (lor_add _ 0x89 40) by lia. by rewrite (lor_add _ e 56) by lia.
Qed.

Lemma tss_segment base : 0 ≤ base < 2 ^ 64 →
  segment_of (fst (tss_descriptor base (Z.of_nat TSS_SIZE - 1))) = mkSegment true 0 true 9 false.
Proof.
  intros Hb. rewrite tss_low_value by done. set (b := base mod 2 ^ 24). set (e := base / 2 ^ 24 mod 2 ^ 8).
  assert (0 ≤ b < 2 ^ 24) as Hlow by (apply Z.mod_pos_bound; lia). assert (0 ≤ e < 2 ^ 8) as He by (apply Z.mod_pos_bound; lia).
  set (v := 103 + b * 2 ^ 16 + 0x89 * 2 ^ 40 + e * 2 ^ 56).
  assert (v / 2 ^ 40 = 0x89 + e * 2 ^ 16) as Hv by (unfold v; Z.div_mod_to_equations; lia).
  assert (∀ n, 0 ≤ n < 16 → Z.testbit v (40 + n) = Z.testbit 0x89 n) as Hbit.
  { intros n Hn. rewrite Z.add_comm, <-Z.div_pow2_bits, Hv by lia.
    rewrite <-(Z.mod_pow2_bits_low _ 16) by lia. rewrite Z.mod_add by lia. done. }
  unfold segment_of, bits. change 47 with (40 + 7). change 44 with (40 + 4). change 53 with (40 + 13).
  rewrite !Hbit, !Z.land_ones, !Z.shiftr_div_pow2 by lia.
  f_equal; unfold v; Z.div_mod_to_equations; lia.
Qed.

Section Processor.
Context (l : Layout) (top : Z) (m : Z → Z).
Let a := set_kernel_stack_top top (fst (init l ArchState_new)).
Let c := mkCpu (gdt_pointer l) (idt_pointer l) (tss_at l).
Context (Hm : placed l a m) (Htss : 0 ≤ tss_at l < 2 ^ 64).

Lemma descriptor_entry i d s : gdt a !! i = Some d → 0 ≤ d < 2 ^ 64 → Z.shiftr s 3 = Z.of_nat i →
  descriptor_at m (gdt_pointer l) s = Some d.
Proof.
  intros Hi Hd Hs. unfold descriptor_at. rewrite Hs, Z.shiftl_mul_pow2 by lia. change (2 ^ 3) with 8.
  assert (i < 8)%nat by (by apply lookup_lt_Some in Hi). cbn [limit base gdt_pointer].
  rewrite decide_True by lia. rewrite Z.mul_comm. f_equal. by apply (read_gdt l top m Hm).
Qed.

(** The segments of the kernel and of programs. *)
Lemma kernel_code : descriptor_at m (gdt_pointer l) KERNEL_CODE_SELECTOR = Some (code_descriptor 0).
Proof. by apply (descriptor_entry 1). Qed.
Lemma user_data : descriptor_at m (gdt_pointer l) (Z.lor USER_DATA_SELECTOR 0x3) = Some (data_descriptor 3).
Proof. by apply (descriptor_entry 3). Qed.
Lemma user_code : descriptor_at m (gdt_pointer l) (Z.lor USER_CODE_SELECTOR 0x3) = Some (code_descriptor 3).
Proof. by apply (descriptor_entry 4). Qed.

Lemma task_register : task_at m (gdt_pointer l) TSS_SELECTOR = Some (tss_at l, 103).
Proof.
  unfold task_at. pose proof (tss_low_value (tss_at l) Htss) as Hlow.
  set (b := tss_at l mod 2 ^ 24) in *. set (e := tss_at l / 2 ^ 24 mod 2 ^ 8) in *.
  assert (0 ≤ b < 2 ^ 24) by (apply Z.mod_pos_bound; lia). assert (0 ≤ e < 2 ^ 8) by (apply Z.mod_pos_bound; lia).
  rewrite (descriptor_entry 5 (fst (tss_descriptor (tss_at l) (Z.of_nat TSS_SIZE - 1))) TSS_SELECTOR); [|reflexivity|rewrite Hlow; lia|reflexivity].
  rewrite (descriptor_entry 6 (Z.shiftr (tss_at l) 32) (TSS_SELECTOR + 8)); [|reflexivity|rewrite Z.shiftr_div_pow2 by lia; Z.div_mod_to_equations; lia|reflexivity].
  cbn [mbind option_bind]. rewrite tss_segment by done. cbn [sg_present sg_system sg_type andb Z.eqb Pos.eqb].
  rewrite Hlow. unfold bits. rewrite !Z.shiftr_div_pow2, !Z.land_ones by lia. f_equal. f_equal; subst b e; Z.div_mod_to_equations; lia.
Qed.

Lemma kernel_stack : 0 ≤ top < 2 ^ 64 → read_le m (tss_at l + 4) 8 = top.
Proof.
  intros Ht. change 4 with (Z.of_nat 4) at 1. rewrite (read_le_placed m _ (tss_bytes (tss a))); [|apply (pl_tss _ _ _ Hm)|by apply Nat.leb_le].
  apply (from_to_le_bytes 8 top). change (256 ^ Z.of_nat 8) with (2 ^ 64). done.
Qed.

(** A gate, as the processor reads it. *)
Lemma gate_read v g software ring : idt a !! Z.to_nat v = Some g → 0 ≤ v →
  gate_at m (idt_pointer l) v software ring =
    let attributes := type_attributes g in
    if negb (bits attributes 0 5 =? 0x0e) then inr TRAP_GENERAL_PROTECTION
    else if software && (bits attributes 5 2 <? ring) then inr TRAP_GENERAL_PROTECTION
    else if negb (Z.testbit attributes 7) then inr 11
    else inl (mkGateView (from_le_bytes (to_le_bytes 2 (offset_low g)) + 2 ^ 16 * from_le_bytes (to_le_bytes 2 (offset_mid g)) +
                          2 ^ 32 * from_le_bytes (to_le_bytes 4 (offset_high g)))
                (from_le_bytes (to_le_bytes 2 (selector g))) (bits (ist_index g) 0 3)).
Proof.
  intros Hg Hv. assert (Z.to_nat v < 256)%nat as Hlt by (by apply lookup_lt_Some in Hg).
  assert (∀ k n, (k + n ≤ 16)%nat → read_le m (idt_at l + 16 * v + Z.of_nat k) n = from_le_bytes (sub (gate_bytes g) k (k + n))) as Hr.
  { intros k n Hk. replace v with (Z.of_nat (Z.to_nat v)) at 1 by lia. by apply (read_idt l top m Hm). }
  unfold gate_at. cbn [limit base idt_pointer]. rewrite decide_True by lia. cbv zeta.
  assert (read_le m (idt_at l + 16 * v + 5) 1 = type_attributes g) as -> by (etransitivity; [exact (Hr 5%nat 1%nat ltac:(lia))|apply Z.add_0_r]).
  assert (read_le m (idt_at l + 16 * v + 4) 1 = ist_index g) as -> by (etransitivity; [exact (Hr 4%nat 1%nat ltac:(lia))|apply Z.add_0_r]).
  assert (read_le m (idt_at l + 16 * v + 6) 2 = from_le_bytes (to_le_bytes 2 (offset_mid g))) as -> by exact (Hr 6%nat 2%nat ltac:(lia)).
  assert (read_le m (idt_at l + 16 * v + 8) 4 = from_le_bytes (to_le_bytes 4 (offset_high g))) as -> by exact (Hr 8%nat 4%nat ltac:(lia)).
  assert (read_le m (idt_at l + 16 * v + 2) 2 = from_le_bytes (to_le_bytes 2 (selector g))) as -> by exact (Hr 2%nat 2%nat ltac:(lia)).
  pose proof (Hr 0%nat 2%nat ltac:(lia)) as H0. rewrite Z.add_0_r in H0. by rewrite H0.
Qed.

Lemma handler_parts h : 0 ≤ h < 2 ^ 64 →
  from_le_bytes (to_le_bytes 2 (h mod 2 ^ 16)) + 2 ^ 16 * from_le_bytes (to_le_bytes 2 (Z.shiftr h 16 mod 2 ^ 16)) +
  2 ^ 32 * from_le_bytes (to_le_bytes 4 (Z.shiftr h 32 mod 2 ^ 32)) = h.
Proof.
  intros Hh. rewrite !Z.shiftr_div_pow2 by lia.
  rewrite !from_to_le_bytes by (apply Z.mod_pos_bound; lia). Z.div_mod_to_equations. lia.
Qed.

(** The gates of the four handlers, and the others. *)
Lemma gate_present v h dpl software ring : idt a !! Z.to_nat v = Some (InterruptGate_new h KERNEL_CODE_SELECTOR dpl) →
  0 ≤ v → 0 ≤ h < 2 ^ 64 → dpl = 0 ∨ dpl = 3 →
  gate_at m (idt_pointer l) v software ring =
    if software && (dpl <? ring) then inr TRAP_GENERAL_PROTECTION else inl (mkGateView h KERNEL_CODE_SELECTOR 0).
Proof.
  intros Hg Hv Hh Hd. rewrite (gate_read v _ software ring Hg Hv).
  cbn [InterruptGate_new type_attributes offset_low offset_mid offset_high selector ist_index].
  rewrite handler_parts by done. by destruct Hd as [->| ->].
Qed.

Lemma gate_missing v software ring : idt a !! Z.to_nat v = Some missing → 0 ≤ v →
  gate_at m (idt_pointer l) v software ring = inr TRAP_GENERAL_PROTECTION.
Proof. intros Hg Hv. by rewrite (gate_read v _ software ring Hg Hv). Qed.

Lemma idt_lookup v : (v < 256)%nat → idt a !! v = Some
  (if decide (v = 6%nat) then InterruptGate_new (trap_invalid_opcode l) KERNEL_CODE_SELECTOR 0
   else if decide (v = 13%nat) then InterruptGate_new (trap_general_protection l) KERNEL_CODE_SELECTOR 0
   else if decide (v = 14%nat) then InterruptGate_new (trap_page_fault l) KERNEL_CODE_SELECTOR 0
   else if decide (v = 128%nat) then InterruptGate_new (trap_syscall l) KERNEL_CODE_SELECTOR 3
   else missing).
Proof.
  intros Hv. unfold a, init, setup_idt, set_handler, set_kernel_stack_top. cbn [fst idt].
  change (Z.to_nat TRAP_INVALID_OPCODE) with 6%nat. change (Z.to_nat TRAP_GENERAL_PROTECTION) with 13%nat.
  change (Z.to_nat TRAP_PAGE_FAULT) with 14%nat. change (Z.to_nat TRAP_SYSCALL) with 128%nat.
  repeat case_decide; subst; rewrite ?list_lookup_insert_ne, ?list_lookup_insert by (rewrite ?length_insert; done || lia); try done.
  by apply (lookup_replicate_2 256).
Qed.

Context (Hhandlers : Forall (λ h, 0 ≤ h < 2 ^ 64)
  [trap_invalid_opcode l; trap_general_protection l; trap_page_fault l; trap_syscall l]).
Context (Htop : 0 ≤ top < 2 ^ 64).

Lemma enter_handler fuel v h dpl software :
  idt a !! Z.to_nat v = Some (InterruptGate_new h KERNEL_CODE_SELECTOR dpl) →
  0 ≤ v → 0 ≤ h < 2 ^ 64 → dpl = 0 ∨ dpl = 3 → software = false ∨ dpl = 3 →
  deliver (S fuel) m c 3 v software = Entered h 0 (Some top).
Proof.
  intros Hg Hv Hh Hd Hs. cbn [deliver]. change (idtr c) with (idt_pointer l). rewrite (gate_present v h dpl software 3 Hg Hv Hh Hd).
  assert (software && (dpl <? 3) = false) as -> by (destruct Hs as [->| ->]; [done|apply andb_false_r]).
  cbn [gv_selector]. change (gdtr c) with (gdt_pointer l). rewrite kernel_code. cbv zeta. change (segment_of (code_descriptor 0)) with (mkSegment true 0 false 10 true).
  cbn [sg_present sg_system sg_type sg_long sg_ring negb andb gv_handler gv_stack]. change (Z.testbit 10 3) with true.
  change (tr c) with (tss_at l). cbn [andb Z.eqb Z.ltb Z.compare]. by rewrite kernel_stack.
Qed.

(** A gate that cannot be used raises a general protection fault. *)
Lemma gate_refused v (software : bool) : 0 ≤ v < 256 →
  (if software then v ≠ 128 else v < 32 ∧ v ≠ 6 ∧ v ≠ 13 ∧ v ≠ 14) →
  gate_at m (idt_pointer l) v software 3 = inr TRAP_GENERAL_PROTECTION.
Proof.
  intros Hv Hs. rewrite !Forall_cons in Hhandlers. destruct Hhandlers as (H6 & H13 & H14 & H80 & _).
  pose proof (idt_lookup (Z.to_nat v) ltac:(lia)) as Hg. destruct software.
  - repeat case_decide; try lia; first [apply gate_missing; [exact Hg|lia]|by rewrite (gate_present v _ 0 true 3 Hg) by (lia || by left)].
  - repeat case_decide; try lia; apply gate_missing; [exact Hg|lia].
Qed.

Lemma protection_entered fuel : deliver (S fuel) m c 3 TRAP_GENERAL_PROTECTION false = Entered (trap_general_protection l) 0 (Some top).
Proof.
  rewrite !Forall_cons in Hhandlers. destruct Hhandlers as (_ & H13 & _).
  pose proof (idt_lookup 13 ltac:(lia)) as Hg. rewrite decide_False, decide_True in Hg by lia.
  by apply (enter_handler fuel TRAP_GENERAL_PROTECTION _ 0 false Hg); [| |left|left].
Qed.

Lemma event_delivered v software : 0 ≤ v < 256 → software = true ∨ v < 32 →
  deliver 4 m c 3 v software = match user_event l v software with Some h => Entered h 0 (Some top) | None => Shutdown end.
Proof.
  intros Hv Hs. pose proof Hhandlers as Hh. rewrite !Forall_cons in Hh. destruct Hh as (H6 & H13 & H14 & H80 & _).
  assert ((if software then v ≠ 128 else v < 32 ∧ v ≠ 6 ∧ v ≠ 13 ∧ v ≠ 14) ∨
    (if software then v = 128 else v = 6 ∨ v = 13 ∨ v = 14)) as [Hr|Hr] by (destruct software; lia).
  - pose proof (gate_refused v software Hv Hr) as Hg. remember 3%nat as fuel eqn:Hf. cbn [deliver]. change (idtr c) with (idt_pointer l). rewrite Hg.
    destruct software; [rewrite Hf, protection_entered; unfold user_event; by rewrite (proj2 (Z.eqb_neq v TRAP_SYSCALL)) by done|].
    unfold user_event. rewrite (proj2 (Z.eqb_neq v TRAP_INVALID_OPCODE)), (proj2 (Z.eqb_neq v TRAP_PAGE_FAULT)) by (unfold TRAP_INVALID_OPCODE, TRAP_PAGE_FAULT; lia).
    destruct (Z.eqb_spec v 8) as [->|H8]; [done|]. unfold doubles, contributory.
    rewrite (proj2 (Z.eqb_neq v TRAP_PAGE_FAULT)) by (unfold TRAP_PAGE_FAULT; lia). cbn [existsb].
    rewrite (proj2 (Z.eqb_neq v 8)), (proj2 (Z.eqb_neq v 13)) by lia. rewrite !orb_false_r, andb_true_r.
    destruct (_ || _); subst fuel; [|by rewrite protection_entered].
    cbn [deliver]. change (idtr c) with (idt_pointer l). rewrite (gate_refused 8 false) by (done || lia). done.
  - pose proof (idt_lookup (Z.to_nat v) ltac:(lia)) as Hg. unfold user_event.
    destruct software.
    + subst v. by apply (enter_handler 3 128 _ 3 true Hg); [| |right|right].
    + destruct Hr as [->|[->| ->]]; by apply (enter_handler 3 _ _ 0 false Hg); [| |left|left].
Qed.

Lemma user_mode_entered entry stack : iretq m c (user_mode_frame entry stack) = Some 3.
Proof.
  unfold iretq. cbn [if_cs if_ss user_mode_frame]. change (gdtr c) with (gdt_pointer l). by rewrite user_code, user_data.
Qed.
End Processor.

(** * Properties *)

(** C18. The way into and out of user mode.  With the tables that [init]
    builds in memory, wherever they lie, and the kernel stack last set, the
    task register refers to the whole task state segment; the frame of
    [enter_user_mode] takes the processor to ring 3; and whatever a program
    raises there, any exception or any [int] instruction, arrives in ring 0 on
    that kernel stack in the handler that the kernel has for it: only
    [int 0x80] reaches the system call handler and no other gate can be called,
    an invalid opcode and a page fault reach theirs, and everything else ends
    in the general protection handler, except the exceptions 0, 8, 10, 11 and
    12, which double into a fault that has no gate and shut the machine
    down. *)
Theorem user_events_delivered l top m vector software :
  layout_ok l → 0 ≤ top < 2 ^ 64 →
  placed l (set_kernel_stack_top top (fst (init l ArchState_new))) m →
  0 ≤ vector < 256 → software = true ∨ vector < 32 →
  let '(gdtr, idtr) := snd (init l ArchState_new) in
  let c := mkCpu gdtr idtr (tss_at l) in
  task_at m gdtr TSS_SELECTOR = Some (tss_at l, Z.of_nat TSS_SIZE - 1) ∧
  (∀ entry_point user_stack_top, iretq m c (user_mode_frame entry_point user_stack_top) = Some 3) ∧
  deliver 4 m c 3 vector software =
    match user_event l vector software with Some handler => Entered handler 0 (Some top) | None => Shutdown end.
Proof.
  intros [Htss Hh] Ht Hm Hv Hs. cbn [snd init]. split_and!.
  - by apply (task_register l top).
  - intros entry stack. by apply (user_mode_entered l top).
  - by apply event_delivered.
Qed.

Definition sample_layout : Layout := mkLayout 0x4010000 0x4010040 0x40100b0 0x4000100 0x4000110 0x4000120 0x4000130.

Definition sample_tables : Z → Z :=
  let a := set_kernel_stack_top 0x4020000 (fst (init sample_layout ArchState_new)) in
  write_phys (write_phys (write_phys (λ _, 0) 0x4010000 (gdt_bytes a)) 0x4010040 (tss_bytes (tss a))) 0x40100b0 (idt_bytes a).

Lemma user_events_delivered_witness :
  deliver 4 sample_tables (mkCpu (mkPointer 63 0x4010000) (mkPointer 4095 0x40100b0) 0x4010040) 3 0x80 true =
    Entered 0x4000130 0 (Some 0x4020000) ∧
  deliver 4 sample_tables (mkCpu (mkPointer 63 0x4010000) (mkPointer 4095 0x40100b0) 0x4010040) 3 0 false = Shutdown.
Proof.
  assert (layout_ok sample_layout) as Hl by (split; [done|repeat first [apply Forall_nil_2|apply Forall_cons_2; [done|]]]).
  assert (placed sample_layout (set_kernel_stack_top 0x4020000 (fst (init sample_layout ArchState_new))) sample_tables) as Hm
    by (split; vm_compute; reflexivity).
  split.
  - exact (proj2 (proj2 (user_events_delivered sample_layout 0x4020000 sample_tables 0x80 true Hl ltac:(done) Hm ltac:(done) ltac:(by left)))).
  - exact (proj2 (proj2 (user_events_delivered sample_layout 0x4020000 sample_tables 0 false Hl ltac:(done) Hm ltac:(done) ltac:(by right)))).
Defined.
