(* ===== verification/Lazer.v ===== *)
(** * The system calls of user programs ([libs/liblazer])

    The trap stubs, the wrappers that turn result codes into results, and the
    encoding of a child's arguments. *)

From stdpp Require Import gmap.
From S2P Require Import Prelude Bytes Errors Env Queues Terminal Allocator Process.
From S2P Require Import Paging KernelSpace Loader UserProgram Fat32 RootFs Sched Services.
From S2P Require Import Syscall.

Local Open Scope Z_scope.

(** ** Errors (env.rs, fs.rs, process.rs) *)

Inductive GetEnvError := GetInvalidKey | GetNotFound | GetBufferTooSmall | GetResourceUnavailable.
Inductive SetEnvError :=
| SetInvalidKey | SetKeyTooLong | SetValueTooLong | SetCapacityExceeded | SetResourceUnavailable.
Inductive UnsetEnvError := UnsetInvalidKey | UnsetNotFound | UnsetResourceUnavailable.
Inductive ListEnvError := ListBufferTooSmall | ListResourceUnavailable.
Inductive ReadDirError := DirInvalidPath | DirNotFound | DirBufferTooSmall | DirResourceUnavailable.
Inductive ChdirError := ChdirInvalidPath | ChdirNotFound | ChdirResourceUnavailable.
Inductive GetCwdError := CwdBufferTooSmall | CwdResourceUnavailable.
Inductive ReadFileError :=
| FileInvalidPath | FileErrorNotFound | FileNotAFile | FileBufferTooSmall | FileResourceUnavailable.
Inductive LzSpawnError := LzInvalidPath | LzFileNotFound | LzInvalidExecutable | LzResourceUnavailable.

(** ** Results from codes: the [match status] of each wrapper *)

(** The error of the first code that is the status. *)
Fixpoint decode {E A} (codes : list (Z * E)) (status : Z) (otherwise : outcome E A) : outcome E A :=
  match codes with
  | [] => otherwise
  | (code, e) :: codes => if status =? code then Err e else decode codes status otherwise
  end.

Definition get_env_result (status : Z) : outcome GetEnvError Z :=
  decode [(GetEnvCode.INVALID_KEY, GetInvalidKey); (GetEnvCode.NOT_FOUND, GetNotFound);
          (GetEnvCode.BUFFER_TOO_SMALL, GetBufferTooSmall);
          (GetEnvCode.RESOURCE_UNAVAILABLE, GetResourceUnavailable)] status (Ok status).

Definition set_env_result (status : Z) : outcome SetEnvError () :=
  if status =? 0 then Ok tt
  else decode [(SetEnvCode.INVALID_KEY, SetInvalidKey); (SetEnvCode.KEY_TOO_LONG, SetKeyTooLong);
          (SetEnvCode.VALUE_TOO_LONG, SetValueTooLong);
          (SetEnvCode.CAPACITY_EXCEEDED, SetCapacityExceeded);
          (SetEnvCode.RESOURCE_UNAVAILABLE, SetResourceUnavailable)] status (Err SetResourceUnavailable).

Definition unset_env_result (status : Z) : outcome UnsetEnvError () :=
  if status =? 0 then Ok tt
  else decode [(UnsetEnvCode.INVALID_KEY, UnsetInvalidKey); (UnsetEnvCode.NOT_FOUND, UnsetNotFound);
          (UnsetEnvCode.RESOURCE_UNAVAILABLE, UnsetResourceUnavailable)] status (Err UnsetResourceUnavailable).

Definition list_env_result (status : Z) : outcome ListEnvError Z :=
  decode [(ListEnvCode.BUFFER_TOO_SMALL, ListBufferTooSmall);
          (ListEnvCode.RESOURCE_UNAVAILABLE, ListResourceUnavailable)] status (Ok status).

Definition read_dir_result (status : Z) : outcome ReadDirError Z :=
  decode [(ReadDirCode.INVALID_PATH, DirInvalidPath); (ReadDirCode.NOT_FOUND, DirNotFound);
          (ReadDirCode.BUFFER_TOO_SMALL, DirBufferTooSmall);
          (ReadDirCode.RESOURCE_UNAVAILABLE, DirResourceUnavailable)] status (Ok status).

Definition chdir_result (status : Z) : outcome ChdirError () :=
  if status =? 0 then Ok tt
  else decode [(ChdirCode.INVALID_PATH, ChdirInvalidPath); (ChdirCode.NOT_FOUND, ChdirNotFound);
          (ChdirCode.RESOURCE_UNAVAILABLE, ChdirResourceUnavailable)] status (Err ChdirResourceUnavailable).

Definition getcwd_result (status : Z) : outcome GetCwdError Z :=
  decode [(GetCwdCode.BUFFER_TOO_SMALL, CwdBufferTooSmall);
          (GetCwdCode.RESOURCE_UNAVAILABLE, CwdResourceUnavailable)] status (Ok status).

Definition read_file_result (status : Z) : outcome ReadFileError Z :=
  decode [(ReadFileCode.INVALID_PATH, FileInvalidPath); (ReadFileCode.NOT_FOUND, FileErrorNotFound);
          (ReadFileCode.NOT_A_FILE, FileNotAFile);
          (ReadFileCode.BUFFER_TOO_SMALL, FileBufferTooSmall);
          (ReadFileCode.RESOURCE_UNAVAILABLE, FileResourceUnavailable)] status (Ok status).

Definition spawn_wait_result (status : Z) : outcome LzSpawnError Z :=
  decode [(SpawnCode.INVALID_PATH, LzInvalidPath); (SpawnCode.FILE_NOT_FOUND, LzFileNotFound);
          (SpawnCode.INVALID_EXECUTABLE, LzInvalidExecutable);
          (SpawnCode.RESOURCE_UNAVAILABLE, LzResourceUnavailable)] status (Ok status).

(** ** Arguments of a child (process.rs) *)

Definition MAX_SPAWN_ARG_DATA : nat := 512.
#[global] Arguments MAX_SPAWN_ARG_DATA : simpl never.

Inductive SpawnSerializeError := SerInvalidUtf8 | SerTooLarge.

Definition serialize_spawn_args (args : list (list Z)) (buffer : list Z)
    : outcome SpawnSerializeError (nat * list Z) :=
  for_each (λ '(written, buffer) arg,
    if contains 0 arg then Err SerInvalidUtf8
    else
      let required := (length arg + 1)%nat in
      if decide (length buffer < written + required)%nat then Err SerTooLarge
      else
        buffer ← write_at buffer written arg;
        let written := (written + length arg)%nat in
        buffer ← set_at buffer written 0;
        Ok ((written + 1)%nat, buffer)) (0%nat, buffer) args.

(** The payload of [spawn_wait_impl], or its error before any call. *)
Definition spawn_payload (args : list (list Z)) : outcome LzSpawnError (list Z) :=
  '(len, payload) ← map_err (λ e, match e with
      | SerInvalidUtf8 => LzInvalidPath | SerTooLarge => LzResourceUnavailable end)
    (serialize_spawn_args args (replicate MAX_SPAWN_ARG_DATA 0));
  slice payload 0 len.

(** ** The stubs (runtime.asm) *)

(** The frame the processor saves: [frame] holds the registers the stubs do
    not touch. *)
Definition user_syscall4 (frame : TrapFrame) (number a0 a1 a2 a3 : Z) : TrapFrame :=
  mkFrame number (f_rbx frame) a3 a2 (f_rbp frame) a0 a1 a3 (f_r9 frame) (f_r10 frame) (f_r11 frame)
    (f_r12 frame) (f_r13 frame) (f_r14 frame) (f_r15 frame) TRAP_SYSCALL 0 (f_rip frame) (f_cs frame)
    (f_rflags frame) (f_rsp frame) (f_ss frame).
Definition user_syscall3 (frame : TrapFrame) (number a0 a1 a2 : Z) : TrapFrame :=
  mkFrame number (f_rbx frame) a2 a2 (f_rbp frame) a0 a1 (f_r8 frame) (f_r9 frame) (f_r10 frame)
    (f_r11 frame) (f_r12 frame) (f_r13 frame) (f_r14 frame) (f_r15 frame) TRAP_SYSCALL 0 (f_rip frame)
    (f_cs frame) (f_rflags frame) (f_rsp frame) (f_ss frame).

(** A slice as the caller passes it: [as_ptr] and [len]. *)
Record Slice := mkSlice { ptr : Z; slen : Z }.

Section Calls.
Context (partial : list Z → list Z) (read_sector : Z → Fat32.res (list Z)) (fuel : nat).
Context (stack_end : nat → Z) (trampoline : Z) (frame : TrapFrame).

(** A trap that returns to its caller: the status and the kernel.  A system
    call does not look at CR2. *)
Definition trap (k : Kernel) (f : TrapFrame) : outcome () (option (Z * Kernel)) :=
  '(d, k) ← rust_trap_entry partial read_sector fuel stack_end trampoline k f 0;
  Ok (match d, k with Returned f, Some k => Some (f_rax f, k) | _, _ => None end).

Definition syscall4 (k : Kernel) (number : Syscall) (a0 a1 a2 a3 : Z) :=
  trap k (user_syscall4 frame (syscall_number number) a0 a1 a2 a3).
Definition syscall3 (k : Kernel) (number : Syscall) (a0 a1 a2 : Z) :=
  trap k (user_syscall3 frame (syscall_number number) a0 a1 a2).

(** [result] of the status, and the kernel after the call. *)
Definition with_result {A R} (result : A → R) (r : outcome () (option (A * Kernel)))
    : outcome () (option (R * Kernel)) :=
  r ← r; Ok ('(status, k) ← r; Some (result status, k)).

Definition get_env (k : Kernel) (key buffer : Slice) :=
  with_result get_env_result (syscall4 k SysGetEnv (ptr key) (slen key) (ptr buffer) (slen buffer)).
Definition set_env (k : Kernel) (key value : Slice) :=
  with_result set_env_result (syscall4 k SysSetEnv (ptr key) (slen key) (ptr value) (slen value)).
Definition unset_env (k : Kernel) (key : Slice) :=
  with_result unset_env_result (syscall3 k SysUnsetEnv (ptr key) (slen key) 0).
Definition list_env (k : Kernel) (buffer : Slice) :=
  with_result list_env_result (syscall3 k SysListEnv (ptr buffer) (slen buffer) 0).

Definition read_dir (k : Kernel) (path buffer : Slice) :=
  with_result read_dir_result (syscall4 k SysReadDir (ptr path) (slen path) (ptr buffer) (slen buffer)).
Definition chdir (k : Kernel) (path : Slice) :=
  with_result chdir_result (syscall3 k SysChdir (ptr path) (slen path) 0).
Definition getcwd (k : Kernel) (buffer : Slice) :=
  with_result getcwd_result (syscall3 k SysGetCwd (ptr buffer) (slen buffer) 0).
Definition read_file (k : Kernel) (path buffer : Slice) :=
  with_result read_file_result (syscall4 k SysReadFile (ptr path) (slen path) (ptr buffer) (slen buffer)).

Definition read (k : Kernel) (fd : Z) (buffer : Slice) := syscall3 k SysRead fd (ptr buffer) (slen buffer).
Definition write (k : Kernel) (fd : Z) (buffer : Slice) := syscall3 k SysWrite fd (ptr buffer) (slen buffer).

(** The trap of [spawn_wait_impl], with the payload on the caller's stack. *)
Definition spawn_frame (silent : bool) (path payload : Slice) : TrapFrame :=
  user_syscall4 frame (syscall_number (if silent then SysSpawnWaitSilent else SysSpawnWait))
    (ptr path) (slen path) (ptr payload) (slen payload).

End Calls.

(** ** Specification: the environment seen from a program *)

(** A slice with the bytes it holds. *)
Record Text := mkText { t_slice : Slice; t_bytes : list Z }.

(** The slice lies in the program's memory and holds these bytes. *)
Definition placed (k : Kernel) (x : Text) : Prop :=
  validate_user_buffer (ptr (t_slice x)) (slen (t_slice x)) = true ∧
  slen (t_slice x) = Z.of_nat (length (t_bytes x)) ∧
  holds (kernel_view (kernel_memory k) (active_root k)) (ptr (t_slice x)) (t_bytes x).

Inductive env_call :=
| CGet (key buffer : Text) | CSet (key value : Text) | CUnset (key : Text) | CList (buffer : Text).

Inductive env_reply :=
| RGot (r : outcome GetEnvError Z) | RSet (r : outcome SetEnvError ())
| RUnset (r : outcome UnsetEnvError ()) | RList (r : outcome ListEnvError Z).

Definition call_texts (c : env_call) : list Text :=
  match c with CGet x y | CSet x y => [x; y] | CUnset x | CList x => [x] end.

(** Keys and values are strings. *)
Definition call_utf8 (c : env_call) : bool :=
  match c with
  | CGet key _ | CUnset key => utf8_valid (t_bytes key)
  | CSet key value => utf8_valid (t_bytes key) && utf8_valid (t_bytes value)
  | CList _ => true
  end.

Definition set_error (e : EnvironmentError) : SetEnvError :=
  match e with
  | InvalidKey => SetInvalidKey
  | KeyTooLong => SetKeyTooLong
  | ValueTooLong => SetValueTooLong
  | CapacityExceeded => SetCapacityExceeded
  end.

(** Reply, environment and what is written to the caller's buffer. *)
Definition spec_env (partial : list Z → list Z) (l : alist) (c : env_call)
    : env_reply * alist * option (Z * list Z) :=
  match c with
  | CGet key buffer =>
      match validate_key (t_bytes key) with
      | Ok _ =>
          match alist_get l (t_bytes key) with
          | None => (RGot (Err GetNotFound), l, None)
          | Some v =>
              if decide (length (t_bytes buffer) < length v)%nat
              then (RGot (Err GetBufferTooSmall), l, None)
              else (RGot (Ok (Z.of_nat (length v))), l, Some (ptr (t_slice buffer), v))
          end
      | _ => (RGot (Err GetInvalidKey), l, None)
      end
  | CSet key value =>
      match spec_set l (t_bytes key) (t_bytes value) with
      | Ok l' => (RSet (Ok tt), l', None)
      | Err e => (RSet (Err (set_error e)), l, None)
      | _ => (RSet (Err SetResourceUnavailable), l, None)
      end
  | CUnset key =>
      match validate_key (t_bytes key) with
      | Ok _ =>
          if bool_decide (t_bytes key ∈ l.*1) then (RUnset (Ok tt), alist_remove l (t_bytes key), None)
          else (RUnset (Err UnsetNotFound), l, None)
      | _ => (RUnset (Err UnsetInvalidKey), l, None)
      end
  | CList buffer =>
      if decide (length (Env.listing l) ≤ length (t_bytes buffer))%nat
      then (RList (Ok (Z.of_nat (length (Env.listing l)))), l, Some (ptr (t_slice buffer), Env.listing l))
      else (RList (Err ListBufferTooSmall), l, Some (ptr (t_slice buffer), partial (t_bytes buffer)))
  end.

(** The call, its reply as the wrapper gives it. *)
Definition do_env_call partial read_sector fuel stack_end trampoline frame (k : Kernel) (c : env_call)
    : outcome () (option (env_reply * Kernel)) :=
  match c with
  | CGet key buffer => with_result RGot
      (get_env partial read_sector fuel stack_end trampoline frame k (t_slice key) (t_slice buffer))
  | CSet key value => with_result RSet
      (set_env partial read_sector fuel stack_end trampoline frame k (t_slice key) (t_slice value))
  | CUnset key => with_result RUnset
      (unset_env partial read_sector fuel stack_end trampoline frame k (t_slice key))
  | CList buffer => with_result RList
      (list_env partial read_sector fuel stack_end trampoline frame k (t_slice buffer))
  end.

(** The caller's memory after a reply. *)
Definition written (v : View) (w : option (Z * list Z)) : View :=
  match w with Some (address, bytes) => view_set v address bytes | None => v end.

Definition environment (k : Kernel) : alist := match current_proc k with Some p => abs (env p) | None => [] end.

(** A kernel in order, about to serve the running program. *)
Record running (T : Tables) (k : Kernel) : Prop := {
  rn_machine : machine_ok (machine k);
  rn_space : user_space (store (mem k)) (active_root k) T;
  rn_builder : owned (store (mem k)) = None
}.

(** * Lemmas *)

Lemma placed_slice k x :
  placed k x → user_slice k (ptr (t_slice x)) (slen (t_slice x)) = Ok (Some (t_bytes x)).
Proof.
  intros (Hv & Hl & Hh). unfold user_slice. rewrite Hv, Hl, Nat2Z.id.
  by rewrite (load_bytes_spec _ _ _ Hh).
Qed.

Lemma placed_str k x :
  placed k x → utf8_valid (t_bytes x) = true →
  user_str k (ptr (t_slice x)) (slen (t_slice x)) = Ok (Some (t_bytes x)).
Proof. intros Hp Hu. unfold user_str. rewrite (placed_slice _ _ Hp). cbn. unfold from_utf8. by rewrite Hu. Qed.

(** A length is never mistaken for an error. *)
Lemma placed_length k x : placed k x → 0 ≤ Z.of_nat (length (t_bytes x)) < 2 ^ 63.
Proof.
  intros (Hv & Hl & _). unfold validate_user_buffer in Hv. rewrite Hl in Hv.
  destruct (Z.eqb_spec (Z.of_nat (length (t_bytes x))) 0) as [->|]; [lia|].
  unfold checked_add in Hv. case_decide; [|done].
  apply andb_true_iff in Hv as [Hv _]. apply andb_true_iff in Hv as [H1 H2].
  unfold USER_STACK_TOP, USER_IMAGE_BASE in *. lia.
Qed.

Lemma decode_value {E} (codes : list (Z * E)) n :
  0 ≤ n < 2 ^ 63 → Forall (λ '(c, _), 2 ^ 63 ≤ c) codes → decode codes n (Ok n) = Ok n.
Proof.
  intros Hn. induction 1 as [|[c e] codes Hc _ IH]; [done|]. cbn.
  destruct (Z.eqb_spec n c); [lia|done].
Qed.

(** The written buffer and the part of it that is new. *)
Lemma view_set_splice v address buffer l va :
  holds v address buffer → (length l ≤ length buffer)%nat →
  view_set v address (splice buffer 0 l) va = view_set v address l va.
Proof.
  intros Hh Hl. unfold view_set. rewrite length_splice by lia.
  destruct (decide (address ≤ va < address + Z.of_nat (length l))).
  - rewrite decide_True by lia. unfold splice. rewrite take_0. cbn [app].
    rewrite lookup_app_l by lia. done.
  - case_decide as Hb; [|done]. unfold splice. rewrite take_0. cbn [app].
    rewrite lookup_app_r by lia. rewrite lookup_drop.
    destruct (lookup_lt_is_Some_2 buffer (Z.to_nat (va - address))) as [b Hx]; [lia|].
    replace (0 + length l + (Z.to_nat (va - address) - length l))%nat with (Z.to_nat (va - address)) by lia.
    rewrite Hx. symmetry. rewrite <-(Hh _ _ Hx). f_equal. lia.
Qed.

Lemma get_env_result_value n : 0 ≤ n < 2 ^ 63 → get_env_result n = Ok n.
Proof. intros Hn. apply decode_value; [done|]. by repeat constructor. Qed.

Lemma list_env_result_value n : 0 ≤ n < 2 ^ 63 → list_env_result n = Ok n.
Proof. intros Hn. apply decode_value; [done|]. by repeat constructor. Qed.

#[local] Arguments get_env_result : simpl never.
#[local] Arguments list_env_result : simpl never.

Section Running.
Context {T : Tables}.

Lemma write_back_spec k x bytes :
  running T k → placed k x → length bytes = length (t_bytes x) →
  ∃ k', write_back k (ptr (t_slice x)) bytes = Ok k' ∧ running T k' ∧ machine k' = machine k ∧
    current_proc k' = current_proc k ∧
    ∀ va, user_area va → kernel_view (kernel_memory k') (active_root k') va =
      view_set (kernel_view (kernel_memory k) (active_root k)) (ptr (t_slice x)) bytes va.
Proof.
  intros [Hm Hu Ho] (Hv & Hl & Hh) Hlen. unfold write_back, kernel_memory.
  destruct (store_bytes_spec (root := active_root k) (T := T) (store (mem k)) (ptr (t_slice x)) bytes Hu)
    as (m' & Hst & Hu' & _ & Hview & _).
  { intros va Hva. rewrite Hlen in Hva. destruct (user_area_validated _ _ Hv) as [?|Hua]; [lia|lia|].
    split; [apply Hua; lia|]. destruct (lookup_lt_is_Some_2 (t_bytes x) (Z.to_nat (va - ptr (t_slice x)))) as [b Hb]; [lia|].
    exists b. rewrite <-(Hh _ _ Hb). f_equal. lia. }
  unfold kernel_memory in Hst. rewrite Hst. cbn [mbind outcome_bind]. eexists. split; [done|].
  split; [split; [done| |done]|split; [done|split; [done|exact Hview]]].
  cbn. unfold active_root in *. cbn. destruct (store (mem k)) as [a m o]. cbn in *. by subst o.
Qed.

Lemma same_env k k' : current_proc k' = current_proc k → environment k' = environment k.
Proof. unfold environment. by intros ->. Qed.

Lemma running_scheduler k s :
  running T k → machine_ok (machine (with_scheduler s k)) → running T (with_scheduler s k).
Proof. intros [_ Hu Ho] Hm. by split. Qed.

End Running.

(** A call that answers its caller. *)
Definition answered (r : outcome () (Z * Kernel)) : outcome () (option (Z * Kernel)) :=
  '(status, k) ← r; Ok (Some (status, k)).

Lemma trap_finish (frame : TrapFrame) (r : outcome () (Z * Kernel)) :
  ('(d, k) ← finish frame r;
   Ok (match d, k with Returned f, Some k => Some (f_rax f, k) | _, _ => None end)) = answered r.
Proof. by destruct r as [[v k]| | |]. Qed.

Section EnvCalls.
Context (partial : list Z → list Z) (read_sector : Z → Fat32.res (list Z)) (fuel : nat).
Context (stack_end : nat → Z) (trampoline : Z) (frame : TrapFrame) {T : Tables}.

Let call4 := syscall4 partial read_sector fuel stack_end trampoline frame.
Let call3 := syscall3 partial read_sector fuel stack_end trampoline frame.

(** The stub's registers reach the handler of the number. *)
Lemma env_calls_dispatch k a0 a1 a2 a3 :
  call4 k SysGetEnv a0 a1 a2 a3 = answered (syscall_get_env k a0 a1 a2 a3) ∧
  call4 k SysSetEnv a0 a1 a2 a3 = answered (syscall_set_env k a0 a1 a2 a3) ∧
  call3 k SysUnsetEnv a0 a1 0 = answered (syscall_unset_env k a0 a1) ∧
  call3 k SysListEnv a0 a1 0 = answered (syscall_list_env partial k a0 a1).
Proof. unfold call4, call3, syscall4, syscall3, trap. split_and!; apply trap_finish. Qed.

(** What every environment call comes to. *)
Definition env_served (k : Kernel) (c : env_call) : Prop :=
  let '(reply, l, w) := spec_env partial (environment k) c in
  ∃ k', do_env_call partial read_sector fuel stack_end trampoline frame k c = Ok (Some (reply, k')) ∧
    running T k' ∧ environment k' = l ∧
    ∀ va, user_area va → kernel_view (kernel_memory k') (active_root k') va =
      written (kernel_view (kernel_memory k) (active_root k)) w va.

Lemma env_served_intro k c status reply l w k' :
  spec_env partial (environment k) c = (reply, l, w) →
  do_env_call partial read_sector fuel stack_end trampoline frame k c =
    Ok (Some (status, k')) → status = reply →
  running T k' → environment k' = l →
  (∀ va, user_area va → kernel_view (kernel_memory k') (active_root k') va =
     written (kernel_view (kernel_memory k) (active_root k)) w va) →
  env_served k c.
Proof. intros Hs Hc -> Hr He Hv. unfold env_served. rewrite Hs. by exists k'. Qed.

Lemma get_env_served k key buffer :
  running T k → placed k key → placed k buffer → utf8_valid (t_bytes key) = true →
  env_served k (CGet key buffer).
Proof.
  intros Hr Hk Hb Hu. destruct (running_process_ok k (rn_machine _ _ Hr)) as (pid & p & [Hp _ _ Hpok _ Hc _]).
  assert (environment k = abs (env p)) as Henv by (unfold environment; by rewrite Hp).
  pose proof (get_spec (env p) (t_bytes key) (proc_env _ Hpok)) as Hget.
  pose proof (validate_key_spec (t_bytes key)) as Hvk.
  assert (syscall_get_env k (ptr (t_slice key)) (slen (t_slice key)) (ptr (t_slice buffer)) (slen (t_slice buffer)) =
    handle (current_process_get_env k (t_bytes key) (t_bytes buffer)) (λ e, Ok (get_env_code e, k))
      (λ '(n, bytes), k ← write_back k (ptr (t_slice buffer)) bytes; Ok (Z.of_nat n, k))) as Hsys.
  { unfold syscall_get_env. by rewrite (placed_str _ _ Hk Hu), (placed_slice _ _ Hb). }
  unfold current_process_get_env in Hsys. rewrite Hc in Hsys. cbn [mbind outcome_bind] in Hsys.
  unfold Process.get_env in Hsys. rewrite Hget in Hsys.
  unfold env_served, do_env_call, get_env. rewrite (proj1 (env_calls_dispatch _ _ _ _ _)), Hsys.
  unfold spec_env. rewrite Henv.
  destruct (validate_key (t_bytes key)) as [[]|e| |]; try done; cbn.
  - destruct (alist_get (abs (env p)) (t_bytes key)) as [v|]; cbn; [|by exists k].
    case_decide as Hl; cbn; [by exists k|]. rewrite write_at_Ok by lia. cbn.
    destruct (write_back_spec k buffer (splice (t_bytes buffer) 0 v) Hr Hb) as (k' & -> & Hr' & _ & Hcp & Hv).
    { rewrite length_splice; lia. }
    exists k'. split_and!; [|done|rewrite (same_env _ _ Hcp); done|].
    + cbn. pose proof (placed_length _ _ Hb). by rewrite get_env_result_value by lia.
    + intros va Hva. etrans; [by apply Hv|]. apply view_set_splice; [apply Hb|lia].
  - destruct e; cbn; by exists k.
Qed.

Lemma list_env_served k buffer :
  running T k → placed k buffer → length (partial (t_bytes buffer)) = length (t_bytes buffer) →
  env_served k (CList buffer).
Proof.
  intros Hr Hb Hpart. destruct (running_process_ok k (rn_machine _ _ Hr)) as (pid & p & [Hp _ _ Hpok _ Hc _]).
  assert (environment k = abs (env p)) as Henv by (unfold environment; by rewrite Hp).
  assert (syscall_list_env partial k (ptr (t_slice buffer)) (slen (t_slice buffer)) =
    handle (current_process_list_env k (t_bytes buffer))
      (λ e, k ← write_back k (ptr (t_slice buffer)) (partial (t_bytes buffer)); Ok (list_env_code e, k))
      (λ '(n, bytes), k ← write_back k (ptr (t_slice buffer)) bytes; Ok (Z.of_nat n, k))) as Hsys.
  { unfold syscall_list_env. by rewrite (placed_slice _ _ Hb). }
  unfold current_process_list_env in Hsys. rewrite Hc in Hsys. cbn [mbind outcome_bind] in Hsys.
  unfold list_env_into in Hsys. rewrite (write_listing_spec _ _ (proc_env _ Hpok)) in Hsys.
  unfold env_served, do_env_call, list_env.
  destruct (env_calls_dispatch k (ptr (t_slice buffer)) (slen (t_slice buffer)) 0 0) as (_ & _ & _ & Hdisp).
  unfold call3 in Hdisp. rewrite Hdisp, Hsys. unfold spec_env. rewrite Henv.
  case_decide as Hl; cbn.
  - destruct (write_back_spec k buffer (splice (t_bytes buffer) 0 (Env.listing (abs (env p)))) Hr Hb)
      as (k' & -> & Hr' & _ & Hcp & Hv); [rewrite length_splice; lia|].
    exists k'. split_and!; [|done|by rewrite (same_env _ _ Hcp)|].
    + cbn. pose proof (placed_length _ _ Hb). by rewrite list_env_result_value by lia.
    + intros va Hva. etrans; [by apply Hv|]. apply view_set_splice; [apply Hb|lia].
  - destruct (write_back_spec k buffer _ Hr Hb Hpart) as (k' & -> & Hr' & _ & Hcp & Hv).
    exists k'. by split_and!; [|done|rewrite (same_env _ _ Hcp)|].
Qed.

(** Storing a new environment. *)
Lemma put_env k p pid e :
  running T k → running_process k pid p → env_ok e →
  ∃ k', (∀ E, put_current (E:=E) k pid (with_env e p) = Ok k') ∧ running T k' ∧ environment k' = abs e ∧
    ∀ va, kernel_view (kernel_memory k') (active_root k') va = kernel_view (kernel_memory k) (active_root k) va.
Proof.
  intros Hr Hrp He. exists (put_running pid (with_env e p) k).
  destruct (put_running_ok k pid p (with_env e p) (rn_machine _ _ Hr) Hrp) as (Hput & Hm & Hcp & _);
    [by split_and!|apply with_env_ok; [apply Hrp|done]|].
  split_and!; [done|by apply running_scheduler|by unfold environment; rewrite Hcp|done].
Qed.

Lemma set_env_served k key value :
  running T k → placed k key → placed k value →
  utf8_valid (t_bytes key) = true → utf8_valid (t_bytes value) = true →
  env_served k (CSet key value).
Proof.
  intros Hr Hk Hv Huk Huv. destruct (running_process_ok k (rn_machine _ _ Hr)) as (pid & p & Hrp). pose proof Hrp as [Hp _ _ Hpok _ Hc _].
  assert (environment k = abs (env p)) as Henv by (unfold environment; by rewrite Hp).
  pose proof (set_spec (env p) (t_bytes key) (t_bytes value) (proc_env _ Hpok) Huk Huv) as Hset.
  assert (syscall_set_env k (ptr (t_slice key)) (slen (t_slice key)) (ptr (t_slice value)) (slen (t_slice value)) =
    handle (current_process_set_env k (t_bytes key) (t_bytes value)) (λ e, Ok (set_env_code e, k))
      (λ k, Ok (0, k))) as Hsys.
  { unfold syscall_set_env. by rewrite (placed_str _ _ Hk Huk), (placed_str _ _ Hv Huv). }
  unfold current_process_set_env in Hsys. rewrite Hc in Hsys. cbn [mbind outcome_bind] in Hsys.
  unfold Process.set_env in Hsys. unfold env_served, do_env_call, set_env.
  destruct (env_calls_dispatch k (ptr (t_slice key)) (slen (t_slice key)) (ptr (t_slice value)) (slen (t_slice value)))
    as (_ & Hdisp & _). unfold call4 in Hdisp. rewrite Hdisp, Hsys. unfold spec_env. rewrite Henv.
  destruct (spec_set_not_Panic (abs (env p)) (t_bytes key) (t_bytes value)).
  destruct (spec_set (abs (env p)) (t_bytes key) (t_bytes value)) as [l|e| |]; [|..|done|done].
  - destruct Hset as (env' & -> & Hok' & <-).
    destruct (put_env k p pid env' Hr Hrp Hok') as (k' & Hs & Hr' & He & Hview). cbn. rewrite Hs. cbn.
    exists k'. split_and!; [done..|]. intros va _. apply Hview.
  - rewrite Hset. destruct e; cbn; by exists k.
Qed.

Lemma unset_env_served k key :
  running T k → placed k key → utf8_valid (t_bytes key) = true → env_served k (CUnset key).
Proof.
  intros Hr Hk Hu. destruct (running_process_ok k (rn_machine _ _ Hr)) as (pid & p & Hrp). pose proof Hrp as [Hp _ _ Hpok _ Hc _].
  assert (environment k = abs (env p)) as Henv by (unfold environment; by rewrite Hp).
  pose proof (remove_spec (env p) (t_bytes key) (proc_env _ Hpok)) as Hrem.
  assert (syscall_unset_env k (ptr (t_slice key)) (slen (t_slice key)) =
    handle (current_process_unset_env k (t_bytes key)) (λ e, Ok (unset_env_code e, k)) (λ k, Ok (0, k))) as Hsys.
  { unfold syscall_unset_env. by rewrite (placed_str _ _ Hk Hu). }
  unfold current_process_unset_env in Hsys. rewrite Hc in Hsys. cbn [mbind outcome_bind] in Hsys.
  unfold remove_env in Hsys. unfold env_served, do_env_call, unset_env.
  destruct (env_calls_dispatch k (ptr (t_slice key)) (slen (t_slice key)) 0 0) as (_ & _ & Hdisp & _).
  unfold call3 in Hdisp. rewrite Hdisp, Hsys. unfold spec_env. rewrite Henv.
  pose proof (validate_key_spec (t_bytes key)) as Hvk.
  destruct (validate_key (t_bytes key)) as [[]|e| |]; try done.
  - destruct Hrem as (env' & -> & Hok' & Ha).
    destruct (put_env k p pid env' Hr Hrp Hok') as (k' & Hs & Hr' & He & Hview). cbn. rewrite Hs. cbn.
    case_bool_decide as Hin; cbn; [exists k'|exists k].
    + split_and!; [done|done|by rewrite He|]. intros va _. apply Hview.
    + by split_and!.
  - rewrite Hrem. destruct e; cbn; by exists k.
Qed.

(** C7. The environment calls of a program implement the association list.  In
    a kernel in order, with the arguments anywhere in the program's memory, the
    whole way of a call (the wrapper's registers, the trap, the handler on the
    process that runs, the answer written through the page tables, the code and
    its decoding) gives the reply of the list, keeps the kernel in order with
    the list's next state as the environment, and changes the program's memory
    in exactly the bytes of the answer. *)
Theorem environment_calls_refine k c :
  running T k → Forall (placed k) (call_texts c) → call_utf8 c = true →
  (∀ b, length (partial b) = length b) →
  let '(reply, l, w) := spec_env partial (environment k) c in
  ∃ k', do_env_call partial read_sector fuel stack_end trampoline frame k c = Ok (Some (reply, k')) ∧
    running T k' ∧ environment k' = l ∧
    ∀ va, user_area va → kernel_view (kernel_memory k') (active_root k') va =
      written (kernel_view (kernel_memory k) (active_root k)) w va.
Proof.
  intros Hr Hp Hu Hpart. change (env_served k c). destruct c as [key b|key v|key|b]; cbn in Hp, Hu; decompose_Forall.
  - by apply get_env_served.
  - apply andb_true_iff in Hu as []. by apply set_env_served.
  - by apply unset_env_served.
  - by apply list_env_served.
Qed.

End EnvCalls.

(** * A concrete call

    The sample program loaded and running; the bytes of its file are the key
    and the value of the call. *)

Definition sample_kernel (program : LoadedUserProgram) (st : MemoryState) : Kernel :=
  mkKernel (match yields 1 (booted sample_stacks 4096 (mkSpace 0x1000) program 1 2 ThreadContext_zeroed) with
            | Ok m => m | _ => sample_booted end) st (TerminalEndpoint_new (mkSerial false [])) None.

Lemma sample_kernel_running program st' :
  load_user_program sample_state UserProgram.sample_program sample_startup = Ok (program, st') →
  ∃ T, running T (sample_kernel program st').
Proof.
  intros Hl. destruct sample_state_ok as (Hcf & Hp & Ho & Hf).
  destruct (loaded_space _ _ _ _ _ Hcf Hp Ho Hf ltac:(repeat constructor) Hl) as [T [Hu _ _ _]].
  exists T. set (m := booted sample_stacks 4096 (mkSpace 0x1000) program 1 2 ThreadContext_zeroed).
  assert (machine_ok m) as Hm by (apply booted_ok).
  destruct (yield_step (E:=()) m Hm) as (m' & Hy & Hs).
  assert (machine (sample_kernel program st') = m') as Hk.
  { unfold sample_kernel. fold m. cbn [yields]. by rewrite Hy. }
  split.
  - rewrite Hk. apply Hs.
  - exact Hu.
  - cbn. pose proof (load_spec (startup := sample_startup) Hcf Hp Hf Ho) as H. rewrite Hl in H.
    by destruct H as (image & hs & s' & T' & img & pgs & _ & _ & _ & _ & -> & _).
Qed.

(** The first byte of the file is the key, the next two the value. *)
Definition sample_key : Text := mkText (mkSlice 0x400000 1) [1].
Definition sample_value : Text := mkText (mkSlice 0x400001 2) [2; 3].

(** Bytes of the file as the loaded program has them. *)
Lemma sample_text_placed program st' address bytes :
  load_user_program sample_state UserProgram.sample_program sample_startup = Ok (program, st') →
  validate_user_buffer address (Z.of_nat (length bytes)) = true →
  address + Z.of_nat (length bytes) ≤ USER_STACK_BASE →
  (∀ i b, bytes !! i = Some b →
     snd <$> program_byte UserProgram.sample_program [sample_header] (address + Z.of_nat i) = Some b) →
  placed (sample_kernel program st') (mkText (mkSlice address (Z.of_nat (length bytes))) bytes).
Proof.
  intros Hl Hv Hs Hb. split_and!; [done|done|]. intros i b Hib.
  cbn [t_slice ptr t_bytes] in Hib |- *. specialize (Hb i b Hib). pose proof (lookup_lt_Some _ _ _ Hib).
  apply fmap_Some in Hb as ([w b'] & Hb & ->).
  destruct (sample_translate program st' (address + Z.of_nat i) w b' Hl ltac:(lia) Hb) as (phys & Ht & <-).
  unfold kernel_view. change (kernel_memory _) with (memory (store st')).
  change (active_root _) with (root_paddr (lp_address_space program)). by rewrite Ht.
Qed.

Lemma environment_calls_refine_witness :
  ∃ program st' T k', load_user_program sample_state UserProgram.sample_program sample_startup = Ok (program, st') ∧
    running T k' ∧
    do_env_call id (λ _, Ok []) 0 sample_stacks 4096 (mkFrame 0 0 0 0 0 0 0 0 0 0 0 0 0 0 0 0 0 0 0 0 0 0)
      (sample_kernel program st') (CSet sample_key sample_value) = Ok (Some (RSet (Ok tt), k')) ∧
    environment k' = alist_set (environment (sample_kernel program st')) [1] [2; 3].
Proof.
  assert (is_Ok (load_user_program sample_state UserProgram.sample_program sample_startup) = true) as Hok
    by (vm_compute; reflexivity).
  destruct (load_user_program sample_state UserProgram.sample_program sample_startup) as [[program st']|e| |] eqn:Hl;
    try discriminate Hok.
  destruct (sample_kernel_running program st' Hl) as [T Hr].
  assert (placed (sample_kernel program st') sample_key) as Hk.
  { apply (sample_text_placed program st' 0x400000 [1] Hl); [reflexivity|vm_compute; discriminate|].
    intros [|i] b Hb; [injection Hb as <-; vm_compute; reflexivity|destruct i; discriminate Hb]. }
  assert (placed (sample_kernel program st') sample_value) as Hv.
  { apply (sample_text_placed program st' 0x400001 [2; 3] Hl); [reflexivity|vm_compute; discriminate|].
    intros [|[|i]] b Hb; [injection Hb as <-; vm_compute; reflexivity..|destruct i; discriminate Hb]. }
  assert (environment (sample_kernel program st') = [(ascii "PATH", ascii "/system/bin:/bin")]) as He by (vm_compute; reflexivity).
  pose proof (environment_calls_refine id (λ _, Ok []) 0 sample_stacks 4096
    (mkFrame 0 0 0 0 0 0 0 0 0 0 0 0 0 0 0 0 0 0 0 0 0 0) (T := T) (sample_kernel program st')
    (CSet sample_key sample_value) Hr (Forall_cons_2 _ _ _ Hk (Forall_cons_2 _ _ _ Hv (Forall_nil_2 _)))
    eq_refl (λ b, eq_refl)) as H.
  rewrite He in H. destruct H as (k' & Hc & Hr' & He' & _). exists program, st', T, k'. rewrite He.
  split; [reflexivity|]. split; [exact Hr'|]. split; [exact Hc|exact He'].
Defined.
