(* ===== verification/Userland.v ===== *)
(** * User programs as interaction trees ([libs/liblazer], [user/])

    A user program is a tree of the calls it makes to [liblazer] (sums of
    errors and values instead of the status codes, which [Lazer] decodes) and
    of the answers it may get.  This file has the calls, the printing
    functions of fmt.rs, the small programs of [user/echo], [user/cat],
    [user/ls] and [user/pwd], and a world that answers the calls: its
    environment is the association list that the kernel is proved to
    implement ([Lazer.environment_calls_refine]); files, directories and the
    programs that can be spawned are arbitrary. *)

From ITree Require Import ITree ITreeFacts Events.State Events.StateFacts.
From S2P Require Import Prelude Bytes Env Lazer.

Local Open Scope Z_scope.

(** ** Trees with the notations of the other monads *)

#[export] Instance itree_mret E : MRet (itree E) := λ A a, Ret a.
#[export] Instance itree_mbind E : MBind (itree E) := λ A B f t, ITree.bind t f.

Declare Scope lz_itree_scope.
Notation "t ≈ u" := (eutt eq t u) (at level 70) : lz_itree_scope.
#[global] Open Scope lz_itree_scope.

(** ** The calls

    A call with a buffer is given the buffer's capacity and answers the bytes
    that the kernel put at its start. *)

Variant lazerE : Type → Type :=
| SpawnWait (path : list Z) (args : list (list Z)) : lazerE (LzSpawnError + Z)
| SpawnWaitSilent (path : list Z) (args : list (list Z)) : lazerE (LzSpawnError + Z)
| ReadFile (path : list Z) (capacity : nat) : lazerE (ReadFileError + list Z)
| ReadDir (path : list Z) (capacity : nat) : lazerE (ReadDirError + list Z)
| GetEnv (key : list Z) (capacity : nat) : lazerE (GetEnvError + list Z)
| SetEnv (key value : list Z) : lazerE (SetEnvError + ())
| UnsetEnv (key : list Z) : lazerE (UnsetEnvError + ())
| ListEnv (capacity : nat) : lazerE (ListEnvError + list Z)
| Chdir (path : list Z) : lazerE (ChdirError + ())
| GetCwd (capacity : nat) : lazerE (GetCwdError + list Z)
| Read (fd : Z) (capacity : nat) : lazerE (list Z)
| Write (fd : Z) (bytes : list Z) : lazerE Z
| Yield : lazerE ()
| Exit (code : Z) : lazerE void.

Abbreviation program := (itree lazerE).

Definition call {R} (e : lazerE R) : program R := ITree.trigger e.

(** [exit] (process.rs) does not return. *)
Definition exit {R} (code : Z) : program R :=
  v ← call (Exit code); match v : void with end.

(** The panic handler of runtime.rs. *)
Definition panic {R} : program R := exit 1.

(** [match] on the result of a pure function of the program. *)
Definition result {E A} (m : outcome E A) : program (E + A) :=
  match m with
  | Ok a => Ret (inr a)
  | Err e => Ret (inl e)
  | Panic => panic
  | Hang => ITree.spin
  end.

(** A pure function that has no error of its own. *)
Definition value {A} (m : outcome void A) : program A :=
  r ← result m; match r with inr a => Ret a | inl e => match e : void with end end.

(** [&buffer[..len]] for the length a call answered. *)
Definition answered (capacity : nat) (bytes : list Z) : program (list Z) :=
  if decide (length bytes ≤ capacity)%nat then Ret bytes else panic.

(** ** Streams (io.rs, fmt.rs) *)

Definition stdin_read (capacity : nat) : program (list Z) := call (Read 0 capacity).
Definition stdout_write (bytes : list Z) : program () := _ ← call (Write 1 bytes); Ret tt.

(** [print(format_args!(...))]: [core::fmt::write] hands the pieces of the
    format, literal text and arguments in turn, to [Stdout::write_str]. *)
Fixpoint print (pieces : list (list Z)) : program () :=
  match pieces with
  | [] => Ret tt
  | piece :: pieces => _ ← stdout_write piece; print pieces
  end.

(** [println!] with a message, and with a message and one argument. *)
Definition println (message : list Z) : program () := print [message ++ [NEWLINE]].
Definition println_with (message argument : list Z) : program () :=
  print [message; argument; [NEWLINE]].
(** [println!("{}", argument)] *)
Definition println_arg (argument : list Z) : program () := print [argument; [NEWLINE]].

Definition unwrap_or {A} (o : option A) (a : A) : A := default a o.

(** ** Programs

    [args] is what the iterator of the arguments yields, the program's own
    name first. *)

(** [user/echo/src/main.rs] *)
Fixpoint echo_args (first : bool) (args : list (list Z)) : program () :=
  match args with
  | [] => Ret tt
  | arg :: args =>
      _ ← (if first then Ret tt else print [[SPACE]]);
      _ ← print [arg];
      echo_args false args
  end.

Definition echo_main (args : list (list Z)) : program void :=
  _ ← echo_args true (tail args);
  _ ← println [];
  exit 0.

(** [user/cat/src/main.rs] *)
Definition FILE_BUFFER_SIZE : nat := Z.to_nat (32 * 1024).

Definition cat_main (args : list (list Z)) : program void :=
  match tail args with
  | [] => _ ← println (ascii "cat: missing path"); exit 1
  | path :: _ =>
      r ← call (ReadFile path FILE_BUFFER_SIZE);
      match r with
      | inr bytes =>
          bytes ← answered FILE_BUFFER_SIZE bytes;
          _ ← stdout_write bytes;
          exit 0
      | inl e =>
          _ ← match e with
              | FileInvalidPath => println_with (ascii "cat: invalid path: ") path
              | FileErrorNotFound => println_with (ascii "cat: file not found: ") path
              | FileNotAFile => println_with (ascii "cat: not a file: ") path
              | FileBufferTooSmall => println (ascii "cat: file too large")
              | FileResourceUnavailable => println (ascii "cat: unable to read file")
              end;
          exit 1
      end
  end.

(** [user/ls/src/main.rs] *)
Definition DIRECTORY_BUFFER_SIZE : nat := 1024.

Definition ls_main (args : list (list Z)) : program void :=
  let path := unwrap_or (head (tail args)) [DOT] in
  r ← call (ReadDir path DIRECTORY_BUFFER_SIZE);
  match r with
  | inr bytes =>
      bytes ← answered DIRECTORY_BUFFER_SIZE bytes;
      _ ← stdout_write bytes;
      exit 0
  | inl e =>
      _ ← match e with
          | DirInvalidPath => println_with (ascii "ls: invalid path: ") path
          | DirNotFound => println_with (ascii "ls: directory not found: ") path
          | DirBufferTooSmall => println (ascii "ls: output too large")
          | DirResourceUnavailable => println (ascii "ls: unable to read directory")
          end;
      exit 1
  end.

(** [user/pwd/src/main.rs] *)
Definition CWD_BUFFER_SIZE : nat := 256.

Definition pwd_main : program void :=
  r ← call (GetCwd CWD_BUFFER_SIZE);
  match r with
  | inr bytes =>
      bytes ← answered CWD_BUFFER_SIZE bytes;
      _ ← println_arg (unwrap_or (from_utf8 bytes) [SLASH]);
      exit 0
  | inl e =>
      _ ← match e with
          | CwdBufferTooSmall => println (ascii "pwd: path too large")
          | CwdResourceUnavailable => println (ascii "pwd: unable to read working directory")
          end;
      exit 1
  end.

(** * Lemmas: programs up to silent steps *)

Section Programs.
Context {E : Type → Type}.
Implicit Types A B C : Type.

#[export] Instance itree_mbind_proper A B :
  Proper (pointwise_relation A (eutt eq) ==> eutt eq ==> eutt eq) (@mbind (itree E) (itree_mbind E) A B).
Proof. intros f g Hfg t u Htu. apply eqit_bind; [exact Htu|exact Hfg]. Qed.

Lemma bind_cong A B (t u : itree E A) (f g : A → itree E B) :
  t ≈ u → (∀ a, f a ≈ g a) → (t ≫= f) ≈ (u ≫= g).
Proof. intros Ht Hf. by apply eqit_bind. Qed.

Lemma bind_cong_r A B (t : itree E A) (f g : A → itree E B) :
  (∀ a, f a ≈ g a) → (t ≫= f) ≈ (t ≫= g).
Proof. intros Hf. by apply bind_cong. Qed.

Lemma ret_bind A B (a : A) (f : A → itree E B) : ((Ret a : itree E A) ≫= f) ≈ f a.
Proof. unfold mbind, itree_mbind. by rewrite bind_ret_l. Qed.

Lemma bind_ret A (t : itree E A) : (t ≫= λ a, Ret a) ≈ t.
Proof. unfold mbind, itree_mbind. by rewrite bind_ret_r. Qed.

Lemma bind_assoc_eutt A B C (t : itree E A) (f : A → itree E B) (g : B → itree E C) :
  ((t ≫= f) ≫= g) ≈ (t ≫= λ a, f a ≫= g).
Proof. unfold mbind, itree_mbind. by rewrite bind_bind. Qed.

(** A loop is its first round and what follows. *)
Lemma iter_round A B (body : A → itree E (A + B)) s :
  ITree.iter body s ≈ (r ← body s; match r with inl s' => ITree.iter body s' | inr x => Ret x end).
Proof.
  rewrite unfold_iter. unfold mbind, itree_mbind. apply eqit_bind; [reflexivity|].
  intros [s'|x]; [by rewrite tau_eutt|reflexivity].
Qed.

End Programs.

Lemma result_Ok {E A} (a : A) : result (E:=E) (Ok a) = Ret (inr a).
Proof. done. Qed.

Lemma value_Ok {A} (a : A) : value (Ok a) ≈ Ret a.
Proof. unfold value. rewrite result_Ok, ret_bind. reflexivity. Qed.

Lemma exit_bind {A B} code (f : A → program B) : (exit code ≫= f) ≈ exit code.
Proof. unfold exit. rewrite bind_assoc_eutt. apply bind_cong_r. intros []. Qed.

Lemma answered_short capacity bytes : (length bytes ≤ capacity)%nat → answered capacity bytes = Ret bytes.
Proof. intros. unfold answered. by rewrite decide_True. Qed.
