(* ===== verification/LashPath.v ===== *)
(** * Paths in the shell ([normalize_command_path] of [user/lash/src/paths.rs])

    The shell resolves the argument of [where] itself, over one byte buffer
    without component offsets.  It is proved to compute the same lexical
    resolution as the kernel's [normalize_path]. *)

From S2P Require Import Prelude Bytes Errors Paths LashParse.

Inductive ResolutionError := InvalidPath | ResolutionUnavailable.

(** [str::is_char_boundary] and [&s[a..b]]. *)
Definition is_char_boundary (s : list Z) (i : nat) : bool :=
  bool_decide (i = 0) ||
  match s !! i with
  | Some b => negb (is_cont b)
  | None => bool_decide (i = length s)
  end.
Definition str_slice {E} (s : list Z) (a b : nat) : outcome E (list Z) :=
  if is_char_boundary s a && is_char_boundary s b then slice s a b else Panic.

(** The two inner loops of [normalize_command_path]. *)
Definition skip_slashes {E} (bytes : list Z) (index : nat) : outcome E nat :=
  while (S (length bytes)) (λ index,
    if decide (index < length bytes) then
      b ← get_at bytes index;
      if (b =? SLASH)%Z then Ok (inl (index + 1)) else Ok (inr index)
    else Ok (inr index)) index.
Definition skip_segment {E} (bytes : list Z) (index : nat) : outcome E nat :=
  while (S (length bytes)) (λ index,
    if decide (index < length bytes) then
      b ← get_at bytes index;
      if (b =? SLASH)%Z then Ok (inr index) else Ok (inl (index + 1))
    else Ok (inr index)) index.

(** [while len > 0 && output[len] != b'/'] *)
Definition back_to_slash {E} (output : list Z) (len : nat) : outcome E nat :=
  while (S len) (λ len,
    if decide (0 < len) then
      b ← get_at output len;
      if (b =? SLASH)%Z then Ok (inr len) else Ok (inl (len - 1))
    else Ok (inr len)) len.

(** One segment that is not [.]. *)
Definition push_segment (output : list Z) (len : nat) (segment : list Z)
    : outcome ResolutionError (list Z * nat) :=
  if decide (segment = [DOT; DOT]) then
    if decide (1 < len) then
      len ← back_to_slash output (len - 1);
      if decide (len = 0) then
        output ← set_at output 0 SLASH; Ok (output, 1)
      else Ok (output, len)
    else Ok (output, len)
  else
    '(output, len) ←
      (if decide (len = 0) then output ← set_at output 0 SLASH; Ok (output, 1) else Ok (output, len));
    '(output, len) ←
      (if decide (1 < len) then
         b ← get_at output (len - 1);
         if (b =? SLASH)%Z then Ok (output, len)
         else if decide (length output ≤ len) then Err ResolutionUnavailable
         else output ← set_at output len SLASH; Ok (output, len + 1)
       else Ok (output, len));
    if decide (length output < len + length segment) then Err ResolutionUnavailable
    else output ← write_at output len segment; Ok (output, len + length segment).

(** The loop over [input], from what the output starts with. *)
Definition normalize_step (input : list Z) (v : nat * list Z * nat)
    : outcome ResolutionError (nat * list Z * nat + list Z * nat) :=
  let '(index, output, len) := v in
  if decide (index ≤ length input) then
    index ← skip_slashes input index;
    if decide (length input ≤ index) then Ok (inr (output, len))
    else
      let start := index in
      index ← skip_segment input index;
      segment ← str_slice input start index;
      if decide (segment = [DOT]) then Ok (inl (index, output, len))
      else '(output, len) ← push_segment output len segment; Ok (inl (index, output, len))
  else Ok (inr (output, len)).

(** [normalize_command_path] for a known working directory: the bytes and the
    length of [NormalizedPath]. *)
Definition normalize_with (cwd input : list Z) : outcome ResolutionError (list Z * nat) :=
  let output := replicate LINE_CAPACITY 0%Z in
  '(output, len) ←
    (if starts_with SLASH input then output ← set_at output 0 SLASH; Ok (output, 1)
     else if decide (length output < length cwd) then Err ResolutionUnavailable
     else output ← write_at output 0 cwd; Ok (output, length cwd));
  '(output, len) ← while (S (S (length input))) (normalize_step input) (0, output, len);
  if decide (len = 0) then output ← set_at output 0 SLASH; Ok (output, 1)
  else Ok (output, len).


(** ** Specification

    Lexical resolution as in [Paths], bounded by the length of the path only. *)

Definition lexical_step (stack : option (list (list Z))) (c : list Z) : option (list (list Z)) :=
  stack ← stack;
  let stack' := resolve_component stack c in
  if decide (length (render stack') ≤ LINE_CAPACITY) then Some stack' else None.

Definition lexical (cwd : list (list Z)) (input : list Z) : option (list (list Z)) :=
  foldl lexical_step (Some (if starts_with SLASH input then [] else cwd)) (split_on SLASH input).

(** * Lemmas *)

(** ** Slices of strings *)

Lemma utf8_head s : utf8_valid s = true → is_char_boundary s 0 = true ∧
  ∀ b s', s = b :: s' → is_cont b = false.
Proof.
  intros Hs. split; [done|]. intros b s' ->. cbn in Hs. unfold is_cont, in_range in *.
  destruct (128 <=? b)%Z eqn:H1; [|done]. destruct (b <=? 191)%Z eqn:H2; [|done]. exfalso.
  apply Z.leb_le in H1, H2. rewrite (proj2 (Z.leb_le 0 b)), (proj2 (Z.leb_gt b 127)) in Hs by lia.
  cbn in Hs. destruct s' as [|b1 s']; [done|].
  rewrite (proj2 (Z.leb_gt 194 b)) in Hs by lia. cbn in Hs. destruct s' as [|b2 s']; [done|].
  assert ((b =? 224)%Z = false ∧ (b =? 237)%Z = false ∧ (225 <=? b)%Z = false ∧ (238 <=? b)%Z = false ∧
    (b =? 240)%Z = false ∧ (241 <=? b)%Z = false ∧ (b =? 244)%Z = false) as (E1 & E2 & E3 & E4 & E5 & E6 & E7)
    by (rewrite !Z.eqb_neq, !Z.leb_gt; lia).
  rewrite E1, E2, E3, E4 in Hs. cbn in Hs. destruct s' as [|b3 s']; [done|]. by rewrite E5, E6, E7 in Hs.
Qed.

(** Slicing between two whole strings. *)
Lemma boundary_between a s : utf8_valid s = true → is_char_boundary (a ++ s) (length a) = true.
Proof.
  intros Hs. unfold is_char_boundary. destruct (decide (length a = 0)) as [->|Ha]; [done|].
  rewrite bool_decide_eq_false_2 by done. cbn. rewrite lookup_app_r by lia. rewrite Nat.sub_diag.
  destruct s as [|b s]; cbn [lookup list_lookup].
  - rewrite app_nil_r. by apply bool_decide_eq_true.
  - destruct (utf8_head _ Hs) as [_ Hb]. by rewrite (Hb _ _ eq_refl).
Qed.

Lemma str_slice_middle {E} a s c :
  utf8_valid s = true → utf8_valid c = true →
  str_slice (E:=E) (a ++ s ++ c) (length a) (length a + length s) = Ok s.
Proof.
  intros Hs Hc. unfold str_slice. rewrite boundary_between by (by apply utf8_app).
  rewrite app_assoc, <-length_app, boundary_between by done. cbn [andb].
  rewrite <-app_assoc, length_app, slice_Ok by (rewrite ?length_app; lia). by rewrite sub_app_middle.
Qed.

Lemma boundary_ascii a b s : (0 ≤ b < 128)%Z → is_char_boundary (a ++ b :: s) (length a) = true.
Proof.
  intros Hb. unfold is_char_boundary. rewrite lookup_app_r, Nat.sub_diag by done. cbn.
  by rewrite is_cont_ascii, orb_true_r.
Qed.


(** ** The scanning loops *)

Lemma slashes_split l : ∃ sl r, l = sl ++ r ∧ Forall (λ b, b = SLASH) sl ∧ head r ≠ Some SLASH.
Proof.
  induction l as [|b l (sl & r & -> & Hs & Hr)]; [by exists [], []|].
  destruct (decide (b = SLASH)) as [->|Hb]; [exists (SLASH :: sl), r; split_and!; [done|by constructor|done]|].
  exists [], (b :: sl ++ r). split_and!; [done|done|cbn; congruence].
Qed.

Lemma segment_split l : ∃ seg r, l = seg ++ r ∧ ¬ In SLASH seg ∧ (r = [] ∨ ∃ r', r = SLASH :: r').
Proof.
  induction l as [|b l (seg & r & -> & Hs & Hr)]; [exists [], []; naive_solver|].
  destruct (decide (b = SLASH)) as [->|Hb]; [exists [], (SLASH :: seg ++ r); naive_solver|].
  exists (b :: seg), r. split_and!; [done|cbn; naive_solver|done].
Qed.

Lemma skip_slashes_spec {E} pre sl r :
  Forall (λ b, b = SLASH) sl → head r ≠ Some SLASH →
  skip_slashes (E:=E) (pre ++ sl ++ r) (length pre) = Ok (length pre + length sl).
Proof.
  intros Hs Hr. unfold skip_slashes.
  apply (while_rule (λ i, length pre ≤ i ≤ length pre + length sl) (λ i, length pre + length sl - i)
    (λ o, o = Ok (length pre + length sl))); [|lia|rewrite !length_app; lia].
  intros i Hi. rewrite !length_app. destruct (decide (i = length pre + length sl)) as [->|Hne].
  - case_decide; [|done]. destruct r as [|b r]; [cbn in *; lia|].
    assert ((pre ++ sl ++ b :: r) !! (length pre + length sl) = Some b) as Hb.
    { rewrite app_assoc, <-length_app, lookup_app_r by lia. by rewrite Nat.sub_diag. }
    rewrite (get_at_Ok _ _ _ Hb). cbn [mbind outcome_bind].
    destruct (Z.eqb_spec b SLASH) as [->|]; [done|done].
  - rewrite decide_True by lia. destruct (lookup_lt_is_Some_2 sl (i - length pre)) as [b Hb]; [lia|].
    pose proof (Forall_lookup_1 _ _ _ _ Hs Hb) as ->.
    assert ((pre ++ sl ++ r) !! i = Some SLASH) as Hi'
      by (rewrite lookup_app_r, lookup_app_l by lia; done).
    rewrite (get_at_Ok _ _ _ Hi'). cbn [mbind outcome_bind]. rewrite Z.eqb_refl. lia.
Qed.

Lemma skip_segment_spec {E} pre seg r :
  ¬ In SLASH seg → (r = [] ∨ ∃ r', r = SLASH :: r') →
  skip_segment (E:=E) (pre ++ seg ++ r) (length pre) = Ok (length pre + length seg).
Proof.
  intros Hs Hr. unfold skip_segment.
  apply (while_rule (λ i, length pre ≤ i ≤ length pre + length seg) (λ i, length pre + length seg - i)
    (λ o, o = Ok (length pre + length seg))); [|lia|rewrite !length_app; lia].
  intros i Hi. rewrite !length_app. destruct (decide (i = length pre + length seg)) as [->|Hne].
  - destruct Hr as [->|[r' ->]]; [rewrite decide_False by (cbn; lia); done|].
    rewrite decide_True by (cbn; lia).
    assert ((pre ++ seg ++ SLASH :: r') !! (length pre + length seg) = Some SLASH) as Hb.
    { rewrite app_assoc, <-length_app, lookup_app_r by lia. by rewrite Nat.sub_diag. }
    rewrite (get_at_Ok _ _ _ Hb). cbn [mbind outcome_bind]. by rewrite Z.eqb_refl.
  - rewrite decide_True by lia. destruct (lookup_lt_is_Some_2 seg (i - length pre)) as [b Hb]; [lia|].
    assert ((pre ++ seg ++ r) !! i = Some b) as Hi'
      by (rewrite lookup_app_r, lookup_app_l by lia; done).
    rewrite (get_at_Ok _ _ _ Hi'). cbn [mbind outcome_bind].
    destruct (Z.eqb_spec b SLASH) as [->|]; [|lia].
    destruct Hs. apply list_elem_of_In. by eapply list_elem_of_lookup_2.
Qed.

(** ** The buffer holds the stack *)

Record path_rep (output : list Z) (len : nat) (stack : list (list Z)) : Prop := {
  pr_size : length output = LINE_CAPACITY;
  pr_len : len = length (render stack);
  pr_fits : len ≤ LINE_CAPACITY;
  pr_text : take len output = render stack;
  pr_proper : Forall proper_component stack
}.

Lemma back_to_slash_spec {E} output pre c :
  take (length pre + S (length c)) output = pre ++ SLASH :: c → ¬ In SLASH c →
  back_to_slash (E:=E) output (length pre + length c) = Ok (length pre).
Proof.
  intros Ht Hc. unfold back_to_slash.
  apply (while_rule (λ i, length pre ≤ i ≤ length pre + length c) (λ i, i)
    (λ o, o = Ok (length pre))); [|lia|lia].
  intros i Hi. assert (output !! i = (pre ++ SLASH :: c) !! i) as Hlook
    by (rewrite <-Ht, lookup_take_lt by lia; done).
  destruct (decide (i = length pre)) as [->|Hne].
  - case_decide; [|by replace (length pre) with 0 by lia].
    rewrite lookup_app_r, Nat.sub_diag in Hlook by lia.
    rewrite (get_at_Ok _ _ _ Hlook). cbn [mbind outcome_bind]. by rewrite Z.eqb_refl.
  - rewrite decide_True by lia. rewrite lookup_app_r in Hlook by lia.
    replace (i - length pre) with (S (i - length pre - 1)) in Hlook by lia.
    cbn [lookup list_lookup] in Hlook.
    destruct (lookup_lt_is_Some_2 c (i - length pre - 1)) as [b Hb]; [lia|].
    change (output !! i = c !! (i - length pre - 1)) in Hlook. rewrite Hb in Hlook.
    rewrite (get_at_Ok _ _ _ Hlook). cbn [mbind outcome_bind].
    destruct (Z.eqb_spec b SLASH) as [->|]; [|lia].
    destruct Hc. apply list_elem_of_In. by eapply list_elem_of_lookup_2.
Qed.

Lemma push_segment_dotdot output len stack :
  path_rep output len stack →
  ∃ output' len', push_segment output len [DOT; DOT] = Ok (output', len') ∧
    path_rep output' len' (take (length stack - 1) stack).
Proof.
  intros [Hs Hl Hf Ht Hp]. unfold push_segment. rewrite decide_True by done.
  destruct stack as [|w0 stack0 _] using rev_ind.
  { exists output, len. rewrite decide_False by (cbn in Hl; lia). by split. }
  rewrite length_app. cbn [length]. replace (length stack0 + 1 - 1) with (length stack0) by lia.
  rewrite take_app_length. apply Forall_app in Hp as [Hp Hw]. apply Forall_singleton in Hw as (Hw & _ & _ & Hns).
  rewrite render_snoc in Ht, Hl. set (pre := if decide (stack0 = []) then [] else render stack0) in *.
  rewrite length_app in Hl. cbn in Hl. destruct w0 as [|b w0]; [done|].
  rewrite decide_True by (cbn in Hl; lia).
  pose proof (back_to_slash_spec (E:=ResolutionError) output pre (b :: w0)) as Hback.
  replace (length pre + S (length (b :: w0))) with len in Hback by lia. specialize (Hback Ht Hns).
  replace (len - 1) with (length pre + length (b :: w0)) by lia. rewrite Hback. cbn [mbind outcome_bind].
  assert (take (length pre) output = pre) as Hpre.
  { transitivity (take (length pre) (take len output)); [by rewrite take_take, Nat.min_l by lia|].
    rewrite Ht. apply take_app_length. }
  destruct (decide (stack0 = [])) as [->|Hne].
  - cbn in pre. subst pre. cbn [length]. rewrite decide_True by done.
    rewrite set_at_Ok by lia. cbn [mbind outcome_bind]. do 2 eexists. split; [done|].
    split; [by rewrite length_insert|done|lia| |constructor].
    destruct output; [cbn in Hs; lia|done].
  - pose proof (render_pos stack0). assert (pre = render stack0) as Hpe by done.
    rewrite decide_False by (rewrite Hpe; lia). do 2 eexists. split; [done|].
    split; [done|by rewrite Hpe|lia|by rewrite Hpre|done].
Qed.

Lemma push_segment_proper output len stack seg :
  path_rep output len stack → proper_component seg →
  match lexical_step (Some stack) seg with
  | Some stack' => ∃ output' len', push_segment output len seg = Ok (output', len') ∧
      path_rep output' len' stack'
  | None => push_segment output len seg = Err ResolutionUnavailable
  end.
Proof.
  intros [Hs Hl Hf Ht Hp] Hseg. unfold lexical_step. cbn [mbind option_bind].
  rewrite resolve_component_proper by done. rewrite length_render_snoc.
  unfold push_segment. rewrite (decide_False (P:=seg = [DOT; DOT])) by apply Hseg.
  pose proof (render_pos stack) as Hpos. rewrite (decide_False (P:=len = 0)) by lia. cbn [mbind outcome_bind].
  destruct (decide (stack = [])) as [->|Hne].
  - cbn in Hl, Ht. subst len. rewrite (decide_False (P:=1 < 1)) by lia. cbn [mbind outcome_bind].
    rewrite Hs. destruct (decide (LINE_CAPACITY < 1 + length seg)); [by rewrite decide_False by lia|].
    rewrite decide_True by lia. rewrite write_at_Ok by lia. cbn [mbind outcome_bind].
    do 2 eexists. split; [done|]. assert (length (render [seg]) = 1 + length seg) as Hlen
      by (cbn; by rewrite app_nil_r).
    split; [rewrite length_splice; lia|exact (eq_sym Hlen)|lia| |by apply Forall_singleton].
    rewrite take_splice by lia. rewrite Ht. cbn. by rewrite app_nil_r.
  - assert (1 < len) as Hlen.
    { assert (len ≠ 1); [|lia]. rewrite Hl. rewrite render_nonempty_len by done. done. }
    rewrite (decide_True (P:=1 < len)) by done.
    assert (∃ b, output !! (len - 1) = Some b ∧ b ≠ SLASH) as (b & Hb & Hbs).
    { destruct stack as [|w stack0 _] using rev_ind; [done|].
      apply Forall_app in Hp as [_ Hw]. apply Forall_singleton in Hw as (Hw & _ & _ & Hns).
      destruct w as [|b w _] using rev_ind; [done|]. exists b. split.
      - rewrite <-(lookup_take_lt output len) by lia. rewrite Ht.
        rewrite render_snoc in Hl |- *. rewrite length_app in Hl. cbn in Hl. rewrite length_app in Hl. cbn in Hl.
        rewrite lookup_app_r by lia. rewrite app_comm_cons, lookup_app_r by (cbn; lia).
        cbn [length]. match goal with |- [b] !! ?n = _ => replace n with 0 by lia end. done.
      - intros ->. apply Hns, in_app_iff. right. by left. }
    rewrite (get_at_Ok _ _ _ Hb). cbn [mbind outcome_bind]. destruct (Z.eqb_spec b SLASH); [done|].
    rewrite Hs. destruct (decide (LINE_CAPACITY ≤ len)); [by rewrite decide_False by lia|].
    rewrite set_at_Ok by lia. cbn [mbind outcome_bind].
    rewrite length_insert, Hs.
    destruct (decide (LINE_CAPACITY < len + 1 + length seg)); [by rewrite decide_False by lia|].
    rewrite decide_True by lia. rewrite write_at_Ok by (rewrite length_insert; lia). cbn [mbind outcome_bind].
    do 2 eexists. split; [done|].
    assert (length (render (stack ++ [seg])) = len + 1 + length seg) as Hlen'
      by (rewrite length_render_snoc, decide_False by done; lia).
    split; [rewrite length_splice; rewrite length_insert; lia|done|lia| |].
    + rewrite take_splice by (rewrite length_insert; lia).
      rewrite Nat.add_1_r, take_insert_S by lia. rewrite Ht, render_snoc, decide_False by done.
      by rewrite <-app_assoc.
    + apply Forall_app. split; [done|by apply Forall_singleton].
Qed.

(** ** The loop *)

Lemma lexical_none cs : foldl lexical_step None cs = None.
Proof. by induction cs. Qed.

Lemma lexical_nop stack : length (render stack) ≤ LINE_CAPACITY → lexical_step (Some stack) [] = Some stack.
Proof. intros Hl. cbn. by rewrite decide_True. Qed.

Lemma lexical_skip stack sl r :
  length (render stack) ≤ LINE_CAPACITY → Forall (λ b, b = SLASH) sl →
  foldl lexical_step (Some stack) (split_on SLASH (sl ++ r)) = foldl lexical_step (Some stack) (split_on SLASH r).
Proof.
  intros Hl. induction 1 as [|b sl -> _ IH]; [done|].
  change (split_on SLASH ((SLASH :: sl) ++ r)) with ([] :: split_on SLASH (sl ++ r)). cbn [foldl].
  rewrite lexical_nop by done. exact IH.
Qed.

Lemma lexical_segment stack seg r :
  length (render stack) ≤ LINE_CAPACITY → ¬ In SLASH seg → (r = [] ∨ ∃ r', r = SLASH :: r') →
  foldl lexical_step (Some stack) (split_on SLASH (seg ++ r)) =
  match lexical_step (Some stack) seg with
  | Some stack' => foldl lexical_step (Some stack') (split_on SLASH r)
  | None => None
  end.
Proof.
  intros Hl Hs [->|[r' ->]].
  - rewrite app_nil_r, split_on_word by done. cbn [foldl].
    destruct (lexical_step (Some stack) seg) as [stack'|] eqn:Hst; [|done].
    unfold lexical_step in Hst. cbn [mbind option_bind] in Hst. case_decide; [|done]. injection Hst as <-.
    symmetry. by apply lexical_nop.
  - rewrite split_on_app by done. cbn [foldl].
    destruct (lexical_step (Some stack) seg) as [stack'|] eqn:Hst; [|by rewrite lexical_none].
    cbn in Hst. case_decide; [|done]. injection Hst as <-.
    symmetry. by apply (lexical_skip _ [SLASH]); [|repeat constructor].
Qed.

Definition normalized (o : outcome ResolutionError (list Z * nat)) (goal : option (list (list Z))) : Prop :=
  match goal with
  | Some stack => ∃ output len, o = Ok (output, len) ∧ path_rep output len stack
  | None => o = Err ResolutionUnavailable
  end.

Lemma normalize_loop input goal output len stack :
  utf8_valid input = true → path_rep output len stack →
  foldl lexical_step (Some stack) (split_on SLASH input) = goal →
  normalized (while (S (S (length input))) (normalize_step input) (0, output, len)) goal.
Proof.
  intros Hu Hrep Hgoal.
  apply (while_rule (λ '(index, output, len), ∃ pre rest stack, input = pre ++ rest ∧ index = length pre ∧
      utf8_valid rest = true ∧ path_rep output len stack ∧
      foldl lexical_step (Some stack) (split_on SLASH rest) = goal)
    (λ '(index, _, _), length input - index) (λ o, normalized o goal));
    [|exists [], input, stack; split_and!; done|lia].
  clear output len stack Hrep Hgoal.
  intros [[index output] len] (pre & rest & stack & -> & -> & Hur & Hrep & Hgoal).
  unfold normalize_step. rewrite length_app, decide_True by lia.
  destruct (slashes_split rest) as (sl & r & -> & Hsl & Hr).
  rewrite skip_slashes_spec by done. cbn [mbind outcome_bind].
  rewrite lexical_skip in Hgoal; [|destruct Hrep; lia|done].
  destruct (segment_split r) as (seg & r' & -> & Hseg & Hr').
  rewrite !length_app. destruct (decide (length pre + (length sl + (length seg + length r')) ≤ length pre + length sl)).
  { destruct seg; [|cbn in *; lia]. destruct r'; [|cbn in *; lia].
    change (lexical_step (Some stack) [] = goal) in Hgoal.
    rewrite lexical_nop in Hgoal by (destruct Hrep; lia). subst goal. by exists output, len. }
  assert (seg ≠ []) as Hne.
  { intros ->. destruct Hr' as [->|[r'' ->]]; [cbn in *; lia|done]. }
  assert (length pre + length sl = length (pre ++ sl)) as -> by by rewrite length_app.
  assert (pre ++ sl ++ seg ++ r' = (pre ++ sl) ++ seg ++ r') as -> by by rewrite <-app_assoc.
  rewrite skip_segment_spec by done. cbn [mbind outcome_bind].
  assert (utf8_valid (sl ++ seg ++ r') = true → utf8_valid (seg ++ r') = true ∧ utf8_valid seg = true ∧ utf8_valid r' = true)
    as Hcut.
  { intros Hx. assert (utf8_valid (seg ++ r') = true) as Hsr.
    { clear -Hx Hsl. induction Hsl as [|b sl -> _ IH]; [done|].
      apply IH. by apply (utf8_cut [] SLASH) in Hx as [_ ?]; [|unfold SLASH; lia]. }
    split; [done|]. destruct Hr' as [->|[r'' ->]]; [by rewrite app_nil_r in Hsr|].
    apply utf8_cut in Hsr as [??]; [|unfold SLASH; lia]. split; [done|]. by apply (utf8_app [SLASH]). }
  destruct (Hcut Hur) as (Husr & Hus & Hur'). clear Hcut.
  rewrite (str_slice_middle (pre ++ sl) seg r') by done. cbn [mbind outcome_bind].
  rewrite lexical_segment in Hgoal; [|destruct Hrep; lia|done|done].
  assert (0 < length seg) by (destruct seg; [done|cbn; lia]).
  assert (∀ output len stack', path_rep output len stack' →
    foldl lexical_step (Some stack') (split_on SLASH r') = goal →
    (∃ pre0 rest0 stack0, (pre ++ sl) ++ seg ++ r' = pre0 ++ rest0 ∧
      length (pre ++ sl) + length seg = length pre0 ∧ utf8_valid rest0 = true ∧ path_rep output len stack0 ∧
      foldl lexical_step (Some stack0) (split_on SLASH rest0) = goal) ∧
    length pre + (length sl + (length seg + length r')) - (length (pre ++ sl) + length seg) <
      length pre + (length sl + (length seg + length r')) - length pre) as Hnext.
  { intros o l st Hst Hg. split; [|rewrite !length_app; lia].
    exists ((pre ++ sl) ++ seg), r', st. rewrite <-!app_assoc, !length_app. split_and!; done || lia. }
  destruct (decide (seg = [DOT])) as [->|Hdot].
  { apply (Hnext _ _ stack Hrep). change (lexical_step (Some stack) [DOT]) with (lexical_step (Some stack) []) in Hgoal.
    by rewrite lexical_nop in Hgoal by (destruct Hrep; lia). }
  destruct (decide (seg = [DOT; DOT])) as [->|Hdd].
  { destruct (push_segment_dotdot _ _ _ Hrep) as (o & l & -> & Hrep'). cbn [mbind outcome_bind].
    apply (Hnext _ _ _ Hrep'). assert (lexical_step (Some stack) [DOT; DOT] = Some (take (length stack - 1) stack))
      as Hst by (unfold lexical_step; cbn [mbind option_bind]; apply decide_True; destruct Hrep';
        change (length (render (take (length stack - 1) stack)) ≤ LINE_CAPACITY); lia).
    by rewrite Hst in Hgoal. }
  assert (proper_component seg) as Hproper by done.
  pose proof (push_segment_proper _ _ _ _ Hrep Hproper) as Hpush.
  destruct (lexical_step (Some stack) seg) as [stack'|].
  - destruct Hpush as (o & l & -> & Hrep'). cbn [mbind outcome_bind]. by apply (Hnext _ _ stack').
  - rewrite Hpush. cbn. by rewrite <-Hgoal.
Qed.

Lemma normalize_with_spec cwd input :
  Forall proper_component cwd → length (render cwd) ≤ LINE_CAPACITY → utf8_valid input = true →
  normalized (normalize_with (render cwd) input) (lexical cwd input).
Proof.
  intros Hp Hl Hu. unfold normalize_with, lexical. rewrite length_replicate.
  assert (∀ output len stack, path_rep output len stack →
    normalized ('(output, len) ← while (S (S (length input))) (normalize_step input) (0, output, len);
      if decide (len = 0) then output ← set_at output 0 SLASH; Ok (output, 1) else Ok (output, len))
    (foldl lexical_step (Some stack) (split_on SLASH input))) as Hloop.
  { intros output len stack Hrep. pose proof (normalize_loop input _ output len stack Hu Hrep eq_refl) as H.
    destruct (foldl lexical_step (Some stack) (split_on SLASH input)) as [st|]; [|cbn in *; by rewrite H].
    destruct H as (o & l & -> & Hr). cbn [mbind outcome_bind]. destruct Hr as [Hs Hlen Hf Ht Hpr].
    pose proof (render_pos st). rewrite decide_False by lia. by exists o, l. }
  destruct (starts_with SLASH input).
  - rewrite set_at_Ok by (rewrite length_replicate; unfold LINE_CAPACITY; lia). cbn [mbind outcome_bind].
    apply Hloop. split; [by rewrite length_insert, length_replicate|done|unfold LINE_CAPACITY; lia|done|constructor].
  - rewrite decide_False by lia. rewrite write_at_Ok by (rewrite length_replicate; lia). cbn [mbind outcome_bind].
    apply Hloop. split; [rewrite length_splice; rewrite length_replicate; lia|done|done| |done].
    apply take_splice_0. rewrite length_replicate. lia.
Qed.

(** Where the kernel's resolution succeeds, the shell's does, with the same
    result. *)
Lemma lexical_of_resolve cs stack st :
  foldl (resolve_step LINE_CAPACITY) (Some stack) cs = Some st → foldl lexical_step (Some stack) cs = Some st.
Proof.
  revert stack. induction cs as [|c cs IH]; intros stack H; [done|]. cbn [foldl] in *.
  unfold resolve_step at 2 in H. cbn [mbind option_bind] in H.
  unfold lexical_step at 2. cbn [mbind option_bind].
  destruct (decide (length (resolve_component stack c) ≤ MAX_PATH_COMPONENTS ∧ _)) as [[_ Hl]|].
  - rewrite decide_True by done. by apply IH.
  - exfalso. clear -H. by induction cs.
Qed.

(** * Properties *)

(** C30. [where] resolves a path as the kernel does.  For a working directory
    as the kernel keeps it and any argument, [normalize_command_path] never
    panics; it computes the lexical resolution, or fails when that does not
    fit the buffer; and whenever the kernel's [normalize_path] accepts the
    same argument, both compute the same path. *)
Theorem where_resolves_like_kernel cwd input :
  Forall proper_component cwd → fits LINE_CAPACITY cwd → utf8_valid input = true →
  normalized (normalize_with (render cwd) input) (lexical cwd input) ∧
  ∀ buf n buf', length buf = LINE_CAPACITY → normalize_path (render cwd) input buf = Ok (n, buf') →
    ∃ bytes, normalize_with (render cwd) input = Ok (bytes, n) ∧ take n bytes = take n buf'.
Proof.
  intros Hp Hf Hu. pose proof (normalize_with_spec cwd input Hp (proj2 Hf) Hu) as Hn. split; [done|].
  intros buf n buf' Hb (st & Hr & -> & Ht & _)%normalize_path_Ok. rewrite Hb in Hr.
  assert (lexical cwd input = Some st) as Hlex.
  { unfold resolve_path in Hr. case_decide; [done|]. unfold lexical. destruct (starts_with SLASH input).
    - by apply lexical_of_resolve.
    - rewrite resolve_parts_render in Hr by done. by apply lexical_of_resolve. }
  rewrite Hlex in Hn. destruct Hn as (bytes & len & Hn & [_ -> _ Htext _]). exists bytes. by rewrite Hn, Htext, Ht.
Qed.

Lemma where_resolves_like_kernel_witness :
  ∃ bytes, normalize_with (ascii "/bin") (ascii "../lib//./x") = Ok (bytes, 6) ∧ take 6 bytes = ascii "/lib/x".
Proof.
  destruct (where_resolves_like_kernel [ascii "bin"] (ascii "../lib//./x")) as [_ H].
  - apply Forall_singleton. split_and!; [discriminate|discriminate|discriminate|].
    intros Hin. vm_compute in Hin. intuition discriminate.
  - split; [cbn; unfold MAX_PATH_COMPONENTS; lia|vm_compute; lia].
  - reflexivity.
  - destruct (normalize_path (ascii "/bin") (ascii "../lib//./x") (replicate LINE_CAPACITY 0%Z)) as [[n buf']|e| |] eqn:Hk;
      try (exfalso; vm_compute in Hk; discriminate Hk).
    assert (n = 6 ∧ take 6 buf' = ascii "/lib/x") as [-> Hbuf]
      by (vm_compute in Hk; injection Hk as <- <-; split; reflexivity).
    destruct (H (replicate LINE_CAPACITY 0%Z) 6 buf' eq_refl Hk) as (bytes & Hb & Ht).
    exists bytes. split; [exact Hb|]. rewrite Ht. exact Hbuf.
Defined.
