(* ===== verification/Lash.v ===== *)
(** * The shell [lash] ([user/lash/src]: shell.rs, commands.rs, builtins.rs,
    paths.rs, repl.rs)

    The shell as an interaction tree over the calls of [Userland], on top of
    the pure parsers of [LashParse].  The specification runs lists of words
    and lists of segments; the shell's loops over token arrays, byte offsets
    and fixed buffers are proved equivalent to it. *)

From stdpp Require Import pretty.
From ITree Require Import ITree ITreeFacts Events.State Events.StateFacts.
From S2P Require Import Prelude Bytes Errors Paths Env Lazer Userland LashParse LashPath.
Import Token Segment.

(** ** State (shell.rs) *)

Record Shell := mkShell { line : list Z; len : nat; byte : Z; cwd : list Z }.

Definition Shell_new : Shell :=
  mkShell (replicate LINE_CAPACITY 0%Z) 0 0 (replicate LINE_CAPACITY 0%Z).

Inductive ExecutionMode := Interactive | Batch.

Definition is_interactive (mode : ExecutionMode) : bool :=
  match mode with Interactive => true | Batch => false end.

(** A call of [getcwd] with [self.cwd]: what was there stays behind the answer. *)
Definition with_cwd (bytes : list Z) (sh : Shell) : Shell :=
  mkShell (line sh) (len sh) (byte sh) (splice (cwd sh) 0 bytes).
Definition with_byte (b : Z) (sh : Shell) : Shell := mkShell (line sh) (len sh) b (cwd sh).
Definition with_line (l : list Z) (n : nat) (sh : Shell) : Shell := mkShell l n (byte sh) (cwd sh).

(** The working directory for the prompt and for [where]. *)
Definition read_cwd (sh : Shell) : program (GetCwdError + list Z * Shell) :=
  r ← call (GetCwd (length (cwd sh)));
  match r with
  | inl e => Ret (inl e)
  | inr bytes =>
      bytes ← answered (length (cwd sh)) bytes;
      Ret (inr (unwrap_or (from_utf8 bytes) [SLASH], with_cwd bytes sh))
  end.

(** ** Paths (paths.rs) *)

Definition COMMAND_PATH_CAPACITY : nat := LINE_CAPACITY + 1 + 128.
Definition PATH_BUFFER_CAPACITY : nat := 128.

Inductive PathSearchStep (T : Type) := Continue | Matched | Return (value : T).
Inductive PathSearchOutcome (T : Type) := NoMatches | SomeMatches | Returned (value : T).
Arguments Continue {T}.
Arguments Matched {T}.
Arguments Return {T} value.
Arguments NoMatches {T}.
Arguments SomeMatches {T}.
Arguments Returned {T} value.

Definition normalize_command_path (sh : Shell) (input : list Z)
    : program ((ResolutionError + list Z * nat) * Shell) :=
  r ← read_cwd sh;
  match r with
  | inl _ => Ret (inl ResolutionUnavailable, sh)
  | inr (cwd, sh) => r ← result (normalize_with cwd input); Ret (r, sh)
  end.

(** [NormalizedPath::as_str] *)
Definition normalized_as_str (path : list Z * nat) : outcome ResolutionError (list Z) :=
  s ← slice path.1 0 path.2; ok_or (from_utf8 s) InvalidPath.

Definition probe_path (path : list Z) : program (ResolutionError + bool) :=
  r ← call (ReadFile path 1);
  Ret match r with
      | inr _ | inl FileBufferTooSmall => inr true
      | inl (FileErrorNotFound | FileNotAFile) => inr false
      | inl FileInvalidPath => inl InvalidPath
      | inl FileResourceUnavailable => inl ResolutionUnavailable
      end.

Definition load_path : program (option (list Z)) :=
  r ← call (GetEnv (ascii "PATH") PATH_BUFFER_CAPACITY);
  match r with
  | inl _ => Ret None
  | inr bytes => bytes ← answered PATH_BUFFER_CAPACITY bytes; Ret (from_utf8 bytes)
  end.

(** The buffer is kept for the next candidate. *)
Definition build_path_candidate (entry command candidate_buffer : list Z)
    : outcome ResolutionError (list Z * list Z) :=
  let needed := length entry + 1 + length command in
  if decide (length candidate_buffer < needed) then Err ResolutionUnavailable
  else
    candidate_buffer ← write_at candidate_buffer 0 entry;
    candidate_buffer ← set_at candidate_buffer (length entry) SLASH;
    candidate_buffer ← write_at candidate_buffer (length entry + 1) command;
    s ← slice candidate_buffer 0 needed;
    s ← ok_or (from_utf8 s) InvalidPath;
    Ok (s, candidate_buffer).

Definition COLON : Z := 58.

(** [str::find] of an ASCII character. *)
Fixpoint find_byte (b : Z) (s : list Z) : option nat :=
  match s with
  | [] => None
  | c :: s => if (c =? b)%Z then Some 0 else S <$> find_byte b s
  end.

(** One round of the loop of [with_path_candidates]: the entry that starts at
    [segment_start], and its length. *)
Definition path_entry (path : list Z) (segment_start : nat) : outcome void (list Z * nat) :=
  remainder ← str_slice path segment_start (length path);
  let segment_len := unwrap_or (find_byte COLON remainder) (length remainder) in
  entry ← str_slice remainder 0 segment_len;
  Ok (entry, segment_len).

Definition next_candidate {T} (command : list Z) (visitor : list Z → program (PathSearchStep T))
    (path : list Z) (v : nat * bool * list Z)
    : program (nat * bool * list Z + (ResolutionError + PathSearchOutcome T)) :=
  let '(segment_start, matched, candidate_buffer) := v in
  let finish (matched : bool) := Ret (inr (inr (if matched then SomeMatches else NoMatches))) in
  if decide (segment_start ≤ length path) then
    e ← value (path_entry path segment_start);
    let '(entry, segment_len) := e : list Z * nat in
    let next matched candidate_buffer :=
      if decide (length path ≤ segment_start + segment_len) then finish matched
      else Ret (inl (segment_start + segment_len + 1, matched, candidate_buffer)) in
    if negb (bool_decide (entry = [])) && starts_with SLASH entry then
      c ← result (build_path_candidate entry command candidate_buffer);
      match c with
      | inl e => Ret (inr (inl e))
      | inr (candidate, candidate_buffer) =>
          step ← visitor candidate;
          match step with
          | Continue => next matched candidate_buffer
          | Matched => next true candidate_buffer
          | Return v => Ret (inr (inr (Returned v)))
          end
      end
    else next matched candidate_buffer
  else finish matched.

Definition with_path_candidates {T} (command : list Z) (visitor : list Z → program (PathSearchStep T))
    : program (ResolutionError + PathSearchOutcome T) :=
  path ← load_path;
  match path with
  | None => Ret (inr NoMatches)
  | Some path =>
      ITree.iter (next_candidate command visitor path) (0, false, replicate COMMAND_PATH_CAPACITY 0%Z)
  end.

(** ** Commands (commands.rs) *)

(** [{}] of a [usize]. *)
Definition decimal (n : Z) : list Z := ascii (pretty (Z.to_N n)).

Definition command_not_found (command : list Z) : program () :=
  println_with (ascii "lash: command not found: ") command.

Definition report_command_status (status : Z) (mode : ExecutionMode) : program Z :=
  _ ← (if negb (status =? 0)%Z && is_interactive mode then
         _ ← println_with (ascii "lash: command exited with status ") (decimal status);
         println []
       else Ret tt);
  Ret status.

Definition print_invalid_path (path : list Z) : program Z :=
  _ ← println_with (ascii "lash: invalid path: ") path; Ret 1%Z.

Definition print_resource_unavailable (message : list Z) : program Z :=
  _ ← println message; Ret 1%Z.

Definition RUN_UNAVAILABLE : list Z := ascii "lash: unable to run command: resource unavailable".
Definition RESOLVE_UNAVAILABLE : list Z := ascii "lash: unable to resolve command: resource unavailable".

Definition run_path_command (command : list Z) (arguments : list (list Z)) (mode : ExecutionMode)
    : program Z :=
  r ← with_path_candidates command (λ candidate,
    r ← call (SpawnWait candidate arguments);
    match r with
    | inr status => status ← report_command_status status mode; Ret (Return status)
    | inl LzFileNotFound => Ret Continue
    | inl LzInvalidPath => status ← print_invalid_path candidate; Ret (Return status)
    | inl LzInvalidExecutable =>
        _ ← println_with (ascii "lash: invalid executable: ") candidate; Ret (Return 1%Z)
    | inl LzResourceUnavailable =>
        status ← print_resource_unavailable RUN_UNAVAILABLE; Ret (Return status)
    end);
  match r with
  | inr (Returned status) => Ret status
  | inr SomeMatches | inr NoMatches => _ ← command_not_found command; Ret 1%Z
  | inl InvalidPath => print_invalid_path command
  | inl ResolutionUnavailable => print_resource_unavailable RUN_UNAVAILABLE
  end.

Definition print_path_matches (command : list Z) : program Z :=
  r ← with_path_candidates command (λ candidate,
    r ← probe_path candidate;
    match r with
    | inr true => _ ← println_arg candidate; Ret Matched
    | inr false => Ret Continue
    | inl InvalidPath => status ← print_invalid_path candidate; Ret (Return status)
    | inl ResolutionUnavailable =>
        status ← print_resource_unavailable RESOLVE_UNAVAILABLE; Ret (Return status)
    end);
  match r with
  | inr SomeMatches => Ret 0%Z
  | inr (Returned status) => Ret status
  | inr NoMatches => _ ← command_not_found command; Ret 1%Z
  | inl InvalidPath => print_invalid_path command
  | inl ResolutionUnavailable => print_resource_unavailable RESOLVE_UNAVAILABLE
  end.

Definition print_explicit_where (display_name path : list Z) : program Z :=
  r ← probe_path path;
  match r with
  | inr true => _ ← println_arg path; Ret 0%Z
  | inr false => _ ← command_not_found display_name; Ret 1%Z
  | inl InvalidPath => print_invalid_path path
  | inl ResolutionUnavailable => print_resource_unavailable RESOLVE_UNAVAILABLE
  end.

Definition run_command_at_path (display_name path : list Z) (arguments : list (list Z))
    (mode : ExecutionMode) : program Z :=
  r ← call (SpawnWait path arguments);
  match r with
  | inr status => report_command_status status mode
  | inl LzFileNotFound => _ ← command_not_found display_name; Ret 1%Z
  | inl LzInvalidPath => print_invalid_path path
  | inl LzInvalidExecutable => _ ← println_with (ascii "lash: invalid executable: ") path; Ret 1%Z
  | inl LzResourceUnavailable => print_resource_unavailable RUN_UNAVAILABLE
  end.

(** [tokens.token(index).unwrap_or(default)] *)
Definition token_or {E} (tokens : TokenizedCommand) (index : nat) (otherwise : list Z) : outcome E (list Z) :=
  match Token.token tokens index with
  | Ok o => Ok (unwrap_or o otherwise)
  | Err _ | Panic => Panic
  | Hang => Hang
  end.

(** The arguments after the command's name; [None] when there are too many. *)
Definition collect_arguments (tokens : TokenizedCommand) : outcome void (option (list (list Z))) :=
  r ← while (S (Token.count tokens)) (λ '(arguments, argument_count, index),
    if decide (index < Token.count tokens) then
      if decide (length arguments ≤ argument_count) then Ok (inr None)
      else
        t ← token_or tokens index [];
        arguments ← set_at arguments argument_count t;
        Ok (inl (arguments, argument_count + 1, index + 1))
    else Ok (inr (Some (arguments, argument_count))))
    (replicate MAX_COMMAND_ARGS [], 0, 1);
  match r with
  | None => Ok None
  | Some (arguments, argument_count) => a ← slice arguments 0 argument_count; Ok (Some a)
  end.

Definition run_command (command : list Z) (tokens : TokenizedCommand) (mode : ExecutionMode) : program Z :=
  r ← value (collect_arguments tokens);
  match r with
  | None => _ ← println (ascii "lash: unable to parse command: resource unavailable"); Ret 1%Z
  | Some arguments =>
      if starts_with SLASH command || contains SLASH command
      then run_command_at_path command command arguments mode
      else run_path_command command arguments mode
  end.

(** ** Builtins (builtins.rs) *)

Definition ENV_LIST_BUFFER_CAPACITY : nat := 1024.

Definition fails (message : list Z) : program Z := _ ← println message; Ret 1%Z.
Definition fails_with (message argument : list Z) : program Z := _ ← println_with message argument; Ret 1%Z.

Definition run_cd (tokens : TokenizedCommand) : program Z :=
  path ← (if decide (1 < Token.count tokens) then value (token_or tokens 1 [SLASH]) else Ret [SLASH]);
  r ← call (Chdir path);
  match r with
  | inr _ => Ret 0%Z
  | inl (ChdirInvalidPath | ChdirNotFound) => fails_with (ascii "lash: directory not found: ") path
  | inl ChdirResourceUnavailable =>
      fails (ascii "lash: unable to change directory: resource unavailable")
  end.

Definition run_env (tokens : TokenizedCommand) : program Z :=
  if negb (bool_decide (Token.count tokens = 1)) then fails (ascii "lash: usage: env")
  else
    r ← call (ListEnv ENV_LIST_BUFFER_CAPACITY);
    match r with
    | inr bytes =>
        _ ← (if decide (0 < length bytes) then
               bytes ← answered ENV_LIST_BUFFER_CAPACITY bytes; stdout_write bytes
             else Ret tt);
        Ret 0%Z
    | inl ListBufferTooSmall => fails (ascii "lash: unable to list environment: buffer too small")
    | inl ListResourceUnavailable =>
        fails (ascii "lash: unable to list environment: resource unavailable")
    end.

(** The value of [set]: its words joined by spaces; [None] when too long. *)
Definition join_value (tokens : TokenizedCommand) : outcome void (option (list Z)) :=
  r ← while (S (Token.count tokens)) (λ '(value_bytes, value_len, index),
    if decide (index < Token.count tokens) then
      token_bytes ← token_or tokens index [];
      let separator_len := if decide (index = 2) then 0 else 1 in
      if decide (length value_bytes < value_len + separator_len + length token_bytes)
      then Ok (inr None)
      else
        '(value_bytes, value_len) ←
          (if decide (separator_len = 1) then
             value_bytes ← set_at value_bytes value_len SPACE; Ok (value_bytes, value_len + 1)
           else Ok (value_bytes, value_len));
        value_bytes ← write_at value_bytes value_len token_bytes;
        Ok (inl (value_bytes, value_len + length token_bytes, index + 1))
    else Ok (inr (Some (value_bytes, value_len))))
    (replicate LINE_CAPACITY 0%Z, 0, 2);
  match r with
  | None => Ok None
  | Some (value_bytes, value_len) =>
      s ← slice value_bytes 0 value_len; Ok (Some (unwrap_or (from_utf8 s) []))
  end.

Definition report_set (key value : list Z) : program Z :=
  r ← call (SetEnv key value);
  match r with
  | inr _ => Ret 0%Z
  | inl SetInvalidKey => fails_with (ascii "lash: invalid environment key: ") key
  | inl SetKeyTooLong => fails_with (ascii "lash: environment key too long: ") key
  | inl SetValueTooLong => fails_with (ascii "lash: environment value too long for key: ") key
  | inl SetCapacityExceeded => fails (ascii "lash: unable to set environment: capacity exceeded")
  | inl SetResourceUnavailable => fails (ascii "lash: unable to set environment: resource unavailable")
  end.

Definition run_set (tokens : TokenizedCommand) : program Z :=
  if decide (Token.count tokens < 3) then fails (ascii "lash: usage: set KEY VALUE...")
  else
    key ← value (token_or tokens 1 []);
    v ← value (join_value tokens);
    match v with
    | None => fails (ascii "lash: unable to set environment: value too long")
    | Some v => report_set key v
    end.

Definition report_unset (key : list Z) : program Z :=
  r ← call (UnsetEnv key);
  match r with
  | inr _ => Ret 0%Z
  | inl UnsetInvalidKey => fails_with (ascii "lash: invalid environment key: ") key
  | inl UnsetNotFound => fails_with (ascii "lash: environment variable not found: ") key
  | inl UnsetResourceUnavailable =>
      fails (ascii "lash: unable to unset environment: resource unavailable")
  end.

Definition run_unset (tokens : TokenizedCommand) : program Z :=
  if negb (bool_decide (Token.count tokens = 2)) then fails (ascii "lash: usage: unset KEY")
  else key ← value (token_or tokens 1 []); report_unset key.

(** [where] with the name it is given. *)
Definition where_name (sh : Shell) (name : list Z) : program (Z * Shell) :=
  if starts_with SLASH name then status ← print_explicit_where name name; Ret (status, sh)
  else if contains SLASH name then
    '(r, sh) ← normalize_command_path sh name;
    match r with
    | inl InvalidPath => status ← fails_with (ascii "lash: invalid path: ") name; Ret (status, sh)
    | inl ResolutionUnavailable => status ← fails RESOLVE_UNAVAILABLE; Ret (status, sh)
    | inr path =>
        s ← result (normalized_as_str path);
        let path := match s with inr s => s | inl _ => name end in
        status ← print_explicit_where name path; Ret (status, sh)
    end
  else status ← print_path_matches name; Ret (status, sh).

Definition run_where (sh : Shell) (tokens : TokenizedCommand) : program (Z * Shell) :=
  if negb (bool_decide (Token.count tokens = 2)) then
    status ← fails (ascii "lash: usage: where NAME"); Ret (status, sh)
  else name ← value (token_or tokens 1 []); where_name sh name.

(** ** Lines (shell.rs) *)

Definition print_parse_error (mode : ExecutionMode) : program () :=
  _ ← println (ascii "lash: parse error");
  if is_interactive mode then println [] else Ret tt.

Definition report_parse_error (mode : ExecutionMode) (e : ParseError) : program Z :=
  match e with
  | ResourceUnavailable => fails (ascii "lash: unable to parse command: resource unavailable")
  | _ => _ ← print_parse_error mode; Ret 1%Z
  end.

Definition dispatch_command (sh : Shell) (tokens : TokenizedCommand) (mode : ExecutionMode)
    : program (Z * Shell) :=
  let on_tokens (run : TokenizedCommand → program Z) := status ← run tokens; Ret (status, sh) in
  command ← value (token_or tokens 0 []);
  if decide (command = ascii "cd") then on_tokens run_cd
  else if decide (command = ascii "env") then on_tokens run_env
  else if decide (command = ascii "set") then on_tokens run_set
  else if decide (command = ascii "unset") then on_tokens run_unset
  else if decide (command = ascii "where") then run_where sh tokens
  else if decide (command = ascii "exit") then exit 0
  else if negb (bool_decide (command = [])) then on_tokens (λ tokens, run_command command tokens mode)
  else _ ← command_not_found command; Ret (1%Z, sh).

Definition execute_segment (sh : Shell) (text : list Z) (mode : ExecutionMode) : program (Z * Shell) :=
  r ← result (Token.parse text);
  match r with
  | inr tokens =>
      if decide (Token.count tokens = 0) then Ret (0%Z, sh) else dispatch_command sh tokens mode
  | inl e => status ← report_parse_error mode e; Ret (status, sh)
  end.

(** [operator_before(index).unwrap()] and [segment(line, index).unwrap()] *)
Definition unwrap {E F A} (m : outcome E (option A)) : outcome F A :=
  match m with
  | Ok (Some a) => Ok a
  | Hang => Hang
  | _ => Panic
  end.

Definition should_run (segments : SegmentScan) (index : nat) (last_status : Z) : outcome void bool :=
  if decide (index = 0) then Ok true
  else
    op ← unwrap (operator_before segments index);
    Ok match op with
       | And => (last_status =? 0)%Z
       | Or => negb (last_status =? 0)%Z
       | Sequence => true
       end.

Definition next_segment (text : list Z) (mode : ExecutionMode) (segments : SegmentScan)
    (v : nat * Z * Shell) : program (nat * Z * Shell + Z * Shell) :=
  let '(index, last_status, sh) := v in
  if decide (index < Segment.count segments) then
    go ← value (should_run segments index last_status);
    if (go : bool) then
      t ← value (unwrap (segment segments text index));
      '(last_status, sh) ← execute_segment sh t mode;
      Ret (inl (index + 1, last_status, sh))
    else Ret (inl (index + 1, last_status, sh))
  else Ret (inr (last_status, sh)).

Definition execute_line (sh : Shell) (text : list Z) (mode : ExecutionMode) : program (Z * Shell) :=
  r ← result (scan_segments text);
  match r with
  | inl e => status ← report_parse_error mode e; Ret (status, sh)
  | inr segments =>
      if decide (Segment.count segments = 0) then Ret (0%Z, sh)
      else ITree.iter (next_segment text mode segments) (0, 0%Z, sh)
  end.

(** ** The interactive loop (repl.rs) *)

Definition append_printable (b : Z) (sh : Shell) : program Shell :=
  if decide (LINE_CAPACITY ≤ len sh) then Ret sh
  else
    l ← value (set_at (line sh) (len sh) b);
    _ ← stdout_write [b];
    Ret (with_line l (len sh + 1) sh).

Definition backspace (sh : Shell) : program Shell :=
  if decide (len sh = 0) then Ret sh
  else _ ← stdout_write [127%Z]; Ret (with_line (line sh) (len sh - 1) sh).

Definition print_prompt (sh : Shell) : program Shell :=
  r ← read_cwd sh;
  let '(cwd, sh) := match r with inr r => r | inl _ => ([SLASH], sh) end in
  _ ← print [cwd; ascii " > "];
  Ret sh.

Definition submit_line (sh : Shell) : program Shell :=
  _ ← println [];
  text ← value (slice (line sh) 0 (len sh));
  l ← value (write_at (replicate LINE_CAPACITY 0%Z) 0 text);
  text ← value (slice l 0 (len sh));
  '(_, sh) ← execute_line sh text Interactive;
  print_prompt (with_line (line sh) 0 sh).

Definition handle_byte (sh : Shell) : program Shell :=
  if (byte sh =? NEWLINE)%Z then submit_line sh
  else if (byte sh =? 127)%Z then backspace sh
  else if in_range 32 126 (byte sh) then append_printable (byte sh) sh
  else Ret sh.

Definition interactive_step (sh : Shell) : program (Shell + void) :=
  bytes ← stdin_read 1;
  match bytes with
  | [] => _ ← call Yield; Ret (inl sh)
  | b :: _ =>
      sh ← handle_byte (with_byte b sh);
      _ ← call Yield;
      Ret (inl sh)
  end.

Definition run_interactive (sh : Shell) : program void :=
  _ ← println (ascii "Lash !!");
  sh ← print_prompt sh;
  ITree.iter interactive_step sh.

(** [args]: what the iterator of the arguments yields. *)
Definition start (args : list (list Z)) (sh : Shell) : program void :=
  match args with
  | _ :: option :: args =>
      if decide (option = ascii "-c") then
        match args with
        | [] => _ ← println (ascii "lash: missing command string"); exit 1
        | command_line :: _ =>
            '(status, _) ← execute_line sh command_line Batch; exit status
        end
      else run_interactive sh
  | _ => run_interactive sh
  end.

(** ** Specification: words, candidates and chains *)

(** A word as [token(i).unwrap_or] reads it. *)
Definition read_word (w : list Z) : list Z := unwrap_or (from_utf8 w) [].

(** The files that [command] may be: one in each absolute directory of a
    [PATH], in order. *)
Definition path_candidates (command path : list Z) : list (list Z) :=
  map (λ e, e ++ SLASH :: command) (filter (λ e, starts_with SLASH e = true) (split_on COLON path)).

Definition candidates_of (command : list Z) (path : option (list Z)) : list (list Z) :=
  match path with Some path => path_candidates command path | None => [] end.

Fixpoint visit {T} (visitor : list Z → program (PathSearchStep T)) (candidates : list (list Z))
    (matched : bool) : program (PathSearchOutcome T) :=
  match candidates with
  | [] => Ret (if matched then SomeMatches else NoMatches)
  | c :: cs =>
      step ← visitor c;
      match step with
      | Continue => visit visitor cs matched
      | Matched => visit visitor cs true
      | Return v => Ret (Returned v)
      end
  end.

(** What the shell makes of an attempt to run a file. *)
Definition spawn_status (name path : list Z) (mode : ExecutionMode) (r : LzSpawnError + Z) : program Z :=
  match r with
  | inr status => report_command_status status mode
  | inl LzFileNotFound => _ ← command_not_found name; Ret 1%Z
  | inl LzInvalidPath => print_invalid_path path
  | inl LzInvalidExecutable => fails_with (ascii "lash: invalid executable: ") path
  | inl LzResourceUnavailable => fails RUN_UNAVAILABLE
  end.

(** The first candidate that is there decides. *)
Fixpoint try_candidates (command : list Z) (arguments : list (list Z)) (mode : ExecutionMode)
    (candidates : list (list Z)) : program Z :=
  match candidates with
  | [] => _ ← command_not_found command; Ret 1%Z
  | c :: cs =>
      r ← call (SpawnWait c arguments);
      match r with
      | inl LzFileNotFound => try_candidates command arguments mode cs
      | r => spawn_status command c mode r
      end
  end.

Definition spec_run (command : list Z) (arguments : list (list Z)) (mode : ExecutionMode) : program Z :=
  if contains SLASH command then
    r ← call (SpawnWait command arguments); spawn_status command command mode r
  else
    path ← load_path; try_candidates command arguments mode (candidates_of command path).

(** The files that [where] lists; the search goes on after a match. *)
Fixpoint spec_where (command : list Z) (candidates : list (list Z)) (matched : bool) : program Z :=
  match candidates with
  | [] => if matched then Ret 0%Z else _ ← command_not_found command; Ret 1%Z
  | c :: cs =>
      r ← probe_path c;
      match r with
      | inr true => _ ← println_arg c; spec_where command cs true
      | inr false => spec_where command cs matched
      | inl InvalidPath => print_invalid_path c
      | inl ResolutionUnavailable => fails RESOLVE_UNAVAILABLE
      end
  end.

Definition change_directory (path : list Z) : program Z :=
  r ← call (Chdir path);
  match r with
  | inr _ => Ret 0%Z
  | inl (ChdirInvalidPath | ChdirNotFound) => fails_with (ascii "lash: directory not found: ") path
  | inl ChdirResourceUnavailable =>
      fails (ascii "lash: unable to change directory: resource unavailable")
  end.

Definition spec_where_name (sh : Shell) (name : list Z) : program (Z * Shell) :=
  if contains SLASH name then where_name sh name
  else path ← load_path; status ← spec_where name (candidates_of name path) false; Ret (status, sh).

(** A command as the list of its words. *)
Definition spec_words (sh : Shell) (ws : list (list Z)) (mode : ExecutionMode) : program (Z * Shell) :=
  let on (run : program Z) := status ← run; Ret (status, sh) in
  match ws with
  | [] => Ret (0%Z, sh)
  | w :: args =>
      let command := read_word w in
      if decide (command = ascii "cd") then
        on (change_directory match args with p :: _ => unwrap_or (from_utf8 p) [SLASH] | [] => [SLASH] end)
      else if decide (command = ascii "env") then
        on match args with
           | [] =>
               r ← call (ListEnv ENV_LIST_BUFFER_CAPACITY);
               match r with
               | inr [] => Ret 0%Z
               | inr bytes => bytes ← answered ENV_LIST_BUFFER_CAPACITY bytes; _ ← stdout_write bytes; Ret 0%Z
               | inl ListBufferTooSmall => fails (ascii "lash: unable to list environment: buffer too small")
               | inl ListResourceUnavailable =>
                   fails (ascii "lash: unable to list environment: resource unavailable")
               end
           | _ => fails (ascii "lash: usage: env")
           end
      else if decide (command = ascii "set") then
        on match args with
           | key :: (_ :: _) as vs =>
               let v := join_with SPACE (map read_word vs) in
               if decide (length v ≤ LINE_CAPACITY) then report_set (read_word key) v
               else fails (ascii "lash: unable to set environment: value too long")
           | _ => fails (ascii "lash: usage: set KEY VALUE...")
           end
      else if decide (command = ascii "unset") then
        on match args with
           | [key] => report_unset (read_word key)
           | _ => fails (ascii "lash: usage: unset KEY")
           end
      else if decide (command = ascii "where") then
        match args with
        | [name] => spec_where_name sh (read_word name)
        | _ => on (fails (ascii "lash: usage: where NAME"))
        end
      else if decide (command = ascii "exit") then exit 0
      else if decide (command = []) then on (_ ← command_not_found command; Ret 1%Z)
      else on (spec_run command (map read_word args) mode)
  end.

Definition run_text (sh : Shell) (text : list Z) (mode : ExecutionMode) : program (Z * Shell) :=
  match tok Unquoted [] None text with
  | Ok ws => spec_words sh ws mode
  | Err e => status ← report_parse_error mode e; Ret (status, sh)
  | _ => panic
  end.

(** Whether the segment after an operator runs. *)
Definition goes_on (op : option SegmentOperator) (status : Z) : bool :=
  match op with
  | Some And => (status =? 0)%Z
  | Some Or => negb (status =? 0)%Z
  | Some Sequence | None => true
  end.

(** A chain: segments with the operator that follows each; a segment that is
    left out keeps the status of the last one that ran. *)
Fixpoint run_chain (sh : Shell) (segs : list (list Z * option SegmentOperator)) (mode : ExecutionMode)
    (go : bool) (last_status : Z) : program (Z * Shell) :=
  match segs with
  | [] => Ret (last_status, sh)
  | (text, op) :: segs =>
      '(last_status, sh) ← (if go then run_text sh text mode else Ret (last_status, sh));
      run_chain sh segs mode (goes_on op last_status) last_status
  end.

Definition spec_line (sh : Shell) (text : list Z) (mode : ExecutionMode) : program (Z * Shell) :=
  match Segment.split 0 Unquoted [] text with
  | Ok segs => run_chain sh segs mode true 0
  | Err e => status ← report_parse_error mode e; Ret (status, sh)
  | _ => panic
  end.

(** ** Specification: typing

    The program with its keyboard: reads of the standard input take from
    [input], everything else is left to the system. *)

Definition feed : lazerE ~> Monads.stateT (list Z) program := λ T e input,
  match e in lazerE T return lazerE T → program (list Z * T) with
  | Read fd n => λ e,
      if (fd =? 0)%Z then Ret (drop n input, take n input) else a ← call e; Ret (input, a)
  | _ => λ e, a ← call e; Ret (input, a)
  end e.

Definition typing {R} (t : program R) (input : list Z) : program (list Z * R) := interp_state feed t input.

(** What a key does to the line, and what the terminal is sent for it. *)
Definition edited (l : list Z) (b : Z) : list Z :=
  if (b =? 127)%Z then removelast l
  else if in_range 32 126 b && bool_decide (length l < LINE_CAPACITY) then l ++ [b] else l.

Definition echoed (l : list Z) (b : Z) : program () :=
  if (b =? 127)%Z then if decide (l = []) then Ret tt else stdout_write [127%Z]
  else if in_range 32 126 b && bool_decide (length l < LINE_CAPACITY) then stdout_write [b] else Ret tt.

Fixpoint echoes (l keys : list Z) : program () :=
  match keys with
  | [] => Ret tt
  | b :: keys => _ ← echoed l b; _ ← call Yield; echoes (edited l b) keys
  end.

(** The shell with this line typed so far. *)
Definition typed (sh : Shell) (l : list Z) : Prop :=
  length (line sh) = LINE_CAPACITY ∧ len sh = length l ∧ take (len sh) (line sh) = l ∧
  length l ≤ LINE_CAPACITY.

(** * Lemmas *)

(** ** Tokens as words *)

Lemma token_or_word {E} p ws i w d :
  rep p ws None → ws !! i = Some w → token_or (E:=E) p i d = Ok (unwrap_or (from_utf8 w) d).
Proof. intros Hrep Hw. unfold token_or. by rewrite (rep_word _ _ _ _ Hrep Hw). Qed.

Lemma token_or_read {E} p ws i w :
  rep p ws None → ws !! i = Some w → token_or (E:=E) p i [] = Ok (read_word w).
Proof. apply token_or_word. Qed.

Lemma read_word_utf8 w : utf8_valid (read_word w) = true.
Proof. unfold read_word, from_utf8. by destruct (utf8_valid w) eqn:?. Qed.

Lemma read_word_length w : length (read_word w) ≤ length w.
Proof. unfold read_word, from_utf8. destruct (utf8_valid w); cbn; lia. Qed.

Lemma word_length p ws w : rep p ws None → w ∈ ws → length w ≤ LINE_CAPACITY.
Proof.
  intros Hrep Hw. pose proof (rep_limits _ _ Hrep) as [_ Hl].
  apply list_elem_of_In, in_split in Hw as (a & b & ->).
  rewrite concat_app, length_app in Hl. cbn in Hl. rewrite length_app in Hl. lia.
Qed.

Lemma collect_arguments_spec p w args :
  rep p (w :: args) None → collect_arguments p = Ok (Some (map read_word args)).
Proof.
  intros Hrep. pose proof (rep_limits _ _ Hrep) as [Hlim _]. cbn [length] in Hlim.
  unfold collect_arguments. rewrite (rep_count _ _ _ Hrep). cbn [length].
  assert (∃ a, while (E:=void) (S (S (length args))) (λ '(arguments, argument_count, index),
    if decide (index < S (length args)) then
      if decide (length arguments ≤ argument_count) then Ok (inr None)
      else
        t ← token_or p index [];
        arguments ← set_at arguments argument_count t;
        Ok (inl (arguments, argument_count + 1, index + 1))
    else Ok (inr (Some (arguments, argument_count))))
    (replicate MAX_COMMAND_ARGS [], 0, 1) = Ok (Some (splice a 0 (map read_word args), length args)) ∧
    length a = MAX_COMMAND_ARGS) as (a & -> & Ha).
  { apply (while_rule (λ '(arguments, n, index), n ≤ length args ∧ index = S n ∧
        arguments = splice (replicate MAX_COMMAND_ARGS []) 0 (map read_word (take n args)))
      (λ '(_, n, _), length args - n)
      (λ o, ∃ a, o = Ok (Some (splice a 0 (map read_word args), length args)) ∧ length a = MAX_COMMAND_ARGS));
      [|cbn; split_and!; [lia|done|done]|lia].
    intros [[arguments n] index] (Hn & -> & ->).
    assert (length (splice (replicate MAX_COMMAND_ARGS []) 0 (map read_word (take n args))) = MAX_COMMAND_ARGS) as Hlen
      by (rewrite length_splice; rewrite ?length_replicate, ?length_map, ?length_take; lia).
    case_decide.
    - rewrite Hlen, decide_False by lia. destruct (lookup_lt_is_Some_2 args n) as [t Ht]; [lia|].
      rewrite (token_or_read p (w :: args) (S n) t Hrep Ht). cbn [mbind outcome_bind].
      rewrite set_at_next by (rewrite ?length_map, ?length_take, ?length_replicate; lia).
      cbn [mbind outcome_bind]. split; [|lia]. split_and!; [lia|lia|].
      rewrite Nat.add_1_r. by rewrite (take_S_r _ _ _ Ht), map_app.
    - exists (replicate MAX_COMMAND_ARGS []). rewrite length_replicate. split; [|done].
      assert (n = length args) as -> by lia. by rewrite take_ge by lia. }
  cbn [mbind outcome_bind]. rewrite slice_Ok by (rewrite ?length_splice; rewrite ?length_map; lia).
  cbn [mbind outcome_bind]. rewrite sub_0.
  replace (length args) with (length (map read_word args)) by apply length_map.
  by rewrite take_splice_0 by (rewrite length_map; lia).
Qed.

Lemma length_join_snoc sep ws w : ws ≠ [] →
  join_with sep (ws ++ [w]) = join_with sep ws ++ sep :: w.
Proof.
  induction ws as [|v ws IH]; [done|]. intros _. destruct ws as [|v' ws]; [done|].
  change (v ++ sep :: join_with sep ((v' :: ws) ++ [w]) = (v ++ sep :: join_with sep (v' :: ws)) ++ sep :: w).
  rewrite IH by done. by rewrite <-app_assoc.
Qed.

Lemma join_utf8 ws : Forall (λ w, utf8_valid w = true) ws → utf8_valid (join_with SPACE ws) = true.
Proof.
  induction 1 as [|w ws Hw Hws IH]; [done|]. destruct ws as [|w' ws]; [done|].
  change (utf8_valid (w ++ [SPACE] ++ join_with SPACE (w' :: ws)) = true).
  apply utf8_app; [done|]. by apply (utf8_app [SPACE]).
Qed.

Lemma join_prefix_length sep (ws vs : list (list Z)) : length (join_with sep ws) ≤ length (join_with sep (ws ++ vs)).
Proof.
  induction vs as [|v vs IH] using rev_ind; [by rewrite app_nil_r|]. rewrite app_assoc.
  destruct (ws ++ vs) eqn:He; [apply app_eq_nil in He as [-> ->]; cbn; lia|].
  rewrite length_join_snoc by done. rewrite length_app. lia.
Qed.

Lemma join_value_spec p c k vs :
  rep p (c :: k :: vs) None → vs ≠ [] →
  join_value p = Ok (let v := join_with SPACE (map read_word vs) in
                     if decide (length v ≤ LINE_CAPACITY) then Some v else None).
Proof.
  intros Hrep Hvs. unfold join_value. rewrite (rep_count _ _ _ Hrep). cbn [length].
  set (joined n := join_with SPACE (map read_word (take n vs))).
  assert (∀ n t, vs !! n = Some t → joined (S n) =
    joined n ++ (if decide (n = 0) then [] else [SPACE]) ++ read_word t) as Hnext.
  { intros n t Ht. unfold joined. rewrite (take_S_r _ _ _ Ht), map_app. cbn [map].
    destruct n as [|n]; [done|]. destruct vs as [|v vs]; [done|].
    rewrite length_join_snoc by done. by rewrite decide_False by done. }
  match goal with |- context [while ?f ?b ?s] => assert (while f b s =
    Ok (if decide (length (joined (length vs)) ≤ LINE_CAPACITY)
        then Some (splice (replicate LINE_CAPACITY 0%Z) 0 (joined (length vs)), length (joined (length vs)))
        else None)) as -> end.
  { apply (while_rule (λ '(value_bytes, value_len, index), ∃ n, n ≤ length vs ∧ index = 2 + n ∧
        length (joined n) ≤ LINE_CAPACITY ∧ value_len = length (joined n) ∧
        value_bytes = splice (replicate LINE_CAPACITY 0%Z) 0 (joined n))
      (λ '(_, _, index), 2 + length vs - index)
      (λ o, o = Ok _)); [|exists 0; split_and!; [lia|done|apply Nat.le_0_l|done|done]|cbn; lia].
    intros [[value_bytes value_len] index] (n & Hn & -> & Hl & -> & ->). case_decide as Hd.
    - destruct (lookup_lt_is_Some_2 vs n) as [t Ht]; [lia|]. specialize (Hnext n t Ht).
      rewrite (token_or_read p (c :: k :: vs) (2 + n) t Hrep Ht). cbn [mbind outcome_bind].
      rewrite length_splice by (rewrite length_replicate; lia). rewrite length_replicate.
      assert (length (joined (S n)) ≤ length (joined (length vs))) as Hmax.
      { unfold joined. rewrite (take_ge vs (length vs)) by lia.
        rewrite <-(take_drop (S n) vs) at 2. rewrite map_app. apply join_prefix_length. }
      rewrite Hnext, !length_app in Hmax. cbv zeta.
      destruct (decide (n = 0)) as [->|Hn0]; cbn [Nat.add length app] in *.
      + rewrite (decide_True (P:=2 = 2)), (decide_False (P:=0 = 1)) by done.
        case_decide as Hlong; [by rewrite decide_False by lia|]. cbn [mbind outcome_bind].
        rewrite write_at_next by (rewrite ?length_replicate; lia). cbn [mbind outcome_bind].
        rewrite <-Hnext. split; [|lia]. exists 1. rewrite Hnext, length_app. split_and!; [lia..|done].
      + rewrite (decide_False (P:=S (S n) = 2)), (decide_True (P:=1 = 1)) by lia.
        case_decide as Hlong; [by rewrite decide_False by lia|]. cbn [mbind outcome_bind].
        rewrite set_at_next by (rewrite ?length_replicate; lia). cbn [mbind outcome_bind].
        rewrite write_at_next by (rewrite ?length_app, ?length_replicate; cbn; lia). cbn [mbind outcome_bind].
        rewrite <-app_assoc. cbn [app]. split; [|lia]. exists (S n). rewrite Hnext, length_app. cbn [length].
        split_and!; [lia..|done].
    - assert (n = length vs) as -> by lia. by rewrite decide_True by done. }
  cbn [mbind outcome_bind]. unfold joined. rewrite (take_ge vs) by lia. cbv zeta.
  case_decide as Hl; [|done]. rewrite slice_Ok by (rewrite ?length_splice; rewrite ?length_replicate; lia).
  cbn [mbind outcome_bind]. rewrite sub_0, take_splice_0 by (rewrite length_replicate; lia).
  unfold from_utf8. rewrite join_utf8; [done|]. apply Forall_map, Forall_true. intros w. apply read_word_utf8.
Qed.

(** ** The search of PATH *)

Lemma find_byte_None b s : find_byte b s = None → split_on b s = [s].
Proof.
  induction s as [|c s IH]; [done|]. cbn. destruct (c =? b)%Z; [done|].
  intros H%fmap_None. by rewrite IH.
Qed.

Lemma find_byte_Some b s n : find_byte b s = Some n →
  s = take n s ++ b :: drop (S n) s ∧ n < length s ∧ split_on b s = take n s :: split_on b (drop (S n) s).
Proof.
  revert n. induction s as [|c s IH]; intros n; [done|]. cbn.
  destruct (Z.eqb_spec c b) as [->|Hne]; [intros [= <-]; cbn; split_and!; [done|lia|done]|].
  intros (m & Hm & ->)%fmap_Some. destruct (IH m Hm) as (Hs & Hl & ->).
  cbn. split_and!; [by f_equal|lia|done].
Qed.

Lemma path_entry_spec pre rest : utf8_valid rest = true →
  ∃ n, path_entry (pre ++ rest) (length pre) = Ok (take n rest, n) ∧ n ≤ length rest ∧
    utf8_valid (take n rest) = true ∧
    (n = length rest ∧ split_on COLON rest = [take n rest] ∨
     n < length rest ∧ rest = take n rest ++ COLON :: drop (S n) rest ∧ utf8_valid (drop (S n) rest) = true ∧
     split_on COLON rest = take n rest :: split_on COLON (drop (S n) rest)).
Proof.
  intros Hu. unfold path_entry.
  pose proof (str_slice_middle (E:=void) pre rest [] Hu eq_refl) as H.
  rewrite app_nil_r in H. rewrite length_app, H. cbn [mbind outcome_bind].
  destruct (find_byte COLON rest) as [n|] eqn:Hf; cbn [unwrap_or default].
  - apply find_byte_Some in Hf as (Hr & Hn & Hsp). unfold unwrap_or. cbn [default from_option id].
    assert (utf8_valid (take n rest) = true ∧ utf8_valid (drop (S n) rest) = true) as [Hu1 Hu2]
      by (apply (utf8_cut _ COLON); [unfold COLON; lia|by rewrite <-Hr]).
    exists n. split_and!; [|lia|done|right; done].
    pose proof (boundary_ascii (take n rest) COLON (drop (S n) rest) ltac:(unfold COLON; lia)) as Hbd.
    rewrite <-Hr, length_take, Nat.min_l in Hbd by lia. unfold str_slice. rewrite Hbd.
    cbn [is_char_boundary bool_decide decide_rel orb andb]. by rewrite slice_Ok, sub_0 by lia.
  - apply find_byte_None in Hf. exists (length rest). rewrite take_ge by done.
    split_and!; [|done|done|by left].
    unfold unwrap_or. cbn [default from_option id].
    pose proof (str_slice_middle (E:=void) [] rest [] Hu eq_refl) as H'. cbn in H'.
    rewrite app_nil_r in H'. by rewrite H'.
Qed.

Lemma build_path_candidate_spec entry command buffer :
  utf8_valid entry = true → utf8_valid command = true →
  length entry + 1 + length command ≤ length buffer →
  ∃ buffer', build_path_candidate entry command buffer = Ok (entry ++ SLASH :: command, buffer') ∧
    length buffer' = length buffer.
Proof.
  intros He Hc Hl. unfold build_path_candidate. rewrite decide_False by lia.
  rewrite write_at_Ok by lia. cbn [mbind outcome_bind].
  rewrite set_at_next by lia. cbn [mbind outcome_bind].
  rewrite write_at_next by (rewrite length_app; cbn; lia). cbn [mbind outcome_bind].
  rewrite <-app_assoc. cbn [app].
  assert (length entry + 1 + length command = length (entry ++ SLASH :: command)) as Hn
    by (rewrite length_app; cbn; lia).
  rewrite slice_Ok by (rewrite ?length_splice; lia). cbn [mbind outcome_bind].
  rewrite sub_0, Hn, take_splice_0 by lia. unfold from_utf8.
  assert (utf8_valid (entry ++ SLASH :: command) = true) as ->
    by (apply utf8_app; [done|]; by apply (utf8_app [SLASH])).
  eexists. split; [done|]. apply length_splice. lia.
Qed.

Lemma candidates_cons command e es :
  map (λ e, e ++ SLASH :: command) (filter (λ e, starts_with SLASH e = true) (e :: es)) =
  (if starts_with SLASH e then [e ++ SLASH :: command] else []) ++
  map (λ e, e ++ SLASH :: command) (filter (λ e, starts_with SLASH e = true) es).
Proof. rewrite filter_cons. destruct (starts_with SLASH e) eqn:He; [by rewrite decide_True|by rewrite decide_False]. Qed.

Lemma next_candidates {T} (visitor : list Z → program (PathSearchStep T)) command path :
  utf8_valid command = true → length command ≤ LINE_CAPACITY → length path ≤ PATH_BUFFER_CAPACITY →
  ∀ rest pre matched buffer, path = pre ++ rest → utf8_valid rest = true →
  length buffer = COMMAND_PATH_CAPACITY →
  ITree.iter (next_candidate command visitor path) (length pre, matched, buffer) ≈
  (r ← visit visitor (path_candidates command rest) matched; Ret (inr r)).
Proof.
  intros Hc Hcl Hpl rest. remember (length rest) as m eqn:Hm. revert rest Hm.
  induction (lt_wf m) as [m _ IH]. intros rest -> pre matched buffer -> Hu Hb.
  rewrite iter_round. set (again := ITree.iter (next_candidate command visitor (pre ++ rest))).
  unfold next_candidate. rewrite length_app in Hpl |- *. rewrite decide_True by lia.
  destruct (path_entry_spec pre rest Hu) as (n & He & Hn & Hun & Hcase). rewrite He.
  rewrite (value_Ok (take n rest, n)), ret_bind.
  assert (∀ matched (buffer : list Z), length buffer = COMMAND_PATH_CAPACITY →
    (r ← (if decide (length pre + length rest ≤ length pre + n)
          then Ret (inr (inr (if matched : bool then SomeMatches else NoMatches)))
          else Ret (inl (length pre + n + 1, matched, buffer)));
     match r with
     | inl s => again s
     | inr x => Ret x end) ≈
    (r ← visit visitor (map (λ e, e ++ SLASH :: command)
           (filter (λ e, starts_with SLASH e = true) (List.tl (split_on COLON rest)))) matched; Ret (inr r))) as Hnext.
  { intros matched' buffer' Hb'. destruct Hcase as [[-> Hs]|(Hlt & Hr & Hud & Hs)]; rewrite Hs.
    - rewrite decide_True by lia. cbn [List.tl filter list_filter map visit]. rewrite !ret_bind. reflexivity.
    - rewrite decide_False by lia. rewrite ret_bind. cbn [List.tl].
      assert (length pre + n + 1 = length (pre ++ take n rest ++ [COLON])) as ->
        by (rewrite !length_app, length_take; cbn; lia).
      unfold again. apply (IH (length (drop (S n) rest))); [rewrite length_drop; lia|done| |done|done].
      rewrite <-!app_assoc. cbn [app]. by rewrite <-Hr. }
  assert (path_candidates command rest =
    (if starts_with SLASH (take n rest) then [take n rest ++ SLASH :: command] else []) ++
    map (λ e, e ++ SLASH :: command)
      (filter (λ e, starts_with SLASH e = true) (List.tl (split_on COLON rest)))) as ->.
  { unfold path_candidates. destruct Hcase as [[-> ->]|(_ & _ & _ & ->)]; apply candidates_cons. }
  cbv zeta. destruct (starts_with SLASH (take n rest)) eqn:Hst.
  - rewrite bool_decide_eq_false_2 by (intros E; by rewrite E in Hst). cbn [negb andb].
    destruct (build_path_candidate_spec (take n rest) command buffer Hun Hc) as (buffer' & Hbuild & Hb').
    { rewrite Hb. unfold COMMAND_PATH_CAPACITY, PATH_BUFFER_CAPACITY in *. rewrite length_take. lia. }
    rewrite Hbuild, result_Ok, ret_bind. cbn [app visit]. rewrite !bind_assoc_eutt.
    apply bind_cong_r. intros [| |v]; [apply (Hnext matched buffer'); congruence|apply (Hnext true buffer'); congruence|].
    rewrite !ret_bind. reflexivity.
  - rewrite andb_false_r. cbn [app]. by apply Hnext.
Qed.

Lemma path_search_spec {T} (visitor : list Z → program (PathSearchStep T)) command :
  utf8_valid command = true → length command ≤ LINE_CAPACITY →
  with_path_candidates command visitor ≈
  (path ← load_path; r ← visit visitor (candidates_of command path) false; Ret (inr r)).
Proof.
  intros Hc Hl. unfold with_path_candidates, load_path. rewrite !bind_assoc_eutt. apply bind_cong_r.
  intros [e|bytes]; [rewrite !ret_bind; cbn [candidates_of visit]; by rewrite ret_bind|].
  rewrite !bind_assoc_eutt. unfold answered. case_decide as Hb.
  - rewrite !ret_bind. unfold from_utf8. destruct (utf8_valid bytes) eqn:Hu.
    + by apply (next_candidates visitor command bytes Hc Hl Hb bytes [] false).
    + cbn [candidates_of visit]. by rewrite ret_bind.
  - unfold panic. by rewrite !exit_bind.
Qed.

(** ** Commands and words *)

Lemma run_path_command_spec command arguments mode :
  utf8_valid command = true → length command ≤ LINE_CAPACITY →
  run_path_command command arguments mode ≈
  (path ← load_path; try_candidates command arguments mode (candidates_of command path)).
Proof.
  intros Hc Hl. unfold run_path_command. rewrite (path_search_spec _ command Hc Hl).
  rewrite !bind_assoc_eutt. apply bind_cong_r. intros path. rewrite bind_assoc_eutt.
  setoid_rewrite ret_bind. generalize (candidates_of command path) as cs. clear path.
  induction cs as [|c cs IH]; cbn [visit try_candidates]; [by rewrite ret_bind|].
  rewrite !bind_assoc_eutt. apply bind_cong_r.
  unfold print_invalid_path, print_resource_unavailable.
  intros [[| | |]|status]; cbn [spawn_status]; rewrite ?bind_assoc_eutt, ?ret_bind; [|apply IH|..].
  1-3: unfold fails_with, fails, print_invalid_path; apply bind_cong_r; intros u; rewrite !ret_bind; reflexivity.
  - transitivity (report_command_status status mode ≫= λ s, Ret s); [|apply bind_ret].
    apply bind_cong_r. intros s. rewrite !ret_bind. reflexivity.
Qed.

Lemma print_path_matches_spec command :
  utf8_valid command = true → length command ≤ LINE_CAPACITY →
  print_path_matches command ≈
  (path ← load_path; spec_where command (candidates_of command path) false).
Proof.
  intros Hc Hl. unfold print_path_matches. rewrite (path_search_spec _ command Hc Hl).
  rewrite !bind_assoc_eutt. apply bind_cong_r. intros path. rewrite bind_assoc_eutt.
  setoid_rewrite ret_bind. generalize (candidates_of command path) as cs. clear path.
  generalize false as matched. intros matched cs. revert matched.
  induction cs as [|c cs IH]; intros matched; cbn [visit spec_where].
  { rewrite ret_bind. by destruct matched. }
  rewrite !bind_assoc_eutt. apply bind_cong_r.
  unfold print_invalid_path, print_resource_unavailable.
  intros [[|]|[|]]; rewrite ?bind_assoc_eutt, ?ret_bind.
  1-2: unfold fails; apply bind_cong_r; intros u; rewrite !ret_bind; reflexivity.
  - apply bind_cong_r. intros u. rewrite ret_bind. apply IH.
  - apply IH.
Qed.

Lemma run_command_spec p w args mode :
  rep p (w :: args) None →
  run_command (read_word w) p mode ≈ spec_run (read_word w) (map read_word args) mode.
Proof.
  intros Hrep. unfold run_command. rewrite (collect_arguments_spec _ _ _ Hrep), value_Ok, ret_bind.
  assert (starts_with SLASH (read_word w) || contains SLASH (read_word w) = contains SLASH (read_word w)) as ->.
  { destruct (starts_with SLASH (read_word w)) eqn:Hs; [|done]. apply starts_with_app in Hs as [l ->].
    symmetry. apply contains_In. by left. }
  unfold spec_run. destruct (contains SLASH (read_word w)).
  - unfold run_command_at_path. apply bind_cong_r. by intros [[]|].
  - apply run_path_command_spec; [apply read_word_utf8|].
    pose proof (read_word_length w). pose proof (word_length p (w :: args) w Hrep ltac:(by left)). lia.
Qed.

Lemma run_set_spec p c args :
  rep p (c :: args) None → run_set p ≈
  match args with
  | key :: (_ :: _) as vs =>
      let v := join_with SPACE (map read_word vs) in
      if decide (length v ≤ LINE_CAPACITY) then report_set (read_word key) v
      else fails (ascii "lash: unable to set environment: value too long")
  | _ => fails (ascii "lash: usage: set KEY VALUE...")
  end.
Proof.
  intros Hrep. unfold run_set. rewrite (rep_count _ _ _ Hrep). cbn [length].
  destruct args as [|k [|v vs]]; [by rewrite decide_True by (cbn; lia)..|].
  rewrite decide_False by (cbn; lia).
  rewrite (token_or_read p _ 1 k Hrep eq_refl), value_Ok, ret_bind.
  rewrite (join_value_spec p c k (v :: vs) Hrep) by done. rewrite value_Ok, ret_bind. cbv zeta.
  by case_decide.
Qed.

Lemma run_env_spec p c args :
  rep p (c :: args) None → run_env p ≈
  match args with
  | [] =>
      r ← call (ListEnv ENV_LIST_BUFFER_CAPACITY);
      match r with
      | inr [] => Ret 0%Z
      | inr bytes => bytes ← answered ENV_LIST_BUFFER_CAPACITY bytes; _ ← stdout_write bytes; Ret 0%Z
      | inl ListBufferTooSmall => fails (ascii "lash: unable to list environment: buffer too small")
      | inl ListResourceUnavailable =>
          fails (ascii "lash: unable to list environment: resource unavailable")
      end
  | _ => fails (ascii "lash: usage: env")
  end.
Proof.
  intros Hrep. unfold run_env. rewrite (rep_count _ _ _ Hrep). destruct args as [|a args]; [|done].
  cbn [length]. rewrite bool_decide_eq_true_2 by done. cbn [negb].
  apply bind_cong_r. intros [[|]|[|b bytes]]; [done|done| |].
  - rewrite decide_False by (cbn; lia). by rewrite ret_bind.
  - rewrite decide_True by (cbn; lia). by rewrite bind_assoc_eutt.
Qed.

Lemma where_name_spec sh name :
  utf8_valid name = true → length name ≤ LINE_CAPACITY → where_name sh name ≈ spec_where_name sh name.
Proof.
  intros Hu Hl. unfold spec_where_name. destruct (contains SLASH name) eqn:Hs; [done|].
  unfold where_name. rewrite Hs. destruct (starts_with SLASH name) eqn:Hst.
  { apply starts_with_app in Hst as [l ->]. apply contains_false in Hs. destruct Hs. by left. }
  rewrite (print_path_matches_spec name Hu Hl). by rewrite bind_assoc_eutt.
Qed.

Lemma dispatch_command_spec sh p w args mode :
  rep p (w :: args) None → dispatch_command sh p mode ≈ spec_words sh (w :: args) mode.
Proof.
  intros Hrep. unfold dispatch_command. rewrite (token_or_read p _ 0 w Hrep eq_refl), value_Ok, ret_bind.
  cbn [spec_words]. cbv zeta. case_decide.
  { apply bind_cong; [|done]. unfold run_cd, change_directory. rewrite (rep_count _ _ _ Hrep).
    destruct args as [|a args]; cbn [length].
    - rewrite decide_False by lia. by rewrite ret_bind.
    - rewrite decide_True by lia.
      rewrite (token_or_word p _ 1 a [SLASH] Hrep eq_refl), value_Ok, ret_bind. done. }
  case_decide; [apply bind_cong; [by apply (run_env_spec p w)|done]|].
  case_decide; [apply bind_cong; [by apply (run_set_spec p w)|done]|].
  case_decide.
  { apply bind_cong; [|done]. unfold run_unset. rewrite (rep_count _ _ _ Hrep).
    destruct args as [|a [|]]; [done| |done]. cbn [length]. rewrite bool_decide_eq_true_2 by done. cbn [negb].
    by rewrite (token_or_read p _ 1 a Hrep eq_refl), value_Ok, ret_bind. }
  case_decide.
  { unfold run_where. rewrite (rep_count _ _ _ Hrep).
    destruct args as [|a [|]]; [done| |done]. cbn [length]. rewrite bool_decide_eq_true_2 by done. cbn [negb].
    rewrite (token_or_read p _ 1 a Hrep eq_refl), value_Ok, ret_bind.
    apply where_name_spec; [apply read_word_utf8|]. pose proof (read_word_length a).
    pose proof (word_length p (w :: [a]) a Hrep ltac:(right; by left)). lia. }
  case_decide; [done|].
  destruct (decide (read_word w = [])) as [He|He].
  - rewrite bool_decide_eq_true_2 by done. cbn [negb]. rewrite bind_assoc_eutt.
    apply bind_cong_r. intros u. by rewrite ret_bind.
  - rewrite bool_decide_eq_false_2 by done. cbn [negb]. apply bind_cong; [by apply run_command_spec|done].
Qed.

Lemma execute_segment_spec sh text mode : execute_segment sh text mode ≈ run_text sh text mode.
Proof.
  unfold execute_segment, run_text. pose proof (parse_spec text) as H.
  destruct (tok Unquoted [] None text) as [ws|e| |]; [|rewrite H; cbn [result]; by rewrite ret_bind|done..].
  destruct H as (p & -> & Hrep). rewrite result_Ok, ret_bind, (rep_count _ _ _ Hrep).
  destruct ws as [|w args]; [done|]. cbn [length]. rewrite decide_False by lia.
  by apply dispatch_command_spec.
Qed.

(** ** Chains *)

Definition ends_last (segs : list (list Z * option SegmentOperator)) : Prop :=
  ∀ i t op, segs !! i = Some (t, op) → S i < length segs → is_Some op.

Lemma split_ends_last text segs :
  Segment.split 0 Unquoted [] text = Ok segs → ends_last segs.
Proof.
  intros Hs. destruct (split_sound 0 Unquoted [] text _ eq_refl Hs) as [(_ & -> & _)|(raws & (_ & _ & Hi) & ->)];
    [by intros i t op|].
  destruct Hi as (init & r & -> & Hi). intros i t op Ht Hl. unfold trimmed in *.
  rewrite map_app, length_app, length_map in Hl. cbn in Hl.
  rewrite map_app, lookup_app_l in Ht by (rewrite length_map; lia).
  apply list_lookup_fmap_Some in Ht as ([r' op'] & Heq & Ht). injection Heq as _ ->.
  exact (Forall_lookup_1 _ _ _ _ Hi Ht).
Qed.

Lemma next_segments text mode segs s :
  scan_rep text s segs → ends_last segs →
  ∀ k index last_status sh, k = length segs - index → index ≤ length segs →
  ITree.iter (next_segment text mode s) (index, last_status, sh) ≈
  run_chain sh (drop index segs) mode
    (match index with O => true | S i => match segs !! i with Some (_, op) => goes_on op last_status | None => true end end)
    last_status.
Proof.
  intros Hrep Hlast k. induction k as [|k IH]; intros index last_status sh Hk Hi.
  - rewrite iter_round. set (again := ITree.iter _). unfold next_segment.
    rewrite (scan_count _ _ _ Hrep), decide_False by lia.
    rewrite ret_bind. by rewrite drop_ge by lia.
  - rewrite iter_round. set (again := ITree.iter (next_segment text mode s)).
    unfold next_segment. rewrite (scan_count _ _ _ Hrep), decide_True by lia.
    destruct (lookup_lt_is_Some_2 segs index) as [[t op] Ht]; [lia|].
    destruct (scan_items _ _ _ Hrep _ _ _ Ht) as (a & b & Ha & Hb & Hab & Htext & _).
    assert (should_run s index last_status = Ok match index with
      | O => true
      | S i => match segs !! i with Some (_, op) => goes_on op last_status | None => true end end) as ->.
    { unfold should_run. destruct index as [|i]; [done|]. rewrite decide_False by lia.
      destruct (lookup_lt_is_Some_2 segs i) as [[t' op'] Ht']; [lia|]. rewrite Ht'.
      destruct (scan_items _ _ _ Hrep _ _ _ Ht') as (_ & _ & _ & _ & _ & _ & Hop).
      destruct (Hlast i t' op' Ht') as [o ->]; [lia|].
      unfold operator_before. rewrite (scan_count _ _ _ Hrep), decide_False by lia.
      cbn [Nat.sub]. rewrite Nat.sub_0_r, (get_at_Ok _ _ _ (Hop o eq_refl)). by destruct o. }
    rewrite value_Ok, ret_bind. rewrite (drop_S _ _ _ Ht). cbn [run_chain].
    assert (∀ last_status sh, again (index + 1, last_status, sh) ≈
      run_chain sh (drop (S index) segs) mode (goes_on op last_status) last_status) as Hagain.
    { intros ls sh'. unfold again. rewrite Nat.add_1_r, IH by lia. by rewrite Ht. }
    match goal with |- context [if ?c then _ else _] => destruct c end.
    + unfold segment. rewrite (scan_count _ _ _ Hrep), decide_False by lia.
      rewrite (get_at_Ok _ _ _ Ha), (get_at_Ok _ _ _ Hb). cbn [mbind outcome_bind].
      rewrite slice_Ok by lia. cbn [mbind outcome_bind unwrap]. rewrite <-Htext.
      rewrite value_Ok, ret_bind, bind_assoc_eutt. apply bind_cong; [apply execute_segment_spec|].
      intros [ls sh']. rewrite ret_bind. apply Hagain.
    + rewrite !ret_bind. apply Hagain.
Qed.

Lemma execute_line_spec sh text mode : execute_line sh text mode ≈ spec_line sh text mode.
Proof.
  unfold execute_line, spec_line. pose proof (scan_spec text) as H.
  destruct (Segment.split 0 Unquoted [] text) as [segs|e| |] eqn:Hs;
    [|rewrite H; cbn [result]; by rewrite ret_bind|done..].
  destruct H as (s & -> & Hrep & Hlen). rewrite result_Ok, ret_bind, (scan_count _ _ _ Hrep).
  case_decide as Hz; [by apply length_zero_iff_nil in Hz as ->|].
  by apply (next_segments text mode segs s Hrep (split_ends_last _ _ Hs) (length segs) 0); [lia|lia].
Qed.

(** ** Typing *)

#[export] Instance typing_proper R : Proper (eutt eq ==> eq ==> eutt eq) (@typing R).
Proof. intros t u Ht i j <-. unfold typing. by apply eutt_interp_state_eq. Qed.

Lemma typing_bind {A B} (t : program A) (k : A → program B) input :
  typing (t ≫= k) input ≈ ('(input, a) ← typing t input; typing (k a) input).
Proof.
  unfold typing, mbind, itree_mbind. rewrite interp_state_bind.
  apply eqit_bind; [reflexivity|]. by intros [i a].
Qed.

Lemma typing_ret {A} (a : A) input : typing (Ret a) input ≈ Ret (input, a).
Proof. unfold typing. by rewrite interp_state_ret. Qed.

Lemma typing_event {A} (e : lazerE A) input : typing (call e) input ≈ feed A e input.
Proof. apply interp_state_trigger. Qed.

Lemma typing_call {A B} (e : lazerE A) (k : A → program B) input :
  feed A e input ≈ (a ← call e; Ret (input, a)) →
  typing (a ← call e; k a) input ≈ (a ← call e; typing (k a) input).
Proof.
  intros He. rewrite typing_bind, typing_event, He, bind_assoc_eutt.
  apply bind_cong_r. intros a. by rewrite ret_bind.
Qed.

Lemma typing_yield {B} (k : program B) input :
  typing (_ ← call Yield; k) input ≈ (_ ← call Yield; typing k input).
Proof. by apply (typing_call Yield (λ _, k)). Qed.

Lemma typing_write {B} bytes (k : program B) input :
  typing (_ ← stdout_write bytes; k) input ≈ (_ ← stdout_write bytes; typing k input).
Proof.
  unfold stdout_write. rewrite bind_assoc_eutt, (typing_call (Write 1 bytes)) by done.
  rewrite bind_assoc_eutt. apply bind_cong_r. intros a. by rewrite !ret_bind.
Qed.

Lemma typing_echoed {B} l b (k : program B) input :
  typing (_ ← echoed l b; k) input ≈ (_ ← echoed l b; typing k input).
Proof.
  unfold echoed. repeat case_match; try (by rewrite !ret_bind); apply typing_write.
Qed.

(** One key that is not Enter. *)
Lemma handle_key sh l b :
  typed sh l → b ≠ NEWLINE → ∃ sh',
    handle_byte (with_byte b sh) ≈ (_ ← echoed l b; Ret sh') ∧ typed sh' (edited l b) ∧ cwd sh' = cwd sh.
Proof.
  intros (Hs & Hl & Ht & Hf) Hb. unfold handle_byte, echoed, edited. cbn [byte with_byte].
  destruct (Z.eqb_spec b NEWLINE) as [|_]; [done|]. destruct (Z.eqb_spec b 127) as [->|_].
  - unfold backspace. cbn [len line with_byte]. destruct (decide (l = [])) as [->|Hne].
    + rewrite decide_True by done. exists (with_byte 127 sh). by rewrite ret_bind.
    + destruct l as [|x l _] using rev_ind; [done|]. rewrite length_app in Hl, Hf. cbn in Hl, Hf.
      rewrite decide_False by lia. eexists. split; [done|]. rewrite removelast_last. split; [|done].
      unfold typed. cbn [len line with_line]. split_and!; [done|lia| |lia].
      replace (len sh - 1) with (length l) by lia.
      transitivity (take (length l) (take (len sh) (line sh))); [by rewrite take_take, Nat.min_l by lia|].
      rewrite Ht. apply take_app_length.
  - destruct (in_range 32 126 b); cbn [andb]; [|exists (with_byte b sh); by rewrite ret_bind].
    unfold append_printable. cbn [len line with_byte]. destruct (decide (LINE_CAPACITY ≤ len sh)).
    + rewrite bool_decide_eq_false_2 by lia. exists (with_byte b sh). by rewrite ret_bind.
    + rewrite bool_decide_eq_true_2 by lia. rewrite set_at_Ok by lia. eexists.
      split; [rewrite value_Ok, ret_bind; done|]. split; [|done].
      unfold typed. cbn [len line with_line]. rewrite length_insert, length_app. cbn.
      split_and!; [done|lia| |lia]. rewrite Nat.add_1_r, take_insert_S by lia. by rewrite Ht.
Qed.

Lemma typing_step sh b input :
  typing (ITree.iter interactive_step sh) (b :: input) ≈
  typing (sh ← handle_byte (with_byte b sh); _ ← call Yield; ITree.iter interactive_step sh) input.
Proof.
  rewrite iter_round. set (again := ITree.iter interactive_step). unfold interactive_step, stdin_read.
  rewrite bind_assoc_eutt, typing_bind, typing_event. cbn [feed].
  cbn [Z.eqb drop take skipn firstn]. rewrite ret_bind, !bind_assoc_eutt.
  rewrite !typing_bind. apply bind_cong_r. intros [i sh']. rewrite !bind_assoc_eutt, !typing_bind.
  apply bind_cong_r. intros [i' u]. by rewrite ret_bind.
Qed.

Lemma typing_keys keys : ∀ sh l rest,
  typed sh l → NEWLINE ∉ keys → ∃ sh', typed sh' (foldl edited l keys) ∧ cwd sh' = cwd sh ∧
    typing (ITree.iter interactive_step sh) (keys ++ rest) ≈
    (_ ← echoes l keys; typing (ITree.iter interactive_step sh') rest).
Proof.
  induction keys as [|b keys IH]; intros sh l rest Hsh Hk.
  { exists sh. split_and!; [done|done|]. cbn [echoes app]. by rewrite ret_bind. }
  apply not_elem_of_cons in Hk as [Hb Hk].
  destruct (handle_key sh l b Hsh) as (sh1 & He & Hsh1 & Hc1); [done|].
  destruct (IH sh1 (edited l b) rest Hsh1 Hk) as (sh' & Hsh' & Hc' & Hrun).
  exists sh'. cbn [foldl app echoes]. split_and!; [done|congruence|].
  rewrite typing_step, He, bind_assoc_eutt, typing_echoed, bind_assoc_eutt.
  apply bind_cong_r. intros u. rewrite ret_bind, typing_yield, bind_assoc_eutt. by apply bind_cong_r.
Qed.

(** * Properties *)

(** C8. A line is run as the chain it is.  Whatever the line holds and
    whatever the system answers, [execute_line] makes exactly the calls of the
    specification: the line is cut at its operators, each segment is read as
    a list of words, a segment after [&&] runs when the last status was zero,
    one after [||] when it was not, one after [;] always, and a command that
    names no file is searched in the absolute directories of PATH in order,
    the first file that is there deciding.  No token array, buffer or slice
    of the shell is ever exceeded. *)
Theorem execute_line_refines sh text mode : execute_line sh text mode ≈ spec_line sh text mode.
Proof. apply execute_line_spec. Qed.

(** C31. What is typed is what runs.  From a prompt with the line [l] typed so
    far, keys without Enter edit the line, each sending the terminal its echo;
    Enter then runs the edited line as the chain it is, after which the shell
    prompts again with an empty line and goes on with the rest of the input.
    The line never holds more than its 256 bytes. *)
Theorem typed_line_runs sh l keys rest :
  typed sh l → NEWLINE ∉ keys →
  length (foldl edited l keys) ≤ LINE_CAPACITY ∧ ∃ sh', cwd sh' = cwd sh ∧
  typing (ITree.iter interactive_step sh) (keys ++ NEWLINE :: rest) ≈
  (_ ← echoes l keys;
   typing (_ ← println [];
           '(_, sh1) ← spec_line sh' (foldl edited l keys) Interactive;
           sh2 ← print_prompt (with_line (line sh1) 0 sh1);
           _ ← call Yield;
           ITree.iter interactive_step sh2) rest).
Proof.
  intros Hsh Hk. destruct (typing_keys keys sh l (NEWLINE :: rest) Hsh Hk) as (sh1 & Hsh1 & Hc & Hrun).
  destruct Hsh1 as (Hs & Hl & Ht & Hf). split; [done|]. exists (with_byte NEWLINE sh1). split; [done|].
  rewrite Hrun. apply bind_cong_r. intros u. rewrite typing_step.
  apply typing_proper; [|done]. unfold handle_byte. cbn [byte with_byte]. rewrite Z.eqb_refl.
  unfold submit_line. cbn [len line with_byte]. rewrite !bind_assoc_eutt. apply bind_cong_r. intros v.
  rewrite slice_Ok by lia. rewrite value_Ok, bind_assoc_eutt, ret_bind. rewrite sub_0, Ht.
  rewrite write_at_Ok by (rewrite length_replicate; lia). rewrite value_Ok, bind_assoc_eutt, ret_bind.
  rewrite slice_Ok by (rewrite ?length_splice; rewrite ?length_replicate; lia).
  rewrite value_Ok, bind_assoc_eutt, ret_bind. rewrite sub_0, Hl, take_splice_0 by (rewrite length_replicate; lia).
  rewrite execute_line_spec, bind_assoc_eutt. apply bind_cong_r. by intros [status sh2].
Qed.

Lemma typed_line_runs_witness :
  length (foldl edited [] (ascii "lss" ++ [127%Z])) ≤ LINE_CAPACITY ∧
  foldl edited [] (ascii "lss" ++ [127%Z]) = ascii "ls".
Proof.
  split; [|reflexivity].
  apply (typed_line_runs Shell_new [] (ascii "lss" ++ [127%Z]) []).
  - split_and!; [reflexivity|reflexivity|reflexivity|unfold LINE_CAPACITY; cbn; lia].
  - intros Hin. apply list_elem_of_In in Hin. vm_compute in Hin. intuition discriminate.
Defined.
