(* ===== verification/Selftest.v ===== *)
(** * The self-test program ([user/selftest/src/main.rs])

    The program with its twenty-two tests as an interaction tree, and a system
    to run it on: a process of the kernel that is served by the functions of
    the kernel, children that run to their end before their parent goes on
    ([Sched.child_status_reaches_parent]) and the other user programs of this
    library behind their paths.  The files are arbitrary but for what the
    program needs of the system image. *)

From ITree Require Import ITree.
From S2P Require Import Prelude Bytes Errors Paths Env Queues Terminal Allocator Fat32 RootFs Process Paging KernelSpace Loader UserProgram.
From S2P Require Import Sched Services Syscall Lazer Userland LashParse LashPath Lash.

Local Open Scope Z_scope.

(** ** Results with a message *)

Abbreviation checked A := (program (list Z + A)).

Definition Fine {A} (a : A) : checked A := Ret (inr a).
Definition Wrong {A} (message : string) : checked A := Ret (inl (ascii message)).

(** The operator [?]. *)
Definition and_then {A B} (m : checked A) (k : A → checked B) : checked B :=
  r ← m; match r with inr a => k a | inl e => Ret (inl e) end.
Notation "x ?← m ; k" := (and_then m (λ x, k)) (at level 200, m at level 100, k at level 200, right associativity).

(** ** Constants *)

Definition CWD_BUFFER_SIZE : nat := 256.
Definition ENV_BUFFER_SIZE : nat := 128.
Definition ENV_LIST_BUFFER_SIZE : nat := 512.
Definition SELFTEST_ENV_KEY : list Z := ascii "SELFTEST_KEY".
Definition SYSTEM_BIN_DIR : list Z := ascii "/system/bin".
Definition LASH_PATH : list Z := ascii "/system/bin/lash".
Definition DEFAULT_PATH : list Z := ascii "/system/bin:/bin".

(** ** Helpers *)

Definition change_dir (path : list Z) : checked () :=
  r ← call (Chdir path);
  match r with
  | inr _ => Fine tt
  | inl ChdirInvalidPath => Wrong "invalid path"
  | inl ChdirNotFound => Wrong "directory not found"
  | inl ChdirResourceUnavailable => Wrong "unable to update cwd"
  end.

Definition ensure_root : checked () := change_dir (ascii "/").

Definition assert_cwd (expected : list Z) : checked () :=
  r ← call (GetCwd CWD_BUFFER_SIZE);
  match r with
  | inl CwdBufferTooSmall => Wrong "cwd buffer too small"
  | inl CwdResourceUnavailable => Wrong "unable to read cwd"
  | inr bytes =>
      bytes ← answered CWD_BUFFER_SIZE bytes;
      match from_utf8 bytes with
      | None => Wrong "cwd was not valid utf-8"
      | Some cwd => if decide (cwd = expected) then Fine tt else Wrong "cwd did not match expected value"
      end
  end.

Definition spawn_silent (path : list Z) (args : list (list Z)) : checked Z :=
  r ← call (SpawnWaitSilent path args);
  match r with
  | inr status => Fine status
  | inl LzInvalidPath => Wrong "spawn reported invalid path"
  | inl LzFileNotFound => Wrong "spawn reported file not found"
  | inl LzInvalidExecutable => Wrong "spawn reported invalid executable"
  | inl LzResourceUnavailable => Wrong "spawn reported resource unavailable"
  end.

Definition set_env (key value : list Z) : checked () :=
  r ← call (SetEnv key value);
  match r with
  | inr _ => Fine tt
  | inl SetInvalidKey => Wrong "set_env reported invalid key"
  | inl SetKeyTooLong => Wrong "set_env reported key too long"
  | inl SetValueTooLong => Wrong "set_env reported value too long"
  | inl SetCapacityExceeded => Wrong "set_env reported capacity exceeded"
  | inl SetResourceUnavailable => Wrong "set_env reported resource unavailable"
  end.

Definition restore_default_path : checked () := set_env (ascii "PATH") DEFAULT_PATH.

Definition unset_env (key : list Z) : checked () :=
  r ← call (UnsetEnv key);
  match r with
  | inr _ => Fine tt
  | inl UnsetInvalidKey => Wrong "unset_env reported invalid key"
  | inl UnsetNotFound => Wrong "unset_env reported missing variable"
  | inl UnsetResourceUnavailable => Wrong "unset_env reported resource unavailable"
  end.

Definition clear_env (key : list Z) : program () := _ ← call (UnsetEnv key); Ret tt.

(** [str::contains] of a string. *)
Fixpoint str_contains (text needle : list Z) : bool :=
  bool_decide (take (length needle) text = needle) ||
  match text with [] => false | _ :: text => str_contains text needle end.

Definition env_listing_contains (needle : list Z) : checked bool :=
  r ← call (ListEnv ENV_LIST_BUFFER_SIZE);
  match r with
  | inl ListBufferTooSmall => Wrong "list_env buffer too small"
  | inl ListResourceUnavailable => Wrong "list_env reported resource unavailable"
  | inr bytes =>
      bytes ← answered ENV_LIST_BUFFER_SIZE bytes;
      match from_utf8 bytes with
      | None => Wrong "env listing was not valid utf-8"
      | Some text => Fine (str_contains text needle)
      end
  end.

Definition assert_env (key expected : list Z) : checked () :=
  r ← call (GetEnv key ENV_BUFFER_SIZE);
  match r with
  | inl GetInvalidKey => Wrong "get_env reported invalid key"
  | inl GetNotFound => Wrong "expected variable was missing"
  | inl GetBufferTooSmall => Wrong "get_env buffer too small"
  | inl GetResourceUnavailable => Wrong "get_env reported resource unavailable"
  | inr bytes =>
      bytes ← answered ENV_BUFFER_SIZE bytes;
      match from_utf8 bytes with
      | None => Wrong "env value was not valid utf-8"
      | Some value => if decide (value = expected) then Fine tt else Wrong "env value did not match expected value"
      end
  end.

(** ** The tests *)

Definition test_cwd_initial_root : checked () := assert_cwd (ascii "/").

Definition test_cwd_chdir_system_bin : checked () :=
  _ ?← change_dir SYSTEM_BIN_DIR; assert_cwd SYSTEM_BIN_DIR.

Definition test_cwd_chdir_parent : checked () :=
  _ ?← change_dir SYSTEM_BIN_DIR; _ ?← change_dir (ascii ".."); assert_cwd (ascii "/system").

(** [if status == 0] and [if status != 0] *)
Definition must_succeed (status : Z) (message : string) : checked () := if status =? 0 then Fine tt else Wrong message.
Definition must_fail (status : Z) (message : string) : checked () := if negb (status =? 0) then Fine tt else Wrong message.

Definition test_spawn_echo_zero : checked () :=
  status ?← spawn_silent (ascii "/system/bin/echo") [ascii "selftest"];
  must_succeed status "echo returned nonzero status".

Definition test_spawn_ls_zero : checked () :=
  status ?← spawn_silent (ascii "/system/bin/ls") []; must_succeed status "ls returned nonzero status".

Definition test_spawn_cat_missing_fails : checked () :=
  status ?← spawn_silent (ascii "/system/bin/cat") [ascii "/no-such-file"];
  must_fail status "cat unexpectedly succeeded for missing file".

Definition test_spawn_invalid_path_fails : checked () :=
  r ← call (SpawnWait (ascii "/system/bin/nope") []);
  match r with
  | inl LzFileNotFound => Fine tt
  | inl LzInvalidPath => Wrong "missing executable reported invalid path"
  | inl LzInvalidExecutable => Wrong "missing executable reported invalid executable"
  | inl LzResourceUnavailable => Wrong "missing executable reported resource unavailable"
  | inr _ => Wrong "missing executable unexpectedly launched"
  end.

Definition test_spawn_relative_cwd : checked () :=
  _ ?← change_dir SYSTEM_BIN_DIR;
  status ?← spawn_silent (ascii "./echo") [ascii "selftest"];
  must_succeed status "relative ./echo returned nonzero status".

Definition test_env_set_get : checked () :=
  _ ← clear_env SELFTEST_ENV_KEY;
  _ ?← set_env SELFTEST_ENV_KEY (ascii "alpha");
  _ ?← assert_env SELFTEST_ENV_KEY (ascii "alpha");
  _ ← clear_env SELFTEST_ENV_KEY;
  Fine tt.

Definition test_env_update : checked () :=
  _ ← clear_env SELFTEST_ENV_KEY;
  _ ?← set_env SELFTEST_ENV_KEY (ascii "alpha");
  _ ?← set_env SELFTEST_ENV_KEY (ascii "beta");
  _ ?← assert_env SELFTEST_ENV_KEY (ascii "beta");
  _ ← clear_env SELFTEST_ENV_KEY;
  Fine tt.

Definition test_env_unset : checked () :=
  _ ← clear_env SELFTEST_ENV_KEY;
  _ ?← set_env SELFTEST_ENV_KEY (ascii "alpha");
  _ ?← unset_env SELFTEST_ENV_KEY;
  r ← call (GetEnv SELFTEST_ENV_KEY ENV_BUFFER_SIZE);
  match r with
  | inl GetNotFound => Fine tt
  | inr _ => Wrong "unset variable still existed"
  | inl GetInvalidKey => Wrong "unset variable lookup reported invalid key"
  | inl GetBufferTooSmall => Wrong "unset variable lookup reported buffer too small"
  | inl GetResourceUnavailable => Wrong "unset variable lookup reported resource unavailable"
  end.

Definition test_env_not_found : checked () :=
  _ ← clear_env SELFTEST_ENV_KEY;
  r ← call (GetEnv SELFTEST_ENV_KEY ENV_BUFFER_SIZE);
  match r with
  | inl GetNotFound => Fine tt
  | inr _ => Wrong "missing variable unexpectedly existed"
  | inl GetInvalidKey => Wrong "missing variable reported invalid key"
  | inl GetBufferTooSmall => Wrong "missing variable reported buffer too small"
  | inl GetResourceUnavailable => Wrong "missing variable reported resource unavailable"
  end.

Definition test_env_empty_value : checked () :=
  _ ← clear_env SELFTEST_ENV_KEY;
  _ ?← set_env SELFTEST_ENV_KEY [];
  r ← call (GetEnv SELFTEST_ENV_KEY ENV_BUFFER_SIZE);
  match r with
  | inr [] => _ ← clear_env SELFTEST_ENV_KEY; Fine tt
  | inr _ => _ ← clear_env SELFTEST_ENV_KEY; Wrong "empty value did not round-trip as empty"
  | inl GetInvalidKey => _ ← clear_env SELFTEST_ENV_KEY; Wrong "empty value lookup reported invalid key"
  | inl GetNotFound => _ ← clear_env SELFTEST_ENV_KEY; Wrong "empty value variable was missing"
  | inl GetBufferTooSmall => _ ← clear_env SELFTEST_ENV_KEY; Wrong "empty value lookup reported buffer too small"
  | inl GetResourceUnavailable =>
      _ ← clear_env SELFTEST_ENV_KEY; Wrong "empty value lookup reported resource unavailable"
  end.

Definition test_env_invalid_key : checked () :=
  r ← call (SetEnv (ascii "BAD=KEY") (ascii "value"));
  match r with
  | inl SetInvalidKey => Fine tt
  | inr _ => Wrong "invalid env key unexpectedly succeeded"
  | inl SetKeyTooLong => Wrong "invalid env key reported key too long"
  | inl SetValueTooLong => Wrong "invalid env key reported value too long"
  | inl SetCapacityExceeded => Wrong "invalid env key reported capacity exceeded"
  | inl SetResourceUnavailable => Wrong "invalid env key reported resource unavailable"
  end.

Definition test_env_listing : checked () :=
  _ ← clear_env SELFTEST_ENV_KEY;
  _ ?← set_env SELFTEST_ENV_KEY (ascii "alpha");
  contains ?← env_listing_contains (ascii "SELFTEST_KEY=alpha" ++ [NEWLINE]);
  _ ← clear_env SELFTEST_ENV_KEY;
  if (contains : bool) then Fine tt else Wrong "env listing did not include the expected key/value".

Definition test_env_listing_after_unset : checked () :=
  _ ← clear_env SELFTEST_ENV_KEY;
  _ ?← set_env SELFTEST_ENV_KEY (ascii "alpha");
  _ ?← unset_env SELFTEST_ENV_KEY;
  contains ?← env_listing_contains (ascii "SELFTEST_KEY=");
  if negb contains then Fine tt else Wrong "env listing still contained the removed key".

Definition test_path_seeded_default : checked () := assert_env (ascii "PATH") DEFAULT_PATH.

(** What the last five tests do when the shell has run: [PATH] is restored
    before the verdict. *)
Definition verdict (passed : bool) (message : string) : checked () :=
  if passed then _ ?← restore_default_path; Fine tt else _ ?← restore_default_path; Wrong message.

Definition test_path_lookup_via_env : checked () :=
  _ ?← set_env (ascii "PATH") SYSTEM_BIN_DIR;
  status ?← spawn_silent LASH_PATH [ascii "-c"; ascii "echo"];
  verdict (status =? 0) "lash failed to resolve echo through PATH".

Definition test_path_missing_fails : checked () :=
  _ ← clear_env (ascii "PATH");
  status ?← spawn_silent LASH_PATH [ascii "-c"; ascii "echo"];
  verdict (negb (status =? 0)) "lash unexpectedly resolved bare command with PATH unset".

Definition test_path_invalid_entry_ignored : checked () :=
  _ ?← set_env (ascii "PATH") (ascii "bin:/system/bin");
  status ?← spawn_silent LASH_PATH [ascii "-c"; ascii "echo"];
  verdict (status =? 0) "lash did not ignore invalid PATH entry before valid /system/bin".

Definition test_where_lookup_via_path : checked () :=
  _ ?← set_env (ascii "PATH") DEFAULT_PATH;
  status ?← spawn_silent LASH_PATH [ascii "-c"; ascii "where echo"];
  verdict (status =? 0) "where failed to resolve echo through PATH".

Definition test_where_path_missing_fails : checked () :=
  _ ← clear_env (ascii "PATH");
  status ?← spawn_silent LASH_PATH [ascii "-c"; ascii "where echo"];
  verdict (negb (status =? 0)) "where unexpectedly resolved bare command with PATH unset".

(** ** The runner *)

Record TestCase := mkTest { name : list Z; test_run : checked () }.

Definition TESTS : list TestCase :=
  [mkTest (ascii "cwd.initial-root") test_cwd_initial_root;
   mkTest (ascii "cwd.chdir-system-bin") test_cwd_chdir_system_bin;
   mkTest (ascii "cwd.chdir-parent") test_cwd_chdir_parent;
   mkTest (ascii "spawn.echo-zero") test_spawn_echo_zero;
   mkTest (ascii "spawn.ls-zero") test_spawn_ls_zero;
   mkTest (ascii "spawn.cat-missing-fails") test_spawn_cat_missing_fails;
   mkTest (ascii "spawn.invalid-path-fails") test_spawn_invalid_path_fails;
   mkTest (ascii "spawn.relative-cwd") test_spawn_relative_cwd;
   mkTest (ascii "env.set-get") test_env_set_get;
   mkTest (ascii "env.update") test_env_update;
   mkTest (ascii "env.unset") test_env_unset;
   mkTest (ascii "env.not-found") test_env_not_found;
   mkTest (ascii "env.empty-value") test_env_empty_value;
   mkTest (ascii "env.invalid-key") test_env_invalid_key;
   mkTest (ascii "env.listing") test_env_listing;
   mkTest (ascii "env.listing-after-unset") test_env_listing_after_unset;
   mkTest (ascii "path.seeded-default") test_path_seeded_default;
   mkTest (ascii "path.lookup-via-env") test_path_lookup_via_env;
   mkTest (ascii "path.missing-fails") test_path_missing_fails;
   mkTest (ascii "path.invalid-entry-ignored") test_path_invalid_entry_ignored;
   mkTest (ascii "where.lookup-via-path") test_where_lookup_via_path;
   mkTest (ascii "where.path-missing-fails") test_where_path_missing_fails].

Definition is_err {A} (r : list Z + A) : bool := match r with inl _ => true | inr _ => false end.

(** The verdict on one test, and the way back to the root; the counters are
    those of passed and failed tests. *)
Definition close_test (test : TestCase) (counts : nat * nat) (r : list Z + ()) : program (nat * nat) :=
  let '(passed, failed) := counts in
  '(passed, failed) ← match r with
    | inr _ => _ ← print [ascii "PASS "; name test; [NEWLINE]]; Ret (S passed, failed)
    | inl message => _ ← print [ascii "FAIL "; name test; ascii ": "; message; [NEWLINE]]; Ret (passed, S failed)
    end;
  r ← ensure_root;
  if is_err r then
    _ ← print [ascii "FAIL "; name test; ascii ": unable to reset cwd after test" ++ [NEWLINE]];
    Ret (passed, S failed)
  else Ret (passed, failed).

Definition run_test (test : TestCase) (counts : nat * nat) : program (nat * nat) :=
  let '(passed, failed) := counts in
  r ← ensure_root;
  if is_err r then
    _ ← print [ascii "FAIL "; name test; ascii ": unable to reset cwd before test" ++ [NEWLINE]];
    Ret (passed, S failed)
  else r ← test_run test; close_test test counts r.

Fixpoint run_tests (tests : list TestCase) (counts : nat * nat) : program (nat * nat) :=
  match tests with
  | [] => Ret counts
  | test :: tests => counts ← run_test test counts; run_tests tests counts
  end.

Definition count (n : nat) : list Z := decimal (Z.of_nat n).

Definition selftest_main : program void :=
  _ ← print [ascii "selftest: running "; count (length TESTS); ascii " tests" ++ [NEWLINE]];
  '(passed, failed) ← run_tests TESTS (0%nat, 0%nat);
  _ ← println [];
  _ ← print [ascii "selftest: "; count passed; ascii " passed, "; count failed; ascii " failed" ++ [NEWLINE]];
  if decide (failed = 0%nat) then exit 0 else exit 1.

(** ** A system for programs

    The running process is a record of the kernel's process table; a call is
    answered by what the kernel does for that process and by the decoding of
    its status in liblazer. *)

(** What the root filesystem, the loader and the programs in its files do with
    an absolute path; [None] is a path that nothing is known of. *)
Record RootFiles := mkFiles {
  ensured : list Z → option (outcome StorageError ());
  contents : list Z → nat → option (outcome StorageError (list Z));
  listed : list Z → nat → option (outcome StorageError (list Z));
  started : list Z → option (outcome SpawnError (list (list Z) → program void))
}.

(** A value, or the error that the wrapper makes of a status; a status that is
    no error is not met here. *)
Definition as_result {E A R} (decode : Z → outcome E A) (code : Z) : option (E + R) :=
  match decode code with Err e => Some (inl e) | _ => None end.

Definition answer {F E A R S} (decode : Z → outcome E A) (code : F → Z) (m : outcome F S) (k : S → R)
    : option (E + R) :=
  match m with Ok x => Some (inr (k x)) | Err e => as_result decode (code e) | Panic | Hang => None end.

Section World.
Context (files : RootFiles).

Definition get_env_answer (p : Process) (key : list Z) (capacity : nat) : option (GetEnvError + list Z) :=
  answer get_env_result get_env_code
    (value ← map_err map_environment_error (Process.get_env p key);
     match value with
     | None => Err AccessNotFound
     | Some value => if decide (capacity < length value)%nat then Err AccessBufferTooSmall else Ok value
     end) id.

(** The answer, and the process with its new environment. *)
Definition set_env_answer (p : Process) (key value : list Z) : option ((SetEnvError + ()) * Process) :=
  match map_err map_environment_error (Process.set_env key value p) with
  | Ok p => Some (inr tt, p)
  | Err e => r ← as_result set_env_result (set_env_code e); Some (r, p)
  | Panic | Hang => None
  end.

Definition unset_env_answer (p : Process) (key : list Z) : option ((UnsetEnvError + ()) * Process) :=
  match map_err map_environment_error (remove_env key p) with
  | Ok (existed, p) =>
      if (existed : bool) then Some (inr tt, p)
      else r ← as_result unset_env_result (unset_env_code AccessNotFound); Some (r, p)
  | Err e => r ← as_result unset_env_result (unset_env_code e); Some (r, p)
  | Panic | Hang => None
  end.

Definition list_env_answer (p : Process) (capacity : nat) : option (ListEnvError + list Z) :=
  answer list_env_result list_env_code (map_err map_environment_error (list_env_into p (replicate capacity 0)))
    (λ '(n, buffer), take n buffer).

Definition getcwd_answer (p : Process) (capacity : nat) : option (GetCwdError + list Z) :=
  match copy_cwd_into (E:=()) p (replicate capacity 0) with
  | Ok (Some (n, buffer)) => Some (inr (take n buffer))
  | Ok None => as_result getcwd_result GetCwdCode.BUFFER_TOO_SMALL
  | _ => None
  end.

(** The absolute path that a call of this process means. *)
Definition absolute (p : Process) (path : list Z) : Fat32.res (list Z) := c ← Process.cwd p; resolve c path.

Definition chdir_answer (p : Process) (path : list Z) : option ((ChdirError + ()) * Process) :=
  let refused e := r ← as_result chdir_result (chdir_code e); Some (r, p) in
  match absolute p path with
  | Ok path =>
      e ← ensured files path;
      match e with
      | Ok _ =>
          match Process.set_cwd (E:=()) path p with
          | Ok (Some p) => Some (inr tt, p)
          | Ok None => refused Errors.InvalidPath
          | _ => None
          end
      | Err e => refused e
      | Panic | Hang => None
      end
  | Err e => refused e
  | Panic | Hang => None
  end.

Definition read_file_answer (p : Process) (path : list Z) (capacity : nat) : option (ReadFileError + list Z) :=
  match absolute p path with
  | Ok path => m ← contents files path capacity; answer read_file_result read_file_code m id
  | Err e => as_result read_file_result (read_file_code e)
  | Panic | Hang => None
  end.

Definition read_dir_answer (p : Process) (path : list Z) (capacity : nat) : option (ReadDirError + list Z) :=
  match absolute p path with
  | Ok path => m ← listed files path capacity; answer read_dir_result read_dir_code m id
  | Err e => as_result read_dir_result (read_dir_code e)
  | Panic | Hang => None
  end.

(** The record of a child, as [spawn_child_process] makes it; the address
    space and the pages are the loader's. *)
Definition child_record (silent : bool) (p : Process) : option Process :=
  let child := Process_new 2 "user-child" (p_address_space p) OwnedPages_empty Process.Continue in
  child ← (if silent then inherit_stdio_silent_into p child else inherit_stdio_into p child);
  match inherit_cwd_into (E:=()) p child with
  | Ok (Some child) => match inherit_env_into p child with Ok child => Some child | _ => None end
  | _ => None
  end.

(** The child with its program, or the error of the call. *)
Definition spawn_answer (silent : bool) (p : Process) (path : list Z) (args : list (list Z))
    : option (LzSpawnError + program void * Process) :=
  match spawn_payload args with
  | Err e => Some (inl e)
  | Panic | Hang => None
  | Ok _ =>
      match absolute p path with
      | Ok path =>
          m ← started files path;
          match m with
          | Ok main => child ← child_record silent p; Some (inr (main (path :: args), child))
          | Err e => as_result spawn_wait_result (spawn_code e)
          | Panic | Hang => None
          end
      | Err e => as_result spawn_wait_result (spawn_code (map_storage_spawn_error e))
      | Panic | Hang => None
      end
  end.

(** The process and the terminal; the calls that neither start nor end a process. *)
Definition State : Type := Process * TerminalEndpoint.

Definition serve {R} (e : lazerE R) (s : State) : option (R * State) :=
  let '(p, t) := s in
  match e in lazerE R return option (R * State) with
  | ReadFile path capacity => r ← read_file_answer p path capacity; Some (r, s)
  | ReadDir path capacity => r ← read_dir_answer p path capacity; Some (r, s)
  | GetEnv key capacity => r ← get_env_answer p key capacity; Some (r, s)
  | SetEnv key value => '(r, p) ← set_env_answer p key value; Some (r, (p, t))
  | UnsetEnv key => '(r, p) ← unset_env_answer p key; Some (r, (p, t))
  | ListEnv capacity => r ← list_env_answer p capacity; Some (r, s)
  | Chdir path => '(r, p) ← chdir_answer p path; Some (r, (p, t))
  | GetCwd capacity => r ← getcwd_answer p capacity; Some (r, s)
  | Read fd capacity =>
      match Process.read p fd (replicate capacity 0) t with
      | Ok (n, buffer, t) => Some (take n buffer, (p, t))
      | _ => None
      end
  | Write fd bytes =>
      match Process.write p fd bytes t with Ok (n, t) => Some (Z.of_nat n, (p, t)) | _ => None end
  | Yield => Some (tt, s)
  | SpawnWait _ _ | SpawnWaitSilent _ _ | Exit _ => None
  end.

(** A program until it returns ([inl]) or exits with a status ([inr]). *)
Fixpoint run (fuel : nat) {R} (t : program R) (s : State) : option ((R + Z) * State) :=
  match fuel with
  | O => None
  | S fuel =>
      match observe t with
      | RetF x => Some (inl x, s)
      | TauF t => run fuel t s
      | VisF e k =>
          let spawn (silent : bool) (path : list Z) (args : list (list Z)) (k : LzSpawnError + Z → program R) :=
            r ← spawn_answer silent s.1 path args;
            match r with
            | inl e => run fuel (k (inl e)) s
            | inr (main, child) =>
                '(ended, (_, terminal)) ← run fuel main (child, s.2);
                match ended with
                | inl v => match (v : void) with end
                | inr status => run fuel (k (inr status)) (s.1, terminal)
                end
            end in
          match e in lazerE A return lazerE A → (A → program R) → option ((R + Z) * State) with
          | SpawnWait path args => λ _ k, spawn false path args k
          | SpawnWaitSilent path args => λ _ k, spawn true path args k
          | Exit code => λ _ _, Some (inr code, s)
          | _ => λ e k, '(r, s) ← serve e s; run fuel (k r) s
          end e k
      end
  end.

End World.

(** The files of a mounted filesystem, of which everything is known; [programs]
    is what the loader finds in a file. *)
Definition filesystem (read_sector : Z → Fat32.res (list Z)) (fuel : nat) (fs : option Fat32)
    (programs : list Z → list (list Z) → program void) : RootFiles := mkFiles
  (λ path, Some (ensure_root_dir read_sector fuel fs path))
  (λ path n, Some ('(n, bytes) ← read_root_file_into read_sector fuel fs path (replicate n 0); Ok (take n bytes)))
  (λ path n, Some ('(n, bytes) ← read_root_dir read_sector fuel fs path (replicate n 0); Ok (take n bytes)))
  (λ path, Some (map_err map_storage_spawn_error
    (fs ← ok_or fs RootFsUnavailable; _ ← open_absolute read_sector fs fuel path; Ok (programs path)))).

(** More is known of the files. *)
Record knows_more (a b : RootFiles) : Prop := {
  km_ensured : ∀ path r, ensured a path = Some r → ensured b path = Some r;
  km_contents : ∀ path n r, contents a path n = Some r → contents b path n = Some r;
  km_listed : ∀ path n r, listed a path n = Some r → listed b path n = Some r;
  km_started : ∀ path r, started a path = Some r → started b path = Some r
}.

(** ** The system image

    What the tests need of it: the directories on the way to the programs, the
    programs, and that what is missing is missing (the name of the missing file
    has no short form, which [cat] reports as an invalid path). *)

Definition SYSTEM_PROGRAMS : list (list Z * (list (list Z) → program void)) :=
  [(ascii "/system/bin/echo", echo_main); (ascii "/system/bin/ls", ls_main); (ascii "/system/bin/cat", cat_main);
   (ascii "/system/bin/lash", λ args, start args Shell_new)].
Definition SYSTEM_DIRECTORIES : list (list Z) := [ascii "/"; ascii "/system"; ascii "/system/bin"].

Definition find_key {K A} `{EqDecision K} (l : list (K * A)) (k : K) : option A :=
  snd <$> List.find (λ '(x, _), bool_decide (x = k)) l.

Definition image_directories : list (list Z * outcome StorageError ()) := (λ path, (path, Ok tt)) <$> SYSTEM_DIRECTORIES.
Definition image_contents : list (list Z * nat * outcome StorageError (list Z)) :=
  [((ascii "/no-such-file", FILE_BUFFER_SIZE), Err InvalidShortName); ((ascii "/system/bin/echo", 1%nat), Err BufferTooSmall);
   ((ascii "/bin/echo", 1%nat), Err FileNotFound)].
Definition image_programs : list (list Z * outcome SpawnError (list (list Z) → program void)) :=
  ((λ '(path, main), (path, Ok main)) <$> SYSTEM_PROGRAMS) ++ [(ascii "/system/bin/nope", Err SpawnFileNotFound)].

(** [listing] is what is known of the root directory's listing. *)
Definition image_listings (listing : option (list Z)) : list (list Z * nat * outcome StorageError (list Z)) :=
  match listing with Some bytes => [((ascii "/", DIRECTORY_BUFFER_SIZE), Ok bytes)] | None => [] end.

Definition system_image (listing : option (list Z)) : RootFiles := mkFiles
  (find_key image_directories) (λ path n, find_key image_contents (path, n))
  (λ path n, find_key (image_listings listing) (path, n)) (find_key image_programs).

(** The system that [kernel_main] starts with the program as its first one. *)
Definition first_state (program : LoadedUserProgram) (log : list Z) : State :=
  (boot_user_process program, TerminalEndpoint_new (mkSerial true log)).

(** What the host's script looks for on the serial line. *)
Definition selftest_report : list Z :=
  ascii "selftest: running 22 tests" ++ [NEWLINE] ++
  concat (map (λ test, ascii "PASS " ++ name test ++ [NEWLINE]) TESTS) ++ [NEWLINE] ++
  ascii "selftest: 22 passed, 0 failed" ++ [NEWLINE].

(** * Lemmas *)

Section Runs.
Implicit Types a b : RootFiles.

Lemma find_key_elem {K A} `{EqDecision K} (l : list (K * A)) k x : find_key l k = Some x → (k, x) ∈ l.
Proof.
  unfold find_key. intros ([k' y] & Hf & [= <-])%fmap_Some. apply find_some in Hf as [Hin ->%bool_decide_eq_true].
  by apply list_elem_of_In.
Qed.

(** What is known of the image holds in files that agree with its facts. *)
Lemma image_known listing files :
  Forall (λ '(path, r), ensured files path = Some r) image_directories →
  Forall (λ '((path, n), r), contents files path n = Some r) image_contents →
  listed files (ascii "/") DIRECTORY_BUFFER_SIZE = Some (Ok listing) →
  Forall (λ '(path, r), started files path = Some r) image_programs →
  knows_more (system_image (Some listing)) files.
Proof.
  intros Hd Hc Hl Hp. split; cbn [ensured contents listed started system_image].
  - intros path r H%find_key_elem. by apply (proj1 (Forall_forall _ _) Hd) in H.
  - intros path n r H%find_key_elem. by apply (proj1 (Forall_forall _ _) Hc) in H.
  - intros path n r H%find_key_elem. by apply list_elem_of_singleton in H as [= -> -> ->].
  - intros path r H%find_key_elem. by apply (proj1 (Forall_forall _ _) Hp) in H.
Qed.

Lemma filesystem_started read_sector fuel fs programs path e main :
  open_absolute read_sector fs fuel path = Ok e → programs path = main →
  started (filesystem read_sector fuel (Some fs) programs) path = Some (Ok main).
Proof. intros He <-. cbn [started filesystem ok_or mbind outcome_bind]. by rewrite He. Qed.

(** What an answer knows, it knows. *)
Lemma bind_more {A B C} (m m' : option A) (k : A → option B) (k' : A → option C) r r' :
  (∀ x, m = Some x → m' = Some x) → (∀ x, k x = Some r → k' x = Some r') → (m ≫= k) = Some r → (m' ≫= k') = Some r'.
Proof. intros Hm Hk (x & Hx & Hr)%bind_Some. rewrite (Hm x Hx). by apply Hk. Qed.

Lemma serve_more a b R (e : lazerE R) s r : knows_more a b → serve a e s = Some r → serve b e s = Some r.
Proof.
  intros [He Hc Hl _]. destruct s as [p t]. destruct e; cbn [serve]; try done; apply bind_more; try done; intros x.
  - unfold read_file_answer. destruct (absolute p path); try done. apply bind_more; [apply Hc|done].
  - unfold read_dir_answer. destruct (absolute p path); try done. apply bind_more; [apply Hl|done].
  - unfold chdir_answer. destruct (absolute p path); try done. apply bind_more; [apply He|done].
Qed.

Lemma spawn_more a b silent p path args r : knows_more a b →
  spawn_answer a silent p path args = Some r → spawn_answer b silent p path args = Some r.
Proof.
  intros [_ _ _ Hs]. unfold spawn_answer. destruct (spawn_payload args); try done.
  destruct (absolute p path); try done. apply bind_more; [apply Hs|done].
Qed.

(** More fuel and more knowledge change nothing. *)
Lemma run_more a b n n' R (t : program R) s r : knows_more a b → (n ≤ n')%nat →
  run a n t s = Some r → run b n' t s = Some r.
Proof.
  intros Hab. revert n' R t s r. induction n as [|n IH]; intros n' R t s r Hn; [done|].
  destruct n' as [|n']; [lia|]. cbn [run]. assert (n ≤ n')%nat as Hle by lia.
  destruct (observe t) as [x|u|A e k]; [done|by apply IH|].
  assert (∀ (m : option (A * State)) m', (∀ x, m = Some x → m' = Some x) →
    (m ≫= λ '(x, s), run a n (k x) s) = Some r → (m' ≫= λ '(x, s), run b n' (k x) s) = Some r) as Hserve.
  { intros m m' Hm. apply bind_more; [done|]. intros [x s']. by apply IH. }
  destruct e; [| |apply Hserve; intros y; by apply serve_more..|done].
  all: apply bind_more; [intros y; by apply spawn_more|]; intros [e|[main child]]; [by apply IH|].
  all: apply bind_more; [intros y; by apply IH|]; intros [[[]|status] [? terminal]]; by apply IH.
Qed.

(** One program after another. *)
Lemma run_bind a n m R B (t : program R) (k : R → program B) s x s' r :
  run a n t s = Some (inl x, s') → run a m (k x) s' = Some r → run a (n + m) (t ≫= k) s = Some r.
Proof.
  intros Ht Hk. revert t s Ht. induction n as [|n IH]; intros t s; [done|]. cbn [run Nat.add].
  change (observe (t ≫= k)) with (observe (match observe t with
    | RetF y => k y | TauF u => Tau (ITree.bind u k) | VisF e ke => Vis e (λ y, ITree.bind (ke y) k) end)).
  assert (∀ u s, run a n u s = Some (inl x, s') → run a (n + m) (ITree.bind u k) s = Some r) as IH' by exact IH. clear IH.
  destruct (observe t) as [y|u|A e ke]; cbn [observe _observe].
  - intros [= -> ->]. eapply (run_more a a m (S (n + m))); [|lia|exact Hk]. by split.
  - apply IH'.
  - assert (∀ u : option (A * State), (u ≫= λ '(y, s), run a n (ke y) s) = Some (inl x, s') →
      (u ≫= λ '(y, s), run a (n + m) (ITree.bind (ke y) k) s) = Some r) as Hserve.
    { intros u. apply bind_more; [done|]. intros [y s1]. apply IH'. }
    destruct e; [| |apply Hserve..|done].
    all: apply bind_more; [done|]; intros [e|[main child]]; [apply IH'|].
    all: apply bind_more; [intros y; apply (run_more a a); [by split|lia]|]; intros [[[]|status] [? terminal]]; apply IH'.
Qed.

Lemma run_observe a n R (t u : program R) s : observe t = observe u → run a n t s = run a n u s.
Proof. intros H. destruct n as [|n]; [done|]. cbn [run]. by rewrite H. Qed.

(** A call and what follows it. *)
Lemma run_call a n R A (e : lazerE A) (k : A → program R) s x s' r : serve a e s = Some (x, s') →
  run a n (k x) s' = Some r → run a (S n) (call e ≫= k) s = Some r.
Proof.
  intros He Hk. pose proof (run_observe a n R (ITree.bind (Ret x) k) (k x) s' eq_refl) as Hx. rewrite Hk in Hx.
  assert (observe (call e ≫= k) = VisF e (λ x, ITree.bind (Ret x) k)) as Hobs by done.
  cbn [run]. rewrite Hobs. clear Hobs.
  destruct s as [p t]. destruct e; try discriminate He; rewrite He; exact Hx.
Qed.

Lemma run_spawn a n m R silent path args (k : LzSpawnError + Z → program R) s main child status p t r :
  spawn_answer a silent s.1 path args = Some (inr (main, child)) → run a n main (child, s.2) = Some (inr status, (p, t)) →
  run a m (k (inr status)) (s.1, t) = Some r →
  run a (S (n + m)) (call (if silent then SpawnWaitSilent path args else SpawnWait path args) ≫= k) s = Some r.
Proof.
  intros Hs Hm Hk. assert (run a (n + m) main (child, s.2) = Some (inr status, (p, t))) as Hm'
    by (by apply (run_more a a n); [split|lia|]).
  assert (run a (n + m) (k (inr status)) (s.1, t) = Some r) as Hk' by (by apply (run_more a a m); [split|lia|]).
  assert (∀ A (e : lazerE A) (k : A → program R), observe (call e ≫= k) = VisF e (λ x, ITree.bind (Ret x) k)) as Hobs by done.
  destruct silent; cbn [run]; rewrite Hobs, Hs; cbn [mbind option_bind]; rewrite Hm'; cbn [mbind option_bind];
    by rewrite (run_observe _ _ _ _ (k (inr status))).
Qed.

(** The tests one after another. *)
Fixpoint each_test a (n : nat) (tests : list TestCase) (counts : nat * nat) (s : State) : option ((nat * nat) * State) :=
  match tests with
  | [] => Some (counts, s)
  | test :: tests =>
      match run a n (run_test test counts) s with
      | Some (inl counts, s) => each_test a n tests counts s
      | _ => None
      end
  end.

Lemma run_tests_app a n m tests tests' counts counts' s s' r :
  each_test a n tests counts s = Some (counts', s') → run a m (run_tests tests' counts') s' = Some r →
  run a (length tests * n + m) (run_tests (tests ++ tests') counts) s = Some r.
Proof.
  intros He Hr. revert counts s He. induction tests as [|test tests IH]; intros counts s; [by intros [= -> ->]|].
  cbn [each_test app run_tests length Nat.mul]. destruct (run a n (run_test test counts) s) as [[[c|z] s1]|] eqn:Ht; try done.
  intros He. rewrite <-Nat.add_assoc. eapply run_bind; [exact Ht|]. by apply IH.
Qed.

(** What is written to no device is gone. *)
Lemma write_nowhere p bytes t : resolve_fd p 1 = Some NullObject → ∃ n, Process.write p 1 bytes t = Ok (n, t).
Proof.
  intros Hp. unfold Process.write. rewrite Hp.
  assert (∀ fuel written, length bytes - written < fuel → ∃ n, while (E:=()) fuel (λ '(written, t),
    if decide (written < length bytes) then
      byte ← get_at bytes written; '(ok, t) ← write_byte NullObject t byte;
      if (ok : bool) then Ok (inl (S written, t)) else Ok (inr (written, t))
    else Ok (inr (written, t))) (written, t) = Ok (n, t))%nat as H; [|apply H; lia].
  induction fuel as [|fuel IH]; intros written Hf; [lia|]. cbn [while]. case_decide as Hw; [|by exists written].
  destruct (lookup_lt_is_Some_2 bytes written Hw) as [b Hb]. rewrite (get_at_Ok _ _ b) by done. cbn [mbind outcome_bind write_byte].
  apply IH. lia.
Qed.

(** The listing of a directory, printed nowhere. *)
Lemma ls_silent a listing p t : (length listing ≤ DIRECTORY_BUFFER_SIZE)%nat → resolve_fd p 1 = Some NullObject →
  serve a (ReadDir [DOT] DIRECTORY_BUFFER_SIZE) (p, t) = Some (inr listing, (p, t)) →
  run a 4 (ls_main [ascii "/system/bin/ls"]) (p, t) = Some (inr 0, (p, t)).
Proof.
  intros Hl Hp Hs. unfold ls_main. eapply run_call; [exact Hs|]. cbn beta iota. rewrite answered_short by done.
  destruct (write_nowhere p listing t Hp) as [n Hw].
  assert (serve a (Write 1 listing) (p, t) = Some (Z.of_nat n, (p, t))) as Hsw by (cbn [serve]; by rewrite Hw).
  rewrite (run_observe _ _ _ _ (stdout_write listing ≫= λ _, exit 0)) by done.
  change 3%nat with (2 + 1)%nat. eapply run_bind; [|done]. by eapply run_call; [exact Hsw|].
Qed.

(** Listing the root, in a child of any process. *)
Lemma ls_test_run listing p t child : (length listing ≤ DIRECTORY_BUFFER_SIZE)%nat →
  absolute p (ascii "/system/bin/ls") = Ok (ascii "/system/bin/ls") → child_record true p = Some child →
  absolute child [DOT] = Ok (ascii "/") → resolve_fd child 1 = Some NullObject →
  run (system_image (Some listing)) 16 test_spawn_ls_zero (p, t) = Some (inl (inr tt), (p, t)).
Proof.
  intros Hl Hpath Hchild Hroot Hnull. set (image := system_image (Some listing)).
  assert (serve image (ReadDir [DOT] DIRECTORY_BUFFER_SIZE) (child, t) = Some (inr listing, (child, t))) as Hlisted
    by (cbn [serve]; unfold read_dir_answer; by rewrite Hroot).
  assert (spawn_answer image true p (ascii "/system/bin/ls") [] = Some (inr (ls_main [ascii "/system/bin/ls"], child))) as Hspawn.
  { unfold spawn_answer. assert (spawn_payload [] = Ok []) as -> by (by vm_compute). rewrite Hpath.
    assert (started image (ascii "/system/bin/ls") = Some (Ok ls_main)) as -> by done. cbn [mbind option_bind]. by rewrite Hchild. }
  change 16%nat with (9 + 7)%nat. unfold test_spawn_ls_zero, and_then. eapply run_bind.
  - eapply (run_spawn image 4 4 _ true _ [] _ (p, t) _ child 0 child t); [exact Hspawn|by apply (ls_silent image listing)|done].
  - done.
Qed.

Lemma run_test_passed a n m test counts s s1 s2 r : run a 8 ensure_root s = Some (inl (inr tt), s1) →
  run a n (test_run test) s1 = Some (inl (inr tt), s2) → run a m (close_test test counts (inr tt)) s2 = Some r →
  run a (8 + (n + m)) (run_test test counts) s = Some r.
Proof.
  intros Hroot Htest Hclose. unfold run_test. destruct counts as [passed failed]. eapply run_bind; [exact Hroot|].
  eapply run_bind; [exact Htest|exact Hclose].
Qed.

Lemma run_tests_all a n tests counts counts' s s' : each_test a n tests counts s = Some (counts', s') →
  run a (length tests * n + 1) (run_tests tests counts) s = Some (inl counts', s').
Proof. intros He. rewrite <-(app_nil_r tests) at 2. by eapply run_tests_app. Qed.

Lemma each_test_more a b n tests counts s r : knows_more a b →
  each_test a n tests counts s = Some r → each_test b n tests counts s = Some r.
Proof.
  intros Hab. revert counts s. induction tests as [|test tests IH]; intros counts s; [done|]. cbn [each_test].
  destruct (run a n (run_test test counts) s) as [[[c|z] s']|] eqn:Ht; try done.
  rewrite (run_more a b n n _ _ _ _ Hab (le_n _) Ht). apply IH.
Qed.

End Runs.

(** ** The kernel behind the answers *)

Section Kernel.
Context (read_sector : Z → Fat32.res (list Z)) (fuel : nat).
Context (k : Kernel) (pid : ProcessId) (p : Process) (Hp : running_process k pid p).

Context (programs : list Z → list (list Z) → program void).
Let mounted := filesystem read_sector fuel (root_fs k) programs.

Lemma put_current_running E p' : put_current (E:=E) k pid p' = Ok (put_running pid p' k).
Proof. unfold put_current. by rewrite (process_mut_put _ _ _ _ (rp_process _ _ _ Hp)). Qed.

Lemma get_env_by_kernel key capacity :
  answer get_env_result get_env_code (current_process_get_env k key (replicate capacity 0)) (λ '(n, b), take n b) =
    get_env_answer p key capacity.
Proof.
  unfold current_process_get_env, get_env_answer. rewrite (rp_lookup _ _ _ Hp). cbn [mbind outcome_bind].
  destruct (Process.get_env p key) as [[v|]|e| |]; cbn [map_err mbind outcome_bind]; try done.
  rewrite length_replicate. case_decide; [done|]. rewrite write_at_Ok by (rewrite length_replicate; lia).
  cbn [mbind outcome_bind answer]. by rewrite take_splice_0 by (rewrite ?length_replicate; lia).
Qed.

Lemma list_env_by_kernel capacity :
  answer list_env_result list_env_code (current_process_list_env k (replicate capacity 0)) (λ '(n, b), take n b) =
    list_env_answer p capacity.
Proof. unfold current_process_list_env, list_env_answer. by rewrite (rp_lookup _ _ _ Hp). Qed.

Lemma getcwd_by_kernel capacity :
  match current_process_getcwd k (replicate capacity 0) with
  | Ok (Some (n, buffer)) => Some (inr (take n buffer))
  | Ok None => as_result getcwd_result GetCwdCode.BUFFER_TOO_SMALL
  | _ => None
  end = getcwd_answer p capacity.
Proof.
  unfold current_process_getcwd, getcwd_answer. rewrite (rp_with _ _ _ Hp).
  by destruct (copy_cwd_into (E:=()) p (replicate capacity 0)) as [[[n b]|]|e| |].
Qed.

(** A service that changes the process, and the answer. *)
Definition changes {F E} (decode : Z → outcome E ()) (code : F → Z) (service : outcome F Kernel)
    (a : option ((E + ()) * Process)) : Prop :=
  match service with
  | Ok k' => ∃ p', a = Some (inr tt, p') ∧ k' = put_running pid p' k
  | Err e => ∃ p', a = (r ← as_result decode (code e); Some (r, p'))
  | Panic | Hang => a = None
  end.

Lemma set_env_by_kernel key value :
  changes set_env_result set_env_code (current_process_set_env k key value) (set_env_answer p key value).
Proof.
  unfold set_env_answer, current_process_set_env. rewrite (rp_lookup _ _ _ Hp). cbn [mbind outcome_bind].
  destruct (Process.set_env key value p) as [p'|e| |]; cbn [map_err mbind outcome_bind]; [|by eexists|done..].
  rewrite put_current_running. by eexists.
Qed.

Lemma unset_env_by_kernel key :
  changes unset_env_result unset_env_code (current_process_unset_env k key) (unset_env_answer p key).
Proof.
  unfold unset_env_answer, current_process_unset_env. rewrite (rp_lookup _ _ _ Hp). cbn [mbind outcome_bind].
  destruct (remove_env key p) as [[existed p']|e| |]; cbn [map_err mbind outcome_bind]; [|by eexists|done..].
  rewrite put_current_running. cbn [mbind outcome_bind]. by destruct existed; eexists.
Qed.

Lemma chdir_by_kernel path :
  changes chdir_result chdir_code (current_process_chdir read_sector fuel k path) (chdir_answer mounted p path).
Proof.
  unfold current_process_chdir, chdir_answer, absolute. rewrite (rp_lookup _ _ _ Hp). cbn [mbind outcome_bind].
  destruct (Process.cwd p) as [c|e| |]; cbn [mbind outcome_bind]; [|by eexists|done..].
  destruct (resolve c path) as [full|e| |]; cbn [mbind outcome_bind]; [|by eexists|done..].
  cbn [ensured mounted filesystem mbind option_bind].
  destruct (ensure_root_dir read_sector fuel (root_fs k) full) as [u|e| |]; cbn [mbind outcome_bind]; [|by eexists|done..].
  assert (∃ r, ∀ E, Process.set_cwd (E:=E) full p = Ok r) as [[p'|] Hset].
  { unfold Process.set_cwd. repeat case_decide; repeat case_match; try by eexists.
    eexists. intros E. by rewrite write_at_Ok by lia. }
  - rewrite !Hset. cbn [mbind outcome_bind ok_or]. rewrite put_current_running. by eexists.
  - rewrite !Hset. by eexists.
Qed.

Lemma read_file_by_kernel path capacity :
  answer read_file_result read_file_code (current_process_read_file read_sector fuel k path (replicate capacity 0))
    (λ '(n, b), take n b) = read_file_answer mounted p path capacity.
Proof.
  unfold current_process_read_file, read_file_answer, absolute. rewrite (rp_lookup _ _ _ Hp). cbn [mbind outcome_bind].
  destruct (Process.cwd p) as [c|e| |]; cbn [mbind outcome_bind]; try done.
  destruct (resolve c path) as [full|e| |]; cbn [mbind outcome_bind]; try done.
  cbn [contents mounted filesystem mbind option_bind].
  by destruct (read_root_file_into _ _ _ _ _) as [[n b]|e| |].
Qed.

Lemma read_dir_by_kernel path capacity :
  answer read_dir_result read_dir_code (current_process_read_dir read_sector fuel k path (replicate capacity 0))
    (λ '(n, b), take n b) = read_dir_answer mounted p path capacity.
Proof.
  unfold current_process_read_dir, read_dir_answer, absolute. rewrite (rp_lookup _ _ _ Hp). cbn [mbind outcome_bind].
  destruct (Process.cwd p) as [c|e| |]; cbn [mbind outcome_bind]; try done.
  destruct (resolve c path) as [full|e| |]; cbn [mbind outcome_bind]; try done.
  cbn [listed mounted filesystem mbind option_bind].
  by destruct (read_root_dir _ _ _ _ _) as [[n b]|e| |].
Qed.

End Kernel.

(** ** The run *)

Section SelfTest.
Context (program : LoadedUserProgram) (log : list Z).

Definition known : RootFiles := system_image None.

Lemma image_more listing : knows_more known (system_image (Some listing)).
Proof. by split. Qed.

Definition after {R} (r : option ((R + Z) * State)) : State :=
  match r with Some (_, s) => s | None => first_state program log end.
Definition tests_after (r : option ((nat * nat) * State)) : State :=
  match r with Some (_, s) => s | None => first_state program log end.

(** The states between the parts of the program: after the first line, before
    the test that lists the root, in that test and after it, after the tests. *)
Definition header := print [ascii "selftest: running "; count (length TESTS); ascii " tests" ++ [NEWLINE]].
Definition ls_case := mkTest (ascii "spawn.ls-zero") test_spawn_ls_zero.
Definition at_tests : State := after (run known 8 header (first_state program log)).
Definition before_ls : State := tests_after (each_test known 200 (take 4 TESTS) (0%nat, 0%nat) at_tests).
Definition at_ls : State := after (run known 8 ensure_root before_ls).
Definition after_ls : State := after (run known 40 (close_test ls_case (4%nat, 0%nat) (inr tt)) at_ls).
Definition after_tests : State := tests_after (each_test known 300 (drop 5 TESTS) (5%nat, 0%nat) after_ls).
Definition ls_child : Process := default (at_ls.1) (child_record true at_ls.1).

Lemma header_run : run known 8 header (first_state program log) = Some (inl tt, at_tests).
Proof. by vm_compute. Qed.
Lemma first_tests : each_test known 200 (take 4 TESTS) (0%nat, 0%nat) at_tests = Some ((4%nat, 0%nat), before_ls).
Proof. by vm_compute. Qed.
Lemma ls_rooted : run known 8 ensure_root before_ls = Some (inl (inr tt), at_ls).
Proof. by vm_compute. Qed.
Lemma ls_closed : run known 40 (close_test ls_case (4%nat, 0%nat) (inr tt)) at_ls = Some (inl (5%nat, 0%nat), after_ls).
Proof. by vm_compute. Qed.
Lemma last_tests : each_test known 300 (drop 5 TESTS) (5%nat, 0%nat) after_ls = Some ((22%nat, 0%nat), after_tests).
Proof. by vm_compute. Qed.

Lemma ls_facts : absolute at_ls.1 (ascii "/system/bin/ls") = Ok (ascii "/system/bin/ls") ∧
  child_record true at_ls.1 = Some ls_child ∧ absolute ls_child [DOT] = Ok (ascii "/") ∧
  resolve_fd ls_child 1 = Some NullObject.
Proof. by vm_compute. Qed.

(** What the program does when the tests have run. *)
Definition closing (counts : nat * nat) : Userland.program void :=
  let '(passed, failed) := counts in
  _ ← println [];
  _ ← print [ascii "selftest: "; count passed; ascii " passed, "; count failed; ascii " failed" ++ [NEWLINE]];
  if decide (failed = 0%nat) then exit 0 else exit 1.
Definition at_end : State := after (run known 30 (closing (22%nat, 0%nat)) after_tests).

Lemma closing_run : run known 30 (closing (22%nat, 0%nat)) after_tests = Some (inr 0, at_end).
Proof. by vm_compute. Qed.
Lemma report_sent : serial at_end.2 = foldl serial_write_byte (mkSerial true log) selftest_report.
Proof. by vm_compute. Qed.

(** All the tests, with any listing of the root. *)
Lemma tests_run listing : (length listing ≤ DIRECTORY_BUFFER_SIZE)%nat →
  ∃ n, run (system_image (Some listing)) n (run_tests TESTS (0%nat, 0%nat)) at_tests =
    Some (inl (22%nat, 0%nat), after_tests).
Proof.
  intros Hl. set (image := system_image (Some listing)). pose proof (image_more listing : knows_more known image) as Hm.
  destruct ls_facts as (Hpath & Hchild & Hroot & Hnull).
  assert (run image 16 test_spawn_ls_zero at_ls = Some (inl (inr tt), at_ls)) as Hls.
  { pose proof (ls_test_run listing at_ls.1 at_ls.2 ls_child Hl Hpath Hchild Hroot Hnull) as H. by rewrite <-surjective_pairing in H. }
  assert (run image (8 + (16 + 40)) (run_test ls_case (4%nat, 0%nat)) before_ls = Some (inl (5%nat, 0%nat), after_ls)) as Htest.
  { eapply run_test_passed; [|exact Hls|]; (eapply run_more; [exact Hm|done|]); [exact ls_rooted|exact ls_closed]. }
  pose proof (each_test_more _ _ _ _ _ _ _ Hm last_tests) as Hlast.
  eexists. change TESTS with (take 4 TESTS ++ ls_case :: drop 5 TESTS).
  eapply run_tests_app; [exact (each_test_more _ _ _ _ _ _ _ Hm first_tests)|]. cbn [run_tests].
  eapply run_bind; [exact Htest|exact (run_tests_all _ _ _ _ _ _ _ Hlast)].
Qed.

End SelfTest.

(** * Properties *)

(** C9. The self-test passes.  Started as the kernel's first program (with any
    memory that it was loaded into, and anything in the serial log), on any
    root filesystem that has the directories, the programs and the gaps of the
    system image, and whatever its root lists within the buffer of [ls], the
    program comes to its end with status 0 and the serial line has got exactly
    its report: every one of the 22 tests with PASS, none failed.  The tests
    run the calls of the library on the kernel's process record, spawn echo,
    ls, cat and the shell, and let the shell search PATH and spawn in turn. *)
Theorem selftest_passes files listing program log :
  knows_more (system_image (Some listing)) files → (length listing ≤ DIRECTORY_BUFFER_SIZE)%nat →
  ∃ fuel p t, run files fuel selftest_main (first_state program log) = Some (inr 0, (p, t)) ∧
    sent (serial t) = log ++ crlf selftest_report.
Proof.
  intros Hfiles Hl. destruct (tests_run program log listing Hl) as [n Hn].
  exists (8 + (n + 30))%nat, (at_end program log).1, (at_end program log).2. rewrite <-surjective_pairing. split.
  - apply (run_more (system_image (Some listing)) files (8 + (n + 30))); [done|done|].
    pose proof (image_more listing) as Hm. eapply run_bind; [eapply run_more; [exact Hm|done|apply header_run]|].
    eapply run_bind; [exact Hn|]. eapply run_more; [exact Hm|done|]. apply closing_run.
  - rewrite report_sent. by apply serial_log.
Qed.

(** A disk with the image: the table in the second sector, a cluster of one
    sector for each directory and file. *)
Definition image_entry (name : string) (attributes cluster size : Z) : list Z :=
  ascii name ++ [attributes] ++ replicate 14 0 ++ to_le_bytes 2 cluster ++ to_le_bytes 4 size.
Definition image_disk (lba : Z) : Fat32.res (list Z) :=
  Ok (padded_sector
    (if lba =? 1 then concat (replicate 9 (to_le_bytes 4 0x0fffffff))
     else if lba =? 2 then image_entry "SYSTEM     " 0x10 3 0
     else if lba =? 3 then image_entry "BIN        " 0x10 4 0
     else if lba =? 4 then image_entry "ECHO       " 0x20 5 9 ++ image_entry "LS         " 0x20 6 9 ++
       image_entry "CAT        " 0x20 7 9 ++ image_entry "LASH       " 0x20 8 9
     else ascii "a program")).
Definition image_programs_at (path : list Z) : list (list Z) → program void :=
  default (λ _, exit 1) (find_key SYSTEM_PROGRAMS path).
Definition image_files : RootFiles := filesystem image_disk 4 (Some (mkFat32 0 100 1 1 2 2)) image_programs_at.

Lemma selftest_passes_witness :
  ∃ fuel p t, run image_files fuel selftest_main
    (first_state (mkProgram (mkSpace 0x1000) 0x400000 0x800000 OwnedPages_empty) []) = Some (inr 0, (p, t)) ∧
    sent (serial t) = crlf selftest_report.
Proof.
  destruct (selftest_passes image_files (ascii "SYSTEM" ++ [NEWLINE])
    (mkProgram (mkSpace 0x1000) 0x400000 0x800000 OwnedPages_empty) []) as (fuel & p & t & Hrun & Hsent).
  - apply image_known; [| |vm_compute; reflexivity|].
    1, 2: repeat (constructor; [vm_compute; reflexivity|]); constructor.
    do 4 (constructor; [eapply filesystem_started; [vm_compute; reflexivity|reflexivity]|]).
    constructor; [vm_compute; reflexivity|constructor].
  - apply Nat.leb_le. by vm_compute.
  - exists fuel, p, t. split; [exact Hrun|exact Hsent].
Defined.
