(* ===== verification/Isolation.v ===== *)
(** * Isolation of processes

    The memory that each process owns, as an invariant of the whole kernel:
    its page tables and everything they map for a program lie in its own
    pages, which no other process has and the allocator does not hand out.
    Every step of the system keeps the invariant and the memory of every
    process but the running one. *)

From stdpp Require Import gmap relations.
From S2P Require Import Prelude Bytes Errors Env Queues Terminal Allocator Process.
From S2P Require Import Paging KernelSpace Loader UserProgram Fat32 RootFs Sched Services.
From S2P Require Import Syscall.

Local Open Scope Z_scope.

(** ** The memory of the processes *)

(** The address space and the pages of each process. *)
Abbreviation Roster := (ProcessId → option (AddressSpace * OwnedPages)).

Definition roster (s : SchedulerState) : Roster := λ pid,
  p ← process_at s pid; Some (p_address_space p, owned_pages p).

Definition claimed (R : Roster) (x : Z) : Prop :=
  ∃ pid a o, R pid = Some (a, o) ∧ in_pages (program_pages o) x.

(** Processes without pages are the kernel's own. *)
Record memory_ok (st : MemoryState) (R : Roster) : Prop := {
  mo_config : config_ok st;
  mo_extras : extras_apart st;
  mo_paged : paged (2 ^ 52) (allocator (store st));
  mo_builder : owned (store st) = None;
  mo_space : ∀ pid a o, R pid = Some (a, o) → program_pages o = [] ∨
    ∃ T, own_space (store st) (root_paddr a) (program_pages o) T;
  mo_fits : ∀ pid a o, R pid = Some (a, o) →
    (owned_len o ≤ length (pages o))%nat ∧ Forall (λ p, is_frame p ∧ 0 < p) (program_pages o);
  mo_taken : ∀ x, claimed R x → ¬ free_in (store st) x;
  mo_apart : ∀ pid pid' a a' o o' x, R pid = Some (a, o) → R pid' = Some (a', o') →
    in_pages (program_pages o) x → in_pages (program_pages o') x → pid = pid'
}.

(** A kernel in order: user threads belong to processes with pages. *)
Record kernel_ok (k : Kernel) : Prop := {
  ko_machine : machine_ok (machine k);
  ko_memory : memory_ok (mem k) (roster (scheduler k));
  ko_user : ∀ i t a o, thread_at (scheduler k) i = Some t → is_user t = true →
    roster (scheduler k) (process_id t) = Some (a, o) → program_pages o ≠ []
}.

(** The id of the process that runs. *)
Definition running_pid (k : Kernel) : option ProcessId :=
  c ← current_thread (scheduler k); t ← thread_at (scheduler k) c; Some (process_id t).

(** The process is there with the same space, and its pages hold what they held. *)
Definition untouched (k k' : Kernel) (pid : ProcessId) : Prop :=
  ∀ a o, roster (scheduler k) pid = Some (a, o) →
    roster (scheduler k') pid = Some (a, o) ∧
    ∀ x, in_pages (program_pages o) x → kernel_memory k' x = kernel_memory k x.

(** What a step of the running process may do. *)
Definition isolated (k k' : Kernel) : Prop :=
  kernel_ok k' ∧ ∀ pid, running_pid k ≠ Some pid → untouched k k' pid.

(** * Lemmas *)

(** ** Spaces whose memory is left alone *)

Lemma own_space_frame s s' root pgs T :
  own_space s root pgs T → (∀ x, in_pages pgs x → memory s' x = memory s x) →
  paged (2 ^ 52) (allocator s') → (∀ x, in_pages pgs x → ¬ free_in s' x) →
  own_space s' root pgs T ∧ ∀ va, translate (memory s') root va = translate (memory s) root va.
Proof.
  intros [[Htab Hapart Hdist] Hin Hreach Huser] Hm Hp Hf.
  destruct (frame_tables_taken T root s s' Htab) as [Htab' Hl]; [by auto|done|by auto|].
  assert (∀ va, translate (memory s') root va = translate (memory s) root va) as Ht
    by (intros va; by eapply same_leaves_translate).
  split; [|done]. split; [split; [done|..]|done|..].
  - intros va t. rewrite Ht. apply Hapart.
  - intros va va' t t'. rewrite !Ht. apply Hdist.
  - intros va t. rewrite Ht. apply Hreach.
  - intros va t. rewrite Ht. apply Huser.
Qed.

(** The state with another allocator and memory. *)
Lemma settle_config st a m :
  config_ok st → extras_apart st → config_ok (settle a m st) ∧ extras_apart (settle a m st).
Proof. intros [? ? ? ?] ?. split; [by split|done]. Qed.

(** Nothing that a process claims is changed or handed out. *)
Lemma memory_frame st R a m :
  memory_ok st R → paged (2 ^ 52) a → (∀ x, claimed R x → m x = memory (store st) x ∧ ¬ free a x) →
  memory_ok (settle a m st) R.
Proof.
  intros [Hcf Hx Hp Hb Hs Hf Ht Ha] Hp' Hkeep. destruct (settle_config st a m Hcf Hx).
  split; try done.
  - intros pid sp o HR. destruct (Hs pid sp o HR) as [?|[T HT]]; [by left|right]. exists T.
    apply (own_space_frame (store st)); [done| |done|].
    + intros x Hin. apply Hkeep. by exists pid, sp, o.
    + intros x Hin. apply Hkeep. by exists pid, sp, o.
  - intros x Hc. by apply Hkeep.
Qed.

(** ** Processes that come and go *)

Lemma claimed_sub (R R' : Roster) x :
  (∀ pid y, R' pid = Some y → R pid = Some y) → claimed R' x → claimed R x.
Proof. intros Hsub (pid & a & o & HR & Hx). exists pid, a, o. split; [by apply Hsub|done]. Qed.

Lemma memory_sub st R R' :
  memory_ok st R → (∀ pid y, R' pid = Some y → R pid = Some y) → memory_ok st R'.
Proof.
  intros [Hcf Hx Hp Hb Hs Hf Ht Ha] Hsub. split; try done.
  - intros pid a o HR. by eapply Hs, Hsub.
  - intros pid a o HR. by eapply Hf, Hsub.
  - intros x Hc. by eapply Ht, claimed_sub.
  - intros pid pid' a a' o o' x HR HR'. eapply Ha; by apply Hsub.
Qed.

Lemma memory_add st R R' q a o T :
  memory_ok st R → (∀ pid y, R' pid = Some y → R pid = Some y ∨ pid = q ∧ y = (a, o)) →
  own_space (store st) (root_paddr a) (program_pages o) T →
  (owned_len o ≤ length (pages o))%nat → Forall (λ p, is_frame p ∧ 0 < p) (program_pages o) →
  (∀ x, in_pages (program_pages o) x → ¬ free_in (store st) x ∧ ¬ claimed R x) →
  memory_ok st R'.
Proof.
  intros [Hcf Hx Hp Hb Hs Hf Ht Ha] Hadd Hown Hlen Hfr Hnew. split; try done.
  - intros pid sp o' HR. apply Hadd in HR as [HR|[_ [= -> ->]]]; [by eapply Hs|]. right. by exists T.
  - intros pid sp o' HR. apply Hadd in HR as [HR|[_ [= -> ->]]]; [by eapply Hf|done].
  - intros x (pid & sp & o' & HR & Hin). apply Hadd in HR as [HR|[_ [= -> ->]]]; [|by apply Hnew].
    apply Ht. by exists pid, sp, o'.
  - intros pid pid' sp sp' o1 o2 x HR HR' H1 H2.
    apply Hadd in HR as [HR|[-> [= -> ->]]]; apply Hadd in HR' as [HR'|[-> [= -> ->]]];
      [by eapply Ha| | |done].
    + destruct (Hnew x H2) as [_ []]. by exists pid, sp, o1.
    + destruct (Hnew x H1) as [_ []]. by exists pid', sp', o2.
Qed.

(** ** Work in free memory *)

(** The state after work that only took and wrote free memory. *)
Definition quiet (st st' : MemoryState) : Prop :=
  ∃ a m, st' = settle a m st ∧ paged (2 ^ 52) a ∧
    ∀ x, ¬ free_in (store st) x → ¬ free a x ∧ m x = memory (store st) x.

Lemma quiet_refl st : owned (store st) = None → paged (2 ^ 52) (allocator (store st)) → quiet st st.
Proof.
  intros Ho Hp. exists (allocator (store st)), (memory (store st)). split_and!; [|done|done].
  destruct st as [[a m o] sp w f1 f2 l n]. cbn in *. by subst o.
Qed.

Lemma quiet_trans st st1 st2 : quiet st st1 → quiet st1 st2 → quiet st st2.
Proof.
  intros (a1 & m1 & -> & Hp1 & H1) (a2 & m2 & -> & Hp2 & H2). exists a2, m2. split_and!; [done|done|].
  intros x Hx. destruct (H1 x Hx) as [Hf1 Hm1], (H2 x) as [Hf2 Hm2]; [done|]. split; [done|]. by etrans.
Qed.

Lemma memory_quiet st st' R : memory_ok st R → quiet st st' → memory_ok st' R.
Proof.
  intros Hok (a & m & -> & Hp & H). apply memory_frame; [done..|]. intros x Hx.
  apply (mo_taken _ _ Hok) in Hx. by destruct (H x Hx).
Qed.

(** The range of a kernel buffer that was free and is taken. *)
Definition buffer_range (b : KernelBuffer) (x : Z) : Prop :=
  start_paddr b ≤ x < start_paddr b + page_count b * PAGE_SIZE.

Record buffer_held (st : MemoryState) (b : KernelBuffer) (st' : MemoryState) : Prop := {
  bh_aligned : start_paddr b mod PAGE_SIZE = 0;
  bh_bounds : 0 < start_paddr b ∧ 0 < page_count b ∧ start_paddr b + page_count b * PAGE_SIZE ≤ 2 ^ 52;
  bh_was : ∀ x, buffer_range b x → free_in (store st) x;
  bh_is : ∀ x, buffer_range b x → ¬ free_in (store st') x;
  bh_size : 0 ≤ buf_len b ≤ page_count b * PAGE_SIZE
}.

(** [allocate_kernel_buffer], with the buffer cleared. *)
Lemma allocate_buffer_held st n :
  owned (store st) = None → paged (2 ^ 52) (allocator (store st)) → 0 ≤ n < 2 ^ 32 →
  ensures (allocate_kernel_buffer (allocator (store st)) (memory (store st)) n) (λ '(b, a, m),
    let st' := settle a m st in
    quiet st st' ∧ buffer_held st b st' ∧ buf_len b = n ∧ ∀ x, buffer_range b x → m x = 0).
Proof.
  intros Ho Hp Hn [[b a] m]. unfold allocate_kernel_buffer. destruct (Z.eqb_spec n 0) as [|Hne]; [done|].
  assert (align_up n PAGE_SIZE = align_up n PAGE_SIZE / PAGE_SIZE * PAGE_SIZE ∧
    n ≤ align_up n PAGE_SIZE) as [Hal Hge].
  { change PAGE_SIZE with (2 ^ 12). rewrite align_up_pow2 by (unfold is_u64; lia). change (2 ^ 12) with 4096.
    Z.div_mod_to_equations. lia. }
  set (count := align_up n PAGE_SIZE / PAGE_SIZE) in *.
  assert (0 < count) as Hc by (unfold PAGE_SIZE in *; lia).
  pose proof (allocate_pages_spec (2 ^ 52) (allocator (store st)) (memory (store st)) count Hp Hc) as H.
  destruct (allocate_contiguous_pages _ _ count) as [[[page a1] m1]|e| |]; try done.
  cbn. intros [= <- <- <-]. destruct H as (Hp' & Hm & H0 & Hl & Hwas & Hf & ->). split_and!.
  - exists a1. eexists. split; [reflexivity|]. split; [done|]. intros x Hx.
    assert (¬ (page ≤ x < page + count * PAGE_SIZE)) as Hno by (intros ?; by apply Hx, Hwas).
    split; [by intros [? _]%Hf|]. unfold write_zeros. by rewrite decide_False.
  - split; try done; [intros x Hx [_ []]%Hf; done|cbn; lia].
  - done.
  - intros x Hx. unfold write_zeros. by rewrite decide_True.
Qed.

Section Disk.
Context (read_sector : Z → Fat32.res (list Z)) (fuel : nat).
Context (Hbytes : ∀ lba, ensures (read_sector lba) bytes_ok).

Lemma length_as_slice m b : 0 ≤ buf_len b → Z.of_nat (length (as_slice m b)) = buf_len b.
Proof. intros. unfold as_slice. rewrite length_map, length_seq. lia. Qed.

Lemma as_slice_Forall (P : Z → Prop) m b :
  (∀ x, start_paddr b ≤ x < start_paddr b + buf_len b → P (m x)) → Forall P (as_slice m b).
Proof.
  intros H. apply Forall_fmap, Forall_forall. intros i Hi%elem_of_seq. apply H. lia.
Qed.

(** The file's bytes in a new buffer; failing, some free memory may be lost. *)
Lemma read_root_file_quiet root_fs st path :
  owned (store st) = None → paged (2 ^ 52) (allocator (store st)) →
  match read_root_file read_sector fuel root_fs st path with
  | Ok (b, st') => quiet st st' ∧ buffer_held st b st' ∧ bytes_ok (as_slice (memory (store st')) b)
  | Err (_, st') => quiet st st'
  | Panic | Hang => True
  end.
Proof.
  intros Ho Hp. pose proof (quiet_refl st Ho Hp) as Hrefl. unfold read_root_file.
  destruct root_fs as [fs|]; cbn [ok_or mbind outcome_bind]; [|done]. unfold read_file_buffer.
  pose proof (open_absolute_sized read_sector fs Hbytes fuel path) as Hsize.
  destruct (open_absolute read_sector fs fuel path) as [file|e| |]; cbn [map_err mbind outcome_bind]; try done.
  specialize (Hsize file eq_refl). unfold sized in Hsize.
  pose proof (allocate_buffer_held st (Z.of_nat (size file)) Ho Hp ltac:(lia)) as Hal.
  destruct (allocate_kernel_buffer _ _ _) as [[[b a] m]|e| |]; cbn [map_err mbind outcome_bind]; try done.
  destruct (Hal _ eq_refl) as (Hq & Hb & Hlen & Hzero). rewrite Ho. set (st1 := settle a m st) in *.
  change (with_store _ st) with st1. pose proof Hb as [Hmod (H0 & Hc & Hlim) Hwas His Hsz].
  pose proof (read_file_like read_sector fs Hbytes file (as_slice m b)) as Hread.
  destruct (read_file read_sector fs file (as_slice m b)) as [[n bytes]|e| |];
    cbn [map_err mbind outcome_bind]; try done.
  destruct (Hread _ eq_refl) as [Hlb Hbs]. case_decide; [done|].
  pose proof (length_as_slice m b ltac:(lia)) as Hls.
  set (m' := write_phys m (start_paddr b) bytes).
  change (with_store _ st1) with (settle a m' st1).
  split_and!; [|by split|].
  { destruct Hq as (a1 & m1 & [= <- <-] & Hp1 & Hq). exists a, m'. split_and!; [done|done|].
    intros x Hx. destruct (Hq x Hx) as [? <-]. split; [done|]. unfold m', write_phys.
    rewrite decide_False; [done|]. intros Hin. apply Hx, Hwas. unfold buffer_range. lia. }
  apply as_slice_Forall. intros x Hx. cbn. unfold m', write_phys. rewrite decide_True by lia.
  assert (bytes_ok bytes) as Hby.
  { apply Hbs, as_slice_Forall. intros y Hy. rewrite Hzero by (unfold buffer_range; lia). done. }
  destruct (bytes !! Z.to_nat (x - start_paddr b)) as [y|] eqn:Hy; [|done].
  by eapply Forall_lookup_1 in Hby.
Qed.
End Disk.

(** Loading a program: its pages are new. *)
Lemma load_quiet st file startup :
  config_ok st → extras_apart st → owned (store st) = None → paged (2 ^ 52) (allocator (store st)) →
  bytes_ok file →
  match load_user_program st file startup with
  | Ok (program, st') => let o := lp_owned_pages program in
      quiet st st' ∧ (owned_len o ≤ length (pages o))%nat ∧
      Forall (λ p, is_frame p ∧ 0 < p) (program_pages o) ∧
      (∃ T, own_space (store st') (root_paddr (lp_address_space program)) (program_pages o) T) ∧
      ∀ x, in_pages (program_pages o) x → free_in (store st) x ∧ ¬ free_in (store st') x
  | Err (_, st') => quiet st st'
  | Panic | Hang => True
  end.
Proof.
  intros Hcf Hx Ho Hp Hf. pose proof (load_spec (startup := startup) Hcf Hp Hf Ho) as H.
  destruct (load_user_program st file startup) as [[program st']|[e st']| |] eqn:Hl; [|clear Hl|done..].
  - pose proof (loaded_space _ _ _ _ _ Hcf Hp Ho Hf Hx Hl) as Hsp. clear Hl.
    destruct H as (image & hs & s' & T & img & pgs & _ & _ & _ & _ & -> & Hown & [Hb _ _ _ _]).
    destruct (tracked_owned (st := st)) as [Hok Htot].
    destruct (bu_accounts _ _ _ _ _ _ _ Hb) as [Htr Ha]. destruct (Ha eq_refl Hok) as [[Hfit Hfr Htk] Hacc].
    assert (owned s' = Some (lp_owned_pages program)) as Hos.
    { rewrite Hown. unfold owned_now. unfold tracks in Htr. by destruct (owned s'). }
    unfold total, owned_fits, owned_list in *. rewrite Hos in *. cbv zeta. split_and!; [|done|done|done|].
    + exists (allocator s'), (memory s'). split; [done|].
      split; [exact (tb_alloc _ _ _ (bu_tables _ _ _ _ _ _ _ Hb))|]. intros x Hnf. split.
      * intros ?. by apply Hnf, (bu_free _ _ _ _ _ _ _ Hb).
      * by apply (bu_memory _ _ _ _ _ _ _ Hb).
    + intros x Hin. split; [|by apply Htk]. apply Htot, Hacc. by right.
  - destruct H as (a & m & -> & Hpa & Hm & lost & Hfa & _). exists a, m. split_and!; [done|done|].
    intros x Hnf. split; [|by apply Hm]. by intros [? _]%Hfa.
Qed.

(** Giving a buffer back. *)
Lemma release_buffer_quiet {E} st st1 b k k' :
  buffer_held st b st1 → quiet st (mem k) → (∀ x, buffer_range b x → ¬ free_in (store (mem k)) x) →
  release_buffer (E:=E) b k = Ok k' →
  ∃ st', k' = with_mem st' k ∧ quiet st st' ∧ memory (store st') = memory (store (mem k)) ∧
    ∀ x, free_in (store st') x ↔ buffer_range b x ∨ free_in (store (mem k)) x.
Proof.
  intros [Hm (H0 & Hc & Hl) Hwas _ _] Hq Hheld. unfold release_buffer, buffer_release.
  destruct Hq as (a & m & Hst & Hp & Hq).
  assert (allocator (store (mem k)) = a ∧ memory (store (mem k)) = m) as [Ha Hmm] by (by rewrite Hst).
  pose proof (free_pages_spec (2 ^ 52) a (start_paddr b) (page_count b) Hp Hm H0 Hc Hl ltac:(lia)) as H.
  rewrite Ha. destruct (free_contiguous_pages a _ _) as [a'| | |]; try done. destruct H as [Hp' Hf].
  intros [= <-]. eexists. split; [done|]. split_and!.
  - exists a', m. rewrite Hst. split_and!; [done|done|]. intros x Hx. destruct (Hq x Hx). split; [|done].
    rewrite Hf. intros [?|?]; [by apply Hx, Hwas|done].
  - done.
  - intros x. unfold free_in. cbn. by rewrite Ha, Hf.
Qed.

(** ** Steps of the kernel *)

Lemma isolated_refl k : kernel_ok k → isolated k k.
Proof. intros Hk. split; [done|]. by intros pid _ a o HR. Qed.

Lemma isolated_terminal k t : kernel_ok k → isolated k (with_terminal t k).
Proof. intros [Hm Hmem Hu]. split; [by split|]. by intros pid _ a o HR. Qed.

Lemma isolated_terminal_l k t k' : isolated (with_terminal t k) k' → isolated k k'.
Proof. done. Qed.

Lemma isolated_quiet k st' : kernel_ok k → quiet (mem k) st' → isolated k (with_mem st' k).
Proof.
  intros [Hm Hmem Hu] Hq. split.
  - split; [done|by apply (memory_quiet (mem k))|done].
  - intros pid _ a o HR. split; [done|]. intros x Hx. destruct Hq as (a' & m & -> & _ & Hq).
    apply Hq, (mo_taken _ _ Hmem). by exists pid, a, o.
Qed.

(** The running process is one with pages. *)
Record user_runs (k : Kernel) (pid : ProcessId) (p : Process) (T : Tables) : Prop := {
  ur_running : running_process k pid p;
  ur_space : own_space (store (mem k)) (active_root k) (program_pages (owned_pages p)) T
}.

Lemma user_thread_runs k :
  kernel_ok k → in_user_thread (scheduler k) = true → ∃ pid p T, user_runs k pid p T.
Proof.
  intros [Hm Hmem Hu] Hin. destruct (running_process_ok k Hm) as (pid & p & Hrp).
  pose proof Hrp as [_ (c & t & Hc & Ht & <-) Hp _ Hact _ _].
  unfold in_user_thread in Hin. rewrite Hc in Hin. cbn [mbind option_bind] in Hin. rewrite Ht in Hin.
  assert (roster (scheduler k) (process_id t) = Some (p_address_space p, owned_pages p)) as HR
    by (unfold roster; by rewrite Hp).
  destruct (mo_space _ _ Hmem _ _ _ HR) as [He|[T HT]]; [by destruct (Hu _ _ _ _ Ht Hin HR)|].
  exists (process_id t), p, T. split; [done|]. unfold active_root. by rewrite Hact.
Qed.

Lemma running_pid_runs k pid p : running_process k pid p → running_pid k = Some pid.
Proof.
  intros [_ (c & t & Hc & Ht & <-) _ _ _ _ _]. unfold running_pid. rewrite Hc. cbn [mbind option_bind].
  by rewrite Ht.
Qed.

(** A change of the running process's record. *)
Lemma isolated_put {E} k pid p p' k' :
  kernel_ok k → running_process k pid p → same_core p p' → proc_ok p' →
  put_current (E:=E) k pid p' = Ok k' → isolated k k'.
Proof.
  intros [Hm Hmem Hu] Hrp Hcore Hok Hput.
  destruct (put_running_ok k pid p p' Hm Hrp Hcore Hok) as (Hput' & Hm' & _ & Hat).
  rewrite Hput' in Hput. injection Hput as <-.
  assert (∀ j, roster (scheduler (put_running pid p' k)) j = roster (scheduler k) j) as HR.
  { intros j. unfold roster. rewrite Hat. case_decide; [subst j|done].
    rewrite (rp_process _ _ _ Hrp). destruct Hcore as (_ & Ha & _ & Ho & _). cbn. by rewrite Ha, Ho. }
  split; [split; [done| |]|].
  - apply (memory_sub _ (roster (scheduler k))); [done|]. intros j y. by rewrite HR.
  - intros i t a o Ht Hus. rewrite HR. by apply (Hu i).
  - intros j _ a o Hj. rewrite HR. split; [done|]. done.
Qed.

(** ** Writing the running program's memory *)

Lemma load_bytes_mapped view address n l :
  load_bytes view address n = Ok l →
  length l = n ∧ ∀ va, address ≤ va < address + Z.of_nat n → is_Some (view va).
Proof.
  revert address l. induction n as [|n IH]; intros address l; cbn; [intros [= <-]; split; [done|lia]|].
  intros (b & Hb & (l' & Hl & [= <-])%bind_Ok)%bind_Ok. destruct (IH _ _ Hl) as [<- H]. split; [done|].
  intros va Hva. destruct (decide (va = address)) as [->|]; [|apply H; lia].
  unfold load_byte in Hb. apply expect_Ok in Hb. by eexists.
Qed.

Lemma user_slice_mapped k address len l :
  user_slice k address len = Ok (Some l) →
  ∀ va, address ≤ va < address + Z.of_nat (length l) →
    user_area va ∧ is_Some (kernel_view (kernel_memory k) (active_root k) va).
Proof.
  unfold user_slice. destruct (validate_user_buffer address len) eqn:Hv; [|done].
  intros (l' & Hl & [= ->])%bind_Ok va Hva. apply load_bytes_mapped in Hl as [Hlen Hm].
  split; [|apply Hm; lia]. destruct (user_area_validated _ _ Hv) as [?|Hua]; [lia|lia|]. apply Hua. lia.
Qed.

(** Bytes changed within the pages of the running process, and not in its
    tables. *)
Lemma isolated_write k pid p T m :
  kernel_ok k → user_runs k pid p T →
  own_space (with_memory m (store (mem k))) (active_root k) (program_pages (owned_pages p)) T →
  (∀ x, ¬ in_pages (program_pages (owned_pages p)) x → m x = kernel_memory k x) →
  isolated k (with_mem (settle (allocator (store (mem k))) m (mem k)) k).
Proof.
  intros [Hm Hmem Hu] [Hrp Hown] Hown' Hx. pose proof Hmem as [Hcf Hex Hp Hb Hs Hf Ht Ha].
  assert (roster (scheduler k) pid = Some (p_address_space p, owned_pages p)) as HRp
    by (unfold roster; by rewrite (rp_process _ _ _ Hrp)).
  assert (∀ j a o x, roster (scheduler k) j = Some (a, o) → j ≠ pid → in_pages (program_pages o) x →
    m x = kernel_memory k x) as Hkeep.
  { intros j a o x HR Hne Hin. apply Hx. intros Hin'. apply Hne. by eapply Ha. }
  destruct (settle_config (mem k) (allocator (store (mem k))) m Hcf Hex) as [Hcf' Hex'].
  split; [split; [done| |done]|].
  - split; try done. intros j a o HR. destruct (decide (j = pid)) as [->|Hne].
    + right. exists T. change (roster (scheduler k) pid = Some (a, o)) in HR. rewrite HRp in HR.
      injection HR as <- <-.
      unfold active_root in Hown'. rewrite (rp_active _ _ _ Hrp) in Hown'. destruct Hown' as [[Htab ? ?] ? ? ?].
      split; [split|..]; try done.
      destruct (frame_tables T (root_paddr (p_address_space p)) (with_memory m (store (mem k)))
        (store (settle (allocator (store (mem k))) m (mem k))) Htab); done.
    + destruct (Hs j a o HR) as [?|[T' HT']]; [by left|right]. exists T'.
      apply (own_space_frame (store (mem k))); [done| |done|].
      * intros x Hin. by eapply Hkeep.
      * intros x Hin. apply Ht. by exists j, a, o.
  - intros j Hj a o HR. split; [done|]. intros x Hin. eapply Hkeep; [done| |done].
    intros ->. by rewrite (running_pid_runs _ _ _ Hrp) in Hj.
Qed.

Lemma store_bytes_isolated k pid p T address bytes m :
  kernel_ok k → user_runs k pid p T →
  (∀ va, address ≤ va < address + Z.of_nat (length bytes) →
     user_area va ∧ is_Some (kernel_view (kernel_memory k) (active_root k) va)) →
  store_bytes (kernel_memory k) (active_root k) address bytes = Ok m →
  isolated k (with_mem (settle (allocator (store (mem k))) m (mem k)) k).
Proof.
  intros Hk Hur Hmap Hst. pose proof (ur_space _ _ _ _ Hur) as [Hsp Htab Hreach Huser].
  destruct (store_bytes_spec (store (mem k)) address bytes Hsp Hmap) as (m' & Hst' & Hsp' & Htr & _ & Hrest).
  assert (m' = m) as -> by (unfold kernel_memory in Hst; congruence).
  apply (isolated_write k pid p T m Hk Hur).
  - split; [done|done|..]; intros va t; change (memory (with_memory m (store (mem k)))) with m; rewrite Htr; [apply Hreach|apply Huser].
  - intros x Hx. apply Hrest. intros (va & t & Hva & Ht & <-). apply Hx, (Hreach va); [by apply Hmap|done].
Qed.

Lemma write_back_isolated k pid p T address len l bytes k' :
  kernel_ok k → user_runs k pid p T → user_slice k address len = Ok (Some l) → length bytes = length l →
  write_back k address bytes = Ok k' → isolated k k'.
Proof.
  intros Hk Hur Hsl Hlen (m & Hm & [= <-])%bind_Ok. eapply (store_bytes_isolated k); [done|done| |exact Hm].
  rewrite Hlen. by eapply user_slice_mapped.
Qed.

(** ** The calls that answer at once *)

Definition serves (k : Kernel) (r : outcome () (Z * Kernel)) : Prop := ensures r (λ '(_, k'), isolated k k').

Lemma serves_value k v : kernel_ok k → serves k (Ok (v, k)).
Proof. intros Hk. apply ensures_Ok. by apply isolated_refl. Qed.

(** An argument: a string or the bytes of a slice. *)
Lemma serves_str k address len (none : Z) (f : list Z → outcome () (Z * Kernel)) :
  kernel_ok k → (∀ s, utf8_valid s = true → serves k (f s)) →
  serves k (s ← user_str k address len; match s with None => Ok (none, k) | Some s => f s end).
Proof.
  intros Hk Hf. eapply (ensures_bind _ _ (λ s, ∀ x, s = Some x → utf8_valid x = true)).
  - unfold user_str. intros s (b & _ & [= <-])%bind_Ok x (y & _ & Hy)%bind_Some.
    unfold from_utf8 in Hy. by destruct (utf8_valid y) eqn:?; [injection Hy as <-|].
  - intros [s|] Hs; [by apply Hf, Hs|by apply serves_value].
Qed.

Lemma serves_slice k address len (none : Z) (f : list Z → outcome () (Z * Kernel)) :
  kernel_ok k → (∀ l, user_slice k address len = Ok (Some l) → serves k (f l)) →
  serves k (l ← user_slice k address len; match l with None => Ok (none, k) | Some l => f l end).
Proof.
  intros Hk Hf. destruct (user_slice k address len) as [[l|]| | |] eqn:Hl; [|by apply serves_value|done..].
  by apply Hf.
Qed.

Lemma serves_handle {E A} k (m : outcome E A) P err ok :
  ensures m P → (∀ e, serves k (err e)) → (∀ a, P a → serves k (ok a)) → serves k (handle m err ok).
Proof. intros Hm He Hok. destruct m as [a|e| |]; [by apply Hok, Hm|apply He|done|done]. Qed.

Section Running.
Context (k : Kernel) (pid : ProcessId) (p : Process) (T : Tables).
Context (Hk : kernel_ok k) (Hur : user_runs k pid p T).

(** The answer goes into the caller's buffer. *)
Lemma serves_write_back address len l bytes n :
  user_slice k address len = Ok (Some l) → length bytes = length l →
  serves k (k' ← write_back k address bytes; Ok (n, k')).
Proof.
  intros Hl Hb. eapply ensures_bind; [intros k' Hw; by eapply write_back_isolated|].
  intros k' Hk'. by apply ensures_Ok.
Qed.

Lemma serves_put {E} (m : outcome E Kernel) err :
  (∀ k', m = Ok k' → isolated k k') → (∀ e, serves k (err e)) → serves k (handle m err (λ k', Ok (0, k'))).
Proof. intros Hm He. apply (serves_handle k m (isolated k)); [done..|]. intros k' Hk'. by apply ensures_Ok. Qed.

Lemma serves_read fd address len : serves k (syscall_read k fd address len).
Proof.
  apply (serves_slice k address len 0); [done|]. intros l Hl. unfold current_process_read.
  rewrite (rp_with _ _ _ (ur_running _ _ _ _ Hur)), !bind_assoc.
  apply (ensures_bind _ _ (λ '((_, b, _) : nat * list Z * TerminalEndpoint), length b = length l)).
  { unfold Process.read. destruct (resolve_fd p fd) as [object|]; [|by apply ensures_Ok].
    apply (ensures_while (λ '((_, b, _) : nat * list Z * TerminalEndpoint), length b = length l)); [|done]. intros [[r b] t] Hb.
    case_decide; [|by apply ensures_Ok]. eapply ensures_bind; [apply ensures_any|]. intros [[byte|] t'] _;
      [|by apply ensures_Ok].
    eapply ensures_bind; [apply ensures_set_at|]. intros b' [Hb' _]. apply ensures_Ok. congruence. }
  intros [[n b] t] Hb. cbn [mbind outcome_bind].
  eapply ensures_bind; [|intros k' Hk'; by apply ensures_Ok].
  intros k' Hw. apply (isolated_terminal_l k t).
  eapply (write_back_isolated (with_terminal t k) pid p T); [apply isolated_terminal, Hk| |exact Hl|exact Hb|exact Hw].
  destruct Hur as [[] ?]. by split.
Qed.

Lemma serves_write fd address len : serves k (syscall_write k fd address len).
Proof.
  apply (serves_slice k address len 0); [done|]. intros l _. unfold current_process_write.
  rewrite (rp_with _ _ _ (ur_running _ _ _ _ Hur)), !bind_assoc.
  eapply ensures_bind; [apply ensures_any|]. intros [n t] _. apply ensures_Ok. by apply isolated_terminal.
Qed.

Lemma serves_getcwd address len : serves k (syscall_getcwd k address len).
Proof.
  apply (serves_slice k address len); [done|]. intros l Hl. unfold current_process_getcwd.
  rewrite (rp_with _ _ _ (ur_running _ _ _ _ Hur)), !bind_assoc.
  apply (ensures_bind _ _ (λ r, ∀ (n : nat) (b : list Z), r = Some (n, b) → length b = length l)).
  { unfold copy_cwd_into. case_decide; [by apply ensures_Ok|].
    eapply ensures_bind; [apply ensures_any|]. intros c _.
    eapply ensures_bind; [apply ensures_write_at|]. intros b [Hb _]. apply ensures_Ok. by intros ? ? [= <- <-]. }
  intros [[n b]|] Hr; cbn [mbind outcome_bind]; [|by apply serves_value].
  eapply serves_write_back; [done|]. by eapply Hr.
Qed.

(** The lookups of [env.rs] answer within the buffer. *)
Lemma serves_get_env ka kl a len : serves k (syscall_get_env k ka kl a len).
Proof.
  apply serves_str; [done|]. intros key _. apply serves_slice; [done|]. intros l Hl.
  apply (serves_handle k _ (λ '((_, b) : nat * list Z), length b = length l)); [|intros; by apply serves_value|].
  - unfold current_process_get_env. eapply ensures_bind; [apply ensures_any|]. intros [q q'] _.
    eapply ensures_bind; [apply ensures_any|]. intros [v|] _; [|done]. case_decide; [done|].
    eapply ensures_bind; [apply ensures_write_at|]. intros b [Hb _]. by apply ensures_Ok.
  - intros [n b] Hb. by eapply serves_write_back.
Qed.

Lemma serves_list_env partial a len :
  (∀ b, length (partial b) = length b) → serves k (syscall_list_env partial k a len).
Proof.
  intros Hpart. apply serves_slice; [done|]. intros l Hl.
  apply (serves_handle k _ (λ '((_, b) : nat * list Z), length b = length l)).
  - unfold current_process_list_env. rewrite (rp_lookup _ _ _ (ur_running _ _ _ _ Hur)). cbn [mbind outcome_bind].
    apply ensures_map_err. unfold list_env_into.
    rewrite (write_listing_spec _ _ (proc_env _ (rp_ok _ _ _ (ur_running _ _ _ _ Hur)))).
    case_decide; [|done]. apply ensures_Ok. apply length_splice. cbn. lia.
  - intros e. by eapply serves_write_back.
  - intros [n b] Hb. by eapply serves_write_back.
Qed.

Lemma serves_set_env ka kl va vl : serves k (syscall_set_env k ka kl va vl).
Proof.
  apply serves_str; [done|]. intros key Hkey. apply serves_str; [done|]. intros value Hvalue.
  apply serves_put; [|intros; by apply serves_value].
  intros k'. pose proof (ur_running _ _ _ _ Hur) as Hrp. unfold current_process_set_env.
  rewrite (rp_lookup _ _ _ Hrp). cbn [mbind outcome_bind].
  destruct (set_env_ok key value p (rp_ok _ _ _ Hrp) Hkey Hvalue) as [(e & -> & He)|[e ->]]; [|done].
  cbn [map_err mbind outcome_bind]. apply (isolated_put k pid p); [done|done|by split_and!|].
  apply with_env_ok; [apply Hrp|done].
Qed.

Lemma serves_unset_env ka kl : serves k (syscall_unset_env k ka kl).
Proof.
  apply serves_str; [done|]. intros key Hkey. apply serves_put; [|intros; by apply serves_value].
  intros k'. pose proof (ur_running _ _ _ _ Hur) as Hrp. unfold current_process_unset_env.
  rewrite (rp_lookup _ _ _ Hrp). cbn [mbind outcome_bind].
  destruct (remove_env_ok key p (rp_ok _ _ _ Hrp)) as [(b & e & -> & He)|[e ->]]; [|done].
  cbn [map_err mbind outcome_bind]. intros (k1 & Hput & Hk1)%bind_Ok. destruct b; [|done]. injection Hk1 as <-.
  apply (isolated_put k pid p (with_env e p) k1) with (2 := Hrp) in Hput; [done|done|by split_and!|].
  apply with_env_ok; [apply Hrp|done].
Qed.

Context (read_sector : Z → Fat32.res (list Z)) (fuel : nat).
Context (Hbytes : ∀ lba, ensures (read_sector lba) bytes_ok).
Context (partial : list Z → list Z) (Hpart : ∀ b, length (partial b) = length b).

Lemma serves_read_dir pa pl a len : serves k (syscall_read_dir partial read_sector fuel k pa pl a len).
Proof.
  apply serves_str; [done|]. intros path _. apply serves_slice; [done|]. intros l Hl.
  apply (serves_handle k _ (λ '((_, b) : nat * list Z), length b = length l)).
  - unfold current_process_read_dir. eapply ensures_bind; [apply ensures_any|]. intros [q q'] _.
    eapply ensures_bind; [apply ensures_any|]. intros c _.
    eapply ensures_bind; [apply ensures_any|]. intros path' _.
    eapply ensures_bind; [apply ensures_any|]. intros fs _. by apply read_dir_length.
  - intros e. by eapply serves_write_back.
  - intros [n b] Hb. by eapply serves_write_back.
Qed.

Lemma serves_read_file pa pl a len : serves k (syscall_read_file partial read_sector fuel k pa pl a len).
Proof.
  apply serves_str; [done|]. intros path _. apply serves_slice; [done|]. intros l Hl.
  apply (serves_handle k _ (λ '((_, b) : nat * list Z), length b = length l)).
  - unfold current_process_read_file. eapply ensures_bind; [apply ensures_any|]. intros [q q'] _.
    eapply ensures_bind; [apply ensures_any|]. intros c _.
    eapply ensures_bind; [apply ensures_any|]. intros path' _.
    eapply ensures_bind; [apply ensures_any|]. intros fs _.
    eapply ensures_bind; [apply ensures_any|]. intros file _.
    intros [n b] Hb. by apply (read_file_like read_sector fs Hbytes) in Hb as [Hb _].
  - intros e. by eapply serves_write_back.
  - intros [n b] Hb. by eapply serves_write_back.
Qed.

Lemma serves_chdir pa pl : serves k (syscall_chdir read_sector fuel k pa pl).
Proof.
  apply serves_str; [done|]. intros path Hpath. apply serves_put; [|intros; by apply serves_value].
  intros k'. pose proof (ur_running _ _ _ _ Hur) as Hrp. unfold current_process_chdir.
  rewrite (rp_lookup _ _ _ Hrp). cbn [mbind outcome_bind].
  intros (c & _ & (path' & Hres & (u & _ & (o & Hset & (p' & Hp' & Hput)%bind_Ok)%bind_Ok)%bind_Ok)%bind_Ok)%bind_Ok.
  apply ok_or_Ok in Hp'. subst o.
  assert (utf8_valid path' = true) as Hu.
  { unfold resolve in Hres. apply bind_Ok in Hres as ([n b] & _ & Hres).
    apply bind_Ok in Hres as (t & _ & Hres%ok_or_Ok). unfold from_utf8 in Hres.
    by destruct (utf8_valid t) eqn:?; [injection Hres as <-|]. }
  pose proof (set_cwd_spec (E:=StorageError) path' p (rp_ok _ _ _ Hrp) Hu) as Hspec.
  destruct (_ && _); [|congruence]. destruct Hspec as (p1 & Hp1 & Hok & _ & Heq).
  assert (p1 = p') as -> by congruence.
  apply (isolated_put k pid p p' k') with (2 := Hrp) in Hput; [done|done| |done].
  rewrite Heq. by split_and!.
Qed.

End Running.

(** ** Scheduling *)

(** The processes and user threads of another schedule. *)
Record same_roster (s s' : SchedulerState) : Prop := {
  sr_roster : ∀ pid, roster s' pid = roster s pid;
  sr_user : ∀ i t', thread_at s' i = Some t' → is_user t' = true →
    ∃ j t, thread_at s j = Some t ∧ is_user t = true ∧ process_id t = process_id t'
}.

Lemma same_roster_refl s : same_roster s s.
Proof. split; [done|]. intros i t' ? ?. by exists i, t'. Qed.

Lemma isolated_schedule k m :
  kernel_ok k → machine_ok m → same_roster (scheduler k) (sched m) → isolated k (with_machine m k).
Proof.
  intros [_ Hmem Hu] Hm [HR Hus]. split; [split; [done| |]|].
  - apply (memory_sub _ (roster (scheduler k))); [done|]. intros j y. unfold scheduler at 1. cbn. by rewrite HR.
  - intros i t a o Ht Hut. unfold scheduler. cbn. rewrite HR.
    destruct (Hus i t Ht Hut) as (j & t0 & Hj & Hu0 & <-). by apply (Hu j).
  - intros j _ a o Hj. unfold scheduler. cbn. by rewrite HR.
Qed.

(** A switch moves the threads' states around. *)
Lemma switched_roster m s c n tc tn pn :
  thread_at s c = Some tc → thread_at s n = Some tn → n ≠ c →
  same_roster s (sched (switched m s c n tc tn pn)).
Proof.
  intros Hc Hn Hne. split; [done|]. intros i t' Hi Hu.
  rewrite (switched_tables m s c n tc tn pn i Hc Hn Hne) in Hi.
  repeat case_decide; subst; simplify_eq; eauto 6.
Qed.

Lemma same_roster_trans s1 s2 s3 : same_roster s1 s2 → same_roster s2 s3 → same_roster s1 s3.
Proof.
  intros [HR1 Hu1] [HR2 Hu2]. split; [intros pid; by rewrite HR2|]. intros i t Hi Ht.
  destruct (Hu2 i t Hi Ht) as (j & t2 & Hj & Ht2 & <-). by apply (Hu1 j).
Qed.

(** Another state for a thread. *)
Lemma put_thread_roster s c t t' :
  thread_at s c = Some t → is_user t' = is_user t → process_id t' = process_id t →
  same_roster s (put_thread c (Some t') s).
Proof.
  intros Hc Hu Hp. split; [done|]. intros i ti Hi Hui. rewrite thread_at_put in Hi by (by eapply thread_at_lt).
  case_decide; subst; simplify_eq; [|by exists i, ti]. exists i, t. by rewrite <-Hu, <-Hp.
Qed.

Lemma yield_isolated k m :
  kernel_ok k → yield_now (E:=()) (machine k) = Ok m → isolated k (with_machine m k).
Proof.
  intros Hk Hy. pose proof (ko_machine _ Hk) as Hm.
  destruct (machine_ok_current _ Hm) as (c & t & Hcur & Ht & _).
  destruct (yield_step (E:=()) (machine k) Hm) as (m' & Hy' & Hs).
  assert (m' = m) as -> by congruence. apply isolated_schedule; [done|apply Hs|].
  destruct (yield_spec (E:=()) (machine k) c t Hm Hcur Ht) as (n & tn & pn & _ & Hn & _ & Hp & [[_ Hr]|[Hne Hr]]).
  - assert (machine k = m) as <- by congruence. apply same_roster_refl.
  - assert (m = switched (machine k) (put_thread c (Some (set_state Runnable t)) (sched (machine k))) c n
      (set_state Runnable t) tn pn) as -> by congruence.
    pose proof (thread_at_lt _ _ _ Ht).
    apply (same_roster_trans _ (put_thread c (Some (set_state Runnable t)) (sched (machine k))));
      [by apply (put_thread_roster _ c t)|]. apply switched_roster; [..|done];
      rewrite thread_at_put by done; case_decide; congruence.
Qed.

(** The result of a wait. *)
Lemma spawn_resumed_isolated k :
  kernel_ok k →
  match spawn_resumed k with Ok (_, k') | Err (_, k') => isolated k k' | Panic | Hang => True end.
Proof.
  intros Hk. pose proof (ko_machine _ Hk) as Hm.
  destruct (machine_ok_current _ Hm) as (c & t & Hcur & Ht & Hrun & _).
  unfold spawn_resumed, wait_for_child_result. rewrite Hcur, (thread_Ok _ _ _ Ht). cbn [mbind outcome_bind].
  rewrite (thread_mut_put _ _ _ _ Ht). cbn [mbind outcome_bind].
  set (m := with_sched _ (machine k)).
  assert (isolated k (with_machine m k)) as Hiso.
  { apply isolated_schedule; [done|by apply (touch_step _ c t)|by apply (put_thread_roster _ c t)]. }
  destruct (take_wait_result t).1; exact Hiso.
Qed.

(** ** The end of a process *)

Lemma exited_roster m c t n tn tn' pn :
  thread_at (sched m) c = Some t → thread_at (sched m) n = Some tn → n ≠ c →
  is_Some (process_at (sched m) (process_id t)) → is_user tn' = is_user tn → process_id tn' = process_id tn →
  let s' := sched (exited m (process_id t) c n tn' pn) in
  (∀ j, roster s' j = if decide (process_id t = j) then None else roster (sched m) j) ∧
  ∀ i ti, thread_at s' i = Some ti → is_user ti = true →
    ∃ j tj, thread_at (sched m) j = Some tj ∧ is_user tj = true ∧ process_id tj = process_id ti.
Proof.
  intros Hc Hn Hne [p Hp] Hu Hpid s'. pose proof (thread_at_lt _ _ _ Hc). pose proof (thread_at_lt _ _ _ Hn).
  pose proof (process_at_lt _ _ _ Hp). split.
  - intros j. unfold roster.
    change (process_at s' j) with (process_at (put_process (process_id t) None (put_thread c None (sched m))) j).
    rewrite process_at_put by done. by case_decide.
  - intros i ti Hi Hui.
    change (thread_at s' i) with (thread_at (put_thread n (Some tn') (put_thread c None (sched m))) i) in Hi.
    rewrite thread_at_put in Hi by (cbn; by rewrite length_insert). case_decide; simplify_eq.
    + exists i, tn. by rewrite <-Hu, <-Hpid.
    + rewrite thread_at_put in Hi by done. case_decide; simplify_eq. by exists i, ti.
Qed.

Lemma release_pages_frame {E} k R o k' :
  memory_ok (mem k) R → (owned_len o ≤ length (pages o))%nat →
  Forall (λ p, is_frame p ∧ 0 < p) (program_pages o) → (∀ x, in_pages (program_pages o) x → ¬ claimed R x) →
  release_pages (E:=E) o k = Ok k' →
  memory_ok (mem k') R ∧ machine k' = machine k ∧ kernel_memory k' = kernel_memory k.
Proof.
  intros Hmem Hlen Hfr Hnot. unfold release_pages.
  pose proof (release_spec o (allocator (store (mem k))) (mo_paged _ _ Hmem) Hlen Hfr) as H. cbv zeta in H.
  destruct (owned_release o _) as [a| | |]; try done. destruct H as [Hp Hf]. intros [= <-].
  split_and!; [|done|done]. apply memory_frame; [done..|]. intros x Hx. split; [done|].
  rewrite Hf. intros [?|?]; [by eapply (mo_taken _ _ Hmem)|by eapply Hnot].
Qed.

Lemma exit_isolated k status d k' :
  kernel_ok k → in_user_thread (scheduler k) = true → do_exit k status = Ok (d, Some k') → isolated k k'.
Proof.
  intros Hk Hin. destruct (user_thread_runs k Hk Hin) as (pid & p & T & Hur).
  pose proof Hk as [Hm Hmem Hu]. pose proof (ur_running _ _ _ _ Hur) as Hrp.
  pose proof Hrp as [_ (c & t & Hc & Ht & Hpid) Hp _ _ _ _]. subst pid.
  assert (is_user t = true) as Hut
    by (unfold in_user_thread in Hin; rewrite Hc in Hin; cbn [mbind option_bind] in Hin; by rewrite Ht in Hin).
  unfold do_exit. destruct (exit_spec (machine k) c t p Hm Hc Ht Hut Hp (E:=()) status)
    as [[_ ->]|(_ & n & tn & tn' & pn & Hn & Hne & Htgt & Hpn & ->)]; [done|]. cbn [mbind outcome_bind].
  set (m := exited (machine k) (process_id t) c n tn' pn).
  intros (k1 & Hrel & [= <- <-])%bind_Ok.
  assert (is_user tn' = is_user tn ∧ process_id tn' = process_id tn) as [Htu Htp]
    by (unfold exit_target in Htgt; destruct (waiting_thread p); destruct Htgt as [? ?]; subst; done).
  destruct (exited_roster (machine k) c t n tn tn' pn Ht Hn Hne ltac:(by exists p) Htu Htp) as [HR Hus].
  fold m in HR, Hus.
  assert (roster (scheduler k) (process_id t) = Some (p_address_space p, owned_pages p)) as HRp
    by (unfold roster; by rewrite Hp).
  assert (∀ j y, roster (sched m) j = Some y → process_id t ≠ j ∧ roster (scheduler k) j = Some y) as Hsub
    by (intros j y; rewrite HR; by case_decide).
  destruct (mo_fits _ _ Hmem _ _ _ HRp) as [Hlen Hfr].
  assert (memory_ok (mem k) (roster (sched m))) as Hmem1
    by (apply (memory_sub _ (roster (scheduler k))); [done|]; intros j y Hj; by apply Hsub).
  assert (∀ x, in_pages (program_pages (owned_pages p)) x → ¬ claimed (roster (sched m)) x) as Hnot.
  { intros x Hx (j & a & o & Hj & Hx'). apply Hsub in Hj as [Hne' Hj]. apply Hne'. by eapply (mo_apart _ _ Hmem). }
  destruct (release_pages_frame (with_machine m k) _ _ k1 Hmem1 Hlen Hfr Hnot Hrel) as (Hmem' & Hmk & Hmm).
  assert (scheduler k1 = sched m) as Hs1 by (unfold scheduler; by rewrite Hmk).
  split.
  - split; [rewrite Hmk; by apply (exited_step (machine k) c t p Hm Hc Ht Hut Hp status n tn tn' pn)|by rewrite Hs1|].
    rewrite Hs1. intros i ti a o Hi Hui Hro. destruct (Hus i ti Hi Hui) as (j & tj & Hj & Huj & Hpj).
    rewrite <-Hpj in Hro. apply (Hu j tj a o Hj Huj). by apply Hsub in Hro as [_ ?].
  - intros j Hj a o Hro. rewrite Hs1, HR. rewrite decide_False.
    + split; [done|]. by rewrite Hmm.
    + intros <-. by rewrite (running_pid_runs _ _ _ Hrp) in Hj.
Qed.

(** ** The start of a process *)

Lemma cwd_not_Err {E} p e : cwd (E:=E) p ≠ Err e.
Proof. unfold cwd, slice. by case_decide. Qed.

Lemma release_buffer_not_Err {E} b k e : release_buffer (E:=E) b k ≠ Err e.
Proof. unfold release_buffer. by destruct (buffer_release _ _). Qed.

Lemma release_pages_not_Err {E} o k e : release_pages (E:=E) o k ≠ Err e.
Proof. unfold release_pages. by destruct (owned_release _ _). Qed.

Lemma own_space_nonempty s root pgs T : own_space s root pgs T → pgs ≠ [].
Proof.
  intros [[Htab _ _] Hin _ _] ->. destruct (in_pages_nil root). apply Hin. exists [], root.
  split; [apply (tb_root _ _ _ Htab)|]. unfold in_page, PAGE_SIZE. lia.
Qed.

(** A program loaded with the help of a buffer that has been given back. *)
Record fresh_program (st : MemoryState) (program : LoadedUserProgram) (st' : MemoryState) : Prop := {
  fp_quiet : quiet st st';
  fp_fits : (owned_len (lp_owned_pages program) ≤ length (pages (lp_owned_pages program)))%nat;
  fp_frames : Forall (λ p, is_frame p ∧ 0 < p) (program_pages (lp_owned_pages program));
  fp_space : ∃ T, own_space (store st') (root_paddr (lp_address_space program))
               (program_pages (lp_owned_pages program)) T;
  fp_new : ∀ R x, memory_ok st R → in_pages (program_pages (lp_owned_pages program)) x →
    ¬ free_in (store st') x ∧ ¬ claimed R x
}.

(** The roster with a new process. *)
Definition joined (k : Kernel) (q : ProcessId) (program : LoadedUserProgram) (s : SchedulerState) : Prop :=
  process_at (scheduler k) q = None ∧
  (∀ j, roster s j = if decide (q = j) then Some (lp_address_space program, lp_owned_pages program)
                     else roster (scheduler k) j) ∧
  ∀ i t', thread_at s i = Some t' → is_user t' = true → process_id t' = q ∨
    ∃ j t, thread_at (scheduler k) j = Some t ∧ is_user t = true ∧ process_id t = process_id t'.

Lemma joined_isolated k program st' q m :
  kernel_ok k → fresh_program (mem k) program st' → machine_ok m → joined k q program (sched m) →
  isolated k (with_machine m (with_mem st' k)).
Proof.
  intros [_ Hmem Hu] [Hq Hlen Hfr [T HT] Hnew] Hm (Hfree & HR & Hus).
  assert (roster (scheduler k) q = None) as Hq0 by (unfold roster; by rewrite Hfree).
  split; [split; [done| |]|].
  - apply (memory_add _ (roster (scheduler k)) _ q (lp_address_space program) (lp_owned_pages program) T);
      [by apply (memory_quiet (mem k))| |done|done|done|intros x Hx; by apply Hnew].
    intros j y. change (roster (scheduler (with_machine m (with_mem st' k))) j) with (roster (sched m) j).
    rewrite HR. case_decide; [|by left]. intros [= <-]. by right.
  - intros i t a o Hi Hui. change (roster (scheduler (with_machine m (with_mem st' k)))) with (roster (sched m)).
    rewrite HR. case_decide as Hd; [intros [= <- <-]; by eapply own_space_nonempty|].
    destruct (Hus i t Hi Hui) as [?|(j & t0 & Hj & Hu0 & <-)]; [congruence|]. by apply (Hu j).
  - intros j Hj a o Hro. change (roster (scheduler (with_machine m (with_mem st' k)))) with (roster (sched m)).
    rewrite HR, decide_False by congruence. split; [done|]. intros x Hx.
    destruct Hq as (a' & m' & -> & _ & Hq). apply Hq, (mo_taken _ _ Hmem). by exists j, a, o.
Qed.

(** Loading a file that was read into a buffer, which is then given back. *)
Lemma load_through_buffer {E} st R k st1 file startup program st2 k' :
  memory_ok st R → quiet st st1 → buffer_held st file st1 → bytes_ok (as_slice (memory (store st1)) file) →
  load_user_program st1 (as_slice (memory (store st1)) file) startup = Ok (program, st2) →
  release_buffer (E:=E) file (with_mem st2 k) = Ok k' →
  ∃ st', k' = with_mem st' k ∧ fresh_program st program st'.
Proof.
  intros Hmem Hq1 Hb Hby Hl Hrel.
  pose proof (memory_quiet _ _ _ Hmem Hq1) as [Hcf1 Hx1 Hp1 Ho1 _ _ _ _].
  pose proof (load_quiet st1 _ startup Hcf1 Hx1 Ho1 Hp1 Hby) as Hload. rewrite Hl in Hload.
  destruct Hload as (Hq2 & Hlen & Hfr & [T HT] & Hnew).
  assert (quiet st st2) as Hq12 by (by eapply quiet_trans).
  assert (∀ x, buffer_range file x → ¬ free_in (store st2) x) as Hheld.
  { intros x Hx. destruct Hq2 as (a & m & -> & _ & Hq2). by apply Hq2, (bh_is _ _ _ Hb). }
  destruct (release_buffer_quiet st st1 file (with_mem st2 k) k' Hb Hq12 Hheld Hrel)
    as (st' & -> & Hq & Hmm & Hf).
  exists st'. split; [done|].
  assert (∀ x, in_pages (program_pages (lp_owned_pages program)) x → ¬ free_in (store st') x) as Hnf.
  { intros x Hx. destruct (Hnew x Hx) as [H1 H2]. rewrite Hf. intros [?|?]; [by eapply (bh_is _ _ _ Hb)|done]. }
  split; [done|done|done| |].
  - exists T. apply (own_space_frame (store st2)); [done|by intros; rewrite Hmm| |done].
    by destruct Hq as (a & m & -> & ? & _).
  - intros R' x HR Hx. split; [by apply Hnf|]. intros Hcl. apply (mo_taken _ _ HR) in Hcl.
    destruct (Hnew x Hx) as [H1 _]. destruct Hq1 as (a & m & -> & _ & Hq1). by apply (Hq1 x Hcl).
Qed.

(** The memory before the first process. *)
Lemma memory_empty st :
  config_ok st → extras_apart st → paged (2 ^ 52) (allocator (store st)) → owned (store st) = None →
  memory_ok st (λ _, None).
Proof. intros Hcf Hx Hp Ho. split; try done. by intros x (? & ? & ? & ? & _). Qed.

(** A program loaded from bytes that lie elsewhere. *)
Lemma load_fresh st R file startup program st' :
  memory_ok st R → bytes_ok file → load_user_program st file startup = Ok (program, st') →
  fresh_program st program st'.
Proof.
  intros Hmem Hf Hl. pose proof (load_quiet st file startup (mo_config _ _ Hmem) (mo_extras _ _ Hmem)
    (mo_builder _ _ Hmem) (mo_paged _ _ Hmem) Hf) as H. rewrite Hl in H.
  destruct H as (Hq & Hlen & Hfr & HT & Hnew). split; [done..|]. intros R' x HR Hx. split; [by apply Hnew|].
  intros Hcl. apply (mo_taken _ _ HR) in Hcl. destruct (Hnew x Hx) as [H1 _]. by apply Hcl.
Qed.

Section Spawn.
Context (read_sector : Z → Fat32.res (list Z)) (fuel : nat).
Context (Hbytes : ∀ lba, ensures (read_sector lba) bytes_ok).
Context (stack_end : nat → Z) (trampoline : Z) (Hstacks : stacks_placed stack_end).
Context (k : Kernel) (c : nat) (t : Thread) (p : Process) (Hk : kernel_ok k).
Context (Hc : current_thread (scheduler k) = Some c) (Ht : thread_at (scheduler k) c = Some t).
Context (Hut : is_user t = true) (Hp : process_at (scheduler k) (process_id t) = Some p).

(** From the child's tables to the switch away from the parent. *)
Lemma spawned_joined program silent q s' :
  spawn_child_process stack_end trampoline (E:=SpawnError * Kernel) (scheduler k) c program silent = Ok (inl q, s') →
  ∃ m, wait_for_child (E:=SpawnError * Kernel) (with_sched s' (machine k)) q = Ok (true, m) ∧
    machine_ok m ∧ joined k q program (sched m).
Proof.
  pose proof (ko_machine _ Hk) as Hm. pose proof Hm as [[Hsz Htab] _].
  assert (proc_ok p) as Hpok by (by apply (ok_process _ _ _ _ Htab) in Hp as []).
  destruct (spawn_spec stack_end trampoline Hstacks (E:=SpawnError * Kernel) (scheduler k) c t p program silent
    Hsz Ht Hp Hpok) as [[-> _]|(q' & i & child & ctx & top & ss & s1 & Hq & Hi & Hch & Hss & -> & _ & ->)]; [done|].
  intros [= <- <-]. set (ti := Thread_new i "user-child-main" q' _ ctx top).
  destruct (spawn_wait_spec (machine k) c t Hm Hc Ht Hut ss q' i child ti Hss Hq Hi (ch_id _ _ _ _ _ _ Hch)
    (ch_ok _ _ _ _ _ _ Hch) (ch_waiting _ _ _ _ _ _ Hch) (ch_action _ _ _ _ _ _ Hch) eq_refl eq_refl eq_refl eq_refl (E:=SpawnError * Kernel))
    as (n & tn & pn & _ & Hne & Hn & Hpn & Hw & Hs).
  exists (switched (machine k) (put_thread c (Some (block_for_child q' t)) (spawned ss q' i child ti (sched (machine k))))
    c n (block_for_child q' t) tn pn).
  split; [exact Hw|]. split; [apply Hs|].
  destruct (first_free_slot _ _ Hq) as [Hq0 Hql]. destruct (first_free_slot _ _ Hi) as [Hi0 Hil].
  pose proof (thread_at_lt _ _ _ Ht) as Hcl.
  set (s2 := put_thread c (Some (block_for_child q' t)) (spawned ss q' i child ti (sched (machine k)))) in *.
  assert (∀ j, thread_at s2 j = if decide (c = j) then Some (block_for_child q' t)
    else if decide (i = j) then Some ti else thread_at (scheduler k) j) as HT.
  { intros j. unfold s2. rewrite thread_at_put by (cbn; by rewrite length_insert). case_decide; [done|].
    unfold spawned. change (thread_at (with_stacks ?a ?b) j) with (thread_at b j). by rewrite thread_at_put. }
  destruct (switched_roster (machine k) s2 c n (block_for_child q' t) tn pn) as [HR Hus]; [|done|done|].
  { by rewrite HT, decide_True. }
  split; [exact Hq0|]. split.
  - intros j. rewrite HR. unfold roster.
    change (process_at s2 j) with (process_at (put_process q' (Some child) (scheduler k)) j).
    rewrite process_at_put by done. case_decide; [|done]. cbn.
    by rewrite (ch_space _ _ _ _ _ _ Hch), (ch_pages _ _ _ _ _ _ Hch).
  - intros j t' Hj Hu'. destruct (Hus j t' Hj Hu') as (l & tl & Hl & Hul & <-). rewrite HT in Hl.
    repeat case_decide; simplify_eq; [right; by exists l, t|by left|right; by exists l, tl].
Qed.

Lemma spawn_outcome program silent :
  let r := spawn_child_process stack_end trampoline (E:=SpawnError * Kernel) (scheduler k) c program silent in
  r = Ok (inr program, scheduler k) ∨ ∃ q s', r = Ok (inl q, s').
Proof.
  pose proof (ko_machine _ Hk) as [[Hsz Htab] _].
  assert (proc_ok p) as Hpok by (by apply (ok_process _ _ _ _ Htab) in Hp as []).
  destruct (spawn_spec stack_end trampoline Hstacks (E:=SpawnError * Kernel) (scheduler k) c t p program silent
    Hsz Ht Hp Hpok) as [[-> _]|(q' & i & child & ctx & top & ss & s1 & _ & _ & _ & _ & _ & _ & ->)]; [by left|].
  right. by eexists _, _.
Qed.

(** A child without room: its program is given back. *)
Lemma returned_isolated {E} program st' k' :
  fresh_program (mem k) program st' →
  release_pages (E:=E) (lp_owned_pages program) (with_scheduler (scheduler k) (with_mem st' k)) = Ok k' →
  isolated k k'.
Proof.
  intros [Hq Hlen Hfr _ Hnew] Hrel. pose proof Hk as [Hm Hmem Hu].
  pose proof (isolated_quiet k st' Hk Hq) as [[_ Hmem' _] Hun].
  destruct (release_pages_frame (with_scheduler (scheduler k) (with_mem st' k)) (roster (scheduler k)) _ k'
    Hmem' Hlen Hfr (λ x Hx, proj2 (Hnew _ x Hmem Hx)) Hrel) as (Hmem2 & Hmk & Hmm).
  assert (machine k' = machine k) as Hmk'
    by (rewrite Hmk; change (with_sched (sched (machine k)) (machine k) = machine k); by destruct (machine k)).
  assert (scheduler k' = scheduler k) as Hs by (unfold scheduler; by rewrite Hmk').
  split; [split; [by rewrite Hmk'|by rewrite Hs|by rewrite Hs]|].
  intros j Hj a o Hro. rewrite Hs, Hmm. by apply (Hun j Hj).
Qed.

Lemma spawn_isolated path argv silent :
  match spawn_and_block read_sector fuel stack_end trampoline k path argv silent with
  | Ok k' | Err (_, k') => isolated k k'
  | Panic | Hang => True
  end.
Proof.
  pose proof (isolated_refl k Hk) as Hrefl. pose proof (ko_memory _ Hk) as Hmem.
  unfold spawn_and_block, spawn_child. unfold process_of. rewrite Hc. cbn [ok_or mbind outcome_bind].
  rewrite (thread_Ok _ _ _ Ht). cbn [mbind outcome_bind]. rewrite (process_Ok _ _ _ Hp). cbn [mbind outcome_bind].
  destruct (cwd p) as [cw|[e k1]| |] eqn:Hcw; cbn [mbind outcome_bind]; [|by destruct (cwd_not_Err p _ Hcw)|done..].
  destruct (resolve cw path) as [name|e| |]; cbn [map_err mbind outcome_bind]; try done.
  pose proof (read_root_file_quiet read_sector fuel Hbytes (root_fs k) (mem k) name (mo_builder _ _ Hmem)
    (mo_paged _ _ Hmem)) as Hfile.
  destruct (read_root_file _ _ _ _ name) as [[file st1]|[e st1]| |]; cbn [map_err mbind outcome_bind]; try done;
    [|by apply isolated_quiet].
  destruct Hfile as (Hq1 & Hb & Hby).
  pose proof (memory_quiet _ _ _ Hmem Hq1) as [Hcf1 Hx1 Hp1 Ho1 _ _ _ _].
  pose proof (load_quiet st1 _ (mkStartup name argv) Hcf1 Hx1 Ho1 Hp1 Hby) as Hload.
  destruct (load_user_program st1 _ _) as [[program st2]|[e st2]| |] eqn:Hl; cbn [mbind outcome_bind]; try done.
  - destruct (release_buffer file (with_mem st2 k)) as [k1|[e k1]| |] eqn:Hrel; cbn [mbind outcome_bind]; try done.
    2: { by destruct (release_buffer_not_Err _ _ _ Hrel). }
    destruct (load_through_buffer (mem k) _ k st1 file (mkStartup name argv) program st2 k1 Hmem Hq1 Hb Hby Hl Hrel)
      as (st' & -> & Hfresh).
    change (scheduler (with_mem st' k)) with (scheduler k).
    pose proof (spawn_outcome program silent) as Hsame.
    destruct (spawn_child_process _ _ (scheduler k) c program silent) as [[[q|program'] s']|[e k1]| |] eqn:Hsp;
      cbn [mbind outcome_bind]; try done.
    + destruct (spawned_joined program silent q s' Hsp) as (m & Hw & Hm & Hj).
      change (machine (with_scheduler s' (with_mem st' k))) with (with_sched s' (machine k)). rewrite Hw.
      cbn [mbind outcome_bind]. by apply (joined_isolated k program st' q m).
    + destruct Hsame as [[= -> ->]|(q & s2 & ?)]; [|done].
      destruct (release_pages _ _) as [k1|[e k1]| |] eqn:Hrp; cbn [mbind outcome_bind]; try done.
      * by eapply returned_isolated.
      * by destruct (release_pages_not_Err _ _ _ Hrp).
    + by destruct Hsame as [?|(q & s2 & ?)].
  - destruct (release_buffer file (with_mem st2 k)) as [k1|[e' k1]| |] eqn:Hrel; cbn [mbind outcome_bind]; try done.
    2: { by destruct (release_buffer_not_Err _ _ _ Hrel). }
    assert (quiet (mem k) st2) as Hq12 by (by eapply quiet_trans).
    assert (∀ x, buffer_range file x → ¬ free_in (store st2) x) as Hheld.
    { intros x Hx. destruct Hload as (a & m & -> & _ & Hq2). by apply Hq2, (bh_is _ _ _ Hb). }
    destruct (release_buffer_quiet (mem k) st1 file (with_mem st2 k) k1 Hb Hq12 Hheld Hrel) as (st' & -> & Hq & _).
    exact (isolated_quiet k st' Hk Hq).
Qed.

End Spawn.

(** ** Traps *)

Section System.
Context (partial : list Z → list Z) (read_sector : Z → Fat32.res (list Z)) (fuel : nat).
Context (stack_end : nat → Z) (trampoline : Z).
Context (Hpart : ∀ b, length (partial b) = length b).
Context (Hbytes : ∀ lba, ensures (read_sector lba) bytes_ok) (Hstacks : stacks_placed stack_end).

Lemma finish_isolated k frame r d k' : serves k r → finish frame r = Ok (d, Some k') → isolated k k'.
Proof. intros Hs ([v k1] & Hr & [= _ <-])%bind_Ok. by apply Hs in Hr. Qed.

Lemma syscall_spawn_isolated k silent pa pl aa al frame d k' :
  kernel_ok k → in_user_thread (scheduler k) = true →
  finish_spawn frame (syscall_spawn read_sector fuel stack_end trampoline silent k pa pl aa al) = Ok (d, Some k') →
  isolated k k'.
Proof.
  intros Hk Hin. pose proof (isolated_refl k Hk) as Hrefl.
  destruct (user_thread_runs k Hk Hin) as (pid & p & T & Hur).
  pose proof (ur_running _ _ _ _ Hur) as [_ (c & t & Hc & Ht & <-) Hp _ _ _ _].
  assert (is_user t = true) as Hut
    by (unfold in_user_thread in Hin; rewrite Hc in Hin; cbn [mbind option_bind] in Hin; by rewrite Ht in Hin).
  intros ([v k1] & Hr & [= _ <-])%bind_Ok. unfold syscall_spawn in Hr.
  apply bind_Ok in Hr as ([path|] & _ & Hr); [|by injection Hr as _ <-].
  apply bind_Ok in Hr as ([argv|] & _ & Hr); [|by injection Hr as _ <-].
  pose proof (spawn_isolated read_sector fuel Hbytes stack_end trampoline Hstacks k c t p Hk Hc Ht Hut Hp
    path argv silent) as Hs.
  destruct (spawn_and_block _ _ _ _ _ path argv silent) as [k2|[e k2]| |]; try done; by injection Hr as _ <-.
Qed.

Lemma trap_isolated k frame cr2 d k' :
  kernel_ok k → in_user_thread (scheduler k) = true →
  rust_trap_entry partial read_sector fuel stack_end trampoline k frame cr2 = Ok (d, Some k') → isolated k k'.
Proof.
  intros Hk Hin. destruct (user_thread_runs k Hk Hin) as (pid & p & T & Hur). unfold rust_trap_entry.
  destruct (_ =? TRAP_SYSCALL).
  2: { destruct (_ || _); [|done]. destruct (from_user_mode frame); [|done].
    intros He. apply (isolated_terminal_l k (terminal (print_line (user_trap_line frame cr2) k))).
    by apply (exit_isolated _ 1 d); [apply isolated_terminal| |]. }
  unfold dispatch. generalize (f_rax frame) as n. intros n.
  destruct (n =? _); [apply finish_isolated; by eapply serves_read|].
  destruct (n =? _); [apply finish_isolated; by eapply serves_write|].
  destruct (n =? _).
  { intros (m & Hy & [= _ <-])%bind_Ok. by apply yield_isolated. }
  destruct (n =? _); [by apply exit_isolated|].
  destruct (n =? _); [by apply syscall_spawn_isolated|].
  destruct (n =? _); [by apply syscall_spawn_isolated|].
  destruct (n =? _); [apply finish_isolated; by eapply serves_read_dir|].
  destruct (n =? _); [apply finish_isolated; by eapply serves_chdir|].
  destruct (n =? _); [apply finish_isolated; by eapply serves_getcwd|].
  destruct (n =? _); [apply finish_isolated; by eapply serves_read_file|].
  destruct (n =? _); [apply finish_isolated; by eapply serves_get_env|].
  destruct (n =? _); [apply finish_isolated; by eapply serves_set_env|].
  destruct (n =? _); [apply finish_isolated; by eapply serves_unset_env|].
  destruct (n =? _); [apply finish_isolated; by eapply serves_list_env|].
  intros [= _ <-]. by apply isolated_refl.
Qed.

(** ** The system

    What happens next: the running program traps, or goes on after a call
    during which others ran, or stores a byte, or computes; a kernel thread
    yields; the terminal changes. *)
Inductive system_step (k : Kernel) : Kernel → Prop :=
| step_trap frame cr2 d k' :
    in_user_thread (scheduler k) = true →
    rust_trap_entry partial read_sector fuel stack_end trampoline k frame cr2 = Ok (d, Some k') →
    system_step k k'
| step_resume d frame frame' k' :
    in_user_thread (scheduler k) = true → resume d frame k = Ok (Some (frame', k')) → system_step k k'
| step_store va byte t :
    in_user_thread (scheduler k) = true → is_low va →
    translate (kernel_memory k) (active_root k) va = Some t → t_user t = true → t_writable t = true →
    system_step k
      (with_mem (settle (allocator (store (mem k))) (write_phys (kernel_memory k) (t_phys t) [byte]) (mem k)) k)
| step_compute registers :
    system_step k (with_machine (mkMachine (sched (machine k)) registers (active_space (machine k))
                                   (kernel_stack (machine k))) k)
| step_yield m : yield_now (E:=()) (machine k) = Ok m → system_step k (with_machine m k)
| step_terminal t : system_step k (with_terminal t k).

Lemma store_isolated k va byte t :
  kernel_ok k → in_user_thread (scheduler k) = true → is_low va →
  translate (kernel_memory k) (active_root k) va = Some t → t_user t = true →
  isolated k
    (with_mem (settle (allocator (store (mem k))) (write_phys (kernel_memory k) (t_phys t) [byte]) (mem k)) k).
Proof.
  intros Hk Hin Hlow Ht Hu. destruct (user_thread_runs k Hk Hin) as (pid & p & T & Hur).
  pose proof (ow_user _ _ _ _ (ur_space _ _ _ _ Hur) va t Hlow Ht Hu) as Hua.
  apply (store_bytes_isolated k pid p T va [byte]); [done|done| |].
  - intros va' Hva. assert (va' = va) as -> by (cbn in Hva; lia). split; [done|]. unfold kernel_view.
    rewrite Ht. by eexists.
  - cbn [store_bytes]. by rewrite Ht.
Qed.

Lemma system_step_isolated k k' : kernel_ok k → system_step k k' → isolated k k'.
Proof.
  intros Hk. destruct 1 as [frame cr2 d k' Hin Ht|d frame frame' k' Hin Hr|va byte t Hin Hlow Ht Hu _|registers|m Hy|t].
  - by eapply trap_isolated.
  - destruct d; cbn in Hr; [by injection Hr as _ <-; apply isolated_refl..| |done].
    apply bind_Ok in Hr as ([v k1] & Hv & [= _ <-]). unfold spawn_result in Hv.
    pose proof (spawn_resumed_isolated k Hk) as Hs.
    destruct (spawn_resumed k) as [[status k2]|[e k2]| |]; cbn in Hv; try done; by injection Hv as _ <-.
  - by apply (store_isolated k va byte t).
  - apply isolated_schedule; [done|apply Hk|apply same_roster_refl].
  - by apply yield_isolated.
  - by apply isolated_terminal.
Qed.

Lemma system_run_ok k k' : kernel_ok k → rtc system_step k k' → kernel_ok k'.
Proof.
  intros Hk H. induction H as [|k1 k2 k3 H12 _ IH]; [done|]. apply IH. by apply (system_step_isolated k1).
Qed.

End System.

(** ** The start *)

(** The kernel that [boot] leaves, with its first program loaded. *)
Definition booted_kernel stack_end trampoline space terminal_entry idle_entry registers
    (program : LoadedUserProgram) (st : MemoryState) (t : TerminalEndpoint) (fs : option Fat32) : Kernel :=
  mkKernel (booted stack_end trampoline space program terminal_entry idle_entry registers) st t fs.

Lemma booted_kernel_ok stack_end trampoline space terminal_entry idle_entry registers st program st' t fs :
  memory_ok st (λ _, None) → fresh_program st program st' →
  kernel_ok (booted_kernel stack_end trampoline space terminal_entry idle_entry registers program st' t fs).
Proof.
  intros Hempty [Hq Hlen Hfr [T HT] Hnew].
  set (k := booted_kernel _ _ _ _ _ _ _ _ _ _).
  assert (∀ j, roster (scheduler k) j =
    if decide (j = 0%nat) then Some (space, OwnedPages_empty)
    else if decide (j = 1%nat) then Some (lp_address_space program, lp_owned_pages program) else None) as HR.
  { intros [|[|j]]; [done..|]. unfold roster.
    destruct (process_at (scheduler k) (S (S j))) as [p|] eqn:Hj; [|done].
    apply (boot_process stack_end trampoline space program terminal_entry idle_entry registers) in Hj as [[|] _]; lia. }
  split.
  - apply booted_ok.
  - assert (memory_ok st' (λ j, if decide (j = 0%nat) then Some (space, OwnedPages_empty) else None)) as H0.
    { destruct (memory_quiet _ _ _ Hempty Hq) as [? ? ? ? _ _ _ _]. split; try done.
      - intros pid a o. case_decide; [|done]. intros [= <- <-]. by left.
      - intros pid a o. case_decide; [|done]. intros [= <- <-]. split; [cbn; lia|done].
      - intros x (pid & a & o & Hr & Hin). case_decide; [|done]. injection Hr as <- <-. by apply in_pages_nil in Hin.
      - intros pid pid' a a' o o' x Hr Hr' Hin. repeat case_decide; congruence. }
    apply (memory_add _ _ _ 1 (lp_address_space program) (lp_owned_pages program) T H0); [|done|done|done|].
    + intros j y. rewrite HR. repeat case_decide; [by left|intros [= <-]; by right|done].
    + intros x Hin0. split; [by eapply Hnew|]. intros (pid & a & o & Hr & Hin). case_decide; [|done].
      injection Hr as <- <-. by apply in_pages_nil in Hin.
  - intros i th a o Hi Hu. rewrite HR.
    apply (boot_thread stack_end trampoline space program terminal_entry idle_entry registers) in Hi as [Hc _].
    destruct Hc as [(_ & _ & _ & ?)|[(_ & _ & -> & _)|(_ & _ & _ & ?)]]; [congruence| |congruence].
    intros [= <- <-]. by eapply own_space_nonempty.
Qed.

(** * Properties *)

Section Reachable.
Context (partial : list Z → list Z) (read_sector : Z → Fat32.res (list Z)) (fuel : nat).
Context (stack_end : nat → Z) (trampoline : Z).
Context (space : AddressSpace) (terminal_entry idle_entry : Z) (registers : ThreadContext).
Context (st st' : MemoryState) (program : LoadedUserProgram).
Context (t : TerminalEndpoint) (fs : option Fat32).

Let step := system_step partial read_sector fuel stack_end trampoline.
Let k0 := booted_kernel stack_end trampoline space terminal_entry idle_entry registers program st' t fs.

(** What is known of the start (the first program was loaded into the memory of
    a kernel without processes, as [Startup] proves of the kernel's entry) and
    of the machine around the kernel. *)
Definition sound_start : Prop := memory_ok st (λ _, None) ∧ fresh_program st program st'.
Definition sound_machine : Prop :=
  (∀ b, length (partial b) = length b) ∧ (∀ lba, ensures (read_sector lba) bytes_ok) ∧ stacks_placed stack_end.

Lemma reachable_ok k : sound_start → sound_machine → rtc step k0 k → kernel_ok k.
Proof.
  intros [Hmem Hp] (Hpart & Hdisk & Hst). apply system_run_ok; [done..|]. by eapply booted_kernel_ok.
Qed.

Lemma reachable_space k pid p :
  kernel_ok k → process_at (scheduler k) pid = Some p → program_pages (owned_pages p) ≠ [] →
  roster (scheduler k) pid = Some (p_address_space p, owned_pages p) ∧
  ∃ T, own_space (store (mem k)) (root_paddr (p_address_space p)) (program_pages (owned_pages p)) T.
Proof.
  intros [_ Hmem _] Hp Hne. assert (roster (scheduler k) pid = Some (p_address_space p, owned_pages p)) as HR
    by (unfold roster; by rewrite Hp).
  split; [done|]. by destruct (mo_space _ _ Hmem _ _ _ HR).
Qed.

(** C1. Processes are isolated.  From the boot on, whatever the running
    program does (any trap with any registers, any store it is allowed, any
    computation) and whatever the scheduler and the kernel's threads do, a
    step leaves every process that was not running where it is, with its
    address space, every translation of it and every byte its program can
    read.  The file system is arbitrary; so are the programs. *)
Theorem process_isolation k k' pid p :
  sound_start → sound_machine → rtc step k0 k → step k k' →
  running_pid k ≠ Some pid → process_at (scheduler k) pid = Some p → program_pages (owned_pages p) ≠ [] →
  ∃ p', process_at (scheduler k') pid = Some p' ∧ p_address_space p' = p_address_space p ∧
    ∀ va, is_low va →
      let root := root_paddr (p_address_space p) in
      translate (kernel_memory k') root va = translate (kernel_memory k) root va ∧
      user_load (kernel_memory k') root va = user_load (kernel_memory k) root va.
Proof.
  intros Hstart Hmach Hrun Hstep Hpid Hp Hne. pose proof (reachable_ok k Hstart Hmach Hrun) as Hk.
  destruct Hmach as (Hpart & Hdisk & Hst).
  destruct (system_step_isolated _ _ _ _ _ Hpart Hdisk Hst k k' Hk Hstep) as [Hk' Hun].
  destruct (reachable_space k pid p Hk Hp Hne) as [HR [T HT]].
  destruct (Hun pid Hpid _ _ HR) as [HR' Hmem].
  unfold roster in HR'. apply bind_Some in HR' as (p' & Hp' & [= Ha Ho]). exists p'. split_and!; [done|done|].
  assert (∀ x, in_pages (program_pages (owned_pages p)) x → ¬ free_in (store (mem k')) x) as Hfree.
  { intros x Hx. apply (mo_taken _ _ (ko_memory _ Hk')). exists pid, (p_address_space p'), (owned_pages p').
    split; [unfold roster; by rewrite Hp'|by rewrite Ho]. }
  destruct (own_space_frame (store (mem k)) (store (mem k')) _ _ T HT Hmem
    (mo_paged _ _ (ko_memory _ Hk')) Hfree) as [_ Htr].
  intros va Hva root. split; [apply Htr|]. unfold user_load. rewrite !decide_True by done.
  change (kernel_memory k') with (memory (store (mem k'))).
  change (kernel_memory k) with (memory (store (mem k))). unfold root. rewrite Htr.
  destruct (translate (memory (store (mem k))) (root_paddr (p_address_space p)) va) as [tr|] eqn:Ht; [|done].
  cbn [mbind option_bind]. destruct (t_user tr) eqn:Hu; [|done].
  f_equal. apply Hmem, (ow_reach _ _ _ _ HT va); [|done]. by apply (ow_user _ _ _ _ HT va tr).
Qed.

(** C2. The memory of programs is apart.  In every state that the system
    reaches, a byte that some program can access is not free, lies in no page
    table of any program, and is accessible to no other program, nor to the
    same one at another address. *)
Theorem program_memory_apart k pid p va tr :
  sound_start → sound_machine → rtc step k0 k →
  process_at (scheduler k) pid = Some p → program_pages (owned_pages p) ≠ [] →
  is_low va → translate (kernel_memory k) (root_paddr (p_address_space p)) va = Some tr → t_user tr = true →
  ¬ free_in (store (mem k)) (t_phys tr) ∧
  ∀ pid' p', process_at (scheduler k) pid' = Some p' → program_pages (owned_pages p') ≠ [] →
    (∃ T, Paging.tables_ok T (root_paddr (p_address_space p')) (store (mem k)) ∧ ¬ in_tables T (t_phys tr)) ∧
    ∀ va' tr', is_low va' → translate (kernel_memory k) (root_paddr (p_address_space p')) va' = Some tr' →
      t_user tr' = true → t_phys tr' = t_phys tr → pid' = pid ∧ va' = va.
Proof.
  intros Hstart Hmach Hrun Hp Hne Hva Ht Hu. pose proof (reachable_ok k Hstart Hmach Hrun) as Hk.
  destruct (reachable_space k pid p Hk Hp Hne) as [HR [T HT]]. pose proof (ko_memory _ Hk) as Hmem.
  pose proof (ow_user _ _ _ _ HT va tr Hva Ht Hu) as Hua.
  pose proof (ow_reach _ _ _ _ HT va tr Hua Ht) as Hin. split; [apply (mo_taken _ _ Hmem); by eexists pid, _, _|].
  intros pid' p' Hp' Hne'. destruct (reachable_space k pid' p' Hk Hp' Hne') as [HR' [T' HT']].
  assert (∀ x, x = t_phys tr → in_pages (program_pages (owned_pages p')) x → pid' = pid) as Hsame.
  { intros x -> Hx. by eapply (mo_apart _ _ Hmem). }
  split.
  - exists T'. split; [apply HT'|]. intros Hx. pose proof (ow_tables _ _ _ _ HT' _ Hx) as Hx'.
    pose proof (Hsame _ eq_refl Hx') as ->. assert (p' = p) as -> by congruence.
    by apply (us_apart _ _ _ (ow_space _ _ _ _ HT') va tr).
  - intros va' tr' Hva' Ht' Hu' Heq. pose proof (ow_user _ _ _ _ HT' va' tr' Hva' Ht' Hu') as Hua'.
    pose proof (ow_reach _ _ _ _ HT' va' tr' Hua' Ht') as Hin'. pose proof (Hsame _ Heq Hin') as ->.
    split; [done|]. assert (p' = p) as -> by congruence.
    by apply (us_distinct _ _ _ (ow_space _ _ _ _ HT') va' va tr' tr).
Qed.

End Reachable.

(** ** A concrete system *)

Definition sample_booted_kernel (program : LoadedUserProgram) (st : MemoryState) : Kernel :=
  booted_kernel sample_stacks 4096 (mkSpace 0x1000) 1 2 ThreadContext_zeroed program st
    (TerminalEndpoint_new (mkSerial false [])) None.

(** The sample program loads and has pages. *)
Definition sample_loads : bool :=
  match load_user_program sample_state UserProgram.sample_program sample_startup with
  | Ok (program, st') => negb (bool_decide (program_pages (lp_owned_pages program) = []))
  | _ => false
  end.

Lemma sample_start :
  ∃ program st', sound_start sample_state st' program ∧
    program_pages (lp_owned_pages program) ≠ [] ∧
    ∃ tr, translate (memory (store st')) (root_paddr (lp_address_space program)) 0x400000 = Some tr ∧ t_user tr = true.
Proof.
  assert (sample_loads = true) as H by (vm_compute; reflexivity). unfold sample_loads in H.
  destruct (load_user_program sample_state UserProgram.sample_program sample_startup) as [[program st']|e| |] eqn:Hl;
    try discriminate H.
  apply negb_true_iff, bool_decide_eq_false in H.
  exists program, st'. destruct sample_state_ok as (Hcf & Hp & Ho & Hf).
  pose proof (memory_empty sample_state Hcf (List.Forall_nil _) Hp Ho) as Hmem.
  split; [exact (conj Hmem (load_fresh _ _ _ _ _ _ Hmem Hf Hl))|]. split; [exact H|].
  destruct (sample_translate program st' 0x400000 false 1 Hl ltac:(reflexivity) ltac:(vm_compute; reflexivity))
    as (phys & Ht & _).
  exists (mkTranslation phys true false). exact (conj Ht eq_refl).
Qed.

Lemma sample_machine : sound_machine id (λ _, Ok []) sample_stacks.
Proof. split_and!; [done|intros lba l [= <-]; constructor|exact sample_stacks_placed]. Qed.

Lemma process_isolation_witness :
  ∃ program st' m, yield_now (E:=()) (machine (sample_booted_kernel program st')) = Ok m ∧
    ∃ p', process_at (sched m) 1 = Some p' ∧ p_address_space p' = lp_address_space program.
Proof.
  destruct sample_start as (program & st' & Hstart & Hne & _).
  destruct (yield_step (E:=()) (machine (sample_booted_kernel program st')) (booted_ok sample_stacks 4096 (mkSpace 0x1000) program 1 2 ThreadContext_zeroed))
    as (m & Hy & _).
  exists program, st', m. split; [exact Hy|].
  destruct (process_isolation id (λ _, Ok []) 0 sample_stacks 4096 (mkSpace 0x1000) 1 2 ThreadContext_zeroed
    sample_state st' program (TerminalEndpoint_new (mkSerial false [])) None
    (sample_booted_kernel program st') (with_machine m (sample_booted_kernel program st')) 1
    (boot_user_process program) Hstart sample_machine (rtc_refl _ _)
    (step_yield _ _ _ _ _ _ m Hy) ltac:(discriminate) eq_refl Hne) as (p' & Hp' & Ha & _).
  exists p'. split; [exact Hp'|exact Ha].
Defined.

Lemma program_memory_apart_witness :
  ∃ program st' tr, translate (memory (store st')) (root_paddr (lp_address_space program)) 0x400000 = Some tr ∧
    ¬ free_in (store st') (t_phys tr).
Proof.
  destruct sample_start as (program & st' & Hstart & Hne & tr & Htr & Hu).
  exists program, st', tr. split; [exact Htr|].
  destruct (program_memory_apart id (λ _, Ok []) 0 sample_stacks 4096 (mkSpace 0x1000) 1 2 ThreadContext_zeroed
    sample_state st' program (TerminalEndpoint_new (mkSerial false [])) None
    (sample_booted_kernel program st') 1 (boot_user_process program) 0x400000 tr Hstart sample_machine
    (rtc_refl _ _) eq_refl Hne ltac:(split; [discriminate|reflexivity]) Htr Hu) as [Hf _].
  exact Hf.
Defined.
