(* ===== verification/Startup.v ===== *)
(** * The kernel's entry point ([kernel/kernel/src/main.rs])

    [kernel_main] puts the parts together: memory, descriptor tables, the
    serial port, the console, power control, the root filesystem, the first
    program and the scheduler, with the panic handler that shows what went
    wrong.  The theorems follow the state of each part from the boot
    information to the first switch. *)

From stdpp Require Import gmap relations pretty.
From S2P Require Import Selftest Prelude Bytes Errors Queues Keyboard Terminal Serial Allocator Process Paging KernelSpace.
From S2P Require Import Font Console Power Pci Ahci Loader UserProgram Fat32 Gpt RootFs Storage Sched Services Syscall Arch Isolation.

Local Open Scope Z_scope.

(** ** Printing ([macros.rs], [console.rs]) *)

(** What the kernel prints to: the serial log and the screen. *)
Record Output := mkOutput { log : Serial; screen : ConsoleCell }.

(** [core::fmt] hands the console one piece of text after the other. *)
Definition write_fmt (pieces : list (list Z)) (o : Output) : outcome () Output :=
  match try_lock (screen o) with
  | None => Ok o
  | Some guard =>
      c ← expect (console guard);
      '(s, c) ← for_each (λ '(s, c) piece, write_str s c piece) (log o, c) pieces;
      Ok (mkOutput s (unlock (mkCell (initialized guard) (locked guard) (Some c))))
  end.

Definition kprintln (pieces : list (list Z)) (o : Output) : outcome () Output :=
  write_fmt (pieces ++ [[10]]) o.

Definition clear_screen (o : Output) : outcome () Output :=
  cell ← console_clear (screen o); Ok (mkOutput (log o) cell).

Definition pixel_format_name (format : PixelFormat) : list Z :=
  match format with
  | Rgb => ascii "rgb"
  | Bgr => ascii "bgr"
  | UnknownFormat => ascii "unknown"
  end.

(** ** What can stop the start *)

(** The kernel halts without a word, or it panics with a message. *)
Inductive StartError := Halted | Panicked (message : list (list Z)).

(** An error comes with what was printed before it. *)
Abbreviation started := (outcome (StartError * Output)).

(** [unwrap_or_else(|error| panic!(..))]; a panic inside the code (an index out
    of range, an [expect], an addition that is checked) ends in the same
    handler, with a message of the language's library: [core_text]. *)
Definition or_panic {E A} (core_text : list (list Z)) (o : Output) (message : E → list (list Z)) (m : outcome E A) : started A :=
  match m with
  | Ok a => Ok a
  | Err e => Err (Panicked (message e), o)
  | Panic => Err (Panicked core_text, o)
  | Hang => Hang
  end.

(** Code without errors of its own. *)
Definition infallible {A} (core_text : list (list Z)) (o : Output) (m : outcome () A) : started A :=
  or_panic core_text o (λ _, core_text) m.

(** [panic]: the handler, up to the halt. *)
Definition panic (message : list (list Z)) (o : Output) : outcome () Output :=
  o ← clear_screen o;
  o ← kprintln [ascii "lazers panic"] o;
  o ← kprintln message o;
  kprintln [ascii "kernel halted"] o.

(** The end of [exit_current_process] when the process is the one that stops
    the system ([ProcessExit::Shutdown], where [Sched.exit_current_process] has
    no machine left): [flush_primary_output], then [power::shutdown] up to its
    halt.  The first component has the 16-bit port writes; what follows them is
    printed only when they did not turn the machine off. *)
Definition shut_down (power : PowerBackend) (t : TerminalEndpoint) (cell : ConsoleCell)
    : outcome () (list (Z * Z) * Output) :=
  '(t, cell) ← flush_output console_write_terminal_byte t cell;
  let '(writes, reason) := Power.shutdown power in
  o ← kprintln [ascii "shutdown unavailable: "; reason] (mkOutput (Terminal.serial t) cell);
  Ok (writes, o).

(** ** The messages *)

Definition hello : list (list Z) := [ascii "Welcome to lazers !!"].
Definition screen_line (fb : FramebufferInfo) : list (list Z) :=
  [ascii "Using screen of "; decimal (fb_width fb); ascii "x"; decimal (fb_height fb); ascii " "; pixel_format_name (fb_format fb)].
Definition memory_failure (e : MemoryError) : list (list Z) := [ascii "memory init failed: "; ascii (memory_error_as_str e)].
Definition mount_failure (e : StorageError) : list (list Z) :=
  [ascii "failed to mount root filesystem: "; ascii (storage_error_as_str e)].
Definition read_failure (path : list Z) (e : StorageError) : list (list Z) :=
  [ascii "failed to read "; path; ascii ": "; ascii (storage_error_as_str e)].
Definition load_failure (path : list Z) (e : MemoryError) : list (list Z) :=
  [ascii "failed to load "; path; ascii ": "; ascii (memory_error_as_str e)].

(** The first lines on a clear screen, and the start of the session below them. *)
Definition greet (fb : FramebufferInfo) (o : Output) : outcome () Output :=
  o ← clear_screen o;
  o ← kprintln hello o;
  o ← kprintln (screen_line fb) o;
  cell ← console_begin_terminal_session (screen o);
  Ok (mkOutput (log o) cell).

(** ** The running system *)

(** What stands when the disk is attached. *)
Record Board {Dev : Type} := mkBoard {
  bd_memory : MemoryState;
  bd_arch : ArchState * (DescriptorTablePointer * DescriptorTablePointer);
  bd_output : Output;
  bd_power : PowerBackend;
  bd_controller : AhciController;
  bd_device : Dev;
  bd_root : Z
}.
#[global] Arguments Board : clear implicits.
#[global] Arguments mkBoard {Dev}.

Record System {Dev : Type} := mkSystem {
  sy_board : Board Dev;
  sy_kernel : Kernel;
  sy_screen : ConsoleCell
}.
#[global] Arguments System : clear implicits.
#[global] Arguments mkSystem {Dev}.

Section Main.
Context {Dev : Type} (outb : Z → Z → Dev → Dev) (inb : Z → Dev → Z * Dev).
Context (outl : Z → Z → Dev → Dev) (inl_ : Z → Dev → Z * Dev).
Context (read32 : Z → Dev * Memory → Z * (Dev * Memory)) (write32 : Z → Z → Dev * Memory → Dev * Memory).
(** Where the linker put the image and the tables, and the compile-time
    choice of the first program. *)
Context (kernel_image : option (Z * Z)) (layout : Layout) (configured : option (list Z)) (core_text : list (list Z)).

Definition INITIAL_USER_PROGRAM : list Z := default (ascii "/system/bin/lash") configured.

(** The entry point up to the attached disk. *)
Definition bring_up (m : Memory) (pixels : Pixels) (d : Dev) (boot_info : option BootInfo) : started (Board Dev) :=
  let o := mkOutput (mkSerial false []) ConsoleCell_new in
  boot_info ← ok_or boot_info (Halted, o);
  if negb (has_valid_header boot_info) || negb (is_usable (KernelSpace.framebuffer boot_info)) then Err (Halted, o)
  else
    '(st, _) ← or_panic core_text o memory_failure
      (KernelSpace.init kernel_image (MemoryState_new m) boot_info);
    let arch := Arch.init layout ArchState_new in
    let '(ready, d) := Serial.init outb inb d in
    let fb := KernelSpace.framebuffer boot_info in
    let o := mkOutput (mkSerial ready []) (console_init (screen o) fb pixels) in
    '(power, st) ← infallible core_text o (Power.init kernel_map_range kernel_physical st (acpi_rsdp_addr boot_info));
    o ← infallible core_text o (greet fb o);
    '(c, d, st, root) ← or_panic core_text o mount_failure (attach_disk outl inl_ read32 write32 d st);
    Ok (mkBoard st arch o power c d root).

(** The sectors of the disk behind the controller.  Reading one leaves the disk
    and everything but the controller's own pages as they are
    ([Storage.attached_disk_reads]), so each is read from the state in which
    the disk was attached. *)
Definition sectors (b : Board Dev) (lba : Z) : Fat32.res (list Z) :=
  '(bytes, _) ← Ahci.read_sector read32 write32 (bd_controller b) lba (bd_device b, memory (store (bd_memory b)));
  Ok bytes.

Context (fuel : nat).

(** [KernelBuffer::release] *)
Definition give_back {E} (b : KernelBuffer) (st : MemoryState) : outcome E MemoryState :=
  match buffer_release b (allocator (store st)) with
  | Ok a => Ok (settle a (memory (store st)) st)
  | _ => Panic
  end.

Definition load_user_program_from_disk (read_sector : Z → Fat32.res (list Z)) (o : Output) (fs : Fat32) (st : MemoryState) (path : list Z)
    : started (LoadedUserProgram * MemoryState) :=
  '(program_bytes, st) ← or_panic core_text o (λ '(e, _), read_failure path e)
    (read_root_file read_sector fuel (Some fs) st path);
  '(program, st) ← or_panic core_text o (λ '(e, _), load_failure path e)
    (load_user_program st (as_slice (memory (store st)) program_bytes) (mkStartup path []));
  st ← infallible core_text o (give_back program_bytes st);
  Ok (program, st).

Context (stack_end : nat → Z) (trampoline : Z) (terminal_entry idle_entry : Z) (registers : ThreadContext).

(** The first Rust function of the kernel, up to the switch to the first
    thread.  The empty line is printed between the creation of two threads. *)
Definition kernel_main (m : Memory) (pixels : Pixels) (d : Dev) (boot_info : option BootInfo) : started (System Dev) :=
  b ← bring_up m pixels d boot_info;
  let o := bd_output b in
  fs ← or_panic core_text o mount_failure (mount_system (sectors b));
  '(program, st) ← load_user_program_from_disk (sectors b) o fs (bd_memory b) INITIAL_USER_PROGRAM;
  space ← or_panic core_text o (λ e : MemoryError, [ascii (memory_error_as_str e)]) (kernel_address_space st);
  o ← infallible core_text o (kprintln [] o);
  machine ← infallible core_text o (boot stack_end trampoline space program terminal_entry idle_entry registers);
  machine ← ok_or machine (Halted, o);
  Ok (mkSystem b (mkKernel machine st (TerminalEndpoint_new (log o)) (Some fs)) (screen o)).

(** With the panic handler behind it: the system, or what is on the serial
    line and the screen when the kernel has halted.  Nothing catches a panic
    of the handler itself. *)
Definition run (m : Memory) (pixels : Pixels) (d : Dev) (boot_info : option BootInfo) : outcome () (System Dev + Output) :=
  match kernel_main m pixels d boot_info with
  | Ok system => Ok (inl system)
  | Err (Halted, o) => Ok (inr o)
  | Err (Panicked message, o) => o ← panic message o; Ok (inr o)
  | Panic => Panic
  | Hang => Hang
  end.

End Main.

(** ** Specification: what is shown *)

(** The screen of a framebuffer after more bytes. *)
Definition on_screen (fb : FramebufferInfo) (t : Text) (bytes : list Z) : Text :=
  foldl (text_byte (usable_columns (Z.to_nat (fb_width fb))) (usable_rows (visible_height_pixels fb) `min` MAX_TRACKED_ROWS)) t bytes.

(** The console is free and shows the text; [s] is the serial log. *)
Definition shows (fb : FramebufferInfo) (o : Output) (s : Serial) (t : Text) : Prop :=
  ∃ c, screen o = mkCell true false (Some c) ∧ log o = s ∧ renders c t ∧
    settings c = settings (FramebufferConsole_new fb DEFAULT_FOREGROUND DEFAULT_BACKGROUND (λ _, 0)).

Definition line_of (pieces : list (list Z)) : list Z := concat pieces ++ [10].

(** The two lines of the start, and what a panic leaves on the screen. *)
Definition welcome (fb : FramebufferInfo) : list Z := line_of hello ++ line_of (screen_line fb).
Definition report (message : list (list Z)) : list Z :=
  line_of [ascii "lazers panic"] ++ line_of message ++ line_of [ascii "kernel halted"].

(** * Lemmas *)

(** ** Printing *)

Lemma write_str_spec s c t text : renders c t →
  ∃ c', write_str s c text = Ok (foldl serial_write_byte s text, c') ∧ settings c' = settings c ∧
    renders c' (foldl (text_byte (columns c) (rows c)) t text).
Proof.
  revert s c t. induction text as [|b text IH]; intros s c t Hr; [by exists c|].
  unfold write_str. cbn [for_each foldl]. destruct (byte_spec c t b Hr) as (c1 & -> & Hs & Hr1). cbn [mbind outcome_bind].
  destruct (IH (serial_write_byte s b) c1 _ Hr1) as (c' & Hc & Hs' & Hr'). exists c'. injection Hs as Hf Hfg Hbg Hvh Hcol Hrow.
  split_and!; [exact Hc|rewrite Hs'; unfold settings; congruence|by rewrite Hcol, Hrow in Hr'].
Qed.

Lemma write_pieces_spec s c t pieces : renders c t →
  ∃ c', for_each (λ '(s, c) piece, write_str s c piece) (s, c) pieces = Ok (foldl serial_write_byte s (concat pieces), c') ∧
    settings c' = settings c ∧ renders c' (foldl (text_byte (columns c) (rows c)) t (concat pieces)).
Proof.
  revert s c t. induction pieces as [|piece pieces IH]; intros s c t Hr; [by exists c|]. cbn [for_each concat].
  destruct (write_str_spec s c t piece Hr) as (c1 & -> & Hs & Hr1). cbn [mbind outcome_bind].
  destruct (IH (foldl serial_write_byte s piece) c1 _ Hr1) as (c' & Hc & Hs' & Hr'). exists c'.
  injection Hs as Hf Hfg Hbg Hvh Hcol Hrow. rewrite !foldl_app.
  split_and!; [exact Hc|rewrite Hs'; unfold settings; congruence|by rewrite Hcol, Hrow in Hr'].
Qed.

Lemma settings_screen c fb m : settings c = settings (FramebufferConsole_new fb DEFAULT_FOREGROUND DEFAULT_BACKGROUND m) →
  columns c = usable_columns (Z.to_nat (fb_width fb)) ∧ rows c = (usable_rows (visible_height_pixels fb) `min` MAX_TRACKED_ROWS)%nat.
Proof. by intros [= _ _ _ _ -> ->]. Qed.

Lemma kprintln_shows fb o s t pieces : shows fb o s t →
  ∃ o', kprintln pieces o = Ok o' ∧ shows fb o' (foldl serial_write_byte s (line_of pieces)) (on_screen fb t (line_of pieces)).
Proof.
  intros (c & Hc & Hl & Hr & Hs). destruct (settings_screen _ _ _ Hs) as [Hcol Hrow].
  destruct (write_pieces_spec s c t (pieces ++ [[10]]) Hr) as (c' & Hw & Hs' & Hr').
  assert (concat (pieces ++ [[10]]) = line_of pieces) as Hcat by (rewrite concat_app; cbn; done).
  rewrite Hcat in Hw, Hr'. rewrite Hcol, Hrow in Hr'. unfold kprintln, write_fmt. rewrite Hc, Hl.
  cbn [try_lock initialized locked negb console expect mbind outcome_bind]. rewrite Hw. cbn [mbind outcome_bind].
  eexists. split; [done|]. exists c'. split_and!; [done|done|done|congruence].
Qed.

Lemma clear_shows fb o s t : shows fb o s t → ∃ o', clear_screen o = Ok o' ∧ shows fb o' s text_start.
Proof.
  intros (c & Hc & Hl & Hr & Hs). unfold clear_screen, console_clear, with_console. rewrite Hc.
  cbn [try_lock initialized locked negb console expect mbind outcome_bind]. eexists. split; [done|].
  exists (clear c). split_and!; [done|done|by eapply clear_again|done].
Qed.

Lemma session_shows fb o s t : shows fb o s t →
  ∃ cell, console_begin_terminal_session (screen o) = Ok cell ∧ shows fb (mkOutput (log o) cell) s (text_session t).
Proof.
  intros (c & Hc & Hl & Hr & Hs). unfold console_begin_terminal_session, with_console. rewrite Hc.
  cbn [try_lock initialized locked negb console expect mbind outcome_bind]. eexists. split; [done|].
  exists (begin_terminal_session c). split_and!; [done|done|by apply session_renders|done].
Qed.

(** The console can be cleared; [s] is the serial log. *)
Definition clearable (fb : FramebufferInfo) (o : Output) (s : Serial) : Prop :=
  ∃ o', clear_screen o = Ok o' ∧ shows fb o' s text_start.

Lemma fresh_clearable fb s pixels : roomy fb → clearable fb (mkOutput s (console_init ConsoleCell_new fb pixels)) s.
Proof. intros Hro. eexists. split; [done|]. eexists. split_and!; [done|done|by apply clear_renders|done]. Qed.

(** A fresh console after the greeting. *)
Lemma greet_shows fb s pixels : roomy fb →
  ∃ o, greet fb (mkOutput s (console_init ConsoleCell_new fb pixels)) = Ok o ∧
    shows fb o (foldl serial_write_byte s (welcome fb)) (text_session (on_screen fb text_start (welcome fb))).
Proof.
  intros Hro. unfold greet, welcome. generalize hello, (screen_line fb). intros first second.
  destruct (fresh_clearable fb s pixels Hro) as (o1 & -> & H1). cbn [mbind outcome_bind].
  destruct (kprintln_shows _ _ _ _ first H1) as (o2 & -> & H2). cbn [mbind outcome_bind].
  destruct (kprintln_shows _ _ _ _ second H2) as (o3 & -> & H3). cbn [mbind outcome_bind].
  destruct (session_shows _ _ _ _ H3) as (cell & -> & H4). cbn [mbind outcome_bind]. eexists. split; [done|].
  unfold on_screen in *. by rewrite !foldl_app.
Qed.

Lemma lines_show fb o s t lines : shows fb o s t →
  ∃ o', for_each (λ o line, kprintln line o) o lines = Ok o' ∧
    shows fb o' (foldl serial_write_byte s (concat (map line_of lines))) (on_screen fb t (concat (map line_of lines))).
Proof.
  revert o s t. induction lines as [|line lines IH]; intros o s t Hs; [by exists o|]. cbn [for_each map concat].
  destruct (kprintln_shows _ _ _ _ line Hs) as (o1 & -> & H1). cbn [mbind outcome_bind].
  destruct (IH o1 _ _ H1) as (o2 & Ho & H2). exists o2. split; [done|]. unfold on_screen in *. by rewrite !foldl_app.
Qed.

Lemma panic_shows fb o s message : clearable fb o s →
  ∃ o', panic message o = Ok o' ∧ shows fb o' (foldl serial_write_byte s (report message)) (on_screen fb text_start (report message)).
Proof.
  intros (o1 & Hc & H1). unfold panic. rewrite Hc. cbn [mbind outcome_bind].
  unfold report. generalize [ascii "lazers panic"], [ascii "kernel halted"]. intros first last.
  destruct (lines_show _ _ _ _ [first; message; last] H1) as (o2 & Ho & H2). cbn [map concat] in H2. rewrite app_nil_r in H2.
  exists o2. split; [|exact H2]. rewrite <-Ho. cbn [for_each].
  destruct (kprintln first o1) as [o3| | |]; try done. cbn [mbind outcome_bind].
  destruct (kprintln message o3) as [o4| | |]; try done. cbn [mbind outcome_bind]. by destruct (kprintln last o4).
Qed.

(** The last output of the programs is on the screen when the system stops. *)
Lemma shut_down_shows fb power t cell text out :
  shows fb (mkOutput (Terminal.serial t) cell) (Terminal.serial t) text → Queues.holds (output t) out →
  let last := line_of [ascii "shutdown unavailable: "; snd (Power.shutdown power)] in
  ∃ o, shut_down power t cell = Ok (fst (Power.shutdown power), o) ∧
    shows fb o (foldl serial_write_byte (Terminal.serial t) last) (on_screen fb text (out ++ last)).
Proof.
  intros (c & Hc & _ & Hr & Hs) Hout last. cbn [screen] in Hc. subst cell. unfold shut_down.
  destruct (bytes_spec c text out Hr) as (c1 & Hc1 & Hs1 & Hr1).
  destruct (flush_output_spec console_write_terminal_byte t (mkCell true false (Some c)) (mkCell true false (Some c1)) out Hout
    (cell_bytes _ _ _ Hc1)) as (q & -> & _). cbn [mbind outcome_bind Terminal.serial].
  assert (shows fb (mkOutput (Terminal.serial t) (mkCell true false (Some c1))) (Terminal.serial t) (on_screen fb text out)) as H1.
  { exists c1. split_and!; [done|done| |congruence]. destruct (settings_screen c fb _ Hs) as [Hcol Hrow].
    unfold on_screen. by rewrite <-Hcol, <-Hrow. }
  destruct (Power.shutdown power) as [writes reason] eqn:Hp. cbn [fst snd] in *.
  destruct (kprintln_shows _ _ _ _ [ascii "shutdown unavailable: "; reason] H1) as (o & -> & Ho). cbn [mbind outcome_bind].
  exists o. split; [done|]. unfold on_screen in *. by rewrite foldl_app.
Qed.

(** Before the console exists, a panic shows nothing. *)
Lemma panic_unseen s message : panic message (mkOutput s ConsoleCell_new) = Ok (mkOutput s ConsoleCell_new).
Proof. done. Qed.

(** ** Memory *)

(** What the allocator makes of the memory map. *)
Definition window_end (kernel_image : option (Z * Z)) (regions : list MemoryRegion) : Z :=
  match initialize_allocator kernel_image regions with Ok (_, w) => w | _ => PHYS_WINDOW_START end.

Definition screen_pages (fb : FramebufferInfo) : SharedKernelMapping :=
  pages_of (fb_base fb) (fb_base fb + fb_size fb) true.

Lemma init_window kernel_image m boot_info st root :
  KernelSpace.init kernel_image (MemoryState_new m) boot_info = Ok (st, root) →
  phys_window_end st = window_end kernel_image (memory_regions boot_info) ∧
  ∀ P : SharedKernelMapping → Prop, P (screen_pages (KernelSpace.framebuffer boot_info)) → Forall P (extra_ranges st).
Proof.
  unfold KernelSpace.init, window_end. intros ([a w] & -> & H)%bind_Ok. cbn beta iota in H.
  apply bind_Ok in H as ([r s] & _ & H). apply bind_Ok in H as (s1 & _ & H).
  apply bind_Ok in H as (last & Hlast & H). apply bind_Ok in H as (s2 & _ & [= <- <-]). split; [done|]. intros P HP.
  unfold extra_ranges, framebuffer_range. cbn. rewrite app_nil_r. case_decide; [|done]. constructor; [|done].
  unfold checked_add in Hlast. case_decide; [|done]. by injection Hlast as <-.
Qed.

(** Out of the way of programs. *)
Definition apart_user (r : SharedKernelMapping) : Prop := sh_end r ≤ USER_IMAGE_BASE ∨ USER_STACK_TOP ≤ sh_start r.

(** Where the firmware may keep its tables. *)
Definition tables_area (regions : list MemoryRegion) (w x : Z) : Prop :=
  firmware_area regions w x ∧ (x < USER_IMAGE_BASE ∨ USER_STACK_TOP ≤ x).

Lemma tables_apart regions w start end_ : start < end_ → inside (tables_area regions w) start end_ →
  apart_user (pages_of start end_ false).
Proof.
  intros Hse Hin. destruct (Hin start ltac:(lia)) as [(Hs & _) _]. destruct (Hin (end_ - 1) ltac:(lia)) as [(He & _) _].
  assert (∀ x, start ≤ x < end_ → x < USER_IMAGE_BASE ∨ USER_STACK_TOP ≤ x) as Hu by (intros x Hx; by apply Hin).
  pose proof (Hu (Z.max start USER_IMAGE_BASE)) as H1. unfold apart_user, pages_of. cbn. unfold PAGE_SIZE.
  change 4096 with (2 ^ 12). rewrite align_down_pow2, align_up_pow2 by (unfold is_u64; lia). change (2 ^ 12) with 4096.
  unfold USER_IMAGE_BASE, USER_STACK_TOP in *. Z.div_mod_to_equations. lia.
Qed.

(** ** Reading sectors *)

(** The command has room for 48 bits of a sector's number. *)
Lemma fis_mod lba : read_fis (lba mod 2 ^ 48) = read_fis lba.
Proof.
  unfold read_fis. change 0xff with (Z.ones 8).
  assert (∀ n, 0 ≤ n ≤ 40 → Z.land (Z.shiftr (lba mod 2 ^ 48) n) (Z.ones 8) = Z.land (Z.shiftr lba n) (Z.ones 8)) as H.
  { intros n Hn. apply Z.bits_inj'. intros i Hi. rewrite !Z.land_spec, !Z.shiftr_spec by done.
    destruct (decide (i < 8)).
    - by rewrite Z.mod_pow2_bits_low by lia.
    - by rewrite Z.testbit_ones_nonneg, (proj2 (Z.ltb_ge _ _)), !andb_false_r by lia. }
  by rewrite !H by lia.
Qed.

Lemma read_sector_mod {Dev} (read32 : Z → Dev * Memory → Z * (Dev * Memory)) write32 c lba w :
  Ahci.read_sector read32 write32 c (lba mod 2 ^ 48) w = Ahci.read_sector read32 write32 c lba w.
Proof.
  unfold Ahci.read_sector, write_command. by rewrite fis_mod.
Qed.

(** ** The start *)

Lemma infallible_bind {A B} core o (a : A) (k : A → started B) : infallible core o (Ok a) ≫= k = k a.
Proof. done. Qed.
Lemma or_panic_bind {E A B} core o (f : E → list (list Z)) (a : A) (k : A → started B) : or_panic core o f (Ok a) ≫= k = k a.
Proof. done. Qed.

(** What a step that fails gives to the panic handler. *)
Definition says {E A} (core_text : list (list Z)) (f : E → list (list Z)) (m : outcome E A) (message : list (list Z)) : Prop :=
  match m with Err e => message = f e | Panic => message = core_text | Ok _ | Hang => False end.

Lemma or_panic_cases {E A} core o (f : E → list (list Z)) (m : outcome E A) :
  match or_panic core o f m with
  | Ok a => m = Ok a
  | Err (Panicked message, o') => o' = o ∧ says core f m message
  | Err (Halted, _) | Panic => False
  | Hang => m = Hang
  end.
Proof. by destruct m. Qed.

Section Start.
Context {Dev : Type} (outb : Z → Z → Dev → Dev) (inb : Z → Dev → Z * Dev).
Context (outl : Z → Z → Dev → Dev) (inl_ : Z → Dev → Z * Dev).
Context (read32 : Z → Dev * Memory → Z * (Dev * Memory)) (write32 : Z → Z → Dev * Memory → Dev * Memory).
Context (kernel_image : option (Z * Z)) (layout : Layout) (configured : option (list Z)).
(** The machine: its configuration registers, its disk, its memory and what the
    boot loader reports of it. *)
Context (regs : Dev → Z → Z) (latency : nat) (disk : Z → list Z) (phase : Dev → Phase).
Context (m : Memory) (pixels : Pixels) (d : Dev) (boot_info : BootInfo) (core_text : list (list Z)).

Let regions := memory_regions boot_info.
Let fb := KernelSpace.framebuffer boot_info.
Let w := window_end kernel_image regions.
(** The serial port when it has been looked for. *)
Let serial := mkSerial (fst (Serial.init outb inb d)) [].
Let d1 := snd (Serial.init outb inb d).

(** What the success of a start is shown for: boot information that the kernel
    accepts, with fewer regions than the allocator has ranges; an image, a
    screen and tables of the firmware that are in nobody's way; and the disk
    of [Storage.attached_disk_reads], with registers outside of the window of
    physical memory and of the addresses of programs. *)
Record sound_machine_info : Prop := {
  sm_header : has_valid_header boot_info = true ∧ is_usable fb = true;
  sm_regions : Forall region_fits regions ∧ (length regions < MAX_FREE_RANGES)%nat;
  sm_image : image_fits kernel_image;
  sm_framebuffer : framebuffer_fits w fb ∧ roomy fb ∧ apart_user (screen_pages fb);
  sm_tables : acpi_rsdp_addr boot_info = 0 ∨
    ∃ pm1a pm1b a b, firmware (tables_area regions w) m (acpi_rsdp_addr boot_info) pm1a pm1b a b;
  sm_disk : Storage.machine outl inl_ read32 write32 regs latency disk phase d1;
  sm_registers : ∀ info, first_target (regs d1) info → registers_apart w info ∧ apart_user (register_range info)
}.

(** What the console shows once the kernel is up, and the serial log. *)
Definition greeting : Text := text_session (on_screen fb text_start (welcome fb)).
Definition greeted : Serial := foldl serial_write_byte serial (welcome fb).

(** The board when the disk is attached. *)
Record board_up (b : Board Dev) : Prop := {
  bp_memory : memory_ok (bd_memory b) (λ _, None);
  bp_space : kernel_space (bd_memory b) = Some (mkSpace (bd_root b));
  bp_arch : bd_arch b = Arch.init layout ArchState_new;
  bp_output : shows fb (bd_output b) greeted greeting;
  bp_power : acpi_rsdp_addr boot_info = 0 ∧ bd_power b = Unavailable MissingRsdp ∨
    (∃ pm1a pm1b s_a s_b, firmware (tables_area regions w) m (acpi_rsdp_addr boot_info) pm1a pm1b s_a s_b ∧
      (bd_power b = AcpiSoftOff (mkShutdown pm1a pm1b s_a s_b) ∨ bd_power b = Unavailable MappingFailed));
  bp_disk : ∀ lba, sectors read32 write32 b lba = Ok (disk (lba mod 2 ^ 48))
}.

Lemma power_up st root : kernel_ready regions root w apart_user m st → sound_machine_info →
  ∃ power st', Power.init kernel_map_range kernel_physical st (acpi_rsdp_addr boot_info) = Ok (power, st') ∧
    kernel_ready regions root w apart_user m st' ∧
    (acpi_rsdp_addr boot_info = 0 ∧ power = Unavailable MissingRsdp ∨
     ∃ pm1a pm1b s_a s_b, firmware (tables_area regions w) m (acpi_rsdp_addr boot_info) pm1a pm1b s_a s_b ∧
       (power = AcpiSoftOff (mkShutdown pm1a pm1b s_a s_b) ∨ power = Unavailable MappingFailed)).
Proof.
  intros Hr Hsm. destruct (sm_tables Hsm) as [H0|(pm1a & pm1b & s_a & s_b & Hfw)].
  - exists (Unavailable MissingRsdp), st. unfold Power.init, discover_acpi_shutdown. rewrite H0. auto.
  - destruct (power_init_ready regions root w apart_user (tables_area regions w) m st (acpi_rsdp_addr boot_info) pm1a pm1b s_a s_b)
      as (power & st' & Hi & Hr' & Hp); [by intros x [? _]|by apply tables_apart|done|done|].
    exists power, st'. split_and!; [done..|]. right. exists pm1a, pm1b, s_a, s_b. split; [done|]. destruct Hp as [?|[? _]]; auto.
Qed.

(** The last part: the disk is attached to a kernel that runs. *)
Lemma attach_up st root o power : kernel_ready regions root w apart_user m st → sound_machine_info → shows fb o greeted greeting →
  (acpi_rsdp_addr boot_info = 0 ∧ power = Unavailable MissingRsdp ∨
   ∃ pm1a pm1b s_a s_b, firmware (tables_area regions w) m (acpi_rsdp_addr boot_info) pm1a pm1b s_a s_b ∧
     (power = AcpiSoftOff (mkShutdown pm1a pm1b s_a s_b) ∨ power = Unavailable MappingFailed)) →
  match attach_disk outl inl_ read32 write32 d1 st with
  | Ok (c, d, st, root) => board_up (mkBoard st (Arch.init layout ArchState_new) o power c d root)
  | Err e => e = AhciControllerNotFound ∧ (∀ info, ¬ target (regs d1) info) ∨
      e ∈ Errors.Memory <$> [AllocatorExhausted; SharedKernelMappingCapacityExceeded]
  | Panic | Hang => False
  end.
Proof.
  intros [Hest Hw1 Hx1 _] [_ _ _ _ _ Hmach Hrg] Hs Hpower.
  pose proof (attach_spec outl inl_ read32 write32 regs latency disk phase regions st root d1 Hest Hmach) as Hat.
  lapply Hat; [clear Hat; intros Hat|intros info Hinfo; rewrite Hw1; by apply Hrg].
  destruct (attach_disk outl inl_ read32 write32 d1 st) as [[[[c d2] st2] root2]|e| |]; [|exact Hat|done|done].
  destruct Hat as (info & st0 & Hinfo & -> & Hest0 & Hxt & _ & Hready & Hp & Ho & Hst2).
  split; cbn [bd_memory bd_root bd_arch bd_output bd_power bd_controller bd_device]; [| |done|exact Hs|exact Hpower|].
  - apply memory_empty; [|unfold extras_apart|done|done].
    + rewrite Hst2. by destruct Hest0 as [_ [? ? ? ?] _ _ _].
    + assert (extra_ranges st2 = extra_ranges st0) as -> by (by rewrite Hst2).
      destruct (xt_ranges _ _ _ _ Hxt) as [-> | ->]; [exact Hx1|]. apply Forall_app. split; [exact Hx1|].
      constructor; [|done]. by apply Hrg.
  - rewrite Hst2. apply (es_space _ _ _ Hest0).
  - intros lba. unfold sectors. cbn [bd_controller bd_device bd_memory]. rewrite <-read_sector_mod.
    destruct (ready_read read32 write32 latency disk phase st0 c d2 _ (lba mod 2 ^ 48) Hready) as (d3 & m3 & -> & _); [|done].
    apply Z.mod_pos_bound. lia.
Qed.

Lemma bring_up_spec : sound_machine_info →
  match bring_up outb inb outl inl_ read32 write32 kernel_image layout core_text m pixels d (Some boot_info) with
  | Ok b => board_up b
  | Err (Panicked message, o) =>
      (∃ e, message = memory_failure e ∧ o = mkOutput (mkSerial false []) ConsoleCell_new ∧
        KernelSpace.init kernel_image (MemoryState_new m) boot_info = Err e ∧
        (e = NoUsableMemory ∧ (∀ x, ¬ usable_in regions x) ∨ e = AllocatorExhausted)) ∨
      (∃ e, message = mount_failure e ∧ shows fb o greeted greeting ∧
        (e = AhciControllerNotFound ∧ (∀ info, ¬ target (regs d1) info) ∨
         e ∈ Errors.Memory <$> [AllocatorExhausted; SharedKernelMappingCapacityExceeded]))
  | Err (Halted, _) | Panic | Hang => False
  end.
Proof.
  intros Hsm. pose proof Hsm as [[Hh Hu] [Hreg Hlen] Him [Hfb [Hro Hfu]] _ _ _].
  unfold bring_up. cbn [ok_or mbind outcome_bind]. fold fb. rewrite Hh, Hu. cbn [negb orb].
  assert (∀ a w', initialize_allocator kernel_image (memory_regions boot_info) = Ok (a, w') → framebuffer_fits w' fb) as Hfits.
  { intros a w' Ha. assert (w = w') as <-; [|done]. unfold w, regions, window_end. by rewrite Ha. }
  pose proof (init_spec kernel_image m boot_info Hreg Hlen Him Hfits) as Hinit.
  destruct (KernelSpace.init kernel_image (MemoryState_new m) boot_info) as [[st root]|e| |] eqn:Hi;
    cbn [or_panic map_err mbind outcome_bind]; try done; [|left; by exists e].
  destruct (init_window _ _ _ _ _ Hi) as [Hw Hx]. clear Hi.
  pose proof (initialised_ready _ _ _ _ _ apart_user Hinit (Hx _ Hfu)) as Hr. rewrite Hw in Hr.
  assert (Serial.init outb inb d = (SERIAL_READY serial, d1)) as -> by (exact (surjective_pairing _)).
  cbn [screen]. destruct (power_up st root Hr Hsm) as (power & st1 & -> & Hr1 & Hpower). rewrite infallible_bind.
  destruct (greet_shows fb serial pixels Hro) as (o & Hg & Hs).
  change (mkSerial (SERIAL_READY serial) []) with serial. rewrite Hg, infallible_bind.
  pose proof (attach_up st1 root o power Hr1 Hsm Hs Hpower) as Hat.
  destruct (attach_disk outl inl_ read32 write32 d1 st1) as [[[[c d2] st2] root2]|e| |]; cbn [or_panic map_err mbind outcome_bind]; try done.
  right. by exists e.
Qed.

(** ** The first program and the scheduler *)

Context (fuel : nat) (stack_end : nat → Z) (trampoline : Z) (terminal_entry idle_entry : Z) (registers : ThreadContext).

Let first := INITIAL_USER_PROGRAM configured.
Let load (b : Board Dev) (fs : Fat32) :=
  load_user_program_from_disk core_text fuel (sectors read32 write32 b) (bd_output b) fs (bd_memory b) first.
Let up := bring_up outb inb outl inl_ read32 write32 kernel_image layout core_text m pixels d (Some boot_info).
Let main := kernel_main outb inb outl inl_ read32 write32 kernel_image layout configured core_text fuel stack_end trampoline
  terminal_entry idle_entry registers m pixels d (Some boot_info).

Lemma give_back_release {E} buffer st st' k : give_back (E:=E) buffer st = Ok st' →
  release_buffer (E:=E) buffer (with_mem st k) = Ok (with_mem st' k).
Proof.
  unfold give_back, release_buffer. change (mem (with_mem st k)) with st.
  destruct (buffer_release _ _); try done. by intros [= <-].
Qed.

(** The program is loaded in fresh memory, from the bytes of the file. *)
Definition program_up (b : Board Dev) (fs : Fat32) (program : LoadedUserProgram) (st : MemoryState) : Prop :=
  fresh_program (bd_memory b) program st ∧
  ∃ buffer st1 st2, read_root_file (sectors read32 write32 b) fuel (Some fs) (bd_memory b) first = Ok (buffer, st1) ∧
    load_user_program st1 (as_slice (memory (store st1)) buffer) (mkStartup first []) = Ok (program, st2) ∧
    memory (store st) = memory (store st2).

Lemma sectors_bytes b : board_up b → (∀ lba, bytes_ok (disk lba)) →
  ∀ lba, ensures (sectors read32 write32 b lba) bytes_ok.
Proof. intros Hb Hd lba. rewrite (bp_disk _ Hb). by apply ensures_Ok. Qed.

Lemma load_up b fs program st : board_up b → (∀ lba, bytes_ok (disk lba)) → load b fs = Ok (program, st) → program_up b fs program st.
Proof.
  intros Hb Hd. unfold load, load_user_program_from_disk. pose proof (bp_memory _ Hb) as Hmem.
  pose proof (read_root_file_quiet _ fuel (sectors_bytes b Hb Hd) (Some fs) (bd_memory b) first (mo_builder _ _ Hmem)
    (mo_paged _ _ Hmem)) as Hfile.
  destruct (read_root_file _ _ _ _ first) as [[buffer st1]|[e st1]| |] eqn:Hread; [|done..].
  rewrite or_panic_bind. destruct Hfile as (Hq1 & Hheld & Hby).
  destruct (load_user_program st1 _ _) as [[program' st2]|[e st2]| |] eqn:Hload; [|done..].
  rewrite or_panic_bind. destruct (give_back buffer st2) as [st3|e| |] eqn:Hgive; [|done..].
  rewrite infallible_bind. intros [= -> ->].
  set (k := mkKernel (mkMachine SchedulerState_new ThreadContext_zeroed (mkSpace 0) 0) st2 (TerminalEndpoint_new serial) None).
  pose proof (give_back_release buffer st2 st k Hgive) as Hrel.
  destruct (load_through_buffer (bd_memory b) _ k st1 buffer _ program st2 _ Hmem Hq1 Hheld Hby Hload Hrel) as (st' & Hst & Hfresh).
  assert (st' = st) as -> by (by injection Hst). split; [done|]. exists buffer, st1, st2. split_and!; [done..|].
  unfold give_back in Hgive. destruct (buffer_release _ _); try done. by injection Hgive as <-.
Qed.

(** The system runs. *)
Definition system_up (sys : System Dev) : Prop :=
  let b := sy_board sys in
  up = Ok b ∧ board_up b ∧
  shows fb (mkOutput (serial_write_byte greeted 10) (sy_screen sys)) (serial_write_byte greeted 10) (on_screen fb greeting [10]) ∧
  ∃ fs program st, mount_system (sectors read32 write32 b) = Ok fs ∧ program_up b fs program st ∧
    sy_kernel sys = booted_kernel stack_end trampoline (mkSpace (bd_root b)) terminal_entry idle_entry registers program st
      (TerminalEndpoint_new (serial_write_byte greeted 10)) (Some fs).

Lemma main_spec sys : sound_machine_info → (∀ lba, bytes_ok (disk lba)) → stacks_placed stack_end →
  main = Ok sys → system_up sys.
Proof.
  intros Hsm Hd Hst. pose proof (bring_up_spec Hsm) as Hup. fold up in Hup. unfold main, kernel_main. fold up.
  destruct up as [b|e| |] eqn:Hbring; [|done..]. cbn [mbind outcome_bind]. cbv zeta.
  destruct (mount_system (sectors read32 write32 b)) as [fs|e| |] eqn:Hmount; [|done..].
  rewrite or_panic_bind. fold first. fold (load b fs).
  destruct (load b fs) as [[program st]|e| |] eqn:Hload; [|done..]. cbn [mbind outcome_bind].
  pose proof (load_up b fs program st Hup Hd Hload) as Hl.
  assert (kernel_space st = Some (mkSpace (bd_root b))) as Hspace.
  { destruct (fp_quiet _ _ _ (proj1 Hl)) as (a & m' & -> & _). apply (bp_space _ Hup). }
  unfold kernel_address_space. rewrite Hspace. cbn [expect]. rewrite or_panic_bind.
  destruct (kprintln_shows _ _ _ _ [] (bp_output _ Hup)) as (o & -> & Ho). rewrite infallible_bind.
  rewrite (boot_spec stack_end trampoline Hst), infallible_bind. cbn [ok_or mbind outcome_bind]. intros [= <-].
  assert (log o = serial_write_byte greeted 10) as Hlog by (by destruct Ho as (c & _ & ? & _)).
  split; [done|]. split; [done|]. cbn [sy_screen sy_board sy_kernel]. split.
  { destruct Ho as (c & ? & ? & ?). exists c. by split. }
  exists fs, program, st. split_and!; [done|done|]. unfold booted_kernel. by rewrite Hlog.
Qed.

(** With a serial port, what the self-test program is run on when it is the
    first program ([Selftest.selftest_passes]). *)
Lemma system_first_state sys : system_up sys → SERIAL_READY greeted = true →
  ∃ program, current_thread (scheduler (sy_kernel sys)) = Some 0%nat ∧
    process_at (scheduler (sy_kernel sys)) 1 = Some (boot_user_process program) ∧
    (boot_user_process program, terminal (sy_kernel sys)) = first_state program (sent greeted ++ [13; 10]).
Proof.
  intros (_ & _ & _ & fs & program & st & _ & _ & ->) Hready. exists program. split_and!; [done|done|].
  unfold booted_kernel, first_state. cbn [terminal]. unfold serial_write_byte. rewrite Hready. cbn [negb Z.eqb Pos.eqb].
  unfold write_raw_byte. cbn [sent SERIAL_READY]. by rewrite Hready, <-app_assoc.
Qed.

(** ** A start that fails, on any machine *)

(** Nothing on the screen and nothing on the serial line. *)
Definition silent : Output := mkOutput (mkSerial false []) ConsoleCell_new.
Definition refused : Prop := has_valid_header boot_info = false ∨ is_usable fb = false.

Abbreviation memory_up := (KernelSpace.init kernel_image (MemoryState_new m) boot_info).
Abbreviation power_up_from st := (Power.init kernel_map_range kernel_physical st (acpi_rsdp_addr boot_info)).
Abbreviation attach st := (attach_disk outl inl_ read32 write32 d1 st).

(** The step that fails once memory is up, with the message that it leaves to
    the panic handler and the serial log so far. *)
Inductive fails_at (st : MemoryState) : list (list Z) → Serial → Prop :=
| FailsPower message : says core_text (λ _, core_text) (power_up_from st) message → fails_at st message serial
| FailsAttach power st1 message : power_up_from st = Ok (power, st1) →
    says core_text mount_failure (attach st1) message → fails_at st message greeted
| FailsMount b message : up = Ok b →
    says core_text mount_failure (mount_system (sectors read32 write32 b)) message → fails_at st message greeted
| FailsRead b fs message : up = Ok b → mount_system (sectors read32 write32 b) = Ok fs →
    says core_text (λ '(e, _), read_failure first e)
      (read_root_file (sectors read32 write32 b) fuel (Some fs) (bd_memory b) first) message → fails_at st message greeted
| FailsLoad b fs buffer st1 message : up = Ok b → mount_system (sectors read32 write32 b) = Ok fs →
    read_root_file (sectors read32 write32 b) fuel (Some fs) (bd_memory b) first = Ok (buffer, st1) →
    says core_text (λ '(e, _), load_failure first e)
      (load_user_program st1 (as_slice (memory (store st1)) buffer) (mkStartup first [])) message → fails_at st message greeted
| FailsRelease b fs buffer st1 program st2 message : up = Ok b → mount_system (sectors read32 write32 b) = Ok fs →
    read_root_file (sectors read32 write32 b) fuel (Some fs) (bd_memory b) first = Ok (buffer, st1) →
    load_user_program st1 (as_slice (memory (store st1)) buffer) (mkStartup first []) = Ok (program, st2) →
    says (E:=()) core_text (λ _, core_text) (give_back buffer st2) message → fails_at st message greeted
| FailsSpace b fs program st1 message : up = Ok b → mount_system (sectors read32 write32 b) = Ok fs →
    load b fs = Ok (program, st1) → kernel_space st1 = None → message = core_text → fails_at st message greeted.

(** The step that does not come to an end. *)
Inductive hangs_at : Prop :=
| HangsMemory : memory_up = Hang → hangs_at
| HangsPower st root : memory_up = Ok (st, root) → power_up_from st = Hang → hangs_at
| HangsAttach st root power st1 : memory_up = Ok (st, root) → power_up_from st = Ok (power, st1) → attach st1 = Hang → hangs_at
| HangsMount b : up = Ok b → mount_system (sectors read32 write32 b) = Hang → hangs_at
| HangsLoad b fs : up = Ok b → mount_system (sectors read32 write32 b) = Ok fs → load b fs = Hang → hangs_at.

Definition failure (message : list (list Z)) (o : Output) : Prop :=
  o = silent ∧ says core_text memory_failure memory_up message ∨
  ∃ st root s, memory_up = Ok (st, root) ∧ clearable fb o s ∧ fails_at st message s.

Lemma bring_up_any : (is_usable fb = true → roomy fb) →
  match bring_up outb inb outl inl_ read32 write32 kernel_image layout core_text m pixels d (Some boot_info) with
  | Ok b => shows fb (bd_output b) greeted greeting ∧ ∃ st root, memory_up = Ok (st, root)
  | Err (Halted, o) => o = silent ∧ refused
  | Err (Panicked message, o) => failure message o
  | Panic => False
  | Hang => hangs_at
  end.
Proof.
  intros Hroomy. unfold bring_up. cbn [ok_or mbind outcome_bind]. fold fb.
  destruct (has_valid_header boot_info) eqn:Hh; cbn [negb orb]; [|split; [done|by left]].
  destruct (is_usable fb) eqn:Hu; cbn [negb]; [|split; [done|by right]]. specialize (Hroomy eq_refl).
  destruct memory_up as [[st root]|e| |] eqn:Hm; cbn [or_panic mbind outcome_bind];
    [|left; split; [done|by rewrite Hm]..|by apply HangsMemory].
  assert (Serial.init outb inb d = (SERIAL_READY serial, d1)) as -> by (exact (surjective_pairing _)).
  change (mkSerial (SERIAL_READY serial) []) with serial. cbn [screen].
  pose proof (fresh_clearable fb serial pixels Hroomy) as Hfresh.
  destruct (greet_shows fb serial pixels Hroomy) as (o & Hg & Hs). unfold infallible. rewrite Hg. clear Hg.
  pose proof (or_panic_cases core_text (mkOutput serial (console_init ConsoleCell_new fb pixels))
    (λ _, core_text) (power_up_from st)) as Hp.
  destruct (or_panic core_text _ _ (power_up_from st)) as [[power st1]|[[|message] o']| |]; cbn [or_panic mbind outcome_bind]; try done;
    [|right; exists st, root, serial; destruct Hp as [-> Hp]; split; [done|]; split; [done|by apply FailsPower]|by eapply HangsPower].
  destruct (attach st1) as [[[[c d2] st2] root2]|e| |] eqn:Ha; cbn [or_panic mbind outcome_bind]; [eauto| |..|by eapply HangsAttach].
  all: right; exists st, root, greeted; split; [done|]; split; [by eapply clear_shows|]; eapply FailsAttach; [done|by rewrite Ha].
Qed.

Lemma load_any b fs st : up = Ok b → mount_system (sectors read32 write32 b) = Ok fs → clearable fb (bd_output b) greeted →
  match load b fs with
  | Ok _ => True
  | Err (Panicked message, o) => clearable fb o greeted ∧ fails_at st message greeted
  | Err (Halted, _) | Panic => False
  | Hang => hangs_at
  end.
Proof.
  intros Hup Hmount Hc. destruct (load b fs) as [[program st']|[e o]| |] eqn:Hload; [done| | |by eapply HangsLoad].
  all: unfold load, load_user_program_from_disk in Hload.
  all: destruct (read_root_file _ _ _ _ first) as [[buffer st1]|e1| |] eqn:Hread; cbn [or_panic mbind outcome_bind] in Hload; try done.
  2, 3: (injection Hload as <- <-; split; [done|]; eapply FailsRead; [done|done|by rewrite Hread]).
  all: destruct (load_user_program st1 _ _) as [[program st2]|e2| |] eqn:Hprogram; cbn [or_panic mbind outcome_bind] in Hload; try done.
  2, 3: (injection Hload as <- <-; split; [done|]; eapply FailsLoad; [done|done|done|by rewrite Hprogram]).
  all: destruct (give_back buffer st2) as [st3|e3| |] eqn:Hgive; cbn [infallible or_panic mbind outcome_bind] in Hload; try done.
  all: injection Hload as <- <-; split; [done|]; eapply FailsRelease; [done..|by rewrite Hgive].
Qed.

Lemma main_any : (is_usable fb = true → roomy fb) → stacks_placed stack_end →
  match main with
  | Ok _ => True
  | Err (Halted, o) => o = silent ∧ refused
  | Err (Panicked message, o) => failure message o
  | Panic => False
  | Hang => hangs_at
  end.
Proof.
  intros Hroomy Hst. pose proof (bring_up_any Hroomy) as Hany. fold up in Hany. unfold main, kernel_main. fold up.
  destruct up as [b|[[|message] o]| |] eqn:Hup; cbn [mbind outcome_bind]; try done. cbv zeta. destruct Hany as (Hs & st & root & Hm).
  assert (clearable fb (bd_output b) greeted) as Hc by (by eapply clear_shows).
  destruct (mount_system (sectors read32 write32 b)) as [fs|e| |] eqn:Hmount; cbn [or_panic mbind outcome_bind]; [| |..|by eapply HangsMount].
  2, 3: (right; exists st, root, greeted; split; [done|]; split; [done|]; eapply FailsMount; [done|by rewrite Hmount]).
  fold first. fold (load b fs). pose proof (load_any b fs st Hup Hmount Hc) as Hl.
  destruct (load b fs) as [[program st']|[[|message] o]| |] eqn:Hload; cbn [mbind outcome_bind]; try done.
  2: { destruct Hl. right. by exists st, root, greeted. }
  unfold kernel_address_space. destruct (kernel_space st') as [space|] eqn:Hspace; cbn [expect or_panic mbind outcome_bind].
  2: { right. exists st, root, greeted. split; [done|]. split; [done|]. by eapply FailsSpace. }
  destruct (kprintln_shows _ _ _ _ [] Hs) as (o & -> & Ho). rewrite infallible_bind.
  by rewrite (boot_spec stack_end trampoline Hst), infallible_bind.
Qed.

(** * Properties *)

(** C3. The kernel starts soundly.  On a machine with the documented parts
    (boot information that the kernel accepts, firmware tables if there are any,
    an AHCI disk on the first port of the first controller or no controller,
    any serial port; [sound_machine_info]), when the entry point
    comes to the first switch, then the parts are up: memory is owned by
    nobody but the kernel, the greeting is on the screen and on the serial
    line, power control is what the tables describe, every sector of the disk
    can be read, and the first program is the file on the disk, in memory of its own.
    The isolation of processes holds of this start, and the kernel's invariant
    of every state that the system runs to from it. *)
Theorem kernel_main_sound sys : sound_machine_info → (∀ lba, bytes_ok (disk lba)) → stacks_placed stack_end →
  main = Ok sys →
  system_up sys ∧
  (∃ program st, sound_start (bd_memory (sy_board sys)) st program ∧ mem (sy_kernel sys) = st ∧
    process_at (scheduler (sy_kernel sys)) 1 = Some (boot_user_process program)) ∧
  ∀ partial k, (∀ b, length (partial b) = length b) →
    rtc (system_step partial (sectors read32 write32 (sy_board sys)) fuel stack_end trampoline) (sy_kernel sys) k →
    kernel_ok k.
Proof.
  intros Hsm Hd Hst Hmain. pose proof (main_spec sys Hsm Hd Hst Hmain) as Hup. split; [exact Hup|].
  destruct Hup as (_ & Hb & _ & fs & program & st & _ & [Hfresh _] & Hk). pose proof (bp_memory _ Hb) as Hmem. split.
  - exists program, st. rewrite Hk. split_and!; [exact (conj Hmem Hfresh)|done|].
    done.
  - intros partial k Hpart Hrun. eapply system_run_ok; [exact Hpart|by apply sectors_bytes|exact Hst| |exact Hrun].
    rewrite Hk. by apply (booted_kernel_ok _ _ _ _ _ _ (bd_memory (sy_board sys))).
Qed.


End Start.

(** ** A machine that starts

    A disk of forty sectors with a partition table, a file system with one file and in
    it a small program; the tables of the firmware; a bus with an AHCI
    controller; a screen; no serial port. *)

(** An entry of the table: type, first and last sector, name. *)
Definition disk_entry (guid : list Z) (first last : Z) (name : string) : list Z :=
  guid ++ replicate 16 0 ++ to_le_bytes 8 first ++ to_le_bytes 8 last ++ replicate 8 0 ++
  concat (map (λ b, [b; 0]) (ascii name)) ++ replicate (72 - 2 * String.length name) 0.
Definition disk_boot_sector : list Z :=
  replicate 11 0 ++ to_le_bytes 2 512 ++ [1] ++ to_le_bytes 2 1 ++ [1] ++ to_le_bytes 2 0 ++ to_le_bytes 2 30 ++ [0] ++
  to_le_bytes 2 0 ++ replicate 8 0 ++ to_le_bytes 4 0 ++ to_le_bytes 4 1 ++ replicate 4 0 ++ to_le_bytes 4 2.
Definition disk_table : list Z :=
  concat (map (to_le_bytes 4) [0; 0; 0x0fffffff; 0x0fffffff]).
Definition disk_directory : list Z :=
  ascii "A       TXT" ++ [0x20] ++ replicate 8 0 ++ [0; 0] ++ replicate 4 0 ++ [3; 0] ++
  to_le_bytes 4 (Z.of_nat (length UserProgram.sample_program)).

Definition full_disk (lba : Z) : list Z :=
  padded_sector
    (if lba =? 1 then ascii "EFI PART" ++ replicate 64 0 ++ to_le_bytes 8 2 ++ to_le_bytes 4 2 ++ to_le_bytes 4 128
     else if lba =? 2 then disk_entry EFI_SYSTEM_PARTITION_GUID 3 4 "ESP" ++ disk_entry (replicate 16 7) 10 39 "LAZERS-SYSTEM"
     else if lba =? 10 then disk_boot_sector
     else if lba =? 11 then disk_table
     else if lba =? 12 then disk_directory
     else if lba =? 13 then UserProgram.sample_program
     else []).

Definition sample_info : BootInfo := BootInfo_new sample_screen (memory_regions sample_boot) 0x80000.
Definition sample_layout : Layout := mkLayout 1 2 3 4 5 6 7.
Definition sample_text : list (list Z) := [ascii "attempt to add with overflow"].

Abbreviation sample_run disk :=
  (kernel_main (λ _ _ d, d) (λ _ d, (0xff, d)) sample_out sample_in (sample_read disk) sample_write
    KernelSpace.sample_image sample_layout (Some (ascii "/a.txt")) sample_text 8 sample_stacks 4096 1 2 ThreadContext_zeroed
    sample_firmware (λ _, 0) (0, Reset) (Some sample_info)).

Definition sector_ok (sector : list Z) : bool := bool_decide (bytes_ok sector) && (length sector =? 512)%nat.

Lemma full_disk_ok lba : bytes_ok (full_disk lba) ∧ length (full_disk lba) = 512%nat.
Proof.
  assert (sector_ok (full_disk lba) = true) as [H1%bool_decide_eq_true H2%Nat.eqb_eq]%andb_true_iff; [|done].
  unfold full_disk. repeat (destruct (_ =? _); [by vm_compute|]). by vm_compute.
Qed.

(** The machine with any disk. *)
Lemma sample_info_sound disk : (∀ lba, length (disk lba) = 512%nat) →
  sound_machine_info (λ _ _ d, d) (λ _ d, (0xff, d)) sample_out sample_in (sample_read disk) sample_write KernelSpace.sample_image
    (λ _, sample_register) 5 disk snd sample_firmware (0, Reset) sample_info.
Proof.
  intros Hlen. destruct sample_boot_fits as (Hr & Hl & Hi & _).
  assert (window_end KernelSpace.sample_image (memory_regions sample_info) = 0x1200000) as Hw by (vm_compute; reflexivity).
  split; [by split|exact (conj Hr Hl)|exact Hi| | | |].
  - rewrite Hw. split_and!; [|exact sample_screen_roomy|by right].
    split; unfold PAGE_SIZE, PHYS_WINDOW_START; vm_compute; (congruence || (right; left; discriminate)).
  - right. exists 0x604, None, 5, 0. apply sample_firmware_ok. intros x Hx. rewrite Hw. split.
    + split_and!; [lia|lia| |unfold in_window, PHYS_WINDOW_START; lia].
      intros (r & Hin & Hk & ? & ?). cbn in Hin. rewrite !elem_of_cons, elem_of_nil in Hin.
      destruct Hin as [->|[->|[]]]; cbn in *; [done|unfold PAGE_SIZE in *; lia].
    + left. unfold USER_IMAGE_BASE. lia.
  - by apply sample_bus_machine.
  - intros info [(_ & _ & Ha & _) _]. cbn [snd Serial.init] in *. rewrite sample_abar in Ha.
    unfold register_range, register_start, register_end, registers_apart, apart_user. rewrite Hw.
    unfold register_start, register_end. rewrite Ha. cbn [sh_start sh_end]. split; right; by vm_compute.
Qed.

(** It starts, with power control. *)
Definition with_power {Dev} (r : started (System Dev)) : bool :=
  match r with
  | Ok sys => match bd_power (sy_board sys) with AcpiSoftOff _ => true | _ => false end
  | _ => false
  end.

Lemma kernel_main_sound_witness :
  ∃ sys, sample_run full_disk = Ok sys ∧ kernel_ok (sy_kernel sys) ∧
    ∃ shutdown, bd_power (sy_board sys) = AcpiSoftOff shutdown.
Proof.
  assert (with_power (sample_run full_disk) = true) as Hok by (vm_compute; reflexivity).
  destruct (sample_run full_disk) as [sys|e| |] eqn:Hrun; try discriminate Hok. cbn [with_power] in Hok. exists sys. split; [reflexivity|].
  destruct (kernel_main_sound (λ _ _ d, d) (λ _ d, (0xff, d)) sample_out sample_in (sample_read full_disk) sample_write
    KernelSpace.sample_image sample_layout (Some (ascii "/a.txt")) (λ _, sample_register) 5 full_disk snd sample_firmware (λ _, 0)
    (0, Reset) sample_info sample_text 8 sample_stacks 4096 1 2 ThreadContext_zeroed sys
    (sample_info_sound full_disk (λ lba, proj2 (full_disk_ok lba))) (λ lba, proj1 (full_disk_ok lba)) sample_stacks_placed Hrun)
    as (_ & _ & Hreach).
  split; [exact (Hreach id _ (λ _, eq_refl) (rtc_refl _ _))|].
  destruct (bd_power (sy_board sys)) as [|shutdown|] eqn:Hpower; try discriminate Hok. by exists shutdown.
Defined.

(** With a disk without a partition table the kernel halts with a message. *)
Abbreviation sample_report :=
  (run (λ _ _ d, d) (λ _ d, (0xff, d)) sample_out sample_in (sample_read Ahci.sample_disk) sample_write
    KernelSpace.sample_image sample_layout None sample_text 8 sample_stacks 4096 1 2 ThreadContext_zeroed
    sample_firmware (λ _, 0) (0, Reset) (Some sample_info)).

Definition reported {Dev} (r : outcome () (System Dev + Output)) : bool :=
  match r with Ok (inr o) => initialized (screen o) | _ => false end.

